(* ===== verification/_CoqProject ===== *)
-Q . S2P
Prelude.v
RustStd.v
Sequences.v
RustText.v
History.v
Json.v
Protocol.v
Schema.v
Store.v
Leases.v
Redact.v
Tasks.v
Contracts.v
Templates.v
Evidence.v
Lifecycles.v
Controller.v
Samples.v
Observability.v
Peers.v
Connections.v
Fabric.v
Registry.v
Approvals.v
Drivers.v
TaskRpc.v
Relay.v
Transactions.v
Invoke.v
Authority.v
Dispatch.v
Reports.v
Catalog.v
Arbitration.v
Enforcement.v
Executors.v
Confinement.v
Processes.v
Supervision.v
Commands.v
Tunnels.v
Ports.v
Disk.v
Copies.v
Files.v
Artifacts.v
Fencing.v
Desktop.v
ComputerUse.v
Sessions.v
Clipboard.v
Packs.v
Deployments.v
Board.v
Web.v
