(* ===== verification/Prelude.v ===== *)
(** * Distributed workbench: a verification library

    Distributed workbench lets several agents work on several machines through
    one RPC protocol.  A _controller_ keeps the durable records of a workspace
    (sessions, tasks, leases, approvals, transactions) and decides who may do
    what; an _executor_ runs capabilities on one machine and arbitrates the
    machine's shared resources and its interactive desktop; a command line and
    a telemetry store sit around them.  The library models the program's
    decisions: what is admitted, what is recorded, what is sent and what
    survives a crash.  All of it is under [src/crates/].

    ** How the files follow the source

    - This file, [RustStd], [Sequences], [RustText], [History], [Json]: the ground.  Integers at the
      width the Rust code gives them; [outcome], where a panic is a value of its
      own and never an error; the monad [M] of handlers over a state and a
      [world] (clock readings, UUID draws, success of each disk write, in the
      order they are consumed); the parts of [str], [BTreeMap] and [Vec] the
      code uses (sorting and cutting of vectors in [Sequences]); [serde_json::Value].
    - [Protocol], [Schema], [Store]: the RPC envelope and its trace context
      ([workbench-protocol]), the resource contracts ([workbench-schema]), and
      the state file ([workbench-core/src/store.rs]) as system calls over a file
      system, each of which may fail.
    - [Leases], [Redact], [Tasks]: the two tables of [workbench-core]
      ([lease.rs], [task.rs]), one definition per method.
    - [Contracts], [Evidence]: the controller's pure helpers: schema checks,
      lock templates, approval digests, and the bounded form in which evidence
      is kept.
    - [Lifecycles]: for every kind of record, what one request may change.
    - [Controller]: the controller's state and primitives; [Registry],
      [Approvals], [Drivers], [TaskRpc], [Relay], [Transactions] and [Invoke]:
      its handlers, a file per family; [Dispatch]: routing, the request loop,
      workers and start.  [Authority] is a small program logic for the requests
      a handler sends.  All model [workbench-runtime/src/controller.rs].
    - [Observability] ([workbench-core/src/observability.rs]): the store of runs and
      observations over its two tables; [Reports]: the actions of the controller
      that read and write it and the ones that show its state ([status],
      [dashboard.snapshot], [run.*], [observability.query],
      [observation.append]), with the observations the request loop records.
    - [Arbitration] ([resource.rs]), [Desktop] ([desktop.rs]): the executor's
      permits and its desktop queue, each with its state file.
    - [Catalog], [Templates], [Enforcement], [Executors], [Confinement]: the
      executor's own rules ([workbench-runtime/src/executor.rs]): the contract
      of every capability, the templates of locks and authorities, the fences it
      accepts, its capacity and requests in flight, and the paths and read
      grants that confine it.  [Fencing] puts controller and executors together.
    - [Processes], [Supervision]: child processes ([process.rs]) and what their
      table guarantees.  [Commands], [Tunnels], [Ports]: the arms of the
      executor's [dispatch] that run commands, supervise processes and keep
      [ssh] tunnels, and the ports the tunnels hold.
    - [Disk]: a tree of files, directories and links with the Unix calls on it,
      each of which the environment may refuse, and the calls that copy files and
      links ([Copies]).  [Files], [Artifacts]: the
      [filesystem.*], [artifact.describe] and [artifact.relay.*] arms over it.
    - [Packs], [Deployments] ([generation.rs]): the Chromium data pack writer and
      reader; the generations of an application, their overlays, states and
      activation, with the arms [application.materialize],
      [application.apply-artifacts], [generation.record] and
      [generation.activate].
    - [Peers], [Connections] ([peer.rs], [rpc.rs], [transport.rs]): the framed
      connection between two nodes, as the steps of its two ends (callers, the
      reader, the threads that serve), and what surrounds it: handshake, remote
      commands and their quoting, the reconnect loop, local sockets, endpoints.
    - [Fabric], [Board], [Web] ([workbench-cli/src/main.rs]): fabric manifests and
      their plan; the workspace board as a function of the controller's reports;
      the dashboard server with its operator session, its routes and its event
      streams.
    - [ComputerUse] ([computer_use.rs]), [Sessions] ([desktop_dispatch] and the
      reaper in [executor.rs]): the host an executor runs for the session that
      holds its desktop, and how queue, permits and host are put together, first as
      the handler, then as the steps between which other requests come.
    - [Clipboard] ([workbench-runtime/src/clipboard.rs],
      [workbench-cli/src/clipboard_cli.rs]): the image clipboard of a node and the
      command that sends an image to another one.
    - [Samples]: a concrete platform and controller for the witnesses.

    Rust names are kept, a struct is the record [t] of a module of its name, and
    a field or variant name is written as Rocq allows.  A method that takes
    [&mut self] returns the new state next to its result; [?] is the bind of
    [outcome] or of [M]; [unwrap], [expect] and an index out of range are
    [Panic].

    ** What is a parameter

    The class [Platform] ([Controller]) holds what is outside the repository:
    [serde_json]'s text, the [serde] codecs of the records, the digests of
    [sha2], and the answer of another node to a request.  A theorem that needs a
    law of one of them has it as a hypothesis, with a witness at
    [sample_platform].  [Dispatch] takes the reporting actions ([status],
    [dashboard.snapshot], [run.*], [observability.*]) as the parameter
    [reports], assumed only not to assign the controller's state; [Reports] gives it
    and discharges the assumption ([reports_quiet]).  The texts of stored runs and
    observations are the class [RecordText] with the law [reads_back]
    ([Observability]), those of the reports the class [ReportText].  The text of
    frames is the class [Wire] ([Peers]) with the law [carries]; what a POSIX shell
    reads is a function with the law [posix] ([Connections]); the dashboard takes
    the controller's answers and the texts of JSON as arguments.  What the child
    process and its connection answer, turn by turn, is the class [Machine]
    ([ComputerUse]); the native clipboard is the class [Native] and what lies
    between two nodes the class [Network] ([Clipboard]), with the laws
    [base64_reads_back] and [fields_passed_on].

    ** What the theorems show

    - Tables: fences grow with every grant; a live lease survives what others
      do, short of a take by the one it is offered to; only the holder of a grant validates, also after a restart; tasks only
      move along the state machine, each with a gapless event log; submission is
      idempotent under its key; retention and orphan recovery do exactly what
      they claim; nothing secret reaches the snapshot.
    - State file: a save that fails at any system call leaves the old state
      readable, one that succeeds the new.
    - Controller: every invocation that leaves a controller is the one its caller
      asked for and was authorized (contract, driver or lease, approval); an approval is used once, over any
      later history; an answer that acknowledges a change implies the disk
      holds it; and, over a whole [lifetime] (requests, workers, crashes and
      restarts in any order), a session's home never changes, generations,
      handoffs and driver requests only move forward, and transaction journals
      only grow.  A start from a saved state resumes it.
    - Relay: the transfer writes at each place what the source answered for it, so
      that it moves every byte of the archive once, in order, and gives back its
      lease whatever happens.
    - Executor: permits are exclusive, crashes quarantine what was running,
      leases are respected at admission; the desktop queue is first in, first
      out with one holder and growing epochs, and it fails closed.
    - Executor rules: every mutation of the catalog has an authority; the
      authority a controller prepares is the one the executor expects; accepted
      fences never go back, and executors accept the invocations under a
      workspace's driver leases in the order of their dispatch;
      requests in flight are within capacity and exclude each other; a checked
      path is confined, and a revoked grant opens nothing.
    - Processes: a signal reaches only children the table started, none of them
      is forgotten while writes succeed, waiting ends, an approval covers what
      runs; a tunnel is reported ready only when it is seen to serve, its [ssh]
      opens no other forward, and no two tunnels hold one port.
    - Files and artifacts: where no link is planted, a request below the allowed
      roots changes nothing outside of them, and its answer has the type of its contract; a write is all or nothing,
      what is removed can be restored, a search finds the first matches; a copy is
      its source, a chunk arrives where it belongs, an archive unpacks no more
      than it announced, and at each refused call of a commit it is said where the
      old artifact and the new one are.  Each names the links and
      the overlaps of places it has to exclude, and the examples show why.
    - Packs: what is written reads back, and an incremental pack is the full
      pack.
    - Deployments: a generation appears complete or not at all, and asking for it
      again gives the same answer; its state is recorded whole or not; only a
      ready generation is activated, and the links [current] and [previous] move
      in single steps; an overlay that fails leaves what was there.
    - Peers: however two ends interleave and fail, their callers see calls made
      at most once and answered at most once by the role they named; who waits
      when the connection breaks is told; a call can always be completed while it
      holds.  A handshake succeeds exactly between the nodes that expect each
      other, a remote command reads back as its values, and the pauses of the
      reconnect loop keep to their schedule.
    - Fabric, board and dashboard: a plan is a full mesh in which it is settled who
      dials; a workspace is blocked exactly when a blocker stands in its 300 latest
      events, and the board leaves nothing out; only the holder of the
      operator session reaches the controller through a connection of the
      dashboard, whose own thread asks for observations only; the session is handed out once, and a stream misses nothing while it keeps
      up.
    - Desktop sessions: a tool call is written to the host only under the session
      that holds the desktop; an outcome nobody knows stops every call until a
      person confirms a reset; the handler is a path of the steps; a host that was
      accepted has shown its token, and a start ends.
    - Clipboard: a push that reports success has put the image on the target's
      clipboard, pixel for pixel.
    - Observations: reading by pages misses nothing while the store is written, a
      run finishes once, pruning ends and spares what is running, and a query over
      several nodes answers with the merge of what each of them returned.
    - Contracts: the schema check agrees with a declarative reading of the
      schema; lock rendering terminates; traversals are bounded.

    ** Bounds and fuel

    [Contracts.render_lock], [Relay.relay_chunks] and the [task.wait] loop take
    fuel, and run out of it as [Panic] or by stopping; the theorems about them
    say how much is enough ([render_lock_terminates]: the length of the
    template; [relay_archive_releases_its_lease]: the archive's size, since each
    turn moves by at least a byte; [wait_ready_answers] and
    [command_run_answers]: one turn per 250 and 25 ms of the timeout, and one
    more).  [Templates] gives the loop of [render_authority_resource] the same
    fuel as [render_lock].  [Files.search_tree], [Artifacts.copy_relay_tree],
    [Deployments.copy_tree] and [Deployments.apply_overlay_tree] take the depth
    of the tree.  [ObservabilityStore.shrink] takes one turn more than there are
    observations ([prune_ends]).  [ComputerUse.accept_host] looks 1200 times, the
    30 seconds of the code by its pause of 25 ms.  Recursion over JSON values is structural.

    ** What is idealised

    - Requests are served one at a time: the session gates and the tokio locks
      are not modelled, and a handler's reads and writes are one step.  A worker
      spawned by an asynchronous invocation is a step of its own, between two
      requests.
    - A crash loses what is in memory and keeps the last state file; the
      recovery of a half-written file is [Store]'s theorem.
    - On a [Disk] a call that reads fails only when what it reads is missing or of
      another kind, names are UTF-8, a special file is never opened, and a write
      that fails writes nothing; an archive is written when it is finished.
      Permission bits are not kept: changing them is a call that may be refused.
      A path is shown by its components.
    - A frame is written through, or lost, or leaves a line that is no frame, and
      every lock section of a bridge is one step; the ids drawn by one end are
      distinct.  Connections of the dashboard are taken in the order in which they
      reach its flag, and a turn of its observing thread lies between two of them.
    - An SQL statement happens whole or is refused.  Requests that go to many
      nodes at once are asked one after the other.
    - A call to the computer-use host is one step, and other requests come before
      or after it.  The probes of a clipboard's targets run one after the other.
    - [Instant::now] reads the same clock as [now_ms].  Log output is left out.

    ** Not modelled

    The SQL engine and its files; the sockets themselves, the listener of
    [rpc.rs], the peer lease on its socket and the deployment of a binary over
    [ssh] ([transport.rs]); the native desktop interfaces ([macos.rs],
    [windows.rs]), and the variants of [process.rs] and of the tunnels' listener
    check for macOS and Windows, which ask other tools; what Windows does instead of
    ending the host's process, and its check of the session before a clipboard is
    read; the parsing of the command
    line and the log file ([telemetry.rs]).  They are platform calls around the
    components above.  So are the executor's [ui.*] arms and the [application.*]
    arms that stop, launch and probe a program. *)

From Stdlib Require Import ZArith Lia.
From stdpp Require Export prelude gmap strings sorting pretty.

#[global] Open Scope Z_scope.

(** ** Machine integers

    [u64], [u32] and [usize] values are integers of [Z]; the functions below
    write out what the Rust operators do at the width's edge.  The release
    profile of the workspace does not enable overflow checks, so a plain
    [a + b] wraps. *)

Definition u64_max : Z := 2 ^ 64 - 1.
Definition u64_wrap (z : Z) : Z := z mod 2 ^ 64.
Definition u64_add (a b : Z) : Z := u64_wrap (a + b).
Definition u64_saturating_add (a b : Z) : Z := Z.min (a + b) u64_max.
Definition u64_saturating_mul (a b : Z) : Z := Z.min (a * b) u64_max.
Definition saturating_sub (a b : Z) : Z := Z.max (a - b) 0.
Definition u32_wrap (z : Z) : Z := z mod 2 ^ 32.
Definition u32_add (a b : Z) : Z := u32_wrap (a + b).

Lemma u64_add_small a b : 0 <= a + b -> a + b <= u64_max -> u64_add a b = a + b.
Proof. unfold u64_add, u64_wrap, u64_max. intros. apply Z.mod_small. lia. Qed.

Lemma u64_add_bounds a b : 0 <= u64_add a b <= u64_max.
Proof.
  unfold u64_add, u64_wrap, u64_max.
  pose proof (Z.mod_pos_bound (a + b) (2 ^ 64) ltac:(lia)). lia.
Qed.

Lemma saturating_add_lt now ttl :
  0 < ttl -> now < u64_max -> now < u64_saturating_add now ttl.
Proof. unfold u64_saturating_add. lia. Qed.

(** ** Outcomes

    A fallible Rust function returns [Ok] or [Err]; an [expect], an indexing
    out of range or an explicit panic unwinds, which is the third outcome. *)

Inductive outcome (E A : Type) : Type :=
  | Ok (a : A)
  | Err (e : E)
  | Panic.
Arguments Ok {E A} _.
Arguments Err {E A} _.
Arguments Panic {E A}.

#[global] Instance outcome_eq_dec `{EqDecision E, EqDecision A} : EqDecision (outcome E A).
Proof. solve_decision. Defined.

#[global] Instance Ok_inj {E A} : Inj (=) (=) (@Ok E A).
Proof. by intros a b [= ->]. Qed.

Definition is_ok {E A} (o : outcome E A) : bool :=
  match o with Ok _ => true | _ => false end.

Definition map_err {E F A} (f : E -> F) (o : outcome E A) : outcome F A :=
  match o with Ok a => Ok a | Err e => Err (f e) | Panic => Panic end.

Definition ok_or {E A} (e : E) (o : option A) : outcome E A :=
  match o with Some a => Ok a | None => Err e end.

(** [option.expect(..)], [option.unwrap()]. *)
Definition expect {E A} (o : option A) : outcome E A :=
  match o with Some a => Ok a | None => Panic end.

Lemma expect_Ok {E A} (o : option A) (a : A) : expect (E := E) o = Ok a <-> o = Some a.
Proof. destruct o; split; intros [=]; by subst. Qed.
Lemma ok_or_Ok {E A} (e : E) (o : option A) (a : A) : ok_or e o = Ok a <-> o = Some a.
Proof. destruct o; split; intros [=]; by subst. Qed.

#[global] Instance outcome_ret {E} : MRet (outcome E) := fun A a => Ok a.
#[global] Instance outcome_bind {E} : MBind (outcome E) := fun A B f o =>
  match o with Ok a => f a | Err e => Err e | Panic => Panic end.

(** Outcomes that are not a panic. *)
Lemma ok_or_no_panic {E A} (e : E) (o : option A) : ok_or e o <> Panic.
Proof. by destruct o. Qed.
Lemma map_err_no_panic {E1 E2 A} (f : E1 -> E2) (o : outcome E1 A) : o <> Panic -> map_err f o <> Panic.
Proof. by destruct o. Qed.
Lemma and_then_no_panic {E A B} (o : outcome E A) (k : A -> outcome E B) :
  o <> Panic -> (forall a, k a <> Panic) -> o ≫= k <> Panic.
Proof. destruct o; intros Ho Hk; [apply Hk|discriminate|done]. Qed.

(** ** Third-party code

    The hexadecimal SHA-256 digest ([sha2] and [hex]) is a parameter of the
    model: every definition and theorem that uses it takes it as an argument. *)

Class Sha256 := sha256_hex : string -> string.

(** ** The outside world

    What a handler observes besides its own state: the readings of the system
    clock ([now_ms]), fresh UUIDs, and whether the next attempt to write a file
    succeeds.  Each is an arbitrary stream with a cursor, so two readings of
    one handler may differ and a theorem holds for every schedule. *)

Record world := World {
  clock : nat -> Z;
  uuids : nat -> string;
  io_ok : nat -> bool;
  clock_at : nat;
  uuid_at : nat;
  io_at : nat;
}.

Definition clock_tick (w : world) : world :=
  World (clock w) (uuids w) (io_ok w) (S (clock_at w)) (uuid_at w) (io_at w).
Definition uuid_tick (w : world) : world :=
  World (clock w) (uuids w) (io_ok w) (clock_at w) (S (uuid_at w)) (io_at w).
Definition io_tick (w : world) : world :=
  World (clock w) (uuids w) (io_ok w) (clock_at w) (uuid_at w) (S (io_at w)).

(** ** Handlers

    A method with [&mut self] is a function from the receiver and the world to
    an outcome and the receiver as it is left.  The receiver is returned on
    the error path too: a Rust [?] leaves behind what was already assigned. *)

Definition M (S E A : Type) : Type := S -> world -> outcome E A * S * world.

#[global] Instance M_ret {S E} : MRet (M S E) := fun A a s w => (Ok a, s, w).
#[global] Instance M_bind {S E} : MBind (M S E) := fun A B f m s w =>
  match m s w with
  | (Ok a, s', w') => f a s' w'
  | (Err e, s', w') => (Err e, s', w')
  | (Panic, s', w') => (Panic, s', w')
  end.

Section handlers.
Context {S E : Type}.

Definition get : M S E S := fun s w => (Ok s, s, w).
Definition put (s : S) : M S E unit := fun _ w => (Ok tt, s, w).
Definition modify (f : S -> S) : M S E unit := fun s w => (Ok tt, f s, w).
Definition throw {A} (e : E) : M S E A := fun s w => (Err e, s, w).
Definition lift {A} (o : outcome E A) : M S E A := fun s w => (o, s, w).

(** [std::time::SystemTime::now()] in milliseconds. *)
Definition now : M S E Z := fun s w => (Ok (clock w (clock_at w)), s, clock_tick w).
(** [Uuid::new_v4()]. *)
Definition fresh_uuid : M S E string := fun s w => (Ok (uuids w (uuid_at w)), s, uuid_tick w).
(** Whether the next file write goes through. *)
Definition write_ok : M S E bool := fun s w => (Ok (io_ok w (io_at w)), s, io_tick w).

Definition guard (b : bool) (e : E) : M S E unit := if b then mret tt else throw e.
End handlers.

(** ** Invariants of handlers *)

Section preservation.
Context {S E : Type}.
Implicit Types I : S -> Prop.

(** [m] keeps [I], on every path: success, error and panic. *)
Definition keeps {A} I (m : M S E A) : Prop :=
  forall s w, I s -> I (m s w).1.2.

(** [m] keeps [I] and its result, when there is one, satisfies [Q] together
    with the state it leaves. *)
Definition ensures {A} I (m : M S E A) (Q : A -> S -> Prop) : Prop :=
  forall s w, I s -> I (m s w).1.2 /\ forall a, (m s w).1.1 = Ok a -> Q a (m s w).1.2.

Lemma keeps_ret {A} I (a : A) : keeps I (mret a).
Proof. by intros s w. Qed.
Lemma keeps_throw {A} I e : keeps (A := A) I (throw e).
Proof. by intros s w. Qed.
Lemma keeps_lift {A} I (o : outcome E A) : keeps I (lift o).
Proof. by intros s w. Qed.
Lemma keeps_get I : keeps (A := S) I get.
Proof. by intros s w. Qed.
Lemma keeps_now I : keeps (A := Z) I now.
Proof. by intros s w. Qed.
Lemma keeps_fresh_uuid I : keeps (A := string) I fresh_uuid.
Proof. by intros s w. Qed.
Lemma keeps_write_ok I : keeps (A := bool) I write_ok.
Proof. by intros s w. Qed.
Lemma keeps_guard I b e : keeps I (guard b e).
Proof. by intros s w; destruct b. Qed.
Lemma keeps_put I s : I s -> keeps (A := unit) I (put s).
Proof. by intros ? ? ?. Qed.
Lemma keeps_modify I f : (forall s, I s -> I (f s)) -> keeps (A := unit) I (modify f).
Proof. intros Hf s w Hs. by apply Hf. Qed.
Lemma keeps_bind {A B} I (m : M S E A) (f : A -> M S E B) :
  keeps I m -> (forall a, keeps I (f a)) -> keeps I (m ≫= f).
Proof.
  intros Hm Hf s w Hs. specialize (Hm s w Hs). unfold mbind, M_bind.
  destruct (m s w) as [[[a|e|] s'] w']; simpl in *; [by apply Hf | done | done].
Qed.
Lemma keeps_if {A} I (b : bool) (m1 m2 : M S E A) :
  keeps I m1 -> keeps I m2 -> keeps I (if b then m1 else m2).
Proof. by destruct b. Qed.

Lemma keeps_run {A} I (m : M S E A) s w o s' w' :
  keeps I m -> m s w = (o, s', w') -> I s -> I s'.
Proof. intros Hm Heq Hs. specialize (Hm s w Hs). by rewrite Heq in Hm. Qed.

(** Reading the state first lets the continuation use that [I] held then. *)
Lemma keeps_get_bind {A} I (f : S -> M S E A) :
  (forall s w, I s -> I (f s s w).1.2) -> keeps I (get ≫= f).
Proof. intros Hf s w Hs. by apply Hf. Qed.
End preservation.

Create HintDb keeps.
#[export] Hint Resolve keeps_ret keeps_throw keeps_lift keeps_get keeps_now
  keeps_fresh_uuid keeps_write_ok keeps_guard : keeps.

(** [keep_step] walks down a handler's body; [keep] leaves the side conditions
    of the assignments. *)
Ltac keep_step :=
  match goal with
  | |- keeps _ (mbind _ _) => apply keeps_bind; [| intros ?]
  | |- keeps _ (if _ then _ else _) => apply keeps_if
  | |- keeps _ (modify _) => apply keeps_modify
  | |- keeps _ (match ?x with _ => _ end) => destruct x
  | |- keeps _ _ => solve [auto with keeps]
  end.
Ltac keep := repeat keep_step.

(** [from I s m]: run from the very state [s], [m] ends in [I].  The rules walk
    down a handler and keep the state it has reached explicit. *)
Section from.
Context {S E : Type}.
Implicit Types I : S -> Prop.

Definition from {A} I (s : S) (m : M S E A) : Prop := forall w, I (m s w).1.2.

Lemma keeps_from {A} I (m : M S E A) : (forall s, I s -> from I s m) -> keeps I m.
Proof. intros H s w Hs. by apply H. Qed.
Lemma from_keeps {A} I s (m : M S E A) : I s -> keeps I m -> from I s m.
Proof. intros Hs Hm w. by apply Hm. Qed.
Lemma from_ret {A} I s (a : A) : I s -> from I s (mret a : M S E A).
Proof. by intros ? w. Qed.
Lemma from_throw {A} I s e : I s -> from I s (throw e : M S E A).
Proof. by intros ? w. Qed.
Lemma from_lift {A} I s (o : outcome E A) : I s -> from I s (lift o).
Proof. by intros ? w. Qed.
Lemma from_modify I s f : I (f s) -> from I s (modify f : M S E unit).
Proof. by intros ? w. Qed.

Lemma from_get_bind {A} I s (k : S -> M S E A) : from I s (k s) -> from I s (get ≫= k).
Proof. intros H w. apply H. Qed.
Lemma from_now_bind {A} I s (k : Z -> M S E A) :
  (forall n, from I s (k n)) -> from I s (now ≫= k).
Proof. intros H w. apply H. Qed.
Lemma from_uuid_bind {A} I s (k : string -> M S E A) :
  (forall u, from I s (k u)) -> from I s (fresh_uuid ≫= k).
Proof. intros H w. apply H. Qed.
Lemma from_lift_bind {A B} I s (o : outcome E B) (k : B -> M S E A) :
  I s -> (forall b, o = Ok b -> from I s (k b)) -> from I s (lift o ≫= k).
Proof. intros Hs H w. unfold mbind, M_bind, lift. destruct o; [by apply H|done|done]. Qed.
Lemma from_guard_bind {A} I s b e (k : unit -> M S E A) :
  I s -> (b = true -> from I s (k tt)) -> from I s (guard b e ≫= k).
Proof. intros Hs H w. unfold mbind, M_bind, guard. destruct b; [by apply H|done]. Qed.
Lemma from_modify_bind {A} I s f (k : unit -> M S E A) :
  from I (f s) (k tt) -> from I s (modify f ≫= k).
Proof. intros H w. apply H. Qed.
Lemma from_ret_bind {A B} I s (b : B) (k : B -> M S E A) :
  from I s (k b) -> from I s (mret b ≫= k).
Proof. intros H w. apply H. Qed.
Lemma from_throw_bind {A B} I s e (k : B -> M S E A) : I s -> from I s (throw e ≫= k).
Proof. by intros ? w. Qed.
Lemma from_bind_assoc {A B C} I s (m : M S E A) (f : A -> M S E B) (k : B -> M S E C) :
  from I s (m ≫= (fun a => f a ≫= k)) -> from I s ((m ≫= f) ≫= k).
Proof.
  intros H w. specialize (H w). unfold mbind, M_bind in *.
  by destruct (m s w) as [[[a|e|] s'] w'].
Qed.
Lemma from_keeps_bind {A B} I s (m : M S E A) (k : A -> M S E B) :
  I s -> keeps I m -> (forall a, keeps I (k a)) -> from I s (m ≫= k).
Proof. intros Hs Hm Hk. apply from_keeps; [done|]. by apply keeps_bind. Qed.
(** A first part that keeps [I], which is more than [J]. *)
Lemma from_phase_bind {A B} I J s (m : M S E A) (k : A -> M S E B) :
  (forall s, I s -> J s) -> I s -> keeps I m -> (forall a s', I s' -> from J s' (k a)) -> from J s (m ≫= k).
Proof.
  intros HIJ Hs Hm Hk w. specialize (Hm s w Hs). unfold mbind, M_bind.
  destruct (m s w) as [[[a|e|] s'] w']; simpl in *; [by apply Hk|by apply HIJ..].
Qed.
Lemma from_ensures_bind {A B} I s (m : M S E A) (Q : A -> S -> Prop) (k : A -> M S E B) :
  I s -> ensures I m Q -> (forall a s', I s' -> Q a s' -> from I s' (k a)) -> from I s (m ≫= k).
Proof.
  intros Hs Hm Hk w. destruct (Hm s w Hs) as [HI HQ]. unfold mbind, M_bind.
  destruct (m s w) as [[[a|e|] s'] w']; simpl in *; [|done|done]. by apply Hk; [|apply HQ].
Qed.
End from.

(** [walk_step] takes one primitive of the handler; [walk] goes to the end and
    leaves the states in which the handler can stop. *)
Ltac walk_step :=
  match goal with
  | |- from _ _ (get ≫= _) => apply from_get_bind; cbn beta
  | |- from _ _ (now ≫= _) => apply from_now_bind; intros ?
  | |- from _ _ (fresh_uuid ≫= _) => apply from_uuid_bind; intros ?
  | |- from _ _ (lift _ ≫= _) => apply from_lift_bind; [|intros ? ?]
  | |- from _ _ (guard _ _ ≫= _) => apply from_guard_bind; [|intros ?]
  | |- from _ _ (modify _ ≫= _) => apply from_modify_bind; cbn beta
  | |- from _ _ (mret _ ≫= _) => apply from_ret_bind; cbn beta
  | |- from _ _ (throw _ ≫= _) => apply from_throw_bind
  | |- from _ _ ((_ ≫= _) ≫= _) => apply from_bind_assoc
  | |- from _ _ ((if ?b then _ else _) ≫= _) => destruct b eqn:?
  | |- from _ _ ((match ?x with _ => _ end) ≫= _) => destruct x eqn:?
  | |- from _ _ (mret _) => apply from_ret
  | |- from _ _ (throw _) => apply from_throw
  | |- from _ _ (lift _) => apply from_lift
  | |- from _ _ (modify _) => apply from_modify
  | |- from _ _ (if ?b then _ else _) => destruct b eqn:?
  | |- from _ _ (match ?x with _ => _ end) => destruct x eqn:?
  | |- from _ _ (_ ≫= _) =>
      apply from_keeps_bind; [|solve [auto with keeps]|intros ?; solve [keep]]
  | |- from _ _ _ => apply from_keeps; [|solve [auto with keeps]]
  end.
Ltac walk := repeat walk_step.

(** [wp m s Q]: from [s], the outcome and the state [m] ends with satisfy [Q],
    whatever the world. *)
Section wp.
Context {S E : Type}.

Definition wp {A} (m : M S E A) (s : S) (Q : outcome E A -> S -> Prop) : Prop :=
  forall w, Q (m s w).1.1 (m s w).1.2.
(** What follows [m] in the state it leaves. *)
Definition after {A B} (k : A -> M S E B) (Q : outcome E B -> S -> Prop) (o : outcome E A) (s : S) : Prop :=
  match o with Ok a => wp (k a) s Q | Err e => Q (Err e) s | Panic => Q Panic s end.

Lemma wp_mono {A} (m : M S E A) s (Q Q' : outcome E A -> S -> Prop) :
  wp m s Q -> (forall o s', Q o s' -> Q' o s') -> wp m s Q'.
Proof. intros Hm HQ w. by apply HQ, Hm. Qed.
Lemma wp_bind {A B} (m : M S E A) (k : A -> M S E B) s Q : wp m s (after k Q) -> wp (m ≫= k) s Q.
Proof.
  intros Hm w. specialize (Hm w). unfold mbind, M_bind. destruct (m s w) as [[[a|e|] s'] w']; [apply Hm|done..].
Qed.
(** The usual case: what is known of the first part, then the rest. *)
Lemma wp_seq {A B} (m : M S E A) (k : A -> M S E B) s R Q :
  wp m s R -> (forall a s', R (Ok a) s' -> wp (k a) s' Q) -> (forall e s', R (Err e) s' -> Q (Err e) s') ->
  (forall s', R Panic s' -> Q Panic s') -> wp (m ≫= k) s Q.
Proof. intros Hm HOk HErr HP. apply wp_bind. eapply wp_mono; [exact Hm|]. intros [a|e|] s' HR; simpl; auto. Qed.
Lemma wp_ret {A} (a : A) s Q : Q (Ok a) s -> wp (mret a : M S E A) s Q.
Proof. by intros H w. Qed.
Lemma wp_throw {A} e s Q : Q (Err e) s -> wp (throw e : M S E A) s Q.
Proof. by intros H w. Qed.
Lemma wp_lift {A} (o : outcome E A) s Q : Q o s -> wp (lift o) s Q.
Proof. by intros H w. Qed.
Lemma wp_get_bind {A} (k : S -> M S E A) s Q : wp (k s) s Q -> wp (get ≫= k) s Q.
Proof. intros H w. apply H. Qed.
Lemma wp_now_bind {A} (k : Z -> M S E A) s Q : (forall n, wp (k n) s Q) -> wp (now ≫= k) s Q.
Proof. intros H w. apply H. Qed.
Lemma wp_uuid_bind {A} (k : string -> M S E A) s Q : (forall u, wp (k u) s Q) -> wp (fresh_uuid ≫= k) s Q.
Proof. intros H w. apply H. Qed.
Lemma wp_ret_bind {A B} (b : B) (k : B -> M S E A) s Q : wp (k b) s Q -> wp (mret b ≫= k) s Q.
Proof. intros H w. apply H. Qed.
Lemma wp_lift_bind {A B} (o : outcome E B) (k : B -> M S E A) s (Q : outcome E A -> S -> Prop) :
  (forall b, o = Ok b -> wp (k b) s Q) -> (forall e, o = Err e -> Q (Err e) s) -> (o = Panic -> Q Panic s) ->
  wp (lift o ≫= k) s Q.
Proof. intros HOk HErr HP w. unfold mbind, M_bind, lift. destruct o; [by apply HOk|by apply HErr|by apply HP]. Qed.
Lemma wp_guard_bind {A} b e (k : unit -> M S E A) s (Q : outcome E A -> S -> Prop) :
  (b = true -> wp (k tt) s Q) -> (b = false -> Q (Err e) s) -> wp (guard b e ≫= k) s Q.
Proof. intros Ht Hf w. unfold mbind, M_bind, guard. destruct b; [by apply Ht|by apply Hf]. Qed.
Lemma wp_bind_assoc {A B C} (m : M S E A) (f : A -> M S E B) (k : B -> M S E C) s Q :
  wp (m ≫= (fun a => f a ≫= k)) s Q -> wp ((m ≫= f) ≫= k) s Q.
Proof.
  intros H w. specialize (H w). unfold mbind, M_bind in *. by destruct (m s w) as [[[a|e|] s'] w'].
Qed.
Lemma wp_from {A} (m : M S E A) s I : from I s m -> wp m s (fun _ => I).
Proof. done. Qed.

(** A result as a value; a panic stays one. *)
Definition settled {A} (m : M S E A) : M S E (outcome E A) := fun s w =>
  match m s w with
  | (Panic, s', w') => (Panic, s', w')
  | (o, s', w') => (Ok o, s', w')
  end.
Lemma keeps_settled {A} (I : S -> Prop) (m : M S E A) : keeps I m -> keeps I (settled m).
Proof. intros Hm s w Hs. specialize (Hm s w Hs). unfold settled. by destruct (m s w) as [[[a|e|] s'] w']. Qed.
Lemma settled_run {A} (m : M S E A) s w o s' w' : m s w = (o, s', w') -> o <> Panic -> settled m s w = (Ok o, s', w').
Proof. unfold settled. intros -> Ho. by destruct o. Qed.
Lemma settled_run_Panic {A} (m : M S E A) s w s' w' : m s w = (Panic, s', w') -> settled m s w = (Panic, s', w').
Proof. unfold settled. by intros ->. Qed.
Lemma wp_settled {A} (m : M S E A) s (Q : outcome E A -> S -> Prop) :
  wp m s (fun o s' => Q o s' /\ o <> Panic) ->
  wp (settled m) s (fun r s' => exists o, r = Ok o /\ Q o s' /\ o <> Panic).
Proof.
  intros Hm w. specialize (Hm w). unfold settled. destruct (m s w) as [[[a|e|] s'] w']; cbn in *; [| |by destruct Hm].
  - by exists (Ok a).
  - by exists (Err e).
Qed.
End wp.

(** One step of a handler's body. *)
Ltac wp_step :=
  match goal with
  | |- wp (get ≫= _) _ _ => apply wp_get_bind; cbn beta
  | |- wp (now ≫= _) _ _ => apply wp_now_bind; intros ?
  | |- wp (fresh_uuid ≫= _) _ _ => apply wp_uuid_bind; intros ?
  | |- wp (mret _ ≫= _) _ _ => apply wp_ret_bind; cbn beta
  | |- wp (lift _ ≫= _) _ _ => apply wp_lift_bind; [intros ? ?|intros ? ?|intros ?]
  | |- wp (guard _ _ ≫= _) _ _ => apply wp_guard_bind; intros ?
  | |- wp ((_ ≫= _) ≫= _) _ _ => apply wp_bind_assoc
  | |- wp (mret _) _ _ => apply wp_ret
  | |- wp (throw _) _ _ => apply wp_throw
  | |- wp (lift _) _ _ => apply wp_lift
  end.

(** [m] never panics. *)
Section calm.
Context {S E : Type}.

Definition calm {A} (m : M S E A) : Prop := forall s w, (m s w).1.1 <> Panic.

Lemma calm_bind {A B} (m : M S E A) (k : A -> M S E B) : calm m -> (forall a, calm (k a)) -> calm (m ≫= k).
Proof.
  intros Hm Hk s w. specialize (Hm s w). unfold mbind, M_bind.
  destruct (m s w) as [[[a|e|] s'] w']; [apply Hk|done|done].
Qed.
Lemma calm_ret {A} (a : A) : calm (mret a : M S E A).
Proof. done. Qed.
Lemma calm_throw {A} e : calm (throw e : M S E A).
Proof. done. Qed.
Lemma calm_get : calm (get : M S E S).
Proof. done. Qed.
Lemma wp_calm {A} (m : M S E A) s (Q : outcome E A -> S -> Prop) :
  calm m -> wp m s Q -> wp m s (fun o s' => Q o s' /\ o <> Panic).
Proof. intros Hm HQ w. split; [apply HQ|apply Hm]. Qed.
End calm.

(** [answers P m]: whatever [m] answers with success satisfies [P]. *)
Section answers.
Context {S E : Type}.

Definition answers {A} (P : A -> Prop) (m : M S E A) : Prop := forall s w a, (m s w).1.1 = Ok a -> P a.

Lemma answers_bind_with {A B} (R : A -> Prop) P (m : M S E A) (k : A -> M S E B) :
  answers R m -> (forall a, R a -> answers P (k a)) -> answers P (m ≫= k).
Proof.
  intros Hm Hk s w b. specialize (Hm s w). unfold mbind, M_bind.
  destruct (m s w) as [[[a|e|] s'] w']; [|done..]. by apply Hk, Hm.
Qed.
Lemma answers_bind {A B} P (m : M S E A) (k : A -> M S E B) : (forall a, answers P (k a)) -> answers P (m ≫= k).
Proof. intros Hk. by apply (answers_bind_with (fun _ => True)). Qed.
Lemma answers_ret {A} P (a : A) : P a -> answers P (mret a : M S E A).
Proof. by intros HP s w b [= <-]. Qed.
Lemma answers_throw {A} P e : answers P (throw e : M S E A).
Proof. by intros s w b. Qed.
End answers.

Ltac answer_step :=
  match goal with
  | |- answers _ (_ ≫= _) => apply answers_bind; intros ?
  | |- answers _ (mret _) => apply answers_ret
  | |- answers _ (throw _) => apply answers_throw
  | |- answers _ (if _ then _ else _) => case_match
  | |- answers _ (match _ with _ => _ end) => case_match
  end.

(** One step of a handler whose run is known. *)
Section running.
Context {S E : Type}.

Lemma bind_run_Ok {A B} (m : M S E A) (k : A -> M S E B) s w a s' w' :
  m s w = (Ok a, s', w') -> (m ≫= k) s w = k a s' w'.
Proof. intros Hm. unfold mbind, M_bind. by rewrite Hm. Qed.
Lemma bind_run_Err {A B} (m : M S E A) (k : A -> M S E B) s w e s' w' :
  m s w = (Err e, s', w') -> (m ≫= k) s w = (Err e, s', w').
Proof. intros Hm. unfold mbind, M_bind. by rewrite Hm. Qed.
Lemma bind_run_Panic {A B} (m : M S E A) (k : A -> M S E B) s w s' w' :
  m s w = (Panic, s', w') -> (m ≫= k) s w = (Panic, s', w').
Proof. intros Hm. unfold mbind, M_bind. by rewrite Hm. Qed.
Lemma guard_run {A} b e (k : unit -> M S E A) s w :
  (guard b e ≫= k) s w = if b then k tt s w else (Err e, s, w).
Proof. by destruct b. Qed.
End running.

(** Inversion of a successful run: [ok_inv H] takes [H : m s w = (Ok b, s', w')]
    apart, primitive by primitive. *)
Section inversion.
Context {S E : Type}.

Lemma bind_Ok_inv {A B} (m : M S E A) (k : A -> M S E B) s w b s' w' :
  (m ≫= k) s w = (Ok b, s', w') ->
  exists a s1 w1, m s w = (Ok a, s1, w1) /\ k a s1 w1 = (Ok b, s', w').
Proof.
  unfold mbind, M_bind. destruct (m s w) as [[[a|e|] s1] w1]; intros H; [|done|done].
  by exists a, s1, w1.
Qed.
Lemma lift_Ok_inv {A} (o : outcome E A) (s : S) w a s' w' :
  lift o s w = (Ok a, s', w') -> o = Ok a /\ s' = s /\ w' = w.
Proof. by intros [= <- <- <-]. Qed.
Lemma guard_Ok_inv b (e : E) (s : S) w a s' w' :
  guard b e s w = (Ok a, s', w') -> b = true /\ s' = s /\ w' = w.
Proof. unfold guard. destruct b; [by intros [= _ <- <-]|done]. Qed.
Lemma get_Ok_inv (s : S) w a s' w' :
  (get : M S E S) s w = (Ok a, s', w') -> a = s /\ s' = s /\ w' = w.
Proof. by intros [= <- <- <-]. Qed.
Lemma now_Ok_inv (s : S) w a s' w' :
  (now : M S E Z) s w = (Ok a, s', w') -> a = clock w (clock_at w) /\ s' = s /\ w' = clock_tick w.
Proof. by intros [= <- <- <-]. Qed.
Lemma uuid_Ok_inv (s : S) w a s' w' :
  (fresh_uuid : M S E string) s w = (Ok a, s', w') ->
  a = uuids w (uuid_at w) /\ s' = s /\ w' = uuid_tick w.
Proof. by intros [= <- <- <-]. Qed.
Lemma write_Ok_inv (s : S) w a s' w' :
  (write_ok : M S E bool) s w = (Ok a, s', w') ->
  a = io_ok w (io_at w) /\ s' = s /\ w' = io_tick w.
Proof. by intros [= <- <- <-]. Qed.
Lemma modify_Ok_inv f (s : S) w a s' w' :
  (modify f : M S E unit) s w = (Ok a, s', w') -> s' = f s /\ w' = w.
Proof. by intros [= _ <- <-]. Qed.
Lemma ret_Ok_inv {A} (b : A) (s : S) w a s' w' :
  (mret b : M S E A) s w = (Ok a, s', w') -> a = b /\ s' = s /\ w' = w.
Proof. by intros [= <- <- <-]. Qed.
Lemma ok_pair {A} (m : M S E A) s w a :
  (m s w).1.1 = Ok a -> m s w = (Ok a, (m s w).1.2, (m s w).2).
Proof. by destruct (m s w) as [[o s'] w']; intros; simpl in *; subst. Qed.
Lemma ok_run {A} (m : M S E A) s w :
  is_ok (m s w).1.1 = true -> exists a, m s w = (Ok a, (m s w).1.2, (m s w).2).
Proof. destruct (m s w) as [[[a|e|] s'] w']; [by exists a|done|done]. Qed.
End inversion.

(** Substitute the result when it is a variable. *)
Ltac ok_result H :=
  match type of H with
  | ?a = _ => is_var a; subst a
  | _ => idtac
  end.

Ltac ok_inv H :=
  lazymatch type of H with
  | (_ ≫= _) _ _ = (Ok _, _, _) =>
      let a := fresh "a" in let s1 := fresh "s" in let w1 := fresh "w" in
      let H1 := fresh "Hok" in let H2 := fresh "Hok" in
      apply bind_Ok_inv in H as (a & s1 & w1 & H1 & H2); ok_inv H1; ok_inv H2
  | lift _ _ _ = (Ok _, _, _) => apply lift_Ok_inv in H as (H & -> & ->)
  | guard _ _ _ _ = (Ok _, _, _) => apply guard_Ok_inv in H as (H & -> & ->)
  | get _ _ = (Ok _, _, _) => apply get_Ok_inv in H as (H & -> & ->); ok_result H
  | now _ _ = (Ok _, _, _) => apply now_Ok_inv in H as (H & -> & ->); ok_result H
  | fresh_uuid _ _ = (Ok _, _, _) => apply uuid_Ok_inv in H as (H & -> & ->); ok_result H
  | write_ok _ _ = (Ok _, _, _) => apply write_Ok_inv in H as (H & -> & ->); ok_result H
  | modify _ _ _ = (Ok _, _, _) => apply modify_Ok_inv in H as (-> & ->)
  | mret _ _ _ = (Ok _, _, _) => apply ret_Ok_inv in H as (H & -> & ->); ok_result H
  | throw _ _ _ = (Ok _, _, _) => discriminate H
  | _ => idtac
  end.

(** Run a handler symbolically: expose its primitives and reduce. *)
Ltac run_handler :=
  unfold mbind, mret, M_bind, M_ret, get, put, modify, throw, lift, now, fresh_uuid, write_ok,
    guard in *;
  cbn beta iota delta [fst snd] in *.

(** Case on the scrutinee of the first stuck [match] of the goal or of [H]. *)
Tactic Notation "case_in" hyp(H) :=
  match type of H with context [match ?x with _ => _ end] => destruct x eqn:? end.
