(* ===== verification/RustStd.v ===== *)
(** * The parts of the Rust standard library the modelled code relies on

    [str] methods on byte strings, and [BTreeMap<String, V>] as a finite map
    whose iteration order is the byte-wise order of the keys. *)

From Stdlib Require Import Ascii String.
From S2P Require Import Prelude.

(** ** [str]

    A Rust string is its UTF-8 bytes; every pattern the code searches for is
    ASCII, so the byte-wise functions below agree with the [char]-wise ones. *)

Module Str.
Fixpoint starts_with (p s : string) : bool :=
  match p, s with
  | EmptyString, _ => true
  | String a p', String b s' => if decide (a = b) then starts_with p' s' else false
  | String _ _, EmptyString => false
  end.

Fixpoint strip_prefix (p s : string) : option string :=
  match p, s with
  | EmptyString, _ => Some s
  | String a p', String b s' => if decide (a = b) then strip_prefix p' s' else None
  | String _ _, EmptyString => None
  end.

Fixpoint ends_with (p s : string) : bool :=
  bool_decide (s = p) || match s with EmptyString => false | String _ s' => ends_with p s' end.

Fixpoint contains (p s : string) : bool :=
  starts_with p s || match s with EmptyString => false | String _ s' => contains p s' end.

(** [str::find]: the byte offset of the first occurrence. *)
Fixpoint find (p s : string) : option nat :=
  if starts_with p s then Some 0%nat
  else match s with EmptyString => None | String _ s' => S <$> find p s' end.

Definition to_ascii_lower_char (c : ascii) : ascii :=
  let n := nat_of_ascii c in
  if (Nat.leb 65 n && Nat.leb n 90)%bool then ascii_of_nat (n + 32) else c.

Fixpoint to_ascii_lowercase (s : string) : string :=
  match s with
  | EmptyString => EmptyString
  | String c s' => String (to_ascii_lower_char c) (to_ascii_lowercase s')
  end.

(** [s.replace([a, b], "")] *)
Fixpoint remove_chars (cs : list ascii) (s : string) : string :=
  match s with
  | EmptyString => EmptyString
  | String c s' => if decide (c ∈ cs) then remove_chars cs s' else String c (remove_chars cs s')
  end.

Definition len (s : string) : Z := Z.of_nat (String.length s).
Definition is_empty (s : string) : bool := bool_decide (s = EmptyString).

(** [s.split(c)]: always at least one piece. *)
Fixpoint split (c : ascii) (s : string) : list string :=
  match s with
  | EmptyString => [EmptyString]
  | String a s' =>
      if decide (a = c) then EmptyString :: split c s'
      else match split c s' with
           | piece :: pieces => String a piece :: pieces
           | [] => [String a EmptyString]
           end
  end.

(** [s.replace(a, "b")] for two characters. *)
Fixpoint replace_char (a b : ascii) (s : string) : string :=
  match s with
  | EmptyString => EmptyString
  | String c s' => String (if decide (c = a) then b else c) (replace_char a b s')
  end.

(** [s.bytes().all(p)] *)
Fixpoint all (p : ascii -> bool) (s : string) : bool :=
  match s with EmptyString => true | String c s' => p c && all p s' end.

Definition is_digit (c : ascii) : bool :=
  let n := nat_of_ascii c in (Nat.leb 48 n && Nat.leb n 57)%bool.
Definition is_alphanumeric (c : ascii) : bool :=
  let n := nat_of_ascii c in
  (is_digit c || (Nat.leb 65 n && Nat.leb n 90) || (Nat.leb 97 n && Nat.leb n 122))%bool.

(** The bytes of a string. *)
Fixpoint bytes (s : string) : list Z :=
  match s with
  | EmptyString => []
  | String c s' => Z.of_nat (nat_of_ascii c) :: bytes s'
  end.

(** The first [n] bytes, and the rest. *)
Fixpoint take (n : nat) (s : string) : string :=
  match n, s with S n', String c s' => String c (take n' s') | _, _ => EmptyString end.
Fixpoint drop (n : nat) (s : string) : string :=
  match n, s with S n', String _ s' => drop n' s' | O, _ => s | S _, EmptyString => EmptyString end.

(** [s.trim()]: the encodings of the Unicode white space, stripped at both ends. *)
Fixpoint rev_onto (s acc : string) : string :=
  match s with EmptyString => acc | String c s' => rev_onto s' (String c acc) end.
Definition rev (s : string) : string := rev_onto s EmptyString.
Definition of_codes (l : list nat) : string :=
  fold_right (fun n s => String (ascii_of_nat n) s) EmptyString l.
Definition white_space : list string :=
  of_codes <$>
    ([[9]; [10]; [11]; [12]; [13]; [32]; [194; 133]; [194; 160]; [225; 154; 128];
      [226; 128; 168]; [226; 128; 169]; [226; 128; 175]; [226; 129; 159]; [227; 128; 128]]
     ++ ((fun n => [226; 128; 128 + n]) <$> seq 0 11))%nat.
Fixpoint strip_any (ps : list string) (s : string) : option string :=
  match ps with
  | [] => None
  | p :: ps' => match strip_prefix p s with Some r => Some r | None => strip_any ps' s end
  end.
Fixpoint trim_front (fuel : nat) (ps : list string) (s : string) : string :=
  match fuel with
  | O => s
  | S fuel' => match strip_any ps s with Some r => trim_front fuel' ps r | None => s end
  end.
Definition trim_start (s : string) : string := trim_front (String.length s) white_space s.
Definition trim (s : string) : string :=
  let t := trim_start s in
  rev (trim_front (String.length t) (rev <$> white_space) (rev t)).

(** [s.split_once(c)] *)
Fixpoint split_once (c : ascii) (s : string) : option (string * string) :=
  match s with
  | EmptyString => None
  | String a s' =>
      if decide (a = c) then Some (EmptyString, s')
      else (fun pq => (String a pq.1, pq.2)) <$> split_once c s'
  end.

(** [s.replace(p, r)] for a non-empty pattern: leftmost occurrences, which do
    not overlap; [skip] bytes of one are still to be passed over. *)
Fixpoint replace_from (skip : nat) (p r s : string) : string :=
  match s with
  | EmptyString => EmptyString
  | String c s' =>
      match skip with
      | S skip' => replace_from skip' p r s'
      | O => if starts_with p s then r +:+ replace_from (String.length p - 1) p r s'
             else String c (replace_from 0 p r s')
      end
  end.
Definition replace (p r s : string) : string := replace_from 0 p r s.

(** [s.chars().any(char::is_control)]: the C0 controls, DEL, and the C1
    controls, whose encoding is the byte 194 and a byte from 128 to 159. *)
Fixpoint any_control (s : string) : bool :=
  match s with
  | EmptyString => false
  | String c s' =>
      let n := nat_of_ascii c in
      (Nat.ltb n 32 || Nat.eqb n 127
       || (Nat.eqb n 194 && match s' with
                            | String d _ => let m := nat_of_ascii d in Nat.leb 128 m && Nat.leb m 159
                            | EmptyString => false
                            end)
       || any_control s')%bool
  end.

(** [s.chars().take(n).collect()]: a continuation byte belongs to the character
    before it. *)
Fixpoint take_chars (n : nat) (s : string) : string :=
  match s with
  | EmptyString => EmptyString
  | String c s' =>
      let m := nat_of_ascii c in
      if (Nat.leb 128 m && Nat.ltb m 192)%bool then String c (take_chars n s')
      else match n with O => EmptyString | S n' => String c (take_chars n' s') end
  end.

Definition count_char (c : ascii) (s : string) : nat :=
  (fix go s := match s with
               | EmptyString => O
               | String a s' => if decide (a = c) then S (go s') else go s'
               end) s.

Lemma starts_with_app p s : starts_with p (p +:+ s) = true.
Proof. induction p; simpl; [done|]. by rewrite decide_True. Qed.

Lemma strip_prefix_app p s : strip_prefix p (p +:+ s) = Some s.
Proof. induction p; simpl; [done|]. by rewrite decide_True. Qed.

Lemma starts_with_drop p s : starts_with p s = true -> s = p +:+ drop (String.length p) s.
Proof.
  revert s. induction p as [|a p IH]; intros [|b s]; try done. simpl. case_decide; [|done].
  intros Hp. subst. change (String b s = String b (p +:+ drop (String.length p) s)).
  by rewrite <- IH.
Qed.

Lemma strip_prefix_Some p s r : strip_prefix p s = Some r <-> s = p +:+ r.
Proof.
  split; [|intros ->; apply strip_prefix_app].
  revert s. induction p as [|a p IH]; intros s; simpl; [by intros [= ->]|].
  destruct s as [|b s]; [done|]. case_decide; [|done]. subst. intros H%IH. by rewrite H.
Qed.

Lemma starts_with_strip p s : starts_with p s = true <-> exists r, s = p +:+ r.
Proof.
  split; [|intros [r ->]; apply starts_with_app].
  revert s. induction p as [|a p IH]; intros s; simpl; [by exists s|].
  destruct s as [|b s]; [done|]. case_decide; [|done]. subst.
  intros [r ->]%IH. by exists r.
Qed.

Lemma take_drop n s : take n s +:+ drop n s = s.
Proof.
  revert s. induction n as [|n IH]; intros [|c s]; try done.
  change (String c (take n s +:+ drop n s) = String c s). by rewrite IH.
Qed.

Lemma drop_drop m n s : drop m (drop n s) = drop (n + m) s.
Proof. revert s. induction n as [|n IH]; intros [|c s]; try done; [by destruct m|apply IH]. Qed.

Lemma count_char_app c a b : count_char c (a +:+ b) = (count_char c a + count_char c b)%nat.
Proof.
  induction a as [|x a IH]; [done|]. change (String x a +:+ b) with (String x (a +:+ b)).
  unfold count_char in *. rewrite IH. by case_decide.
Qed.

Lemma count_char_drop c n s : (count_char c (drop n s) <= count_char c s)%nat.
Proof. rewrite <- (take_drop n s) at 2. rewrite count_char_app. lia. Qed.

Lemma find_Some p s i : find p s = Some i -> starts_with p (drop i s) = true.
Proof.
  revert i. induction s as [|c s IH]; intros i; simpl.
  - destruct p; [by intros [= <-]|done].
  - destruct (starts_with p (String c s)) eqn:Hp; [by intros [= <-]|].
    intros (j & Hj & ->)%fmap_Some. by apply IH.
Qed.

Lemma app_nil_r s : s +:+ "" = s.
Proof. induction s as [|a s IH]; [done|]. change (String a (s +:+ "") = String a s). by f_equal. Qed.

Lemma length_app a b : String.length (a +:+ b) = (String.length a + String.length b)%nat.
Proof. induction a as [|x a IH]; [done|]. change (S (String.length (a +:+ b)) = S (String.length a + String.length b)). by rewrite IH. Qed.

Lemma drop_app_length a b : drop (String.length a) (a +:+ b) = b.
Proof. induction a as [|c a IH]; [by destruct b|exact IH]. Qed.
Lemma take_add k n s : take (k + n) s = take k s +:+ take n (drop k s).
Proof. revert s. induction k as [|k IH]; intros [|c s]; try done; [by destruct n|]. simpl. by rewrite IH. Qed.
Lemma length_take n s : String.length (take n s) = Nat.min n (String.length s).
Proof. revert s. induction n as [|n IH]; intros [|c s]; try done. simpl. by rewrite IH. Qed.
Lemma length_drop n s : String.length (drop n s) = (String.length s - n)%nat.
Proof. revert s. induction n as [|n IH]; intros [|c s]; try done. simpl. by rewrite IH. Qed.
Lemma take_long n s : (String.length s <= n)%nat -> take n s = s.
Proof. revert s. induction n as [|n IH]; intros [|c s] Hn; try done; simpl in *; [lia|]. rewrite IH; [done|lia]. Qed.
Lemma drop_long n s : (String.length s <= n)%nat -> drop n s = "".
Proof. revert s. induction n as [|n IH]; intros [|c s] Hn; try done; simpl in *; [lia|]. apply IH. lia. Qed.
Lemma app_assoc a b c : (a +:+ b) +:+ c = a +:+ (b +:+ c).
Proof.
  induction a as [|x a IH]; [done|].
  change (String x ((a +:+ b) +:+ c) = String x (a +:+ (b +:+ c))). by rewrite IH.
Qed.
End Str.

(** ** [std::path::Path], as on Unix *)

Module FsPath.
Inductive component := RootDir | CurDir | ParentDir | Normal (name : string).

Definition is_absolute (p : string) : bool := Str.starts_with "/" p.

(** Interior ["."] and empty pieces vanish; a leading ["."] is [CurDir]. *)
Definition piece (s : string) : list component :=
  if decide (s = "" \/ s = ".") then []
  else if decide (s = "..") then [ParentDir] else [Normal s].

Definition components (p : string) : list component :=
  if is_absolute p then RootDir :: concat (piece <$> Str.split "/" p)
  else match Str.split "/" p with
       | first :: rest =>
           (if decide (first = ".") then [CurDir] else piece first) ++ concat (piece <$> rest)
       | [] => []
       end.

(** [path.file_name()] *)
Definition file_name (p : string) : option string :=
  match last (components p) with Some (Normal name) => Some name | _ => None end.

#[global] Instance component_eq_dec : EqDecision component.
Proof. solve_decision. Defined.

(** [path.starts_with(base)], component by component. *)
Definition starts_with (base p : string) : bool :=
  bool_decide (components base `prefix_of` components p).

Definition is_normal (c : component) : bool := match c with Normal _ => true | _ => false end.
End FsPath.

(** ** Little-endian integers *)

Module Bytes.
(** [to_le_bytes] of the low [w] bytes. *)
Fixpoint to_le (w : nat) (n : Z) : list Z :=
  match w with O => [] | S w' => n mod 256 :: to_le w' (n / 256) end.

(** [from_le_bytes] *)
Fixpoint of_le (l : list Z) : Z :=
  match l with [] => 0 | b :: l' => b + 256 * of_le l' end.

(** [file[offset .. offset + length]], shorter at the end of the file. *)
Definition slice (offset length : Z) (l : list Z) : list Z :=
  take (Z.to_nat length) (drop (Z.to_nat offset) l).

Definition len (l : list Z) : Z := Z.of_nat (length l).

Lemma length_to_le w n : length (to_le w n) = w.
Proof. revert n. induction w as [|w IH]; intros n; simpl; [done|]. by rewrite IH. Qed.

Lemma of_to_le w n : 0 <= n < 256 ^ Z.of_nat w -> of_le (to_le w n) = n.
Proof.
  revert n. induction w as [|w IH]; intros n Hn; [simpl in *; lia|]. cbn [to_le of_le].
  rewrite Nat2Z.inj_succ, Z.pow_succ_r in Hn by lia.
  rewrite IH; [pose proof (Z.div_mod n 256); lia|].
  split; [apply Z.div_pos; lia|apply Z.div_lt_upper_bound; lia].
Qed.

Lemma len_app l l' : len (l ++ l') = len l + len l'.
Proof. unfold len. rewrite length_app. lia. Qed.
Lemma len_nonneg l : 0 <= len l.
Proof. unfold len. lia. Qed.

(** Reading back a stretch that was written at its offset. *)
Lemma slice_middle a b c : slice (len a) (len b) (a ++ b ++ c) = b.
Proof.
  unfold slice, len. rewrite !Nat2Z.id. rewrite drop_app_length. by rewrite take_app_length.
Qed.
End Bytes.

(** ** [BTreeMap<String, V>] *)

Module BTree.
Section btree.
Context {V : Type}.
Implicit Types m : gmap string V.

Definition key_le (p q : string * V) : Prop := String.le p.1 q.1.
#[local] Instance key_le_dec : RelDecision key_le.
Proof. intros p q. unfold key_le. apply _. Defined.
#[local] Instance key_le_trans : Transitive key_le.
Proof. intros p q r. unfold key_le. apply (transitivity (R := String.le)). Qed.
#[local] Instance key_le_total : Total key_le.
Proof. intros p q. unfold key_le. apply (total String.le). Qed.

(** [iter()] *)
Definition entries m : list (string * V) := merge_sort key_le (map_to_list m).
(** [keys()] and [values()] *)
Definition keys m : list string := (entries m).*1.
Definition values m : list V := (entries m).*2.

Lemma entries_perm m : entries m ≡ₚ map_to_list m.
Proof. apply merge_sort_Permutation. Qed.

Lemma elem_of_entries m k v : (k, v) ∈ entries m <-> m !! k = Some v.
Proof. by rewrite entries_perm, elem_of_map_to_list. Qed.

Lemma elem_of_values m v : v ∈ values m <-> exists k, m !! k = Some v.
Proof.
  unfold values. rewrite list_elem_of_fmap. split.
  - intros ([k v'] & -> & H). exists k. by apply elem_of_entries.
  - intros [k H]. exists (k, v). split; [done|]. by apply elem_of_entries.
Qed.

Lemma NoDup_keys m : NoDup (keys m).
Proof. unfold keys. rewrite entries_perm. apply NoDup_fst_map_to_list. Qed.

Lemma elem_of_keys m k : k ∈ keys m <-> is_Some (m !! k).
Proof.
  unfold keys. rewrite list_elem_of_fmap. split.
  - intros ([k' v] & -> & H). exists v. by apply elem_of_entries.
  - intros [v H]. exists (k, v). split; [done|]. by apply elem_of_entries.
Qed.

Lemma list_to_map_entries m : list_to_map (entries m) = m.
Proof.
  rewrite <- (list_to_map_to_list m) at 2. apply list_to_map_proper; [|apply entries_perm].
  apply NoDup_keys.
Qed.

Lemma entries_sorted m : StronglySorted key_le (entries m).
Proof. unfold entries. apply (StronglySorted_merge_sort key_le). Qed.

Lemma values_empty : values ∅ = [].
Proof. unfold values, entries. by rewrite map_to_list_empty. Qed.

Lemma length_values m : length (values m) = size m.
Proof. unfold values. by rewrite length_fmap, (Permutation_length (entries_perm m)), length_map_to_list. Qed.
End btree.

(** The keys of a map whose values carry them are the values' own keys. *)
Lemma keys_values {V} (key : V -> string) (m : gmap string V) :
  (forall k v, m !! k = Some v -> key v = k) -> key <$> values m = keys m.
Proof.
  intros Hm. unfold keys, values. rewrite <- list_fmap_compose.
  apply list_fmap_ext. intros i [k v] Hi. simpl. apply Hm.
  apply elem_of_entries. by eapply list_elem_of_lookup_2.
Qed.
End BTree.

(** [vec.iter().filter(p).collect()] with a boolean test. *)
Fixpoint bfilter {A} (p : A -> bool) (l : list A) : list A :=
  match l with
  | [] => []
  | x :: l' => if p x then x :: bfilter p l' else bfilter p l'
  end.

Lemma elem_of_bfilter {A} (p : A -> bool) l x : x ∈ bfilter p l <-> p x = true /\ x ∈ l.
Proof.
  induction l as [|y l IH]; simpl.
  { split; [intros H|intros [_ H]]; by apply not_elem_of_nil in H. }
  rewrite elem_of_cons. destruct (p y) eqn:Hp; [rewrite elem_of_cons|]; rewrite IH.
  - split; [intros [->|[? ?]]|intros [? [->|?]]]; auto.
  - split; [intros [? ?]|intros [? [->|?]]]; auto. congruence.
Qed.

Lemma bfilter_app {A} (p : A -> bool) l l' : bfilter p (l ++ l') = bfilter p l ++ bfilter p l'.
Proof. induction l as [|x l IH]; simpl; [done|]. rewrite IH. by destruct (p x). Qed.

Lemma bfilter_sublist {A} (p : A -> bool) l : bfilter p l `sublist_of` l.
Proof. induction l as [|y l IH]; simpl; [done|]. destruct (p y); by constructor. Qed.

Lemma bfilter_ext {A} (p q : A -> bool) l :
  (forall x, x ∈ l -> p x = q x) -> bfilter p l = bfilter q l.
Proof.
  intros H. induction l as [|x l IH]; [done|]. simpl. rewrite (H x) by left.
  rewrite IH by (intros y Hy; apply H; by right). done.
Qed.

Lemma bfilter_bfilter {A} (p q : A -> bool) l :
  bfilter p (bfilter q l) = bfilter (fun x => p x && q x) l.
Proof.
  induction l as [|x l IH]; [done|]. simpl. destruct (q x) eqn:Hq; simpl.
  - rewrite IH. by destruct (p x).
  - by rewrite andb_false_r.
Qed.

Lemma bfilter_split {A} (p : A -> bool) l :
  l ≡ₚ bfilter p l ++ bfilter (fun x => negb (p x)) l.
Proof.
  induction l as [|x l IH]; [done|]. simpl. destruct (p x); simpl; rewrite IH at 1; [done|].
  by rewrite Permutation_middle.
Qed.

Lemma bfilter_nil {A} (p : A -> bool) l : bfilter p l = [] <-> forall x, x ∈ l -> p x = false.
Proof.
  induction l as [|x l IH]; simpl.
  - split; [|done]. intros _ x Hx. by apply not_elem_of_nil in Hx.
  - destruct (p x) eqn:Hp.
    + split; [done|]. intros H. rewrite (H x) in Hp; [done|]. by left.
    + rewrite IH. split; intros H y; [|intros; apply H; by right].
      intros [->|?]%elem_of_cons; auto.
Qed.

Lemma NoDup_bfilter {A} (p : A -> bool) l : NoDup l -> NoDup (bfilter p l).
Proof. intros H. eapply sublist_NoDup; [exact H|apply bfilter_sublist]. Qed.

(** [vec.iter().find(p)] and [vec.iter().position(p)] *)
Fixpoint bfind {A} (p : A -> bool) (l : list A) : option A :=
  match l with
  | [] => None
  | x :: l' => if p x then Some x else bfind p l'
  end.

Fixpoint position {A} (p : A -> bool) (l : list A) : option nat :=
  match l with
  | [] => None
  | x :: l' => if p x then Some 0%nat else S <$> position p l'
  end.

Lemma bfind_Some {A} (p : A -> bool) l x : bfind p l = Some x -> p x = true /\ x ∈ l.
Proof.
  induction l as [|y l IH]; simpl; [done|]. destruct (p y) eqn:Hp.
  - intros [= ->]. split; [done|]. by left.
  - intros [? ?]%IH. split; [done|]. by right.
Qed.

Lemma bfind_None {A} (p : A -> bool) l : bfind p l = None <-> forall x, x ∈ l -> p x = false.
Proof.
  induction l as [|y l IH]; simpl; [set_solver|]. destruct (p y) eqn:Hp.
  - split; [done|]. intros H. rewrite (H y) in Hp; [done|]. by left.
  - rewrite IH. split; intros H x; [|intros; apply H; by right].
    intros [->|?]%elem_of_cons; auto.
Qed.

Lemma bfind_app {A} (p : A -> bool) l l' :
  bfind p (l ++ l') = match bfind p l with Some x => Some x | None => bfind p l' end.
Proof. induction l as [|x l IH]; [done|]. simpl. by destruct (p x). Qed.

Lemma position_Some {A} (p : A -> bool) l i :
  position p l = Some i ->
  exists x, l !! i = Some x /\ p x = true /\ forall j y, (j < i)%nat -> l !! j = Some y -> p y = false.
Proof.
  revert i. induction l as [|y l IH]; intros i; simpl; [done|]. destruct (p y) eqn:Hp.
  - intros [= <-]. exists y. split; [done|]. split; [done|]. intros; lia.
  - intros (j & Hj & ->)%fmap_Some. destruct (IH _ Hj) as (x & Hx & Hpx & Hlt).
    exists x. split; [done|]. split; [done|].
    intros [|k] z Hk; simpl; [congruence|]. apply Hlt. lia.
Qed.

Lemma position_None {A} (p : A -> bool) l :
  position p l = None <-> forall x, x ∈ l -> p x = false.
Proof.
  rewrite <- bfind_None. induction l as [|y l IH]; simpl; [done|].
  destruct (p y); [done|]. by rewrite fmap_None.
Qed.

(** [if let Some(x) = vec.iter_mut().find(p) { *x = f(x) }] *)
Fixpoint update_first {A} (p : A -> bool) (f : A -> A) (l : list A) : list A :=
  match l with
  | [] => []
  | x :: l' => if p x then f x :: l' else x :: update_first p f l'
  end.

Lemma update_first_id {A} (p : A -> bool) f (l : list A) : bfind p l = None -> update_first p f l = l.
Proof.
  induction l as [|x l IH]; simpl; [done|]. destruct (p x); [done|]. intros. by rewrite IH.
Qed.

Lemma bfind_update_first {A} (p : A -> bool) f l x :
  bfind p l = Some x -> p (f x) = true -> bfind p (update_first p f l) = Some (f x).
Proof.
  intros Hx Hp. induction l as [|y l IH]; simpl in *; [done|]. destruct (p y) eqn:Hy; simpl.
  - injection Hx as ->. by rewrite Hp.
  - rewrite Hy. by apply IH.
Qed.

Lemma update_first_app {A} (p : A -> bool) f l x :
  bfind p l = Some x -> exists l1 l2, l = l1 ++ x :: l2 /\ p x = true /\ bfind p l1 = None /\
    update_first p f l = l1 ++ f x :: l2.
Proof.
  induction l as [|y l IH]; simpl; [done|]. destruct (p y) eqn:Hp.
  - intros [= ->]. by exists [], l.
  - intros (l1 & l2 & -> & Hx & Hl1 & ->)%IH. exists (y :: l1), l2. simpl. by rewrite Hp.
Qed.

(** [vec.iter_mut().rev().find(p)] *)
Definition bfind_last {A} (p : A -> bool) (l : list A) : option A := bfind p (reverse l).
Definition update_last {A} (p : A -> bool) (f : A -> A) (l : list A) : list A :=
  reverse (update_first p f (reverse l)).

(** [iter().max_by_key(key)]: the last of the largest. *)
Definition max_by_key {A} (key : A -> Z) (l : list A) : option A :=
  foldl (fun best x =>
           match best with
           | Some y => if key x <? key y then Some y else Some x
           | None => Some x
           end) None l.

(** ** Building a map by a loop of insertions *)

Lemma foldl_insert_lookup {A V} (key : A -> string) (val : A -> V) (l : list A)
    (m : gmap string V) k :
  NoDup (key <$> l) ->
  foldl (fun m x => <[key x := val x]> m) m l !! k =
  match bfind (fun x => bool_decide (key x = k)) l with
  | Some x => Some (val x)
  | None => m !! k
  end.
Proof.
  revert m. induction l as [|x l IH]; intros m Hnd; simpl; [done|].
  apply NoDup_cons in Hnd as [Hnin Hnd]. rewrite IH by done.
  case_bool_decide as Hx.
  - assert (bfind (fun x => bool_decide (key x = k)) l = None) as ->.
    { apply bfind_None. intros y Hy. apply bool_decide_eq_false. intros Heq.
      apply Hnin. rewrite Hx, <- Heq. by apply list_elem_of_fmap_2. }
    subst k. by rewrite lookup_insert_eq.
  - destruct (bfind _ l); [done|]. by rewrite lookup_insert_ne.
Qed.

(** Searching a list with distinct keys for the key of one of its elements. *)
Lemma bfind_key {A} (key : A -> string) (l : list A) x :
  NoDup (key <$> l) -> x ∈ l -> bfind (fun y => bool_decide (key y = key x)) l = Some x.
Proof.
  intros Hnd Hx. induction l as [|y l IH]; [by apply not_elem_of_nil in Hx|].
  apply NoDup_cons in Hnd as [Hnin Hnd]. simpl. case_bool_decide as Hy.
  - apply elem_of_cons in Hx as [->|Hx]; [done|]. exfalso. apply Hnin. rewrite Hy.
    by apply list_elem_of_fmap_2.
  - apply elem_of_cons in Hx as [->|Hx]; [done|]. by apply IH.
Qed.

(** Updating one element of a vector in place. *)
Lemma alter_middle {A} (f : A -> A) (l : list A) i x :
  l !! i = Some x -> alter f i l = take i l ++ f x :: drop (S i) l.
Proof.
  revert i. induction l as [|y l IH]; intros [|i] Hi; try done; simpl in Hi |- *.
  - by injection Hi as ->.
  - rewrite <- (IH i Hi). done.
Qed.

Lemma fmap_alter_same {A B} (g : A -> B) (f : A -> A) (l : list A) i :
  (forall x, l !! i = Some x -> g (f x) = g x) -> g <$> alter f i l = g <$> l.
Proof.
  revert i. induction l as [|y l IH]; intros [|i] Hi; try done.
  - cbn. f_equal. by apply Hi.
  - change (g y :: (g <$> alter f i l) = g y :: (g <$> l)). f_equal. by apply IH.
Qed.

(** Looking up distinct keys gives distinct values, when values carry their key. *)
Lemma NoDup_omap_key {K V} (f : K -> option V) (key : V -> K) (l : list K) :
  (forall k v, f k = Some v -> key v = k) -> NoDup l -> NoDup (omap f l).
Proof.
  intros Hf. induction 1 as [|k l Hnin _ IH]; [constructor|]. cbn [omap list_omap].
  destruct (f k) as [v|] eqn:Hk; [|done]. apply NoDup_cons. split; [|done].
  intros (k' & Hin & Hk')%list_elem_of_omap. apply Hnin.
  by rewrite <- (Hf _ _ Hk), (Hf _ _ Hk').
Qed.

(** [vec[i]] *)
Definition index {E A} (l : list A) (i : nat) : outcome E A :=
  match l !! i with Some x => Ok x | None => Panic end.

Lemma index_Ok {E A} (l : list A) i x : index (E := E) l i = Ok x <-> l !! i = Some x.
Proof. unfold index. destruct (l !! i); split; intros [=]; by subst. Qed.

(** ** Sums *)

Definition zsum {A} (f : A -> Z) (l : list A) : Z := foldr (fun x acc => f x + acc) 0 l.

Lemma zsum_app {A} (f : A -> Z) l l' : zsum f (l ++ l') = zsum f l + zsum f l'.
Proof. unfold zsum. induction l as [|x l IH]; simpl; lia. Qed.

Lemma zsum_perm {A} (f : A -> Z) l l' : l ≡ₚ l' -> zsum f l = zsum f l'.
Proof. unfold zsum. induction 1; simpl; lia. Qed.

Lemma zsum_nonneg {A} (f : A -> Z) l : (forall x, 0 <= f x) -> 0 <= zsum f l.
Proof. intros Hf. unfold zsum. induction l as [|x l IH]; simpl; [lia|]. specialize (Hf x). lia. Qed.

Lemma zsum_nonneg_in {A} (f : A -> Z) l : (forall x, x ∈ l -> 0 <= f x) -> 0 <= zsum f l.
Proof.
  intros Hf. unfold zsum. induction l as [|x l IH]; simpl; [lia|].
  pose proof (Hf x ltac:(by left)). specialize (IH ltac:(intros y Hy; apply Hf; by right)). lia.
Qed.

Lemma zsum_fmap {A B} (f : B -> Z) (g : A -> B) l : zsum f (g <$> l) = zsum (fun x => f (g x)) l.
Proof. unfold zsum. induction l as [|x l IH]; [done|]. simpl. by rewrite <- IH. Qed.
