(* ===== verification/Sequences.v ===== *)
(** * Slices

    What the reports use of [Vec]: stable sorts, the end of a vector, and the
    filter that keeps the first of each key. *)

From S2P Require Import Prelude RustStd.

Module Slice.

(** [sort_by], with the order as a boolean "not after": stable. *)
Fixpoint insert_by {A} (le : A -> A -> bool) (x : A) (l : list A) : list A :=
  match l with
  | [] => [x]
  | y :: l' => if le x y then x :: y :: l' else y :: insert_by le x l'
  end.
Definition sort_by {A} (le : A -> A -> bool) (l : list A) : list A := foldr (insert_by le) [] l.
Definition sort_by_key {A} (key : A -> Z) (l : list A) : list A := sort_by (fun x y => key x <=? key y) l.

(** The last [n] elements. *)
Definition last_n {A} (n : nat) (l : list A) : list A := drop (length l - n) l.

(** [let mut seen = HashSet::new(); v.retain(|x| seen.insert(key(x)))] *)
Fixpoint retain_first {A K} `{EqDecision K} (key : A -> K) (seen : list K) (l : list A) : list A :=
  match l with
  | [] => []
  | x :: l' => if decide (key x ∈ seen) then retain_first key seen l' else x :: retain_first key (key x :: seen) l'
  end.

Section sorting.
Context {A : Type} (le : A -> A -> bool).
Hypothesis le_total : forall x y, le x y = false -> le y x = true.
Hypothesis le_trans : forall x y z, le x y = true -> le y z = true -> le x z = true.

Definition ordered (x y : A) : Prop := le x y = true.

Lemma insert_by_perm x l : insert_by le x l ≡ₚ x :: l.
Proof.
  induction l as [|y l IH]; [done|]. simpl. destruct (le x y); [done|]. rewrite IH. apply Permutation_swap.
Qed.
Lemma sort_by_perm l : sort_by le l ≡ₚ l.
Proof. induction l as [|x l IH]; [done|]. simpl. by rewrite insert_by_perm, IH. Qed.

Lemma insert_by_sorted x l : StronglySorted ordered l -> StronglySorted ordered (insert_by le x l).
Proof.
  induction 1 as [|y l Hl IH Hy]; [by repeat constructor|]. simpl. destruct (le x y) eqn:Hxy.
  - constructor; [by constructor|]. constructor; [exact Hxy|].
    eapply Forall_impl; [exact Hy|]. intros z Hz. by eapply le_trans.
  - constructor; [exact IH|]. rewrite insert_by_perm. constructor; [by apply le_total|exact Hy].
Qed.
Lemma sort_by_sorted l : StronglySorted ordered (sort_by le l).
Proof. induction l as [|x l IH]; [constructor|]. by apply insert_by_sorted. Qed.
End sorting.

(** Elements with the same key keep their order. *)
Lemma insert_by_key_stable {A} (key : A -> Z) x l t :
  bfilter (fun y => key y =? t) (insert_by (fun x y => key x <=? key y) x l) = bfilter (fun y => key y =? t) (x :: l).
Proof.
  induction l as [|y l IH]; [done|]. cbn [insert_by]. destruct (Z.leb_spec (key x) (key y)); [done|].
  cbn [bfilter] in *. rewrite IH. destruct (Z.eqb_spec (key x) t), (Z.eqb_spec (key y) t); try done. lia.
Qed.
Lemma sort_by_key_stable {A} (key : A -> Z) l t :
  bfilter (fun y => key y =? t) (sort_by_key key l) = bfilter (fun y => key y =? t) l.
Proof.
  induction l as [|x l IH]; [done|]. unfold sort_by_key, sort_by in *. cbn [foldr]. rewrite insert_by_key_stable. cbn [bfilter].
  by rewrite IH.
Qed.

(** What is left out of the last [n] of a sorted list is not after what is kept. *)
Lemma last_n_split {A} n (l : list A) : l = take (length l - n) l ++ last_n n l.
Proof. unfold last_n. by rewrite take_drop. Qed.
Lemma length_last_n {A} n (l : list A) : length (last_n n l) = Nat.min n (length l).
Proof. unfold last_n. rewrite length_drop. lia. Qed.
Lemma last_n_latest {A} (R : A -> A -> Prop) n l x y :
  StronglySorted R l -> x ∈ take (length l - n) l -> y ∈ last_n n l -> R x y.
Proof.
  intros Hs Hx Hy. rewrite (last_n_split n l) in Hs. by eapply (StronglySorted_app_1_elem_of R).
Qed.
Lemma last_n_snoc {A} n (l : list A) x : (0 < n)%nat -> last_n n (last_n n l ++ [x]) = last_n n (l ++ [x]).
Proof.
  intros Hn. unfold last_n. rewrite !length_app, length_drop. simpl.
  destruct (decide (length l <= n)%nat).
  - replace (length l - n)%nat with O by lia. by rewrite drop_0, Nat.sub_0_r.
  - replace (length l - (length l - n) + 1 - n)%nat with 1%nat by lia.
    replace (length l + 1 - n)%nat with (S (length l - n)) by lia.
    rewrite (drop_app_le l) by lia.
    rewrite drop_app_le by (rewrite length_drop; lia). by rewrite drop_drop, Nat.add_1_r.
Qed.

Section retaining.
Context {A K : Type} `{EqDecision K} (key : A -> K).

Lemma retain_first_sublist seen l : retain_first key seen l `sublist_of` l.
Proof.
  revert seen. induction l as [|x l IH]; intros seen; simpl; [done|]. destruct (decide _); by constructor.
Qed.
Lemma retain_first_keys seen l k :
  k ∈ key <$> retain_first key seen l <-> k ∈ key <$> l /\ k ∉ seen.
Proof.
  revert seen. induction l as [|x l IH]; intros seen; simpl.
  { split; [intros ?%not_elem_of_nil|intros [?%not_elem_of_nil _]]; done. }
  destruct (decide (key x ∈ seen)) as [Hin|Hnew].
  - rewrite IH, elem_of_cons. split; [tauto|]. intros [[->|] ?]; [done|tauto].
  - rewrite fmap_cons, !elem_of_cons, IH, not_elem_of_cons. split; [intros [->|?]; tauto|].
    destruct (decide (k = key x)); tauto.
Qed.
Lemma retain_first_NoDup seen l : NoDup (key <$> retain_first key seen l).
Proof.
  revert seen. induction l as [|x l IH]; intros seen; simpl; [constructor|]. destruct (decide _); [apply IH|].
  rewrite fmap_cons. constructor; [|apply IH]. rewrite retain_first_keys, not_elem_of_cons. tauto.
Qed.
End retaining.

Lemma sublist_StronglySorted {A} (R : A -> A -> Prop) l l' : l `sublist_of` l' -> StronglySorted R l' -> StronglySorted R l.
Proof.
  induction 1 as [|x l l' Hl IH|x l l' Hl IH]; intros Hs; [constructor| |]; apply StronglySorted_inv in Hs as [Hs Hx].
  - constructor; [by apply IH|]. rewrite Forall_forall in Hx |- *. intros y Hy. apply Hx. by eapply sublist_subseteq.
  - by apply IH.
Qed.
End Slice.
