(* ===== verification/RustText.v ===== *)
(** * Text as lines, words and lossy UTF-8

    The [str] methods that the process and tunnel code uses on the output of
    other programs. *)

From Stdlib Require Import Ascii String.
From S2P Require Import Prelude RustStd.

Module Text8.
Import Str.

(** The bytes of the white space character [s] begins with, if it does. *)
Definition white_at (s : string) : nat :=
  from_option String.length O (bfind (fun p => starts_with p s) white_space).

(** The pieces between white space; [skip] bytes of one are still to be passed. *)
Fixpoint split_white (skip : nat) (s : string) : list string :=
  match s with
  | EmptyString => [EmptyString]
  | String c s' =>
      match skip with
      | S k => split_white k s'
      | O => match white_at s with
             | S k => EmptyString :: split_white k s'
             | O => match split_white O s' with
                    | word :: words => String c word :: words
                    | [] => []
                    end
             end
      end
  end.

(** [s.split_whitespace()] *)
Definition split_whitespace (s : string) : list string :=
  bfilter (fun w => negb (is_empty w)) (split_white O s).

(** [s.strip_suffix(p)] *)
Definition strip_suffix (p s : string) : option string :=
  let n := (String.length s - String.length p)%nat in
  if decide (drop n s = p) then Some (take n s) else None.

Definition strip_cr (s : string) : string := default s (strip_suffix (String "013" EmptyString) s).

(** [s.lines()]: a line feed ends a line, with the carriage return before it;
    the rest is a line if there is one. *)
Fixpoint lines_of (pieces : list string) : list string :=
  match pieces with
  | [] => []
  | [rest] => if is_empty rest then [] else [rest]
  | line :: pieces' => strip_cr line :: lines_of pieces'
  end.
Definition lines (s : string) : list string := lines_of (split "010" s).

(** [s.rsplit_once(c)] *)
Fixpoint rsplit_once (c : ascii) (s : string) : option (string * string) :=
  match s with
  | EmptyString => None
  | String a s' =>
      match rsplit_once c s' with
      | Some (p, q) => Some (String a p, q)
      | None => if decide (a = c) then Some (EmptyString, s') else None
      end
  end.

(** ** UTF-8 *)

Definition byte_at (i : nat) (s : string) : nat :=
  match String.get i s with Some c => nat_of_ascii c | None => O end.
Definition between (a b n : nat) : bool := Nat.leb a n && Nat.leb n b.

(** How many bytes from the second on continue the character [s] begins with,
    up to the first that does not. *)
Fixpoint run (ok : list (nat -> bool)) (i : nat) (s : string) : nat :=
  match ok with
  | [] => O
  | p :: ok' => if p (byte_at i s) then S (run ok' (S i) s) else O
  end.

(** The bytes allowed after a first byte; [None] if no character begins so. *)
Definition continuation (b : nat) : option (list (nat -> bool)) :=
  let tail := between 128 191 in
  if Nat.ltb b 128 then Some []
  else if between 194 223 b then Some [tail]
  else if Nat.eqb b 224 then Some [between 160 191; tail]
  else if Nat.eqb b 237 then Some [between 128 159; tail]
  else if between 225 239 b then Some [tail; tail]
  else if Nat.eqb b 240 then Some [between 144 191; tail; tail]
  else if between 241 243 b then Some [tail; tail; tail]
  else if Nat.eqb b 244 then Some [between 128 143; tail; tail]
  else None.

(** The bytes of the next chunk after its first, and whether it is a character. *)
Definition chunk (s : string) : nat * bool :=
  match continuation (byte_at O s) with
  | Some ok => let n := run ok 1 s in (n, Nat.eqb n (length ok))
  | None => (O, false)
  end.

Definition replacement : string := of_codes [239; 191; 189]%nat.

(** [String::from_utf8_lossy]: [keep] bytes of a character are to be copied,
    [skip] bytes of a broken one dropped. *)
Fixpoint lossy_from (keep skip : nat) (s : string) : string :=
  match s with
  | EmptyString => EmptyString
  | String c s' =>
      match keep, skip with
      | S k, _ => String c (lossy_from k O s')
      | O, S k => lossy_from O k s'
      | O, O =>
          match chunk s with
          | (n, true) => String c (lossy_from n O s')
          | (n, false) => replacement +:+ lossy_from O n s'
          end
      end
  end.
Definition from_utf8_lossy (s : string) : string := lossy_from O O s.

(** [String::from_utf8] *)
Fixpoint valid_from (keep : nat) (s : string) : bool :=
  match s with
  | EmptyString => true
  | String _ s' =>
      match keep with
      | S k => valid_from k s'
      | O => match chunk s with (n, true) => valid_from n s' | (_, false) => false end
      end
  end.
Definition valid_utf8 (s : string) : bool := valid_from O s.

(** ** What they do *)

Lemma lossy_valid s : valid_utf8 s = true -> from_utf8_lossy s = s.
Proof.
  enough (forall k, valid_from k s = true -> lossy_from k O s = s) as Hall by apply Hall.
  induction s as [|c s IH]; intros k; [by destruct k|]. cbn [lossy_from valid_from].
  destruct k as [|k]; [destruct (chunk (String c s)) as [n [|]]; [|done]|]; intros Hv; by rewrite IH.
Qed.

Lemma rsplit_once_None c s : count_char c s = O -> rsplit_once c s = None.
Proof.
  induction s as [|a s IH]; [done|]. simpl. case_decide as Ha; [done|]. intros Hc. by rewrite IH.
Qed.

Lemma rsplit_once_app c p q : count_char c q = O -> rsplit_once c (p +:+ String c q) = Some (p, q).
Proof.
  intros Hq. induction p as [|a p IH]; simpl.
  - rewrite rsplit_once_None by done. by rewrite decide_True.
  - by rewrite IH.
Qed.

Lemma rsplit_once_Some c s p q : rsplit_once c s = Some (p, q) -> s = p +:+ String c q /\ count_char c q = O.
Proof.
  revert p. induction s as [|a s IH]; intros p; [done|]. simpl.
  destruct (rsplit_once c s) as [[p' q']|] eqn:Hs.
  - intros [= <- <-]. by destruct (IH p' eq_refl) as [-> ?].
  - case_decide as Ha; [|done]. subst a. intros [= <- <-]. split; [done|].
    clear IH. induction s as [|b s IH]; [done|]. simpl in *. destruct (rsplit_once c s) as [[]|]; [done|].
    case_decide; [done|]. by apply IH.
Qed.

(** Words of plain characters, one space apart. *)
Definition plain_word (w : string) : bool :=
  negb (is_empty w) && all (fun c => between 33 127 (nat_of_ascii c)) w.

(** No white space begins with a plain character. *)
Definition begins_apart (p : string) : bool :=
  match p with String d _ => negb (between 33 127 (nat_of_ascii d)) | EmptyString => false end.
Lemma white_space_apart : forallb begins_apart white_space = true.
Proof. by vm_compute. Qed.

Lemma white_at_plain c s : between 33 127 (nat_of_ascii c) = true -> white_at (String c s) = O.
Proof.
  intros Hc. unfold white_at. destruct (bfind _ white_space) as [p|] eqn:Hp; [|done].
  apply bfind_Some in Hp as [Hs Hin%list_elem_of_In]. exfalso.
  pose proof (proj1 (forallb_forall _ _) white_space_apart p Hin) as Hb.
  destruct p as [|d p]; [done|]. simpl in Hs, Hb. case_decide; [|done]. subst d. by rewrite Hc in Hb.
Qed.

Lemma split_white_word w s :
  all (fun c => between 33 127 (nat_of_ascii c)) w = true ->
  exists p ps, split_white O s = p :: ps /\ split_white O (w +:+ s) = (w +:+ p) :: ps.
Proof.
  assert (exists p ps, split_white O s = p :: ps) as (p & ps & Hs).
  { generalize O as k. induction s as [|c s IH]; intros k; [by exists EmptyString, []|]. simpl.
    destruct k as [|k]; [|apply IH]. destruct (white_at _); [|by eexists _, _].
    destruct (IH O) as (p & ps & ->). by eexists _, _. }
  intros Hw. exists p, ps. split; [done|]. induction w as [|c w IH]; [done|].
  simpl in Hw. apply andb_true_iff in Hw as [Hc Hw]. change (String c w +:+ s) with (String c (w +:+ s)).
  cbn [split_white]. rewrite white_at_plain by done. by rewrite IH.
Qed.

Lemma split_whitespace_words ws :
  forallb plain_word ws = true -> split_whitespace (String.concat " " ws +:+ String "010" EmptyString) = ws.
Proof.
  induction ws as [|w ws IH]; [done|]. cbn [forallb]. intros [[Hne Hw]%andb_true_iff Hws]%andb_true_iff.
  destruct ws as [|w' ws].
  - cbn [String.concat]. destruct (split_white_word w (String "010" EmptyString) Hw) as (p & ps & [= <- <-] & Hs).
    rewrite app_nil_r in Hs. unfold split_whitespace. rewrite Hs. cbn. by rewrite Hne.
  - specialize (IH Hws).
    change (String.concat " " (w :: w' :: ws)) with (w +:+ " " +:+ String.concat " " (w' :: ws)).
    set (rest := String.concat " " (w' :: ws)) in *. rewrite !app_assoc.
    set (tail := rest +:+ String "010" EmptyString) in *.
    destruct (split_white_word w (" " +:+ tail) Hw) as (p & ps & Hp & Hs).
    change (split_white O (" " +:+ tail)) with (EmptyString :: split_white O tail) in Hp. injection Hp as <- <-.
    unfold split_whitespace in *. rewrite Hs. cbn [bfilter]. rewrite app_nil_r, Hne.
    by rewrite IH.
Qed.

(** ** Lines written and read *)

Definition feed : string := String "010" EmptyString.
(** No end of line inside. *)
Definition one_line (s : string) : bool := Nat.eqb (count_char "010" s) 0 && Nat.eqb (count_char "013" s) 0.

Lemma one_line_iff s : one_line s = true <-> count_char "010" s = O /\ count_char "013" s = O.
Proof. unfold one_line. by rewrite andb_true_iff, !Nat.eqb_eq. Qed.

Lemma strip_cr_one_line s : one_line s = true -> strip_cr s = s.
Proof.
  intros [_ Hcr]%one_line_iff. unfold strip_cr, strip_suffix. case_decide as Hd; [|done]. exfalso.
  rewrite <- (take_drop (String.length s - String.length (String "013" EmptyString)) s), Hd, count_char_app in Hcr.
  simpl in Hcr. lia.
Qed.

Lemma split_feed a b : count_char "010" a = O -> split "010" (a +:+ String "010" b) = a :: split "010" b.
Proof.
  induction a as [|c a IH]; intros Ha.
  - change (EmptyString +:+ String "010" b) with (String "010" b). cbn [split]. by rewrite decide_True.
  - change (String c a +:+ String "010" b) with (String c (a +:+ String "010" b)). cbn [split].
    simpl in Ha. case_decide; [done|]. by rewrite IH.
Qed.

Lemma lines_concat ls :
  ls <> [] -> forallb one_line ls = true -> lines (String.concat feed ls +:+ feed) = ls.
Proof.
  unfold lines. intros Hne Hall.
  assert (split "010" (String.concat feed ls +:+ feed) = ls ++ [EmptyString]) as ->.
  { induction ls as [|l ls IH]; [done|]. simpl in Hall. apply andb_true_iff in Hall as [Hl Hls].
    apply one_line_iff in Hl as [Hl _]. destruct ls as [|l' ls].
    - change (String.concat feed [l] +:+ feed) with (l +:+ String "010" EmptyString). by rewrite split_feed.
    - change (String.concat feed (l :: l' :: ls)) with (l +:+ feed +:+ String.concat feed (l' :: ls)).
      rewrite !app_assoc. change (feed +:+ ?s) with (String "010" s). rewrite split_feed by done. by rewrite IH. }
  clear Hne. induction ls as [|l ls IH]; [done|]. simpl in Hall. apply andb_true_iff in Hall as [Hl Hls].
  assert (lines_of ((l :: ls) ++ [EmptyString]) = strip_cr l :: lines_of (ls ++ [EmptyString])) as -> by (by destruct ls).
  by rewrite IH, strip_cr_one_line.
Qed.

Lemma split_pieces s piece : piece ∈ split "010" s -> count_char "010" piece = O /\ (count_char "013" piece <= count_char "013" s)%nat.
Proof.
  revert piece. induction s as [|c s IH]; intros piece Hp.
  - apply elem_of_cons in Hp as [->|[]%not_elem_of_nil]. done.
  - cbn [split] in Hp. case_decide as Hc.
    + apply elem_of_cons in Hp as [->|Hp]; [split; [done|simpl; lia]|]. subst c. apply IH in Hp as [? ?].
      split; [done|]. simpl. lia.
    + destruct (split "010" s) as [|p ps] eqn:Hs.
      * apply elem_of_cons in Hp as [->|[]%not_elem_of_nil]. simpl. by repeat case_decide; split; lia || congruence.
      * apply elem_of_cons in Hp as [->|Hp].
        -- destruct (IH p ltac:(left)) as [H1 H2]. simpl. rewrite decide_False by done. split; [done|].
           case_decide; lia.
        -- destruct (IH piece ltac:(by right)) as [H1 H2]. split; [done|]. simpl. case_decide; lia.
Qed.

Lemma lines_one_line s line : count_char "013" s = O -> line ∈ lines s -> one_line line = true.
Proof.
  intros Hcr. unfold lines. intros Hin.
  assert (forall pieces, (forall p, p ∈ pieces -> one_line p = true) -> line ∈ lines_of pieces -> one_line line = true)
    as Hall.
  { induction pieces as [|p pieces IH]; intros Hp Hl; [by apply not_elem_of_nil in Hl|].
    assert (one_line p = true) as Hone by (apply Hp; left).
    destruct pieces as [|q pieces].
    - simpl in Hl. destruct (is_empty p); [by apply not_elem_of_nil in Hl|].
      by apply elem_of_cons in Hl as [->|[]%not_elem_of_nil].
    - change (lines_of (p :: q :: pieces)) with (strip_cr p :: lines_of (q :: pieces)) in Hl.
      apply elem_of_cons in Hl as [->|Hl]; [by rewrite strip_cr_one_line|].
      apply IH; [|done]. intros x Hx. apply Hp. by right. }
  eapply Hall; [|exact Hin]. intros p [Hlf Hle]%split_pieces. apply one_line_iff. lia.
Qed.
End Text8.
