(* ===== verification/History.v ===== *)
(** * Vectors whose entries only evolve

    The controller's records live in vectors that grow at the end and whose
    entries are replaced in place.  [evolves R l l'] says that [l'] is such a
    later form of [l]: every entry of [l] is still there, at its index, having
    moved along [R].  With [R] a preorder it is a preorder. *)

From S2P Require Import Prelude RustStd.

Section evolves.
Context {A : Type} (R : relation A).
Implicit Types l : list A.

Definition evolves l l' : Prop :=
  exists l1 tail, l' = l1 ++ tail /\ Forall2 R l l1.

Lemma evolves_lookup l l' i x :
  evolves l l' -> l !! i = Some x -> exists x', l' !! i = Some x' /\ R x x'.
Proof.
  intros (l1 & tail & -> & HR) Hi. destruct (Forall2_lookup_l _ _ _ _ _ HR Hi) as (x' & Hx' & Hr).
  exists x'. split; [by apply lookup_app_l_Some|done].
Qed.

Lemma evolves_elem l l' x : evolves l l' -> x ∈ l -> exists x', x' ∈ l' /\ R x x'.
Proof.
  intros Hl [i Hi]%list_elem_of_lookup_1. destruct (evolves_lookup _ _ _ _ Hl Hi) as (x' & Hx' & Hr).
  exists x'. split; [by eapply list_elem_of_lookup_2|done].
Qed.

(** Searching by a key that [R] preserves finds the later form of what it found. *)
Lemma evolves_bfind p l l' x :
  (forall y y', R y y' -> p y' = p y) -> evolves l l' -> bfind p l = Some x ->
  exists x', bfind p l' = Some x' /\ R x x'.
Proof.
  intros Hp (l1 & tail & -> & HR) Hx. rewrite bfind_app.
  assert (exists x', bfind p l1 = Some x' /\ R x x') as (x' & -> & Hr); [|by eexists].
  induction HR as [|y y' l l1 Hy _ IH]; [done|]. simpl in *. rewrite (Hp _ _ Hy).
  destruct (p y); [|by apply IH]. injection Hx as ->. by eexists.
Qed.

Context `{!Reflexive R}.

Lemma evolves_push l x : evolves l (l ++ [x]).
Proof. by exists l, [x]. Qed.

Lemma evolves_update_first p f l :
  (forall x, bfind p l = Some x -> R x (f x)) -> evolves l (update_first p f l).
Proof.
  intros Hf. exists (update_first p f l), []. split; [by rewrite app_nil_r|].
  induction l as [|x l IH]; simpl; [done|]. simpl in Hf. destruct (p x).
  - constructor; [by apply Hf|done].
  - constructor; [done|]. by apply IH.
Qed.

Lemma evolves_update_last p f l :
  (forall x, bfind_last p l = Some x -> R x (f x)) -> evolves l (update_last p f l).
Proof.
  intros Hf. exists (update_last p f l), []. split; [by rewrite app_nil_r|].
  unfold update_last, bfind_last in *. rewrite <- (reverse_involutive l) at 1.
  apply Forall2_reverse. revert Hf. generalize (reverse l) as k. clear l.
  intros k Hf. induction k as [|x k IH]; simpl; [done|]. simpl in Hf. destruct (p x).
  - constructor; [by apply Hf|done].
  - constructor; [done|]. by apply IH.
Qed.

Lemma evolves_fmap f l : (forall x, x ∈ l -> R x (f x)) -> evolves l (f <$> l).
Proof.
  intros Hf. exists (f <$> l), []. split; [by rewrite app_nil_r|].
  apply Forall2_fmap_r, Forall_Forall2_diag, Forall_forall. done.
Qed.

#[export] Instance evolves_refl : Reflexive evolves.
Proof. intros l. exists l, []. by rewrite app_nil_r. Qed.

Context `{!Transitive R}.

#[export] Instance evolves_trans : Transitive evolves.
Proof.
  intros l l' l'' (l1 & t1 & -> & H1) (l2 & t2 & -> & H2).
  apply Forall2_app_inv_l in H2 as (l3 & l4 & H3 & H4 & ->).
  exists l3, (l4 ++ t2). split; [by rewrite <- app_assoc|].
  by etrans; [exact H1|].
Qed.
End evolves.
