(* ===== verification/Json.v ===== *)
(** * [serde_json::Value]

    The JSON values the RPC layer passes around.  [serde_json::Map] is built
    without the [preserve_order] feature, hence a [BTreeMap]: an object is an
    association list kept sorted by key, and [json!] inserts field by field. *)

From Stdlib Require Import String SpecFloat.
From S2P Require Import Prelude RustStd.

(** [serde_json::Number]: non-negative integers, negative integers, floats. *)
Inductive Number : Type :=
  | PosInt (n : Z)
  | NegInt (n : Z)
  | Float (f : spec_float).

#[warnings="-register-all"]
Inductive Value : Type :=
  | VNull
  | VBool (b : bool)
  | VNumber (n : Number)
  | VString (s : string)
  | VArray (vs : list Value)
  | VObject (o : list (string * Value)).

(** Induction with the hypothesis on every element and every field. *)
Section value_ind.
Variable P : Value -> Prop.
Hypothesis HNull : P VNull.
Hypothesis HBool : forall b, P (VBool b).
Hypothesis HNumber : forall n, P (VNumber n).
Hypothesis HString : forall s, P (VString s).
Hypothesis HArray : forall vs, Forall P vs -> P (VArray vs).
Hypothesis HObject : forall o, Forall (fun kv => P kv.2) o -> P (VObject o).

Fixpoint Value_rect_nested (v : Value) : P v :=
  match v with
  | VNull => HNull
  | VBool b => HBool b
  | VNumber n => HNumber n
  | VString s => HString s
  | VArray vs => HArray vs ((fix go l : Forall P l :=
      match l with
      | [] => Forall_nil_2 P
      | x :: l' => Forall_cons_2 P x l' (Value_rect_nested x) (go l')
      end) vs)
  | VObject o => HObject o ((fix go l : Forall (fun kv => P kv.2) l :=
      match l with
      | [] => Forall_nil_2 _
      | kv :: l' => Forall_cons_2 _ kv l' (Value_rect_nested kv.2) (go l')
      end) o)
  end.
End value_ind.

(** ** [serde_json::Map] *)

Fixpoint obj_get (o : list (string * Value)) (k : string) : option Value :=
  match o with
  | [] => None
  | (k', v) :: o' => if decide (k = k') then Some v else obj_get o' k
  end.

Fixpoint obj_insert (o : list (string * Value)) (k : string) (v : Value) : list (string * Value) :=
  match o with
  | [] => [(k, v)]
  | (k', v') :: o' =>
      if decide (k = k') then (k, v) :: o'
      else if String.leb k k' then (k, v) :: (k', v') :: o'
      else (k', v') :: obj_insert o' k v
  end.

Fixpoint obj_remove (o : list (string * Value)) (k : string) : list (string * Value) :=
  match o with
  | [] => []
  | (k', v') :: o' => if decide (k = k') then o' else (k', v') :: obj_remove o' k
  end.

(** [f] on the field [k], in a form a structural recursion can go through. *)
Definition on_field {A} (f : Value -> A) (d : A) (k : string) : list (string * Value) -> A :=
  fix go o :=
    match o with
    | [] => d
    | (k', v) :: o' => if decide (k = k') then f v else go o'
    end.

Lemma on_field_get {A} (f : Value -> A) d k o :
  on_field f d k o = match obj_get o k with Some v => f v | None => d end.
Proof. induction o as [|[k' v] o IH]; simpl; [done|]. by case_decide. Qed.

(** [json!({..})]: the fields are inserted one after the other. *)
Definition json_object (fields : list (string * Value)) : Value :=
  VObject (foldl (fun o kv => obj_insert o kv.1 kv.2) [] fields).

(** ** Accessors *)

(** [value.get(key)] *)
Definition vget (v : Value) (k : string) : option Value :=
  match v with VObject o => obj_get o k | _ => None end.
(** [value[key]]: [Null] when the field or the object is missing. *)
Definition vindex (v : Value) (k : string) : Value := default VNull (vget v k).
Definition as_str (v : Value) : option string :=
  match v with VString s => Some s | _ => None end.
Definition as_bool (v : Value) : option bool :=
  match v with VBool b => Some b | _ => None end.
Definition as_u64 (v : Value) : option Z :=
  match v with VNumber (PosInt n) => Some n | _ => None end.
Definition as_array (v : Value) : option (list Value) :=
  match v with VArray l => Some l | _ => None end.
Definition as_object (v : Value) : option (list (string * Value)) :=
  match v with VObject o => Some o | _ => None end.
Definition is_null (v : Value) : bool := match v with VNull => true | _ => false end.

Definition is_boolean (v : Value) : bool := match v with VBool _ => true | _ => false end.
Definition is_number (v : Value) : bool := match v with VNumber _ => true | _ => false end.
Definition is_string (v : Value) : bool := match v with VString _ => true | _ => false end.
Definition is_array (v : Value) : bool := match v with VArray _ => true | _ => false end.
Definition is_object (v : Value) : bool := match v with VObject _ => true | _ => false end.
Definition as_i64 (v : Value) : option Z :=
  match v with
  | VNumber (PosInt n) => if n <=? 2 ^ 63 - 1 then Some n else None
  | VNumber (NegInt n) => Some n
  | _ => None
  end.
(** [n as f64]: rounded to the nearest double. *)
Definition f64_of_Z (n : Z) : spec_float := binary_normalize 53 1024 n 0 false.
Definition as_f64 (v : Value) : option spec_float :=
  match v with
  | VNumber (PosInt n) | VNumber (NegInt n) => Some (f64_of_Z n)
  | VNumber (Float f) => Some f
  | _ => None
  end.
Definition contains_key (o : list (string * Value)) (k : string) : bool :=
  match obj_get o k with Some _ => true | None => false end.
(** [value.pointer("/a/b")] for field names without an escape. *)
Definition pointer (v : Value) (ks : list string) : option Value :=
  foldl (fun v k => v ≫= fun v => vget v k) (Some v) ks.

(** [PartialEq]: floats compare as IEEE doubles. *)
Definition number_eq (m n : Number) : bool :=
  match m, n with
  | PosInt a, PosInt b | NegInt a, NegInt b => a =? b
  | Float a, Float b => SFeqb a b
  | _, _ => false
  end.
Fixpoint value_eq (v w : Value) {struct v} : bool :=
  match v, w with
  | VNull, VNull => true
  | VBool a, VBool b => Bool.eqb a b
  | VNumber m, VNumber n => number_eq m n
  | VString s, VString t => bool_decide (s = t)
  | VArray vs, VArray ws =>
      (fix go vs ws := match vs, ws with
                       | [], [] => true
                       | x :: vs', y :: ws' => value_eq x y && go vs' ws'
                       | _, _ => false
                       end) vs ws
  | VObject o, VObject p =>
      (fix go o p := match o, p with
                     | [], [] => true
                     | (k, x) :: o', (j, y) :: p' => bool_decide (k = j) && value_eq x y && go o' p'
                     | _, _ => false
                     end) o p
  | _, _ => false
  end.

(** [value[key] = new] on an object ([IndexMut] turns [Null] into an object
    and panics on any other value). *)
Definition vset (v : Value) (k : string) (new : Value) : option Value :=
  match v with
  | VObject o => Some (VObject (obj_insert o k new))
  | VNull => Some (VObject [(k, new)])
  | _ => None
  end.

Definition vstr (s : string) : Value := VString s.
Definition vnat (n : Z) : Value := VNumber (PosInt n).
Definition vopt {A} (f : A -> Value) (o : option A) : Value := from_option f VNull o.

(** ** Lemmas *)

Lemma obj_get_insert_eq o k v : obj_get (obj_insert o k v) k = Some v.
Proof.
  induction o as [|[k' v'] o IH]; simpl; [by rewrite decide_True|].
  case_decide; simpl; [by rewrite decide_True|].
  destruct (String.leb k k'); simpl; [by rewrite decide_True|]. by rewrite decide_False.
Qed.

Lemma obj_get_insert_ne o k k' v : k <> k' -> obj_get (obj_insert o k v) k' = obj_get o k'.
Proof.
  intros Hne. induction o as [|[j w] o IH]; simpl; [by rewrite decide_False|].
  destruct (decide (k = j)) as [->|]; simpl.
  - by rewrite !(decide_False (P := k' = j)).
  - destruct (String.leb k j); simpl; [by rewrite (decide_False (P := k' = k))|].
    by rewrite IH.
Qed.

Lemma obj_get_Some o k v : obj_get o k = Some v -> (k, v) ∈ o.
Proof.
  induction o as [|[k' v'] o IH]; simpl; [done|]. case_decide; subst.
  - intros [= ->]. by left.
  - intros ?%IH. by right.
Qed.

Lemma vget_insert_eq o k v : vget (VObject (obj_insert o k v)) k = Some v.
Proof. apply obj_get_insert_eq. Qed.

(** The field [k] of a literal object is the last one inserted under [k]. *)
Lemma vget_json_object_snoc fields k v :
  vget (json_object (fields ++ [(k, v)])) k = Some v.
Proof. unfold json_object. rewrite foldl_app. apply obj_get_insert_eq. Qed.

Lemma vget_json_object_snoc_ne fields k k' v :
  k <> k' -> vget (json_object (fields ++ [(k, v)])) k' = vget (json_object fields) k'.
Proof. intros. unfold json_object. rewrite foldl_app. by apply obj_get_insert_ne. Qed.

Lemma vget_vset v k new v' : vset v k new = Some v' -> vget v' k = Some new.
Proof.
  destruct v as [| | | | |o]; try done; intros [= <-]; simpl.
  - by rewrite decide_True.
  - apply obj_get_insert_eq.
Qed.

Lemma vget_vset_ne v k k' new v' : vset v k new = Some v' -> k <> k' -> vget v' k' = vget v k'.
Proof.
  destruct v as [| | | | |o]; try done; intros [= <-] Hne; simpl.
  - by rewrite decide_False.
  - by rewrite obj_get_insert_ne.
Qed.
