(* ===== verification/Protocol.v ===== *)
(** * The RPC envelope ([crates/workbench-protocol/src/lib.rs]) *)

From Stdlib Require Import String.
From S2P Require Import Prelude RustStd Json.

Definition RPC_VERSION : string := "workbench.dev/v1".

Module Request.
Record t := mk {
  api_version : string;
  request_id : string;
  correlation_id : option string;
  parent_request_id : option string;
  run_id : option string;
  span_id : option string;
  parent_span_id : option string;
  agent_session_id : option string;
  action : string;
  params : Value;
}.

(** [Request::new]; [uuid] is the fresh identifier it draws. *)
Definition new (uuid : string) (act : string) (ps : Value) : t :=
  let rid := "req_" +:+ uuid in
  {| api_version := RPC_VERSION; request_id := rid; correlation_id := Some rid;
     parent_request_id := None; run_id := None; span_id := None; parent_span_id := None;
     agent_session_id := None; action := act; params := ps |}.

(** [Request::child]: a request made on behalf of [parent]. *)
Definition child (uuid : string) (parent : t) (act : string) (ps : Value) : t :=
  let request := new uuid act ps in
  {| api_version := api_version request; request_id := request_id request;
     correlation_id := Some (default (request_id parent) (correlation_id parent));
     parent_request_id := Some (request_id parent);
     run_id := run_id parent;
     span_id := span_id request;
     parent_span_id := span_id parent;
     agent_session_id := agent_session_id parent;
     action := action request; params := params request |}.
End Request.

Module RpcError.
Record t := mk {
  code : string;
  message : string;
  retryable : bool;
  details : Value;
}.

Definition new (c m : string) : t :=
  {| code := c; message := m; retryable := false; details := VNull |}.
End RpcError.

Module Response.
Record t := mk {
  ok : bool;
  api_version : string;
  request_id : string;
  result : option Value;
  error : option RpcError.t;
}.

Definition success (rid : string) (v : Value) : t :=
  {| ok := true; api_version := RPC_VERSION; request_id := rid;
     result := Some v; error := None |}.

Definition failure (rid : string) (e : RpcError.t) : t :=
  {| ok := false; api_version := RPC_VERSION; request_id := rid;
     result := None; error := Some e |}.
End Response.

(** ** Delegation chains

    A node that serves a request issues child requests, whose receivers issue
    children of their own.  [descend] follows one such chain. *)

Fixpoint descend (r : Request.t) (hops : list (string * string * Value)) : Request.t :=
  match hops with
  | [] => r
  | (uuid, act, ps) :: hops' => descend (Request.child uuid r act ps) hops'
  end.

Definition trace_root (r : Request.t) : string :=
  default (Request.request_id r) (Request.correlation_id r).

Lemma descend_root hops r : trace_root (descend r hops) = trace_root r.
Proof. revert r. induction hops as [|[[u a] p] hops IH]; intros r; [done|]. simpl. by rewrite IH. Qed.

Lemma descend_run hops r :
  Request.run_id (descend r hops) = Request.run_id r /\
  Request.agent_session_id (descend r hops) = Request.agent_session_id r.
Proof.
  revert r. induction hops as [|[[u a] p] hops IH]; intros r; [done|].
  apply (IH (Request.child u r a p)).
Qed.

Lemma descend_correlation hops r c :
  Request.correlation_id r = Some c -> Request.correlation_id (descend r hops) = Some c.
Proof.
  revert r. induction hops as [|[[u a] p] hops IH]; intros r Hc; [done|].
  apply IH. simpl. by rewrite Hc.
Qed.
