(* ===== verification/Schema.v ===== *)
(** * The resource contracts ([crates/workbench-schema/src/lib.rs])

    One module per Rust type; a struct is the record [t] of its module, an enum
    the inductive [t].  [u64] and [u32] fields are integers of [Z]. *)

From Stdlib Require Import String.
From S2P Require Import Prelude RustStd Json.

Module Metadata.
Record t := mk {
  id : string;
  labels : gmap string string;
  created_at : Z;
  updated_at : Z;
}.
End Metadata.

Module SessionAuthority.
Record t := mk {
  controller_id : string;
  epoch : Z;
  pending_controller_id : option string;
}.
#[global] Instance eq_dec : EqDecision t.
Proof. solve_decision. Defined.
End SessionAuthority.

Module SessionState.
Inductive t := Active | Completed | Archived.
#[global] Instance eq_dec : EqDecision t.
Proof. solve_decision. Defined.
End SessionState.

Module DriverHandoffState.
Inductive t := Requested | Draining | Ready | Completed | Cancelled | Expired.
#[global] Instance eq_dec : EqDecision t.
Proof. solve_decision. Defined.
End DriverHandoffState.

Module DriverHandoffRequest.
Record t := mk {
  id : string;
  workspace_session_id : string;
  resource : string;
  requested_by : string;
  previous_owner : option string;
  state : DriverHandoffState.t;
  created_at : Z;
  expires_at : Z;
  completed_at : option Z;
}.
End DriverHandoffRequest.

Module AgentMutationOperation.
Record t := mk {
  id : string;
  workspace_session_id : string;
  agent_id : string;
  tool : string;
  started_at : Z;
}.
End AgentMutationOperation.

Module LeaseKind.
Inductive t := Driver | Resource.
#[global] Instance eq_dec : EqDecision t.
Proof. solve_decision. Defined.
Definition to_value (k : t) : Value :=
  vstr match k with Driver => "driver" | Resource => "resource" end.
End LeaseKind.

Module Lease.
Record t := mk {
  id : string;
  kind : LeaseKind.t;
  resource : string;
  owner : string;
  token : string;
  fence : Z;
  acquired_at : Z;
  updated_at : Z;
  expires_at : Z;
  handoff_to : option string;
}.
#[global] Instance eq_dec : EqDecision t.
Proof. solve_decision. Defined.

(** [lease.token = new] *)
Definition with_token (l : t) (new : string) : t :=
  {| id := id l; kind := kind l; resource := resource l; owner := owner l; token := new;
     fence := fence l; acquired_at := acquired_at l; updated_at := updated_at l;
     expires_at := expires_at l; handoff_to := handoff_to l |}.

(** The derived serializer ([rename_all = "camelCase"]). *)
Definition to_value (l : t) : Value := json_object
  [("id", vstr (id l)); ("kind", LeaseKind.to_value (kind l));
   ("resource", vstr (resource l)); ("owner", vstr (owner l)); ("token", vstr (token l));
   ("fence", vnat (fence l)); ("acquiredAt", vnat (acquired_at l));
   ("updatedAt", vnat (updated_at l)); ("expiresAt", vnat (expires_at l));
   ("handoffTo", vopt vstr (handoff_to l))].
End Lease.

Module TaskState.
Inductive t :=
  | Queued | Running | CancelRequested | Cancelling | Succeeded | Failed | Cancelled
  | FailedToCancel | TimedOut | OutcomeUnknown.
#[global] Instance eq_dec : EqDecision t.
Proof. solve_decision. Defined.

Definition terminal (s : t) : bool :=
  match s with
  | Succeeded | Failed | Cancelled | FailedToCancel | TimedOut | OutcomeUnknown => true
  | _ => false
  end.

(** The derived serializer ([rename_all = "kebab-case"]). *)
Definition name (s : t) : string :=
  match s with
  | Queued => "queued" | Running => "running" | CancelRequested => "cancel-requested"
  | Cancelling => "cancelling" | Succeeded => "succeeded" | Failed => "failed"
  | Cancelled => "cancelled" | FailedToCancel => "failed-to-cancel"
  | TimedOut => "timed-out" | OutcomeUnknown => "outcome-unknown"
  end.
End TaskState.

Module TaskEvent.
Record t := mk {
  sequence : Z;
  timestamp : Z;
  event_type : string;
  details : Value;
}.
End TaskEvent.

Module TaskFailure.
Record t := mk {
  code : string;
  message : string;
  retryable : bool;
  details : Value;
}.
End TaskFailure.

Module Task.
Record t := mk {
  id : string;
  correlation_id : option string;
  request_id : option string;
  workspace_session_id : string;
  executor_id : string;
  capability : string;
  input : Value;
  output : option Value;
  error : option TaskFailure.t;
  idempotency_key : string;
  state : TaskState.t;
  attempt : Z;
  created_at : Z;
  updated_at : Z;
  events : list TaskEvent.t;
}.
End Task.

(** ** Sessions, executors, grants, artifacts, generations, transactions *)

Module ObservabilityStage.
Record t := mk {
  id : string;
  label : string;
}.
End ObservabilityStage.

Module SessionObservability.
Record t := mk {
  kind_label : string;
  stages : list ObservabilityStage.t;
  capability_groups : gmap string (list string);
  safe_fields : list string;
  process_restart_templates : list Value;
  default_stall_after_ms : Z;
}.
End SessionObservability.

Module WorkspaceSession.
Record t := mk {
  api_version : string;
  metadata : Metadata.t;
  objective : string;
  state : SessionState.t;
  authority : option SessionAuthority.t;
  observability : option SessionObservability.t;
}.
End WorkspaceSession.

Module ExecutorEndpoint.
Inductive t :=
  | Local (socket : string)
  | Ssh (host : string) (socket : string) (control_path : option string)
  | Command (executable : string) (args : list string) (cwd : option string).
#[global] Instance eq_dec : EqDecision t.
Proof. solve_decision. Defined.
End ExecutorEndpoint.

Module HealthStatus.
Inductive t :=
  | Ready
  | Degraded
  | Offline
  | Unknown.
#[global] Instance eq_dec : EqDecision t.
Proof. solve_decision. Defined.
End HealthStatus.

Module ExecutionKind.
Inductive t :=
  | Inline
  | Background.
#[global] Instance eq_dec : EqDecision t.
Proof. solve_decision. Defined.
End ExecutionKind.

Module CancelPolicy.
Inductive t :=
  | CancelOnDisconnect
  | Continue.
#[global] Instance eq_dec : EqDecision t.
Proof. solve_decision. Defined.
End CancelPolicy.

Module RetryPolicy.
Record t := mk {
  max_attempts : Z;
  retryable_errors : list string;
  backoff_ms : Z;
}.
End RetryPolicy.

Module LockMode.
Inductive t :=
  | Shared
  | Exclusive.
#[global] Instance eq_dec : EqDecision t.
Proof. solve_decision. Defined.
End LockMode.

Module LockTemplate.
Record t := mk {
  key : string;
  mode : LockMode.t;
}.
End LockTemplate.

Module IdempotencyContract.
Record t := mk {
  key_fields : list string;
  retention_ms : Z;
}.
End IdempotencyContract.

Module RollbackStrategy.
Inductive t :=
  | None
  | Compensate (capability : string)
  | RetainPreviousGeneration.
#[global] Instance eq_dec : EqDecision t.
Proof. solve_decision. Defined.
End RollbackStrategy.

Module HealthCheck.
Inductive t :=
  | None
  | Capability (name : string)
  | Process.
#[global] Instance eq_dec : EqDecision t.
Proof. solve_decision. Defined.
End HealthCheck.

Module Effect.
Inductive t :=
  | ReadOnly
  | Mutating
  | Destructive.
#[global] Instance eq_dec : EqDecision t.
Proof. solve_decision. Defined.
End Effect.

Module CapabilityAuthority.
Inductive t :=
  | None
  | WorkspaceDriver
  | DesktopSession
  | ResourceLease (resource : string).
#[global] Instance eq_dec : EqDecision t.
Proof. solve_decision. Defined.
End CapabilityAuthority.

Module CapabilityDescriptor.
Record t := mk {
  name : string;
  version : string;
  input_schema : Value;
  output_schema : Value;
  required_executor_features : list string;
  locks : list LockTemplate.t;
  idempotency : IdempotencyContract.t;
  timeout_ms : Z;
  execution_kind : ExecutionKind.t;
  retry : RetryPolicy.t;
  rollback : RollbackStrategy.t;
  health_check : HealthCheck.t;
  emitted_evidence : list string;
  effect : Effect.t;
  authority : CapabilityAuthority.t;
  priority : Z;
  max_concurrency : option Z;
  cancel_policy : CancelPolicy.t;
}.
End CapabilityDescriptor.

Module Executor.
Record t := mk {
  api_version : string;
  metadata : Metadata.t;
  endpoint : ExecutorEndpoint.t;
  capabilities : list CapabilityDescriptor.t;
  allowed_roots : list string;
  health : HealthStatus.t;
}.
End Executor.

Module ControllerPeer.
Record t := mk {
  api_version : string;
  metadata : Metadata.t;
  endpoint : ExecutorEndpoint.t;
  health : HealthStatus.t;
}.
End ControllerPeer.

Module ReadGrantState.
Inductive t :=
  | Requested
  | Approved
  | Revoked
  | Expired.
#[global] Instance eq_dec : EqDecision t.
Proof. solve_decision. Defined.
End ReadGrantState.

Module ReadGrant.
Record t := mk {
  id : string;
  workspace_session_id : string;
  executor_id : string;
  requested_root : string;
  real_root : string;
  capabilities : list string;
  state : ReadGrantState.t;
  requested_by : string;
  created_at : Z;
  approved_at : option Z;
  revoked_at : option Z;
  approved_by : option string;
  audit : Value;
}.
End ReadGrant.

Module ArtifactLocation.
Inductive t :=
  | File (executor_id : string) (path : string)
  | Url (url : string).
#[global] Instance eq_dec : EqDecision t.
Proof. solve_decision. Defined.
End ArtifactLocation.

Module Provenance.
Record t := mk {
  workspace_session_id : string;
  task_id : option string;
  source_digests : list string;
  attributes : gmap string string;
}.
End Provenance.

Module Artifact.
Record t := mk {
  digest : string;
  artifact_type : string;
  schema : string;
  size : Z;
  locations : list ArtifactLocation.t;
  provenance : Provenance.t;
  created_at : Z;
}.
End Artifact.

Module GenerationState.
Inductive t :=
  | Reserved
  | Materializing
  | Materialized
  | Validated
  | Finalized
  | SmokePassed
  | Active
  | Superseded
  | Failed.
#[global] Instance eq_dec : EqDecision t.
Proof. solve_decision. Defined.
End GenerationState.

Module BaselineIdentity.
Record t := mk {
  digest : string;
  source : string;
  identifier : option string;
  version : option string;
  attributes : gmap string string;
}.
End BaselineIdentity.

Module EvidenceResult.
Record t := mk {
  passed : bool;
  checked_at : Z;
  summary : string;
  artifacts : list string;
  details : Value;
}.
End EvidenceResult.

Module Generation.
Record t := mk {
  id : string;
  workspace_session_id : string;
  application_type : string;
  root : string;
  state : GenerationState.t;
  baseline : BaselineIdentity.t;
  applied_artifacts : list string;
  digest : string;
  created_at : Z;
  activated_at : option Z;
  validation : option EvidenceResult.t;
  finalization : option EvidenceResult.t;
  smoke : option EvidenceResult.t;
  failure : option TaskFailure.t;
}.
End Generation.

Module TransactionState.
Inductive t :=
  | Planned
  | Running
  | OutcomeUnknown
  | Activated
  | RolledBack
  | Failed.
#[global] Instance eq_dec : EqDecision t.
Proof. solve_decision. Defined.
End TransactionState.

Module TransactionStepState.
Inductive t :=
  | Planned
  | Started
  | Succeeded
  | Failed
  | Compensated
  | OutcomeUnknown.
#[global] Instance eq_dec : EqDecision t.
Proof. solve_decision. Defined.
End TransactionStepState.

Module TransactionJournalEntry.
Record t := mk {
  sequence : Z;
  step : string;
  state : TransactionStepState.t;
  attempt : Z;
  started_at : Z;
  finished_at : option Z;
  input_digest : option string;
  output_digest : option string;
  executor_id : option string;
  fence : option Z;
  details : Value;
}.
End TransactionJournalEntry.

Module ActivationTransaction.
Record t := mk {
  id : string;
  workspace_session_id : string;
  idempotency_key : string;
  target : string;
  generation_id : string;
  previous_generation_id : option string;
  state : TransactionState.t;
  created_at : Z;
  updated_at : Z;
  completed_steps : list string;
  journal : list TransactionJournalEntry.t;
  lease_fence : option Z;
  evidence : list string;
  error : option TaskFailure.t;
}.
End ActivationTransaction.

Module AgentState.
Inductive t :=
  | Starting
  | Running
  | Stopped
  | Failed.
#[global] Instance eq_dec : EqDecision t.
Proof. solve_decision. Defined.
End AgentState.

Module AgentInstance.
Record t := mk {
  id : string;
  workspace_session_id : string;
  executor_id : string;
  role : string;
  provider : string;
  state : AgentState.t;
  metadata : Value;
}.
End AgentInstance.

Module HandoffKind.
Inductive t :=
  | Work
  | Acceptance.
#[global] Instance eq_dec : EqDecision t.
Proof. solve_decision. Defined.
End HandoffKind.

Module HandoffArtifact.
Record t := mk {
  artifact_type : string;
  digest : string;
  generation : option string;
  provenance : Value;
  location : option ArtifactLocation.t;
}.
End HandoffArtifact.

Module AgentRoleRef.
Record t := mk {
  agent_id : option string;
  role : string;
}.
End AgentRoleRef.

Module PendingAction.
Record t := mk {
  capability : string;
  input : Value;
}.
End PendingAction.

Module Handoff.
Record t := mk {
  id : string;
  kind : HandoffKind.t;
  workspace_session_id : string;
  objective : string;
  from : AgentRoleRef.t;
  to : AgentRoleRef.t;
  artifacts : list HandoffArtifact.t;
  evidence : list Value;
  completed_actions : list PendingAction.t;
  pending_actions : list PendingAction.t;
  acceptance_criteria : list string;
  constraints : list string;
  blockers : list string;
  created_at : Z;
  acknowledged_at : option Z;
  completed_at : option Z;
  report : option Value;
}.
End Handoff.

Module ApprovalState.
Inductive t :=
  | Pending
  | Approved
  | Consumed
  | Revoked
  | Expired.
#[global] Instance eq_dec : EqDecision t.
Proof. solve_decision. Defined.
End ApprovalState.

Module Approval.
Record t := mk {
  id : string;
  digest : string;
  owner : string;
  reason : string;
  state : ApprovalState.t;
  created_at : Z;
  approved_at : option Z;
  consumed_at : option Z;
  expires_at : option Z;
}.
End Approval.
