(* ===== verification/Store.v ===== *)
(** * The state file ([crates/workbench-core/src/store.rs])

    [WorkbenchState] is everything a controller keeps across restarts.
    [JsonStore::save] writes a temporary file and renames it over the old one;
    the file system below is what that code observes of it.  The serialized
    form is [serde_json]'s and a parameter: what matters here is which bytes
    the target path holds when the process dies. *)

From Stdlib Require Import String.
From S2P Require Import Prelude RustStd Json Schema.

Module WorkbenchState.
Record t := mk {
  controller_id : option string;
  sessions : list WorkspaceSession.t;
  executors : list Executor.t;
  controllers : list ControllerPeer.t;
  leases : list Lease.t;
  lease_fences : gmap string Z;
  tasks : list Task.t;
  artifacts : list Artifact.t;
  generations : list Generation.t;
  transactions : list ActivationTransaction.t;
  agents : list AgentInstance.t;
  handoffs : list Handoff.t;
  driver_handoff_requests : list DriverHandoffRequest.t;
  agent_mutations : list AgentMutationOperation.t;
  read_grants : list ReadGrant.t;
  approvals : list Approval.t;
}.

(** [WorkbenchState::default()] *)
Definition default : t :=
  {| controller_id := None; sessions := []; executors := []; controllers := [];
     leases := []; lease_fences := ∅; tasks := []; artifacts := []; generations := [];
     transactions := []; agents := []; handoffs := []; driver_handoff_requests := [];
     agent_mutations := []; read_grants := []; approvals := [] |}.

(** Assignments to one field. *)
Definition with_controller_id v s := mk v (sessions s) (executors s) (controllers s) (leases s)
  (lease_fences s) (tasks s) (artifacts s) (generations s) (transactions s) (agents s) (handoffs s)
  (driver_handoff_requests s) (agent_mutations s) (read_grants s) (approvals s).
Definition with_sessions v s := mk (controller_id s) v (executors s) (controllers s) (leases s)
  (lease_fences s) (tasks s) (artifacts s) (generations s) (transactions s) (agents s) (handoffs s)
  (driver_handoff_requests s) (agent_mutations s) (read_grants s) (approvals s).
Definition with_executors v s := mk (controller_id s) (sessions s) v (controllers s) (leases s)
  (lease_fences s) (tasks s) (artifacts s) (generations s) (transactions s) (agents s) (handoffs s)
  (driver_handoff_requests s) (agent_mutations s) (read_grants s) (approvals s).
Definition with_controllers v s := mk (controller_id s) (sessions s) (executors s) v (leases s)
  (lease_fences s) (tasks s) (artifacts s) (generations s) (transactions s) (agents s) (handoffs s)
  (driver_handoff_requests s) (agent_mutations s) (read_grants s) (approvals s).
(** [state.leases = ..; state.lease_fences = ..; state.tasks = ..] *)
Definition with_tables ls fs ts s := mk (controller_id s) (sessions s) (executors s) (controllers s)
  ls fs ts (artifacts s) (generations s) (transactions s) (agents s) (handoffs s)
  (driver_handoff_requests s) (agent_mutations s) (read_grants s) (approvals s).
Definition with_artifacts v s := mk (controller_id s) (sessions s) (executors s) (controllers s)
  (leases s) (lease_fences s) (tasks s) v (generations s) (transactions s) (agents s) (handoffs s)
  (driver_handoff_requests s) (agent_mutations s) (read_grants s) (approvals s).
Definition with_generations v s := mk (controller_id s) (sessions s) (executors s) (controllers s)
  (leases s) (lease_fences s) (tasks s) (artifacts s) v (transactions s) (agents s) (handoffs s)
  (driver_handoff_requests s) (agent_mutations s) (read_grants s) (approvals s).
Definition with_transactions v s := mk (controller_id s) (sessions s) (executors s) (controllers s)
  (leases s) (lease_fences s) (tasks s) (artifacts s) (generations s) v (agents s) (handoffs s)
  (driver_handoff_requests s) (agent_mutations s) (read_grants s) (approvals s).
Definition with_agents v s := mk (controller_id s) (sessions s) (executors s) (controllers s)
  (leases s) (lease_fences s) (tasks s) (artifacts s) (generations s) (transactions s) v (handoffs s)
  (driver_handoff_requests s) (agent_mutations s) (read_grants s) (approvals s).
Definition with_handoffs v s := mk (controller_id s) (sessions s) (executors s) (controllers s)
  (leases s) (lease_fences s) (tasks s) (artifacts s) (generations s) (transactions s) (agents s) v
  (driver_handoff_requests s) (agent_mutations s) (read_grants s) (approvals s).
Definition with_requests v s := mk (controller_id s) (sessions s) (executors s) (controllers s)
  (leases s) (lease_fences s) (tasks s) (artifacts s) (generations s) (transactions s) (agents s)
  (handoffs s) v (agent_mutations s) (read_grants s) (approvals s).
Definition with_mutations v s := mk (controller_id s) (sessions s) (executors s) (controllers s)
  (leases s) (lease_fences s) (tasks s) (artifacts s) (generations s) (transactions s) (agents s)
  (handoffs s) (driver_handoff_requests s) v (read_grants s) (approvals s).
Definition with_read_grants v s := mk (controller_id s) (sessions s) (executors s) (controllers s)
  (leases s) (lease_fences s) (tasks s) (artifacts s) (generations s) (transactions s) (agents s)
  (handoffs s) (driver_handoff_requests s) (agent_mutations s) v (approvals s).
Definition with_approvals v s := mk (controller_id s) (sessions s) (executors s) (controllers s)
  (leases s) (lease_fences s) (tasks s) (artifacts s) (generations s) (transactions s) (agents s)
  (handoffs s) (driver_handoff_requests s) (agent_mutations s) (read_grants s) v.
End WorkbenchState.

Module JsonStore.

(** [serde_json::to_vec] and [serde_json::from_slice] on the state. *)
Class StateEncoding := {
  to_vec : WorkbenchState.t -> string;
  from_slice : string -> option WorkbenchState.t;
}.

(** The directory of the state file: the contents of each path. *)
Abbreviation files := (gmap string string).

(** The system calls [save] makes. *)
Inductive effect : Type :=
  | CreateNew (p : string)          (* open with [create_new(true)] *)
  | WriteAll (p data : string)      (* append to the open file *)
  | SyncAll (p : string)
  | Rename (source target : string).

Definition perform (e : effect) (fs : files) : option files :=
  match e with
  | CreateNew p => match fs !! p with Some _ => None | None => Some (<[p := ""]> fs) end
  | WriteAll p data => (fun old => <[p := old +:+ data]> fs) <$> fs !! p
  | SyncAll p => (fun _ => fs) <$> fs !! p
  | Rename source target =>
      (fun content => <[target := content]> (delete source fs)) <$> fs !! source
  end.

Section store.
Context `{!StateEncoding}.

(** [".{name}.{uuid}.tmp"], next to the state file. *)
Definition temporary_path (name uuid : string) : string := "." +:+ name +:+ "." +:+ uuid +:+ ".tmp".

Definition newline : string := String (Ascii.ascii_of_nat 10) EmptyString.

(** The calls of [save], in order. *)
Definition save_effects (name uuid : string) (state : WorkbenchState.t) : list effect :=
  let temporary := temporary_path name uuid in
  [CreateNew temporary; WriteAll temporary (to_vec state); WriteAll temporary newline;
   SyncAll temporary; Rename temporary name].

(** [save] stops at the first call that fails: because the call itself is
    refused, or because the environment fails it ([io i = false]). *)
Fixpoint run_effects (io : nat -> bool) (i : nat) (es : list effect) (fs : files) : bool * files :=
  match es with
  | [] => (true, fs)
  | e :: es' =>
      if io i then
        match perform e fs with
        | Some fs' => run_effects io (S i) es' fs'
        | None => (false, fs)
        end
      else (false, fs)
  end.

Definition save (io : nat -> bool) (name uuid : string) (state : WorkbenchState.t) (fs : files) :
    bool * files :=
  run_effects io 0 (save_effects name uuid state) fs.

(** [load]: the default state when there is no file. *)
Definition load (name : string) (fs : files) : option WorkbenchState.t :=
  match fs !! name with
  | None => Some WorkbenchState.default
  | Some content => from_slice content
  end.

(** The parser skips the newline [save] ends the file with. *)
Definition round_trips (state : WorkbenchState.t) : Prop :=
  from_slice (to_vec state +:+ newline) = Some state.

(** The state file is touched by the last call only. *)
Lemma perform_frame e fs fs' name :
  perform e fs = Some fs' ->
  match e with
  | CreateNew p | WriteAll p _ | SyncAll p => p <> name
  | Rename _ _ => False
  end -> fs' !! name = fs !! name.
Proof.
  destruct e as [p|p d|p|s t]; simpl; [destruct (fs !! p)| | |]; simpl; intros Hp Hne; try done.
  - injection Hp as <-. by rewrite lookup_insert_ne.
  - destruct (fs !! p); [|done]. injection Hp as <-. by rewrite lookup_insert_ne.
  - destruct (fs !! p); [|done]. by injection Hp as <-.
Qed.

Lemma temporary_path_ne name uuid : temporary_path name uuid <> name.
Proof.
  intros Heq. apply (f_equal String.length) in Heq. unfold temporary_path in Heq.
  rewrite !Str.length_app in Heq. simpl in Heq. lia.
Qed.

(** ** Crash safety *)

(** C22. A save is atomic: whatever system call fails and wherever the process
    stops, the state file afterwards loads as the new state (exactly when
    [save] reports success) or as it loaded before; no other file of the
    directory but the temporary one changes. *)
Theorem save_is_atomic io name uuid state fs ok fs' :
  round_trips state -> fs !! temporary_path name uuid = None ->
  save io name uuid state fs = (ok, fs') ->
  load name fs' = (if ok then Some state else load name fs) /\
  (forall p, p <> name -> p <> temporary_path name uuid -> fs' !! p = fs !! p).
Proof.
  intros Henc Hnew. unfold save, save_effects. set (tmp := temporary_path name uuid) in *.
  assert (Hne : tmp <> name) by apply temporary_path_ne.
  unfold load. cbn [run_effects perform].
  repeat (rewrite ?Hnew, ?lookup_insert_eq; cbn [fmap option_fmap option_map];
    match goal with
    | |- context [if io ?i then _ else _] => destruct (io i)
    | |- (false, _) = _ -> _ => intros [= <- <-]; cbn beta iota
    end; try (split; [by rewrite ?lookup_insert_ne | intros; by rewrite ?lookup_insert_ne])).
  intros [= <- <-]. split; [rewrite lookup_insert_eq; apply Henc|].
  intros p Hp Ht. rewrite lookup_insert_ne, lookup_delete_ne by done. by rewrite !lookup_insert_ne.
Qed.
End store.

Definition sample_encoding : StateEncoding :=
  {| to_vec s := default "-" (WorkbenchState.controller_id s);
     from_slice content :=
       if decide (content = "node-a" +:+ newline)
       then Some (WorkbenchState.with_controller_id (Some "node-a") WorkbenchState.default)
       else Some WorkbenchState.default |}.

(** The rename fails: the directory keeps a stale temporary file, and the state
    is the old one. *)
Lemma save_is_atomic_witness :
  let state := WorkbenchState.with_controller_id (Some "node-a") WorkbenchState.default in
  let fs : files := <["state.json" := "old"]> ∅ in
  load (H := sample_encoding) "state.json"
    (save (H := sample_encoding) (fun i => negb (Nat.eqb i 4)) "state.json" "u1" state fs).2 =
  Some WorkbenchState.default.
Proof.
  set (state := WorkbenchState.with_controller_id _ _).
  set (fs := <["state.json" := "old"]> (∅ : files)).
  exact (proj1 (save_is_atomic (H := sample_encoding) (fun i => negb (Nat.eqb i 4))
    "state.json" "u1" state fs false _ eq_refl eq_refl
    (surjective_pairing (save (H := sample_encoding) (fun i => negb (Nat.eqb i 4)) "state.json" "u1" state fs)))).
Defined.
End JsonStore.
