(* ===== verification/Leases.v ===== *)
(** * The lease table ([crates/workbench-core/src/lease.rs])

    [LeaseTable] arbitrates named resources between owners: one lease per
    resource, a fence per resource that grows with every grant, bearer tokens
    that are stored hashed, and handoffs.  Every [now_ms()] a method takes is an
    argument, in the order the method takes them; so are the UUIDs it draws. *)

From Stdlib Require Import String.
From S2P Require Import Prelude RustStd Json Schema.

Module LeaseTable.

Inductive LeaseError : Type :=
  | Active (owner : string) (expires_at : Z)
  | NotFound
  | OwnedByOther
  | InvalidHandoff.

(** [Display], derived by [thiserror]. *)
Definition to_string (e : LeaseError) : string :=
  match e with
  | Active owner expires_at =>
      "resource is leased by " +:+ owner +:+ " until " +:+ pretty expires_at
  | NotFound => "lease not found"
  | OwnedByOther => "lease is owned by another writer"
  | InvalidHandoff => "handoff target does not match"
  end.

Record t := mk {
  leases : gmap string Lease.t;
  fences : gmap string Z;
}.

#[global] Instance LeaseError_eq_dec : EqDecision LeaseError.
Proof. solve_decision. Defined.

Section operations.
Context `{!Sha256}.
Implicit Types (T : t) (resource owner token target : string).

Definition token_digest token : string := "sha256:" +:+ sha256_hex token.

Definition token_matches (stored presented : string) : bool :=
  if Str.starts_with "sha256:" stored
  then bool_decide (token_digest presented = stored)
  else bool_decide (stored = presented).

(** One iteration of the loop of [from_snapshot]. *)
Definition restore_lease (acc : gmap string Lease.t * gmap string Z) (lease : Lease.t) :
    gmap string Lease.t * gmap string Z :=
  let '(ls, fs) := acc in
  let fence := default 0 (fs !! Lease.resource lease) in
  (<[Lease.resource lease := lease]> ls,
   <[Lease.resource lease := Z.max fence (Lease.fence lease)]> fs).

Definition from_snapshot (ls : list Lease.t) (fs : gmap string Z) : t :=
  let '(ls', fs') := foldl restore_lease (∅, fs) ls in mk ls' fs'.

Definition from_leases (ls : list Lease.t) : t := from_snapshot ls ∅.

Definition acquire (now : Z) (lease_uuid token_uuid : string)
    (kind : LeaseKind.t) resource owner (ttl_ms : Z) T : outcome LeaseError Lease.t * t :=
  let grant :=
    let fence := u64_add (default 0 (fences T !! resource)) 1 in
    let lease :=
      {| Lease.id := "lease_" +:+ lease_uuid; Lease.kind := kind; Lease.resource := resource;
         Lease.owner := owner; Lease.token := "token_" +:+ token_uuid; Lease.fence := fence;
         Lease.acquired_at := now; Lease.updated_at := now;
         Lease.expires_at := u64_saturating_add now ttl_ms; Lease.handoff_to := None |} in
    (Ok lease, mk (<[resource := lease]> (leases T)) (<[resource := fence]> (fences T))) in
  match leases T !! resource with
  | Some existing =>
      if Lease.expires_at existing >? now
      then (Err (Active (Lease.owner existing) (Lease.expires_at existing)), T)
      else grant
  | None => grant
  end.

Definition get resource T : option Lease.t := leases T !! resource.

Definition validate (now : Z) resource owner token T : outcome LeaseError Lease.t :=
  match leases T !! resource with
  | None => Err NotFound
  | Some lease =>
      if Lease.expires_at lease <=? now then Err NotFound
      else if negb (bool_decide (Lease.owner lease = owner)) || negb (token_matches (Lease.token lease) token)
      then Err OwnedByOther
      else Ok lease
  end.

Definition renew (now1 now2 : Z) resource owner token (ttl_ms : Z) T :
    outcome LeaseError Lease.t * t :=
  match validate now1 resource owner token T with
  | Ok _ =>
      match leases T !! resource with
      | None => (Panic, T)
      | Some lease =>
          let lease' :=
            {| Lease.id := Lease.id lease; Lease.kind := Lease.kind lease;
               Lease.resource := Lease.resource lease; Lease.owner := Lease.owner lease;
               Lease.token := Lease.token lease; Lease.fence := Lease.fence lease;
               Lease.acquired_at := Lease.acquired_at lease; Lease.updated_at := now2;
               Lease.expires_at := u64_saturating_add now2 ttl_ms;
               Lease.handoff_to := Lease.handoff_to lease |} in
          (Ok (Lease.with_token lease' token), mk (<[resource := lease']> (leases T)) (fences T))
      end
  | Err e => (Err e, T)
  | Panic => (Panic, T)
  end.

(** [lease.handoff_to = to; lease.updated_at = now] *)
Definition set_handoff (lease : Lease.t) (to : option string) (now : Z) : Lease.t :=
  {| Lease.id := Lease.id lease; Lease.kind := Lease.kind lease;
     Lease.resource := Lease.resource lease; Lease.owner := Lease.owner lease;
     Lease.token := Lease.token lease; Lease.fence := Lease.fence lease;
     Lease.acquired_at := Lease.acquired_at lease; Lease.updated_at := now;
     Lease.expires_at := Lease.expires_at lease; Lease.handoff_to := to |}.

Definition handoff (now1 now2 : Z) resource owner token target T :
    outcome LeaseError Lease.t * t :=
  match validate now1 resource owner token T with
  | Ok _ =>
      match leases T !! resource with
      | None => (Panic, T)
      | Some lease =>
          let lease' := set_handoff lease (Some target) now2 in
          (Ok (Lease.with_token lease' token), mk (<[resource := lease']> (leases T)) (fences T))
      end
  | Err e => (Err e, T)
  | Panic => (Panic, T)
  end.

Definition request_handoff (now1 now2 : Z) resource target T : outcome LeaseError Lease.t * t :=
  match leases T !! resource with
  | None => (Err NotFound, T)
  | Some lease =>
      if Lease.expires_at lease <=? now1 then (Err NotFound, T)
      else
        let lease' := set_handoff lease (Some target) now2 in
        (Ok (Lease.with_token lease' ""), mk (<[resource := lease']> (leases T)) (fences T))
  end.

Definition cancel_handoff (now : Z) resource target T : outcome LeaseError Lease.t * t :=
  match leases T !! resource with
  | None => (Err NotFound, T)
  | Some lease =>
      if decide (Lease.handoff_to lease = Some target) then
        let lease' := set_handoff lease None now in
        (Ok (Lease.with_token lease' ""), mk (<[resource := lease']> (leases T)) (fences T))
      else (Err InvalidHandoff, T)
  end.

Definition take_handoff (now : Z) (token_uuid : string) resource target (ttl_ms : Z) T :
    outcome LeaseError Lease.t * t :=
  match leases T !! resource with
  | None => (Err NotFound, T)
  | Some lease =>
      if decide (Lease.handoff_to lease = Some target) then
        let fence := u64_add (default (Lease.fence lease) (fences T !! resource)) 1 in
        let lease' :=
          {| Lease.id := Lease.id lease; Lease.kind := Lease.kind lease;
             Lease.resource := Lease.resource lease; Lease.owner := target;
             Lease.token := "token_" +:+ token_uuid; Lease.fence := fence;
             Lease.acquired_at := now; Lease.updated_at := now;
             Lease.expires_at := u64_saturating_add now ttl_ms; Lease.handoff_to := None |} in
        (Ok lease', mk (<[resource := lease']> (leases T)) (<[resource := fence]> (fences T)))
      else (Err InvalidHandoff, T)
  end.

Definition release (now : Z) resource owner token T : outcome LeaseError Lease.t * t :=
  match validate now resource owner token T with
  | Ok _ =>
      match leases T !! resource with
      | Some lease => (Ok lease, mk (delete resource (leases T)) (fences T))
      | None => (Err NotFound, T)
      end
  | Err e => (Err e, T)
  | Panic => (Panic, T)
  end.

Definition snapshot T : list Lease.t := BTree.values (leases T).

Definition hash_token (lease : Lease.t) : Lease.t :=
  if Str.starts_with "sha256:" (Lease.token lease) then lease
  else Lease.with_token lease (token_digest (Lease.token lease)).

Definition persistence_snapshot T : list Lease.t := hash_token <$> snapshot T.

Definition fence_snapshot T : gmap string Z := fences T.

(** [resources.into_iter().filter_map(|r| self.leases.remove(&r)).collect()] *)
Fixpoint remove_each (resources : list string) (ls : gmap string Lease.t) :
    list Lease.t * gmap string Lease.t :=
  match resources with
  | [] => ([], ls)
  | r :: rs =>
      let '(removed, ls') := remove_each rs (delete r ls) in
      (match ls !! r with Some lease => lease :: removed | None => removed end, ls')
  end.

Definition reap_expired (now : Z) T : list Lease.t * t :=
  let resources :=
    Lease.resource <$> bfilter (fun l => Lease.expires_at l <=? now) (BTree.values (leases T)) in
  let '(removed, ls) := remove_each resources (leases T) in
  (removed, mk ls (fences T)).

(** ** Histories

    The mutators as one alphabet, so that a history is a list of operations.
    [Restart] is what a controller does across a restart: persist the table,
    lose it, and rebuild it from the two snapshots. *)

Inductive op : Type :=
  | Acquire (now : Z) (u1 u2 : string) (kind : LeaseKind.t) (resource owner : string) (ttl : Z)
  | Renew (now1 now2 : Z) (resource owner token : string) (ttl : Z)
  | HandOff (now1 now2 : Z) (resource owner token target : string)
  | RequestHandoff (now1 now2 : Z) (resource target : string)
  | CancelHandoff (now : Z) (resource target : string)
  | TakeHandoff (now : Z) (u : string) (resource target : string) (ttl : Z)
  | Release (now : Z) (resource owner token : string)
  | Reap (now : Z)
  | Restart.

Definition granted (o : outcome LeaseError Lease.t) : list Lease.t :=
  match o with Ok l => [l] | _ => [] end.

Definition restart T : t := from_snapshot (persistence_snapshot T) (fence_snapshot T).

(** The leases an operation grants (with a fresh fence), and the table after. *)
Definition apply (o : op) T : list Lease.t * t :=
  match o with
  | Acquire now u1 u2 k r ow ttl =>
      let '(res, T') := acquire now u1 u2 k r ow ttl T in (granted res, T')
  | Renew n1 n2 r ow tok ttl => ([], (renew n1 n2 r ow tok ttl T).2)
  | HandOff n1 n2 r ow tok tg => ([], (handoff n1 n2 r ow tok tg T).2)
  | RequestHandoff n1 n2 r tg => ([], (request_handoff n1 n2 r tg T).2)
  | CancelHandoff n r tg => ([], (cancel_handoff n r tg T).2)
  | TakeHandoff n u r tg ttl =>
      let '(res, T') := take_handoff n u r tg ttl T in (granted res, T')
  | Release n r ow tok => ([], (release n r ow tok T).2)
  | Reap n => ([], (reap_expired n T).2)
  | Restart => ([], restart T)
  end.

Fixpoint run (ops : list op) T : list Lease.t * t :=
  match ops with
  | [] => ([], T)
  | o :: ops' =>
      let '(gs, T') := apply o T in
      let '(gs', T'') := run ops' T' in
      (gs ++ gs', T'')
  end.

(** ** Well-formed tables *)

Definition fence_of (r : string) T : Z := default 0 (fences T !! r).

(** A lease is filed under its own resource, and the fence recorded for that
    resource is at least the lease's. *)
Definition wf T : Prop :=
  (forall r l, leases T !! r = Some l ->
     Lease.resource l = r /\ exists f, fences T !! r = Some f /\ Lease.fence l <= f) /\
  (forall r f, fences T !! r = Some f -> 0 <= f).

Definition live (now : Z) (l : Lease.t) : bool := Lease.expires_at l >? now.

Lemma wf_empty : wf (mk ∅ ∅).
Proof. by split. Qed.

Lemma wf_update T r l l' :
  wf T -> leases T !! r = Some l ->
  Lease.resource l' = Lease.resource l -> Lease.fence l' = Lease.fence l ->
  wf (mk (<[r := l']> (leases T)) (fences T)).
Proof.
  intros [Hl Hf] Hr Hres Hfen. split; [|done]. intros r' l0; simpl.
  destruct (decide (r = r')) as [<-|Hne].
  - rewrite lookup_insert_eq. intros [= <-]. rewrite Hres, Hfen. eauto.
  - rewrite lookup_insert_ne by done. eauto.
Qed.

Lemma wf_grant T r l f :
  wf T -> Lease.resource l = r -> Lease.fence l = f -> 0 <= f ->
  wf (mk (<[r := l]> (leases T)) (<[r := f]> (fences T))).
Proof.
  intros [Hl Hf] Hr Hfen Hpos. split; simpl; intros r' x;
    destruct (decide (r = r')) as [<-|Hne];
    rewrite ?lookup_insert_eq, ?lookup_insert_ne by done.
  - intros [= <-]. split; [done|]. exists f. split; [done|lia].
  - eauto.
  - by intros [= <-].
  - eauto.
Qed.

Lemma wf_shrink T ls : wf T -> ls ⊆ leases T -> wf (mk ls (fences T)).
Proof.
  intros [Hl Hf] Hsub. split; [|done]. intros r l Hr. apply Hl. by eapply lookup_weaken.
Qed.

Lemma remove_each_subseteq rs ls : (remove_each rs ls).2 ⊆ ls.
Proof.
  revert ls. induction rs as [|r rs IH]; intros ls; simpl; [done|].
  specialize (IH (delete r ls)). destruct (remove_each rs (delete r ls)). simpl in *.
  etrans; [exact IH|apply delete_subseteq].
Qed.

(** *** Rebuilding a table from its snapshots *)

Lemma foldl_restore ls (m : gmap string Lease.t) fs :
  (forall l, l ∈ ls -> exists f, fs !! Lease.resource l = Some f /\ Lease.fence l <= f) ->
  foldl restore_lease (m, fs) ls =
  (foldl (fun m l => <[Lease.resource l := l]> m) m ls, fs).
Proof.
  revert m. induction ls as [|l ls IH]; intros m Hls; simpl; [done|].
  destruct (Hls l) as (f & Hf & Hle); [by left|].
  rewrite Hf. simpl. rewrite Z.max_l by done. rewrite (insert_id fs) by done.
  apply IH. intros l' ?. apply Hls. by right.
Qed.

Lemma restore_values g T :
  wf T -> (forall l, Lease.resource (g l) = Lease.resource l) ->
  (forall l, Lease.fence (g l) = Lease.fence l) ->
  from_snapshot (g <$> snapshot T) (fences T) = mk (g <$> leases T) (fences T).
Proof.
  intros [Hl Hf] Hres Hfen. unfold from_snapshot.
  assert (Hvals : forall l, l ∈ snapshot T -> leases T !! Lease.resource l = Some l).
  { intros l [r Hr]%BTree.elem_of_values. by destruct (Hl r l Hr) as [-> _]. }
  rewrite foldl_restore.
  2:{ intros l' (l & -> & Hin)%list_elem_of_fmap. rewrite Hres, Hfen.
      by destruct (Hl _ _ (Hvals l Hin)) as [_ ?]. }
  f_equal. apply map_eq. intros r. rewrite (foldl_insert_lookup Lease.resource id).
  2:{ rewrite <- list_fmap_compose, (list_fmap_ext _ Lease.resource) by (intros; apply Hres).
      unfold snapshot. rewrite (BTree.keys_values Lease.resource); [apply BTree.NoDup_keys|].
      intros k v Hk. by apply Hl. }
  rewrite lookup_empty, lookup_fmap. destruct (bfind _ _) as [l'|] eqn:Hfind.
  - apply bfind_Some in Hfind as [Hr%bool_decide_eq_true (l & -> & Hin)%list_elem_of_fmap].
    rewrite Hres in Hr. subst r. by rewrite (Hvals l Hin).
  - destruct (leases T !! r) as [l|] eqn:Hr; [|done]. exfalso.
    assert (Hin : g l ∈ g <$> snapshot T).
    { apply list_elem_of_fmap_2, BTree.elem_of_values. eauto. }
    apply bfind_None with (x := g l) in Hfind; [|done].
    apply bool_decide_eq_false in Hfind. rewrite Hres in Hfind.
    by destruct (Hl r l Hr) as [? _].
Qed.

Lemma hash_token_resource l : Lease.resource (hash_token l) = Lease.resource l.
Proof. unfold hash_token. by destruct (Str.starts_with _ _). Qed.
Lemma hash_token_fence l : Lease.fence (hash_token l) = Lease.fence l.
Proof. unfold hash_token. by destruct (Str.starts_with _ _). Qed.
Lemma hash_token_owner l : Lease.owner (hash_token l) = Lease.owner l.
Proof. unfold hash_token. by destruct (Str.starts_with _ _). Qed.
Lemma hash_token_expires l : Lease.expires_at (hash_token l) = Lease.expires_at l.
Proof. unfold hash_token. by destruct (Str.starts_with _ _). Qed.

Lemma restart_eq T : wf T -> restart T = mk (hash_token <$> leases T) (fences T).
Proof.
  intros. apply restore_values; [done| |].
  - apply hash_token_resource.
  - apply hash_token_fence.
Qed.

(** *** Every operation keeps the table well formed *)

(** What an operation does to the fences: nothing, or it grants one lease whose
    fence is the next one of its resource. *)
Definition fence_effect (gs : list Lease.t) T T' : Prop :=
  (gs = [] /\ fences T' = fences T) \/
  (exists l, gs = [l] /\ Lease.fence l = u64_add (fence_of (Lease.resource l) T) 1 /\
             fences T' = <[Lease.resource l := Lease.fence l]> (fences T) /\
             leases T' !! Lease.resource l = Some l).

Lemma apply_fence_effect o T : wf T -> fence_effect (apply o T).1 T (apply o T).2.
Proof.
  intros [Hl Hf]. destruct o as [now u1 u2 k r ow ttl| | | | |now u r tg ttl| |now|]; simpl;
    try (left; split; [done|]).
  - unfold acquire. destruct (leases T !! r) as [e|]; [destruct (_ >? _); [by left|]|];
      right; eexists; (split; [done|]); simpl; rewrite lookup_insert_eq; done.
  - unfold renew. by repeat case_match.
  - unfold handoff. by repeat case_match.
  - unfold request_handoff. by repeat case_match.
  - unfold cancel_handoff. by repeat case_match.
  - unfold take_handoff. destruct (leases T !! r) as [l|] eqn:Hr; [|by left].
    case_decide; [|by left]. right. eexists. split; [done|].
    destruct (Hl _ _ Hr) as (-> & f & Hfr & _). simpl. unfold fence_of. rewrite Hfr. simpl.
    by rewrite lookup_insert_eq.
  - unfold release. by repeat case_match.
  - unfold reap_expired. by destruct (remove_each _ _).
  - by rewrite restart_eq.
Qed.

Lemma apply_wf o T : wf T -> wf (apply o T).2.
Proof.
  intros Hwf. pose proof Hwf as [Hl Hf].
  destruct o as [now u1 u2 k r ow ttl| | | | |now u r tg ttl| |now|]; simpl.
  - unfold acquire. destruct (leases T !! r) as [e|]; [destruct (_ >? _); [done|]|];
      apply wf_grant; done || apply u64_add_bounds.
  - unfold renew. repeat case_match; try done; simpl. by eapply wf_update.
  - unfold handoff. repeat case_match; try done; simpl. by eapply wf_update.
  - unfold request_handoff. repeat case_match; try done; simpl. by eapply wf_update.
  - unfold cancel_handoff. repeat case_match; try done; simpl. by eapply wf_update.
  - unfold take_handoff. destruct (leases T !! r) as [l|] eqn:Hr; [|done]. case_decide; [|done].
    destruct (Hl _ _ Hr) as (Hres & _). apply wf_grant; try done. apply u64_add_bounds.
  - unfold release. repeat case_match; try done; simpl.
    apply wf_shrink; [done|apply delete_subseteq].
  - unfold reap_expired. destruct (remove_each _ _) as [rm ls] eqn:Hrm.
    apply wf_shrink; [done|]. pose proof (remove_each_subseteq
      (Lease.resource <$> bfilter (fun l => Lease.expires_at l <=? now) (BTree.values (leases T)))
      (leases T)) as Hsub. by rewrite Hrm in Hsub.
  - rewrite restart_eq by done. split; [|done]. intros r l; simpl.
    rewrite lookup_fmap. intros (l0 & Hr & ->)%fmap_Some.
    rewrite hash_token_resource, hash_token_fence. by apply Hl.
Qed.

(** A fence never moves back, as long as the 64-bit counter does not wrap. *)
Lemma fence_effect_mono gs T T' r :
  fence_effect gs T T' -> 0 <= fence_of r T < u64_max ->
  fence_of r T <= fence_of r T' <= fence_of r T + Z.of_nat (length gs) /\
  Forall (fun l => Lease.resource l = r ->
                   fence_of r T < Lease.fence l /\ Lease.fence l = fence_of r T') gs.
Proof.
  unfold fence_of. intros [[-> ->]|(l & -> & Hfl & -> & _)] Hr; [simpl; split; [lia|done]|].
  unfold fence_of in Hfl. cbn [length]. split.
  - destruct (decide (Lease.resource l = r)) as [<-|Hne].
    + rewrite lookup_insert_eq. simpl. rewrite Hfl, u64_add_small; lia.
    + rewrite lookup_insert_ne by done. lia.
  - constructor; [|done]. intros <-. rewrite lookup_insert_eq. simpl.
    rewrite Hfl, u64_add_small; lia.
Qed.

Lemma run_wf ops T : wf T -> wf (run ops T).2.
Proof.
  revert T. induction ops as [|o ops IH]; intros T Hwf; simpl; [done|].
  pose proof (apply_wf o T Hwf) as Hwf'. destruct (apply o T) as [gs T']. simpl in *.
  specialize (IH T' Hwf'). by destruct (run ops T').
Qed.

Lemma wf_fence_nonneg T r : wf T -> 0 <= fence_of r T.
Proof.
  intros [_ Hf]. unfold fence_of. destruct (fences T !! r) as [f|] eqn:Hr; simpl; [eauto|lia].
Qed.

(** The fences granted for [r] by a history. *)
Definition fences_granted (r : string) (gs : list Lease.t) : list Z :=
  Lease.fence <$> bfilter (fun l => bool_decide (Lease.resource l = r)) gs.

Lemma fences_granted_app r gs gs' :
  fences_granted r (gs ++ gs') = fences_granted r gs ++ fences_granted r gs'.
Proof.
  unfold fences_granted. by rewrite bfilter_app, fmap_app.
Qed.

Lemma fences_granted_singleton r l :
  fences_granted r [l] = if bool_decide (Lease.resource l = r) then [Lease.fence l] else [].
Proof. unfold fences_granted. simpl. by case_bool_decide. Qed.

Lemma apply_grants_le_1 o T : wf T -> (length (apply o T).1 <= 1)%nat.
Proof. intros Hwf. destruct (apply_fence_effect o T Hwf) as [[-> _]|(l & -> & _)]; simpl; lia. Qed.

(** *** Credentials *)

Lemma granted_token o T l T' :
  apply o T = ([l], T') -> exists u, Lease.token l = "token_" +:+ u.
Proof.
  destruct o as [now u1 u2 k r ow ttl| | | | |now u r tg ttl| | |]; simpl; try done.
  - unfold acquire. destruct (leases T !! r) as [e|]; [destruct (_ >? _)|]; simpl; try done;
      intros [= <- <-]; by eexists.
  - unfold take_handoff. destruct (leases T !! r) as [e|]; [|done]. case_decide; [|done].
    simpl. intros [= <- <-]. by eexists.
Qed.

Lemma token_matches_raw u presented :
  token_matches ("token_" +:+ u) presented = bool_decide ("token_" +:+ u = presented).
Proof. done. Qed.

(** Hashing at rest does not change which tokens are accepted, unless the
    digest collides. *)
Lemma token_matches_hash_token l presented :
  (sha256_hex presented = sha256_hex (Lease.token l) -> presented = Lease.token l) ->
  token_matches (Lease.token (hash_token l)) presented = token_matches (Lease.token l) presented.
Proof.
  intros Hinj. unfold hash_token. destruct (Str.starts_with _ (Lease.token l)) eqn:Hp; [done|].
  simpl. unfold token_matches. rewrite Hp. unfold token_digest at 1. rewrite Str.starts_with_app.
  apply bool_decide_ext. unfold token_digest. split.
  - intros Heq%(inj (String.append _)). by rewrite Hinj.
  - by intros ->.
Qed.

Lemma hash_token_idemp l : hash_token (hash_token l) = hash_token l.
Proof.
  destruct (Str.starts_with "sha256:" (Lease.token l)) eqn:Hp.
  - assert (hash_token l = l) as Heq by (unfold hash_token; by rewrite Hp). by rewrite !Heq.
  - assert (hash_token l = Lease.with_token l (token_digest (Lease.token l))) as ->
      by (unfold hash_token; by rewrite Hp).
    unfold hash_token, token_digest. cbn [Lease.with_token Lease.token].
    by rewrite Str.starts_with_app.
Qed.

Lemma validate_Ok now r ow tok T l :
  validate now r ow tok T = Ok l ->
  leases T !! r = Some l /\ now < Lease.expires_at l /\ Lease.owner l = ow /\
  token_matches (Lease.token l) tok = true.
Proof.
  unfold validate. destruct (leases T !! r) as [l0|]; [|done].
  destruct (Z.leb_spec (Lease.expires_at l0) now); [done|].
  destruct (bool_decide _) eqn:Ho; [|done]. destruct (token_matches _ _) eqn:Ht; [|done].
  intros [= ->]. apply bool_decide_eq_true in Ho. auto.
Qed.

(** [renew] and [handoff] re-read the lease they have just validated, so their
    [expect] never fires. *)
Lemma renew_no_panic n1 n2 r ow tok ttl T : (renew n1 n2 r ow tok ttl T).1 <> Panic.
Proof.
  unfold renew. destruct (validate n1 r ow tok T) as [l| |] eqn:Hv; [|done|].
  - apply validate_Ok in Hv as (-> & _). done.
  - unfold validate in Hv. by repeat case_match.
Qed.

Lemma handoff_no_panic n1 n2 r ow tok tg T : (handoff n1 n2 r ow tok tg T).1 <> Panic.
Proof.
  unfold handoff. destruct (validate n1 r ow tok T) as [l| |] eqn:Hv; [|done|].
  - apply validate_Ok in Hv as (-> & _). done.
  - unfold validate in Hv. by repeat case_match.
Qed.

(** *** Operations of others

    [foreign l offer o]: while [l] is offered to [offer], the operation [o] is one that somebody else than the
    holder of [l] can do before [l] expires: what it presents for the resource of [l] is another owner or a
    token that is accepted neither for [l] nor for its hashed form, and it does not take [l] as the one it is
    offered to. *)

Definition rejected (l : Lease.t) (tok : string) : Prop :=
  token_matches (Lease.token l) tok = false /\
  token_matches (Lease.token (hash_token l)) tok = false.

Definition foreign (l : Lease.t) (offer : option string) (o : op) : Prop :=
  match o with
  | Acquire now _ _ _ r _ _ => Lease.resource l = r -> now < Lease.expires_at l
  | Renew _ _ r ow tok _ | HandOff _ _ r ow tok _ | Release _ r ow tok =>
      Lease.resource l = r -> ow <> Lease.owner l \/ rejected l tok
  | RequestHandoff _ _ _ _ | CancelHandoff _ _ _ | Restart => True
  | TakeHandoff _ _ r target _ => Lease.resource l = r -> offer <> Some target
  | Reap now => now < Lease.expires_at l
  end.

(** Whom [l] is offered to after [o]: a request before its expiry offers it, the withdrawal of that offer ends it. *)
Definition offer_after (l : Lease.t) (offer : option string) (o : op) : option string :=
  match o with
  | RequestHandoff now _ r target =>
      if decide (r = Lease.resource l /\ now < Lease.expires_at l) then Some target else offer
  | CancelHandoff _ r target => if decide (r = Lease.resource l /\ offer = Some target) then None else offer
  | _ => offer
  end.

(** A history of others, from an offer on. *)
Fixpoint by_others (l : Lease.t) (offer : option string) (ops : list op) : Prop :=
  match ops with
  | [] => True
  | o :: ops => foreign l offer o /\ by_others l (offer_after l offer o) ops
  end.

(** The same grant: same owner, fence and expiry, and the same credential. *)
Definition same_grant (l l' : Lease.t) : Prop :=
  Lease.id l' = Lease.id l /\
  Lease.resource l' = Lease.resource l /\ Lease.owner l' = Lease.owner l /\
  Lease.fence l' = Lease.fence l /\ Lease.expires_at l' = Lease.expires_at l /\
  (Lease.token l' = Lease.token l \/ Lease.token l' = Lease.token (hash_token l)).

Lemma same_grant_refl l : same_grant l l.
Proof. unfold same_grant. naive_solver. Qed.

Lemma same_grant_set_handoff l l' to now :
  same_grant l l' -> same_grant l (set_handoff l' to now).
Proof. done. Qed.

Lemma same_grant_hash l l' : same_grant l l' -> same_grant l (hash_token l').
Proof.
  unfold same_grant. rewrite hash_token_resource, hash_token_fence, hash_token_owner,
    hash_token_expires. intros (Hid & ? & ? & ? & ? & Ht).
  split; [unfold hash_token; by destruct (Str.starts_with _ _)|].
  split_and!; try done. right. destruct Ht as [Ht|Ht].
  - unfold hash_token. rewrite Ht. by destruct (Str.starts_with _ (Lease.token l)).
  - pose proof (hash_token_idemp l) as Hi. apply (f_equal Lease.token) in Hi. rewrite <- Hi.
    unfold hash_token at 1 2. rewrite Ht. by destruct (Str.starts_with _ _).
Qed.

Lemma validate_rejected now r ow tok T l l' :
  leases T !! r = Some l' -> same_grant l l' -> ow <> Lease.owner l \/ rejected l tok ->
  exists e, validate now r ow tok T = Err e.
Proof.
  intros Hr (_ & _ & Ho & _ & _ & Ht) Hrej. unfold validate. rewrite Hr.
  destruct (_ <=? _); [by eexists|]. rewrite Ho. destruct Hrej as [Hne|[H1 H2]].
  - rewrite bool_decide_eq_false_2 by done. by eexists.
  - assert (token_matches (Lease.token l') tok = false) as -> by (destruct Ht as [-> | ->]; done).
    rewrite orb_true_r. by eexists.
Qed.

Lemma remove_each_lookup rs (ls : gmap string Lease.t) r :
  (remove_each rs ls).2 !! r = if decide (r ∈ rs) then None else ls !! r.
Proof.
  revert ls. induction rs as [|r0 rs IH]; intros ls.
  { cbn [remove_each snd]. case_decide as Hnil; [by apply not_elem_of_nil in Hnil|done]. }
  cbn [remove_each].
  specialize (IH (delete r0 ls)). destruct (remove_each rs (delete r0 ls)) as [rm ls'].
  simpl in *. rewrite IH. destruct (decide (r = r0)) as [->|Hne].
  - rewrite lookup_delete_eq, (decide_True (P := r0 ∈ r0 :: rs)) by left. by case_decide.
  - rewrite lookup_delete_ne by done. apply decide_ext. rewrite elem_of_cons. tauto.
Qed.

Lemma reap_lookup now T r :
  wf T ->
  leases (reap_expired now T).2 !! r =
  match leases T !! r with
  | Some l => if live now l then Some l else None
  | None => None
  end.
Proof.
  intros [Hl _]. unfold reap_expired.
  set (rs := Lease.resource <$> _). pose proof (remove_each_lookup rs (leases T) r) as Hlk.
  destruct (remove_each rs (leases T)) as [rm ls]. simpl in *. rewrite Hlk. clear Hlk.
  assert (Hin : r ∈ rs <-> exists l, leases T !! r = Some l /\ Lease.expires_at l <= now).
  { unfold rs. rewrite list_elem_of_fmap. split.
    - intros (l & -> & [He%Z.leb_le [k Hk]%BTree.elem_of_values]%elem_of_bfilter).
      destruct (Hl _ _ Hk) as [-> _]. eauto.
    - intros (l & Hr & He). exists l. destruct (Hl _ _ Hr) as [-> _]. split; [done|].
      apply elem_of_bfilter. split; [by apply Z.leb_le|]. apply BTree.elem_of_values. eauto. }
  unfold live. case_decide as Hd.
  - apply Hin in Hd as (l & -> & He). destruct (Z.gtb_spec (Lease.expires_at l) now); [lia|done].
  - destruct (leases T !! r) as [l|]; [|done].
    destruct (Z.gtb_spec (Lease.expires_at l) now) as [|Hle]; [done|]. exfalso. apply Hd, Hin. eauto.
Qed.

End operations.

(** ** Properties *)

Section properties.
Context `{!Sha256}.
Implicit Types (T : t) (resource owner token target : string).

(** C2. Fencing.  Along any history of operations, restarts included, the
    fences granted for a resource are strictly increasing and all above the
    fence the table started with, provided the 64-bit counter has room for the
    history.  A writer holding an older grant can therefore always be told from
    the current one. *)
Theorem grants_fence_strictly_increasing ops T r :
  wf T -> fence_of r T + Z.of_nat (length ops) <= u64_max ->
  StronglySorted Z.lt (fence_of r T :: fences_granted r (run ops T).1).
Proof.
  revert T. induction ops as [|o ops IH]; intros T Hwf Hroom; simpl; [repeat constructor|].
  pose proof (apply_wf o T Hwf) as Hwf'. pose proof (apply_fence_effect o T Hwf) as Heff.
  pose proof (apply_grants_le_1 o T Hwf) as H1. pose proof (wf_fence_nonneg T r Hwf).
  destruct (apply o T) as [gs T'] eqn:Happ. cbn [fst snd] in *.
  cbn [length] in Hroom.
  destruct (fence_effect_mono gs T T' r Heff ltac:(lia)) as [[Hle Hge] Hgs].
  assert (Hsorted := IH T' Hwf' ltac:(lia)).
  destruct (run ops T') as [gs' T'']. cbn [fst] in *.
  rewrite fences_granted_app. apply StronglySorted_inv in Hsorted as [Hs Hall].
  destruct gs as [|l [|]]; [| |simpl in H1; lia].
  - simpl. constructor; [done|]. eapply Forall_impl; [exact Hall|]. simpl. lia.
  - apply Forall_inv in Hgs. rewrite fences_granted_singleton. case_bool_decide as Hr; simpl.
    + destruct (Hgs Hr) as [Hlt Heq]. rewrite Heq in *. constructor; [by constructor|].
      constructor; [lia|]. eapply Forall_impl; [exact Hall|]. simpl. lia.
    + constructor; [done|]. eapply Forall_impl; [exact Hall|]. simpl. lia.
Qed.

(** One foreign operation leaves a live grant as it is, offered to whom it says. *)
Definition granted_as (l : Lease.t) (offer : option string) (T : t) : Prop :=
  exists l', leases T !! Lease.resource l = Some l' /\ same_grant l l' /\ Lease.handoff_to l' = offer.

Lemma granted_as_insert l offer r l2 T ls :
  granted_as l offer T -> (r = Lease.resource l -> same_grant l l2 /\ Lease.handoff_to l2 = offer) ->
  granted_as l offer (mk (<[r := l2]> (leases T)) ls).
Proof.
  intros (l' & Hr & Hs) H2. destruct (decide (r = Lease.resource l)) as [->|Hne].
  - exists l2. cbn. rewrite lookup_insert_eq. split; [done|]. by apply H2.
  - exists l'. cbn. by rewrite lookup_insert_ne.
Qed.

Lemma foreign_validates l offer T now r ow tok :
  granted_as l offer T -> (Lease.resource l = r -> ow <> Lease.owner l \/ rejected l tok) ->
  is_ok (validate now r ow tok T) = true -> Lease.resource l <> r.
Proof.
  intros (l' & Hr & Hs & _) Hj Hok <-. destruct (validate_rejected now _ ow tok T l l' Hr Hs) as [e He]; [by apply Hj|].
  by rewrite He in Hok.
Qed.

(** The operations that show a token. *)
Lemma foreign_shows_token l offer T now r ow tok o :
  granted_as l offer T -> (Lease.resource l = r -> ow <> Lease.owner l \/ rejected l tok) ->
  (exists n2 ttl, o = Renew now n2 r ow tok ttl) \/ (exists n2 tg, o = HandOff now n2 r ow tok tg) \/
    o = Release now r ow tok ->
  granted_as l offer (apply o T).2.
Proof.
  intros Hg Hfor Ho. pose proof (foreign_validates l offer T now r ow tok Hg Hfor) as Hne.
  destruct Ho as [(n2 & ttl & ->)|[(n2 & tg & ->)| ->]]; cbn; unfold renew, handoff, release;
    destruct (validate now r ow tok T) as [v| |] eqn:Hv; try done; specialize (Hne eq_refl);
    (destruct (leases T !! r) as [v'|] eqn:Hv'; [|done]).
  - apply granted_as_insert; [done|]. by intros ->.
  - apply granted_as_insert; [done|]. by intros ->.
  - destruct Hg as (l' & Hr & Hs). exists l'. cbn. by rewrite lookup_delete_ne.
Qed.

Lemma foreign_keeps_grant l offer o T :
  wf T -> granted_as l offer T -> foreign l offer o -> granted_as l (offer_after l offer o) (apply o T).2.
Proof.
  intros Hwf Hg Hfor. pose proof Hg as (l' & Hr & Hs & Ho). pose proof Hs as (_ & _ & _ & _ & Hexp & _).
  destruct o as [now u1 u2 k r ow ttl|n1 n2 r ow tok ttl|n1 n2 r ow tok tg|n1 n2 r tg|n r tg
                |now u r tg ttl|now r ow tok|now|]; cbn [foreign offer_after] in *.
  - cbn. unfold acquire. destruct (decide (r = Lease.resource l)) as [->|Hne].
    + rewrite Hr. destruct (Z.gtb_spec (Lease.expires_at l') now); [done|]. specialize (Hfor eq_refl). lia.
    + destruct (leases T !! r) as [e|]; [destruct (_ >? _); [done|]|]; cbn; by apply granted_as_insert.
  - eapply foreign_shows_token; eauto.
  - eapply foreign_shows_token; eauto.
  - cbn. unfold request_handoff. destruct (decide (r = Lease.resource l)) as [->|Hne].
    + rewrite Hr. destruct (Z.leb_spec (Lease.expires_at l') n1) as [Hle|Hlt].
      { rewrite decide_False by (intros [_ ?]; lia). done. }
      rewrite decide_True by (split; [done|lia]). eexists. cbn. rewrite lookup_insert_eq. split; [done|]. split; [|done].
      by apply same_grant_set_handoff.
    + rewrite decide_False by tauto. destruct (leases T !! r); [|done]. destruct (_ <=? _); [done|].
      by apply granted_as_insert.
  - cbn. unfold cancel_handoff. destruct (decide (r = Lease.resource l)) as [->|Hne].
    + rewrite Hr, Ho. destruct (decide (offer = Some tg)) as [Hc|Hc].
      * rewrite (decide_True (P := _ /\ _)) by done. eexists. cbn. rewrite lookup_insert_eq. split; [done|]. split; [|done].
        by apply same_grant_set_handoff.
      * by rewrite (decide_False (P := _ /\ _)) by tauto.
    + rewrite decide_False by tauto. destruct (leases T !! r); [|done]. case_decide; [|done].
      by apply granted_as_insert.
  - cbn. unfold take_handoff. destruct (leases T !! r) as [v|] eqn:Hv; [|done]. case_decide as Hoff; [|done].
    apply granted_as_insert; [done|]. intros ->. rewrite Hr in Hv. injection Hv as <-. by destruct (Hfor eq_refl); rewrite <- Ho.
  - eapply foreign_shows_token; eauto.
  - exists l'. cbn. rewrite reap_lookup, Hr by done. unfold live.
    destruct (Z.gtb_spec (Lease.expires_at l') now); [done|lia].
  - cbn. rewrite restart_eq by done. exists (hash_token l'). cbn. rewrite lookup_fmap, Hr. split; [done|].
    split; [by apply same_grant_hash|]. rewrite <- Ho. unfold hash_token. by destruct (Str.starts_with _ _).
Qed.

(** C3. Mutual exclusion.  A live lease survives every history of operations of others before it expires:
    acquisitions, requests and withdrawals of a handoff, reaping, restarts, renewals, handoffs and releases in
    another name or with a token that is not its own, and attempts to take it by whoever it is not offered to
    at that moment.  Owner, fence, expiry and credential stay, and it is offered to the last one who asked and
    did not withdraw; only that one's taking it, the holder itself, or expiry can end it. *)
Theorem live_lease_survives_foreign_operations ops T l :
  wf T -> leases T !! Lease.resource l = Some l -> by_others l (Lease.handoff_to l) ops ->
  exists l', leases (run ops T).2 !! Lease.resource l = Some l' /\ same_grant l l' /\
    Lease.handoff_to l' = foldl (offer_after l) (Lease.handoff_to l) ops.
Proof.
  intros Hwf Hr Hops.
  assert (granted_as l (Lease.handoff_to l) T) as Hg by (exists l; split_and!; eauto using same_grant_refl).
  clear Hr. revert T Hwf Hg Hops. generalize (Lease.handoff_to l) as offer.
  induction ops as [|o ops IH]; intros offer T Hwf Hg; [done|]. intros [Ho Hops]. cbn.
  pose proof (apply_wf o T Hwf) as Hwf'. pose proof (foreign_keeps_grant l offer o T Hwf Hg Ho) as Hg'.
  destruct (apply o T) as [gs T']. specialize (IH _ T' Hwf' Hg' Hops). by destruct (run ops T').
Qed.

(** Only the holder validates.  Right after a grant, whether by
    [acquire] or by [take_handoff], a presented owner and token are accepted
    exactly when they are those of the grant and it has not expired; a stale
    writer, the previous owner included, is told [OwnedByOther]. *)
Theorem grant_validates_only_its_holder o T l T' now owner token :
  wf T -> apply o T = ([l], T') ->
  validate now (Lease.resource l) owner token T' =
    if negb (live now l) then Err NotFound
    else if decide (owner = Lease.owner l /\ token = Lease.token l) then Ok l
    else Err OwnedByOther.
Proof.
  intros Hwf Happ. pose proof (apply_fence_effect o T Hwf) as Heff. rewrite Happ in Heff.
  destruct Heff as [[? _]|(l' & [= <-] & _ & _ & Hr)]; [done|].
  destruct (granted_token _ _ _ _ Happ) as [u Hu]. cbn [snd] in Hr.
  unfold validate. rewrite Hr. unfold live.
  destruct (Z.leb_spec (Lease.expires_at l) now), (Z.gtb_spec (Lease.expires_at l) now);
    try lia; [done|]. cbn [negb].
  rewrite Hu at 1. rewrite token_matches_raw, <- Hu.
  do 2 case_bool_decide; case_decide as Hd;
    solve [done | destruct Hd; congruence | exfalso; apply Hd; split; congruence].
Qed.

(** Restart transparency.  After persisting with hashed tokens and
    rebuilding, every [validate] gives the answer it gave before (with the
    stored token hashed), unless the presented token collides with the stored
    one under SHA-256. *)
Theorem restart_preserves_validation now resource owner token T :
  wf T ->
  (forall l, leases T !! resource = Some l ->
     sha256_hex token = sha256_hex (Lease.token l) -> token = Lease.token l) ->
  validate now resource owner token (restart T) =
  (l ← validate now resource owner token T; mret (hash_token l)).
Proof.
  intros Hwf Hinj. rewrite restart_eq by done. unfold validate. simpl. rewrite lookup_fmap.
  destruct (leases T !! resource) as [l|] eqn:Hr; [|done]. simpl.
  rewrite hash_token_expires, hash_token_owner, token_matches_hash_token by eauto.
  destruct (_ <=? _); [done|]. by destruct (_ || _).
Qed.

(** What is persisted.  No token leaves for the disk in the clear: every
    lease of the persistence snapshot carries a digest, and nothing else of the
    lease changes. *)
Theorem persistence_snapshot_hashes_every_token T :
  Forall2 (fun p l =>
    (exists d, Lease.token p = "sha256:" +:+ d) /\
    Lease.with_token p (Lease.token l) = l)
    (persistence_snapshot T) (snapshot T).
Proof.
  unfold persistence_snapshot. apply Forall2_fmap_l, Forall_Forall2_diag, Forall_true.
  intros l. unfold compose, hash_token.
  destruct (Str.starts_with "sha256:" (Lease.token l)) eqn:Hp.
  - split; [by apply Str.starts_with_strip in Hp|]. by destruct l.
  - split; [by exists (sha256_hex (Lease.token l))|]. by destruct l.
Qed.

(** Reaping.  [reap_expired] drops exactly the leases that have expired,
    keeps the others unchanged, and keeps every fence. *)
Theorem reap_expired_drops_exactly_the_expired now T :
  wf T ->
  (forall r, leases (reap_expired now T).2 !! r =
     l ← leases T !! r; if live now l then Some l else None) /\
  fences (reap_expired now T).2 = fences T.
Proof.
  intros Hwf. split; [intros r; by rewrite reap_lookup|].
  unfold reap_expired. by destruct (remove_each _ _).
Qed.

(** Handoff.  Once a handoff of a live lease to [target] has been
    requested, the answer does not disclose the holder's token, the holder can
    still validate, nobody but [target] can take the lease, and [target] takes
    it with the next fence. *)
Theorem requested_handoff_goes_to_its_target now1 now2 now3 u resource target ttl T l :
  wf T -> leases T !! resource = Some l -> live now1 l = true ->
  exists pub T',
    request_handoff now1 now2 resource target T = (Ok pub, T') /\
    Lease.token pub = "" /\
    (forall now owner token,
       is_ok (validate now resource owner token T') = is_ok (validate now resource owner token T)) /\
    (forall other, other <> target ->
       take_handoff now3 u resource other ttl T' = (Err InvalidHandoff, T')) /\
    exists l2 T2, take_handoff now3 u resource target ttl T' = (Ok l2, T2) /\
      Lease.owner l2 = target /\ Lease.fence l2 = u64_add (fence_of resource T) 1 /\
      leases T2 !! resource = Some l2.
Proof.
  intros [Hl Hf] Hr Hlive. destruct (Hl _ _ Hr) as (Hres & f & Hfr & _).
  unfold request_handoff. rewrite Hr. unfold live in Hlive. apply Z.gtb_lt in Hlive.
  destruct (Z.leb_spec (Lease.expires_at l) now1); [lia|].
  do 2 eexists. split; [done|]. split; [done|]. split; [|split].
  - intros now owner token. unfold validate. simpl. rewrite lookup_insert_eq, Hr. simpl.
    destruct (_ <=? _); [done|]. by destruct (_ || _).
  - intros other Hne. unfold take_handoff. simpl. rewrite lookup_insert_eq. simpl.
    rewrite decide_False; [done|]. congruence.
  - unfold take_handoff. simpl. rewrite lookup_insert_eq. simpl. rewrite decide_True by done.
    do 2 eexists. split; [done|]. simpl. unfold fence_of. rewrite Hfr. simpl.
    by rewrite lookup_insert_eq.
Qed.

End properties.

(** ** Witnesses *)

Section witnesses.
#[local] Instance toy_digest : Sha256 := fun s => s.

(** One lease of [agent-a] on [workspace:a]; what [agent-b] tries against it. *)
Definition sample : t :=
  (apply (Acquire 100 "1" "2" LeaseKind.Driver "workspace:a" "agent-a" 60000) (mk ∅ ∅)).2.

Definition sample_history : list op :=
  [Acquire 150 "3" "4" LeaseKind.Driver "workspace:a" "agent-b" 60000;
   RequestHandoff 200 201 "workspace:a" "agent-b";
   Restart;
   TakeHandoff 300 "5" "workspace:a" "agent-b" 50;
   Reap 400;
   Acquire 500 "6" "7" LeaseKind.Driver "workspace:a" "agent-c" 10].

Lemma sample_wf : wf sample.
Proof. apply apply_wf, wf_empty. Qed.

Definition sample_lease : Lease.t :=
  Lease.mk "lease_1" LeaseKind.Driver "workspace:a" "agent-a" "token_2" 1 100 100 60100 None.

Lemma grants_fence_strictly_increasing_witness :
  fences_granted "workspace:a" (run sample_history sample).1 = [2; 3] /\
  StronglySorted Z.lt
    (fence_of "workspace:a" sample :: fences_granted "workspace:a" (run sample_history sample).1).
Proof.
  split; [vm_compute; reflexivity|].
  apply (grants_fence_strictly_increasing sample_history sample "workspace:a").
  - apply sample_wf.
  - vm_compute. discriminate.
Defined.

(** [agent-b] asks for the lease; [agent-c] cannot take it, and [agent-b] cannot after withdrawing. *)
Definition foreign_history : list op :=
  [Acquire 150 "3" "4" LeaseKind.Driver "workspace:a" "agent-b" 60000; Restart;
   RequestHandoff 160 161 "workspace:a" "agent-b"; TakeHandoff 170 "5" "workspace:a" "agent-c" 60000;
   Release 180 "workspace:a" "agent-b" "token_2"; CancelHandoff 190 "workspace:a" "agent-b";
   TakeHandoff 200 "6" "workspace:a" "agent-b" 60000; Release 210 "workspace:a" "agent-a" "token_x"; Reap 300].

Lemma live_lease_survives_foreign_operations_witness :
  exists l', leases (run foreign_history sample).2 !! "workspace:a" = Some l' /\ same_grant sample_lease l' /\
    Lease.handoff_to l' = None.
Proof.
  apply (live_lease_survives_foreign_operations foreign_history sample sample_lease).
  - apply sample_wf.
  - vm_compute. reflexivity.
  - cbn. split_and!; try done; intros _; [by left|right; split; vm_compute; reflexivity].
Defined.

Lemma grant_validates_only_its_holder_witness :
  validate 150 "workspace:a" "agent-b" "token_2" sample = Err OwnedByOther.
Proof.
  apply (grant_validates_only_its_holder
    (Acquire 100 "1" "2" LeaseKind.Driver "workspace:a" "agent-a" 60000) (mk ∅ ∅)
    sample_lease sample 150 "agent-b" "token_2").
  - apply wf_empty.
  - vm_compute. reflexivity.
Defined.

Lemma restart_preserves_validation_witness :
  validate 150 "workspace:a" "agent-a" "token_2" (restart sample) =
  (l ← validate 150 "workspace:a" "agent-a" "token_2" sample; mret (hash_token l)).
Proof.
  apply restart_preserves_validation.
  - apply sample_wf.
  - intros l _ Heq. exact Heq.
Defined.

Lemma reap_expired_drops_exactly_the_expired_witness :
  leases (reap_expired 70000 sample).2 !! "workspace:a" = None.
Proof.
  rewrite (proj1 (reap_expired_drops_exactly_the_expired 70000 sample sample_wf)).
  vm_compute. reflexivity.
Defined.

Lemma requested_handoff_goes_to_its_target_witness :
  exists pub T', request_handoff 200 201 "workspace:a" "agent-b" sample = (Ok pub, T') /\
    Lease.token pub = "".
Proof.
  destruct (requested_handoff_goes_to_its_target 200 201 300 "9" "workspace:a" "agent-b" 50
    sample sample_lease) as (pub & T' & Hr & Ht & _).
  - apply sample_wf.
  - vm_compute. reflexivity.
  - vm_compute. reflexivity.
  - exists pub, T'. split; assumption.
Defined.
End witnesses.
End LeaseTable.
