(* ===== verification/Redact.v ===== *)
(** * Redaction of secrets before persistence
    ([redact_sensitive_value] of [crates/workbench-core/src/task.rs])

    Task inputs, outputs and error details are rewritten before they reach the
    disk.  [clean] says what a redacted value looks like; the function reaches a
    clean value and leaves clean values alone. *)

From Stdlib Require Import Ascii String.
From S2P Require Import Prelude RustStd Json.

Definition redacted : Value := VString "<redacted>".

(** [normalized.ends_with(..)] for one of the four markers. *)
Definition sensitive (text : string) : bool :=
  let normalized := Str.remove_chars ["_"%char; "-"%char] (Str.to_ascii_lowercase text) in
  existsb (fun suffix => Str.ends_with suffix normalized)
    ["token"; "secret"; "password"; "credential"].

Definition sensitive_string (v : Value) : bool :=
  match v with VString text => sensitive text | _ => false end.

Fixpoint redact_sensitive_value (value : Value) : Value :=
  match value with
  | VObject object =>
      VObject ((fix go (o : list (string * Value)) : list (string * Value) :=
        match o with
        | [] => []
        | (key, item) :: o' =>
            (key, if sensitive key then redacted else redact_sensitive_value item) :: go o'
        end) object)
  | VArray values =>
      VArray ((fix go (redact_next : bool) (vs : list Value) : list Value :=
        match vs with
        | [] => []
        | v :: vs' =>
            if redact_next then redacted :: go false vs'
            else redact_sensitive_value v :: go (sensitive_string v) vs'
        end) false values)
  | VString text => if Str.contains "token_" text then redacted else value
  | _ => value
  end.

(** The two inner loops by name. *)
Fixpoint redact_fields (o : list (string * Value)) : list (string * Value) :=
  match o with
  | [] => []
  | (key, item) :: o' =>
      (key, if sensitive key then redacted else redact_sensitive_value item) :: redact_fields o'
  end.

Fixpoint redact_items (redact_next : bool) (vs : list Value) : list Value :=
  match vs with
  | [] => []
  | v :: vs' =>
      if redact_next then redacted :: redact_items false vs'
      else redact_sensitive_value v :: redact_items (sensitive_string v) vs'
  end.

(** ** Clean values

    No string mentions a token, no sensitive field and no array element that
    follows a sensitive marker holds anything but the placeholder. *)

Fixpoint clean (value : Value) : Prop :=
  match value with
  | VObject object =>
      (fix go (o : list (string * Value)) : Prop :=
        match o with
        | [] => True
        | (key, item) :: o' => (if sensitive key then item = redacted else clean item) /\ go o'
        end) object
  | VArray values =>
      (fix go (after_marker : bool) (vs : list Value) : Prop :=
        match vs with
        | [] => True
        | v :: vs' =>
            (if after_marker then v = redacted else clean v) /\
            go (if after_marker then false else sensitive_string v) vs'
        end) false values
  | VString text => Str.contains "token_" text = false
  | _ => True
  end.

Fixpoint clean_fields (o : list (string * Value)) : Prop :=
  match o with
  | [] => True
  | (key, item) :: o' => (if sensitive key then item = redacted else clean item) /\ clean_fields o'
  end.

Fixpoint clean_items (after_marker : bool) (vs : list Value) : Prop :=
  match vs with
  | [] => True
  | v :: vs' =>
      (if after_marker then v = redacted else clean v) /\
      clean_items (if after_marker then false else sensitive_string v) vs'
  end.

Lemma redact_object o : redact_sensitive_value (VObject o) = VObject (redact_fields o).
Proof. reflexivity. Qed.
Lemma redact_array vs : redact_sensitive_value (VArray vs) = VArray (redact_items false vs).
Proof. reflexivity. Qed.
Lemma clean_object o : clean (VObject o) = clean_fields o.
Proof. reflexivity. Qed.
Lemma clean_array vs : clean (VArray vs) = clean_items false vs.
Proof. reflexivity. Qed.

Lemma sensitive_string_redact v :
  sensitive_string (redact_sensitive_value v) = true -> sensitive_string v = true.
Proof.
  destruct v as [| | |s| |]; try done. simpl. by destruct (Str.contains _ s).
Qed.

(** Having been redacted is more than being clean. *)
Lemma clean_items_weaken vs : clean_items true vs -> clean_items false vs.
Proof. destruct vs as [|v vs]; [done|]. simpl. intros [-> H]. by split. Qed.

(** Nothing secret is left.  Whatever JSON value goes in, the redacted value
    is clean: no string that mentions a token, no readable sensitive field, no
    readable command-line argument after a sensitive flag, at any depth. *)
Lemma redact_sensitive_value_clean v : clean (redact_sensitive_value v).
Proof.
  induction v as [| | |s|vs IH|o IH] using Value_rect_nested; try done.
  - simpl. destruct (Str.contains "token_" s) eqn:Hs; [reflexivity|exact Hs].
  - rewrite redact_array, clean_array.
    assert (Hgo : forall b, clean_items b (redact_items b vs)); [|apply Hgo].
    induction IH as [|v vs Hv _ IHvs]; intros b; [done|].
    destruct b; simpl; [by split|]. split; [exact Hv|].
    destruct (sensitive_string (redact_sensitive_value v)) eqn:Hs.
    + apply sensitive_string_redact in Hs. rewrite Hs. apply IHvs.
    + destruct (sensitive_string v); [|apply IHvs].
      apply clean_items_weaken, IHvs.
  - rewrite redact_object, clean_object. induction IH as [|[k v] o Hv _ IHo]; [done|].
    simpl. split; [|exact IHo]. by destruct (sensitive k).
Qed.

(** Nothing else is touched.  A value that is already clean is left exactly
    as it is; hence redacting twice is redacting once. *)
Lemma redact_sensitive_value_id v : clean v -> redact_sensitive_value v = v.
Proof.
  induction v as [| | |s|vs IH|o IH] using Value_rect_nested; try done.
  - simpl. by intros ->.
  - rewrite redact_array, clean_array. intros Hc. f_equal. revert Hc. generalize false.
    induction IH as [|v vs Hv _ IHvs]; intros b; [done|]. simpl.
    destruct b; intros [Hh Ht]; [by rewrite Hh, IHvs|]. by rewrite Hv, IHvs.
  - rewrite redact_object, clean_object. intros Hc. f_equal. revert Hc.
    induction IH as [|[k v] o Hv _ IHo]; [done|]. simpl. intros [Hk Ho].
    rewrite IHo by done. simpl in Hv. destruct (sensitive k); [by rewrite Hk|]. by rewrite Hv.
Qed.

Lemma redact_sensitive_value_twice v :
  redact_sensitive_value (redact_sensitive_value v) = redact_sensitive_value v.
Proof. apply redact_sensitive_value_id, redact_sensitive_value_clean. Qed.

Example redact_arguments :
  redact_sensitive_value (json_object
    [("driverLeaseToken", vstr "secret");
     ("argv", VArray [vstr "--notify-token"; vstr "abc"; vstr "keep"]);
     ("stdout", vstr "prefix token_embedded suffix"); ("safe", vstr "kept")]) =
  json_object
    [("driverLeaseToken", redacted);
     ("argv", VArray [vstr "--notify-token"; redacted; vstr "keep"]);
     ("stdout", redacted); ("safe", vstr "kept")].
Proof. vm_compute. reflexivity. Qed.
