(* ===== verification/Tasks.v ===== *)
(** * The task table ([crates/workbench-core/src/task.rs])

    [TaskTable] keeps every task of a controller together with an index from
    idempotency keys to tasks.  Every [now_ms()] a method takes is an argument,
    in order, and so is the UUID of a new task. *)

From Stdlib Require Import Ascii String.
From S2P Require Import Prelude RustStd Json Schema Redact.

Module TaskTable.

Inductive TaskError : Type :=
  | NotFound
  | InvalidTransition (from to : TaskState.t).

Record t := mk {
  tasks : gmap string Task.t;
  idempotency : gmap string string;
}.

(** The length of [serde_json::to_vec(task)]. *)
Class TaskEncoding := encoded_len : Task.t -> N.

(** ** Operations *)

(** ["\0"] *)
Definition nul : string := String (ascii_of_nat 0) EmptyString.

Definition scoped_idempotency_key (workspace_session_id executor_id capability key : string) : string :=
  workspace_session_id +:+ nul +:+ executor_id +:+ nul +:+ capability +:+ nul +:+ key.

Definition scope_of (task : Task.t) : string :=
  scoped_idempotency_key (Task.workspace_session_id task) (Task.executor_id task)
    (Task.capability task) (Task.idempotency_key task).

(** The assignments the methods make to a task. *)
Definition update (task : Task.t) (state : TaskState.t) (output : option Value)
    (error : option TaskFailure.t) (attempt updated_at : Z) (events : list TaskEvent.t) : Task.t :=
  {| Task.id := Task.id task; Task.correlation_id := Task.correlation_id task;
     Task.request_id := Task.request_id task;
     Task.workspace_session_id := Task.workspace_session_id task;
     Task.executor_id := Task.executor_id task; Task.capability := Task.capability task;
     Task.input := Task.input task; Task.output := output; Task.error := error;
     Task.idempotency_key := Task.idempotency_key task; Task.state := state;
     Task.attempt := attempt; Task.created_at := Task.created_at task;
     Task.updated_at := updated_at; Task.events := events |}.

Definition push_event (now : Z) (event_type : string) (details : Value)
    (events : list TaskEvent.t) : list TaskEvent.t :=
  events ++ [TaskEvent.mk (u64_add (Z.of_nat (length events)) 1) now event_type details].

Definition from_tasks (ts : list Task.t) : t :=
  foldl (fun T task =>
    mk (<[Task.id task := task]> (tasks T)) (<[scope_of task := Task.id task]> (idempotency T)))
    (mk ∅ ∅) ts.

Definition submit_traced (now1 now2 : Z) (uuid : string)
    (workspace_session_id executor_id capability : string) (input : Value)
    (idempotency_key : string) (correlation_id request_id : option string) (T : t) :
    outcome TaskError (Task.t * bool) * t :=
  let scoped_key :=
    scoped_idempotency_key workspace_session_id executor_id capability idempotency_key in
  match idempotency T !! scoped_key with
  | Some id =>
      (* [self.tasks[id]] panics when the index names a task that is gone *)
      match tasks T !! id with
      | Some task => (Ok (task, true), T)
      | None => (Panic, T)
      end
  | None =>
      let task :=
        {| Task.id := "task_" +:+ uuid; Task.correlation_id := correlation_id;
           Task.request_id := request_id; Task.workspace_session_id := workspace_session_id;
           Task.executor_id := executor_id; Task.capability := capability;
           Task.input := input; Task.output := None; Task.error := None;
           Task.idempotency_key := idempotency_key; Task.state := TaskState.Queued;
           Task.attempt := 0; Task.created_at := now1; Task.updated_at := now1;
           Task.events := push_event now2 "task.queued" VNull [] |} in
      (Ok (task, false),
       mk (<[Task.id task := task]> (tasks T)) (<[scoped_key := Task.id task]> (idempotency T)))
  end.

Definition submit (now1 now2 : Z) (uuid workspace_session_id executor_id capability : string)
    (input : Value) (idempotency_key : string) (T : t) : outcome TaskError (Task.t * bool) * t :=
  submit_traced now1 now2 uuid workspace_session_id executor_id capability input
    idempotency_key None None T.

(** The [matches!] of [transition]. *)
Definition allowed (from to : TaskState.t) : bool :=
  match from, to with
  | TaskState.Queued, TaskState.Running
  | TaskState.Queued, TaskState.Cancelled
  | TaskState.Running, TaskState.CancelRequested
  | TaskState.CancelRequested, TaskState.Cancelling
  | TaskState.Cancelling, TaskState.Cancelled
  | TaskState.Cancelling, TaskState.FailedToCancel
  | TaskState.Running, TaskState.Succeeded
  | TaskState.Running, TaskState.Failed
  | TaskState.Running, TaskState.Cancelled
  | TaskState.Running, TaskState.TimedOut
  | TaskState.Running, TaskState.OutcomeUnknown => true
  | _, _ => false
  end.

Definition transition (now1 now2 : Z) (id : string) (state : TaskState.t)
    (output : option Value) (error : option TaskFailure.t) (T : t) :
    outcome TaskError Task.t * t :=
  match tasks T !! id with
  | None => (Err NotFound, T)
  | Some task =>
      if negb (allowed (Task.state task) state)
      then (Err (InvalidTransition (Task.state task) state), T)
      else
        let attempt :=
          if decide (state = TaskState.Running) then u32_add (Task.attempt task) 1
          else Task.attempt task in
        let task' := update task state output error attempt now1
          (push_event now2 ("task." +:+ TaskState.name state) VNull (Task.events task)) in
        (Ok task', mk (<[id := task']> (tasks T)) (idempotency T))
  end.

Definition get (id : string) (T : t) : option Task.t := tasks T !! id.

Definition retryable (s : TaskState.t) : bool :=
  match s with
  | TaskState.Failed | TaskState.TimedOut | TaskState.OutcomeUnknown | TaskState.FailedToCancel => true
  | _ => false
  end.

Definition retry (now1 now2 : Z) (id : string) (T : t) : outcome TaskError Task.t * t :=
  match tasks T !! id with
  | None => (Err NotFound, T)
  | Some task =>
      if negb (retryable (Task.state task))
      then (Err (InvalidTransition (Task.state task) TaskState.Queued), T)
      else
        let task' := update task TaskState.Queued None None (Task.attempt task) now1
          (push_event now2 "task.retried" VNull (Task.events task)) in
        (Ok task', mk (<[id := task']> (tasks T)) (idempotency T))
  end.

Definition snapshot (T : t) : list Task.t := BTree.values (tasks T).

Definition redact_failure (e : TaskFailure.t) : TaskFailure.t :=
  {| TaskFailure.code := TaskFailure.code e;
     TaskFailure.message :=
       if Str.contains "token_" (TaskFailure.message e) then "<redacted>" else TaskFailure.message e;
     TaskFailure.retryable := TaskFailure.retryable e;
     TaskFailure.details := redact_sensitive_value (TaskFailure.details e) |}.

Definition redact_task (task : Task.t) : Task.t :=
  {| Task.id := Task.id task; Task.correlation_id := Task.correlation_id task;
     Task.request_id := Task.request_id task;
     Task.workspace_session_id := Task.workspace_session_id task;
     Task.executor_id := Task.executor_id task; Task.capability := Task.capability task;
     Task.input := redact_sensitive_value (Task.input task);
     Task.output := redact_sensitive_value <$> Task.output task;
     Task.error := redact_failure <$> Task.error task;
     Task.idempotency_key := Task.idempotency_key task; Task.state := Task.state task;
     Task.attempt := Task.attempt task; Task.created_at := Task.created_at task;
     Task.updated_at := Task.updated_at task; Task.events := Task.events task |}.

Definition persistence_snapshot (T : t) : list Task.t := redact_task <$> snapshot T.

(** The loop that ends both pruning methods. *)
Fixpoint remove_tasks (ids : list string) (T : t) : list Task.t * t :=
  match ids with
  | [] => ([], T)
  | id :: ids' =>
      match tasks T !! id with
      | Some task =>
          let '(removed, T') :=
            remove_tasks ids'
              (mk (delete id (tasks T)) (delete (scope_of task) (idempotency T))) in
          (task :: removed, T')
      | None => remove_tasks ids' T
      end
  end.

Definition expired_terminal (cutoff : Z) (task : Task.t) : bool :=
  TaskState.terminal (Task.state task) && (Task.updated_at task <? cutoff).

Definition prune_terminal_before (cutoff : Z) (T : t) : list Task.t * t :=
  remove_tasks (Task.id <$> bfilter (expired_terminal cutoff) (BTree.values (tasks T))) T.

(** A [BTreeSet<String>] in iteration order. *)
Definition set_elements (s : gset string) : list string := merge_sort String.le (elements s).

(** The sort key of the eviction order: update time, then id. *)
Definition eviction_le (x y : Z * string * Z) : Prop :=
  x.1.1 < y.1.1 \/ (x.1.1 = y.1.1 /\ String.le x.1.2 y.1.2).

#[global] Instance eviction_le_dec : RelDecision eviction_le.
Proof. intros x y. unfold eviction_le. apply _. Defined.

(** The eviction loop: oldest terminal tasks first, until both budgets hold. *)
Fixpoint evict (max_count max_bytes : Z) (terminal : list (Z * string * Z))
    (remove_ids : gset string) (retained_count retained_bytes : Z) : gset string :=
  match terminal with
  | [] => remove_ids
  | (_, id, bytes) :: terminal' =>
      if (retained_count <=? max_count) && (retained_bytes <=? max_bytes) then remove_ids
      else evict max_count max_bytes terminal' ({[id]} ∪ remove_ids)
             (saturating_sub retained_count 1) (saturating_sub retained_bytes bytes)
  end.

Section retention.
Context `{!TaskEncoding}.

Definition task_bytes (task : Task.t) : Z := Z.of_N (encoded_len task).

Definition sum_bytes (ts : list Task.t) : Z :=
  foldr (fun task acc => u64_add (task_bytes task) acc) 0 ts.

(** The ids [prune_retention] decides to remove. *)
Definition retention_ids (now retention_ms max_count max_bytes : Z) (T : t) : gset string :=
  let cutoff := saturating_sub now retention_ms in
  let expired : gset string :=
    list_to_set (Task.id <$> bfilter (expired_terminal cutoff) (BTree.values (tasks T))) in
  let kept := bfilter (fun task => negb (bool_decide (Task.id task ∈ expired))) (BTree.values (tasks T)) in
  let retained_count := saturating_sub (Z.of_nat (size (tasks T))) (Z.of_nat (size expired)) in
  let retained_bytes := sum_bytes kept in
  let terminal :=
    merge_sort eviction_le
      ((fun task => (Task.updated_at task, Task.id task, task_bytes task)) <$>
       bfilter (fun task => TaskState.terminal (Task.state task) &&
                            negb (bool_decide (Task.id task ∈ expired)))
         (BTree.values (tasks T))) in
  evict max_count max_bytes terminal expired retained_count retained_bytes.

Definition prune_retention (now retention_ms max_count max_bytes : Z) (T : t) : list Task.t * t :=
  remove_tasks (set_elements (retention_ids now retention_ms max_count max_bytes T)) T.
End retention.

Definition orphan (task : Task.t) : bool :=
  match Task.state task with TaskState.Queued | TaskState.Running => true | _ => false end.

Definition restart_failure : TaskFailure.t :=
  TaskFailure.mk "CONTROLLER_RESTARTED"
    "controller restarted before the task outcome was recorded" true VNull.

(** [now i] is the [i]-th reading of the clock: two per recovered task. *)
Fixpoint recover_loop (now : nat -> Z) (i : nat) (es : list (string * Task.t)) :
    list (string * Task.t) :=
  match es with
  | [] => []
  | (id, task) :: es' =>
      (id, update task TaskState.OutcomeUnknown (Task.output task) (Some restart_failure)
             (Task.attempt task) (now i)
             (push_event (now (S i)) "task.outcome-unknown" VNull (Task.events task)))
      :: recover_loop now (S (S i)) es'
  end.

Definition recover_orphans (now : nat -> Z) (T : t) : list Task.t * t :=
  let recovered := recover_loop now 0 (bfilter (fun e => orphan e.2) (BTree.entries (tasks T))) in
  (recovered.*2, mk (list_to_map recovered ∪ tasks T) (idempotency T)).

(** ** Histories *)

Inductive op : Type :=
  | Submit (now1 now2 : Z) (uuid session executor capability : string) (input : Value)
      (key : string) (correlation request : option string)
  | Transition (now1 now2 : Z) (id : string) (state : TaskState.t) (output : option Value)
      (error : option TaskFailure.t)
  | Retry (now1 now2 : Z) (id : string)
  | PruneBefore (cutoff : Z)
  | PruneRetention (now retention_ms max_count max_bytes : Z)
  | RecoverOrphans (now : nat -> Z)
  | Restart.

Section histories.
Context `{!TaskEncoding}.

Definition apply (o : op) (T : t) : t :=
  match o with
  | Submit n1 n2 u s e c i k co rq => (submit_traced n1 n2 u s e c i k co rq T).2
  | Transition n1 n2 id st out err => (transition n1 n2 id st out err T).2
  | Retry n1 n2 id => (retry n1 n2 id T).2
  | PruneBefore cutoff => (prune_terminal_before cutoff T).2
  | PruneRetention now r mc mb => (prune_retention now r mc mb T).2
  | RecoverOrphans now => (recover_orphans now T).2
  | Restart => from_tasks (persistence_snapshot T)
  end.

(** A submission draws an identifier that names no stored task. *)
Definition admissible (o : op) (T : t) : Prop :=
  match o with
  | Submit _ _ u _ _ _ _ _ _ _ => tasks T !! ("task_" +:+ u) = None
  | _ => True
  end.

Inductive reachable : t -> Prop :=
  | reachable_empty : reachable (mk ∅ ∅)
  | reachable_step o T : reachable T -> admissible o T -> reachable (apply o T).
End histories.

(** ** Well-formed tables: tasks are filed under their identifiers, and the
    idempotency index is exactly the inverse of [scope_of]. *)

Definition wf (T : t) : Prop :=
  (forall id task, tasks T !! id = Some task -> Task.id task = id) /\
  (forall k id, idempotency T !! k = Some id <->
     exists task, tasks T !! id = Some task /\ scope_of task = k).

(** ** The lifecycle of a task as its event log tells it *)

Definition all_states : list TaskState.t :=
  [TaskState.Queued; TaskState.Running; TaskState.CancelRequested; TaskState.Cancelling;
   TaskState.Succeeded; TaskState.Failed; TaskState.Cancelled; TaskState.FailedToCancel;
   TaskState.TimedOut; TaskState.OutcomeUnknown].

(** The state an event moves its task to. *)
Definition event_state (event_type : string) : option TaskState.t :=
  if decide (event_type = "task.retried") then Some TaskState.Queued
  else bfind (fun s => bool_decide ("task." +:+ TaskState.name s = event_type)) all_states.

Definition lifecycle_step (from to : TaskState.t) : bool :=
  allowed from to
  || (retryable from && bool_decide (to = TaskState.Queued))
  || (match from with TaskState.Queued | TaskState.Running => true | _ => false end
      && bool_decide (to = TaskState.OutcomeUnknown)).

(** [lifecycle hs s]: the states [hs], oldest first, are a run of the lifecycle
    automaton that starts queued and ends in [s]. *)
Inductive lifecycle : list TaskState.t -> TaskState.t -> Prop :=
  | lifecycle_start : lifecycle [TaskState.Queued] TaskState.Queued
  | lifecycle_next hs s s' :
      lifecycle hs s -> lifecycle_step s s' = true -> lifecycle (hs ++ [s']) s'.

Definition runs_in (hs : list TaskState.t) : nat :=
  length (bfilter (fun s => bool_decide (s = TaskState.Running)) hs).

Definition log_ok (task : Task.t) : Prop :=
  exists hs,
    Forall2 (fun e s => event_state (TaskEvent.event_type e) = Some s) (Task.events task) hs /\
    lifecycle hs (Task.state task) /\
    Task.attempt task = u32_wrap (Z.of_nat (runs_in hs)) /\
    forall i e, Task.events task !! i = Some e -> TaskEvent.sequence e = u64_add (Z.of_nat i) 1.

Lemma event_state_name s : event_state ("task." +:+ TaskState.name s) = Some s.
Proof. by destruct s. Qed.

Lemma u32_wrap_succ a : u32_add (u32_wrap a) 1 = u32_wrap (a + 1).
Proof. unfold u32_add, u32_wrap. by rewrite Zplus_mod_idemp_l. Qed.

Lemma runs_in_snoc hs s :
  runs_in (hs ++ [s]) = (runs_in hs + if decide (s = TaskState.Running) then 1 else 0)%nat.
Proof.
  unfold runs_in. rewrite bfilter_app, length_app. simpl.
  case_bool_decide; case_decide; done.
Qed.

(** Appending an event that follows the lifecycle keeps the log in order. *)
Lemma log_ok_push task s e output error now1 now2 attempt :
  log_ok task -> lifecycle_step (Task.state task) s = true -> event_state e = Some s ->
  attempt = (if decide (s = TaskState.Running) then u32_add (Task.attempt task) 1
             else Task.attempt task) ->
  log_ok (update task s output error attempt now1 (push_event now2 e VNull (Task.events task))).
Proof.
  intros (hs & Hev & Hl & Ha & Hseq) Hstep He ->. exists (hs ++ [s]). simpl.
  split; [|split; [|split]].
  - apply Forall2_app; [done|]. by repeat constructor.
  - by eapply lifecycle_next.
  - rewrite runs_in_snoc, Ha. case_decide.
    + rewrite u32_wrap_succ. f_equal. lia.
    + f_equal. lia.
  - intros i ev Hi. apply lookup_app_Some in Hi as [Hi|[Hlen Hi]]; [by apply Hseq|].
    apply list_lookup_singleton_Some in Hi as [Hi <-]. simpl. f_equal. lia.
Qed.

Lemma log_ok_new task now :
  Task.state task = TaskState.Queued -> Task.attempt task = 0 ->
  Task.events task = push_event now "task.queued" VNull [] -> log_ok task.
Proof.
  intros Hs Ha He. exists [TaskState.Queued]. rewrite Hs, Ha, He.
  split; [by repeat constructor|]. split; [constructor|]. split; [done|].
  intros [|i] e; [|done]. by intros [= <-].
Qed.

Lemma log_ok_redact task : log_ok task -> log_ok (redact_task task).
Proof. done. Qed.

(** [recover_loop] touches the tasks it is given one by one. *)
Lemma recover_loop_keys now i es : (recover_loop now i es).*1 = es.*1.
Proof.
  revert i. induction es as [|[id task] es IH]; intros i; [done|].
  simpl. f_equal. apply IH.
Qed.

Lemma recover_loop_elem now i es id task' :
  (id, task') ∈ recover_loop now i es ->
  exists task n1 n2, (id, task) ∈ es /\
    task' = update task TaskState.OutcomeUnknown (Task.output task) (Some restart_failure)
      (Task.attempt task) n1 (push_event n2 "task.outcome-unknown" VNull (Task.events task)).
Proof.
  revert i. induction es as [|[id0 task0] es IH]; intros i; simpl.
  { by intros ?%not_elem_of_nil. }
  intros [[= -> ->]|Hin]%elem_of_cons.
  - do 3 eexists. split; [by left|done].
  - destruct (IH _ Hin) as (task & n1 & n2 & ? & ->). do 3 eexists. split; [by right|done].
Qed.

Definition recovered (task task' : Task.t) : Prop :=
  exists n1 n2, task' =
    update task TaskState.OutcomeUnknown (Task.output task) (Some restart_failure)
      (Task.attempt task) n1 (push_event n2 "task.outcome-unknown" VNull (Task.events task)).

Lemma recover_lookup now T id :
  match tasks T !! id with
  | None => tasks (recover_orphans now T).2 !! id = None
  | Some task =>
      if orphan task
      then exists task', tasks (recover_orphans now T).2 !! id = Some task' /\ recovered task task'
      else tasks (recover_orphans now T).2 !! id = Some task
  end.
Proof.
  unfold recover_orphans. simpl. set (es := bfilter _ _). rewrite lookup_union.
  assert (Hnd : NoDup (recover_loop now 0 es).*1).
  { rewrite recover_loop_keys. unfold es. eapply sublist_NoDup; [apply (BTree.NoDup_keys (tasks T))|].
    unfold BTree.keys. apply fmap_sublist, bfilter_sublist. }
  assert (Hdom : forall task',
    list_to_map (M := gmap string Task.t) (recover_loop now 0 es) !! id = Some task' ->
    exists task, tasks T !! id = Some task /\ orphan task = true /\ recovered task task').
  { intros task' Hin%elem_of_list_to_map_2. apply recover_loop_elem in Hin as (task & n1 & n2 & Hin & Heq).
    unfold es in Hin. apply elem_of_bfilter in Hin as [Ho Hin%BTree.elem_of_entries].
    exists task. split; [done|]. split; [done|]. by exists n1, n2. }
  destruct (list_to_map _ !! id) as [task'|] eqn:Hm.
  - destruct (Hdom _ eq_refl) as (task & -> & -> & Hrec). exists task'. split; [|done].
    by destruct (tasks T !! id).
  - destruct (tasks T !! id) as [task|] eqn:Hid; [|done].
    destruct (orphan task) eqn:Ho; [|done]. exfalso.
    apply not_elem_of_list_to_map in Hm. apply Hm. rewrite recover_loop_keys.
    apply list_elem_of_fmap. exists (id, task). split; [done|].
    apply elem_of_bfilter. split; [done|]. by apply BTree.elem_of_entries.
Qed.

Lemma recover_reported now T id task task' :
  tasks T !! id = Some task -> orphan task = true ->
  tasks (recover_orphans now T).2 !! id = Some task' -> task' ∈ (recover_orphans now T).1.
Proof.
  intros Hid Ho. unfold recover_orphans. simpl. set (es := bfilter _ _).
  assert (Hin : id ∈ (recover_loop now 0 es).*1).
  { rewrite recover_loop_keys. apply list_elem_of_fmap. exists (id, task). split; [done|].
    apply elem_of_bfilter. split; [done|]. by apply BTree.elem_of_entries. }
  rewrite lookup_union. destruct (list_to_map _ !! id) as [t0|] eqn:Hm.
  - rewrite Hid. intros [= <-].
    apply elem_of_list_to_map_2 in Hm. apply list_elem_of_fmap. by exists (id, t0).
  - by apply not_elem_of_list_to_map in Hm.
Qed.

(** ** Removal *)

Lemma wf_scope_inj T id1 id2 t1 t2 :
  wf T -> tasks T !! id1 = Some t1 -> tasks T !! id2 = Some t2 -> scope_of t1 = scope_of t2 ->
  id1 = id2.
Proof.
  intros [_ Hidx] H1 H2 Hs.
  assert (idempotency T !! scope_of t1 = Some id1) by (apply Hidx; eauto).
  assert (idempotency T !! scope_of t1 = Some id2) by (apply Hidx; eauto). congruence.
Qed.

Lemma wf_delete T id task :
  wf T -> tasks T !! id = Some task ->
  wf (mk (delete id (tasks T)) (delete (scope_of task) (idempotency T))).
Proof.
  intros Hwf Hid. pose proof Hwf as [Hk Hidx]. split; simpl.
  - intros id' task' [_ H']%lookup_delete_Some. eauto.
  - intros k id'. rewrite lookup_delete_Some, Hidx. split.
    + intros (Hne & task' & H' & <-). exists task'. split; [|done].
      rewrite lookup_delete_ne; [done|]. intros <-. congruence.
    + intros (task' & [Hne H']%lookup_delete_Some & <-). split; [|eauto].
      intros Hs. apply Hne. by eapply wf_scope_inj.
Qed.

Lemma remove_tasks_wf ids T : wf T -> wf (remove_tasks ids T).2.
Proof.
  revert T. induction ids as [|id ids IH]; intros T Hwf; simpl; [done|].
  destruct (tasks T !! id) as [task|] eqn:Hid; [|by apply IH].
  specialize (IH _ (wf_delete T id task Hwf Hid)). by destruct (remove_tasks ids _).
Qed.

Lemma remove_tasks_lookup ids T id :
  tasks (remove_tasks ids T).2 !! id = if decide (id ∈ ids) then None else tasks T !! id.
Proof.
  revert T. induction ids as [|id0 ids IH]; intros T.
  { cbn [remove_tasks snd]. case_decide as Hnil; [by apply not_elem_of_nil in Hnil|done]. }
  cbn [remove_tasks]. destruct (tasks T !! id0) as [task|] eqn:Hid.
  - specialize (IH (mk (delete id0 (tasks T)) (delete (scope_of task) (idempotency T)))).
    destruct (remove_tasks ids _) as [rm T']. cbn [snd tasks] in *. rewrite IH.
    destruct (decide (id = id0)) as [->|Hne].
    + rewrite lookup_delete_eq, (decide_True (P := id0 ∈ id0 :: ids)) by left. by case_decide.
    + rewrite lookup_delete_ne by done. apply decide_ext. rewrite elem_of_cons. tauto.
  - rewrite IH. destruct (decide (id = id0)) as [->|Hne].
    + rewrite (decide_True (P := id0 ∈ id0 :: ids)) by left. by case_decide.
    + apply decide_ext. rewrite elem_of_cons. tauto.
Qed.

Lemma remove_tasks_removed ids T :
  NoDup ids -> (remove_tasks ids T).1 = omap (fun id => tasks T !! id) ids.
Proof.
  revert T. induction ids as [|id ids IH]; intros T Hnd; [done|].
  apply NoDup_cons in Hnd as [Hnin Hnd]. cbn [remove_tasks omap list_omap].
  destruct (tasks T !! id) as [task|] eqn:Hid; [|by apply IH].
  specialize (IH (mk (delete id (tasks T)) (delete (scope_of task) (idempotency T))) Hnd).
  destruct (remove_tasks ids _) as [rm T']. cbn [fst tasks] in *. rewrite IH. f_equal.
  apply list_omap_ext. apply Forall2_same_length_lookup. split; [done|].
  intros i x y Hx Hy. rewrite Hx in Hy. injection Hy as <-.
  apply lookup_delete_ne. intros ->. apply Hnin. by eapply list_elem_of_lookup_2.
Qed.

Lemma elem_of_set_elements (s : gset string) id : id ∈ set_elements s <-> id ∈ s.
Proof. unfold set_elements. by rewrite merge_sort_Permutation, elem_of_elements. Qed.

Lemma NoDup_set_elements (s : gset string) : NoDup (set_elements s).
Proof. unfold set_elements. rewrite merge_sort_Permutation. apply NoDup_elements. Qed.

(** ** Rebuilding a table from a list of tasks *)

Lemma from_tasks_tasks (ts : list Task.t) T :
  tasks (foldl (fun T task =>
    mk (<[Task.id task := task]> (tasks T)) (<[scope_of task := Task.id task]> (idempotency T))) T ts) =
  foldl (fun m task => <[Task.id task := task]> m) (tasks T) ts.
Proof. revert T. induction ts as [|task ts IH]; intros T; [done|]. simpl. by rewrite IH. Qed.

Lemma from_tasks_idempotency (ts : list Task.t) T :
  idempotency (foldl (fun T task =>
    mk (<[Task.id task := task]> (tasks T)) (<[scope_of task := Task.id task]> (idempotency T))) T ts) =
  foldl (fun m task => <[scope_of task := Task.id task]> m) (idempotency T) ts.
Proof. revert T. induction ts as [|task ts IH]; intros T; [done|]. simpl. by rewrite IH. Qed.

Lemma elem_of_snapshot T task :
  wf T -> task ∈ snapshot T <-> tasks T !! Task.id task = Some task.
Proof.
  intros [Hk _]. unfold snapshot. rewrite BTree.elem_of_values. split; [|by eauto].
  intros [id Hid]. by rewrite (Hk _ _ Hid).
Qed.

Lemma NoDup_snapshot_ids T : wf T -> NoDup (Task.id <$> snapshot T).
Proof.
  intros [Hk _]. unfold snapshot. rewrite (BTree.keys_values Task.id); [|by eauto].
  apply BTree.NoDup_keys.
Qed.

Lemma NoDup_snapshot_scopes T : wf T -> NoDup (scope_of <$> snapshot T).
Proof.
  intros Hwf. pose proof (NoDup_snapshot_ids T Hwf) as Hnd.
  assert (Hin : forall task, task ∈ snapshot T -> tasks T !! Task.id task = Some task)
    by (intros; by apply elem_of_snapshot).
  induction (snapshot T) as [|task l IH]; [constructor|].
  apply NoDup_cons in Hnd as [Hnin Hnd]. apply NoDup_cons. split.
  - intros (task' & Hs & Hin')%list_elem_of_fmap. apply Hnin.
    rewrite (wf_scope_inj T (Task.id task) (Task.id task') task task'); auto.
    + by apply list_elem_of_fmap_2.
    + apply Hin. by left.
    + apply Hin. by right.
  - apply IH; [done|]. intros task' ?. apply Hin. by right.
Qed.

Lemma restart_lookup T id :
  wf T -> tasks (from_tasks (persistence_snapshot T)) !! id = redact_task <$> tasks T !! id.
Proof.
  intros Hwf. unfold from_tasks. rewrite from_tasks_tasks.
  assert (Hnd : NoDup (Task.id <$> persistence_snapshot T)).
  { unfold persistence_snapshot. rewrite <- list_fmap_compose. by apply NoDup_snapshot_ids. }
  rewrite (foldl_insert_lookup Task.id (fun x => x)) by done. simpl.
  destruct (tasks T !! id) as [task|] eqn:Hid; simpl.
  - pose proof Hwf as [Hk _]. rewrite <- (Hk _ _ Hid).
    pose proof (bfind_key Task.id (persistence_snapshot T) (redact_task task) Hnd) as Hb.
    cbn [Task.id redact_task] in Hb. rewrite Hb; [done|].
    apply list_elem_of_fmap_2, elem_of_snapshot; [done|]. by rewrite (Hk _ _ Hid).
  - destruct (bfind _ _) as [task'|] eqn:Hf; [|done]. exfalso.
    apply bfind_Some in Hf as [Hid'%bool_decide_eq_true (task & -> & Hin)%list_elem_of_fmap].
    apply elem_of_snapshot in Hin; [|done]. simpl in Hid'. congruence.
Qed.

Lemma restart_idempotency T k :
  wf T -> idempotency (from_tasks (persistence_snapshot T)) !! k = idempotency T !! k.
Proof.
  intros Hwf. unfold from_tasks. rewrite from_tasks_idempotency.
  assert (Hnd : NoDup (scope_of <$> persistence_snapshot T)).
  { unfold persistence_snapshot. rewrite <- list_fmap_compose. by apply NoDup_snapshot_scopes. }
  rewrite (foldl_insert_lookup scope_of Task.id) by done. simpl.
  pose proof Hwf as [Hk Hidx]. destruct (idempotency T !! k) as [id|] eqn:Hi.
  - apply Hidx in Hi as (task & Hid & <-).
    pose proof (bfind_key scope_of (persistence_snapshot T) (redact_task task) Hnd) as Hb.
    change (scope_of (redact_task task)) with (scope_of task) in Hb. rewrite Hb.
    + simpl. by rewrite (Hk _ _ Hid).
    + apply list_elem_of_fmap_2, elem_of_snapshot; [done|]. by rewrite (Hk _ _ Hid).
  - destruct (bfind _ _) as [task'|] eqn:Hf; [|done]. exfalso.
    apply bfind_Some in Hf as [Hs%bool_decide_eq_true (task & -> & Hin)%list_elem_of_fmap].
    apply elem_of_snapshot in Hin; [|done].
    assert (idempotency T !! k = Some (Task.id task)) by (apply Hidx; eauto). congruence.
Qed.

(** ** The invariant of every history *)

(** Replacing a task by one with the same identifier and scope. *)
Lemma wf_replace T id task task' :
  wf T -> tasks T !! id = Some task -> Task.id task' = Task.id task ->
  scope_of task' = scope_of task ->
  wf (mk (<[id := task']> (tasks T)) (idempotency T)).
Proof.
  intros [Hk Hidx] Hid Hi Hs. split; simpl.
  - intros id0 t0 [[<- <-]|[_ H0]]%lookup_insert_Some; [|by eauto]. rewrite Hi. eauto.
  - intros k id0. rewrite Hidx. split; intros (t0 & H0 & <-).
    + destruct (decide (id = id0)) as [<-|Hne].
      * exists task'. rewrite lookup_insert_eq. split; [done|]. congruence.
      * exists t0. by rewrite lookup_insert_ne.
    + apply lookup_insert_Some in H0 as [[<- <-]|[_ H0]]; [|by eauto]. exists task. eauto.
Qed.

Definition inv (T : t) : Prop :=
  wf T /\ forall id task, tasks T !! id = Some task -> log_ok task.

Lemma inv_replace T id task task' :
  inv T -> tasks T !! id = Some task -> Task.id task' = Task.id task ->
  scope_of task' = scope_of task -> log_ok task' ->
  inv (mk (<[id := task']> (tasks T)) (idempotency T)).
Proof.
  intros [Hwf Hlog] Hid Hi Hs Hl. split; [by eapply wf_replace|]. simpl.
  intros id0 t0 [[<- <-]|[_ H0]]%lookup_insert_Some; eauto.
Qed.

Lemma inv_remove ids T : inv T -> inv (remove_tasks ids T).2.
Proof.
  intros [Hwf Hlog]. split; [by apply remove_tasks_wf|].
  intros id task. rewrite remove_tasks_lookup. case_decide; [done|]. apply Hlog.
Qed.

Lemma inv_submit n1 n2 u s e c i k co rq T :
  inv T -> tasks T !! ("task_" +:+ u) = None -> inv (submit_traced n1 n2 u s e c i k co rq T).2.
Proof.
  intros [Hwf Hlog] Hfresh. pose proof Hwf as [Hk Hidx]. unfold submit_traced.
  destruct (idempotency T !! _) as [id|] eqn:Hi; [by destruct (tasks T !! id)|].
  set (task := Task.mk _ _ _ _ _ _ _ _ _ _ _ _ _ _ _). split; [split|]; simpl.
  - intros id0 t0 [[<- <-]|[_ H0]]%lookup_insert_Some; eauto.
  - intros k0 id0. rewrite lookup_insert_Some, Hidx. split.
    + intros [[<- <-]|[Hne (t0 & H0 & <-)]].
      * exists task. by rewrite lookup_insert_eq.
      * exists t0. rewrite lookup_insert_ne; [done|]. congruence.
    + intros (t0 & [[<- <-]|[Hne H0]]%lookup_insert_Some & <-); [by left|].
      right. split; [|by eauto]. intros Heq.
      assert (idempotency T !! scope_of t0 = Some id0) by (apply Hidx; eauto).
      rewrite <- Heq in *. congruence.
  - intros id0 t0 [[<- <-]|[_ H0]]%lookup_insert_Some; [|by eauto].
    by eapply log_ok_new.
Qed.

Lemma inv_recover now T : inv T -> inv (recover_orphans now T).2.
Proof.
  intros [Hwf Hlog]. pose proof Hwf as [Hk Hidx].
  assert (Hback : forall id task', tasks (recover_orphans now T).2 !! id = Some task' ->
    exists task, tasks T !! id = Some task /\ Task.id task' = Task.id task /\
      scope_of task' = scope_of task /\ (log_ok task -> log_ok task')).
  { intros id task' H'. pose proof (recover_lookup now T id) as Hl.
    destruct (tasks T !! id) as [task|]; [|congruence]. exists task. split; [done|].
    destruct (orphan task) eqn:Ho; [|rewrite Hl in H'; injection H' as <-; done].
    destruct Hl as (t' & Hl & n1 & n2 & ->). rewrite Hl in H'. injection H' as <-.
    split; [done|]. split; [done|]. intros Hlo. apply (log_ok_push task TaskState.OutcomeUnknown); try done.
    unfold orphan in Ho. by destruct (Task.state task). }
  split; [split|].
  - intros id task' H'. destruct (Hback _ _ H') as (task & Hid & -> & _). eauto.
  - intros k id. change (idempotency (recover_orphans now T).2) with (idempotency T).
    rewrite Hidx. split.
    + intros (task & Hid & <-). pose proof (recover_lookup now T id) as Hl. rewrite Hid in Hl.
      destruct (orphan task); [|eauto]. destruct Hl as (t' & Hl & n1 & n2 & ->). eauto.
    + intros (task' & H' & <-). destruct (Hback _ _ H') as (task & Hid & _ & Hs & _). eauto.
  - intros id task' H'. destruct (Hback _ _ H') as (task & Hid & _ & _ & Hl). eauto.
Qed.

Lemma inv_restart T : inv T -> inv (from_tasks (persistence_snapshot T)).
Proof.
  intros [Hwf Hlog]. pose proof Hwf as [Hk Hidx]. split; [split|].
  - intros id task'. rewrite restart_lookup by done. intros (task & Hid & ->)%fmap_Some.
    simpl. eauto.
  - intros k id. rewrite restart_idempotency, Hidx by done. split.
    + intros (task & Hid & <-). exists (redact_task task). by rewrite restart_lookup, Hid.
    + intros (task' & H' & <-). rewrite restart_lookup in H' by done.
      apply fmap_Some in H' as (task & Hid & ->). eauto.
  - intros id task'. rewrite restart_lookup by done. intros (task & Hid & ->)%fmap_Some.
    apply log_ok_redact. eauto.
Qed.

Lemma inv_transition n1 n2 id st out err T : inv T -> inv (transition n1 n2 id st out err T).2.
Proof.
  intros Hinv. unfold transition. destruct (tasks T !! id) as [task|] eqn:Hid; [|done].
  destruct (allowed _ _) eqn:Ha; [|done]. simpl. eapply inv_replace; try done.
  apply (log_ok_push task st).
  - destruct Hinv as [_ Hlog]. eauto.
  - unfold lifecycle_step. by rewrite Ha.
  - apply event_state_name.
  - done.
Qed.

Lemma inv_retry n1 n2 id T : inv T -> inv (retry n1 n2 id T).2.
Proof.
  intros Hinv. unfold retry. destruct (tasks T !! id) as [task|] eqn:Hid; [|done].
  destruct (retryable _) eqn:Hr; [|done]. simpl. eapply inv_replace; try done.
  apply (log_ok_push task TaskState.Queued); try done.
  - destruct Hinv as [_ Hlog]. eauto.
  - unfold lifecycle_step. rewrite Hr. by rewrite orb_true_r.
Qed.

Lemma inv_apply `{!TaskEncoding} o T : inv T -> admissible o T -> inv (apply o T).
Proof.
  intros Hinv Hadm. destruct o; simpl in *.
  - by apply inv_submit.
  - by apply inv_transition.
  - by apply inv_retry.
  - by apply inv_remove.
  - by apply inv_remove.
  - by apply inv_recover.
  - by apply inv_restart.
Qed.

Lemma inv_empty : inv (mk ∅ ∅).
Proof. split; [split|]; [done| |done]. intros k id. split; [done|]. by intros (task & ? & _). Qed.

Lemma inv_reachable `{!TaskEncoding} T : reachable T -> inv T.
Proof.
  induction 1 as [|o T _ IH Hadm]; [apply inv_empty|by apply inv_apply].
Qed.

(** ** Retention *)

Section retention_lemmas.
Context `{!TaskEncoding}.

Definition triple (task : Task.t) : Z * string * Z :=
  (Task.updated_at task, Task.id task, task_bytes task).

Lemma sum_bytes_zsum ts : zsum task_bytes ts <= u64_max -> sum_bytes ts = zsum task_bytes ts.
Proof.
  unfold sum_bytes, zsum. induction ts as [|task ts IH]; simpl; [done|]. intros Hle.
  assert (0 <= task_bytes task) by (unfold task_bytes; lia).
  assert (0 <= foldr (fun x acc => task_bytes x + acc) 0 ts)
    by (apply (zsum_nonneg task_bytes); unfold task_bytes; lia).
  rewrite IH by lia. apply u64_add_small; lia.
Qed.

(** [evict] removes a prefix of the eviction order: it goes on exactly while a
    budget is exceeded. *)
Lemma evict_prefix mc mb L E c b :
  Z.of_nat (length L) <= c -> zsum (fun x => x.2) L <= b -> (forall x, x ∈ L -> 0 <= x.2) ->
  exists P R, L = P ++ R /\
    (forall id, id ∈ evict mc mb L E c b <-> id ∈ (fun x => x.1.2) <$> P \/ id ∈ E) /\
    (R = [] \/ (c - Z.of_nat (length P) <= mc /\ b - zsum (fun x => x.2) P <= mb)) /\
    (P = [] \/ ~ (c <= mc /\ b <= mb)).
Proof.
  revert E c b. induction L as [|[[u id] n] L IH]; intros E c b Hc Hb Hpos.
  { exists [], []. split_and!; [done| |by left|by left].
    intros id. cbn [evict fmap list_fmap]. rewrite elem_of_nil. tauto. }
  cbn [evict]. destruct ((c <=? mc) && (b <=? mb)) eqn:Hw.
  - apply andb_true_iff in Hw as [H1%Z.leb_le H2%Z.leb_le].
    exists [], ((u, id, n) :: L). cbn [app length zsum foldr].
    split_and!; [done| |right; lia|by left].
    intros id'. cbn [fmap list_fmap]. rewrite elem_of_nil. tauto.
  - assert (Hn : 0 <= n) by (apply (Hpos (u, id, n)); by left).
    unfold zsum in Hb; cbn [length foldr snd] in Hc, Hb.
    assert (Hpos' : forall x, x ∈ L -> 0 <= x.2) by (intros x Hx; apply Hpos; by right).
    pose proof (zsum_nonneg_in (fun x => x.2) L Hpos') as Ht.
    unfold zsum in Ht.
    assert (saturating_sub c 1 = c - 1) as Hc1 by (unfold saturating_sub; lia).
    assert (saturating_sub b n = b - n) as Hb1 by (unfold saturating_sub; lia).
    rewrite Hc1, Hb1.
    destruct (IH ({[id]} ∪ E) (c - 1) (b - n)) as (P & R & -> & Hin & Hbud & _);
      [lia|unfold zsum; lia|done|].
    exists ((u, id, n) :: P), R. split_and!; [done| | |].
    + intros id'. rewrite Hin, elem_of_union, elem_of_singleton, fmap_cons, elem_of_cons.
      simpl. tauto.
    + destruct Hbud as [->|[H1 H2]]; [by left|right]. unfold zsum in *. cbn [length foldr snd] in *. lia.
    + right. intros [H1%Z.leb_le H2%Z.leb_le]. by rewrite H1, H2 in Hw.
Qed.

Lemma snapshot_remove ids T :
  wf T ->
  snapshot (remove_tasks ids T).2 ≡ₚ
  bfilter (fun task => negb (bool_decide (Task.id task ∈ ids))) (snapshot T).
Proof.
  intros Hwf. pose proof (remove_tasks_wf ids T Hwf) as Hwf'. apply NoDup_Permutation.
  - eapply NoDup_fmap_1, NoDup_snapshot_ids; done.
  - apply NoDup_bfilter. eapply NoDup_fmap_1, NoDup_snapshot_ids; done.
  - intros task. rewrite elem_of_bfilter, !elem_of_snapshot, remove_tasks_lookup by done.
    rewrite negb_true_iff, bool_decide_eq_false. case_decide; split; [done|tauto|tauto|tauto].
Qed.

#[local] Instance eviction_le_trans : Transitive eviction_le.
Proof.
  intros x y z [H1|[H1 H1']] [H2|[H2 H2']]; unfold eviction_le; [left; lia|left; lia|left; lia|].
  right. split; [lia|]. by etrans.
Qed.
#[local] Instance eviction_le_total : Total eviction_le.
Proof.
  intros x y. unfold eviction_le. destruct (Z.lt_trichotomy x.1.1 y.1.1) as [?|[?|?]]; auto.
  destruct (total String.le x.1.2 y.1.2); auto.
Qed.

Definition unexpired (cutoff : Z) (task : Task.t) : bool := negb (expired_terminal cutoff task).
Definition is_terminal (task : Task.t) : bool := TaskState.terminal (Task.state task).
Definition expired_ids (cutoff : Z) (T : t) : gset string :=
  list_to_set (Task.id <$> bfilter (expired_terminal cutoff) (snapshot T)).

Lemma snapshot_id_inj T t1 t2 :
  wf T -> t1 ∈ snapshot T -> t2 ∈ snapshot T -> Task.id t1 = Task.id t2 -> t1 = t2.
Proof.
  intros Hwf H1%elem_of_snapshot H2%elem_of_snapshot He; try done.
  rewrite He, H2 in H1. by injection H1.
Qed.

Lemma elem_of_expired_ids cutoff T task :
  wf T -> task ∈ snapshot T ->
  Task.id task ∈ expired_ids cutoff T <-> expired_terminal cutoff task = true.
Proof.
  intros Hwf Hin. unfold expired_ids. rewrite elem_of_list_to_set, list_elem_of_fmap. split.
  - intros (t' & Hid & [He Hin']%elem_of_bfilter). by rewrite (snapshot_id_inj T task t').
  - intros He. exists task. split; [done|]. by apply elem_of_bfilter.
Qed.

Lemma not_expired_unexpired cutoff T task :
  wf T -> task ∈ snapshot T ->
  negb (bool_decide (Task.id task ∈ expired_ids cutoff T)) = unexpired cutoff task.
Proof.
  intros Hwf Hin. unfold unexpired. f_equal. destruct (expired_terminal cutoff task) eqn:He.
  - by apply bool_decide_eq_true, elem_of_expired_ids.
  - apply bool_decide_eq_false. rewrite elem_of_expired_ids by done. congruence.
Qed.

Lemma task_bytes_nonneg task : 0 <= task_bytes task.
Proof. unfold task_bytes. lia. Qed.

Lemma unexpired_count cutoff T :
  wf T ->
  saturating_sub (Z.of_nat (size (tasks T))) (Z.of_nat (size (expired_ids cutoff T))) =
  Z.of_nat (length (bfilter (unexpired cutoff) (snapshot T))).
Proof.
  intros Hwf. unfold expired_ids. rewrite size_list_to_set.
  2:{ eapply sublist_NoDup; [by apply NoDup_snapshot_ids|]. apply fmap_sublist, bfilter_sublist. }
  rewrite length_fmap, <- BTree.length_values. change (BTree.values (tasks T)) with (snapshot T).
  rewrite (Permutation_length (bfilter_split (expired_terminal cutoff) (snapshot T))), length_app.
  unfold saturating_sub, unexpired. lia.
Qed.

Lemma zsum_bfilter_le (f : Task.t -> Z) p l :
  (forall x, 0 <= f x) -> 0 <= zsum f (bfilter p l) <= zsum f l.
Proof.
  intros Hf. rewrite (zsum_perm f _ _ (bfilter_split p l)), zsum_app.
  pose proof (zsum_nonneg f (bfilter p l) Hf).
  pose proof (zsum_nonneg f (bfilter (fun x => negb (p x)) l) Hf). lia.
Qed.

(** The tasks the eviction loop goes through, in its order. *)
Definition candidates (cutoff : Z) (T : t) : list Task.t :=
  bfilter is_terminal (bfilter (unexpired cutoff) (snapshot T)).

Lemma retention_ids_eq now ret mc mb T :
  wf T ->
  let cutoff := saturating_sub now ret in
  let kept := bfilter (unexpired cutoff) (snapshot T) in
  zsum task_bytes kept <= u64_max ->
  retention_ids now ret mc mb T =
  evict mc mb (merge_sort eviction_le (triple <$> candidates cutoff T)) (expired_ids cutoff T)
    (Z.of_nat (length kept)) (zsum task_bytes kept).
Proof.
  intros Hwf cutoff kept Hov. unfold retention_ids. fold cutoff.
  change (BTree.values (tasks T)) with (snapshot T). fold (expired_ids cutoff T).
  rewrite (bfilter_ext (fun task => negb (bool_decide (Task.id task ∈ expired_ids cutoff T)))
    (unexpired cutoff)) by (intros; by apply not_expired_unexpired).
  rewrite unexpired_count by done. fold kept. rewrite sum_bytes_zsum by done.
  rewrite (bfilter_ext
    (fun task => TaskState.terminal _ && negb (bool_decide (Task.id task ∈ expired_ids cutoff T)))
    (fun task => is_terminal task && unexpired cutoff task)).
  2:{ intros task Hin. rewrite not_expired_unexpired by done. done. }
  by rewrite <- bfilter_bfilter.
Qed.

Lemma candidates_budget cutoff T :
  let kept := bfilter (unexpired cutoff) (snapshot T) in
  Z.of_nat (length (candidates cutoff T)) <= Z.of_nat (length kept) /\
  zsum task_bytes (candidates cutoff T) <= zsum task_bytes kept.
Proof.
  intros kept. unfold candidates. split.
  - apply inj_le, sublist_length, bfilter_sublist.
  - apply zsum_bfilter_le, task_bytes_nonneg.
Qed.

(** What [prune_retention] decides, in terms of the tasks themselves: the
    terminal tasks that have not expired, in eviction order, are cut into the
    evicted prefix [tsP] and the retained rest [tsR]. *)
Lemma retention_split now ret mc mb T :
  wf T ->
  let cutoff := saturating_sub now ret in
  let kept := bfilter (unexpired cutoff) (snapshot T) in
  zsum task_bytes kept <= u64_max ->
  exists tsP tsR,
    candidates cutoff T ≡ₚ tsP ++ tsR /\
    StronglySorted eviction_le (triple <$> (tsP ++ tsR)) /\
    (forall task, task ∈ snapshot T ->
       Task.id task ∈ retention_ids now ret mc mb T <->
       task ∈ tsP \/ expired_terminal cutoff task = true) /\
    (tsR = [] \/ (Z.of_nat (length kept) - Z.of_nat (length tsP) <= mc /\
                  zsum task_bytes kept - zsum task_bytes tsP <= mb)) /\
    (tsP = [] \/ ~ (Z.of_nat (length kept) <= mc /\ zsum task_bytes kept <= mb)).
Proof.
  intros Hwf cutoff kept Hov. rewrite (retention_ids_eq now ret mc mb T Hwf Hov). fold cutoff kept.
  pose proof (merge_sort_Permutation eviction_le (triple <$> candidates cutoff T)) as HL.
  set (L := merge_sort _ _) in *.
  destruct (Permutation_map_inv triple (candidates cutoff T) HL) as (ts & HLts & Hts).
  destruct (candidates_budget cutoff T) as [Hcl Hcb]. fold kept in Hcl, Hcb.
  destruct (evict_prefix mc mb L (expired_ids cutoff T) (Z.of_nat (length kept))
    (zsum task_bytes kept)) as (P & R & HPR & Hin & Hbud & Hmin).
  { by rewrite (Permutation_length HL), length_fmap. }
  { by rewrite (zsum_perm _ _ _ HL), zsum_fmap. }
  { intros x Hx. rewrite HL in Hx. apply list_elem_of_fmap in Hx as (t & -> & _).
    apply task_bytes_nonneg. }
  rewrite HPR in HLts. symmetry in HLts. apply fmap_app_inv in HLts as (tsP & tsR & HP & HR & Happ).
  subst P R ts. exists tsP, tsR. split; [exact Hts|]. split; [|split; [|split]].
  - rewrite fmap_app, <- HPR. apply (StronglySorted_merge_sort eviction_le).
  - intros task Htask. rewrite Hin, elem_of_expired_ids by done.
    enough (Task.id task ∈ (fun x => x.1.2) <$> (triple <$> tsP) <-> task ∈ tsP) by tauto.
    rewrite <- list_fmap_compose, list_elem_of_fmap. split; [|intros Ht; by exists task].
    intros (t & Hid & Ht). rewrite (snapshot_id_inj T task t); try done.
    assert (t ∈ candidates cutoff T) as Htk by (rewrite Hts; apply elem_of_app; by left).
    by apply elem_of_bfilter in Htk as [_ [_ ?]%elem_of_bfilter].
  - destruct Hbud as [Hnil|[H1 H2]]; [left; by destruct tsR|right].
    rewrite length_fmap in H1. rewrite zsum_fmap in H2. done.
  - destruct Hmin as [Hnil|Hmin]; [left; by destruct tsP|by right].
Qed.

(** The removal loop hands back what it removes, and the two parts make up the
    table. *)
Lemma remove_tasks_partition ids T :
  wf T -> NoDup ids ->
  snapshot T ≡ₚ (remove_tasks ids T).1 ++ snapshot (remove_tasks ids T).2 /\
  forall task, task ∈ (remove_tasks ids T).1 <-> task ∈ snapshot T /\ Task.id task ∈ ids.
Proof.
  intros Hwf Hnd. pose proof Hwf as [Hk _].
  assert (Hin : forall task, task ∈ (remove_tasks ids T).1 <-> task ∈ snapshot T /\ Task.id task ∈ ids).
  { intros task. rewrite remove_tasks_removed by done. rewrite list_elem_of_omap.
    rewrite elem_of_snapshot by done. split.
    - intros (id & Hid & Ht). by rewrite (Hk _ _ Ht).
    - intros [Ht Hid]. eauto. }
  split; [|exact Hin].
  rewrite snapshot_remove by done.
  rewrite (bfilter_split (fun task => bool_decide (Task.id task ∈ ids)) (snapshot T)) at 1.
  apply Permutation_app_tail. apply NoDup_Permutation.
  - apply NoDup_bfilter. eapply NoDup_fmap_1, NoDup_snapshot_ids; done.
  - rewrite remove_tasks_removed by done. by apply (NoDup_omap_key _ Task.id).
  - intros task. rewrite elem_of_bfilter, Hin, bool_decide_eq_true. tauto.
Qed.

(** The tasks that had not expired are the evicted ones and the retained ones. *)
Lemma retained_perm cutoff T tsP T' removed :
  wf T -> NoDup tsP -> (forall task, task ∈ tsP -> task ∈ candidates cutoff T) ->
  snapshot T ≡ₚ removed ++ snapshot T' ->
  (forall task, task ∈ removed <->
     task ∈ snapshot T /\ (task ∈ tsP \/ expired_terminal cutoff task = true)) ->
  bfilter (unexpired cutoff) (snapshot T) ≡ₚ tsP ++ snapshot T'.
Proof.
  intros Hwf HndP HP Hsplit Hrem.
  assert (Hnd : NoDup (snapshot T)) by (eapply NoDup_fmap_1, NoDup_snapshot_ids; done).
  pose proof Hnd as Hnd'. rewrite Hsplit in Hnd'. apply NoDup_app in Hnd' as (_ & Hdis & Hnd').
  assert (Hcand : forall task, task ∈ tsP -> task ∈ snapshot T /\ unexpired cutoff task = true).
  { intros task [_ [? ?]%elem_of_bfilter]%HP%elem_of_bfilter. done. }
  apply NoDup_Permutation; [by apply NoDup_bfilter| |].
  - apply NoDup_app. split_and!; [done| |done]. intros task Ht. apply Hdis, Hrem.
    split; [by apply Hcand|by left].
  - intros task. rewrite elem_of_bfilter, elem_of_app. split.
    + intros [Hu Hin]. pose proof Hin as Hin'. rewrite Hsplit in Hin'.
      apply elem_of_app in Hin' as [[_ [?|He]]%Hrem|?]; [by left| |by right].
      unfold unexpired in Hu. by rewrite He in Hu.
    + intros [Ht|Ht]; [by destruct (Hcand _ Ht)|].
      assert (Hin : task ∈ snapshot T) by (rewrite Hsplit; apply elem_of_app; by right).
      split; [|done]. unfold unexpired. destruct (expired_terminal cutoff task) eqn:He; [|done].
      exfalso. apply (Hdis task); [|done]. apply Hrem. auto.
Qed.

Lemma eviction_app P R t t' :
  StronglySorted eviction_le (triple <$> (P ++ R)) -> t ∈ P -> t' ∈ R ->
  eviction_le (triple t) (triple t').
Proof.
  intros Hs Ht Ht'. induction P as [|x P IH]; [by apply not_elem_of_nil in Ht|].
  cbn [app fmap list_fmap] in Hs. apply StronglySorted_inv in Hs as [Hs Hx].
  apply elem_of_cons in Ht as [->|Ht]; [|by apply IH].
  rewrite Forall_forall in Hx. apply Hx. apply list_elem_of_fmap_2, elem_of_app. by right.
Qed.

Lemma retained_terminal cutoff T tsP tsR removed T' task :
  candidates cutoff T ≡ₚ tsP ++ tsR ->
  bfilter (unexpired cutoff) (snapshot T) ≡ₚ tsP ++ snapshot T' ->
  snapshot T ≡ₚ removed ++ snapshot T' -> NoDup (snapshot T) ->
  (forall t, t ∈ tsP -> t ∈ removed) ->
  task ∈ snapshot T' -> is_terminal task = true -> task ∈ tsR.
Proof.
  intros Hcand Hkept Hperm Hnd HP Ht Hterm.
  assert (Hc : task ∈ candidates cutoff T).
  { apply elem_of_bfilter. split; [done|]. rewrite Hkept. apply elem_of_app. by right. }
  rewrite Hcand in Hc. apply elem_of_app in Hc as [Hc|Hc]; [|done]. exfalso.
  rewrite Hperm in Hnd. apply NoDup_app in Hnd as (_ & Hdis & _). apply (Hdis task); auto.
Qed.

(** [retention_split] carried through the removal loop. *)
Lemma prune_retention_split now ret mc mb T :
  wf T ->
  let cutoff := saturating_sub now ret in
  let kept := bfilter (unexpired cutoff) (snapshot T) in
  let r := prune_retention now ret mc mb T in
  zsum task_bytes kept <= u64_max ->
  exists tsP tsR,
    snapshot T ≡ₚ r.1 ++ snapshot r.2 /\
    (forall task, task ∈ r.1 <->
       task ∈ snapshot T /\ (task ∈ tsP \/ expired_terminal cutoff task = true)) /\
    kept ≡ₚ tsP ++ snapshot r.2 /\
    (forall task, task ∈ tsP -> is_terminal task = true) /\
    (forall task, task ∈ snapshot r.2 -> is_terminal task = true -> task ∈ tsR) /\
    (forall t t', t ∈ tsP -> t' ∈ tsR -> eviction_le (triple t) (triple t')) /\
    (tsR = [] \/ (Z.of_nat (length kept) - Z.of_nat (length tsP) <= mc /\
                  zsum task_bytes kept - zsum task_bytes tsP <= mb)) /\
    (tsP = [] \/ ~ (Z.of_nat (length kept) <= mc /\ zsum task_bytes kept <= mb)).
Proof.
  intros Hwf cutoff kept r Hov.
  destruct (retention_split now ret mc mb T Hwf Hov)
    as (tsP & tsR & Hcand & Hsort & Hids & Hbud & Hmin). fold cutoff kept in Hcand, Hids, Hbud, Hmin.
  destruct (remove_tasks_partition (set_elements (retention_ids now ret mc mb T)) T Hwf
    (NoDup_set_elements _)) as [Hperm Hin].
  change (remove_tasks _ T) with r in Hperm, Hin.
  assert (Hrem : forall task, task ∈ r.1 <->
    task ∈ snapshot T /\ (task ∈ tsP \/ expired_terminal cutoff task = true)).
  { intros task. rewrite Hin, elem_of_set_elements.
    split; intros [Ht ?]; (split; [done|]); by apply Hids. }
  assert (Hnd : NoDup (snapshot T)) by (eapply NoDup_fmap_1, NoDup_snapshot_ids; done).
  assert (HndP : NoDup tsP).
  { assert (NoDup (tsP ++ tsR)) as Hn by (rewrite <- Hcand; by do 2 apply NoDup_bfilter).
    by apply NoDup_app in Hn as [? _]. }
  assert (HP : forall task, task ∈ tsP -> task ∈ candidates cutoff T)
    by (intros; rewrite Hcand; apply elem_of_app; by left).
  assert (Hkept : kept ≡ₚ tsP ++ snapshot r.2) by (eapply retained_perm; done).
  exists tsP, tsR. split_and!; try done.
  - intros task [? _]%HP%elem_of_bfilter. done.
  - intros task. apply (retained_terminal cutoff T tsP tsR r.1); try done.
    intros t Ht. apply Hrem. split; [|by left].
    by apply HP, elem_of_bfilter in Ht as [_ [_ ?]%elem_of_bfilter].
  - intros t t'. by apply eviction_app.
Qed.
End retention_lemmas.

Lemma redact_failure_twice e : redact_failure (redact_failure e) = redact_failure e.
Proof.
  unfold redact_failure. simpl. rewrite redact_sensitive_value_twice. f_equal.
  by destruct (Str.contains "token_" (TaskFailure.message e)) eqn:Hc; [|rewrite Hc].
Qed.

Lemma redact_task_twice task : redact_task (redact_task task) = redact_task task.
Proof.
  unfold redact_task. simpl. rewrite redact_sensitive_value_twice. f_equal.
  - destruct (Task.output task); simpl; [|done]. by rewrite redact_sensitive_value_twice.
  - destruct (Task.error task); simpl; [|done]. by rewrite redact_failure_twice.
Qed.

Lemma table_eq T1 T2 :
  (forall k, tasks T1 !! k = tasks T2 !! k) ->
  (forall k, idempotency T1 !! k = idempotency T2 !! k) -> T1 = T2.
Proof. destruct T1, T2; simpl. intros H1 H2. f_equal; by apply map_eq. Qed.

(** Strings without a separator are read back unambiguously. *)
Lemma split_at_nul a a' b b' :
  Str.contains nul a = false -> Str.contains nul a' = false ->
  a +:+ nul +:+ b = a' +:+ nul +:+ b' -> a = a' /\ b = b'.
Proof.
  revert a'. induction a as [|x a IH]; intros [|y a'] Ha Ha' Heq.
  - by injection Heq.
  - injection Heq as <- _. done.
  - injection Heq as -> _. done.
  - simpl in Ha, Ha'. apply orb_false_iff in Ha as [_ Ha], Ha' as [_ Ha'].
    injection Heq as -> Heq. by destruct (IH a' Ha Ha' Heq) as [-> ->].
Qed.

(** ** What the table promises *)

(** C20. The event log is the task's history.  In every table the program can
    reach (submissions, transitions, retries, pruning, orphan recovery and
    restarts in any order), the events of every task, read in order, are a run
    of the lifecycle automaton from [Queued] to the task's present state; the
    attempt counter is the number of times the task ran, modulo 2^32; and the
    events are numbered 1, 2, 3, ... without gaps. *)
Theorem reachable_task_log `{!TaskEncoding} T id task :
  reachable T -> tasks T !! id = Some task -> log_ok task.
Proof. intros [_ Hlog]%inv_reachable. apply Hlog. Qed.

(** Submission is idempotent.  In a reachable table the index never names a
    task that is gone, so the indexing of [submit] does not panic; it answers
    with the task already filed under the same session, executor, capability and
    key exactly when there is one, leaving the table alone, and otherwise files a
    new queued task; and the same submission made again, at any time and with
    any new identifier, finds the task just returned. *)
Theorem submit_idempotent `{!TaskEncoding} now1 now2 uuid s e c input key co rq T :
  reachable T -> tasks T !! ("task_" +:+ uuid) = None ->
  exists task reused,
    let r := submit_traced now1 now2 uuid s e c input key co rq T in
    r.1 = Ok (task, reused) /\
    scope_of task = scoped_idempotency_key s e c key /\
    tasks r.2 !! Task.id task = Some task /\
    (reused = true -> r.2 = T) /\
    (reused = false ->
       Task.state task = TaskState.Queued /\ Task.input task = input /\
       (forall id t0, tasks T !! id = Some t0 -> scope_of t0 <> scope_of task) /\
       tasks r.2 = <[Task.id task := task]> (tasks T)) /\
    forall now3 now4 uuid' input' co' rq',
      submit_traced now3 now4 uuid' s e c input' key co' rq' r.2 = (Ok (task, true), r.2).
Proof.
  intros [[Hk Hidx] _]%inv_reachable Hfresh. unfold submit_traced.
  destruct (idempotency T !! scoped_idempotency_key s e c key) as [id|] eqn:Hi.
  - apply Hidx in Hi as Hi'. destruct Hi' as (task & Hid & Hs). rewrite Hid.
    exists task, true. rewrite (Hk _ _ Hid). split_and!; try done.
    intros. cbn [snd]. by rewrite Hi, Hid.
  - eexists _, false. split; [reflexivity|]. simpl. rewrite !lookup_insert_eq.
    split_and!; try done. intros _. split_and!; try done.
    intros id t0 Hid Hs.
    assert (Hx : idempotency T !! scope_of t0 = Some id) by (apply Hidx; eauto).
    rewrite Hs in Hx. change (idempotency T !! scoped_idempotency_key s e c key = Some id) in Hx.
    congruence.
Qed.

(** What pruning may do to a task, and nothing else may: [Succeeded] and
    [Cancelled] are not retryable, and no transition leaves them. *)
Definition finished (s : TaskState.t) : bool :=
  match s with TaskState.Succeeded | TaskState.Cancelled => true | _ => false end.

(** A finished task is final.  No operation on a reachable table changes a
    task that succeeded or was cancelled: it is left exactly as it is, or
    removed by pruning, or redacted by a restart. *)
Theorem finished_task_is_final `{!TaskEncoding} o T id task :
  reachable T -> admissible o T -> tasks T !! id = Some task -> finished (Task.state task) = true ->
  match tasks (apply o T) !! id with
  | None => match o with PruneBefore _ | PruneRetention _ _ _ _ => True | _ => False end
  | Some task' => task' = match o with Restart => redact_task task | _ => task end
  end.
Proof.
  intros [Hwf _]%inv_reachable Hadm Hid Hfin. destruct o; cbn [apply].
  - unfold submit_traced. destruct (idempotency T !! _) as [i|] eqn:Hi.
    + by destruct (tasks T !! i); simpl; rewrite Hid.
    + simpl in *. rewrite lookup_insert_ne; [by rewrite Hid|]. congruence.
  - unfold transition. destruct (tasks T !! id0) as [t0|] eqn:H0; simpl; [|by rewrite Hid].
    destruct (allowed _ _) eqn:Ha; simpl; [|by rewrite Hid].
    rewrite lookup_insert_ne; [by rewrite Hid|]. intros ->. rewrite Hid in H0.
    injection H0 as <-. by destruct (Task.state task).
  - unfold retry. destruct (tasks T !! id0) as [t0|] eqn:H0; simpl; [|by rewrite Hid].
    destruct (retryable _) eqn:Ha; simpl; [|by rewrite Hid].
    rewrite lookup_insert_ne; [by rewrite Hid|]. intros ->. rewrite Hid in H0.
    injection H0 as <-. by destruct (Task.state task).
  - unfold prune_terminal_before. rewrite remove_tasks_lookup, Hid. by case_decide.
  - unfold prune_retention. rewrite remove_tasks_lookup, Hid. by case_decide.
  - pose proof (recover_lookup now T id) as Hl. rewrite Hid in Hl.
    unfold orphan in Hl. destruct (Task.state task); try done; by rewrite Hl.
  - by rewrite restart_lookup, Hid.
Qed.

(** Recovery leaves no orphan.  After a restart every task that was queued
    or running has an unknown outcome and says why, each of them is reported,
    and every other task is untouched; a second recovery finds nothing to do. *)
Theorem recover_orphans_total now T :
  let r := recover_orphans now T in
  (forall id task', tasks r.2 !! id = Some task' ->
     orphan task' = false /\
     exists task, tasks T !! id = Some task /\
       (if orphan task
        then Task.state task' = TaskState.OutcomeUnknown /\
             Task.error task' = Some restart_failure /\ task' ∈ r.1
        else task' = task)) /\
  dom (tasks r.2) = dom (tasks T) /\
  forall now', recover_orphans now' r.2 = ([], r.2).
Proof.
  intros r.
  assert (Hl := recover_lookup now T). fold r in Hl.
  assert (Hno : forall id task', tasks r.2 !! id = Some task' -> orphan task' = false).
  { intros id task' H'. specialize (Hl id). destruct (tasks T !! id) as [task|]; [|congruence].
    destruct (orphan task) eqn:Ho; [|congruence].
    destruct Hl as (t' & Ht & n1 & n2 & ->). rewrite Ht in H'. by injection H' as <-. }
  split; [|split].
  - intros id task' H'. split; [by eapply Hno|]. specialize (Hl id).
    destruct (tasks T !! id) as [task|] eqn:Hid; [|congruence]. exists task. split; [done|].
    destruct (orphan task) eqn:Ho; [|congruence].
    destruct Hl as (t' & Ht & n1 & n2 & ->). rewrite Ht in H'. injection H' as <-.
    split_and!; try done. by eapply recover_reported.
  - apply set_eq. intros id. rewrite !elem_of_dom. specialize (Hl id).
    destruct (tasks T !! id) as [task|]; [|by rewrite Hl].
    destruct (orphan task); [destruct Hl as (t' & -> & _)|rewrite Hl]; done.
  - intros now'. unfold recover_orphans at 1.
    rewrite (proj2 (bfilter_nil (fun e => orphan e.2) (BTree.entries (tasks r.2)))).
    + cbn [recover_loop fmap list_fmap list_to_map foldr]. f_equal. generalize r.2.
      intros [ts ix]. simpl. by rewrite (left_id_L ∅ (∪)).
    + intros [id task'] Hin%BTree.elem_of_entries. by eapply Hno.
Qed.

(** Retention keeps its promises.  On a reachable table whose encoded size
    fits 64 bits, [prune_retention] splits the tasks into removed and retained
    ones; only terminal tasks are removed and no expired one is retained; the
    two budgets hold afterwards unless no terminal task is left to evict; every
    removed task comes before every retained terminal task in the eviction order
    (update time, then id); and when the unexpired tasks already meet the
    budgets, nothing but the expired ones goes. *)
Theorem prune_retention_spec `{!TaskEncoding} now ret mc mb T :
  reachable T -> zsum task_bytes (snapshot T) <= u64_max ->
  let r := prune_retention now ret mc mb T in
  let cutoff := saturating_sub now ret in
  let kept := bfilter (unexpired cutoff) (snapshot T) in
  snapshot T ≡ₚ r.1 ++ snapshot r.2 /\
  (forall task, task ∈ r.1 -> is_terminal task = true) /\
  (forall task, task ∈ snapshot r.2 -> expired_terminal cutoff task = false) /\
  ((forall task, task ∈ snapshot r.2 -> is_terminal task = false) \/
   (Z.of_nat (length (snapshot r.2)) <= mc /\ zsum task_bytes (snapshot r.2) <= mb)) /\
  (forall task task', task ∈ r.1 -> task' ∈ snapshot r.2 -> is_terminal task' = true ->
     eviction_le (triple task) (triple task')) /\
  (Z.of_nat (length kept) <= mc -> zsum task_bytes kept <= mb ->
     forall task, task ∈ r.1 -> expired_terminal cutoff task = true).
Proof.
  intros [Hwf _]%inv_reachable Hov r cutoff kept.
  assert (Hovk : zsum task_bytes kept <= u64_max)
    by (pose proof (zsum_bfilter_le task_bytes (unexpired cutoff) (snapshot T) task_bytes_nonneg);
        unfold kept; lia).
  destruct (prune_retention_split now ret mc mb T Hwf Hovk)
    as (tsP & tsR & Hperm & Hrem & Hkept & HP & HR & Hord & Hbud & Hmin).
  fold r cutoff kept in Hperm, Hrem, Hkept, HP, HR, Hbud, Hmin.
  assert (Hret : forall task, task ∈ snapshot r.2 -> expired_terminal cutoff task = false).
  { intros task Ht. assert (task ∈ kept) as Hk by (rewrite Hkept; apply elem_of_app; by right).
    apply elem_of_bfilter in Hk as [Hk _]. by apply negb_true_iff in Hk. }
  split_and!; [exact Hperm| |exact Hret| | |].
  - intros task [_ [Ht|He]]%Hrem; [by apply HP|]. by apply andb_true_iff in He as [? _].
  - destruct Hbud as [->|[H1 H2]].
    + left. intros task Ht. destruct (is_terminal task) eqn:Hterm; [|done].
      by apply HR, not_elem_of_nil in Hterm.
    + right. rewrite (Permutation_length Hkept), length_app in H1.
      rewrite (zsum_perm _ _ _ Hkept), zsum_app in H2. lia.
  - intros task task' [_ [Ht|He]]%Hrem Ht' Hterm; [by apply Hord; [|apply HR]|].
    apply Hret in Ht'. left. unfold expired_terminal in *.
    unfold is_terminal in Hterm. rewrite Hterm in Ht'. simpl in *. lia.
  - intros H1 H2 task [_ [Ht|He]]%Hrem; [|done].
    destruct Hmin as [->|Hmin]; [by apply not_elem_of_nil in Ht|]. tauto.
Qed.

(** Nothing secret is persisted.  Whatever the table holds, no task of the
    persistence snapshot keeps a readable secret in its input, its output, its
    error details or its error message; and on a reachable table persisting
    and reloading keeps every task's identity, scope, state, attempt count and
    event log, and doing so twice is doing so once. *)
Theorem persistence_snapshot_clean `{!TaskEncoding} T :
  (forall task, task ∈ persistence_snapshot T ->
     clean (Task.input task) /\
     (forall v, Task.output task = Some v -> clean v) /\
     (forall e, Task.error task = Some e ->
        clean (TaskFailure.details e) /\
        Str.contains "token_" (TaskFailure.message e) = false)) /\
  (reachable T ->
   let T' := from_tasks (persistence_snapshot T) in
   (forall id task, tasks T !! id = Some task ->
      exists task', tasks T' !! id = Some task' /\ scope_of task' = scope_of task /\
        Task.state task' = Task.state task /\ Task.attempt task' = Task.attempt task /\
        Task.events task' = Task.events task) /\
   (forall k, idempotency T' !! k = idempotency T !! k) /\
   from_tasks (persistence_snapshot T') = T').
Proof.
  split.
  - intros task (t0 & -> & _)%list_elem_of_fmap. simpl. split_and!.
    + apply redact_sensitive_value_clean.
    + intros v (v0 & _ & ->)%fmap_Some. apply redact_sensitive_value_clean.
    + intros e (e0 & _ & ->)%fmap_Some. split; [apply redact_sensitive_value_clean|].
      cbn [TaskFailure.message redact_failure].
      destruct (Str.contains "token_" (TaskFailure.message e0)) eqn:Hc; [reflexivity|exact Hc].
  - intros Hreach T'. pose proof (inv_reachable _ Hreach) as [Hwf _].
    assert (Hwf' : wf T') by apply (inv_restart T (inv_reachable _ Hreach)).
    split_and!.
    + intros id task Hid. exists (redact_task task). unfold T'. by rewrite restart_lookup, Hid.
    + intros k. by apply restart_idempotency.
    + apply table_eq; intros k.
      * rewrite restart_lookup by done. unfold T'. rewrite restart_lookup by done.
        destruct (tasks T !! k) as [task|]; [|done]. simpl. by rewrite redact_task_twice.
      * by rewrite restart_idempotency.
Qed.

(** Distinct scopes have distinct keys.  The scoped idempotency key is
    injective in its four parts as long as the session, executor and capability
    names contain no NUL byte (the separator). *)
Theorem scoped_idempotency_key_injective s1 e1 c1 k1 s2 e2 c2 k2 :
  Forall (fun x => Str.contains nul x = false) [s1; e1; c1; s2; e2; c2] ->
  scoped_idempotency_key s1 e1 c1 k1 = scoped_idempotency_key s2 e2 c2 k2 ->
  s1 = s2 /\ e1 = e2 /\ c1 = c2 /\ k1 = k2.
Proof.
  unfold scoped_idempotency_key. rewrite !Forall_cons. intros (H1 & H2 & H3 & H4 & H5 & H6 & _).
  intros [-> [-> [-> ->]%split_at_nul]%split_at_nul]%split_at_nul; done.
Qed.

(** With a NUL in a component two different scopes share a key. *)
Example scoped_idempotency_key_collision :
  scoped_idempotency_key "s" ("e" +:+ nul +:+ "c") "d" "k" =
  scoped_idempotency_key "s" "e" "c" ("d" +:+ nul +:+ "k").
Proof. reflexivity. Qed.

(** ** Witnesses *)

(** Every task counts one byte. *)
Definition unit_encoding : TaskEncoding := fun _ => 1%N.

(** One task that ran and succeeded, one that is still running. *)
Definition sample_ops : list op :=
  [Submit 1 2 "a" "s" "e" "build" VNull "k1" None None;
   Transition 3 4 "task_a" TaskState.Running None None;
   Transition 5 6 "task_a" TaskState.Succeeded (Some (vstr "done")) None;
   Submit 7 8 "b" "s" "e" "build" VNull "k2" None None;
   Transition 9 10 "task_b" TaskState.Running None None].

Definition sample : t := foldl (fun T o => apply (H := unit_encoding) o T) (mk ∅ ∅) sample_ops.

Lemma sample_reachable : reachable (H := unit_encoding) sample.
Proof.
  unfold sample, sample_ops. cbn [foldl].
  repeat first [exact (reachable_empty (H := unit_encoding))|apply reachable_step; [|vm_compute; done]].
Defined.

Definition sample_task (id : string) : Task.t :=
  default (Task.mk "" None None "" "" "" VNull None None "" TaskState.Queued 0 0 0 [])
    (tasks sample !! id).

Lemma reachable_task_log_witness :
  log_ok (sample_task "task_a") /\ Task.state (sample_task "task_a") = TaskState.Succeeded /\
  Task.attempt (sample_task "task_a") = 1.
Proof.
  split; [|split; vm_compute; reflexivity].
  apply (reachable_task_log (H := unit_encoding) sample "task_a"); [exact sample_reachable|].
  vm_compute. reflexivity.
Defined.

Lemma submit_idempotent_witness :
  exists task reused,
    let r := submit_traced 20 21 "c" "s" "e" "build" VNull "k1" None None sample in
    r.1 = Ok (task, reused) /\ (reused = true -> r.2 = sample).
Proof.
  destruct (submit_idempotent (H := unit_encoding) 20 21 "c" "s" "e" "build" VNull "k1" None None sample
    sample_reachable) as (task & reused & H1 & _ & _ & H2 & _).
  - vm_compute. reflexivity.
  - exists task, reused. split; [exact H1|exact H2].
Defined.

Lemma finished_task_is_final_witness :
  tasks (apply (H := unit_encoding) (Retry 30 31 "task_a") sample) !! "task_a" =
  Some (sample_task "task_a").
Proof.
  assert (Hf := finished_task_is_final (H := unit_encoding) (Retry 30 31 "task_a") sample "task_a"
    (sample_task "task_a") sample_reachable I ltac:(vm_compute; reflexivity)
    ltac:(vm_compute; reflexivity)).
  destruct (tasks (apply (Retry 30 31 "task_a") sample) !! "task_a"); [by rewrite Hf|destruct Hf].
Defined.

(** With a budget of one task the finished one goes and the running one stays. *)
Lemma prune_retention_spec_witness :
  let r := prune_retention (H := unit_encoding) 100 1000 1 1000 sample in
  r.1 = [sample_task "task_a"] /\ Z.of_nat (length (snapshot r.2)) <= 1 /\
  (forall task, task ∈ r.1 -> is_terminal task = true).
Proof.
  destruct (prune_retention_spec (H := unit_encoding) 100 1000 1 1000 sample sample_reachable)
    as (_ & Hterm & _); [vm_compute; discriminate|].
  split; [vm_compute; reflexivity|]. split; [vm_compute; discriminate|exact Hterm].
Defined.

Lemma persistence_snapshot_clean_witness :
  let T' := from_tasks (persistence_snapshot sample) in
  from_tasks (persistence_snapshot T') = T'.
Proof.
  apply (persistence_snapshot_clean (H := unit_encoding) sample). exact sample_reachable.
Defined.

Lemma scoped_idempotency_key_injective_witness :
  scoped_idempotency_key "s" "e" "c" "k1" = scoped_idempotency_key "s" "e" "c" ("k" +:+ "1") /\
  "k1" = ("k" +:+ "1")%string.
Proof.
  split; [reflexivity|].
  apply (scoped_idempotency_key_injective "s" "e" "c" "k1" "s" "e" "c" ("k" +:+ "1")).
  - repeat constructor.
  - reflexivity.
Defined.

End TaskTable.
