(* ===== verification/Contracts.v ===== *)
(** * What a request must satisfy ([crates/workbench-runtime/src/controller.rs])

    The pure helpers of the controller: parameter access, the JSON-schema check
    of capability inputs and outputs, lock templates, command approval, and the
    bounded form in which task outputs are kept. *)

From Stdlib Require Import Ascii String SpecFloat.
From S2P Require Import Prelude RustStd Json Protocol Schema Leases.

(** [serde_json]'s text of a value, and the text of a double. *)
Class Text := {
  json_text : Value -> string;
  f64_text : spec_float -> string;
}.

(** ** Parameters of a request *)

Definition required_str (params : Value) (key : string) : outcome RpcError.t string :=
  match vget params key ≫= as_str with
  | Some value =>
      if Str.is_empty value then Err (RpcError.new "INVALID_PARAMS" (key +:+ " is required"))
      else Ok value
  | None => Err (RpcError.new "INVALID_PARAMS" (key +:+ " is required"))
  end.

Definition optional_str (params : Value) (key : string) : outcome RpcError.t (option string) :=
  match vget params key with
  | None | Some VNull => Ok None
  | Some (VString value) => Ok (Some value)
  | Some _ => Err (RpcError.new "INVALID_PARAMS" (key +:+ " must be a string"))
  end.

(** [params.get(key).and_then(Value::as_str)], and the same for numbers. *)
Definition str_param (params : Value) (key : string) : option string := vget params key ≫= as_str.
Definition u64_param (params : Value) (key : string) : option Z := vget params key ≫= as_u64.

(** ** Vectors of records *)

Definition upsert_by {A} (value : A) (predicate : A -> bool) (items : list A) : list A :=
  match bfind predicate items with
  | Some _ => update_first predicate (fun _ => value) items
  | None => items ++ [value]
  end.

(** ** Schemas *)

Definition schema_error (path message : string) : RpcError.t :=
  RpcError.new "SCHEMA_VALIDATION_FAILED" (path +:+ " " +:+ message).

Definition value_matches_type (value : Value) (kind : string) : bool :=
  if decide (kind = "null") then is_null value
  else if decide (kind = "boolean") then is_boolean value
  else if decide (kind = "integer") then
    match as_i64 value with
    | Some _ => true
    | None => match as_u64 value with Some _ => true | None => false end
    end
  else if decide (kind = "number") then is_number value
  else if decide (kind = "string") then is_string value
  else if decide (kind = "array") then is_array value
  else if decide (kind = "object") then is_object value
  else false.

(** The [matches] of a ["type"] entry. *)
Definition type_matches (types value : Value) : bool :=
  match types with
  | VString kind => value_matches_type value kind
  | VArray kinds => existsb (value_matches_type value) (omap as_str kinds)
  | _ => false
  end.

Section schema.
Context `{!Text}.

(** The checks on the value itself, in their order. *)
Definition check_enum (schema value : Value) (path : string) : outcome RpcError.t unit :=
  match vget schema "enum" ≫= as_array with
  | Some allowed =>
      if existsb (fun v => value_eq v value) allowed then Ok tt
      else Err (schema_error path "value is not in enum")
  | None => Ok tt
  end.

Definition check_type (schema value : Value) (path : string) : outcome RpcError.t unit :=
  match vget schema "type" with
  | Some types =>
      if type_matches types value then Ok tt
      else Err (schema_error path ("does not match type " +:+ json_text types))
  | None => Ok tt
  end.

Definition check_bound (schema value : Value) (key word : string)
    (violates : spec_float -> spec_float -> bool) (path : string) : outcome RpcError.t unit :=
  match vget schema key ≫= as_f64, as_f64 value with
  | Some bound, Some number =>
      if violates number bound
      then Err (schema_error path ("is " +:+ word +:+ " " +:+ f64_text bound))
      else Ok tt
  | _, _ => Ok tt
  end.

Fixpoint check_required (required : list string) (object : list (string * Value)) (path : string) :
    outcome RpcError.t unit :=
  match required with
  | [] => Ok tt
  | key :: required' =>
      if contains_key object key then check_required required' object path
      else Err (schema_error (path +:+ "." +:+ key) "is required")
  end.

Definition child_path (path key : string) : string := path +:+ "." +:+ key.
Definition item_path (path : string) (i : nat) : string := path +:+ "[" +:+ pretty i +:+ "]".

(** [for (i, x) in items.iter().enumerate() { f(i, x)?; }] *)
Definition each {A} (f : nat -> A -> outcome RpcError.t unit) :
    nat -> list A -> outcome RpcError.t unit :=
  fix go i l :=
    match l with
    | [] => Ok tt
    | x :: l' => _ ← f i x; go (S i) l'
    end.

Definition unconstrained (schema : Value) : bool :=
  match as_object schema with Some (_ :: _) => false | _ => true end.

Fixpoint validate_schema (schema value : Value) (path : string) {struct value} :
    outcome RpcError.t unit :=
  if unconstrained schema then Ok tt
  else
    _ ← check_enum schema value path;
    _ ← check_type schema value path;
    _ ← check_bound schema value "minimum" "below minimum" SFltb path;
    _ ← check_bound schema value "maximum" "above maximum" (fun n m => SFltb m n) path;
    _ ← match value with
        | VObject object =>
            _ ← match vget schema "required" ≫= as_array with
                | Some required => check_required (omap as_str required) object path
                | None => Ok tt
                end;
            match vget schema "properties" ≫= as_object with
            | Some properties =>
                each (fun _ entry =>
                  match obj_get properties entry.1 with
                  | Some child_schema =>
                      validate_schema child_schema entry.2 (child_path path entry.1)
                  | None =>
                      match vget schema "additionalProperties" with
                      | Some (VBool false) =>
                          Err (schema_error (child_path path entry.1) "is not allowed")
                      | _ => Ok tt
                      end
                  end) 0%nat object
            | None => Ok tt
            end
        | _ => Ok tt
        end;
    match vget schema "items", value with
    | Some items, VArray values =>
        each (fun i child => validate_schema items child (item_path path i)) 0%nat values
    | _, _ => Ok tt
    end.

(** ** What the check means *)

(** [governs schema value s v]: checking [value] against [schema] checks its
    part [v] against the sub-schema [s]. *)
Inductive governs (schema value : Value) : Value -> Value -> Prop :=
  | governs_root : governs schema value schema value
  | governs_property s o properties key child_schema child :
      governs schema value s (VObject o) ->
      vget s "properties" = Some (VObject properties) ->
      (key, child) ∈ o -> obj_get properties key = Some child_schema ->
      governs schema value child_schema child
  | governs_item s l items child :
      governs schema value s (VArray l) -> vget s "items" = Some items -> child ∈ l ->
      governs schema value items child.

(** What a schema asks of the one value in front of it. *)
Record node_ok (s v : Value) : Prop := {
  node_enum allowed :
    vget s "enum" = Some (VArray allowed) -> exists w, w ∈ allowed /\ value_eq w v = true;
  node_type types : vget s "type" = Some types -> type_matches types v = true;
  node_minimum bound number :
    vget s "minimum" ≫= as_f64 = Some bound -> as_f64 v = Some number -> SFltb number bound = false;
  node_maximum bound number :
    vget s "maximum" ≫= as_f64 = Some bound -> as_f64 v = Some number -> SFltb bound number = false;
  node_required o required key :
    v = VObject o -> vget s "required" = Some (VArray required) -> VString key ∈ required ->
    contains_key o key = true;
  node_closed o properties key child :
    v = VObject o -> vget s "properties" = Some (VObject properties) ->
    vget s "additionalProperties" = Some (VBool false) -> (key, child) ∈ o ->
    contains_key properties key = true;
}.

Lemma bind_Ok {A B} (m : outcome RpcError.t A) (k : A -> outcome RpcError.t B) b :
  (m ≫= k) = Ok b <-> exists a, m = Ok a /\ k a = Ok b.
Proof.
  destruct m as [a|e|]; cbn; split; try done; [by exists a|by intros (? & [= ->] & ?)|..];
    by intros (? & ? & ?).
Qed.

Lemma bind_unit_Ok {B} (m : outcome RpcError.t unit) (k : outcome RpcError.t B) b :
  (_ ← m; k) = Ok b <-> m = Ok tt /\ k = Ok b.
Proof. rewrite bind_Ok. split; [intros ([] & ?)|intros ?; exists tt]; done. Qed.

Lemma each_Ok {A} (f : nat -> A -> outcome RpcError.t unit) i l :
  each f i l = Ok tt <-> forall j x, l !! j = Some x -> f (i + j)%nat x = Ok tt.
Proof.
  revert i. induction l as [|x l IH]; intros i; cbn [each]; [done|]. rewrite bind_Ok. split.
  - intros ([] & Hx & Hl) [|j] y Hj; cbn in Hj.
    + injection Hj as <-. by rewrite Nat.add_0_r.
    + rewrite Nat.add_succ_r. by apply (proj1 (IH (S i)) Hl).
  - intros Hf. exists tt. split; [rewrite <- (Nat.add_0_r i); by apply (Hf 0%nat)|].
    apply IH. intros j y Hj. rewrite Nat.add_succ_comm. by apply Hf.
Qed.

Lemma check_required_Ok required o path :
  check_required required o path = Ok tt <-> forall key, key ∈ required -> contains_key o key = true.
Proof.
  induction required as [|k required IH]; simpl.
  { split; [|done]. intros _ key Hk. by apply not_elem_of_nil in Hk. }
  destruct (contains_key o k) eqn:Hk; [|split; [done|]].
  - rewrite IH. split; intros Hr key; [|intros; apply Hr; by right].
    intros [->|?]%elem_of_cons; [done|by apply Hr].
  - intros Hr. rewrite (Hr k) in Hk; [done|by left].
Qed.

Lemma unconstrained_vget s key : unconstrained s = true -> vget s key = None.
Proof. destruct s as [| | | | |[|]]; done. Qed.

Lemma as_array_Some o l : o ≫= as_array = Some l <-> o = Some (VArray l).
Proof. destruct o as [[]|]; simpl; split; congruence. Qed.
Lemma as_object_Some o p : o ≫= as_object = Some p <-> o = Some (VObject p).
Proof. destruct o as [[]|]; simpl; split; congruence. Qed.

Lemma governs_trans s v s1 v1 s2 v2 :
  governs s v s1 v1 -> governs s1 v1 s2 v2 -> governs s v s2 v2.
Proof. intros H1. induction 1; [done| |]; by econstructor. Qed.

(** The four checks of the value itself. *)
Lemma check_local_Ok s v path :
  (check_enum s v path = Ok tt <->
     forall allowed, vget s "enum" = Some (VArray allowed) -> exists w, w ∈ allowed /\ value_eq w v = true) /\
  (check_type s v path = Ok tt <-> forall types, vget s "type" = Some types -> type_matches types v = true).
Proof.
  unfold check_enum, check_type. split.
  - destruct (vget s "enum" ≫= as_array) as [allowed|] eqn:He.
    + apply as_array_Some in He. rewrite He. destruct (existsb _ allowed) eqn:Hex.
      * apply existsb_exists in Hex as (w & Hw & Heq). split; [|done].
        intros _ allowed' [= <-]. exists w. by rewrite list_elem_of_In.
      * split; [done|]. intros Hall. destruct (Hall _ eq_refl) as (w & Hw & Heq).
        rewrite list_elem_of_In in Hw.
        assert (existsb (fun x => value_eq x v) allowed = true) as Ht; [|congruence].
        apply existsb_exists. by exists w.
    + split; [|done]. intros _ allowed Ha. rewrite Ha in He. done.
  - destruct (vget s "type") as [types|]; [|by split].
    destruct (type_matches types v) eqn:Ht; split; try done.
    + by intros _ ? [= <-].
    + intros Hall. rewrite (Hall _ eq_refl) in Ht. done.
Qed.

Lemma check_bound_Ok s v key word violates path :
  check_bound s v key word violates path = Ok tt <->
  forall bound number, vget s key ≫= as_f64 = Some bound -> as_f64 v = Some number ->
    violates number bound = false.
Proof.
  unfold check_bound. destruct (vget s key ≫= as_f64) as [b|], (as_f64 v) as [n|];
    try (split; [by intros|done]).
  destruct (violates n b) eqn:Hv; split; try done.
  - intros Hall. by rewrite (Hall _ _ eq_refl eq_refl) in Hv.
  - by intros _ ?? [= <-] [= <-].
Qed.

(** One level of the check: the value itself, then every part it governs. *)
Definition parts_ok (s v : Value) (path : string) : Prop :=
  (forall o properties key child child_schema,
     v = VObject o -> vget s "properties" = Some (VObject properties) -> (key, child) ∈ o ->
     obj_get properties key = Some child_schema ->
     validate_schema child_schema child (child_path path key) = Ok tt) /\
  (forall l items i child,
     v = VArray l -> vget s "items" = Some items -> l !! i = Some child ->
     validate_schema items child (item_path path i) = Ok tt).

(** The two loops of the object branch. *)
Lemma object_branch_Ok s o path :
  (_ ← match vget s "required" ≫= as_array with
       | Some required => check_required (omap as_str required) o path
       | None => Ok tt
       end;
   match vget s "properties" ≫= as_object with
   | Some properties =>
       each (fun _ entry =>
         match obj_get properties entry.1 with
         | Some child_schema => validate_schema child_schema entry.2 (child_path path entry.1)
         | None =>
             match vget s "additionalProperties" with
             | Some (VBool false) => Err (schema_error (child_path path entry.1) "is not allowed")
             | _ => Ok tt
             end
         end) 0%nat o
   | None => Ok tt
   end) = Ok tt <->
  (forall required key, vget s "required" = Some (VArray required) -> VString key ∈ required ->
     contains_key o key = true) /\
  (forall properties key child, vget s "properties" = Some (VObject properties) -> (key, child) ∈ o ->
     match obj_get properties key with
     | Some child_schema => validate_schema child_schema child (child_path path key) = Ok tt
     | None => vget s "additionalProperties" <> Some (VBool false)
     end).
Proof.
  rewrite bind_Ok. split.
  - intros ([] & Hreq & Hprop). split.
    + intros required key Hr Hkey. rewrite Hr in Hreq. cbn in Hreq.
      rewrite check_required_Ok in Hreq. apply Hreq, list_elem_of_omap. by exists (VString key).
    + intros properties key child Hp Hin. rewrite Hp in Hprop. cbn in Hprop.
      rewrite each_Ok in Hprop. apply list_elem_of_lookup_1 in Hin as [j Hj].
      specialize (Hprop _ _ Hj). cbn in Hprop. destruct (obj_get properties key); [done|].
      destruct (vget s "additionalProperties") as [[|[]| | | |]|]; done.
  - intros [Hreq Hprop]. exists tt. split.
    + destruct (vget s "required" ≫= as_array) as [required|] eqn:Hr; [|done].
      apply as_array_Some in Hr. apply check_required_Ok.
      intros key (w & Hw & Hk)%list_elem_of_omap. destruct w; try done. injection Hk as ->.
      by apply (Hreq required).
    + destruct (vget s "properties" ≫= as_object) as [properties|] eqn:Hp; [|done].
      apply as_object_Some in Hp. apply each_Ok. intros j [key child] Hj.
      apply list_elem_of_lookup_2 in Hj. specialize (Hprop _ _ _ Hp Hj). cbn.
      destruct (obj_get properties key); [done|].
      destruct (vget s "additionalProperties") as [[|[]| | | |]|]; done.
Qed.

Lemma items_branch_Ok s v path :
  match vget s "items", v with
  | Some items, VArray values =>
      each (fun i child => validate_schema items child (item_path path i)) 0%nat values
  | _, _ => Ok tt
  end = Ok tt <->
  (forall l items i child, v = VArray l -> vget s "items" = Some items -> l !! i = Some child ->
     validate_schema items child (item_path path i) = Ok tt).
Proof.
  destruct (vget s "items") as [items|]; [|by split].
  destruct v as [| | | |values|]; try by split. rewrite each_Ok. split.
  - by intros Hall l items' i child [= <-] [= <-] Hi; apply (Hall i).
  - intros Hall j x Hj. by eapply Hall.
Qed.

Lemma validate_schema_step s v path :
  validate_schema s v path = Ok tt <-> node_ok s v /\ parts_ok s v path.
Proof.
  destruct (check_local_Ok s v path) as [Henum Htype].
  pose proof (check_bound_Ok s v "minimum" "below minimum" SFltb path) as Hmin.
  pose proof (check_bound_Ok s v "maximum" "above maximum" (fun n m => SFltb m n) path) as Hmax.
  destruct (unconstrained s) eqn:Hun.
  - split; [|by destruct v; simpl; rewrite Hun].
    intros _. split; constructor; intros; rewrite ?unconstrained_vget in * by done; done.
  - assert (validate_schema s v path = Ok tt <->
      check_enum s v path = Ok tt /\ check_type s v path = Ok tt /\
      check_bound s v "minimum" "below minimum" SFltb path = Ok tt /\
      check_bound s v "maximum" "above maximum" (fun n m => SFltb m n) path = Ok tt /\
      match v with VObject o => (forall required key, vget s "required" = Some (VArray required) ->
          VString key ∈ required -> contains_key o key = true) /\
        (forall properties key child, vget s "properties" = Some (VObject properties) ->
          (key, child) ∈ o ->
          match obj_get properties key with
          | Some child_schema => validate_schema child_schema child (child_path path key) = Ok tt
          | None => vget s "additionalProperties" <> Some (VBool false)
          end) | _ => True end /\
      (forall l items i child, v = VArray l -> vget s "items" = Some items -> l !! i = Some child ->
        validate_schema items child (item_path path i) = Ok tt)) as ->.
    { rewrite <- items_branch_Ok.
      destruct v as [| | | | |o]; [..|rewrite <- object_branch_Ok];
        cbn [validate_schema]; rewrite Hun, 5!bind_unit_Ok; tauto. }
    rewrite Henum, Htype, Hmin, Hmax. split.
    + intros (He & Ht & Hmi & Hma & Ho & Hi). split; [|split; [|done]].
      * constructor; try done; intros; subst; [by eapply Ho|]. destruct Ho as [_ Ho].
        specialize (Ho _ _ _ ltac:(eassumption) ltac:(eassumption)).
        unfold contains_key. by destruct (obj_get _ _).
      * intros; subst. destruct Ho as [_ Ho].
        specialize (Ho _ _ _ ltac:(eassumption) ltac:(eassumption)).
        by destruct (obj_get _ _); simplify_eq.
    + intros [[He Ht Hmi Hma Hr Hc] [Hp Hi]]. split_and?; try done.
      destruct v as [| | | |l|o]; try done. split; [intros; by eapply Hr|].
      intros properties key child Hps Hin. destruct (obj_get properties key) eqn:Hk; [by eapply Hp|].
      intros Hadd. specialize (Hc _ _ _ _ eq_refl Hps Hadd Hin). unfold contains_key in Hc.
      by rewrite Hk in Hc.
Qed.

(** The recursive check accepts exactly the values every part of which
    satisfies what the schema governing that part asks of it: enumeration,
    type, bounds, required fields and the closed-object rule. *)
Theorem validate_schema_iff schema value path :
  validate_schema schema value path = Ok tt <->
  forall s v, governs schema value s v -> node_ok s v.
Proof.
  split.
  - intros Hok s v Hg.
    assert (exists p, validate_schema s v p = Ok tt) as [p Hp].
    { induction Hg as [|s o props key cs child Hg [p Hp] Hprops Hin Hkey|s l items child Hg [p Hp] Hit Hin].
      - by exists path.
      - apply validate_schema_step in Hp as [_ [Hp _]]. eexists. by eapply Hp.
      - apply validate_schema_step in Hp as [_ [_ Hp]].
        apply list_elem_of_lookup_1 in Hin as [j Hj]. eexists. by eapply Hp. }
    by apply validate_schema_step in Hp as [? _].
  - revert schema path. induction value using Value_rect_nested; intros schema path Hg;
      apply validate_schema_step; (split; [apply Hg, governs_root|]); split; intros; simplify_eq.
    + rewrite Forall_forall in H0. eapply H0; [by eapply list_elem_of_lookup_2|].
      intros s v Hsv. apply Hg. eapply governs_trans; [|exact Hsv].
      eapply governs_item; [apply governs_root|done|by eapply list_elem_of_lookup_2].
    + rewrite Forall_forall in H0. eapply (H0 (key, child)); [done|].
      intros s v Hsv. apply Hg. eapply governs_trans; [|exact Hsv].
      by eapply governs_property; [apply governs_root|..].
Qed.
End schema.

(** ** Lock templates *)

Section locks.
Context `{!Text}.

Definition field_text (v : Value) : string :=
  match as_str v with Some s => s | None => json_text v end.

(** The [while let] of [render_lock]: [None] is a loop that has not ended
    after [fuel] turns. *)
Fixpoint render_loop (fuel : nat) (template rendered : string) (input : Value) :
    option (outcome RpcError.t string) :=
  match fuel with
  | O => None
  | S fuel' =>
      match Str.find "${" rendered with
      | None => Some (Ok rendered)
      | Some start =>
          match Str.find "}" (Str.drop (start + 2) rendered) with
          | None => Some (Err (RpcError.new "INVALID_LOCK_TEMPLATE" template))
          | Some relative_end =>
              let key := Str.take relative_end (Str.drop (start + 2) rendered) in
              match vget input key with
              | None =>
                  Some (Err (RpcError.new "INVALID_LOCK_INPUT"
                               ("lock requires input field " +:+ key)))
              | Some value =>
                  render_loop fuel' template
                    (Str.take start rendered +:+ field_text value +:+
                     Str.drop (start + 2 + relative_end + 1) rendered) input
              end
          end
      end
  end.

(** Enough turns for a template when no field text contains a ["$"]. *)
Definition lock_fuel (template : string) : nat := S (Str.count_char "$" template).

(** A template that is still being rendered after [fuel] turns yields no answer:
    [Panic], like an unwinding thread. *)
Definition render_lock (fuel : nat) (template : string) (input : Value) : outcome RpcError.t string :=
  default Panic (render_loop fuel template template input).

Definition render_capability_authority_resource (fuel : nat) (template executor_id : string)
    (input : Value) : outcome RpcError.t string :=
  render_lock fuel (Str.replace "${executorId}" executor_id template) input.

(** No field of the input reintroduces a placeholder. *)
Definition fields_plain (input : Value) : Prop :=
  forall key v, vget input key = Some v -> Str.count_char "$" (field_text v) = 0%nat.

(** A turn of the loop consumes the ["$"] of the placeholder it replaces. *)
Lemma render_turn_decreases rendered start n v :
  Str.find "${" rendered = Some start -> Str.count_char "$" v = 0%nat ->
  (Str.count_char "$" (Str.take start rendered +:+ v +:+ Str.drop (start + 2 + n) rendered) <
   Str.count_char "$" rendered)%nat.
Proof.
  intros Hfind Hv. apply Str.find_Some, Str.starts_with_drop in Hfind.
  rewrite <- (Str.take_drop start rendered) at 3.
  rewrite !Str.count_char_app, Hv, Hfind, Str.count_char_app.
  simpl String.length. rewrite Str.drop_drop, <- Str.drop_drop with (n := (start + 2)%nat).
  pose proof (Str.count_char_drop "$" n (Str.drop (start + 2) rendered)).
  change (Str.count_char "$" "${") with 1%nat. lia.
Qed.

(** Rendering a lock key ends: when no field text of the input contains a
    ["$"], one turn per ["$"] of the template and one more suffice, more turns
    change nothing, and a rendered key has no placeholder left. *)
Theorem render_lock_terminates template input :
  fields_plain input ->
  exists o, (forall fuel, (lock_fuel template <= fuel)%nat -> render_lock fuel template input = o) /\
    o <> Panic /\ (forall key, o = Ok key -> Str.find "${" key = None).
Proof.
  intros Hplain.
  assert (forall n rendered, (Str.count_char "$" rendered < n)%nat -> exists o,
    (forall fuel, (n <= fuel)%nat -> render_loop fuel template rendered input = Some o) /\
    o <> Panic /\ (forall key, o = Ok key -> Str.find "${" key = None)) as Hloop.
  { induction n as [|n IH]; intros rendered Hn; [lia|].
    destruct (Str.find "${" rendered) as [start|] eqn:Hfind.
    2:{ exists (Ok rendered). split_and?; [|done|by intros key [= <-]].
        intros [|fuel] Hf; [lia|]. simpl. by rewrite Hfind. }
    destruct (Str.find "}" (Str.drop (start + 2) rendered)) as [rel|] eqn:Hend.
    2:{ eexists (Err _). split_and?; [|done|done].
        intros [|fuel] Hf; [lia|]. simpl. by rewrite Hfind, Hend. }
    destruct (vget input (Str.take rel (Str.drop (start + 2) rendered))) as [v|] eqn:Hget.
    2:{ eexists (Err _). split_and?; [|done|done].
        intros [|fuel] Hf; [lia|]. simpl. by rewrite Hfind, Hend, Hget. }
    pose proof (render_turn_decreases rendered start (rel + 1) _ Hfind (Hplain _ _ Hget)) as Hlt.
    rewrite Nat.add_assoc in Hlt.
    destruct (IH _ ltac:(eapply Nat.lt_le_trans; [exact Hlt|lia])) as (o & Ho & Hrest).
    exists o. split; [|done]. intros [|fuel] Hf; [lia|]. simpl.
    rewrite Hfind, Hend, Hget. apply Ho. lia. }
  destruct (Hloop (lock_fuel template) template ltac:(unfold lock_fuel; lia)) as (o & Ho & Hrest).
  exists o. split; [|done]. intros fuel Hf. unfold render_lock. by rewrite Ho.
Qed.

(** Without that condition the loop need not end: a field that spells its own
    placeholder is substituted for ever. *)
Example render_lock_self_reference fuel :
  render_loop fuel "${path}" "${path}" (json_object [("path", VString "${path}")]) = None.
Proof. induction fuel as [|fuel IH]; [done|exact IH]. Qed.

Definition command_resource (value : Value) : outcome RpcError.t string :=
  match as_str value with
  | None => Err (RpcError.new "INVALID_PARAMS" "command resources must be strings")
  | Some resource =>
      if Str.is_empty resource || (Str.len resource >? 512) || Str.any_control resource
      then Err (RpcError.new "INVALID_PARAMS"
                  "command resource is empty, too long, or contains control characters")
      else Ok ("command:" +:+ resource)
  end.

(** [iter().map(f).collect::<Result<Vec<_>, _>>()] *)
Fixpoint collect {A B} (f : A -> outcome RpcError.t B) (l : list A) : outcome RpcError.t (list B) :=
  match l with
  | [] => Ok []
  | x :: l' => y ← f x; ys ← collect f l'; Ok (y :: ys)
  end.

Definition command_resources (input : Value) : outcome RpcError.t (list string) :=
  match vget input "resources" with
  | None => Ok []
  | Some values =>
      values ← ok_or (RpcError.new "INVALID_PARAMS" "command resources must be an array")
                 (as_array values);
      if Z.of_nat (length values) >? 32
      then Err (RpcError.new "INVALID_PARAMS" "command resources may contain at most 32 entries")
      else collect command_resource values
  end.
End locks.

(** ** Commands that need an approval *)

Definition dangerous (name : string) : bool :=
  bool_decide (name ∈ ["rm"; "sudo"; "su"; "dd"; "mkfs"]).

Definition command_requires_approval (input : Value) : bool :=
  from_option dangerous false
    (argv ← vget input "argv"; items ← as_array argv; first ← head items;
     path ← as_str first; FsPath.file_name path).

Section digests.
Context `{!Text, !Sha256}.

Definition sha256_bytes (data : string) : string := "sha256:" +:+ sha256_hex data.

Definition command_digest (input : Value) : outcome RpcError.t string :=
  cwd ← ok_or (RpcError.new "INVALID_PARAMS" "cwd is required") (vget input "cwd");
  argv ← ok_or (RpcError.new "INVALID_PARAMS" "argv is required") (vget input "argv");
  Ok (sha256_bytes (json_text (json_object [("cwd", cwd); ("argv", argv)]))).
End digests.

(** ** Leases and generations *)

Definition lease_order_rank (resource : string) : Z :=
  if Str.starts_with "workspace:" resource then 1
  else if Str.starts_with "runtime:" resource then 2
  else if Str.starts_with "acceptance:" resource || Str.starts_with "computer-use:" resource then 3
  else 0.

Definition map_lease_error (error : LeaseTable.LeaseError) : RpcError.t :=
  let code :=
    match error with
    | LeaseTable.Active _ _ => "LEASE_ACTIVE"
    | LeaseTable.NotFound => "LEASE_NOT_FOUND"
    | LeaseTable.OwnedByOther => "LEASE_OWNED_BY_OTHER"
    | LeaseTable.InvalidHandoff => "INVALID_HANDOFF"
    end in
  RpcError.new code (LeaseTable.to_string error).

Definition executor_execution_fence (now lease_fence : Z) : Z :=
  u64_saturating_add (u64_saturating_mul now (2 ^ 16)) (Z.min lease_fence 65535).

Definition generation_transition_allowed (from to : GenerationState.t) : bool :=
  bool_decide (from = to) ||
  match from, to with
  | GenerationState.Reserved, GenerationState.Materializing
  | GenerationState.Reserved, GenerationState.Failed
  | GenerationState.Materializing, GenerationState.Materialized
  | GenerationState.Materializing, GenerationState.Failed
  | GenerationState.Materialized, GenerationState.Validated
  | GenerationState.Materialized, GenerationState.Failed
  | GenerationState.Validated, GenerationState.Finalized
  | GenerationState.Validated, GenerationState.Failed
  | GenerationState.Finalized, GenerationState.SmokePassed
  | GenerationState.Finalized, GenerationState.Failed
  | GenerationState.SmokePassed, GenerationState.Active
  | GenerationState.SmokePassed, GenerationState.Failed
  | GenerationState.Active, GenerationState.Superseded => true
  | _, _ => false
  end.

(** ** Witnesses *)

Definition plain_text : Text := {| json_text _ := "?"; f64_text _ := "?" |}.

Lemma render_lock_terminates_witness :
  let input := json_object [("executor", VString "node-a"); ("port", VString "8080")] in
  exists o, (forall fuel, (3 <= fuel)%nat ->
    render_lock (H := plain_text) fuel "runtime:${executor}:${port}" input = o) /\
    o <> Panic /\ (forall key, o = Ok key -> Str.find "${" key = None).
Proof.
  intros input.
  refine (render_lock_terminates (H := plain_text) "runtime:${executor}:${port}" input _).
  intros key v Hv.
  change (obj_get [("executor", VString "node-a"); ("port", VString "8080")] key = Some v) in Hv.
  simpl in Hv. repeat case_decide; by simplify_eq.
Defined.
