(* ===== verification/Templates.v ===== *)
(** * Resource templates ([render_lock] of [crates/workbench-runtime/src/controller.rs],
      [render_authority_resource] of [crates/workbench-runtime/src/executor.rs])

    Controller and executor each render the templates of a contract with a loop
    that replaces the first placeholder of the text until none is left.  This
    file gives the templates the meaning they are read with, pieces of text and
    slots filled from the input, and shows that the loops compute it. *)

From Stdlib Require Import Ascii String.
From S2P Require Import Prelude RustStd Json Protocol Contracts.

(** ** The executor's loop *)

Section executor.
Context `{!Text}.

Fixpoint authority_loop (fuel : nat) (template rendered : string) (params : Value) :
    option (outcome RpcError.t string) :=
  match fuel with
  | O => None
  | S fuel' =>
      match Str.find "${" rendered with
      | None => Some (Ok rendered)
      | Some start =>
          match Str.find "}" (Str.drop (start + 2) rendered) with
          | None => Some (Err (RpcError.new "INVALID_LOCK_TEMPLATE" template))
          | Some relative_end =>
              let key := Str.take relative_end (Str.drop (start + 2) rendered) in
              match vget params key with
              | None =>
                  Some (Err (RpcError.new "EXECUTOR_AUTHORITY_MISMATCH"
                               ("capability lock requires " +:+ key)))
              | Some value =>
                  authority_loop fuel' template
                    (Str.take start rendered +:+ field_text value +:+
                     Str.drop (start + 2 + relative_end + 1) rendered) params
              end
          end
      end
  end.

Definition render_authority_resource (fuel : nat) (template : string) (params : Value) :
    outcome RpcError.t string :=
  default Panic (authority_loop fuel template template params).
End executor.

(** ** Pieces *)

Inductive piece :=
  | Lit (text : string)
  | Slot (key : string).
#[global] Instance piece_eq_dec : EqDecision piece.
Proof. solve_decision. Defined.

Definition spell_piece (p : piece) : string :=
  match p with Lit text => text | Slot key => "${" +:+ key +:+ "}" end.
Definition spell (ps : list piece) : string := foldr (fun p s => spell_piece p +:+ s) "" ps.

(** Literal text has no ["$"], a key no ["}"]. *)
Definition piece_ok (p : piece) : bool :=
  match p with
  | Lit text => bool_decide (Str.count_char "$" text = 0%nat)
  | Slot key => bool_decide (Str.find "}" key = None)
  end.
Definition pieces_ok (ps : list piece) : bool := forallb piece_ok ps.

(** The keys a template asks the input for. *)
Definition slots (ps : list piece) : list string :=
  omap (fun p => match p with Slot key => Some key | Lit _ => None end) ps.

(** Reading a template: [spell (pieces s) = s] holds by construction, and for a
    template of the catalog the pieces are well formed. *)
Fixpoint pieces_from (fuel : nat) (s : string) : list piece :=
  match fuel with
  | O => [Lit s]
  | S fuel' =>
      match Str.find "${" s with
      | None => [Lit s]
      | Some i =>
          match Str.find "}" (Str.drop (i + 2) s) with
          | None => [Lit s]
          | Some j =>
              Lit (Str.take i s) :: Slot (Str.take j (Str.drop (i + 2) s)) ::
              pieces_from fuel' (Str.drop (i + 2 + j + 1) s)
          end
      end
  end.
Definition pieces (s : string) : list piece := pieces_from (lock_fuel s) s.

Section meaning.
Context `{!Text}.

(** What a template means: the slots filled from the input, [Err key] for the
    first key the input does not have. *)
Fixpoint fill (ps : list piece) (input : Value) : outcome string string :=
  match ps with
  | [] => Ok ""
  | Lit text :: ps' => rest ← fill ps' input; Ok (text +:+ rest)
  | Slot key :: ps' =>
      match vget input key with
      | None => Err key
      | Some value => rest ← fill ps' input; Ok (field_text value +:+ rest)
      end
  end.

(** A key that is missing, in the words of either side. *)
Definition lock_requires (key : string) : RpcError.t :=
  RpcError.new "INVALID_LOCK_INPUT" ("lock requires input field " +:+ key).
Definition capability_requires (key : string) : RpcError.t :=
  RpcError.new "EXECUTOR_AUTHORITY_MISMATCH" ("capability lock requires " +:+ key).

(** ** Lemmas on text *)

Lemma find_at_slot pre rest :
  Str.count_char "$" pre = 0%nat -> Str.find "${" (pre +:+ "${" +:+ rest) = Some (String.length pre).
Proof.
  induction pre as [|c pre IH]; intros Hc; [done|].
  unfold Str.count_char in *. simpl in *. destruct (decide (c = "$"%char)) as [->|Hne]; [done|].
  rewrite decide_False by congruence. change (String.append pre ("${" +:+ rest)) with (pre +:+ "${" +:+ rest).
  by rewrite IH.
Qed.

Lemma find_none_plain s : Str.count_char "$" s = 0%nat -> Str.find "${" s = None.
Proof.
  induction s as [|c s IH]; intros Hc; [done|]. unfold Str.count_char in *. simpl in *.
  destruct (decide (c = "$"%char)) as [->|Hne]; [done|].
  rewrite decide_False by congruence. by rewrite IH.
Qed.

Lemma find_brace key rest :
  Str.find "}" key = None -> Str.find "}" (key +:+ "}" +:+ rest) = Some (String.length key).
Proof.
  induction key as [|c key IH]; intros Hc; [done|]. simpl in *. case_decide as E; [by destruct key|].
  change (String.append key ("}" +:+ rest)) with (key +:+ "}" +:+ rest).
  destruct (Str.find "}" key) eqn:E'; [done|]. by rewrite IH.
Qed.

Lemma take_app s t : Str.take (String.length s) (s +:+ t) = s.
Proof. induction s as [|c s IH]; [by destruct t|]. simpl. f_equal. exact IH. Qed.

Lemma drop_app s t n : Str.drop (String.length s + n) (s +:+ t) = Str.drop n t.
Proof. by induction s as [|c s IH]. Qed.

Lemma find_brace_take s j : Str.find "}" s = Some j -> Str.find "}" (Str.take j s) = None.
Proof.
  revert j. induction s as [|c s IH]; intros j; [done|]. simpl.
  case_decide as E; [by destruct s; intros [= <-]|].
  destruct (Str.find "}" s) as [i|] eqn:E'; [|done]. intros [= <-]. simpl.
  rewrite decide_False by done. by rewrite IH.
Qed.

End meaning.

(** ** The loops compute the meaning *)

Section loops.
Context `{!Text}.
Implicit Types missing : string -> RpcError.t.

(** Both loops, up to the error for a missing key. *)
Fixpoint slot_loop missing (fuel : nat) (template rendered : string) (input : Value) :
    option (outcome RpcError.t string) :=
  match fuel with
  | O => None
  | S fuel' =>
      match Str.find "${" rendered with
      | None => Some (Ok rendered)
      | Some start =>
          match Str.find "}" (Str.drop (start + 2) rendered) with
          | None => Some (Err (RpcError.new "INVALID_LOCK_TEMPLATE" template))
          | Some relative_end =>
              let key := Str.take relative_end (Str.drop (start + 2) rendered) in
              match vget input key with
              | None => Some (Err (missing key))
              | Some value =>
                  slot_loop missing fuel' template
                    (Str.take start rendered +:+ field_text value +:+
                     Str.drop (start + 2 + relative_end + 1) rendered) input
              end
          end
      end
  end.

Lemma render_loop_slots fuel template rendered input :
  render_loop fuel template rendered input = slot_loop lock_requires fuel template rendered input.
Proof.
  revert rendered. induction fuel as [|fuel IH]; intros rendered; [done|]. simpl.
  destruct (Str.find "${" rendered); [|done]. destruct (Str.find "}" _); [|done].
  destruct (vget input _); [|done]. apply IH.
Qed.

Lemma authority_loop_slots fuel template rendered params :
  authority_loop fuel template rendered params =
  slot_loop capability_requires fuel template rendered params.
Proof.
  revert rendered. induction fuel as [|fuel IH]; intros rendered; [done|]. simpl.
  destruct (Str.find "${" rendered); [|done]. destruct (Str.find "}" _); [|done].
  destruct (vget params _); [|done]. apply IH.
Qed.

(** The outcome of a rendering that starts with the text [pre]. *)
Definition filled missing (pre : string) (o : outcome string string) : outcome RpcError.t string :=
  match o with Ok s => Ok (pre +:+ s) | Err key => Err (missing key) | Panic => Panic end.

Lemma slot_turn missing fuel template pre key rest input :
  Str.count_char "$" pre = 0%nat -> Str.find "}" key = None ->
  slot_loop missing (S fuel) template (pre +:+ "${" +:+ key +:+ "}" +:+ rest) input =
  match vget input key with
  | None => Some (Err (missing key))
  | Some value => slot_loop missing fuel template ((pre +:+ field_text value) +:+ rest) input
  end.
Proof.
  intros Hpre Hkey. cbn [slot_loop]. rewrite find_at_slot by done.
  rewrite drop_app. change (Str.drop 2 ("${" +:+ ?s)) with s.
  rewrite find_brace, !take_app by done. destruct (vget input key) as [v|]; [|done].
  f_equal. rewrite <- Nat.add_assoc, <- Nat.add_assoc, drop_app.
  change (Str.drop (2 + ?n) ("${" +:+ ?s)) with (Str.drop n s).
  rewrite drop_app. change (Str.drop 1 ("}" +:+ ?s)) with s. by rewrite Str.app_assoc.
Qed.

(** The fields a template asks for bring no ["$"] into it. *)
Definition plain_at (ps : list piece) (input : Value) : Prop :=
  forall key v, key ∈ slots ps -> vget input key = Some v -> Str.count_char "$" (field_text v) = 0%nat.

Lemma fields_plain_at ps input : fields_plain input -> plain_at ps input.
Proof. intros Hplain key v _. apply Hplain. Qed.

Lemma slot_loop_fill missing template input ps pre fuel :
  pieces_ok ps = true -> plain_at ps input -> Str.count_char "$" pre = 0%nat ->
  (length (slots ps) < fuel)%nat ->
  slot_loop missing fuel template (pre +:+ spell ps) input = Some (filled missing pre (fill ps input)).
Proof.
  intros Hok. revert pre fuel. induction ps as [|p ps IH]; intros pre fuel Hplain Hpre Hf.
  - destruct fuel as [|fuel]; [simpl in Hf; lia|]. cbn [spell foldr fill filled].
    rewrite Str.app_nil_r. cbn [slot_loop]. by rewrite find_none_plain.
  - apply andb_true_iff in Hok as [Hp Hok]. specialize (IH Hok).
    destruct p as [text|key]; simpl in Hp; apply bool_decide_eq_true in Hp.
    + change (spell (Lit text :: ps)) with (text +:+ spell ps). rewrite <- Str.app_assoc, IH;
        [|done|by rewrite Str.count_char_app, Hpre, Hp|done].
      cbn [fill]. destruct (fill ps input) as [s|k|]; [|done..].
      cbn. by rewrite Str.app_assoc.
    + change (slots (Slot key :: ps)) with (key :: slots ps) in Hf. simpl in Hf.
      destruct fuel as [|fuel]; [lia|].
      replace (spell (Slot key :: ps)) with ("${" +:+ key +:+ "}" +:+ spell ps)
        by (cbn [spell foldr spell_piece]; by rewrite !Str.app_assoc).
      rewrite slot_turn by done. cbn [fill]. destruct (vget input key) as [v|] eqn:Hv; [|done].
      assert (plain_at ps input) as Hplain' by (intros k u Hk; apply Hplain; by right).
      rewrite IH; [|done| |lia].
      2:{ rewrite Str.count_char_app, Hpre. apply (Hplain key v); [by left|done]. }
      destruct (fill ps input) as [s|k|]; [|done..]. cbn. by rewrite Str.app_assoc.
Qed.
End loops.

(** ** Both sides read a template alike *)

Section theorems.
Context `{!Text}.

Lemma render_lock_fill ps input fuel :
  pieces_ok ps = true -> plain_at ps input -> (length (slots ps) < fuel)%nat ->
  render_lock fuel (spell ps) input = filled lock_requires "" (fill ps input).
Proof.
  intros Hok Hplain Hf. unfold render_lock. rewrite render_loop_slots.
  by rewrite (slot_loop_fill _ _ input ps "").
Qed.

Lemma render_authority_fill ps input fuel :
  pieces_ok ps = true -> plain_at ps input -> (length (slots ps) < fuel)%nat ->
  render_authority_resource fuel (spell ps) input = filled capability_requires "" (fill ps input).
Proof.
  intros Hok Hplain Hf. unfold render_authority_resource. rewrite authority_loop_slots.
  by rewrite (slot_loop_fill _ _ input ps "").
Qed.

Lemma fill_Ok ps input :
  (forall key, key ∈ slots ps -> is_Some (vget input key)) -> exists s, fill ps input = Ok s.
Proof.
  induction ps as [|[text|key] ps IH]; intros Hs; simpl; [by eexists| |].
  - destruct IH as [s ->]; [exact Hs|]. by eexists.
  - destruct (Hs key) as [v ->]; [by left|]. destruct IH as [s ->]; [|by eexists].
    intros k Hk. apply Hs. by right.
Qed.

(** A template means the substitution of its slots: when no field text of
    the input contains a ["$"], the controller's loop and the executor's loop
    both return the literal pieces of the template with every slot replaced by
    the field it names, or refuse the first slot the input has no field for.
    One turn per slot and one more suffice. *)
Theorem templates_mean_substitution ps input fuel :
  pieces_ok ps = true -> fields_plain input -> (length (slots ps) < fuel)%nat ->
  render_lock fuel (spell ps) input =
    match fill ps input with Ok s => Ok s | Err key => Err (lock_requires key) | Panic => Panic end /\
  render_authority_resource fuel (spell ps) input =
    match fill ps input with Ok s => Ok s | Err key => Err (capability_requires key) | Panic => Panic end /\
  fill ps input <> Panic.
Proof.
  intros Hok Hplain%(fields_plain_at ps) Hf. split; [by rewrite render_lock_fill|].
  split; [by rewrite render_authority_fill|]. clear. induction ps as [|[text|key] ps IH]; simpl; [done| |].
  - by destruct (fill ps input).
  - destruct (vget input key); [|done]. by destruct (fill ps input).
Qed.
End theorems.

(** ** Witnesses *)

Lemma templates_mean_substitution_witness :
  let input := json_object [("destination", VString "/srv/app")] in
  render_lock (H := plain_text) 2 (spell [Lit "artifact-relay:"; Slot "destination"]) input =
    Ok "artifact-relay:/srv/app" /\
  render_authority_resource (H := plain_text) 2 (spell [Lit "artifact-relay:"; Slot "destination"]) input =
    Ok "artifact-relay:/srv/app".
Proof.
  intros input.
  assert (fields_plain (H := plain_text) input) as Hplain.
  { intros key v Hv. change (obj_get [("destination", VString "/srv/app")] key = Some v) in Hv.
    simpl in Hv. case_decide; by simplify_eq. }
  destruct (templates_mean_substitution (H := plain_text) [Lit "artifact-relay:"; Slot "destination"]
              input 2 eq_refl Hplain ltac:(cbn; lia)) as (Hc & He & _).
  split; [exact Hc|exact He].
Defined.
