(* ===== verification/Evidence.v ===== *)
(** * What is kept of a task's evidence ([crates/workbench-runtime/src/controller.rs])

    Outputs can be large and inputs can carry whole inspection trees; before a
    state is written the controller replaces them by bounded summaries. *)

From Stdlib Require Import String.
From S2P Require Import Prelude RustStd Json Protocol Schema Store Tasks Contracts.

(** ** Native inspections *)

Definition menu_role (role : string) : bool :=
  bool_decide (role ∈ ["AXMenuBar"; "AXMenuBarItem"; "AXMenu"; "AXMenuItem"]).

(** The loop over the three text fields; it stops at the limit. *)
Fixpoint collect_texts (keys : list string) (value : Value) (names : list string) (limit : nat) :
    list string :=
  match keys with
  | [] => names
  | key :: keys' =>
      match str_param value key with
      | Some text =>
          let text := Str.trim text in
          if negb (Str.is_empty text) && negb (bool_decide (text ∈ names))
          then let names := names ++ [text] in
               if Nat.leb limit (length names) then names
               else collect_texts keys' value names limit
          else collect_texts keys' value names limit
      | None => collect_texts keys' value names limit
      end
  end.

(** [for child in children { f(child, names); if full { return } }] *)
Definition until_full (f : Value -> list string -> list string) (limit : nat) :
    list Value -> list string -> list string :=
  fix go children names :=
    match children with
    | [] => names
    | child :: children' =>
        let names := f child names in
        if Nat.leb limit (length names) then names else go children' names
    end.

Fixpoint collect_native_accessible_names (value : Value) (names : list string) (limit : nat) :
    list string :=
  if Nat.leb limit (length names) then names
  else if match str_param value "role" with Some role => menu_role role | None => false end then names
  else
    let names := collect_texts ["title"; "value"; "description"] value names limit in
    if Nat.leb limit (length names) then names
    else
      match value with
      | VObject o =>
          on_field (fun children =>
            match children with
            | VArray children =>
                until_full (fun child names => collect_native_accessible_names child names limit)
                  limit children names
            | _ => names
            end) names "children" o
      | _ => names
      end.

Definition field_or (d : Value) (v : Value) (key : string) : Value := default d (vget v key).

Definition retained_window (window : Value) : Value :=
  json_object
    [("role", field_or VNull window "role"); ("title", field_or VNull window "title");
     ("value", field_or VNull window "value"); ("description", field_or VNull window "description");
     ("accessibleNames", VArray (VString <$> collect_native_accessible_names window [] 128))].

Definition retained_process (process : Value) : Value :=
  json_object
    [("pid", field_or VNull process "pid");
     ("windows", VArray (retained_window <$> default [] (vget process "windows" ≫= as_array)))].

Definition retained_task_output (capability : string) (result : Value) : Value :=
  if negb (bool_decide (capability = "ui.native-inspect")) then result
  else
    let found := pointer result ["inspection"; "processes"] ≫= as_array in
    json_object
      [("applicationPath", field_or VNull result "applicationPath");
       ("pids", field_or (VArray []) result "pids");
       ("inspection", json_object
          [("accessibilityTrusted",
             default (VBool false) (pointer result ["inspection"; "accessibilityTrusted"]));
           ("processCount", vnat (from_option (fun l => Z.of_nat (length l)) 0 found));
           ("processes", VArray (retained_process <$> default [] found))]);
       ("inspectedAt", field_or VNull result "inspectedAt")].

(** ** Bounded outputs *)

Definition MAX_PERSISTED_TASK_OUTPUT_BYTES : Z := 256 * 1024.

Section bounded.
Context `{!Text, !Sha256}.

Definition summary_keys : list string :=
  ["id"; "path"; "destination"; "digest"; "size"; "encoding"; "truncated"; "nextOffset"].

Definition bounded_task_output (result : Value) : Value :=
  let encoded := json_text result in
  if Str.len encoded <=? MAX_PERSISTED_TASK_OUTPUT_BYTES then result
  else
    let summary :=
      foldl (fun summary key =>
               match vget result key with
               | Some value => obj_insert summary key value
               | None => summary
               end) [] summary_keys in
    let summary := obj_insert summary "_workbenchOutputOmitted" (VBool true) in
    let summary := obj_insert summary "originalBytes" (vnat (Str.len encoded)) in
    let summary := obj_insert summary "outputDigest" (VString (sha256_bytes encoded)) in
    VObject summary.

(** [task.output = new] *)
Definition with_output (task : Task.t) (output : option Value) : Task.t :=
  TaskTable.update task (Task.state task) output (Task.error task) (Task.attempt task)
    (Task.updated_at task) (Task.events task).

Definition compact_task_output (task : Task.t) : Task.t * bool :=
  match Task.output task with
  | Some output =>
      let specialized := retained_task_output (Task.capability task) output in
      let compact := bounded_task_output specialized in
      if negb (value_eq compact output) then (with_output task (Some compact), true)
      else (task, false)
  | None => (task, false)
  end.

Definition compact_task_outputs (tasks : list Task.t) : list Task.t * bool :=
  let results := compact_task_output <$> tasks in (results.*1, existsb snd results).
End bounded.

(** ** Compaction of stored evidence *)

(** The elements one by one, and whether any changed. *)
Definition visit {A} (f : A -> A * bool) : list A -> list A * bool :=
  fix go l :=
    match l with
    | [] => ([], false)
    | x :: l' => let '(x', c) := f x in let '(r, c') := go l' in (x' :: r, c || c')
    end.

(** The fields of an object without [nativeEvaluations]. *)
Definition visit_fields (f : Value -> Value * bool) :
    list (string * Value) -> list (string * Value) * bool :=
  fix go o :=
    match o with
    | [] => ([], false)
    | (k, child) :: o' =>
        let '(r, c') := go o' in
        if decide (k = "nativeEvaluations") then (r, c')
        else let '(child', c) := f child in ((k, child') :: r, c || c')
    end.

Fixpoint compact_value (value : Value) : Value * bool :=
  match value with
  | VObject object =>
      let '(rest, changed) := visit_fields compact_value object in
      match obj_get object "nativeEvaluations" with
      | Some evaluations =>
          let count := from_option (fun l => Z.of_nat (length l)) 0 (as_array evaluations) in
          (VObject (obj_insert rest "nativeObservationCount" (vnat count)), true)
      | None => (VObject rest, changed)
      end
  | VArray array => let '(array', changed) := visit compact_value array in (VArray array', changed)
  | _ => (value, false)
  end.

(** The same under an [Option], and inside a record. *)
Definition visit_option {A} (f : A -> A * bool) (o : option A) : option A * bool :=
  match o with Some x => let '(x', c) := f x in (Some x', c) | None => (None, false) end.

Definition compact_failure (e : TaskFailure.t) : TaskFailure.t * bool :=
  let '(details, c) := compact_value (TaskFailure.details e) in
  (TaskFailure.mk (TaskFailure.code e) (TaskFailure.message e) (TaskFailure.retryable e) details, c).

Definition compact_task (task : Task.t) : Task.t * bool :=
  let '(input, c1) := compact_value (Task.input task) in
  let '(output, c2) := visit_option compact_value (Task.output task) in
  let '(error, c3) := visit_option compact_failure (Task.error task) in
  ({| Task.id := Task.id task; Task.correlation_id := Task.correlation_id task;
      Task.request_id := Task.request_id task;
      Task.workspace_session_id := Task.workspace_session_id task;
      Task.executor_id := Task.executor_id task; Task.capability := Task.capability task;
      Task.input := input; Task.output := output; Task.error := error;
      Task.idempotency_key := Task.idempotency_key task; Task.state := Task.state task;
      Task.attempt := Task.attempt task; Task.created_at := Task.created_at task;
      Task.updated_at := Task.updated_at task; Task.events := Task.events task |},
   c1 || c2 || c3).

Definition compact_entry (e : TransactionJournalEntry.t) : TransactionJournalEntry.t * bool :=
  let '(details, c) := compact_value (TransactionJournalEntry.details e) in
  (TransactionJournalEntry.mk (TransactionJournalEntry.sequence e) (TransactionJournalEntry.step e)
     (TransactionJournalEntry.state e) (TransactionJournalEntry.attempt e)
     (TransactionJournalEntry.started_at e) (TransactionJournalEntry.finished_at e)
     (TransactionJournalEntry.input_digest e) (TransactionJournalEntry.output_digest e)
     (TransactionJournalEntry.executor_id e) (TransactionJournalEntry.fence e) details, c).

Definition compact_transaction (x : ActivationTransaction.t) : ActivationTransaction.t * bool :=
  let '(journal, c1) := visit compact_entry (ActivationTransaction.journal x) in
  let '(error, c2) := visit_option compact_failure (ActivationTransaction.error x) in
  (ActivationTransaction.mk (ActivationTransaction.id x) (ActivationTransaction.workspace_session_id x)
     (ActivationTransaction.idempotency_key x) (ActivationTransaction.target x)
     (ActivationTransaction.generation_id x) (ActivationTransaction.previous_generation_id x)
     (ActivationTransaction.state x) (ActivationTransaction.created_at x)
     (ActivationTransaction.updated_at x) (ActivationTransaction.completed_steps x) journal
     (ActivationTransaction.lease_fence x) (ActivationTransaction.evidence x) error, c1 || c2).

Definition compact_evidence (e : EvidenceResult.t) : EvidenceResult.t * bool :=
  let '(details, c) := compact_value (EvidenceResult.details e) in
  (EvidenceResult.mk (EvidenceResult.passed e) (EvidenceResult.checked_at e)
     (EvidenceResult.summary e) (EvidenceResult.artifacts e) details, c).

Definition compact_generation (g : Generation.t) : Generation.t * bool :=
  let '(validation, c1) := visit_option compact_evidence (Generation.validation g) in
  let '(finalization, c2) := visit_option compact_evidence (Generation.finalization g) in
  let '(smoke, c3) := visit_option compact_evidence (Generation.smoke g) in
  let '(failure, c4) := visit_option compact_failure (Generation.failure g) in
  (Generation.mk (Generation.id g) (Generation.workspace_session_id g) (Generation.application_type g)
     (Generation.root g) (Generation.state g) (Generation.baseline g)
     (Generation.applied_artifacts g) (Generation.digest g) (Generation.created_at g)
     (Generation.activated_at g) validation finalization smoke failure, c1 || c2 || c3 || c4).

Definition compact_handoff (h : Handoff.t) : Handoff.t * bool :=
  let '(evidence, c) := visit compact_value (Handoff.evidence h) in
  (Handoff.mk (Handoff.id h) (Handoff.kind h) (Handoff.workspace_session_id h) (Handoff.objective h)
     (Handoff.from h) (Handoff.to h) (Handoff.artifacts h) evidence (Handoff.completed_actions h)
     (Handoff.pending_actions h) (Handoff.acceptance_criteria h) (Handoff.constraints h)
     (Handoff.blockers h) (Handoff.created_at h) (Handoff.acknowledged_at h)
     (Handoff.completed_at h) (Handoff.report h), c).

Definition compact_agent (a : AgentInstance.t) : AgentInstance.t * bool :=
  let '(metadata, c) := compact_value (AgentInstance.metadata a) in
  (AgentInstance.mk (AgentInstance.id a) (AgentInstance.workspace_session_id a)
     (AgentInstance.executor_id a) (AgentInstance.role a) (AgentInstance.provider a)
     (AgentInstance.state a) metadata, c).

Definition compact_persisted_evidence `{!Text, !Sha256} (state : WorkbenchState.t) :
    WorkbenchState.t * bool :=
  let '(tasks, c0) := compact_task_outputs (WorkbenchState.tasks state) in
  let '(tasks, c1) := visit compact_task tasks in
  let '(transactions, c2) := visit compact_transaction (WorkbenchState.transactions state) in
  let '(generations, c3) := visit compact_generation (WorkbenchState.generations state) in
  let '(handoffs, c4) := visit compact_handoff (WorkbenchState.handoffs state) in
  let '(agents, c5) := visit compact_agent (WorkbenchState.agents state) in
  (WorkbenchState.with_tables (WorkbenchState.leases state) (WorkbenchState.lease_fences state) tasks
     (WorkbenchState.with_transactions transactions
        (WorkbenchState.with_generations generations
           (WorkbenchState.with_handoffs handoffs
              (WorkbenchState.with_agents agents state)))),
   c0 || c1 || c2 || c3 || c4 || c5).

(** ** Bounds *)


(** What the name collector maintains: distinct, non-empty, at most [limit]. *)
Definition names_ok (limit : nat) (names : list string) : Prop :=
  NoDup names /\ (length names <= limit)%nat /\ forall n, n ∈ names -> n <> EmptyString.

Local Ltac branch :=
  match goal with |- names_ok _ (if ?b then _ else _) => destruct b eqn:? end.

Lemma names_ok_push limit names text :
  names_ok limit names -> (length names < limit)%nat -> text <> EmptyString ->
  (text ∉ names) -> names_ok limit (names ++ [text]).
Proof.
  intros (Hnd & Hlen & Hne) Hlt Ht Hnin. split_and!.
  - apply NoDup_app. split; [done|]. split; [|apply NoDup_singleton].
    intros x Hx ->%list_elem_of_singleton. done.
  - rewrite length_app. simpl. lia.
  - intros n [?| ->%list_elem_of_singleton]%elem_of_app; auto.
Qed.

Lemma collect_texts_ok keys value names limit :
  names_ok limit names -> (length names < limit)%nat ->
  names_ok limit (collect_texts keys value names limit).
Proof.
  revert names. induction keys as [|key keys IH]; intros names Hok Hlt; simpl; [done|].
  destruct (str_param value key) as [text|]; [|by apply IH].
  destruct (negb _ && negb _) eqn:Hnew; [|by apply IH].
  apply andb_true_iff in Hnew as [He%negb_true_iff Hin%negb_true_iff].
  assert (names_ok limit (names ++ [Str.trim text])).
  { apply names_ok_push; [done..| |].
    - unfold Str.is_empty in He. by apply bool_decide_eq_false in He.
    - by apply bool_decide_eq_false in Hin. }
  destruct (Nat.leb limit _) eqn:Hfull; [done|]. apply Nat.leb_gt in Hfull. by apply IH.
Qed.

Lemma until_full_ok f limit children names :
  (forall child, child ∈ children -> forall names, names_ok limit names -> names_ok limit (f child names)) ->
  names_ok limit names -> names_ok limit (until_full f limit children names).
Proof.
  intros Hf. revert names. induction children as [|child children IH]; intros names Hok; simpl; [done|].
  assert (names_ok limit (f child names)) by (apply Hf; [by left|done]).
  destruct (Nat.leb limit _); [done|]. apply IH; [|done]. intros c Hc. apply Hf. by right.
Qed.

Lemma collect_names_step value names limit :
  names_ok limit names ->
  (forall o children child, value = VObject o -> obj_get o "children" = Some (VArray children) ->
     child ∈ children -> forall names, names_ok limit names ->
     names_ok limit (collect_native_accessible_names child names limit)) ->
  names_ok limit (collect_native_accessible_names value names limit).
Proof.
  intros Hok Hchildren.
  assert (Hlet : forall (b c : bool) l1 l2 l3, names_ok limit l1 -> names_ok limit l2 ->
    (b = false -> names_ok limit l3) ->
    names_ok limit (if b then l1 else if c then l2 else l3)).
  { intros [] []; auto. }
  destruct value as [| | | | |o]; cbn [collect_native_accessible_names]; apply Hlet; try done;
    intros Hfull%Nat.leb_gt; branch; try by apply collect_texts_ok.
  rewrite on_field_get.
  destruct (obj_get o "children") as [[| | | |children|]|] eqn:Hc; try by apply collect_texts_ok.
  apply until_full_ok; [|by apply collect_texts_ok]. intros child Hchild. by eapply Hchildren.
Qed.

(** However large an inspection tree is, the names kept of a window are
    pairwise distinct, non-empty, and no more than the limit. *)
Theorem accessible_names_bounded value limit :
  names_ok limit (collect_native_accessible_names value [] limit).
Proof.
  assert ((forall names, names_ok limit names ->
      names_ok limit (collect_native_accessible_names value names limit)) /\
    (forall vs v, value = VArray vs -> v ∈ vs -> forall names, names_ok limit names ->
      names_ok limit (collect_native_accessible_names v names limit))) as [Hok _].
  { induction value as [| | | |vs IH|o IH] using Value_rect_nested;
      (split; [intros names Hok; apply collect_names_step; [done|]|]); try done.
    - intros vs' v [= <-] Hv. rewrite Forall_forall in IH. apply (IH _ Hv).
    - intros o' children child [= <-] Hc Hchild. apply obj_get_Some in Hc.
      rewrite Forall_forall in IH. by apply (proj2 (IH _ Hc) children). }
  apply Hok. split_and!; [constructor|simpl; lia|]. intros n Hn. by apply not_elem_of_nil in Hn.
Qed.

(** *** Compaction is done once *)

Definition raw_key (k : string) : bool := bool_decide (k = "nativeEvaluations").
#[local] Arguments raw_key : simpl never.
Lemma raw_key_false k : raw_key k = false <-> k <> "nativeEvaluations".
Proof. apply bool_decide_eq_false. Qed.

(** No field of the value, at any depth, is a raw evaluation list. *)
Fixpoint compacted (value : Value) : bool :=
  match value with
  | VObject o => forallb (fun kv => negb (raw_key kv.1) && compacted kv.2) o
  | VArray vs => forallb compacted vs
  | _ => true
  end.

Lemma compacted_insert o k n :
  k <> "nativeEvaluations" -> compacted (VObject o) = true ->
  compacted (VObject (obj_insert o k (vnat n))) = true.
Proof.
  intros Hk%raw_key_false. induction o as [|[k' v] o IH]; simpl; [by rewrite Hk|].
  intros [[Hk' Hv]%andb_true_iff Ho]%andb_true_iff. case_decide as Heq; simpl.
  { by rewrite Hk. }
  destruct (String.leb k k'); simpl; [by rewrite Hk, Hk', Hv|].
  rewrite Hk', Hv. simpl. by apply IH.
Qed.

Lemma compact_value_compacted value : compacted (compact_value value).1 = true.
Proof.
  induction value as [| | | |vs IH|o IH] using Value_rect_nested; try done; cbn [compact_value].
  - assert (forallb compacted (visit compact_value vs).1 = true) as H.
    { induction IH as [|v vs Hv _ IHvs]; [done|]. cbn [visit].
      destruct (compact_value v), (visit compact_value vs). simpl in *. by rewrite Hv. }
    by destruct (visit compact_value vs).
  - assert (compacted (VObject (visit_fields compact_value o).1) = true) as H.
    { induction IH as [|[k v] o Hv _ IHo]; [done|]. cbn [visit_fields].
      destruct (visit_fields compact_value o). simpl in Hv. case_decide; [done|].
      destruct (compact_value v). simpl in *. by rewrite (proj2 (raw_key_false k)), Hv. }
    destruct (visit_fields compact_value o), (obj_get o "nativeEvaluations"); [|done].
    by apply compacted_insert.
Qed.

Lemma compact_value_id value : compacted value = true -> compact_value value = (value, false).
Proof.
  induction value as [| | | |vs IH|o IH] using Value_rect_nested; try done;
    cbn [compact_value compacted]; intros Hc.
  - assert (visit compact_value vs = (vs, false)) as ->; [|done].
    induction IH as [|v vs Hv _ IHvs]; [done|]. cbn [visit]. simpl in Hc.
    apply andb_true_iff in Hc as [Hcv Hc]. by rewrite Hv, IHvs.
  - assert (visit_fields compact_value o = (o, false) /\ obj_get o "nativeEvaluations" = None)
      as [-> ->]; [|done].
    induction IH as [|[k v] o Hv _ IHo]; [done|]. cbn [visit_fields obj_get]. simpl in Hc.
    apply andb_true_iff in Hc as [[Hk%negb_true_iff Hcv]%andb_true_iff Hc].
    apply raw_key_false in Hk. destruct (IHo Hc) as [-> ->].
    simpl in Hv. rewrite !decide_False by congruence. by rewrite Hv.
Qed.

(** Compaction leaves no raw evaluation list at any depth, and compacting
    again changes nothing and reports no change: a restart does not rewrite
    evidence an earlier start has compacted. *)
Theorem compact_value_idempotent value :
  let value' := (compact_value value).1 in
  compacted value' = true /\ compact_value value' = (value', false).
Proof. cbn zeta. split; [|apply compact_value_id]; apply compact_value_compacted. Qed.

(** *** What a start-up compaction changes *)

Lemma visit_fst {A} (f : A -> A * bool) l : (visit f l).1 = (fun x => (f x).1) <$> l.
Proof.
  induction l as [|x l IH]; [done|]. cbn [visit]. destruct (f x) as [x' c] eqn:Hx, (visit f l) as [r c'].
  cbn in *. by rewrite Hx, IH.
Qed.

(** Only generations, transactions, handoffs, agents and tasks are touched. *)
Lemma compact_persisted_records `{!Text, !Sha256} state :
  let state' := (compact_persisted_evidence state).1 in
  WorkbenchState.controller_id state' = WorkbenchState.controller_id state /\
  WorkbenchState.sessions state' = WorkbenchState.sessions state /\
  WorkbenchState.leases state' = WorkbenchState.leases state /\
  WorkbenchState.lease_fences state' = WorkbenchState.lease_fences state /\
  WorkbenchState.driver_handoff_requests state' = WorkbenchState.driver_handoff_requests state /\
  WorkbenchState.approvals state' = WorkbenchState.approvals state /\
  WorkbenchState.generations state' =
    (fun g => (compact_generation g).1) <$> WorkbenchState.generations state /\
  WorkbenchState.handoffs state' = (fun h => (compact_handoff h).1) <$> WorkbenchState.handoffs state.
Proof.
  unfold compact_persisted_evidence.
  rewrite <- (visit_fst compact_generation), <- (visit_fst compact_handoff).
  destruct (compact_task_outputs _) as [ts c0]. destruct (visit compact_task ts).
  destruct (visit compact_transaction _), (visit compact_generation _), (visit compact_handoff _),
    (visit compact_agent _). done.
Qed.

(** Compaction leaves everything but evidence alone. *)
Lemma compact_generation_fields g :
  Generation.id (compact_generation g).1 = Generation.id g /\
  Generation.workspace_session_id (compact_generation g).1 = Generation.workspace_session_id g /\
  Generation.root (compact_generation g).1 = Generation.root g /\
  Generation.baseline (compact_generation g).1 = Generation.baseline g /\
  Generation.state (compact_generation g).1 = Generation.state g.
Proof.
  unfold compact_generation. do 3 destruct (visit_option compact_evidence _).
  by destruct (visit_option compact_failure _).
Qed.

Lemma compact_handoff_fields h :
  Handoff.id (compact_handoff h).1 = Handoff.id h /\ Handoff.kind (compact_handoff h).1 = Handoff.kind h /\
  Handoff.workspace_session_id (compact_handoff h).1 = Handoff.workspace_session_id h /\
  Handoff.objective (compact_handoff h).1 = Handoff.objective h /\
  Handoff.created_at (compact_handoff h).1 = Handoff.created_at h /\
  Handoff.acknowledged_at (compact_handoff h).1 = Handoff.acknowledged_at h /\
  Handoff.completed_at (compact_handoff h).1 = Handoff.completed_at h /\
  Handoff.report (compact_handoff h).1 = Handoff.report h.
Proof. unfold compact_handoff. by destruct (visit compact_value _). Qed.
