(* ===== verification/Lifecycles.v ===== *)
(** * The lifecycles of the controller's records

    For each kind of record that lives in a vector of the state, the changes
    one request may make to it, as a preorder on records: what is fixed at
    creation, which way its state can move, and what is never forgotten. *)

From Stdlib Require Import String.
From S2P Require Import Prelude RustStd History Json Protocol Schema Contracts.

(** ** State machines *)

Definition approval_next (a b : ApprovalState.t) : Prop :=
  (a = ApprovalState.Pending /\ b = ApprovalState.Approved) \/
  (a = ApprovalState.Approved /\ b = ApprovalState.Consumed) \/
  b = ApprovalState.Revoked.

Definition generation_next (a b : GenerationState.t) : Prop :=
  generation_transition_allowed a b = true.

(** A driver handoff request that can still hand the driver over. *)
Definition handoff_open (s : DriverHandoffState.t) : bool :=
  match s with
  | DriverHandoffState.Requested | DriverHandoffState.Draining | DriverHandoffState.Ready => true
  | _ => false
  end.

Definition driver_next (a b : DriverHandoffState.t) : Prop :=
  (handoff_open a = true /\
   (b = DriverHandoffState.Ready \/ b = DriverHandoffState.Expired \/ b = DriverHandoffState.Cancelled)) \/
  (a = DriverHandoffState.Ready /\ b = DriverHandoffState.Completed).

(** ** Records *)

(** A session keeps its identifier and, once it has one, its home. *)
Definition session_step (s s' : WorkspaceSession.t) : Prop :=
  Metadata.id (WorkspaceSession.metadata s') = Metadata.id (WorkspaceSession.metadata s) /\
  forall a, WorkspaceSession.authority s = Some a -> WorkspaceSession.authority s' = Some a.

Definition generation_identity (g : Generation.t) : string * string * string * string :=
  (Generation.id g, Generation.workspace_session_id g, Generation.root g,
   BaselineIdentity.digest (Generation.baseline g)).

Definition generation_step (g g' : Generation.t) : Prop :=
  generation_identity g' = generation_identity g /\
  rtc generation_next (Generation.state g) (Generation.state g').

Definition approval_terms (a : Approval.t) : string * string * string * string * Z :=
  (Approval.id a, Approval.digest a, Approval.owner a, Approval.reason a, Approval.created_at a).

(** Once an approval has been used, the use stays on record. *)
Definition approval_step (a a' : Approval.t) : Prop :=
  approval_terms a' = approval_terms a /\
  rtc approval_next (Approval.state a) (Approval.state a') /\
  (is_Some (Approval.consumed_at a) -> is_Some (Approval.consumed_at a')).

Definition transaction_terms (x : ActivationTransaction.t) :
    string * string * string * string * string * Z * option Z :=
  (ActivationTransaction.id x, ActivationTransaction.workspace_session_id x,
   ActivationTransaction.idempotency_key x, ActivationTransaction.target x,
   ActivationTransaction.generation_id x, ActivationTransaction.created_at x,
   ActivationTransaction.lease_fence x).

(** The journal entries of one request: numbered on from the journal's end, and
    recorded under the transaction's fence when they name one. *)
Definition journal_extends (x x' : ActivationTransaction.t) : Prop :=
  exists es, ActivationTransaction.journal x' = ActivationTransaction.journal x ++ es /\
    (forall i e, es !! i = Some e ->
       TransactionJournalEntry.sequence e =
         Z.of_nat (length (ActivationTransaction.journal x)) + Z.of_nat i + 1 /\
       forall f f', ActivationTransaction.lease_fence x = Some f ->
         TransactionJournalEntry.fence e = Some f' -> f' = f).

Definition transaction_step (x x' : ActivationTransaction.t) : Prop :=
  transaction_terms x' = transaction_terms x /\
  journal_extends x x' /\
  ActivationTransaction.completed_steps x `prefix_of` ActivationTransaction.completed_steps x'.

Definition handoff_terms (h : Handoff.t) : string * HandoffKind.t * string * string * Z :=
  (Handoff.id h, Handoff.kind h, Handoff.workspace_session_id h, Handoff.objective h,
   Handoff.created_at h).

(** Acknowledged once, completed only after that, and an acceptance only with
    a report. *)
Definition handoff_step (h h' : Handoff.t) : Prop :=
  handoff_terms h' = handoff_terms h /\
  (forall t, Handoff.acknowledged_at h = Some t -> Handoff.acknowledged_at h' = Some t) /\
  (is_Some (Handoff.report h) -> is_Some (Handoff.report h')) /\
  (is_Some (Handoff.completed_at h) -> is_Some (Handoff.completed_at h')) /\
  (Handoff.completed_at h = None -> is_Some (Handoff.completed_at h') ->
     is_Some (Handoff.acknowledged_at h') /\
     (Handoff.kind h' = HandoffKind.Acceptance -> is_Some (Handoff.report h'))).

Definition request_terms (r : DriverHandoffRequest.t) : string * string * string * string * option string * Z * Z :=
  (DriverHandoffRequest.id r, DriverHandoffRequest.workspace_session_id r,
   DriverHandoffRequest.resource r, DriverHandoffRequest.requested_by r,
   DriverHandoffRequest.previous_owner r, DriverHandoffRequest.created_at r,
   DriverHandoffRequest.expires_at r).

Definition request_step (r r' : DriverHandoffRequest.t) : Prop :=
  request_terms r' = request_terms r /\
  rtc driver_next (DriverHandoffRequest.state r) (DriverHandoffRequest.state r').

(** An agent keeps its identifier only: [agent.put] overwrites the rest. *)
Definition agent_step (a a' : AgentInstance.t) : Prop := AgentInstance.id a' = AgentInstance.id a.

(** ** They are preorders *)

#[global] Instance session_step_preorder : PreOrder session_step.
Proof.
  split; [by intros s|]. intros s1 s2 s3 [Hi Ha] [Hi' Ha']. split; [by rewrite Hi', Hi|].
  intros a ?. by apply Ha', Ha.
Qed.
#[global] Instance generation_step_preorder : PreOrder generation_step.
Proof.
  split; [by intros g|]. intros g1 g2 g3 [Hi Hs] [Hi' Hs'].
  split; [by rewrite Hi', Hi|by etrans].
Qed.
#[global] Instance approval_step_preorder : PreOrder approval_step.
Proof.
  split; [by intros a|]. intros a1 a2 a3 (Hi & Hs & Hc) (Hi' & Hs' & Hc').
  split; [by rewrite Hi', Hi|]. split; [by etrans|]. intros ?. by apply Hc', Hc.
Qed.
#[global] Instance journal_extends_refl : Reflexive journal_extends.
Proof. intros x. exists []. by rewrite app_nil_r. Qed.

Lemma journal_extends_trans x y z :
  ActivationTransaction.lease_fence y = ActivationTransaction.lease_fence x ->
  journal_extends x y -> journal_extends y z -> journal_extends x z.
Proof.
  intros Hf (es & He & Hes) (fs & Hf' & Hfs). exists (es ++ fs).
  split; [by rewrite Hf', He, <- app_assoc|]. intros i e Hi.
  destruct (decide (i < length es)%nat) as [Hlt|Hge].
  - rewrite lookup_app_l in Hi by done. by apply Hes.
  - rewrite lookup_app_r in Hi by lia. destruct (Hfs _ _ Hi) as [Hseq Hfence]. split.
    + rewrite Hseq, He, length_app. lia.
    + rewrite <- Hf. exact Hfence.
Qed.

#[global] Instance transaction_step_preorder : PreOrder transaction_step.
Proof.
  split; [by intros x; split; [|split]|]. intros x y z (Ht & Hj & Hc) (Ht' & Hj' & Hc').
  split; [by rewrite Ht', Ht|]. split; [|by etrans].
  eapply journal_extends_trans; [|done|done]. unfold transaction_terms in Ht. congruence.
Qed.
#[global] Instance handoff_step_preorder : PreOrder handoff_step.
Proof.
  split.
  - intros h. split_and!; try done. by intros -> [].
  - intros h1 h2 h3 (Ht & Ha & Hr & Hc & Hn) (Ht' & Ha' & Hr' & Hc' & Hn').
    split_and!; [by rewrite Ht', Ht|auto..|]. intros H1 H3.
    destruct (Handoff.completed_at h2) as [t|] eqn:H2; [|by apply Hn'].
    destruct (Hn H1 ltac:(done)) as [[a Hack] Hrep]. split; [eexists; by apply Ha'|].
    intros Hk. apply Hr', Hrep. unfold handoff_terms in Ht'. congruence.
Qed.
#[global] Instance request_step_preorder : PreOrder request_step.
Proof.
  split; [by intros r|]. intros r1 r2 r3 [Hi Hs] [Hi' Hs'].
  split; [by rewrite Hi', Hi|by etrans].
Qed.
#[global] Instance agent_step_preorder : PreOrder agent_step.
Proof. unfold agent_step. split; [by intros a|]. intros a b c ? ?. congruence. Qed.

(** ** Where the state machines end *)

Definition approval_spent (s : ApprovalState.t) : Prop :=
  s = ApprovalState.Consumed \/ s = ApprovalState.Revoked \/ s = ApprovalState.Expired.

Lemma approval_spent_final a b : rtc approval_next a b -> approval_spent a -> approval_spent b.
Proof.
  unfold approval_spent, approval_next.
  induction 1 as [|a b c Hab _ IH]; [done|]. intros H. apply IH.
  destruct Hab as [[-> _]|[[-> _]| ->]]; [by destruct H as [|[]]..|auto].
Qed.

Lemma driver_closed_final a b : rtc driver_next a b -> handoff_open a = false -> b = a.
Proof.
  induction 1 as [|a b c Hab _ IH]; [done|]. intros Ha. unfold driver_next in Hab.
  destruct Hab as [[? _]|[-> _]]; [congruence|done].
Qed.

(** Rank of a generation state along the pipeline; failure and supersession end it. *)
Definition generation_rank (s : GenerationState.t) : Z :=
  match s with
  | GenerationState.Reserved => 0 | GenerationState.Materializing => 1
  | GenerationState.Materialized => 2 | GenerationState.Validated => 3
  | GenerationState.Finalized => 4 | GenerationState.SmokePassed => 5
  | GenerationState.Active => 6 | GenerationState.Superseded => 7 | GenerationState.Failed => 7
  end.

Lemma generation_next_rank a b :
  generation_next a b -> a = b \/ generation_rank a < generation_rank b.
Proof.
  unfold generation_next, generation_transition_allowed. intros [?%bool_decide_eq_true|Hm]%orb_true_iff;
    [by left|right]. by destruct a, b.
Qed.

Lemma generation_rtc_rank a b :
  rtc generation_next a b -> a = b \/ generation_rank a < generation_rank b.
Proof.
  induction 1 as [|a b c Hab%generation_next_rank _ IH]; [by left|].
  destruct Hab as [->|], IH as [->|]; auto. right. lia.
Qed.
