(* ===== verification/Controller.v ===== *)
(** * The controller's state and its primitives ([crates/workbench-runtime/src/controller.rs])

    A handler is a function of the monad [M] over the record [t]: the stored
    state, the two tables, what is kept in memory only, the state file, and a
    ghost log of the requests sent to other nodes, from which what was asked and
    what came back can be read.  Handlers run one at a time;
    the locks of the source are taken and released inside one handler. *)

From Stdlib Require Import Ascii String.
From S2P Require Import Prelude RustStd History Json Protocol Schema Store Leases Tasks.
From S2P Require Import Contracts Evidence Lifecycles.

(** ** Code outside the repository *)

(** A derived [Serialize]/[Deserialize] pair. *)
Class Serde (A : Type) := {
  to_value : A -> Value;
  from_value : Value -> outcome string A;
}.

(** Everything the controller takes from its dependencies and its environment:
    SHA-256, [serde_json]'s text, the derived codecs, the transport (one answer
    per request it is asked to carry: an error text or a response), the
    environment variables, the text of an I/O error. *)
Class Platform := {
  platform_sha256 :: Sha256;
  platform_text :: Text;
  platform_task_encoding :: TaskTable.TaskEncoding;
  session_serde :: Serde WorkspaceSession.t;
  session_state_serde :: Serde SessionState.t;
  artifact_serde :: Serde Artifact.t;
  generation_serde :: Serde Generation.t;
  agent_serde :: Serde AgentInstance.t;
  agent_state_serde :: Serde AgentState.t;
  executor_serde :: Serde Executor.t;
  peer_serde :: Serde ControllerPeer.t;
  endpoint_serde :: Serde ExecutorEndpoint.t;
  capabilities_serde :: Serde (list CapabilityDescriptor.t);
  strings_serde :: Serde (list string);
  approval_serde :: Serde Approval.t;
  read_grant_serde :: Serde ReadGrant.t;
  lease_serde :: Serde Lease.t;
  request_serde :: Serde DriverHandoffRequest.t;
  mutation_serde :: Serde AgentMutationOperation.t;
  task_serde :: Serde Task.t;
  task_state_serde :: Serde TaskState.t;
  task_event_serde :: Serde TaskEvent.t;
  transaction_serde :: Serde ActivationTransaction.t;
  step_state_serde :: Serde TransactionStepState.t;
  handoff_serde :: Serde Handoff.t;
  rpc_error_serde :: Serde RpcError.t;
  call_executor : nat -> ExecutorEndpoint.t -> Request.t -> string + Response.t;
  call_executor_with_timeout :
    nat -> ExecutorEndpoint.t -> Request.t -> Z -> string + Response.t;
  env_u64 : string -> option Z;
  io_error : string;
}.

Module OperatorGrant.
Record t := mk { operator_id : string; token_digest : string; expires_at : Z }.
End OperatorGrant.

Module OperatorNonce.
Record t := mk {
  operator_id : string; action : string; target : string; reason : string; expires_at : Z }.
End OperatorNonce.

Module TraceContext.
Record t := mk {
  correlation_id : string;
  request_id : string;
  run_id : option string;
  span_id : option string;
  agent_session_id : option string;
}.
End TraceContext.

Module Controller.

Record t := mk {
  id : string;
  disk : option WorkbenchState.t;       (* what the state file holds *)
  state : WorkbenchState.t;
  leases : LeaseTable.t;
  tasks : TaskTable.t;
  operator_grants : gmap string OperatorGrant.t;
  operator_nonces : gmap string OperatorNonce.t;
  async_active : Z;
  async_maximum : Z;
  async_resume_tokens : gmap string string;
  trace : option TraceContext.t;        (* [CURRENT_TRACE] *)
  sent : list (ExecutorEndpoint.t * Request.t);
  workers : list Request.t;             (* requests of the threads spawned and not yet run *)
}.

Definition set_disk v c := mk (id c) v (state c) (leases c) (tasks c) (operator_grants c)
  (operator_nonces c) (async_active c) (async_maximum c) (async_resume_tokens c) (trace c) (sent c) (workers c).
Definition set_state v c := mk (id c) (disk c) v (leases c) (tasks c) (operator_grants c)
  (operator_nonces c) (async_active c) (async_maximum c) (async_resume_tokens c) (trace c) (sent c) (workers c).
Definition set_leases v c := mk (id c) (disk c) (state c) v (tasks c) (operator_grants c)
  (operator_nonces c) (async_active c) (async_maximum c) (async_resume_tokens c) (trace c) (sent c) (workers c).
Definition set_tasks v c := mk (id c) (disk c) (state c) (leases c) v (operator_grants c)
  (operator_nonces c) (async_active c) (async_maximum c) (async_resume_tokens c) (trace c) (sent c) (workers c).
Definition set_operator_grants v c := mk (id c) (disk c) (state c) (leases c) (tasks c) v
  (operator_nonces c) (async_active c) (async_maximum c) (async_resume_tokens c) (trace c) (sent c) (workers c).
Definition set_operator_nonces v c := mk (id c) (disk c) (state c) (leases c) (tasks c)
  (operator_grants c) v (async_active c) (async_maximum c) (async_resume_tokens c) (trace c) (sent c) (workers c).
Definition set_async_active v c := mk (id c) (disk c) (state c) (leases c) (tasks c)
  (operator_grants c) (operator_nonces c) v (async_maximum c) (async_resume_tokens c) (trace c) (sent c) (workers c).
Definition set_resume_tokens v c := mk (id c) (disk c) (state c) (leases c) (tasks c)
  (operator_grants c) (operator_nonces c) (async_active c) (async_maximum c) v (trace c) (sent c) (workers c).
Definition set_trace v c := mk (id c) (disk c) (state c) (leases c) (tasks c)
  (operator_grants c) (operator_nonces c) (async_active c) (async_maximum c) (async_resume_tokens c) v (sent c) (workers c).
Definition set_sent v c := mk (id c) (disk c) (state c) (leases c) (tasks c)
  (operator_grants c) (operator_nonces c) (async_active c) (async_maximum c) (async_resume_tokens c) (trace c) v (workers c).
Definition set_workers v c := mk (id c) (disk c) (state c) (leases c) (tasks c)
  (operator_grants c) (operator_nonces c) (async_active c) (async_maximum c) (async_resume_tokens c) (trace c) (sent c) v.

Abbreviation handler A := (M t RpcError.t A).

Abbreviation modify_state f := (modify (fun c => set_state (f (state c)) c)).

(** A method of the lease table, with its error mapped. *)
Definition lease_op {A} (f : LeaseTable.t -> outcome LeaseTable.LeaseError A * LeaseTable.t) : handler A :=
  fun c w => let '(r, T) := f (leases c) in (map_err map_lease_error r, set_leases T c, w).

(** A method of the task table; [f] maps its error. *)
Definition task_op {A} (map : TaskTable.TaskError -> RpcError.t)
    (f : TaskTable.t -> outcome TaskTable.TaskError A * TaskTable.t) : handler A :=
  fun c w => let '(r, T) := f (tasks c) in (map_err map r, set_tasks T c, w).

Section primitives.
Context {P : Platform}.

Definition acquire kind resource owner ttl_ms : handler Lease.t :=
  n ← now; u1 ← fresh_uuid; u2 ← fresh_uuid;
  lease_op (LeaseTable.acquire n u1 u2 kind resource owner ttl_ms).
Definition validate resource owner token : handler Lease.t :=
  n ← now; lease_op (fun T => (LeaseTable.validate n resource owner token T, T)).
Definition renew resource owner token ttl_ms : handler Lease.t :=
  n1 ← now; n2 ← now; lease_op (LeaseTable.renew n1 n2 resource owner token ttl_ms).
Definition handoff resource owner token target : handler Lease.t :=
  n1 ← now; n2 ← now; lease_op (LeaseTable.handoff n1 n2 resource owner token target).
Definition request_handoff resource target : handler Lease.t :=
  n1 ← now; n2 ← now; lease_op (LeaseTable.request_handoff n1 n2 resource target).
Definition cancel_handoff resource target : handler Lease.t :=
  n ← now; lease_op (LeaseTable.cancel_handoff n resource target).
Definition take_handoff resource target ttl_ms : handler Lease.t :=
  n ← now; u ← fresh_uuid; lease_op (LeaseTable.take_handoff n u resource target ttl_ms).
Definition release resource owner token : handler Lease.t :=
  n ← now; lease_op (LeaseTable.release n resource owner token).

(** [Debug] of a task state, and [Display] of a task error. *)
Definition debug_state (s : TaskState.t) : string :=
  match s with
  | TaskState.Queued => "Queued" | TaskState.Running => "Running"
  | TaskState.CancelRequested => "CancelRequested" | TaskState.Cancelling => "Cancelling"
  | TaskState.Succeeded => "Succeeded" | TaskState.Failed => "Failed"
  | TaskState.Cancelled => "Cancelled" | TaskState.FailedToCancel => "FailedToCancel"
  | TaskState.TimedOut => "TimedOut" | TaskState.OutcomeUnknown => "OutcomeUnknown"
  end.
Definition task_error_text (e : TaskTable.TaskError) : string :=
  match e with
  | TaskTable.NotFound => "task not found"
  | TaskTable.InvalidTransition from to =>
      "invalid transition from " +:+ debug_state from +:+ " to " +:+ debug_state to
  end.
Definition invalid_task_state (e : TaskTable.TaskError) : RpcError.t :=
  RpcError.new "INVALID_TASK_STATE" (task_error_text e).

Definition transition task_id (to : TaskState.t) output error : handler Task.t :=
  n1 ← now; n2 ← now;
  task_op invalid_task_state (TaskTable.transition n1 n2 task_id to output error).
Definition retry (map : TaskTable.TaskError -> RpcError.t) task_id : handler Task.t :=
  n1 ← now; n2 ← now; task_op map (TaskTable.retry n1 n2 task_id).
Definition submit_traced session executor capability input key correlation request :
    handler (Task.t * bool) :=
  n1 ← now; n2 ← now; u ← fresh_uuid;
  task_op invalid_task_state
    (TaskTable.submit_traced n1 n2 u session executor capability input key correlation request).

(** [let _ = m;]: the error is dropped, what [m] did is not. *)
Definition ignore_error {A} (m : handler A) : handler unit := fun c w =>
  match m c w with
  | (Panic, c', w') => (Panic, c', w')
  | (_, c', w') => (Ok tt, c', w')
  end.

(** A result as a value: [match m { Ok(..) => .., Err(..) => .. }]. *)
Definition attempt {A} (m : handler A) : handler (RpcError.t + A) := fun c w =>
  match m c w with
  | (Ok a, c', w') => (Ok (inr a), c', w')
  | (Err e, c', w') => (Ok (inl e), c', w')
  | (Panic, c', w') => (Panic, c', w')
  end.

(** [value[key] = new]: a panic unless the value is an object or null. *)
Definition set_field (v : Value) (key : string) (new : Value) : handler Value :=
  lift (expect (vset v key new)).

Definition configured_u64 (name : string) (default_value : Z) : Z := default default_value (env_u64 name).

Definition prune_task_retention (n : Z) (T : TaskTable.t) : list Task.t * TaskTable.t :=
  TaskTable.prune_retention n
    (configured_u64 "WORKBENCH_TASK_RETENTION_MS" (7 * 24 * 60 * 60 * 1000))
    (configured_u64 "WORKBENCH_TASK_MAX_COUNT" 5000)
    (configured_u64 "WORKBENCH_TASK_MAX_BYTES" (128 * 1024 * 1024)) T.

(** The tables as they are written: the state's own copies. *)
Definition snapshot_tables (leases : LeaseTable.t) (tasks : TaskTable.t) (state : WorkbenchState.t) :
    WorkbenchState.t :=
  WorkbenchState.with_tables (LeaseTable.persistence_snapshot leases)
    (LeaseTable.fence_snapshot leases)
    (compact_task_outputs (TaskTable.persistence_snapshot tasks)).1 state.

Definition persist : handler unit :=
  n ← now;
  modify (fun c => set_tasks (prune_task_retention n (tasks c)).2 c) ;;
  modify (fun c => set_state (snapshot_tables (leases c) (tasks c) (state c)) c) ;;
  ok ← write_ok;
  if (ok : bool) then modify (fun c => set_disk (Some (state c)) c)
  else throw (RpcError.new "STATE_WRITE_FAILED" ("state IO error: " +:+ io_error)).

(** ** Requests to other nodes *)

Definition traced_request (action : string) (params : Value) : handler Request.t :=
  u ← fresh_uuid;
  c ← get;
  let request := Request.new u action params in
  mret match trace c with
       | Some trace =>
           {| Request.api_version := Request.api_version request;
              Request.request_id := Request.request_id request;
              Request.correlation_id := Some (TraceContext.correlation_id trace);
              Request.parent_request_id := Some (TraceContext.request_id trace);
              Request.run_id := TraceContext.run_id trace;
              Request.span_id := Request.span_id request;
              Request.parent_span_id := TraceContext.span_id trace;
              Request.agent_session_id := TraceContext.agent_session_id trace;
              Request.action := Request.action request;
              Request.params := Request.params request |}
       | None => request
       end.

Definition current_trace : handler (option string * option string) :=
  c ← get;
  mret match trace c with
       | Some trace => (Some (TraceContext.correlation_id trace), Some (TraceContext.request_id trace))
       | None => (None, None)
       end.

(** [call_executor(&endpoint, &request)], logged. *)
Definition send (endpoint : ExecutorEndpoint.t) (request : Request.t) : handler (string + Response.t) :=
  c ← get;
  modify (fun c => set_sent (sent c ++ [(endpoint, request)]) c) ;;
  mret (call_executor (length (sent c)) endpoint request).

Definition send_with_timeout (endpoint : ExecutorEndpoint.t) (request : Request.t) (timeout_ms : Z) :
    handler (string + Response.t) :=
  c ← get;
  modify (fun c => set_sent (sent c ++ [(endpoint, request)]) c) ;;
  mret (call_executor_with_timeout (length (sent c)) endpoint request timeout_ms).

(** What came back to the requests [l] that were sent after those of [c]. *)
Definition answers_to (c : t) (l : list (ExecutorEndpoint.t * Request.t)) : list (string + Response.t) :=
  imap (fun i m => call_executor (length (sent c) + i)%nat m.1 m.2) l.

(** [rpc.retryable = true] *)
Definition retryable_error (code message : string) : RpcError.t :=
  RpcError.mk code message true VNull.

(** [if response.ok { Ok(result or null) } else { Err(error or failed) }] *)
Definition answer_of (failed : RpcError.t) (response : Response.t) : outcome RpcError.t Value :=
  if Response.ok response then Ok (default VNull (Response.result response))
  else Err (default failed (Response.error response)).

Definition call_endpoint (endpoint : ExecutorEndpoint.t) (action : string) (params : Value)
    (unavailable : string -> RpcError.t) (failed : RpcError.t) : handler Value :=
  request ← traced_request action params;
  response ← send endpoint request;
  match response with
  | inl error => throw (unavailable error)
  | inr response => lift (answer_of failed response)
  end.

Definition executor_is (executor_id : string) (e : Executor.t) : bool :=
  bool_decide (Metadata.id (Executor.metadata e) = executor_id).

Definition find_executor (not_found : RpcError.t) (executor_id : string) : handler Executor.t :=
  c ← get;
  lift (ok_or not_found (bfind (executor_is executor_id) (WorkbenchState.executors (state c)))).

Definition unknown_executor (executor_id : string) : RpcError.t :=
  RpcError.new "EXECUTOR_NOT_FOUND" ("unknown executor: " +:+ executor_id).
Definition executor_failed : RpcError.t := RpcError.new "EXECUTOR_FAILED" "executor failed".

Definition call_registered_executor (executor_id action : string) (params : Value) : handler Value :=
  executor ← find_executor (unknown_executor executor_id) executor_id;
  call_endpoint (Executor.endpoint executor) action params
    (retryable_error "EXECUTOR_UNAVAILABLE") executor_failed.

(** ** Names *)

Definition session_scope (session : string) : handler string :=
  c ← get; mret (json_text (VArray [VString (id c); VString session])).

Definition resource_owner (owner : string) : handler string :=
  c ← get; mret (json_text (VArray [VString (id c); VString owner])).

(** Keeps the last of the longest identifiers ([max_by_key]). *)
Definition longest (acc : option Executor.t) (e : Executor.t) : option Executor.t :=
  match acc with
  | Some best =>
      if Str.len (Metadata.id (Executor.metadata e)) <? Str.len (Metadata.id (Executor.metadata best))
      then Some best else Some e
  | None => Some e
  end.

Definition names_executor (tail : string) (e : Executor.t) : bool :=
  let eid := Metadata.id (Executor.metadata e) in
  bool_decide (tail = eid)
  || match Str.strip_prefix eid tail with Some rest => Str.starts_with ":" rest | None => false end.

Definition resource_kind (kind : string) : bool :=
  bool_decide (kind ∈ ["tunnel"; "runtime"; "acceptance"; "clipboard"; "port"]).

Definition resource_executor (params : Value) (executors : list Executor.t) : option string :=
  match str_param params "executorId" with
  | Some id => Some id
  | None =>
      resource ← str_param params "resource";
      '(kind, tail) ← Str.split_once ":"%char resource;
      if resource_kind kind
      then (fun e => Metadata.id (Executor.metadata e)) <$>
             foldl longest None (bfilter (names_executor tail) executors)
      else None
  end.

(** [observe_task_state] reads the clock; the observation store is not modelled. *)
Definition observe_task_state (task : Task.t) : handler unit := _ ← now; mret tt.

Definition ttl_ms (params : Value) : Z := default 300000 (u64_param params "ttlMs").

(** [serde_json::to_value] of a vector. *)
Definition list_value {A} `{!Serde A} (l : list A) : Value := VArray (to_value <$> l).

Definition invalid_params {A} (o : outcome string A) : outcome RpcError.t A :=
  map_err (RpcError.new "INVALID_PARAMS") o.
End primitives.

(** ** Histories

    What every request, whatever its outcome, leaves of the controller before
    it: the records have moved along their lifecycles, the two tables have
    moved by their own operations, and the log of sent requests has grown. *)

Section later.
Context {P : Platform}.

Definition replay (ops : list TaskTable.op) (T : TaskTable.t) : TaskTable.t :=
  foldl (fun T o => TaskTable.apply o T) T ops.

Record later (c c' : t) : Prop := {
  later_id : id c' = id c;
  later_controller_id :
    WorkbenchState.controller_id (state c') = WorkbenchState.controller_id (state c);
  later_sessions : evolves session_step (WorkbenchState.sessions (state c)) (WorkbenchState.sessions (state c'));
  later_generations :
    evolves generation_step (WorkbenchState.generations (state c)) (WorkbenchState.generations (state c'));
  later_transactions :
    evolves transaction_step (WorkbenchState.transactions (state c)) (WorkbenchState.transactions (state c'));
  later_agents : evolves agent_step (WorkbenchState.agents (state c)) (WorkbenchState.agents (state c'));
  later_handoffs : evolves handoff_step (WorkbenchState.handoffs (state c)) (WorkbenchState.handoffs (state c'));
  later_requests :
    evolves request_step (WorkbenchState.driver_handoff_requests (state c))
      (WorkbenchState.driver_handoff_requests (state c'));
  later_approvals :
    evolves approval_step (WorkbenchState.approvals (state c)) (WorkbenchState.approvals (state c'));
  later_leases : exists ops, (LeaseTable.run ops (leases c)).2 = leases c';
  later_tasks : exists ops, replay ops (tasks c) = tasks c';
  later_sent : sent c `prefix_of` sent c';
}.

Lemma run_app ops1 ops2 T :
  (LeaseTable.run (ops1 ++ ops2) T).2 = (LeaseTable.run ops2 (LeaseTable.run ops1 T).2).2.
Proof.
  revert T. induction ops1 as [|o ops1 IH]; intros T; simpl; [done|].
  destruct (LeaseTable.apply o T) as [g T']. specialize (IH T').
  destruct (LeaseTable.run (ops1 ++ ops2) T'), (LeaseTable.run ops1 T'). exact IH.
Qed.

#[global] Instance later_preorder : PreOrder later.
Proof.
  split.
  - intros c. split; try done; [by exists []|by exists []].
  - intros c1 c2 c3 H1 H2. destruct H1, H2. split; try (by etrans); try congruence.
    + destruct later_leases0 as [o1 Ho1], later_leases1 as [o2 Ho2]. exists (o1 ++ o2).
      by rewrite run_app, Ho1.
    + destruct later_tasks0 as [o1 Ho1], later_tasks1 as [o2 Ho2]. exists (o1 ++ o2).
      unfold replay in *. by rewrite foldl_app, Ho1.
Qed.

(** The records of the state, up to the fields [later] does not follow. *)
Definition same_records (s s' : WorkbenchState.t) : Prop :=
  WorkbenchState.controller_id s' = WorkbenchState.controller_id s /\
  WorkbenchState.sessions s' = WorkbenchState.sessions s /\
  WorkbenchState.generations s' = WorkbenchState.generations s /\
  WorkbenchState.transactions s' = WorkbenchState.transactions s /\
  WorkbenchState.agents s' = WorkbenchState.agents s /\
  WorkbenchState.handoffs s' = WorkbenchState.handoffs s /\
  WorkbenchState.driver_handoff_requests s' = WorkbenchState.driver_handoff_requests s /\
  WorkbenchState.approvals s' = WorkbenchState.approvals s.

Lemma later_same c c' :
  id c' = id c -> same_records (state c) (state c') -> leases c' = leases c -> tasks c' = tasks c ->
  sent c `prefix_of` sent c' -> later c c'.
Proof.
  intros Hid (H0 & H1 & H2 & H3 & H4 & H5 & H6 & H7) Hl Ht Hs.
  split; rewrite ?H0, ?H1, ?H2, ?H3, ?H4, ?H5, ?H6, ?H7, ?Hl, ?Ht; try done; [by exists []|by exists []].
Qed.

Lemma later_set_leases c ops T : (LeaseTable.run ops (leases c)).2 = T -> later c (set_leases T c).
Proof. intros. split; try done; [by exists ops|by exists []]. Qed.
Lemma later_set_tasks c ops T : replay ops (tasks c) = T -> later c (set_tasks T c).
Proof. intros. split; try done; [by exists []|by exists ops]. Qed.

(** One vector of the state replaced by a later form of itself. *)
Lemma later_with_sessions c v :
  evolves session_step (WorkbenchState.sessions (state c)) v ->
  later c (set_state (WorkbenchState.with_sessions v (state c)) c).
Proof. intros. split; try done; by exists []. Qed.
Lemma later_with_generations c v :
  evolves generation_step (WorkbenchState.generations (state c)) v ->
  later c (set_state (WorkbenchState.with_generations v (state c)) c).
Proof. intros. split; try done; by exists []. Qed.
Lemma later_with_transactions c v :
  evolves transaction_step (WorkbenchState.transactions (state c)) v ->
  later c (set_state (WorkbenchState.with_transactions v (state c)) c).
Proof. intros. split; try done; by exists []. Qed.
Lemma later_with_agents c v :
  evolves agent_step (WorkbenchState.agents (state c)) v ->
  later c (set_state (WorkbenchState.with_agents v (state c)) c).
Proof. intros. split; try done; by exists []. Qed.
Lemma later_with_handoffs c v :
  evolves handoff_step (WorkbenchState.handoffs (state c)) v ->
  later c (set_state (WorkbenchState.with_handoffs v (state c)) c).
Proof. intros. split; try done; by exists []. Qed.
Lemma later_with_requests c v :
  evolves request_step (WorkbenchState.driver_handoff_requests (state c)) v ->
  later c (set_state (WorkbenchState.with_requests v (state c)) c).
Proof. intros. split; try done; by exists []. Qed.
Lemma later_with_approvals c v :
  evolves approval_step (WorkbenchState.approvals (state c)) v ->
  later c (set_state (WorkbenchState.with_approvals v (state c)) c).
Proof. intros. split; try done; by exists []. Qed.

Lemma keeps_later_modify c0 f : (forall c, later c (f c)) -> keeps (later c0) (modify f : handler unit).
Proof. intros Hf. apply keeps_modify. intros c Hc. etrans; [exact Hc|apply Hf]. Qed.

(** *** The primitives *)

Lemma keeps_lease_op {A} c0 (f : LeaseTable.t -> outcome LeaseTable.LeaseError A * LeaseTable.t) :
  (forall T, exists ops, (LeaseTable.run ops T).2 = (f T).2) -> keeps (later c0) (lease_op f).
Proof.
  intros Hf c w Hc. unfold lease_op. destruct (Hf (leases c)) as [ops Hops].
  destruct (f (leases c)) as [r T]. simpl in *. etrans; [exact Hc|by eapply later_set_leases].
Qed.

Lemma keeps_task_op {A} c0 map (f : TaskTable.t -> outcome TaskTable.TaskError A * TaskTable.t) :
  (forall T, exists ops, replay ops T = (f T).2) -> keeps (later c0) (task_op map f).
Proof.
  intros Hf c w Hc. unfold task_op. destruct (Hf (tasks c)) as [ops Hops].
  destruct (f (tasks c)) as [r T]. simpl in *. etrans; [exact Hc|by eapply later_set_tasks].
Qed.

Lemma run_acquire n u1 u2 k r o ttl T :
  (LeaseTable.run [LeaseTable.Acquire n u1 u2 k r o ttl] T).2 =
  (LeaseTable.acquire n u1 u2 k r o ttl T).2.
Proof. simpl. by destruct (LeaseTable.acquire _ _ _ _ _ _ _ T). Qed.
Lemma run_take_handoff n u r tg ttl T :
  (LeaseTable.run [LeaseTable.TakeHandoff n u r tg ttl] T).2 =
  (LeaseTable.take_handoff n u r tg ttl T).2.
Proof. simpl. by destruct (LeaseTable.take_handoff _ _ _ _ _ T). Qed.

Lemma keeps_ignore_error {A} I (m : handler A) : keeps I m -> keeps I (ignore_error m).
Proof.
  intros Hm c w Hc. specialize (Hm c w Hc). unfold ignore_error.
  by destruct (m c w) as [[[]?]?].
Qed.
Lemma keeps_attempt {A} I (m : handler A) : keeps I m -> keeps I (attempt m).
Proof.
  intros Hm c w Hc. specialize (Hm c w Hc). unfold attempt. by destruct (m c w) as [[[]?]?].
Qed.
Lemma keeps_set_field c0 v k new : keeps (later c0) (set_field v k new).
Proof. apply keeps_lift. Qed.

Lemma keeps_persist c0 : keeps (later c0) persist.
Proof.
  unfold persist. keep; intros c Hc; (etrans; [exact Hc|]); [|by apply later_same..].
  by eapply (later_set_tasks _ [TaskTable.PruneRetention _ _ _ _]).
Qed.

Lemma keeps_traced_request c0 a p : keeps (later c0) (traced_request a p).
Proof. unfold traced_request. keep. Qed.
Lemma keeps_current_trace c0 : keeps (later c0) current_trace.
Proof. unfold current_trace. keep. Qed.
Lemma keeps_send c0 ep rq : keeps (later c0) (send ep rq).
Proof.
  unfold send. keep. intros c Hc. etrans; [exact Hc|]. apply later_same; try done. by eexists.
Qed.
Lemma keeps_send_with_timeout c0 ep rq t : keeps (later c0) (send_with_timeout ep rq t).
Proof.
  unfold send_with_timeout. keep. intros c Hc. etrans; [exact Hc|]. apply later_same; try done. by eexists.
Qed.
#[local] Hint Resolve keeps_traced_request keeps_send : keeps.
Lemma keeps_call_endpoint c0 ep a p u f : keeps (later c0) (call_endpoint ep a p u f).
Proof. unfold call_endpoint. keep. Qed.
Lemma keeps_find_executor c0 e x : keeps (later c0) (find_executor e x).
Proof. unfold find_executor. keep. Qed.
#[local] Hint Resolve keeps_call_endpoint keeps_find_executor : keeps.
Lemma keeps_call_registered_executor c0 x a p : keeps (later c0) (call_registered_executor x a p).
Proof. unfold call_registered_executor. keep. Qed.
Lemma keeps_session_scope c0 s : keeps (later c0) (session_scope s).
Proof. unfold session_scope. keep. Qed.
Lemma keeps_resource_owner c0 o : keeps (later c0) (resource_owner o).
Proof. unfold resource_owner. keep. Qed.
Lemma keeps_observe_task_state c0 x : keeps (later c0) (observe_task_state x).
Proof. unfold observe_task_state. keep. Qed.
End later.

(** ** Handlers that only talk to other nodes *)

Section quiet.
Context {P : Platform}.

(** [m] changes nothing but the log of sent requests. *)
Definition quiet {A} (m : handler A) : Prop :=
  forall c w, exists l, (m c w).1.2 = set_sent (sent c ++ l) c.

Lemma set_sent_id c : set_sent (sent c ++ []) c = c.
Proof. rewrite app_nil_r. by destruct c. Qed.
Lemma answers_to_app c l1 l2 :
  answers_to c (l1 ++ l2) = answers_to c l1 ++ answers_to (set_sent (sent c ++ l1) c) l2.
Proof.
  unfold answers_to. rewrite imap_app. f_equal. apply imap_ext. intros i m _. cbn.
  by rewrite length_app, Nat.add_assoc.
Qed.
Lemma length_answers_to c l : length (answers_to c l) = length l.
Proof. apply length_imap. Qed.

Lemma quiet_pure {A} (m : handler A) : (forall c w, (m c w).1.2 = c) -> quiet m.
Proof. intros Hm c w. exists []. by rewrite Hm, set_sent_id. Qed.
Lemma quiet_ret {A} (a : A) : quiet (mret a : handler A).
Proof. by apply quiet_pure. Qed.
Lemma quiet_throw {A} e : quiet (throw e : handler A).
Proof. by apply quiet_pure. Qed.
Lemma quiet_lift {A} (o : outcome RpcError.t A) : quiet (lift o).
Proof. by apply quiet_pure. Qed.
Lemma quiet_get : quiet (get : handler t).
Proof. by apply quiet_pure. Qed.
Lemma quiet_now : quiet (now : handler Z).
Proof. by apply quiet_pure. Qed.
Lemma quiet_uuid : quiet (fresh_uuid : handler string).
Proof. by apply quiet_pure. Qed.
Lemma quiet_guard b e : quiet (guard b e : handler unit).
Proof. by destruct b; apply quiet_pure. Qed.
Lemma quiet_bind {A B} (m : handler A) (k : A -> handler B) :
  quiet m -> (forall a, quiet (k a)) -> quiet (m ≫= k).
Proof.
  intros Hm Hk c w. destruct (Hm c w) as [l Hl]. unfold mbind, M_bind.
  destruct (m c w) as [[[a|e|] c1] w1]; simpl in *; subst c1; [|by exists l..].
  destruct (Hk a (set_sent (sent c ++ l) c) w1) as [l' Hl']. exists (l ++ l').
  rewrite Hl'. simpl. unfold set_sent. simpl. by rewrite <- app_assoc.
Qed.
Lemma quiet_validate r o tok : quiet (validate r o tok).
Proof.
  unfold validate. apply quiet_bind; [apply quiet_now|]. intros n. apply quiet_pure. intros c w.
  unfold lease_op. by destruct c.
Qed.

End quiet.

Create HintDb quiet.
#[export] Hint Resolve quiet_ret quiet_throw quiet_lift quiet_get quiet_now quiet_uuid quiet_guard
  quiet_validate : quiet.

Ltac quiet_step :=
  match goal with
  | |- quiet (if ?b then _ else _) => destruct b
  | |- quiet (match ?x with _ => _ end) => destruct x
  | |- quiet (_ ≫= _) => apply quiet_bind; [|intros ?]
  | |- quiet _ => solve [auto with quiet]
  end.
Ltac hush := repeat quiet_step.

Section quiet_calls.
Context {P : Platform}.

Lemma quiet_traced_request a p : quiet (traced_request a p).
Proof. unfold traced_request. hush. Qed.
Lemma quiet_current_trace : quiet current_trace.
Proof. unfold current_trace. hush. Qed.
Lemma quiet_send ep rq : quiet (send ep rq).
Proof. intros c w. by exists [(ep, rq)]. Qed.
Lemma quiet_send_with_timeout ep rq n : quiet (send_with_timeout ep rq n).
Proof. intros c w. by exists [(ep, rq)]. Qed.
#[local] Hint Resolve quiet_traced_request quiet_send : quiet.
Lemma quiet_call_endpoint ep a p u f : quiet (call_endpoint ep a p u f).
Proof. unfold call_endpoint. hush. Qed.
Lemma quiet_find_executor e x : quiet (find_executor e x).
Proof. unfold find_executor. hush. Qed.
#[local] Hint Resolve quiet_call_endpoint quiet_find_executor : quiet.
Lemma quiet_call_registered_executor x a p : quiet (call_registered_executor x a p).
Proof. unfold call_registered_executor. hush. Qed.
Lemma quiet_session_scope x : quiet (session_scope x).
Proof. unfold session_scope. hush. Qed.
Lemma quiet_resource_owner x : quiet (resource_owner x).
Proof. unfold resource_owner. hush. Qed.
Lemma quiet_observe_task_state x : quiet (observe_task_state x).
Proof. unfold observe_task_state. hush. Qed.
Lemma quiet_set_field v k new : quiet (set_field v k new).
Proof. apply quiet_lift. Qed.
Lemma quiet_ignore_error {A} (m : handler A) : quiet m -> quiet (ignore_error m).
Proof.
  intros Hm c w. destruct (Hm c w) as [l Hl]. exists l. unfold ignore_error.
  by destruct (m c w) as [[[]?]?].
Qed.
Lemma quiet_attempt {A} (m : handler A) : quiet m -> quiet (attempt m).
Proof.
  intros Hm c w. destruct (Hm c w) as [l Hl]. exists l. unfold attempt.
  by destruct (m c w) as [[[]?]?].
Qed.

(** A quiet step of a handler that is followed from a known state. *)
Lemma from_quiet_bind {A B} (I : t -> Prop) c (m : handler A) (k : A -> handler B) :
  quiet m -> (forall l, I (set_sent (sent c ++ l) c)) ->
  (forall a l w w', m c w = (Ok a, set_sent (sent c ++ l) c, w') ->
     from I (set_sent (sent c ++ l) c) (k a)) -> from I c (m ≫= k).
Proof.
  intros Hm Hc Hk w. destruct (Hm c w) as [l Hl]. unfold mbind, M_bind.
  destruct (m c w) as [[[a|e|] c1] w1] eqn:Hrun; simpl in *; subst c1; [|apply Hc..].
  by eapply Hk.
Qed.

(** [m] leaves the stored records alone. *)
Definition framed {A} (m : handler A) : Prop :=
  forall c w, state (m c w).1.2 = state c /\ later c (m c w).1.2.

Lemma framed_keeps {A} c0 (m : handler A) : framed m -> keeps (later c0) m.
Proof. intros Hm c w Hc. etrans; [exact Hc|apply Hm]. Qed.
Lemma framed_lease_op {A} (f : LeaseTable.t -> outcome LeaseTable.LeaseError A * LeaseTable.t) :
  (forall T, exists ops, (LeaseTable.run ops T).2 = (f T).2) -> framed (lease_op f).
Proof.
  intros Hf c w. split; [|by apply keeps_lease_op]. unfold lease_op. by destruct (f (leases c)).
Qed.
Lemma framed_task_op {A} map (f : TaskTable.t -> outcome TaskTable.TaskError A * TaskTable.t) :
  (forall T, exists ops, replay ops T = (f T).2) -> framed (task_op map f).
Proof.
  intros Hf c w. split; [|by apply keeps_task_op]. unfold task_op. by destruct (f (tasks c)).
Qed.
Lemma framed_quiet {A} (m : handler A) : quiet m -> framed m.
Proof.
  intros Hm c w. destruct (Hm c w) as [l ->]. split; [done|]. apply later_same; try done. by eexists.
Qed.
Lemma framed_bind {A B} (m : handler A) (k : A -> handler B) :
  framed m -> (forall a, framed (k a)) -> framed (m ≫= k).
Proof.
  intros Hm Hk c w. destruct (Hm c w) as [Hs Hl]. unfold mbind, M_bind.
  destruct (m c w) as [[[a|e|] c1] w1]; simpl in *; [|done|done].
  destruct (Hk a c1 w1) as [Hs' Hl']. split; [congruence|by etrans].
Qed.
Lemma framed_modify f :
  (forall c, state (f c) = state c /\ later c (f c)) -> framed (modify f : handler unit).
Proof. intros Hf c w. apply Hf. Qed.
Lemma framed_ignore_error {A} (m : handler A) : framed m -> framed (ignore_error m).
Proof.
  intros Hm c w. specialize (Hm c w). unfold ignore_error. by destruct (m c w) as [[[]?]?].
Qed.
Lemma framed_attempt {A} (m : handler A) : framed m -> framed (attempt m).
Proof.
  intros Hm c w. specialize (Hm c w). unfold attempt. by destruct (m c w) as [[[]?]?].
Qed.

(** A step that leaves the records alone, in a handler followed from a known state. *)
Lemma from_framed_bind {A B} c0 c (m : handler A) (k : A -> handler B) :
  framed m -> later c0 c ->
  (forall a c', state c' = state c -> later c0 c' -> from (later c0) c' (k a)) ->
  from (later c0) c (m ≫= k).
Proof.
  intros Hm Hc Hk w. destruct (Hm c w) as [Hs Hl]. unfold mbind, M_bind.
  destruct (m c w) as [[[a|e|] c1] w1]; simpl in *; [|by etrans..].
  apply Hk; [done|by etrans].
Qed.

Lemma later_set_sent c0 c l : later c0 c -> later c0 (set_sent (sent c ++ l) c).
Proof. intros Hc. etrans; [exact Hc|]. apply later_same; try done. by eexists. Qed.
Lemma quiet_keeps {A} c0 (m : handler A) : quiet m -> keeps (later c0) m.
Proof. intros Hm c w Hc. destruct (Hm c w) as [l ->]. by apply later_set_sent. Qed.
End quiet_calls.

(** ** What is asked and what comes back *)

(** Requests, each with what came back. *)
Abbreviation exchange := (ExecutorEndpoint.t * string * Value * (string + Response.t))%type.

Section exchanges.
Context {P : Platform}.

(** A request by its receiver, action and parameters. *)
Definition calls (l : list (ExecutorEndpoint.t * Request.t)) : list (ExecutorEndpoint.t * string * Value) :=
  (fun m => (m.1, Request.action m.2, Request.params m.2)) <$> l.

(** From [c] to [c'] nothing happened but the sending of these requests. *)
Definition made (c : t) (cs : list (ExecutorEndpoint.t * string * Value)) (c' : t) : Prop :=
  exists l, c' = set_sent (sent c ++ l) c /\ calls l = cs.

Lemma made_nil c : made c [] c.
Proof. exists []. rewrite app_nil_r. by destruct c. Qed.
Lemma made_app c cs1 c1 cs2 c2 : made c cs1 c1 -> made c1 cs2 c2 -> made c (cs1 ++ cs2) c2.
Proof.
  intros (l1 & -> & <-) (l2 & -> & <-). exists (l1 ++ l2). unfold calls. rewrite fmap_app.
  split; [|done]. unfold set_sent. cbn. by rewrite <- app_assoc.
Qed.
Definition exchanged (c : t) (es : list exchange) (c' : t) : Prop :=
  exists l, c' = set_sent (sent c ++ l) c /\ calls l = es.*1 /\ answers_to c l = es.*2.

Lemma exchanged_made c es c' : exchanged c es c' -> made c es.*1 c'.
Proof. intros (l & Hc & Hl & _). by exists l. Qed.
Lemma made_exchanged c cs c' : made c cs c' -> exists es, es.*1 = cs /\ exchanged c es c'.
Proof.
  intros (l & Hc & Hl). exists (zip cs (answers_to c l)).
  assert (length cs = length (answers_to c l)) as Hlen.
  { rewrite length_answers_to, <- Hl. unfold calls. by rewrite length_fmap. }
  split; [apply fst_zip; lia|]. exists l. by rewrite fst_zip, snd_zip by lia.
Qed.
Lemma exchanged_nil c : exchanged c [] c.
Proof. exists []. by rewrite set_sent_id. Qed.
Lemma exchanged_app c es1 c1 es2 c2 : exchanged c es1 c1 -> exchanged c1 es2 c2 -> exchanged c (es1 ++ es2) c2.
Proof.
  intros (l1 & -> & H1 & A1) (l2 & -> & H2 & A2). exists (l1 ++ l2).
  rewrite answers_to_app, A1, A2, !fmap_app. unfold calls in *. rewrite fmap_app, H1, H2.
  split; [|done]. unfold set_sent. cbn. by rewrite <- app_assoc.
Qed.
Lemma quiet_made {A} (m : handler A) c w o c' w' : quiet m -> m c w = (o, c', w') -> exists cs, made c cs c'.
Proof. intros Hm Hrun. destruct (Hm c w) as [l Hl]. rewrite Hrun in Hl. cbn in Hl. subst c'. eexists _, l. done. Qed.

(** Where an executor is; the sending of requests does not move it. *)
Definition endpoint_of (c : t) (executor_id : string) : option ExecutorEndpoint.t :=
  Executor.endpoint <$> bfind (executor_is executor_id) (WorkbenchState.executors (state c)).
Lemma made_endpoint c cs c' x : made c cs c' -> endpoint_of c' x = endpoint_of c x.
Proof. by intros (l & -> & _). Qed.
Lemma made_id c cs c' : made c cs c' -> id c' = id c.
Proof. by intros (l & -> & _). Qed.

Lemma exchanged_endpoint c es c' x : exchanged c es c' -> endpoint_of c' x = endpoint_of c x.
Proof. by intros ?%exchanged_made%(made_endpoint _ _ _ x). Qed.

Lemma traced_request_eq a p c w :
  exists rq w', traced_request a p c w = (Ok rq, c, w') /\ Request.action rq = a /\ Request.params rq = p.
Proof. unfold traced_request. run_handler. destruct (trace c); by eexists _, _. Qed.

(** A call sends one request or, for an unknown executor, none; a success is
    the answer to it. *)
Lemma call_made x a p c w o c' w' :
  call_registered_executor x a p c w = (o, c', w') ->
  match endpoint_of c x with
  | Some ep => made c [(ep, a, p)] c' /\
      forall v, o = Ok v -> exists n rq r, call_executor n ep rq = inr r /\ v = default VNull (Response.result r)
  | None => c' = c /\ exists e, o = Err e
  end /\ o <> Panic.
Proof.
  unfold call_registered_executor, find_executor, endpoint_of.
  unfold mbind, M_bind, get, lift. cbn beta iota.
  destruct (bfind _ _) as [e|] eqn:He; cbn; [|intros [= <- <- _]; split; [|done]; split; [done|by eexists]].
  unfold call_endpoint, mbind, M_bind.
  destruct (traced_request_eq a p c w) as (rq & w1 & -> & <- & <-).
  unfold send. run_handler. destruct (call_executor _ _ rq) as [err|r] eqn:Hr.
  - intros [= <- <- _]. split; [split|done]; [by exists [(Executor.endpoint e, rq)]|done].
  - intros [= Ho <- _]. unfold answer_of in Ho. split; [split|by destruct (Response.ok r); subst].
    + by exists [(Executor.endpoint e, rq)].
    + intros v ->. destruct (Response.ok r); [|done]. injection Ho as <-. by eexists _, rq, r.
Qed.

Lemma call_exchanged x a p c w v c' w' :
  call_registered_executor x a p c w = (Ok v, c', w') ->
  exists ep r, endpoint_of c x = Some ep /\ exchanged c [(ep, a, p, inr r)] c' /\
    Response.ok r = true /\ v = default VNull (Response.result r).
Proof.
  unfold call_registered_executor, find_executor, endpoint_of.
  unfold mbind, M_bind, get, lift. cbn beta iota.
  destruct (bfind _ _) as [e|] eqn:He; cbn; [|done].
  unfold call_endpoint, mbind, M_bind.
  destruct (traced_request_eq a p c w) as (rq & w1 & -> & <- & <-).
  unfold send. run_handler. destruct (call_executor _ _ rq) as [err|r] eqn:Hr; [done|].
  unfold answer_of. intros [= Ho <- _]. destruct (Response.ok r) eqn:Hok; [|done]. injection Ho as <-.
  exists (Executor.endpoint e), r. split; [done|]. split; [|done].
  exists [(Executor.endpoint e, rq)]. split; [done|]. split; [done|]. cbn. by rewrite Nat.add_0_r, Hr.
Qed.

(** An exchange that took place: the answer is what the receiver gave to that request. *)
Definition genuine (e : exchange) : Prop :=
  exists n rq, e = (e.1.1.1, Request.action rq, Request.params rq, call_executor n e.1.1.1 rq).
Lemma exchanged_genuine c es c' : exchanged c es c' -> Forall genuine es.
Proof.
  intros (l & _ & Hc & Ha). apply Forall_lookup. intros i e He.
  assert (calls l !! i = Some e.1 /\ answers_to c l !! i = Some e.2) as [H1 H2].
  { by rewrite Hc, Ha, !list_lookup_fmap, He. }
  unfold calls in H1. rewrite list_lookup_fmap in H1. unfold answers_to in H2. rewrite list_lookup_imap in H2.
  destruct (l !! i) as [[ep rq]|]; [|done]. destruct e as [[[ep' a] ps] o]. cbn in *. simplify_eq.
  by eexists _, rq.
Qed.
End exchanges.

(** *** The table operations *)

Create HintDb framed.
#[export] Hint Resolve framed_quiet framed_ignore_error framed_attempt : framed.
#[export] Hint Extern 5 (quiet _) => hush : framed.
Ltac framed_step :=
  match goal with
  | |- framed (if ?b then _ else _) => destruct b
  | |- framed (match ?x with _ => _ end) => destruct x
  | |- framed (_ ≫= _) => apply framed_bind; [|intros ?]
  | |- framed _ => solve [auto with framed]
  end.
Ltac frame := repeat framed_step.

Section framed.
Context {P : Platform}.

Lemma framed_acquire kind r o ttl : framed (acquire kind r o ttl).
Proof. unfold acquire. frame. apply framed_lease_op. intros T. eexists. apply run_acquire. Qed.
Lemma framed_renew r o tok ttl : framed (renew r o tok ttl).
Proof. unfold renew. frame. apply framed_lease_op. intros T. by eexists [LeaseTable.Renew _ _ _ _ _ _]. Qed.
Lemma framed_handoff r o tok tg : framed (handoff r o tok tg).
Proof. unfold handoff. frame. apply framed_lease_op. intros T. by eexists [LeaseTable.HandOff _ _ _ _ _ _]. Qed.
Lemma framed_request_handoff r tg : framed (request_handoff r tg).
Proof.
  unfold request_handoff. frame. apply framed_lease_op. intros T. by eexists [LeaseTable.RequestHandoff _ _ _ _].
Qed.
Lemma framed_cancel_handoff r tg : framed (cancel_handoff r tg).
Proof.
  unfold cancel_handoff. frame. apply framed_lease_op. intros T. by eexists [LeaseTable.CancelHandoff _ _ _].
Qed.
Lemma framed_take_handoff r tg ttl : framed (take_handoff r tg ttl).
Proof. unfold take_handoff. frame. apply framed_lease_op. intros T. eexists. apply run_take_handoff. Qed.
Lemma framed_release r o tok : framed (release r o tok).
Proof. unfold release. frame. apply framed_lease_op. intros T. by eexists [LeaseTable.Release _ _ _ _]. Qed.
Lemma framed_transition tid s out err : framed (transition tid s out err).
Proof.
  unfold transition. frame. apply framed_task_op. intros T. by eexists [TaskTable.Transition _ _ _ _ _ _].
Qed.
Lemma framed_retry map tid : framed (retry map tid).
Proof. unfold retry. frame. apply framed_task_op. intros T. by eexists [TaskTable.Retry _ _ _]. Qed.
Lemma framed_submit_traced s e cap i k co rq : framed (submit_traced s e cap i k co rq).
Proof.
  unfold submit_traced. frame. apply framed_task_op. intros T.
  by eexists [TaskTable.Submit _ _ _ _ _ _ _ _ _ _].
Qed.
End framed.

(** ** Durability

    A controller is [synced] when its state file holds its state, tables
    included.  [acks m]: if [m] reports success from a synced controller, it
    leaves a synced one; [syncs m]: it does from any. *)

Section durability.
Context {P : Platform}.

Definition synced (c : t) : Prop :=
  disk c = Some (state c) /\ state c = snapshot_tables (leases c) (tasks c) (state c).

Definition acks {A} (m : handler A) : Prop :=
  forall c w a c' w', m c w = (Ok a, c', w') -> synced c -> synced c'.
Definition syncs {A} (m : handler A) : Prop :=
  forall c w a c' w', m c w = (Ok a, c', w') -> synced c'.

Lemma acks_syncs {A} (m : handler A) : syncs m -> acks m.
Proof. intros Hm c w a c' w' H _. by eapply Hm. Qed.
Lemma acks_bind {A B} (m : handler A) (k : A -> handler B) :
  acks m -> (forall a, acks (k a)) -> acks (m ≫= k).
Proof.
  intros Hm Hk c w b c' w' (a & c1 & w1 & H1 & H2)%bind_Ok_inv Hc.
  eapply Hk; [exact H2|]. by eapply Hm.
Qed.
Lemma syncs_bind_l {A B} (m : handler A) (k : A -> handler B) :
  syncs m -> (forall a, acks (k a)) -> syncs (m ≫= k).
Proof.
  intros Hm Hk c w b c' w' (a & c1 & w1 & H1 & H2)%bind_Ok_inv.
  eapply Hk; [exact H2|]. by eapply Hm.
Qed.
Lemma syncs_bind_r {A B} (m : handler A) (k : A -> handler B) :
  (forall a, syncs (k a)) -> syncs (m ≫= k).
Proof. intros Hk c w b c' w' (a & c1 & w1 & _ & H2)%bind_Ok_inv. by eapply Hk. Qed.
Lemma syncs_throw {A} e : syncs (throw e : handler A).
Proof. by intros c w a c' w'. Qed.
Lemma syncs_persist : syncs persist.
Proof.
  intros c w [] c' w' Hp. unfold persist in Hp. ok_inv Hp. case_in Hok1; by ok_inv Hok1.
Qed.

Lemma acks_ret {A} (a : A) : acks (mret a : handler A).
Proof. by intros c w a' c' w' [= _ <- _]. Qed.
Lemma acks_throw {A} e : acks (throw e : handler A).
Proof. apply acks_syncs, syncs_throw. Qed.
Lemma acks_lift {A} (o : outcome RpcError.t A) : acks (lift o).
Proof. by intros c w a' c' w' [= _ <- _]. Qed.
Lemma acks_get : acks (get : handler t).
Proof. by intros c w a' c' w' [= _ <- _]. Qed.
Lemma acks_now : acks (now : handler Z).
Proof. by intros c w a' c' w' [= _ <- _]. Qed.
Lemma acks_uuid : acks (fresh_uuid : handler string).
Proof. by intros c w a' c' w' [= _ <- _]. Qed.
Lemma acks_guard b e : acks (guard b e : handler unit).
Proof. destruct b; [apply acks_ret|apply acks_throw]. Qed.
Lemma acks_modify f :
  (forall c, disk (f c) = disk c /\ state (f c) = state c /\ leases (f c) = leases c /\
             tasks (f c) = tasks c) ->
  acks (modify f : handler unit).
Proof.
  intros Hf c w a' c' w' [= _ <- _]. unfold synced.
  by destruct (Hf c) as (-> & -> & -> & ->).
Qed.
Lemma acks_quiet {A} (m : handler A) : quiet m -> acks m.
Proof. intros Hm c w a c' w' H1 Hc. destruct (Hm c w) as [l Hl]. rewrite H1 in Hl. simpl in Hl. by subst. Qed.
Lemma acks_ignore_error {A} (m : handler A) :
  (forall c w, synced c -> synced (m c w).1.2) -> acks (ignore_error m).
Proof.
  intros Hm c w a c' w' H Hc. specialize (Hm c w Hc). unfold ignore_error in H.
  by destruct (m c w) as [[[]?]?]; simplify_eq.
Qed.
End durability.

Create HintDb acks.
#[export] Hint Resolve acks_ret acks_throw acks_lift acks_get acks_now acks_uuid acks_guard
  syncs_throw syncs_persist : acks.

Ltac ack_step :=
  match goal with
  | |- acks (if ?b then _ else _) => destruct b
  | |- acks (match ?x with _ => _ end) => destruct x
  | |- acks (_ ≫= _) =>
      first [ apply acks_bind; [solve [ack_step; repeat ack_step]|intros ?]
            | apply acks_syncs; sync_step ]
  | |- acks (modify _) => apply acks_modify; done
  | |- acks _ => solve [auto with acks]
  end
with sync_step :=
  match goal with
  | |- syncs (if ?b then _ else _) => destruct b
  | |- syncs (match ?x with _ => _ end) => destruct x
  | |- syncs (persist ≫= _) => apply syncs_bind_l; [apply syncs_persist|intros ?]
  | |- syncs (_ ≫= _) => apply syncs_bind_r; intros ?
  | |- syncs _ => solve [auto with acks]
  end.
Ltac ack := repeat first [ack_step | sync_step].

End Controller.

#[export] Hint Resolve Controller.keeps_ignore_error
  Controller.keeps_attempt Controller.keeps_set_field Controller.keeps_persist
  Controller.keeps_traced_request Controller.keeps_current_trace Controller.keeps_send
  Controller.keeps_send_with_timeout Controller.keeps_call_endpoint Controller.keeps_find_executor
  Controller.keeps_call_registered_executor Controller.keeps_session_scope
  Controller.keeps_resource_owner Controller.keeps_observe_task_state : keeps.
#[export] Hint Resolve Controller.quiet_traced_request Controller.quiet_current_trace
  Controller.quiet_send Controller.quiet_send_with_timeout Controller.quiet_call_endpoint
  Controller.quiet_find_executor Controller.quiet_call_registered_executor
  Controller.quiet_session_scope Controller.quiet_resource_owner Controller.quiet_observe_task_state
  Controller.quiet_set_field Controller.quiet_ignore_error Controller.quiet_attempt : quiet.
#[export] Hint Resolve Controller.acks_quiet Controller.later_set_sent : acks keeps.
#[export] Hint Extern 5 (Controller.quiet _) => Controller.hush : acks.

#[export] Hint Resolve Controller.framed_acquire Controller.framed_renew Controller.framed_handoff
  Controller.framed_request_handoff Controller.framed_cancel_handoff Controller.framed_take_handoff
  Controller.framed_release Controller.framed_transition Controller.framed_retry
  Controller.framed_submit_traced : framed.
#[export] Hint Extern 6 (keeps (Controller.later _) _) =>
  apply Controller.framed_keeps; solve [auto with framed] : keeps.

(** The states a walk ends in, when only untracked fields were assigned. *)
Ltac settle :=
  match goal with
  | H : Controller.later ?c0 ?c |- Controller.later ?c0 ?c => exact H
  | |- Controller.later _ (Controller.set_sent _ _) => apply Controller.later_set_sent; settle
  | |- Controller.later _ (Controller.set_state _ ?c) =>
      etrans; [|by apply (Controller.later_same c)]; settle
  end.

(** Walk down a handler from a known state: like [walk], but past a step whose
    effect is only known to keep the invariant it goes on from a fresh state. *)
Ltac stroll :=
  repeat first
    [ walk_step
    | match goal with
      | |- from _ _ (_ ≫= _) =>
          apply Controller.from_quiet_bind;
            [solve [auto with quiet]|intros ?; solve [auto with keeps]|intros ? ? ? ? ?]
      | |- from _ _ (_ ≫= _) =>
          apply Controller.from_framed_bind;
            [solve [auto with framed]|settle|intros ? ? ? ?]
      | |- Controller.later _ (Controller.set_sent _ _) => apply Controller.later_set_sent
      end
    | match goal with
      | |- from _ _ (_ ≫= _) =>
          apply from_keeps_bind; [settle|solve [auto with keeps]|
            intros ?; apply keeps_from; intros ? ?]
      end ].

(** [follow h] walks the handler [h]; what is left are the assignments to the
    records that [later] tracks. *)
Tactic Notation "follow" reference(h) :=
  apply keeps_from; intros ? ?; unfold h; stroll; try settle.
