(* ===== verification/Samples.v ===== *)
(** * A concrete platform and controller for the witnesses

    The platform answers every remote call the same way, renders every value
    as a placeholder, and decodes a handful of named records.  At the end, a text
    for every value that is read back. *)

From Stdlib Require Import Ascii String SpecFloat.
From stdpp Require Import countable strings.
From S2P Require Import Prelude RustStd Json Protocol Schema Store Leases Tasks Contracts.
From S2P Require Import Controller.

Definition sample_session (authority : option SessionAuthority.t) : WorkspaceSession.t :=
  WorkspaceSession.mk "workbench.dev/v1" (Metadata.mk "s1" ∅ 1 1) "objective" SessionState.Active
    authority None.

Definition sample_generation (st : GenerationState.t) (root : string) : Generation.t :=
  Generation.mk "g1" "s1" "app" root st (BaselineIdentity.mk "sha256:base" "src" None None ∅) []
    "sha256:gen" 1 None None None None None.

Definition sample_handoff (kind : HandoffKind.t) : Handoff.t :=
  Handoff.mk "h1" kind "s1" "objective" (AgentRoleRef.mk None "author") (AgentRoleRef.mk None "reviewer")
    [] [] [] [] [] [] [] 1 None None None.

Definition null_serde {A} : Serde A := {| to_value _ := VNull; from_value _ := Err "unsupported" |}.
(** Decodes the names of a table. *)
Definition named_serde {A} (names : list (string * A)) : Serde A :=
  {| to_value _ := VNull;
     from_value v := match as_str v with
                     | Some s => match bfind (fun p => bool_decide (p.1 = s)) names with
                                 | Some p => Ok p.2
                                 | None => Err "unknown name"
                                 end
                     | None => Err "not a name"
                     end |}.

(** The platform on which every executor answers by [answer]. *)
Definition platform_answering (answer : Request.t -> string + Response.t) : Platform := {|
  platform_sha256 := fun s => "#" +:+ s;
  platform_text := {| json_text := fun _ => "?"; f64_text := fun _ => "?" |};
  platform_task_encoding := fun _ => 1%N;
  session_serde := named_serde [("s1", sample_session None);
    ("s1@other", sample_session (Some (SessionAuthority.mk "other" 1 None)))];
  session_state_serde := null_serde;
  artifact_serde := null_serde;
  generation_serde := named_serde [("reserved", sample_generation GenerationState.Reserved "/r");
    ("materializing", sample_generation GenerationState.Materializing "/r");
    ("active", sample_generation GenerationState.Active "/r");
    ("moved", sample_generation GenerationState.Materializing "/elsewhere")];
  agent_serde := null_serde;
  agent_state_serde := null_serde;
  executor_serde := null_serde;
  peer_serde := null_serde;
  endpoint_serde := null_serde;
  capabilities_serde := null_serde;
  strings_serde := null_serde;
  approval_serde := null_serde;
  read_grant_serde := null_serde;
  lease_serde := null_serde;
  request_serde := null_serde;
  mutation_serde := null_serde;
  task_serde := null_serde;
  task_state_serde := null_serde;
  task_event_serde := null_serde;
  transaction_serde := null_serde;
  step_state_serde := named_serde [("started", TransactionStepState.Started);
    ("succeeded", TransactionStepState.Succeeded)];
  handoff_serde := named_serde [("work", sample_handoff HandoffKind.Work);
    ("acceptance", sample_handoff HandoffKind.Acceptance)];
  rpc_error_serde := null_serde;
  call_executor := fun _ _ r => answer r;
  call_executor_with_timeout := fun _ _ r _ => answer r;
  env_u64 := fun _ => None;
  io_error := "disk full";
|}.

Definition answer_empty (r : Request.t) : string + Response.t :=
  inr (Response.success (Request.request_id r) (VObject [])).
Definition sample_platform : Platform := platform_answering answer_empty.

(** The clock ticks by one second; writes succeed while [writable] says so. *)
Definition sample_world (writable : nat -> bool) : world :=
  World (fun i => 1000 + 1000 * Z.of_nat i) (fun i => "u" +:+ pretty i) writable 0 0 0.

Definition sample_controller (state : WorkbenchState.t) : Controller.t :=
  Controller.mk "ctl" (Some state) state (LeaseTable.mk ∅ ∅) (TaskTable.mk ∅ ∅) ∅ ∅ 0 32 ∅ None [] [].

(** ** A text for every value

    The text of a value is the bits of its code in [Countable]. *)
#[global] Instance spec_float_eq_dec : EqDecision spec_float.
Proof. solve_decision. Defined.
#[global] Instance spec_float_countable : Countable spec_float.
Proof.
  apply (inj_countable'
    (fun f => match f with
     | S754_zero b => inl (b, false) | S754_infinity b => inl (b, true) | S754_nan => inr (inl tt)
     | S754_finite b m e => inr (inr (b, m, e)) end)
    (fun c : (bool * bool) + (unit + bool * positive * Z) => match c with
     | inl (b, false) => S754_zero b | inl (b, true) => S754_infinity b | inr (inl _) => S754_nan
     | inr (inr (b, m, e)) => S754_finite b m e end)).
  by intros [].
Defined.
#[global] Instance number_eq_dec : EqDecision Number.
Proof. solve_decision. Defined.
#[global] Instance number_countable : Countable Number.
Proof.
  apply (inj_countable'
    (fun n => match n with PosInt z => inl z | NegInt z => inr (inl z) | Float f => inr (inr f) end)
    (fun c : Z + (Z + spec_float) => match c with inl z => PosInt z | inr (inl z) => NegInt z | inr (inr f) => Float f end)).
  by intros [].
Defined.

Definition leaf : Type := unit + (bool + (Number + string)).
Fixpoint to_tree (v : Value) : gen_tree leaf :=
  match v with
  | VNull => GenLeaf (inl tt)
  | VBool b => GenLeaf (inr (inl b))
  | VNumber n => GenLeaf (inr (inr (inl n)))
  | VString s => GenLeaf (inr (inr (inr s)))
  | VArray vs => GenNode 0 (map to_tree vs)
  | VObject o => GenNode 1 (map (fun kv => GenNode 2 [GenLeaf (inr (inr (inr kv.1))); to_tree kv.2]) o)
  end.
Definition key_of (t : gen_tree leaf) : string := match t with GenLeaf (inr (inr (inr s))) => s | _ => "" end.
Fixpoint of_tree (t : gen_tree leaf) : Value :=
  match t with
  | GenLeaf (inl _) => VNull
  | GenLeaf (inr (inl b)) => VBool b
  | GenLeaf (inr (inr (inl n))) => VNumber n
  | GenLeaf (inr (inr (inr s))) => VString s
  | GenNode 0 ts => VArray (map of_tree ts)
  | GenNode _ ts => VObject (map (fun t => match t with
                                           | GenNode _ [k; v] => (key_of k, of_tree v)
                                           | _ => ("", VNull) end) ts)
  end.
Lemma of_to_tree v : of_tree (to_tree v) = v.
Proof.
  induction v as [|b|n|s|vs IH|o IH] using Value_rect_nested; try done; simpl; f_equal; rewrite map_map;
    induction IH as [|x l Hx _ IHl]; simpl; try done; f_equal; try done. destruct x as [k v]. simpl in *. by rewrite Hx.
Qed.

Fixpoint bits (p : positive) : string :=
  match p with xH => "." | xO p' => String "0" (bits p') | xI p' => String "1" (bits p') end.
Fixpoint unbits (s : string) : option positive :=
  match s with
  | String "." EmptyString => Some xH
  | String "0" s' => xO <$> unbits s'
  | String "1" s' => xI <$> unbits s'
  | _ => None
  end.
Lemma unbits_bits p : unbits (bits p) = Some p.
Proof. induction p as [p IH|p IH|]; simpl; [by rewrite IH..|done]. Qed.

Definition value_text (v : Value) : string := bits (encode (to_tree v)).
Definition text_value (s : string) : option Value := p ← unbits s; t ← decode p; Some (of_tree t).
Lemma text_of_value v : text_value (value_text v) = Some v.
Proof. unfold text_value, value_text. rewrite unbits_bits. cbn [mbind option_bind]. rewrite decode_encode. cbn [mbind option_bind]. by rewrite of_to_tree. Qed.
