(* ===== verification/Observability.v ===== *)
(** * The observation store ([crates/workbench-core/src/observability.rs])

    Runs and observations live in two tables of an SQLite database.  A statement
    is a function on the tables: it happens as a whole or, when the database
    refuses it, not at all.  The records are those of [workbench-schema]. *)

From Stdlib Require Import String.
From S2P Require Import Prelude RustStd Sequences Json Samples.

(** ** Records *)

Module RunStatus.
Inductive t := Running | Completed | Cancelled | Interrupted.
#[global] Instance eq_dec : EqDecision t.
Proof. solve_decision. Defined.
(** Its [serde] name, and [format!("{:?}", status).to_lowercase()]. *)
Definition name (s : t) : string :=
  match s with Running => "running" | Completed => "completed" | Cancelled => "cancelled" | Interrupted => "interrupted" end.
End RunStatus.

Module RunHealth.
Inductive t := Healthy | Degraded | Failed | Unknown.
#[global] Instance eq_dec : EqDecision t.
Proof. solve_decision. Defined.
Definition name (h : t) : string :=
  match h with Healthy => "healthy" | Degraded => "degraded" | Failed => "failed" | Unknown => "unknown" end.
End RunHealth.

Module Run.
Record t := mk {
  run_id : string;
  workspace_session_id : option string;
  agent_session_id : option string;
  target_summary : string;
  created_by : string;
  status : RunStatus.t;
  health : RunHealth.t;
  started_at : Z;
  finished_at : option Z;
  business_outcome : option string;
}.
End Run.

Module Observation.
Record t := mk {
  event_id : Z;
  run_id : option string;
  timestamp : Z;
  node_id : string;
  role : string;
  kind : string;
  name : string;
  status : string;
  duration_ms : option Z;
  span_id : option string;
  parent_span_id : option string;
  request_id : option string;
  task_id : option string;
  process_id : option string;
  connection_id : option string;
  attributes : Value;
}.
Definition set_event_id (n : Z) (o : t) : t :=
  mk n (run_id o) (timestamp o) (node_id o) (role o) (kind o) (name o) (status o) (duration_ms o) (span_id o)
     (parent_span_id o) (request_id o) (task_id o) (process_id o) (connection_id o) (attributes o).
Definition set_attributes (v : Value) (o : t) : t :=
  mk (event_id o) (run_id o) (timestamp o) (node_id o) (role o) (kind o) (name o) (status o) (duration_ms o) (span_id o)
     (parent_span_id o) (request_id o) (task_id o) (process_id o) (connection_id o) v.
End Observation.

Module ObservabilityError.
Inductive t :=
  | Sql (text : string)
  | Json (text : string)
  | RunNotFound (id : string)
  | InvalidTransition (text : string).
End ObservabilityError.

Module ObservationQuery.
Record t := mk { run_id : option string; after_event_id : option Z; limit : Z }.
End ObservationQuery.

(** The [serde_json] texts of the two records. *)
Class RecordText := {
  run_text : Run.t -> string;
  run_of : string -> string + Run.t;
  observation_text : Observation.t -> string;
  observation_of : string -> string + Observation.t;
}.
(** What is written is read back; a payload may be normalised on its way. *)
Record reads_back (W : RecordText) (settle : Observation.t -> Observation.t) : Prop := {
  run_reads_back r : run_of (run_text r) = inr r;
  observation_reads_back o : observation_of (observation_text o) = inr (settle o);
}.

Module ObservabilityStore.

(** ** Tables *)

Record run_row := RunRow { row_run_id : string; run_payload : string; row_started_at : Z; row_status : string }.
Record observation_row := ObservationRow { row_event_id : Z; row_run : option string; row_timestamp : Z; payload : string }.
(** The observations in the order of their key; [last_rowid] is what [AUTOINCREMENT] keeps. *)
Record t := mk { runs : list run_row; observations : list observation_row; last_rowid : Z }.
Definition new : t := mk [] [] 0.

Definition I64_MAX : Z := 2 ^ 63 - 1.
Definition RETENTION_MS : Z := 30 * 24 * 60 * 60 * 1000.
Definition MAX_BYTES : Z := 1024 * 1024 * 1024.

Section store.
Context {W : RecordText}.
(** The texts of the errors of the database: a statement it refuses, a number
    that is no [i64], a key that exists, a full table. *)
Context (refused out_of_range constraint full : string).
(** The rows of a table by descending [started_at]; those of one time in any order. *)
Context (order_by_started_at : list run_row -> list run_row).

Abbreviation sql := (M t ObservabilityError.t).

(** A statement the database may refuse. *)
Definition statement {A} (f : t -> outcome ObservabilityError.t (A * t)) : sql A :=
  ok ← write_ok;
  if (ok : bool) then s ← get; '(a, s) ← lift (f s); put s ;; mret a
  else throw (ObservabilityError.Sql refused).
(** A [u64] is bound to a parameter as an [i64]. *)
Definition bind_u64 (n : Z) : outcome ObservabilityError.t Z :=
  if n <=? I64_MAX then Ok n else Err (ObservabilityError.Sql out_of_range).
Definition decode {A} (text : string + A) : outcome ObservabilityError.t A :=
  match text with inl error => Err (ObservabilityError.Json error) | inr a => Ok a end.
Fixpoint decode_all {A B} (f : A -> outcome ObservabilityError.t B) (l : list A) : outcome ObservabilityError.t (list B) :=
  match l with [] => Ok [] | x :: l' => y ← f x; ys ← decode_all f l'; Ok (y :: ys) end.

Definition run_key (id : string) (r : run_row) : bool := bool_decide (row_run_id r = id).
(** [INSERT INTO runs(run_id,payload,started_at,status) VALUES(?1,?2,?3,?4)] *)
Definition insert_run (r : run_row) (s : t) : outcome ObservabilityError.t (unit * t) :=
  if existsb (run_key (row_run_id r)) (runs s) then Err (ObservabilityError.Sql constraint)
  else Ok (tt, mk (runs s ++ [r]) (observations s) (last_rowid s)).
(** [SELECT payload FROM runs WHERE run_id=?1] *)
Definition select_run (id : string) (s : t) : outcome ObservabilityError.t (option string * t) :=
  Ok (run_payload <$> bfind (run_key id) (runs s), s).
(** [UPDATE runs SET payload=?2,status=?3 WHERE run_id=?1] *)
Definition update_run (id text status : string) (s : t) : outcome ObservabilityError.t (unit * t) :=
  Ok (tt, mk ((fun r => if run_key id r then RunRow (row_run_id r) text (row_started_at r) status else r) <$> runs s)
             (observations s) (last_rowid s)).
(** [SELECT payload FROM runs ORDER BY started_at DESC LIMIT ?1] *)
Definition select_runs (limit : nat) (s : t) : outcome ObservabilityError.t (list string * t) :=
  Ok (run_payload <$> take limit (order_by_started_at (runs s)), s).
(** [INSERT INTO observations(run_id,timestamp,payload) VALUES(?1,?2,?3)], and [last_insert_rowid] *)
Definition insert_observation (run : option string) (timestamp : Z) (text : string) (s : t) : outcome ObservabilityError.t (Z * t) :=
  if last_rowid s =? I64_MAX then Err (ObservabilityError.Sql full)
  else let n := last_rowid s + 1 in
       Ok (n, mk (runs s) (observations s ++ [ObservationRow n run timestamp text]) n).
(** [SELECT event_id,payload FROM observations WHERE (?1 IS NULL OR run_id=?1) AND event_id>?2 ORDER BY event_id LIMIT ?3] *)
Definition selects (run : option string) (after : Z) (r : observation_row) : bool :=
  match run with None => true | Some id => bool_decide (row_run r = Some id) end && (after <? row_event_id r).
Definition select_observations (run : option string) (after : Z) (limit : nat) (s : t) :
    outcome ObservabilityError.t (list (Z * string) * t) :=
  Ok ((fun r => (row_event_id r, payload r)) <$> take limit (bfilter (selects run after) (observations s)), s).
(** [DELETE FROM observations WHERE timestamp<?1], and how many *)
Definition delete_old (cutoff : Z) (s : t) : outcome ObservabilityError.t (Z * t) :=
  let kept := bfilter (fun r => negb (row_timestamp r <? cutoff)) (observations s) in
  Ok (Z.of_nat (length (observations s) - length kept), mk (runs s) kept (last_rowid s)).
(** [DELETE FROM runs WHERE started_at<?1 AND status!='running'] *)
Definition delete_old_runs (cutoff : Z) (s : t) : outcome ObservabilityError.t (unit * t) :=
  Ok (tt, mk (bfilter (fun r => negb ((row_started_at r <? cutoff) && negb (bool_decide (row_status r = "running")))) (runs s))
             (observations s) (last_rowid s)).
(** [DELETE FROM observations WHERE event_id IN (SELECT event_id FROM observations ORDER BY event_id
    LIMIT MAX(1,(SELECT COUNT( * )/10 FROM observations)))] *)
Definition delete_batch (s : t) : outcome ObservabilityError.t (Z * t) :=
  let n := Nat.max 1 (length (observations s) / 10) in
  Ok (Z.of_nat (length (take n (observations s))), mk (runs s) (drop n (observations s)) (last_rowid s)).

(** ** Methods *)

Definition start_run (run : Run.t) : sql unit :=
  started_at ← lift (bind_u64 (Run.started_at run));
  statement (insert_run (RunRow (Run.run_id run) (run_text run) started_at "running")).

Definition get_run (id : string) : sql (option Run.t) :=
  payload ← statement (select_run id);
  match payload with
  | Some text => run ← lift (decode (run_of text)); mret (Some run)
  | None => mret None
  end.

(** [finish_run] up to the statement that writes: the connection is released in between. *)
Definition finished (status : RunStatus.t) (finished_at : Z) (outcome : option string) (run : Run.t) : Run.t :=
  let health :=
    if bool_decide (outcome = Some "failed") then RunHealth.Failed
    else match status with
         | RunStatus.Completed => RunHealth.Healthy
         | RunStatus.Cancelled | RunStatus.Interrupted => RunHealth.Degraded
         | RunStatus.Running => RunHealth.Unknown
         end in
  Run.mk (Run.run_id run) (Run.workspace_session_id run) (Run.agent_session_id run) (Run.target_summary run)
    (Run.created_by run) status health (Run.started_at run) (Some finished_at) outcome.
Definition check_finish (id : string) (status : RunStatus.t) (finished_at : Z) (outcome : option string) : sql Run.t :=
  guard (negb (bool_decide (status = RunStatus.Running))) (ObservabilityError.InvalidTransition "finished run cannot remain running") ;;
  found ← get_run id;
  run ← lift (ok_or (ObservabilityError.RunNotFound id) found);
  guard (bool_decide (Run.status run = RunStatus.Running))
        (ObservabilityError.InvalidTransition ("run " +:+ id +:+ " is already terminal")) ;;
  mret (finished status finished_at outcome run).
Definition write_finish (id : string) (run : Run.t) : sql unit :=
  statement (update_run id (run_text run) (RunStatus.name (Run.status run))).
Definition finish_run (id : string) (status : RunStatus.t) (finished_at : Z) (outcome : option string) : sql Run.t :=
  run ← check_finish id status finished_at outcome;
  write_finish id run ;;
  mret run.

Definition clamp (low high n : Z) : Z := Z.max low (Z.min n high).
Definition list_runs (limit : Z) : sql (list Run.t) :=
  values ← statement (select_runs (Z.to_nat (clamp 1 500 limit)));
  lift (decode_all (fun text => decode (run_of text)) values).

Definition append (observation : Observation.t) : sql Z :=
  let value := Observation.set_event_id 0 observation in
  timestamp ← lift (bind_u64 (Observation.timestamp value));
  statement (insert_observation (Observation.run_id value) timestamp (observation_text value)).

Definition numbered (row : Z * string) : outcome ObservabilityError.t Observation.t :=
  value ← decode (observation_of row.2); Ok (Observation.set_event_id row.1 value).
Definition query (q : ObservationQuery.t) : sql (list Observation.t) :=
  after ← lift (bind_u64 (default 0 (ObservationQuery.after_event_id q)));
  rows ← statement (select_observations (ObservationQuery.run_id q) after (Z.to_nat (clamp 1 1000 (ObservationQuery.limit q))));
  lift (decode_all numbered rows).

(** [database_bytes turn]: the size of the files at a turn of the loop. *)
Context (database_bytes : nat -> Z).
Fixpoint shrink (fuel turn : nat) (max_bytes removed : Z) : sql Z :=
  if negb (database_bytes turn >? max_bytes) then mret removed
  else
    match fuel with
    | O => lift Panic
    | S fuel' =>
        batch ← statement delete_batch;
        if batch =? 0 then mret removed
        else
          statement (fun s => Ok (tt, s)) ;;    (* PRAGMA wal_checkpoint(TRUNCATE); VACUUM; *)
          shrink fuel' (S turn) max_bytes (removed + batch)
    end.
Definition prune_with_max_bytes (fuel : nat) (now_ms max_bytes : Z) : sql Z :=
  cutoff ← lift (bind_u64 (saturating_sub now_ms RETENTION_MS));
  removed ← statement (delete_old cutoff);
  statement (delete_old_runs cutoff) ;;
  shrink fuel 0 max_bytes removed.
Definition prune (fuel : nat) (now_ms : Z) : sql Z := prune_with_max_bytes fuel now_ms MAX_BYTES.
End store.

(** ** Statements *)

Section proofs.
Context {W : RecordText} (refused out_of_range constraint full : string) (order_by_started_at : list run_row -> list run_row).

Lemma wp_statement {A} (f : t -> outcome ObservabilityError.t (A * t)) s (Q : outcome ObservabilityError.t A -> t -> Prop) :
  Q (Err (ObservabilityError.Sql refused)) s ->
  match f s with Ok (a, s') => Q (Ok a) s' | Err e => Q (Err e) s | Panic => Q Panic s end ->
  wp (statement refused f) s Q.
Proof.
  intros Hr Hf w. unfold statement, write_ok, mbind, M_bind. cbn. destruct (io_ok w (io_at w)); [|exact Hr].
  cbn. by destruct (f s) as [[a s']|e|].
Qed.
Lemma wp_statement_bind {A B} (f : t -> outcome ObservabilityError.t (A * t)) (k : A -> M t ObservabilityError.t B) s
    (Q : outcome ObservabilityError.t B -> t -> Prop) :
  Q (Err (ObservabilityError.Sql refused)) s ->
  match f s with Ok (a, s') => wp (k a) s' Q | Err e => Q (Err e) s | Panic => Q Panic s end ->
  wp (statement refused f ≫= k) s Q.
Proof. intros Hr Hf. apply wp_bind, wp_statement; [exact Hr|]. by destruct (f s) as [[a s']|e|]. Qed.
Lemma wp_bind_u64 {B} n (k : Z -> M t ObservabilityError.t B) s (Q : outcome ObservabilityError.t B -> t -> Prop) :
  Q (Err (ObservabilityError.Sql out_of_range)) s -> (n <= I64_MAX -> wp (k n) s Q) -> wp (lift (bind_u64 out_of_range n) ≫= k) s Q.
Proof.
  intros He Hk. unfold bind_u64. destruct (n <=? I64_MAX) eqn:Hn; [|intros w; exact He]. apply Hk. lia.
Qed.

(** ** Pruning *)

Definition recent (cutoff : Z) (r : observation_row) : bool := negb (row_timestamp r <? cutoff).
Definition running_row (r : run_row) : bool := bool_decide (row_status r = "running").

(** What the loop comes to: the latest observations, and it was worth it. *)
Definition first_below (database_bytes : nat -> Z) (max_bytes : Z) (from turn : nat) : Prop :=
  (from <= turn)%nat /\ database_bytes turn <= max_bytes /\ forall i, (from <= i < turn)%nat -> max_bytes < database_bytes i.
Definition shrunk (database_bytes : nat -> Z) (max_bytes : Z) (from : nat) (removed : Z) (s : t) (o : outcome ObservabilityError.t Z) (s' : t) : Prop :=
  runs s' = runs s /\ observations s' `suffix_of` observations s /\
  match o with
  | Ok n => n = removed + Z.of_nat (length (observations s) - length (observations s')) /\
            ((exists turn, first_below database_bytes max_bytes from turn) \/ observations s' = [])
  | Err _ => True
  | Panic => False
  end.

Lemma shrink_ends database_bytes fuel turn max_bytes removed s :
  (length (observations s) < fuel)%nat ->
  wp (shrink refused database_bytes fuel turn max_bytes removed) s (shrunk database_bytes max_bytes turn removed s).
Proof.
  revert turn removed s. induction fuel as [|fuel IH]; intros turn removed s Hf; [lia|]. cbn [shrink].
  destruct (database_bytes turn >? max_bytes) eqn:Hb; cbn [negb]; cycle 1.
  { apply wp_ret. split; [done|]. split; [done|]. split; [lia|]. left. exists turn. split; [lia|]. split; [lia|]. lia. }
  apply wp_statement_bind; [by split|]. unfold delete_batch. set (n := Nat.max 1 _).
  assert (Hn : (1 <= n)%nat) by lia. assert (Hsuffix : drop n (observations s) `suffix_of` observations s) by (exists (take n (observations s)); by rewrite take_drop).
  rewrite length_take. destruct (Z.of_nat (n `min` length (observations s)) =? 0) eqn:He.
  { apply wp_ret. split; [done|]. split; [done|]. apply Z.eqb_eq in He. clearbody n. assert (length (observations s) = O) by lia.
    cbn [observations]. rewrite length_drop. split; [lia|]. right. apply nil_length_inv. rewrite length_drop. lia. }
  apply wp_statement_bind; [by split|]. apply Z.eqb_neq in He. clearbody n.
  eapply wp_mono; [apply IH; cbn [observations]; rewrite length_drop; lia|].
  intros o s' (Hr & Hs & Ho). cbn [runs observations] in *. split; [exact Hr|]. split; [by etrans|].
  destruct o as [m| |]; [|done..]. destruct Ho as [-> Ho]. apply suffix_length in Hs. rewrite length_drop in *. split; [lia|].
  destruct Ho as [(k & Hk & Hbelow & Habove)|Hnone]; [left|by right]. exists k. split; [lia|]. split; [exact Hbelow|].
  intros i Hi. destruct (decide (i = turn)) as [->|]; [lia|]. apply Habove. lia.
Qed.

Lemma bfilter_running cutoff l r :
  r ∈ l -> running_row r = true ->
  r ∈ bfilter (fun r => negb ((row_started_at r <? cutoff) && negb (bool_decide (row_status r = "running")))) l.
Proof.
  intros Hr Hrun. apply elem_of_bfilter. split; [|exact Hr]. unfold running_row in Hrun. by rewrite Hrun, andb_false_r.
Qed.

(** Pruning ends, however large the files stay: the loop deletes at least one observation a turn, and one
    turn more than there are observations is enough.  What is left is the latest of the observations that
    are not too old (or everything, when the database refuses the first statement), and every run that is
    running; a success counts what went, and stops where the files have come below the limit for the first
    time or no observation is left. *)
Theorem prune_ends database_bytes fuel now max_bytes s w :
  (length (observations s) < fuel)%nat ->
  let cutoff := saturating_sub now RETENTION_MS in
  let '(o, s', _) := prune_with_max_bytes refused out_of_range database_bytes fuel now max_bytes s w in
  o <> Panic /\
  (observations s' = observations s \/ observations s' `suffix_of` bfilter (recent cutoff) (observations s)) /\
  (forall r, r ∈ runs s -> running_row r = true -> r ∈ runs s') /\
  forall n, o = Ok n ->
    n = Z.of_nat (length (observations s) - length (observations s')) /\
    ((exists turn, first_below database_bytes max_bytes 0 turn) \/ observations s' = []) /\
    forall r, r ∈ runs s' <-> r ∈ runs s /\ (cutoff <= row_started_at r \/ running_row r = true).
Proof.
  intros Hf cutoff.
  enough (H : wp (prune_with_max_bytes refused out_of_range database_bytes fuel now max_bytes) s (fun o s' =>
    o <> Panic /\ (observations s' = observations s \/ observations s' `suffix_of` bfilter (recent cutoff) (observations s)) /\
    (forall r, r ∈ runs s -> running_row r = true -> r ∈ runs s') /\
    forall n, o = Ok n -> n = Z.of_nat (length (observations s) - length (observations s')) /\
      ((exists turn, first_below database_bytes max_bytes 0 turn) \/ observations s' = []) /\
      forall r, r ∈ runs s' <-> r ∈ runs s /\ (cutoff <= row_started_at r \/ running_row r = true))).
  { specialize (H w). by destruct (prune_with_max_bytes _ _ _ _ _ _ s w) as [[o s'] w']. }
  unfold prune_with_max_bytes. fold cutoff. apply wp_bind_u64; [by split_and!; [|left|..]|]. intros _.
  apply wp_statement_bind; [by split_and!; [|left|..]|]. unfold delete_old.
  change (fun r => negb (row_timestamp r <? cutoff)) with (recent cutoff). set (kept := bfilter (recent cutoff) (observations s)).
  assert (Hk : (length kept <= length (observations s))%nat) by (apply sublist_length, bfilter_sublist).
  apply wp_statement_bind; [by split_and!; [|right|..]|]. unfold delete_old_runs. cbn [runs observations last_rowid].
  eapply wp_mono; [apply shrink_ends; cbn [observations]; lia|]. intros o s' (Hr & Hs & Ho). cbn [runs observations] in *.
  split; [by destruct o|]. split; [by right|]. rewrite Hr. split; [intros r ?; by apply bfilter_running|].
  intros n ->. destruct Ho as [-> Ho]. apply suffix_length in Hs. split; [lia|]. split; [exact Ho|].
  intros r. rewrite elem_of_bfilter. unfold running_row. destruct (bool_decide (row_status r = "running")).
  - rewrite andb_false_r. split; [intros [_ ?]; split; [done|by right]|by intros [? _]].
  - rewrite andb_true_r. split; [intros [? ?]; split; [done|left; lia]|]. intros [? [?|?]]; [|done]. split; [lia|done].
Qed.
End proofs.

(** ** The life of a run *)

Section lives.
Context {W : RecordText} (settle : Observation.t -> Observation.t) (Hread : reads_back W settle).
Context (refused out_of_range constraint full : string) (order_by_started_at : list run_row -> list run_row).

(** A row holds the text of its run, and the columns agree with it. *)
Definition row_of (run : Run.t) : run_row :=
  RunRow (Run.run_id run) (run_text run) (Run.started_at run) (RunStatus.name (Run.status run)).
Definition held (s : t) (run : Run.t) : Prop := row_of run ∈ runs s.
Definition consistent (s : t) : Prop :=
  NoDup (row_run_id <$> runs s) /\ forall r, r ∈ runs s -> exists run, r = row_of run.

(** What changes the tables. *)
Inductive change :=
  | StartRun (run : Run.t)
  | FinishRun (id : string) (status : RunStatus.t) (finished_at : Z) (outcome : option string)
  | Append (observation : Observation.t)
  | Prune (fuel : nat) (now max_bytes : Z) (database_bytes : nat -> Z).
Definition ignore {A} (m : M t ObservabilityError.t A) : M t ObservabilityError.t unit := _ ← m; mret tt.
Definition change_of (c : change) : M t ObservabilityError.t unit :=
  match c with
  | StartRun run => start_run refused out_of_range constraint run
  | FinishRun id status at_ outcome => ignore (finish_run refused id status at_ outcome)
  | Append o => ignore (append refused out_of_range full o)
  | Prune fuel now max_bytes bytes => ignore (prune_with_max_bytes refused out_of_range bytes fuel now max_bytes)
  end.

Lemma name_inj s s' : RunStatus.name s = RunStatus.name s' -> s = s'.
Proof. by destruct s, s'. Qed.
Lemma text_inj r r' : run_text r = run_text r' -> r = r'.
Proof. intros He. pose proof (run_reads_back _ _ Hread r) as H1. pose proof (run_reads_back _ _ Hread r') as H2. rewrite He in H1. congruence. Qed.

Lemma held_run s id text run :
  consistent s -> run_payload <$> bfind (run_key id) (runs s) = Some text -> run_of text = inr run -> held s run /\ Run.run_id run = id.
Proof.
  intros [_ Hrow] Hf Ht. destruct (bfind _ _) as [r|] eqn:Hb; [|done]. simpl in Hf. injection Hf as <-.
  apply bfind_Some in Hb as [Hk Hin]. apply bool_decide_eq_true_1 in Hk. destruct (Hrow r Hin) as [run' ->].
  simpl in *. rewrite (run_reads_back _ _ Hread) in Ht. injection Ht as ->. by split.
Qed.
Lemma held_unique s run run' : consistent s -> held s run -> held s run' -> Run.run_id run = Run.run_id run' -> run = run'.
Proof.
  intros [Hnd _] H1 H2 Hid. apply text_inj. apply list_elem_of_lookup in H1 as [i Hi]. apply list_elem_of_lookup in H2 as [j Hj].
  assert (i = j) as ->.
  { eapply (NoDup_lookup _ _ _ (Run.run_id run) Hnd); rewrite list_lookup_fmap; [by rewrite Hi|by rewrite Hj, Hid]. }
  rewrite Hi in Hj. by injection Hj.
Qed.

(** What one change leaves of the runs. *)
Definition lives_on (s s' : t) : Prop :=
  consistent s' /\
  (forall run, held s run -> Run.status run <> RunStatus.Running -> held s' run \/ forall run', held s' run' -> Run.run_id run' <> Run.run_id run) /\
  (forall run, held s run -> Run.status run = RunStatus.Running ->
     held s' run \/ exists status finished_at outcome, status <> RunStatus.Running /\ held s' (finished status finished_at outcome run)) /\
  (forall run', held s' run' -> (forall run, held s run -> Run.run_id run <> Run.run_id run') -> Run.status run' = RunStatus.Running).
Definition proper (c : change) : Prop := match c with StartRun run => Run.status run = RunStatus.Running | _ => True end.

Lemma lives_same s s' : consistent s -> runs s' = runs s -> lives_on s s'.
Proof.
  intros Hc Hr. unfold lives_on, consistent, held. rewrite Hr. split; [exact Hc|]. split; [by left|]. split; [by left|].
  intros run' Hin Hno. by destruct (Hno run' Hin).
Qed.

Lemma wp_ignore {A} (m : M t ObservabilityError.t A) s (Q : t -> Prop) : wp m s (fun _ => Q) -> wp (ignore m) s (fun _ => Q).
Proof. intros Hm. apply wp_bind. eapply wp_mono; [exact Hm|]. intros [a|e|] s' Hq; [by intros w|done..]. Qed.

Lemma start_lives run s :
  consistent s -> Run.status run = RunStatus.Running -> wp (start_run refused out_of_range constraint run) s (fun _ => lives_on s).
Proof.
  intros Hc Hrun. unfold start_run. apply wp_bind_u64; [by apply lives_same|]. intros Hmax.
  apply wp_statement; [by apply lives_same|]. unfold insert_run. cbn [row_run_id].
  destruct (existsb (run_key (Run.run_id run)) (runs s)) eqn:Hex; [by apply lives_same|].
  assert (Hnew : forall r, r ∈ runs s -> row_run_id r <> Run.run_id run).
  { intros r Hr Hid. apply not_true_iff_false in Hex. apply Hex, existsb_exists. exists r. split; [by apply list_elem_of_In|].
    by apply bool_decide_eq_true_2. }
  replace (RunRow _ _ _ _) with (row_of run) by (unfold row_of; by rewrite Hrun). destruct Hc as [Hnd Hrow]. split_and!.
  - split; cbn [runs].
    + rewrite fmap_app. apply NoDup_app. split; [exact Hnd|]. split; [|apply NoDup_singleton].
      intros x Hx Hy%list_elem_of_singleton. apply list_elem_of_fmap in Hx as (r & -> & Hr). by apply (Hnew r).
    + intros r [Hr| ->%list_elem_of_singleton]%elem_of_app; [by apply Hrow|by exists run].
  - intros r Hr _. left. apply elem_of_app. by left.
  - intros r Hr _. left. apply elem_of_app. by left.
  - intros r [Hr| He%list_elem_of_singleton]%elem_of_app Hno; [by destruct (Hno r Hr)|].
    injection He as _ Ht _ _. by rewrite (text_inj _ _ Ht).
Qed.

Lemma update_lives s run status at_ outcome :
  consistent s -> held s run -> Run.status run = RunStatus.Running -> status <> RunStatus.Running ->
  let run' := finished status at_ outcome run in
  lives_on s (mk ((fun r => if run_key (Run.run_id run) r then RunRow (row_run_id r) (run_text run') (row_started_at r) (RunStatus.name status) else r) <$> runs s)
                 (observations s) (last_rowid s)).
Proof.
  intros Hc Hheld Hrun Hst run'. match goal with |- context [mk (?g <$> runs s)] => set (f := g) end.
  assert (Hrow : forall r, held s r -> f (row_of r) = row_of (if bool_decide (Run.run_id r = Run.run_id run) then run' else r)).
  { intros r Hr. unfold f, run_key. cbn [row_run_id row_of]. destruct (bool_decide_reflect (Run.run_id r = Run.run_id run)) as [Hid|]; [|done].
    by rewrite (held_unique _ _ _ Hc Hr Hheld Hid). }
  assert (Hin : forall r, held s r -> row_of (if bool_decide (Run.run_id r = Run.run_id run) then run' else r) ∈ f <$> runs s).
  { intros r Hr. rewrite <- Hrow by done. by apply list_elem_of_fmap_2. }
  assert (Hback : forall r, r ∈ f <$> runs s -> exists x, held s x /\ r = row_of (if bool_decide (Run.run_id x = Run.run_id run) then run' else x)).
  { intros r (r0 & -> & H0)%list_elem_of_fmap. destruct (proj2 Hc r0 H0) as [x ->]. exists x. by split; [|apply Hrow]. }
  split_and!.
  - split; cbn [runs].
    + replace (row_run_id <$> (f <$> runs s)) with (row_run_id <$> runs s); [apply Hc|].
      rewrite <- list_fmap_compose. apply list_fmap_ext. intros i r _. unfold f. simpl. by destruct (run_key _ r).
    + intros r Hr. destruct (Hback r Hr) as (x & _ & ->). by eexists.
  - intros r Hr Hnot. left. unfold held. cbn [runs]. pose proof (Hin r Hr) as Hi.
    destruct (bool_decide_reflect (Run.run_id r = Run.run_id run)) as [Hid|]; [|exact Hi].
    by rewrite (held_unique _ _ _ Hc Hr Hheld Hid) in Hnot.
  - intros r Hr _. unfold held. cbn [runs]. pose proof (Hin r Hr) as Hi.
    destruct (bool_decide_reflect (Run.run_id r = Run.run_id run)) as [Hid|]; [right|by left].
    rewrite (held_unique _ _ _ Hc Hr Hheld Hid). by exists status, at_, outcome.
  - intros r Hr Hno. destruct (Hback _ Hr) as (x & Hx & He). injection He as _ Ht _ _. apply text_inj in Ht as ->.
    destruct (bool_decide_reflect (Run.run_id x = Run.run_id run)); [by destruct (Hno run Hheld)|by destruct (Hno x Hx)].
Qed.

Lemma check_finish_run id status at_ outcome s :
  consistent s -> wp (check_finish refused id status at_ outcome) s (fun o s' =>
    s' = s /\ o <> Panic /\
    forall run', o = Ok run' -> exists run, held s run /\ Run.run_id run = id /\ Run.status run = RunStatus.Running /\
      status <> RunStatus.Running /\ run' = finished status at_ outcome run).
Proof.
  intros Hc. unfold check_finish. apply wp_guard_bind; [|done]. intros Hst. unfold get_run. apply wp_bind_assoc.
  apply wp_statement_bind; [done|]. unfold select_run. destruct (run_payload <$> _) as [text|] eqn:Hf; [|apply wp_ret_bind; by intros w].
  apply wp_bind_assoc, wp_lift_bind; [|intros e _; done|unfold decode; by destruct (run_of text)].
  intros run Hrun. unfold decode in Hrun. destruct (run_of text) as [|run'] eqn:Ht; [done|]. injection Hrun as ->.
  destruct (held_run _ _ _ _ Hc Hf Ht) as [Hheld Hid]. apply wp_ret_bind, wp_lift_bind; [|done..].
  intros r [= <-]. apply negb_true_iff, bool_decide_eq_false_1 in Hst. apply wp_guard_bind; [|done].
  intros Hr%bool_decide_eq_true_1 w. split; [done|]. split; [done|]. intros run' [= <-]. by exists run.
Qed.
Lemma finish_lives id status at_ outcome s :
  consistent s -> wp (finish_run refused id status at_ outcome) s (fun _ => lives_on s).
Proof.
  intros Hc. unfold finish_run. eapply wp_seq; [by apply check_finish_run|..].
  - intros run' s' (-> & _ & Hrun). destruct (Hrun run' eq_refl) as (run & Hheld & <- & Hr & Hst & ->).
    unfold write_finish. apply wp_statement_bind; [by apply lives_same|]. cbn. intros w. by apply update_lives.
  - intros e s' (-> & _). by apply lives_same.
  - intros s' (-> & Hp & _). done.
Qed.

Lemma lives_filter p s os n :
  consistent s -> (forall r, r ∈ runs s -> running_row r = true -> p r = true) -> lives_on s (mk (bfilter p (runs s)) os n).
Proof.
  intros Hc Hp. assert (Hin : forall run, held (mk (bfilter p (runs s)) os n) run -> held s run).
  { intros run Hr. unfold held in Hr. cbn [runs] in Hr. by apply elem_of_bfilter in Hr as [_ Hr]. }
  split_and!.
  - split; cbn [runs].
    + eapply sublist_NoDup; [apply Hc|]. apply fmap_sublist, bfilter_sublist.
    + intros r [_ Hr]%elem_of_bfilter. by apply Hc.
  - intros run Hrun Hnot. destruct (p (row_of run)) eqn:Hrow; [left; by apply elem_of_bfilter|right].
    intros run' Hrun' Hid. pose proof (held_unique _ _ _ Hc (Hin _ Hrun') Hrun Hid) as ->.
    apply elem_of_bfilter in Hrun' as [Hrow' _]. congruence.
  - intros run Hrun Hr. left. apply elem_of_bfilter. split; [|exact Hrun]. apply Hp; [exact Hrun|].
    apply bool_decide_eq_true_2. simpl. by rewrite Hr.
  - intros run Hrun Hno. by destruct (Hno run (Hin _ Hrun)).
Qed.
Lemma lives_runs s s1 s2 : lives_on s s1 -> runs s2 = runs s1 -> lives_on s s2.
Proof. intros Hl Hr. unfold lives_on, consistent, held. rewrite Hr. exact Hl. Qed.

Definition dropped (s s' : t) : Prop := last_rowid s' = last_rowid s /\ observations s' `sublist_of` observations s.
Lemma shrink_runs database_bytes fuel turn max_bytes removed s :
  wp (shrink refused database_bytes fuel turn max_bytes removed) s (fun _ s' => runs s' = runs s /\ dropped s s').
Proof.
  revert turn removed s. induction fuel as [|fuel IH]; intros turn removed s; cbn [shrink];
    (destruct (database_bytes turn >? max_bytes); cbn [negb]; [|by intros w]); [by intros w|].
  apply wp_statement_bind; [done|]. unfold delete_batch.
  assert (Hd : dropped s (mk (runs s) (drop (Nat.max 1 (length (observations s) / 10)) (observations s)) (last_rowid s))).
  { split; [done|]. apply sublist_drop. }
  case_match; [by intros w|]. apply wp_statement_bind; [done|].
  eapply wp_mono; [apply IH|]. intros o s' (-> & Hl & Hs). split; [done|]. split; [by rewrite Hl|]. etrans; [exact Hs|apply Hd].
Qed.
Lemma prune_lives fuel now max_bytes database_bytes s :
  consistent s -> wp (prune_with_max_bytes refused out_of_range database_bytes fuel now max_bytes) s (fun _ => lives_on s).
Proof.
  intros Hc. unfold prune_with_max_bytes. apply wp_bind_u64; [by apply lives_same|]. intros _.
  apply wp_statement_bind; [by apply lives_same|]. unfold delete_old. apply wp_statement_bind; [by apply lives_same|].
  unfold delete_old_runs. cbn [runs]. eapply wp_mono; [apply shrink_runs|]. intros o s' [Hr _].
  eapply lives_runs; [|exact Hr]. apply lives_filter; [exact Hc|]. intros r _ Hrun. unfold running_row in Hrun.
  by rewrite Hrun, andb_false_r.
Qed.
Lemma append_lives o s : consistent s -> wp (append refused out_of_range full o) s (fun _ => lives_on s).
Proof.
  intros Hc. unfold append. apply wp_bind_u64; [by apply lives_same|]. intros _.
  apply wp_statement; [by apply lives_same|]. unfold insert_observation. destruct (last_rowid s =? I64_MAX); by apply lives_same.
Qed.

(** A history of changes, whatever fails of each. *)
Definition changed (s s' : t) : Prop := exists c w, proper c /\ (change_of c s w).1.2 = s'.
Lemma change_lives c s : proper c -> consistent s -> wp (change_of c) s (fun _ => lives_on s).
Proof.
  intros Hp Hc. destruct c; cbn [change_of]; [by apply start_lives|apply wp_ignore..];
    [by apply finish_lives|by apply append_lives|by apply prune_lives].
Qed.
Lemma new_consistent : consistent new.
Proof. split; [by apply NoDup_nil|]. by intros r ?%not_elem_of_nil. Qed.

(** C38. A run finishes once: through any history of changes of the store, each of which the database may
    refuse at any statement, the ids of its runs stay distinct and their columns true; then one more change
    leaves a run that is running in place or finishes it, never losing it, leaves a finished one as it is
    or prunes it, and what is new is running. *)
Theorem runs_finish_once s c w :
  rtc changed new s -> proper c -> consistent s /\ lives_on s (change_of c s w).1.2.
Proof.
  intros Hs Hp. assert (Hc : consistent s).
  { pose proof new_consistent as Hn. revert Hn. induction Hs as [x|x y z (c' & w' & Hp' & <-) _ IH]; [done|].
    intros Hx. apply IH. specialize (change_lives c' x Hp' Hx w'). by intros [? _]. }
  split; [exact Hc|]. by apply change_lives.
Qed.
End lives.

(** ** Reading with a cursor *)

Section pages.
Context {W : RecordText} (settle : Observation.t -> Observation.t) (Hread : reads_back W settle).
Context (refused out_of_range constraint full : string).
Context (run : option string).

Abbreviation matching after s := (bfilter (selects run after) (observations s)).

(** Keys grow along the table, which [AUTOINCREMENT] numbers on; what it holds can be read. *)
Definition older (x y : observation_row) : Prop := row_event_id x < row_event_id y.
Definition readable (r : observation_row) : Prop := exists o, payload r = observation_text o.
Definition numbered_on (s : t) : Prop :=
  StronglySorted older (observations s) /\
  (forall r, r ∈ observations s -> row_event_id r <= last_rowid s /\ readable r) /\ last_rowid s <= I64_MAX.

(** The observation of a row, under its key. *)
Definition shown (r : observation_row) : option Observation.t :=
  match observation_of (payload r) with inr o => Some (Observation.set_event_id (row_event_id r) o) | inl _ => None end.

(** A reader that remembers the last key it was given. *)
Record reading := Reading { cursor : Z; got : list Observation.t }.
Definition next_cursor (c : Z) (page : list Observation.t) : Z := from_option Observation.event_id c (last page).
Definition read_page (limit : Z) (r : reading) : M t ObservabilityError.t reading :=
  page ← query refused out_of_range (ObservationQuery.mk run (Some (cursor r)) limit);
  mret (Reading (next_cursor (cursor r) page) (got r ++ page)).

Lemma decode_rows l :
  (forall r, r ∈ l -> readable r) ->
  decode_all numbered ((fun r => (row_event_id r, payload r)) <$> l) = Ok (omap shown l) /\
  (Observation.event_id <$> omap shown l) = (row_event_id <$> l).
Proof.
  induction l as [|r l IH]; intros Hl; [done|]. destruct IH as [IH1 IH2]; [intros x Hx; apply Hl; by right|].
  destruct (Hl r) as [o Ho]; [by left|]. rewrite fmap_cons. cbn [decode_all].
  assert (Hn : numbered (row_event_id r, payload r) = Ok (Observation.set_event_id (row_event_id r) (settle o))).
  { unfold numbered. cbn [fst snd]. by rewrite Ho, (observation_reads_back _ _ Hread). }
  assert (Hshown : omap shown (r :: l) = Observation.set_event_id (row_event_id r) (settle o) :: omap shown l).
  { cbn. unfold shown at 1. by rewrite Ho, (observation_reads_back _ _ Hread). }
  rewrite Hn, Hshown. cbn [mbind outcome_bind]. rewrite IH1. split; [done|]. rewrite !fmap_cons. by rewrite IH2.
Qed.

(** Past a row of a table there is what follows it. *)
Lemma past_sorted l x l' :
  StronglySorted older (l ++ x :: l') -> bfilter (fun r => row_event_id x <? row_event_id r) (l ++ x :: l') = l'.
Proof.
  intros Hs. rewrite bfilter_app. replace (bfilter _ l) with (@nil observation_row); cycle 1.
  { symmetry. apply bfilter_nil. intros y Hy. assert (older y x) by (eapply (StronglySorted_app_1_elem_of older); [exact Hs|exact Hy|by left]).
    unfold older in *. lia. }
  apply StronglySorted_app_1_r in Hs. apply StronglySorted_inv in Hs as [_ Hall]. simpl.
  rewrite Z.ltb_irrefl. clear -Hall. induction Hall as [|y l' Hy _ IH]; [done|]. simpl. unfold older in Hy.
  destruct (row_event_id x <? row_event_id y) eqn:?; [|lia]. by rewrite IH.
Qed.
Lemma sorted_bfilter p (l : list observation_row) : StronglySorted older l -> StronglySorted older (bfilter p l).
Proof. apply Slice.sublist_StronglySorted, bfilter_sublist. Qed.

Lemma matching_next after n s x :
  StronglySorted older (observations s) -> last (take n (matching after s)) = Some x ->
  after < row_event_id x /\ matching (row_event_id x) s = drop n (matching after s).
Proof.
  intros Hs Hx. apply last_Some in Hx as [l Hl].
  assert (Hm : matching after s = l ++ x :: drop n (matching after s)) by (rewrite <- (take_drop n) at 1; rewrite Hl; by rewrite <- app_assoc).
  assert (Hin : x ∈ matching after s) by (rewrite Hm; apply elem_of_app; right; by left).
  apply elem_of_bfilter in Hin as [Hsel _]. unfold selects in Hsel. apply andb_true_iff in Hsel as [_ Hlt]. split; [lia|].
  rewrite <- (past_sorted l x (drop n (matching after s))), <- Hm by (rewrite <- Hm; by apply sorted_bfilter).
  rewrite bfilter_bfilter. apply bfilter_ext. intros r _. unfold selects.
  destruct (match run with None => true | Some id => _ end); simpl; [|by rewrite ?andb_false_r].
  destruct (row_event_id x <? row_event_id r) eqn:?; simpl; [|done]. destruct (after <? row_event_id r) eqn:?; [done|lia].
Qed.

(** What a change does to the observations. *)
Definition grows (s s' : t) : Prop :=
  (observations s' = observations s /\ last_rowid s' = last_rowid s) \/
  exists r, observations s' = observations s ++ [r] /\ row_event_id r = last_rowid s + 1 /\ last_rowid s' = last_rowid s + 1 /\
    readable r /\ last_rowid s < I64_MAX.
Definition prunes (c : change) : bool := match c with Prune _ _ _ _ => true | _ => false end.

Lemma append_grows o s : last_rowid s <= I64_MAX -> wp (append refused out_of_range full o) s (fun _ => grows s).
Proof.
  intros Hmax. unfold append. apply wp_bind_u64; [by left|]. intros _. apply wp_statement; [by left|].
  unfold insert_observation. destruct (last_rowid s =? I64_MAX) eqn:Hfull; [by left|]. right. eexists. split; [done|].
  split; [done|]. split; [done|]. split; [by eexists|]. lia.
Qed.
Lemma check_finish_same id status at_ outcome s : wp (check_finish refused id status at_ outcome) s (fun _ s' => s' = s).
Proof.
  intros w. unfold check_finish, get_run, statement, guard, write_ok, mbind, M_bind.
  destruct (bool_decide (status = RunStatus.Running)); [done|]. cbn. destruct (io_ok w (io_at w)); [|done]. cbn.
  destruct (run_payload <$> _) as [text|]; [|done]. cbn. destruct (run_of text) as [|run']; [done|]. cbn.
  by destruct (bool_decide (Run.status run' = RunStatus.Running)).
Qed.
Lemma change_grows c s :
  prunes c = false -> last_rowid s <= I64_MAX -> wp (change_of refused out_of_range constraint full c) s (fun _ => grows s).
Proof.
  intros Hc Hmax. destruct c as [r|id st at_ out|o|]; [| | |done]; cbn [change_of].
  - unfold start_run. apply wp_bind_u64; [by left|]. intros _. apply wp_statement; [by left|]. unfold insert_run.
    destruct (existsb _ _); by left.
  - apply wp_ignore. unfold finish_run. eapply wp_seq; [apply check_finish_same|intros run' s' ->|by intros e s' ->; left|by intros s' ->; left].
    unfold write_finish. apply wp_statement_bind; [by left|]. cbn. intros w. by left.
  - by apply wp_ignore, append_grows.
Qed.

Lemma grows_numbered s s' : numbered_on s -> grows s s' -> numbered_on s'.
Proof.
  intros (Hs & Hr & Hm) [[Ho Hl]|(r & Ho & Hid & Hl & Hrd & Hlt)]; unfold numbered_on; rewrite Ho, Hl; [done|].
  split; [|split; [|lia]].
  - clear -Hs Hr Hid. induction (observations s) as [|x l IH]; [by repeat constructor|]. apply StronglySorted_inv in Hs as [Hs Hx]. simpl.
    constructor; [apply IH; [exact Hs|intros y Hy; apply Hr; by right]|]. apply Forall_app. split; [exact Hx|]. constructor; [|done].
    unfold older. destruct (Hr x) as [? _]; [by left|]. lia.
  - intros x [Hx| ->%list_elem_of_singleton]%elem_of_app; [destruct (Hr x Hx); split; [lia|done]|]. split; [lia|exact Hrd].
Qed.
Lemma dropped_numbered s s' : numbered_on s -> dropped s s' -> numbered_on s'.
Proof.
  intros (Hs & Hr & Hm) [Hl Hd]. unfold numbered_on. rewrite Hl. split; [|split; [|exact Hm]].
  - by eapply Slice.sublist_StronglySorted.
  - intros x Hx. apply Hr. by eapply sublist_subseteq.
Qed.
Lemma prune_drops fuel now max_bytes database_bytes s :
  wp (prune_with_max_bytes refused out_of_range database_bytes fuel now max_bytes) s (fun _ => dropped s).
Proof.
  unfold prune_with_max_bytes. apply wp_bind_u64; [done|]. intros _. apply wp_statement_bind; [done|]. unfold delete_old.
  apply wp_statement_bind; [split; [done|apply bfilter_sublist]|]. unfold delete_old_runs. cbn [runs observations last_rowid].
  eapply wp_mono; [apply shrink_runs|]. intros o s' (_ & Hl & Hd). split; [done|]. etrans; [exact Hd|]. apply bfilter_sublist.
Qed.
Lemma change_numbers c s :
  numbered_on s -> wp (change_of refused out_of_range constraint full c) s (fun _ => numbered_on).
Proof.
  intros Hn. destruct (prunes c) eqn:Hp.
  - destruct c; try done. apply wp_ignore. eapply wp_mono; [apply prune_drops|]. intros o s' Hd. by eapply dropped_numbered.
  - eapply wp_mono; [apply change_grows; [exact Hp|apply Hn]|]. intros o s' Hg. by eapply grows_numbered.
Qed.

(** ** A reader among writers *)

Inductive turn := Write (c : change) | Page (limit : Z).
Definition may_write (x : turn) : Prop := match x with Write c => prunes c = false | Page _ => True end.
Definition take_turn (x : turn) (s : t) (r : reading) (w : world) : t * reading * world :=
  match x with
  | Write c => let '(_, s', w') := change_of refused out_of_range constraint full c s w in (s', r, w')
  | Page limit => let '(o, s', w') := read_page limit r s w in (s', match o with Ok r' => r' | _ => r end, w')
  end.
Fixpoint take_turns (turns : list turn) (s : t) (r : reading) (w : world) : t * reading * world :=
  match turns with
  | [] => (s, r, w)
  | x :: turns' => let '(s', r', w') := take_turn x s r w in take_turns turns' s' r' w'
  end.

(** What the reader was given and what it still has to read is all there is past [from]. *)
Definition covered (from : Z) (s : t) (r : reading) : Prop :=
  numbered_on s /\ (cursor r = from \/ from < cursor r <= last_rowid s) /\
  omap shown (matching from s) = got r ++ omap shown (matching (cursor r) s).

Lemma write_covers from s s' r : covered from s r -> grows s s' -> covered from s' r.
Proof.
  intros (Hn & Hc & Hg) Hgrow. split; [by eapply grows_numbered|].
  destruct Hgrow as [[Ho Hl]|(x & Ho & Hid & Hl & _ & _)]; rewrite Ho, Hl; [done|].
  split; [destruct Hc; [by left|right; lia]|]. rewrite !bfilter_app, !omap_app, Hg, <- app_assoc. do 2 f_equal.
  destruct Hc as [->|Hc]; [done|]. simpl. unfold selects. rewrite Hid.
  destruct (from <? last_rowid s + 1) eqn:?, (cursor r <? last_rowid s + 1) eqn:?; try lia. done.
Qed.

Definition page_size (limit : Z) : nat := Z.to_nat (clamp 1 1000 limit).
Lemma read_page_covers limit from s r :
  covered from s r ->
  wp (read_page limit r) s (fun o s' => s' = s /\ forall r', o = Ok r' ->
    covered from s r' /\
    exists page, got r' = got r ++ page /\ (length page <= page_size limit)%nat /\
      ((length page < page_size limit)%nat -> matching (cursor r') s = [])).
Proof.
  intros (Hn & Hc & Hg). unfold read_page, query. apply wp_bind_assoc, wp_bind_u64; [done|]. intros _.
  apply wp_bind_assoc, wp_statement_bind; [done|]. unfold select_observations. cbn [ObservationQuery.after_event_id ObservationQuery.run_id ObservationQuery.limit from_option id].
  fold (page_size limit). set (rows := take (page_size limit) (matching (cursor r) s)).
  assert (Hrd : forall x, x ∈ rows -> readable x).
  { intros x Hx. apply Hn. apply (sublist_subseteq _ _ (sublist_take _ _)) in Hx. by apply elem_of_bfilter in Hx as [_ Hx]. }
  destruct (decode_rows rows Hrd) as [Hd Hids]. rewrite Hd. apply wp_ret_bind. intros w. cbn. split; [done|]. intros r' [= <-]. cbn [cursor got].
  assert (Hlen : length (omap shown rows) = length rows) by (rewrite <- (length_fmap Observation.event_id), Hids; apply length_fmap).
  assert (Hsize : (1 <= page_size limit)%nat) by (unfold page_size, clamp; lia).
  assert (Hcur : next_cursor (cursor r) (omap shown rows) = from_option row_event_id (cursor r) (last rows)).
  { unfold next_cursor. apply (f_equal last) in Hids. rewrite !fmap_last in Hids. by destruct (last (omap shown rows)), (last rows); simplify_eq/=. }
  assert (Hrows : (length rows <= page_size limit)%nat) by (unfold rows; rewrite length_take; lia).
  rewrite Hcur. destruct (last rows) as [x|] eqn:Hx; cbn [from_option].
  - destruct (matching_next (cursor r) (page_size limit) s x) as [Hlt Hm]; [apply Hn|exact Hx|].
    assert (Hxl : row_event_id x <= last_rowid s).
    { apply Hn. apply last_Some_elem_of in Hx. apply (sublist_subseteq _ _ (sublist_take _ _)) in Hx. by apply elem_of_bfilter in Hx as [_ Hx]. }
    split; [|exists (omap shown rows); split; [done|]; rewrite Hlen; split; [exact Hrows|]].
    + split; [exact Hn|]. cbn [cursor got]. split; [right; lia|]. rewrite Hm, Hg, <- app_assoc. f_equal.
      by rewrite <- omap_app; unfold rows; rewrite take_drop.
    + intros Hshort. rewrite Hm. apply drop_ge. unfold rows in Hshort. rewrite length_take in Hshort. lia.
  - apply last_None in Hx. assert (Hnone : matching (cursor r) s = []).
    { apply nil_length_inv. apply (f_equal length) in Hx. unfold rows in Hx. rewrite length_take in Hx. simpl in Hx. lia. }
    rewrite Hx. split; [|exists []; by split_and!; [|simpl; lia|]]. split; [exact Hn|]. split; [exact Hc|].
    cbn [got cursor]. simpl. rewrite app_nil_r. exact Hg.
Qed.

Lemma turns_cover turns from s r w :
  covered from s r -> Forall may_write turns -> covered from (take_turns turns s r w).1.1 (take_turns turns s r w).1.2.
Proof.
  revert s r w. induction turns as [|x turns IH]; intros s r w Hc Hw; [done|]. apply Forall_cons in Hw as [Hx Hw]. cbn [take_turns].
  destruct x as [c|limit]; cbn [take_turn].
  - pose proof (change_grows c s Hx (proj2 (proj2 (proj1 Hc))) w) as Hg. destruct (change_of _ _ _ _ c s w) as [[o s'] w'].
    apply IH; [by eapply write_covers|exact Hw].
  - pose proof (read_page_covers limit from s r Hc w) as Hp. destruct (read_page limit r s w) as [[o s'] w'].
    destruct Hp as [Hs Hp]. cbn in Hs, Hp. subst s'. apply IH; [|exact Hw]. destruct o as [r'| |]; [by apply Hp|done..].
Qed.

Lemma reachable_numbered s : rtc (changed refused out_of_range constraint full) new s -> numbered_on s.
Proof.
  intros Hs. assert (Hn : numbered_on new) by (split; [constructor|split; [by intros r ?%not_elem_of_nil|done]]).
  revert Hn. induction Hs as [x|x y z (c & w & _ & <-) _ IH]; [done|]. intros Hx. apply IH.
  specialize (change_numbers c x Hx w). done.
Qed.

(** C39. Reading by pages misses nothing: a reader that starts anywhere in a store and goes on from the last key
    of each page, while runs and observations are written between its pages and any statement may fail, has
    at every time been given exactly the matching observations up to its cursor, each once, in order and
    under its key; after a page that is not full it has been given all there are. *)
Theorem pages_miss_nothing turns s from w limit :
  rtc (changed refused out_of_range constraint full) new s -> Forall may_write turns ->
  let '(s1, r1, w1) := take_turns turns s (Reading from []) w in
  omap shown (matching from s1) = got r1 ++ omap shown (matching (cursor r1) s1) /\
  forall r2 s2 w2, read_page limit r1 s1 w1 = (Ok r2, s2, w2) ->
    s2 = s1 /\ exists page, got r2 = got r1 ++ page /\ (length page <= page_size limit)%nat /\
      ((length page < page_size limit)%nat -> got r2 = omap shown (matching from s1)).
Proof.
  intros Hs Hw. assert (Hc : covered from s (Reading from [])) by (split; [by apply reachable_numbered|]; by split; [left|]).
  pose proof (turns_cover turns from s _ w Hc Hw) as H1. destruct (take_turns turns s _ w) as [[s1 r1] w1]. cbn in H1.
  split; [apply H1|]. intros r2 s2 w2 Hrun. pose proof (read_page_covers limit from s1 r1 H1 w1) as H2. rewrite Hrun in H2.
  destruct H2 as [Hs2 H2]. split; [exact Hs2|]. destruct (H2 r2 eq_refl) as ((_ & _ & Hg) & page & Hp & Hle & Hshort).
  exists page. split; [exact Hp|]. split; [exact Hle|]. intros Hlt. rewrite Hg, (Hshort Hlt). simpl. by rewrite app_nil_r.
Qed.
End pages.

(** ** A store

    A codec by hand: fields in an array, values as the bits of [Samples]. *)

Definition option_text (v : Value) : option (option string) :=
  match v with VNull => Some None | VString s => Some (Some s) | _ => None end.
Definition option_number (v : Value) : option (option Z) :=
  match v with VNull => Some None | VNumber (PosInt n) => Some (Some n) | _ => None end.
Definition status_named (s : string) : option RunStatus.t :=
  bfind (fun x => bool_decide (RunStatus.name x = s)) [RunStatus.Running; RunStatus.Completed; RunStatus.Cancelled; RunStatus.Interrupted].
Definition health_named (s : string) : option RunHealth.t :=
  bfind (fun x => bool_decide (RunHealth.name x = s)) [RunHealth.Healthy; RunHealth.Degraded; RunHealth.Failed; RunHealth.Unknown].

Definition run_value (r : Run.t) : Value := VArray [
  VString (Run.run_id r); vopt VString (Run.workspace_session_id r); vopt VString (Run.agent_session_id r);
  VString (Run.target_summary r); VString (Run.created_by r); VString (RunStatus.name (Run.status r));
  VString (RunHealth.name (Run.health r)); vnat (Run.started_at r); vopt vnat (Run.finished_at r); vopt VString (Run.business_outcome r)].
Definition value_run (v : Value) : option Run.t :=
  match v with
  | VArray [VString i; ws; ag; VString t; VString c; VString s; VString h; VNumber (PosInt n); f; o] =>
      ws ← option_text ws; ag ← option_text ag; s ← status_named s; h ← health_named h; f ← option_number f; o ← option_text o;
      Some (Run.mk i ws ag t c s h n f o)
  | _ => None
  end.
Lemma value_run_value r : value_run (run_value r) = Some r.
Proof. by destruct r as [? [] [] ? ? [] [] ? [] []]. Qed.

Definition observation_value (o : Observation.t) : Value := VArray [
  vnat (Observation.event_id o); vopt VString (Observation.run_id o); vnat (Observation.timestamp o); VString (Observation.node_id o);
  VString (Observation.role o); VString (Observation.kind o); VString (Observation.name o); VString (Observation.status o);
  vopt vnat (Observation.duration_ms o); vopt VString (Observation.span_id o); vopt VString (Observation.parent_span_id o);
  vopt VString (Observation.request_id o); vopt VString (Observation.task_id o); vopt VString (Observation.process_id o);
  vopt VString (Observation.connection_id o); Observation.attributes o].
Definition value_observation (v : Value) : option Observation.t :=
  match v with
  | VArray [VNumber (PosInt e); r; VNumber (PosInt t); VString n; VString ro; VString k; VString na; VString st; d; sp; ps; rq; ta; pr; co; at_] =>
      r ← option_text r; d ← option_number d; sp ← option_text sp; ps ← option_text ps; rq ← option_text rq; ta ← option_text ta;
      pr ← option_text pr; co ← option_text co; Some (Observation.mk e r t n ro k na st d sp ps rq ta pr co at_)
  | _ => None
  end.
Lemma value_observation_value o : value_observation (observation_value o) = Some o.
Proof.
  assert (Ht : forall x, option_text (vopt VString x) = Some x) by (by intros []).
  assert (Hn : forall x, option_number (vopt vnat x) = Some x) by (by intros []).
  unfold observation_value, value_observation. cbn [vnat]. rewrite !Ht, Hn. by destruct o.
Qed.

Definition bit_text : RecordText := {|
  run_text r := Samples.value_text (run_value r);
  run_of s := match Samples.text_value s ≫= value_run with Some r => inr r | None => inl "expected value" end;
  observation_text o := Samples.value_text (observation_value o);
  observation_of s := match Samples.text_value s ≫= value_observation with Some o => inr o | None => inl "expected value" end;
|}.
Lemma bit_text_reads : reads_back bit_text id.
Proof.
  split; intros x; cbn [run_of run_text observation_of observation_text bit_text]; rewrite Samples.text_of_value; cbn [mbind option_bind].
  - by rewrite value_run_value.
  - by rewrite value_observation_value.
Qed.

Definition seen (run : option string) (timestamp : Z) : Observation.t := {|
  Observation.event_id := 0; Observation.run_id := run; Observation.timestamp := timestamp; Observation.node_id := "node";
  Observation.role := "controller"; Observation.kind := "rpc"; Observation.name := "status"; Observation.status := "completed";
  Observation.duration_ms := None; Observation.span_id := None; Observation.parent_span_id := None; Observation.request_id := None;
  Observation.task_id := None; Observation.process_id := None; Observation.connection_id := None; Observation.attributes := json_object [] |}.
Definition beginning (id : string) : Run.t := {|
  Run.run_id := id; Run.workspace_session_id := None; Run.agent_session_id := None; Run.target_summary := "test"; Run.created_by := "agent";
  Run.status := RunStatus.Running; Run.health := RunHealth.Unknown; Run.started_at := 1; Run.finished_at := None; Run.business_outcome := None |}.

Abbreviation sample_change := (change_of (W := bit_text) "refused" "range" "constraint" "full").
Definition willing : world := sample_world (fun _ => true).
Definition then_ (c : change) (s : t) : t := (sample_change c s willing).1.2.
Definition two : t := then_ (Append (seen None 3)) (then_ (Append (seen (Some "r1") 2)) (then_ (StartRun (beginning "r1")) new)).
Lemma then_changed c s s' : proper c -> rtc (changed (W := bit_text) "refused" "range" "constraint" "full") s' s ->
  rtc (changed (W := bit_text) "refused" "range" "constraint" "full") s' (then_ c s).
Proof. intros Hc Hs. eapply rtc_r; [exact Hs|]. by exists c, willing. Qed.
Lemma two_reachable : rtc (changed (W := bit_text) "refused" "range" "constraint" "full") new two.
Proof. repeat apply then_changed; try done; reflexivity. Qed.

Lemma prune_ends_witness :
  (length (observations two) < 3)%nat /\
  let '(o, s', _) := prune_with_max_bytes "refused" "range" (fun turn => 20 - 10 * Z.of_nat turn) 3 (RETENTION_MS + 3) 15 two willing in
  o <> Panic /\
  (observations s' = observations two \/ observations s' `suffix_of` bfilter (recent 3) (observations two)) /\
  (forall r, r ∈ runs two -> running_row r = true -> r ∈ runs s') /\
  forall n, o = Ok n ->
    n = Z.of_nat (length (observations two) - length (observations s')) /\
    ((exists turn, first_below (fun turn => 20 - 10 * Z.of_nat turn) 15 0 turn) \/ observations s' = []) /\
    forall r, r ∈ runs s' <-> r ∈ runs two /\ (3 <= row_started_at r \/ running_row r = true).
Proof.
  split; [vm_compute; lia|]. apply (prune_ends "refused" "range" (fun turn => 20 - 10 * Z.of_nat turn) 3 (RETENTION_MS + 3) 15 two willing).
  vm_compute. lia.
Defined.

Lemma runs_finish_once_witness :
  let s := (sample_change (FinishRun "r1" RunStatus.Completed 9 None) two willing).1.2 in
  (row_status <$> runs s) = ["completed"] /\ consistent (W := bit_text) two /\ lives_on (W := bit_text) two s.
Proof.
  intros s. split; [vm_compute; reflexivity|].
  apply (runs_finish_once id bit_text_reads "refused" "range" "constraint" "full" two (FinishRun "r1" RunStatus.Completed 9 None) willing).
  - apply two_reachable.
  - exact I.
Defined.

Lemma pages_miss_nothing_witness :
  let '(s1, r1, w1) := take_turns (W := bit_text) "refused" "range" "constraint" "full" None
                         [Page 1; Write (Append (seen (Some "r1") 4))] two (Reading 0 []) willing in
  (omap (shown (W := bit_text)) (bfilter (selects None 0) (observations s1)) =
     got r1 ++ omap (shown (W := bit_text)) (bfilter (selects None (cursor r1)) (observations s1)) /\
   forall r2 s2 w2, read_page (W := bit_text) "refused" "range" None 10 r1 s1 w1 = (Ok r2, s2, w2) ->
     s2 = s1 /\ exists page, got r2 = got r1 ++ page /\ (length page <= page_size 10)%nat /\
       ((length page < page_size 10)%nat -> got r2 = omap (shown (W := bit_text)) (bfilter (selects None 0) (observations s1)))) /\
  (Observation.event_id <$> got r1) = [1].
Proof.
  pose proof (pages_miss_nothing id bit_text_reads "refused" "range" "constraint" "full" None
    [Page 1; Write (Append (seen (Some "r1") 4))] two 0 willing 10 two_reachable) as H.
  specialize (H ltac:(repeat constructor)).
  destruct (take_turns _ _ _ _ _ _ two _ willing) as [[s1 r1] w1] eqn:Hrun. split; [exact H|].
  revert Hrun. vm_compute. by intros [= <- <- <-].
Defined.

(** [finish_run] releases the connection between its two statements: of two at once both succeed, and the
    later one overwrites what the other has answered. *)
Example two_finish_one_run :
  let check st := check_finish (W := bit_text) "refused" "r1" st 9 None in
  match (check RunStatus.Completed two willing).1.1, (check RunStatus.Cancelled two willing).1.1 with
  | Ok first, Ok second =>
      let s := (write_finish (W := bit_text) "refused" "r1" first two willing).1.2 in
      let s' := (write_finish (W := bit_text) "refused" "r1" second s willing).1.2 in
      (row_status <$> runs s) = ["completed"] /\ (row_status <$> runs s') = ["cancelled"]
  | _, _ => False
  end.
Proof. vm_compute. split; reflexivity. Qed.
End ObservabilityStore.
