(* ===== verification/Peers.v ===== *)
(** * The bridge between two nodes ([crates/workbench-runtime/src/peer.rs])

    Two nodes share one framed connection.  Each end is a [PeerBridge]: local
    callers register a request under a fresh id and wait for the frame that
    answers it; a reader thread hands requests of the other node to a local role,
    one thread per request, and answers to the caller that waits for them.  Every
    section under a mutex, every frame written and every frame read is one step
    ([act]); the steps of both ends interleave in any order, writes fail, callers
    give up and the connection breaks.

    What the two ends promise together is [PeerCalls]: a list of calls, each
    performed at most once by the other node's role and answered at most once,
    with what the role answered or with a failure of the bridge.
    [bridges_refine_calls] shows it. *)

From Stdlib Require Import String.
From stdpp Require Import relations.
From S2P Require Import Prelude RustStd Json Protocol Samples.

Module TargetRole.
Inductive t := Controller | Executor.
#[global] Instance eq_dec : EqDecision t.
Proof. solve_decision. Defined.
End TargetRole.

Module PeerFrame.
Inductive t :=
  | Hello (protocol node_id : string) (roles : list TargetRole.t)
  | HelloAck (protocol node_id : string) (roles : list TargetRole.t)
  | Request (id : string) (target_role : TargetRole.t) (request : Request.t)
  | Response (id : string) (response : Response.t).
End PeerFrame.

(** The text [serde_json] gives a frame, without the newline that ends it, and
    what it makes of a line. *)
Class Wire := {
  frame_text : PeerFrame.t -> string;
  frame_of : string -> string + PeerFrame.t;
}.

(** The derived codecs: a request or a response arrives under its own id and for
    its own role.  The payload may be normalised on its way ([Some(Value::Null)]
    arrives as [None], a float may lose its last digit). *)
Record carries (W : Wire) (pass_request : Request.t -> Request.t) (pass_response : Response.t -> Response.t) : Prop := {
  carries_request id role q :
    frame_of (frame_text (PeerFrame.Request id role q)) = inr (PeerFrame.Request id role (pass_request q));
  carries_response id a :
    frame_of (frame_text (PeerFrame.Response id a)) = inr (PeerFrame.Response id (pass_response a));
}.

Module PeerBridge.

(** ** The threads of one end *)

(** A caller inside [call_with_timeout]: its sender is in [pending], its frame
    is written, it is about to withdraw with an error, it has returned. *)
Inductive stage :=
  | Registered
  | Waiting
  | Failing (e : RpcError.t)
  | Returned (response : Response.t).

Record call := Call {
  id : string;
  target_role : TargetRole.t;
  request : Request.t;
  inbox : list Response.t;      (* the channel of its receiver *)
  at_ : stage;
}.
Definition with_stage (x : stage) (c : call) : call :=
  Call (id c) (target_role c) (request c) (inbox c) x.
Definition with_inbox (l : list Response.t) (c : call) : call :=
  Call (id c) (target_role c) (request c) l (at_ c).

(** A thread the reader started for a request of the other node. *)
Inductive progress :=
  | Asking
  | Answering (response : Response.t)
  | Replied (response : Response.t).

Record serving := Serving {
  serving_id : string;
  serving_role : TargetRole.t;
  serving_request : Request.t;
  serving_at : progress;
}.
Definition with_progress (x : progress) (v : serving) : serving :=
  Serving (serving_id v) (serving_role v) (serving_request v) x.
Definition answer (v : serving) : option Response.t :=
  match serving_at v with Asking => None | Answering a | Replied a => Some a end.

(** [read_frames]: reading, out of the loop, telling the callers it has taken
    from [pending], done. *)
Inductive reading :=
  | Reading
  | Ending
  | Telling (callers : gset nat)
  | Done.

Record t := mk {
  pending : gmap string nat;    (* the caller that owns the receiver *)
  calls : list call;
  servings : list serving;
  reader : reading;
  lines : list string;          (* written and not yet read at the other end *)
  open : bool;                  (* whether what is written still gets there *)
}.

Definition set_pending p b := mk p (calls b) (servings b) (reader b) (lines b) (open b).
Definition set_call k c b := mk (pending b) (<[k := c]> (calls b)) (servings b) (reader b) (lines b) (open b).
Definition set_serving j v b := mk (pending b) (calls b) (<[j := v]> (servings b)) (reader b) (lines b) (open b).
Definition set_reader x b := mk (pending b) (calls b) (servings b) x (lines b) (open b).
Definition set_lines l b := mk (pending b) (calls b) (servings b) (reader b) l (open b).

(** [start_bridge] *)
Definition start_bridge : t := mk ∅ [] [] Reading [] true.

(** ** Frames *)

(** How a write ends.  One that fails leaves nothing of the frame at the other
    end, or a part that is no frame, or the whole of it (when [flush] fails). *)
Inductive write_result :=
  | Through
  | Broken (text : string) (left : option string).

Section bridge.
Context `{Wire}.

Definition is_frame (line : string) : bool :=
  match frame_of line with inl _ => false | inr _ => true end.
Definition left_behind (frame : PeerFrame.t) (line : string) : bool :=
  bool_decide (line = frame_text frame) || negb (is_frame line).
Definition append (line : string) (b : t) : t :=
  if open b then set_lines (lines b ++ [line]) b else b.

(** [write_frame], the error text it returns and the bridge. *)
Definition write_frame (frame : PeerFrame.t) (w : write_result) (b : t) : option (option string * t) :=
  match w with
  | Through => Some (None, append (frame_text frame) b)
  | Broken text None => Some (Some text, b)
  | Broken text (Some line) =>
      if left_behind frame line then Some (Some text, append line b) else None
  end.

(** ** [PeerBridge::call_with_timeout] *)

Definition WRITE_FAILED (text : string) : RpcError.t := RpcError.new "PEER_WRITE_FAILED" text.
Definition RESPONSE_TIMEOUT (text : string) : RpcError.t := RpcError.new "PEER_RESPONSE_TIMEOUT" text.
Definition DISCONNECTED : Response.t :=
  Response.failure "peer" (RpcError.new "PEER_DISCONNECTED" "peer framed connection closed").
Definition peer_request_id (uuid : string) : string := "peer_request_" +:+ uuid.

(** A fresh id, and the sender of a new channel under it. *)
Definition register (uuid : string) (role : TargetRole.t) (q : Request.t) (b : t) : t :=
  mk (<[peer_request_id uuid := length (calls b)]> (pending b))
     (calls b ++ [Call (peer_request_id uuid) role q [] Registered])
     (servings b) (reader b) (lines b) (open b).

Definition send (k : nat) (w : write_result) (b : t) : option t :=
  c ← calls b !! k;
  match at_ c with
  | Registered =>
      '(error, b) ← write_frame (PeerFrame.Request (id c) (target_role c) (request c)) w b;
      Some (set_call k (with_stage (match error with
                                    | Some text => Failing (WRITE_FAILED text)
                                    | None => Waiting
                                    end) c) b)
  | _ => None
  end.

(** [recv_timeout] finds a message; or it finds none, at the deadline or because
    the sender is gone. *)
Definition receive (k : nat) (b : t) : option t :=
  c ← calls b !! k;
  match at_ c, inbox c with
  | Waiting, a :: rest => Some (set_call k (with_inbox rest (with_stage (Returned a) c)) b)
  | _, _ => None
  end.
Definition expire (k : nat) (text : string) (b : t) : option t :=
  c ← calls b !! k;
  match at_ c, inbox c with
  | Waiting, [] => Some (set_call k (with_stage (Failing (RESPONSE_TIMEOUT text)) c) b)
  | _, _ => None
  end.

(** Both error paths: the id is removed from [pending], the error returned. *)
Definition withdraw (k : nat) (b : t) : option t :=
  c ← calls b !! k;
  match at_ c with
  | Failing e =>
      Some (set_call k (with_stage (Returned (Response.failure "peer" e)) c)
              (set_pending (delete (id c) (pending b)) b))
  | _ => None
  end.

(** ** [read_frames] *)

(** [sender.send]: nobody notices when the receiver is gone. *)
Definition deliver (k : nat) (a : Response.t) (b : t) : t :=
  match calls b !! k with
  | Some c => set_call k (with_inbox (inbox c ++ [a]) c) b
  | None => b
  end.

(** One turn of [read_frames_inner]. *)
Definition read_frame (line : string) (b : t) : t :=
  match frame_of line with
  | inl _ => set_reader Ending b
  | inr (PeerFrame.Hello _ _ _) | inr (PeerFrame.HelloAck _ _ _) => set_reader Ending b
  | inr (PeerFrame.Response i a) =>
      match pending b !! i with
      | Some k => deliver k a (set_pending (delete i (pending b)) b)
      | None => b
      end
  | inr (PeerFrame.Request i role q) =>
      mk (pending b) (calls b) (servings b ++ [Serving i role q Asking]) (reader b) (lines b) (open b)
  end.

(** The rest of [read_frames]: [pending] is taken, and every sender in it told. *)
Definition take_pending (b : t) : option t :=
  match reader b with
  | Ending => Some (set_reader (Telling (list_to_set (map_to_list (pending b)).*2)) (set_pending ∅ b))
  | _ => None
  end.
Definition tell (k : nat) (b : t) : option t :=
  match reader b with
  | Telling X => if decide (k ∈ X) then Some (deliver k DISCONNECTED (set_reader (Telling (X ∖ {[ k ]})) b)) else None
  | _ => None
  end.
Definition finish (b : t) : option t :=
  match reader b with
  | Telling X => if decide (X = ∅) then Some (set_reader Done b) else None
  | _ => None
  end.

(** ** The thread of a request *)

Definition local_answer (q : Request.t) (result : string + Response.t) : Response.t :=
  match result with
  | inl text => Response.failure (Request.request_id q) (RpcError.new "LOCAL_ROLE_UNAVAILABLE" text)
  | inr a => a
  end.
Definition serve (j : nat) (result : string + Response.t) (b : t) : option t :=
  v ← servings b !! j;
  match serving_at v with
  | Asking => Some (set_serving j (with_progress (Answering (local_answer (serving_request v) result)) v) b)
  | _ => None
  end.
Definition reply (j : nat) (w : write_result) (b : t) : option t :=
  v ← servings b !! j;
  match serving_at v with
  | Answering a =>
      '(_, b) ← write_frame (PeerFrame.Response (serving_id v) a) w b;
      Some (set_serving j (with_progress (Replied a) v) b)
  | _ => None
  end.

(** ** The two ends *)

Inductive action :=
  | Begin (uuid : string) (role : TargetRole.t) (q : Request.t)
  | Send (k : nat) (w : write_result)
  | Receive (k : nat)
  | Expire (k : nat) (text : string)
  | Withdraw (k : nat)
  | Read
  | Break                       (* the stream ends, or cannot be read *)
  | Take
  | Tell (k : nat)
  | Finish
  | Serve (j : nat) (result : string + Response.t)
  | Reply (j : nat) (w : write_result)
  | Cut (n : nat).              (* what is written after the next [n] lines is lost *)

(** A step of one end, and what is left of the lines it reads. *)
Definition act (a : action) (b : t) (incoming : list string) : option (t * list string) :=
  let stay := fmap (M := option) (fun b => (b, incoming)) in
  match a with
  | Begin uuid role q => stay (Some (register uuid role q b))
  | Send k w => stay (send k w b)
  | Receive k => stay (receive k b)
  | Expire k text => stay (expire k text b)
  | Withdraw k => stay (withdraw k b)
  | Read =>
      match reader b, incoming with
      | Reading, line :: rest => Some (read_frame line b, rest)
      | _, _ => None
      end
  | Break => match reader b with Reading => stay (Some (set_reader Ending b)) | _ => None end
  | Take => stay (take_pending b)
  | Tell k => stay (tell k b)
  | Finish => stay (finish b)
  | Serve j result => stay (serve j result b)
  | Reply j w => stay (reply j w b)
  | Cut n => stay (Some (mk (pending b) (calls b) (servings b) (reader b) (take n (lines b)) false))
  end.

Inductive side := Near | Far.
Definition other (s : side) : side := match s with Near => Far | Far => Near end.
#[global] Instance side_eq_dec : EqDecision side.
Proof. solve_decision. Defined.

Record system := System { near : t; far : t }.
Definition end_of (s : side) (x : system) : t := match s with Near => near x | Far => far x end.
Definition both (s : side) (b o : t) : system := match s with Near => System b o | Far => System o b end.
Definition start : system := System start_bridge start_bridge.

Definition step (l : side * action) (x : system) : option system :=
  let '(s, a) := l in
  '(b, rest) ← act a (end_of s x) (lines (end_of (other s) x));
  Some (both s b (set_lines rest (end_of (other s) x))).
Fixpoint run (ls : list (side * action)) (x : system) : option system :=
  match ls with
  | [] => Some x
  | l :: ls' => step l x ≫= run ls'
  end.

(** The ids an end has drawn. *)
Definition drawn_by (s : side) (l : side * action) : option string :=
  match l with
  | (s', Begin uuid _ _) => if decide (s' = s) then Some (peer_request_id uuid) else None
  | _ => None
  end.
Definition drawn (s : side) (ls : list (side * action)) : list string := omap (drawn_by s) ls.
End bridge.

Arguments act {_} _ _ _.
Arguments step {_} _ _.
Arguments run {_} _ _.
End PeerBridge.

(** ** The promise

    What the callers of one end may see, without ids, frames or threads. *)

Module PeerCalls.
Record call := Call {
  target_role : TargetRole.t;
  request : Request.t;
  performed : list (TargetRole.t * Request.t * Response.t);   (* what the other node's roles did *)
  answered : option Response.t;
}.

Definition bridge_codes : list string := ["PEER_WRITE_FAILED"; "PEER_RESPONSE_TIMEOUT"; "PEER_DISCONNECTED"].

Inductive step (pass_request : Request.t -> Request.t) (pass_response : Response.t -> Response.t) :
    relation (list call) :=
  | ask cs role q : step pass_request pass_response cs (cs ++ [Call role q [] None])
  | perform cs k role q answered a :
      cs !! k = Some (Call role q [] answered) ->
      step pass_request pass_response cs (<[k := Call role q [(role, pass_request q, a)] answered]> cs)
  | return_answer cs k role q a :
      cs !! k = Some (Call role q [(role, pass_request q, a)] None) ->
      step pass_request pass_response cs
        (<[k := Call role q [(role, pass_request q, a)] (Some (pass_response a))]> cs)
  | return_failure cs k role q done_ e :
      cs !! k = Some (Call role q done_ None) ->
      RpcError.code e ∈ bridge_codes ->
      step pass_request pass_response cs (<[k := Call role q done_ (Some (Response.failure "peer" e))]> cs).
End PeerCalls.

Module Peers.
Import PeerBridge.

(** ** The invariant of the bridge

    For the callers of one end: their ids, who waits under which, the requests
    on their way and those the other end serves, the answers on their way back,
    and where an answer a caller holds comes from. *)

Definition asked : Type := string * TargetRole.t * Request.t.
Definition asked_by (v : serving) : asked := (serving_id v, serving_role v, serving_request v).
Definition id_of (q : asked) : string := q.1.1.

Section frames.
Context `{Wire}.

Definition request_in (line : string) : option asked :=
  match frame_of line with inr (PeerFrame.Request i role q) => Some (i, role, q) | _ => None end.
Definition response_in (line : string) : option (string * Response.t) :=
  match frame_of line with inr (PeerFrame.Response i a) => Some (i, a) | _ => None end.
Definition requests_in (ls : list string) : list asked := omap request_in ls.
Definition responses_in (ls : list string) : list (string * Response.t) := omap response_in ls.
End frames.

Section linked.
Context (pass_request : Request.t -> Request.t) (pass_response : Response.t -> Response.t).

Definition own_failure (a : Response.t) : Prop :=
  exists e, a = Response.failure "peer" e /\ RpcError.code e ∈ PeerCalls.bridge_codes.
(** [a] is what a thread of the other end answered under [i]. *)
Definition answered_by (svs : list serving) (i : string) (a : Response.t) : Prop :=
  exists v a0, v ∈ svs /\ serving_id v = i /\ answer v = Some a0 /\ a = pass_response a0.
Definition explained (svs : list serving) (i : string) (a : Response.t) : Prop :=
  own_failure a \/ answered_by svs i a.

Definition holds (c : call) (a : Response.t) : Prop := a ∈ inbox c \/ at_ c = Returned a.
Definition sound_call (svs : list serving) (c : call) : Prop :=
  (forall a, holds c a -> explained svs (id c) a) /\
  (forall e, at_ c = Failing e -> RpcError.code e ∈ PeerCalls.bridge_codes).

Record linked (cs : list call) (p : gmap string nat) (reqs : list asked) (svs : list serving)
    (resps : list (string * Response.t)) : Prop := {
  ids_apart : NoDup (id <$> cs);
  waits_under i k : p !! i = Some k -> exists c, cs !! k = Some c /\ id c = i;
  asked_apart : NoDup (id_of <$> (asked_by <$> svs) ++ reqs);
  asked_from q : q ∈ (asked_by <$> svs) ++ reqs ->
    exists k c, cs !! k = Some c /\ q = (id c, target_role c, pass_request (request c)) /\ at_ c <> Registered;
  answers_from i a : (i, a) ∈ resps -> answered_by svs i a;
  calls_sound c : c ∈ cs -> sound_call svs c;
}.

(** *** Lists of ids *)

Lemma same_id (cs : list call) k1 k2 c1 c2 :
  NoDup (id <$> cs) -> cs !! k1 = Some c1 -> cs !! k2 = Some c2 -> id c1 = id c2 -> k1 = k2.
Proof.
  intros Hnd H1 H2 He. eapply NoDup_lookup; [exact Hnd| |]; rewrite list_lookup_fmap; [by rewrite H1|rewrite H2; simpl; by rewrite He].
Qed.

Lemma ids_insert (cs : list call) k c c' : cs !! k = Some c -> id c' = id c -> id <$> <[k := c']> cs = id <$> cs.
Proof.
  intros Hc He. rewrite list_fmap_insert, He. apply list_insert_id. by rewrite list_lookup_fmap, Hc.
Qed.
Lemma asked_insert (svs : list serving) j v v' :
  svs !! j = Some v -> asked_by v' = asked_by v -> asked_by <$> <[j := v']> svs = asked_by <$> svs.
Proof.
  intros Hv He. rewrite list_fmap_insert, He. apply list_insert_id. by rewrite list_lookup_fmap, Hv.
Qed.

Lemma elem_of_insert_inv {A} (l : list A) k x y : y ∈ <[k := x]> l -> y = x \/ y ∈ l.
Proof.
  rewrite !list_elem_of_lookup. intros [i Hi]. destruct (decide (i = k)) as [->|Hn].
  - destruct (decide (k < length l)%nat) as [Hl|Hl].
    + rewrite list_lookup_insert_eq in Hi by done. injection Hi as ->. by left.
    + rewrite list_insert_ge in Hi by lia. right. by exists k.
  - rewrite list_lookup_insert_ne in Hi by done. right. by exists i.
Qed.

Lemma lookup_insert_any {A} (l : list A) k x y i z :
  l !! k = Some x -> l !! i = Some z -> <[k := y]> l !! i = Some (if decide (i = k) then y else z).
Proof.
  intros Hk Hi. destruct (decide (i = k)) as [->|Hn].
  - apply list_lookup_insert_eq. by eapply lookup_lt_Some.
  - by rewrite list_lookup_insert_ne.
Qed.

(** *** The steps, as changes of the parts *)

Lemma explained_mono (svs svs' : list serving) i a :
  (forall a, answered_by svs i a -> answered_by svs' i a) -> explained svs i a -> explained svs' i a.
Proof. intros Hm [Hf|Ha]; [by left|right; by apply Hm]. Qed.

Lemma linked_register cs p reqs svs resps i role q :
  i ∉ id <$> cs -> linked cs p reqs svs resps ->
  linked (cs ++ [Call i role q [] Registered]) (<[i := length cs]> p) reqs svs resps.
Proof.
  intros Hi L. split; [..| |].
  - rewrite fmap_app. apply NoDup_app. split; [apply L|]. split; [|by apply NoDup_singleton].
    intros x Hx ->%list_elem_of_singleton. done.
  - intros j k. rewrite lookup_insert_Some. intros [[<- <-]|[Hn Hp]].
    + exists (Call i role q [] Registered). by rewrite lookup_app_r, Nat.sub_diag by lia.
    + destruct (waits_under _ _ _ _ _ L j k Hp) as (c & Hc & He). exists c. by rewrite (lookup_app_l_Some _ _ _ _ Hc).
  - apply L.
  - intros x Hx. destruct (asked_from _ _ _ _ _ L x Hx) as (k & c & Hc & Hrest). exists k, c.
    by rewrite (lookup_app_l_Some _ _ _ _ Hc).
  - apply L.
  - intros c [Hc| ->%list_elem_of_singleton]%elem_of_app; [by eapply calls_sound|].
    split; [|done]. intros a [Hin|[=]]. by apply not_elem_of_nil in Hin.
Qed.

Definition same_call (c c' : call) : Prop :=
  id c' = id c /\ target_role c' = target_role c /\ request c' = request c.

(** A caller moves on; ids may leave [pending]; a request may be added. *)
Lemma linked_call cs p p' reqs svs resps k c c' :
  cs !! k = Some c -> same_call c c' -> (at_ c <> Registered -> at_ c' <> Registered) -> sound_call svs c' -> p' ⊆ p ->
  linked cs p reqs svs resps -> linked (<[k := c']> cs) p' reqs svs resps.
Proof.
  intros Hc (Hi & Hr & Hq) Hat Hs Hp L. split.
  - rewrite (ids_insert _ _ _ _ Hc Hi). apply L.
  - intros i k' Hk. eapply lookup_weaken in Hk; [|exact Hp].
    destruct (waits_under _ _ _ _ _ L i k' Hk) as (c0 & Hc0 & He).
    eexists. split; [exact (lookup_insert_any _ _ _ c' _ _ Hc Hc0)|]. destruct (decide (k' = k)) as [->|]; [|done]. congruence.
  - apply L.
  - intros x Hx. destruct (asked_from _ _ _ _ _ L x Hx) as (k' & c0 & Hc0 & -> & Hreg).
    exists k'. eexists. split; [exact (lookup_insert_any _ _ _ c' _ _ Hc Hc0)|].
    destruct (decide (k' = k)) as [->|]; [|done]. rewrite Hc in Hc0. injection Hc0 as <-.
    rewrite Hi, Hr, Hq. split; [done|]. by apply Hat.
  - apply L.
  - intros c0 [->|Hc0]%elem_of_insert_inv; [done|by eapply calls_sound].
Qed.

Lemma linked_requests cs p reqs reqs' svs resps :
  reqs' `sublist_of` reqs -> linked cs p reqs svs resps -> linked cs p reqs' svs resps.
Proof.
  intros Hsub L. split; try apply L.
  - eapply sublist_NoDup; [exact (asked_apart _ _ _ _ _ L)|]. by apply fmap_sublist, sublist_app.
  - intros q Hq. eapply asked_from; [exact L|]. rewrite elem_of_app in Hq |- *.
    destruct Hq as [Hq|Hq]; [by left|right; by eapply sublist_subseteq].
Qed.

Lemma linked_responses cs p reqs svs resps resps' :
  (forall x, x ∈ resps' -> x ∈ resps) -> linked cs p reqs svs resps -> linked cs p reqs svs resps'.
Proof. intros Hsub L. split; try apply L. intros i a Ha. eapply answers_from; [exact L|by apply Hsub]. Qed.

(** A caller's frame is on its way. *)
Lemma linked_send cs p reqs svs resps k c c' :
  cs !! k = Some c -> same_call c c' -> at_ c = Registered -> at_ c' <> Registered -> sound_call svs c' ->
  linked cs p reqs svs resps ->
  linked (<[k := c']> cs) p (reqs ++ [(id c, target_role c, pass_request (request c))]) svs resps.
Proof.
  intros Hc Hsame Hat Hat' Hs L.
  assert (Hfresh : id c ∉ id_of <$> (asked_by <$> svs) ++ reqs).
  { intros (q & He & Hq)%list_elem_of_fmap. destruct (asked_from _ _ _ _ _ L q Hq) as (k' & c0 & Hc0 & -> & Hreg).
    assert (k' = k) as -> by (by eapply same_id; [apply L|exact Hc0|exact Hc|]). congruence. }
  pose proof (linked_call _ _ _ _ _ _ _ _ _ Hc Hsame (fun _ => Hat') Hs (reflexivity p) L) as L'.
  split; try apply L'.
  - rewrite app_assoc, fmap_app. apply NoDup_app. split; [apply L|]. split; [|by apply NoDup_singleton].
    intros x Hx ->%list_elem_of_singleton. done.
  - intros q. rewrite app_assoc, elem_of_app. intros [Hq| ->%list_elem_of_singleton]; [by eapply asked_from|].
    destruct Hsame as (Hi & Hr & Hq). exists k, c'. rewrite list_lookup_insert_eq by (by eapply lookup_lt_Some).
    by rewrite Hi, Hr, Hq.
Qed.

(** The other end starts a thread for the request at the head. *)
Lemma linked_start cs p q reqs svs resps :
  linked cs p (q :: reqs) svs resps ->
  linked cs p reqs (svs ++ [Serving q.1.1 q.1.2 q.2 Asking]) resps.
Proof.
  intros L. assert (Heq : (asked_by <$> svs ++ [Serving q.1.1 q.1.2 q.2 Asking]) ++ reqs = (asked_by <$> svs) ++ q :: reqs).
  { rewrite fmap_app, <- app_assoc. simpl. unfold asked_by at 2. simpl. by destruct q as [[? ?] ?]. }
  assert (Hmono : forall i a, answered_by svs i a -> answered_by (svs ++ [Serving q.1.1 q.1.2 q.2 Asking]) i a).
  { intros i a (v & a0 & Hv & Hrest). exists v, a0. rewrite elem_of_app. by split; [left|]. }
  split; try apply L.
  - rewrite Heq. apply L.
  - intros x. rewrite Heq. apply L.
  - intros i a Ha. by eapply Hmono, answers_from.
  - intros c Hc. destruct (calls_sound _ _ _ _ _ L c Hc) as [Hh Hf]. split; [|done].
    intros a Ha. eapply explained_mono; [apply Hmono|by apply Hh].
Qed.

(** A thread of the other end moves on. *)
Lemma linked_progress cs p reqs svs resps j v v' :
  svs !! j = Some v -> asked_by v' = asked_by v -> (answer v = None \/ answer v' = answer v) ->
  linked cs p reqs svs resps -> linked cs p reqs (<[j := v']> svs) resps.
Proof.
  intros Hv Hsame Hans L.
  assert (Hmono : forall i a, answered_by svs i a -> answered_by (<[j := v']> svs) i a).
  { intros i a (v0 & a0 & (j0 & Hv0)%list_elem_of_lookup & Hi & Ha & ->). destruct (decide (j0 = j)) as [->|Hn].
    - rewrite Hv in Hv0. injection Hv0 as <-. destruct Hans as [Hans|Hans]; [congruence|].
      exists v', a0. split; [|split; [|by rewrite Hans]].
      + apply list_elem_of_insert. by eapply lookup_lt_Some.
      + unfold asked_by in Hsame. congruence.
    - exists v0, a0. split; [|done]. apply list_elem_of_lookup. exists j0. by rewrite list_lookup_insert_ne. }
  split; try apply L.
  - rewrite (asked_insert _ _ _ _ Hv Hsame). apply L.
  - intros x. rewrite (asked_insert _ _ _ _ Hv Hsame). apply L.
  - intros i a Ha. by eapply Hmono, answers_from.
  - intros c Hc. destruct (calls_sound _ _ _ _ _ L c Hc) as [Hh Hf]. split; [|done].
    intros a Ha. eapply explained_mono; [apply Hmono|by apply Hh].
Qed.

Lemma linked_answer cs p reqs svs resps i a :
  answered_by svs i a -> linked cs p reqs svs resps -> linked cs p reqs svs (resps ++ [(i, a)]).
Proof.
  intros Ha L. split; try apply L. intros i' a'. rewrite elem_of_app, list_elem_of_singleton.
  intros [Hin|[= -> ->]]; [by eapply answers_from|done].
Qed.
End linked.

(** ** Every step keeps the invariant *)

Section steps.
Context `{W : Wire} (pass_request : Request.t -> Request.t) (pass_response : Response.t -> Response.t).
Context (Hcarries : carries W pass_request pass_response).
Local Abbreviation linked := (linked pass_request pass_response).

(** What the callers of [b] have to do with the other end [o]. *)
Definition toward (b o : PeerBridge.t) : Prop :=
  linked (calls b) (pending b) (requests_in (lines b)) (servings o) (responses_in (lines o)).

Lemma write_frame_shape frame w b error b' :
  write_frame frame w b = Some (error, b') ->
  exists l, b' = set_lines (lines b ++ l) b /\
    (l = [] \/ l = [frame_text frame] \/ exists line, l = [line] /\ is_frame line = false).
Proof.
  assert (Hsame : set_lines (lines b ++ []) b = b) by (rewrite app_nil_r; by destruct b).
  assert (Happend : forall line, exists l, append line b = set_lines (lines b ++ l) b /\ (l = [] \/ l = [line])).
  { intros line. unfold append. destruct (open b); [exists [line]|exists []]; auto. }
  destruct w as [|text [line|]]; simpl.
  - intros [= <- <-]. destruct (Happend (frame_text frame)) as (l & -> & Hl). exists l. split; [done|]. destruct Hl as [Hl|Hl]; [by left|by right; left].
  - destruct (left_behind frame line) eqn:Hleft; [|done]. intros [= <- <-].
    destruct (Happend line) as (l & -> & [->| ->]); [exists []; auto|exists [line]].
    split; [done|]. apply orb_true_iff in Hleft as [->%bool_decide_eq_true_1|Hf%negb_true_iff]; [auto|].
    right. right. by exists line.
  - intros [= <- <-]. exists []. auto.
Qed.

Lemma no_frame line : is_frame line = false -> request_in line = None /\ response_in line = None.
Proof. unfold is_frame, request_in, response_in. by destruct (frame_of line). Qed.

Lemma requests_snoc ls l : requests_in (ls ++ l) = requests_in ls ++ requests_in l.
Proof. apply omap_app. Qed.
Lemma responses_snoc ls l : responses_in (ls ++ l) = responses_in ls ++ responses_in l.
Proof. apply omap_app. Qed.

Lemma request_line i role q :
  requests_in [frame_text (PeerFrame.Request i role q)] = [(i, role, pass_request q)] /\
  responses_in [frame_text (PeerFrame.Request i role q)] = [].
Proof.
  unfold requests_in, responses_in, request_in, response_in. cbn [omap list_omap].
  by rewrite (carries_request _ _ _ Hcarries).
Qed.
Lemma response_line i a :
  requests_in [frame_text (PeerFrame.Response i a)] = [] /\
  responses_in [frame_text (PeerFrame.Response i a)] = [(i, pass_response a)].
Proof.
  unfold requests_in, responses_in, request_in, response_in. cbn [omap list_omap].
  by rewrite (carries_response _ _ _ Hcarries).
Qed.
Lemma torn_line line : is_frame line = false -> requests_in [line] = [] /\ responses_in [line] = [].
Proof. intros [H1 H2]%no_frame. unfold requests_in, responses_in. simpl. by rewrite H1, H2. Qed.

Lemma written_request i role q w b error b' :
  write_frame (PeerFrame.Request i role q) w b = Some (error, b') ->
  exists ls, b' = set_lines ls b /\ responses_in ls = responses_in (lines b) /\
    (requests_in ls = requests_in (lines b) \/ requests_in ls = requests_in (lines b) ++ [(i, role, pass_request q)]).
Proof.
  intros (l & -> & Hl)%write_frame_shape. exists (lines b ++ l). rewrite requests_snoc, responses_snoc.
  destruct Hl as [->|[->|(line & -> & Hline)]].
  - change (requests_in []) with (@nil asked). change (responses_in []) with (@nil (string * Response.t)).
    rewrite !app_nil_r. auto.
  - destruct (request_line i role q) as [-> ->]. rewrite app_nil_r. auto.
  - destruct (torn_line line Hline) as [-> ->]. rewrite !app_nil_r. auto.
Qed.
Lemma written_response i a w b error b' :
  write_frame (PeerFrame.Response i a) w b = Some (error, b') ->
  exists ls, b' = set_lines ls b /\ requests_in ls = requests_in (lines b) /\
    (responses_in ls = responses_in (lines b) \/ responses_in ls = responses_in (lines b) ++ [(i, pass_response a)]).
Proof.
  intros (l & -> & Hl)%write_frame_shape. exists (lines b ++ l). rewrite requests_snoc, responses_snoc.
  destruct Hl as [->|[->|(line & -> & Hline)]].
  - change (requests_in []) with (@nil asked). change (responses_in []) with (@nil (string * Response.t)).
    rewrite !app_nil_r. auto.
  - destruct (response_line i a) as [-> ->]. rewrite app_nil_r. auto.
  - destruct (torn_line line Hline) as [-> ->]. rewrite !app_nil_r. auto.
Qed.

(** *** Callers *)

Lemma write_failed_code text : RpcError.code (WRITE_FAILED text) ∈ PeerCalls.bridge_codes.
Proof. apply elem_of_cons. by left. Qed.
Lemma timeout_code text : RpcError.code (RESPONSE_TIMEOUT text) ∈ PeerCalls.bridge_codes.
Proof. apply elem_of_cons. right. apply elem_of_cons. by left. Qed.
Lemma disconnected_failure : own_failure DISCONNECTED.
Proof. eexists. split; [done|]. do 2 (apply elem_of_cons; right). apply elem_of_cons. by left. Qed.

Lemma linked_sound cs p reqs svs resps k c : linked cs p reqs svs resps -> cs !! k = Some c -> sound_call pass_response svs c.
Proof. intros L Hc. eapply calls_sound; [exact L|]. by eapply list_elem_of_lookup_2. Qed.

Lemma toward_send k w b b' o :
  send k w b = Some b' -> toward b o -> toward o b -> toward b' o /\ toward o b'.
Proof.
  unfold send. destruct (calls b !! k) as [c|] eqn:Hc; [|done]. cbn [mbind option_bind].
  destruct (at_ c) eqn:Hat; try done.
  destruct (write_frame _ w b) as [[error b1]|] eqn:Hw; [|done]. cbn [mbind option_bind]. intros [= <-] L1 L2.
  destruct (written_request _ _ _ _ _ _ _ Hw) as (ls & -> & Hresps & Hreqs). unfold toward in *. cbn [calls pending servings lines set_call set_lines] in *. rewrite Hresps.
  split; [|exact L2].
  set (c' := with_stage _ c).
  assert (Hs : sound_call pass_response (servings o) c').
  { destruct (linked_sound _ _ _ _ _ _ _ L1 Hc) as [Hh Hf]. split.
    - intros a [Hin|Hr]; [apply Hh; by left|]. subst c'. destruct error; discriminate Hr.
    - intros e He. subst c'. destruct error as [text|]; [injection He as <-; apply write_failed_code|discriminate He]. }
  assert (Hleft : at_ c' <> Registered) by (subst c'; by destruct error).
  destruct Hreqs as [Hr|Hr]; rewrite Hr.
  - eapply linked_call; [exact Hc|done|done|exact Hs|reflexivity|exact L1].
  - eapply linked_send; [exact Hc|done|exact Hat|exact Hleft|exact Hs|exact L1].
Qed.

Lemma toward_call k c c' p' b o :
  calls b !! k = Some c -> same_call c c' -> (at_ c <> Registered -> at_ c' <> Registered) ->
  sound_call pass_response (servings o) c' -> p' ⊆ pending b ->
  toward b o -> toward o b ->
  toward (set_call k c' (set_pending p' b)) o /\ toward o (set_call k c' (set_pending p' b)).
Proof. intros Hc Hsame Hat Hs Hp L1 L2. split; [by eapply linked_call|exact L2]. Qed.

Lemma same_pending b : set_pending (pending b) b = b.
Proof. by destruct b. Qed.

Lemma toward_receive k b b' o :
  receive k b = Some b' -> toward b o -> toward o b -> toward b' o /\ toward o b'.
Proof.
  unfold receive. destruct (calls b !! k) as [c|] eqn:Hc; [|done]. cbn [mbind option_bind].
  destruct (at_ c) eqn:Hat, (inbox c) as [|a rest] eqn:Hin; try done. intros [= <-] L1 L2.
  rewrite <- (same_pending b).
  eapply toward_call; [exact Hc|done|done| |done|done|done].
  destruct (linked_sound _ _ _ _ _ _ _ L1 Hc) as [Hh Hf]. split; [|by intros e [=]].
  intros a' [Hl|[= <-]]; apply Hh; left; rewrite Hin; [by apply elem_of_cons; right|by apply elem_of_cons; left].
Qed.

Lemma toward_expire k text b b' o :
  expire k text b = Some b' -> toward b o -> toward o b -> toward b' o /\ toward o b'.
Proof.
  unfold expire. destruct (calls b !! k) as [c|] eqn:Hc; [|done]. cbn [mbind option_bind].
  destruct (at_ c) eqn:Hat, (inbox c) as [|a rest] eqn:Hin; try done. intros [= <-] L1 L2.
  rewrite <- (same_pending b).
  eapply toward_call; [exact Hc|done|done| |done|done|done].
  split; [|intros e [= <-]; apply timeout_code]. intros a [Hl|[=]]. simpl in Hl. rewrite Hin in Hl. by apply not_elem_of_nil in Hl.
Qed.

Lemma toward_withdraw k b b' o :
  withdraw k b = Some b' -> toward b o -> toward o b -> toward b' o /\ toward o b'.
Proof.
  unfold withdraw. destruct (calls b !! k) as [c|] eqn:Hc; [|done]. cbn [mbind option_bind].
  destruct (at_ c) as [| |e|] eqn:Hat; try done. intros [= <-] L1 L2.
  eapply toward_call; [exact Hc|done|done| |apply delete_subseteq|done|done].
  destruct (linked_sound _ _ _ _ _ _ _ L1 Hc) as [Hh Hf]. split; [|by intros e' [=]].
  intros a [Hl|[= <-]]; [apply Hh; by left|]. left. exists e. split; [done|by apply Hf].
Qed.

Lemma toward_deliver k a p' b o :
  (forall c, calls b !! k = Some c -> explained pass_response (servings o) (id c) a) -> p' ⊆ pending b ->
  toward b o -> toward o b ->
  toward (deliver k a (set_pending p' b)) o /\ toward o (deliver k a (set_pending p' b)).
Proof.
  intros Hex Hp L1 L2. unfold deliver. cbn [calls set_pending]. destruct (calls b !! k) as [c|] eqn:Hc.
  - eapply toward_call; [exact Hc|done|done| |exact Hp|done|done].
    destruct (linked_sound _ _ _ _ _ _ _ L1 Hc) as [Hh Hf]. split; [|exact Hf].
    intros a' [Hin|Hr]; [|apply Hh; by right].
    simpl in Hin. apply elem_of_app in Hin as [Hin| ->%list_elem_of_singleton]; [apply Hh; by left|exact (Hex c eq_refl)].
  - split; [|exact L2]. unfold toward in *. cbn [calls pending servings lines set_pending]. split; try apply L1.
    intros i k' Hk. eapply waits_under; [exact L1|]. by eapply lookup_weaken.
Qed.

(** *** The reader and its threads *)

Lemma toward_reader x b o : toward b o -> toward o b -> toward (set_reader x b) o /\ toward o (set_reader x b).
Proof. done. Qed.

Lemma request_in_Some line i role q :
  frame_of line = inr (PeerFrame.Request i role q) -> request_in line = Some (i, role, q) /\ response_in line = None.
Proof. unfold request_in, response_in. by intros ->. Qed.

Lemma requests_cons line rest : requests_in (line :: rest) = match request_in line with Some q => q :: requests_in rest | None => requests_in rest end.
Proof. done. Qed.
Lemma responses_cons line rest : responses_in (line :: rest) = match response_in line with Some x => x :: responses_in rest | None => responses_in rest end.
Proof. done. Qed.

(** A line is gone from the stream. *)
Lemma toward_skip line rest b o :
  lines o = line :: rest -> toward b o -> toward o b ->
  toward b (set_lines rest o) /\ toward (set_lines rest o) b.
Proof.
  intros Hl L1 L2. unfold toward in *. cbn [calls pending servings lines set_lines]. rewrite Hl in L1, L2. split.
  - eapply linked_responses; [|exact L1]. intros x Hx. rewrite responses_cons. destruct (response_in line); [|done]. by apply elem_of_cons; right.
  - eapply linked_requests; [|exact L2]. rewrite requests_cons. destruct (request_in line); [by apply sublist_cons|done].
Qed.

Lemma toward_read line rest b o :
  lines o = line :: rest -> toward b o -> toward o b ->
  toward (read_frame line b) (set_lines rest o) /\ toward (set_lines rest o) (read_frame line b).
Proof.
  intros Hl L1 L2. destruct (toward_skip _ _ _ _ Hl L1 L2) as [L1' L2']. unfold read_frame.
  destruct (frame_of line) as [text|[| |i role q|i a]] eqn:Hf; try by apply toward_reader.
  - split; [exact L1'|]. unfold toward in L2 |- *. cbn [calls pending servings lines set_lines]. rewrite Hl, requests_cons in L2.
    rewrite (proj1 (request_in_Some _ _ _ _ Hf)) in L2. by eapply (linked_start _ _ _ _ (i, role, q)).
  - destruct (pending b !! i) as [k|] eqn:Hp; [|done].
    apply toward_deliver; [|apply delete_subseteq|done|done].
    intros c Hc. right. destruct (waits_under _ _ _ _ _ _ _ L1 i k Hp) as (c0 & Hc0 & <-).
    rewrite Hc in Hc0. injection Hc0 as <-. eapply answers_from; [exact L1|]. rewrite Hl, responses_cons.
    unfold response_in at 1. rewrite Hf. apply elem_of_cons. by left.
Qed.

Lemma toward_take b b' o : take_pending b = Some b' -> toward b o -> toward o b -> toward b' o /\ toward o b'.
Proof.
  unfold take_pending. destruct (reader b); try done. intros [= <-] L1 L2. split; [|exact L2].
  unfold toward in *. cbn [calls pending servings lines set_pending set_reader]. split; try apply L1.
  intros i k Hk. by rewrite lookup_empty in Hk.
Qed.

Lemma toward_tell k b b' o : tell k b = Some b' -> toward b o -> toward o b -> toward b' o /\ toward o b'.
Proof.
  unfold tell. destruct (reader b) as [| |X|]; try done. destruct (decide (k ∈ X)); [|done]. intros [= <-] L1 L2.
  rewrite <- (same_pending (set_reader _ b)). apply toward_deliver; [|done|by apply toward_reader..].
  intros c Hc. left. apply disconnected_failure.
Qed.

Lemma toward_finish b b' o : finish b = Some b' -> toward b o -> toward o b -> toward b' o /\ toward o b'.
Proof. unfold finish. destruct (reader b); try done. destruct (decide _); [|done]. by intros [= <-]. Qed.

Lemma toward_serve j result b b' o : serve j result b = Some b' -> toward b o -> toward o b -> toward b' o /\ toward o b'.
Proof.
  unfold serve. destruct (servings b !! j) as [v|] eqn:Hv; [|done]. cbn [mbind option_bind].
  destruct (serving_at v) eqn:Hat; try done. intros [= <-] L1 L2. split; [exact L1|].
  eapply linked_progress; [exact Hv|done| |exact L2]. left. unfold answer. by rewrite Hat.
Qed.

Lemma toward_reply j w b b' o : reply j w b = Some b' -> toward b o -> toward o b -> toward b' o /\ toward o b'.
Proof.
  unfold reply. destruct (servings b !! j) as [v|] eqn:Hv; [|done]. cbn [mbind option_bind].
  destruct (serving_at v) as [|a|] eqn:Hat; try done.
  destruct (write_frame _ w b) as [[error b1]|] eqn:Hw; [|done]. cbn [mbind option_bind]. intros [= <-] L1 L2.
  destruct (written_response _ _ _ _ _ _ Hw) as (ls & -> & Hreqs & Hresps).
  unfold toward in *. cbn [calls pending servings lines set_serving set_lines]. rewrite Hreqs. split; [exact L1|].
  assert (Hans : answer v = Some a) by (unfold answer; by rewrite Hat).
  eapply linked_progress; [exact Hv|done|right; by rewrite Hans|].
  destruct Hresps as [Hr|Hr]; rewrite Hr; [exact L2|]. eapply linked_answer; [|exact L2].
  exists v, a. split; [by eapply list_elem_of_lookup_2|done].
Qed.

Lemma toward_cut n b o :
  toward b o -> toward o b ->
  let b' := mk (pending b) (calls b) (servings b) (reader b) (take n (lines b)) false in toward b' o /\ toward o b'.
Proof.
  intros L1 L2. unfold toward in *. cbn [calls pending servings lines]. split.
  - eapply linked_requests; [|exact L1]. rewrite <- (take_drop n (lines b)) at 2. rewrite requests_snoc.
    by apply sublist_inserts_r.
  - eapply linked_responses; [|exact L2]. intros x Hx. rewrite <- (take_drop n (lines b)), responses_snoc, elem_of_app. by left.
Qed.

(** *** Whole steps *)

Definition begins (a : action) : option string :=
  match a with Begin uuid _ _ => Some (peer_request_id uuid) | _ => None end.

Lemma same_lines b : set_lines (lines b) b = b.
Proof. by destruct b. Qed.

Lemma act_toward a b o b' rest :
  act a b (lines o) = Some (b', rest) -> (forall i, begins a = Some i -> i ∉ id <$> calls b) ->
  toward b o -> toward o b -> toward b' (set_lines rest o) /\ toward (set_lines rest o) b'.
Proof.
  intros Ha Hfresh L1 L2.
  assert (Hstay : forall x : option PeerBridge.t, (fun b => (b, lines o)) <$> x = Some (b', rest) ->
    (forall b'', x = Some b'' -> toward b'' o /\ toward o b'') -> toward b' (set_lines rest o) /\ toward (set_lines rest o) b').
  { intros [b''|] [= <- <-] Hx. rewrite same_lines. by apply Hx. }
  destruct a; cbn in Ha; try (eapply Hstay; [exact Ha|]; intros b'' Hb).
  - injection Ha as <- <-. rewrite same_lines. split; [|exact L2]. eapply linked_register; [by apply Hfresh|exact L1].
  - by eapply toward_send.
  - by eapply toward_receive.
  - by eapply toward_expire.
  - by eapply toward_withdraw.
  - destruct (reader b); try done. destruct (lines o) as [|line rest'] eqn:Hl; [done|].
    injection Ha as <- <-. by apply toward_read.
  - destruct (reader b); try done. simpl in Ha. injection Ha as <- <-. rewrite same_lines. by apply toward_reader.
  - by eapply toward_take.
  - by eapply toward_tell.
  - by eapply toward_finish.
  - by eapply toward_serve.
  - by eapply toward_reply.
  - injection Ha as <- <-. rewrite same_lines. by apply toward_cut.
Qed.

(** ** The bridges implement calls *)

Definition returned (c : call) : option Response.t := match at_ c with Returned a => Some a | _ => None end.
Definition entry (i : string) (v : serving) : option (TargetRole.t * Request.t * Response.t) :=
  if decide (serving_id v = i) then (fun a => (serving_role v, serving_request v, a)) <$> answer v else None.
Definition done_for (svs : list serving) (i : string) : list (TargetRole.t * Request.t * Response.t) := omap (entry i) svs.
Definition view_call (svs : list serving) (c : call) : PeerCalls.call :=
  PeerCalls.Call (target_role c) (request c) (done_for svs (id c)) (returned c).
(** The calls of end [s], as its callers and the other node's roles know them. *)
Definition view_of (b o : PeerBridge.t) : list PeerCalls.call := view_call (servings o) <$> calls b.
Definition view (s : side) (x : system) : list PeerCalls.call := view_of (end_of s x) (end_of (other s) x).

(** *** What one step changes *)

Definition call_step (c c' : call) : Prop :=
  same_call c c' /\
  (returned c' = returned c \/
   returned c = None /\ exists a, returned c' = Some a /\
     (a ∈ inbox c \/ exists e, at_ c = Failing e /\ a = Response.failure "peer" e)).
Definition calls_step (new : option string) (cs cs' : list call) : Prop :=
  (exists i role q, new = Some i /\ cs' = cs ++ [Call i role q [] Registered]) \/
  new = None /\ (cs' = cs \/ exists k c c', cs !! k = Some c /\ cs' = <[k := c']> cs /\ call_step c c').
Definition servings_step (svs svs' : list serving) : Prop :=
  svs' = svs \/
  (exists i role q, svs' = svs ++ [Serving i role q Asking]) \/
  exists j v v', svs !! j = Some v /\ svs' = <[j := v']> svs /\ asked_by v' = asked_by v /\
    (answer v' = answer v \/ answer v = None /\ exists a, answer v' = Some a).
Definition moves (new : option string) (b b' : PeerBridge.t) : Prop :=
  calls_step new (calls b) (calls b') /\ servings_step (servings b) (servings b').

Lemma moves_same b b' : calls b' = calls b -> servings b' = servings b -> moves None b b'.
Proof. intros Hc Hs. split; [right; split; [done|by left]|by left]. Qed.
Lemma moves_call k c c' b b' :
  calls b !! k = Some c -> calls b' = <[k := c']> (calls b) -> call_step c c' -> servings b' = servings b -> moves None b b'.
Proof. intros Hc He Hs Hv. split; [|by left]. right. split; [done|]. right. by exists k, c, c'. Qed.
Lemma moves_serving j v v' b b' :
  servings b !! j = Some v -> servings b' = <[j := v']> (servings b) -> asked_by v' = asked_by v ->
  (answer v' = answer v \/ answer v = None /\ exists a, answer v' = Some a) -> calls b' = calls b -> moves None b b'.
Proof. intros Hv He Hs Ha Hc. split; [right; split; [done|by left]|]. right. right. by exists j, v, v'. Qed.

Lemma moves_deliver k a b : moves None b (deliver k a b).
Proof.
  unfold deliver. destruct (calls b !! k) as [c|] eqn:Hc; [|by apply moves_same].
  eapply moves_call; [exact Hc|done| |done]. split; [done|by left].
Qed.

Lemma write_frame_calls frame w b error b' :
  write_frame frame w b = Some (error, b') -> calls b' = calls b /\ servings b' = servings b.
Proof. intros (l & -> & _)%write_frame_shape. done. Qed.

Lemma moves_send k w b b' : send k w b = Some b' -> moves None b b'.
Proof.
  unfold send. destruct (calls b !! k) as [c|] eqn:Hc; [|done]. cbn [mbind option_bind].
  destruct (at_ c) eqn:Hat; try done.
  destruct (write_frame _ w b) as [[error b1]|] eqn:Hw; [|done]. cbn [mbind option_bind]. intros [= <-].
  destruct (write_frame_calls _ _ _ _ _ Hw) as [Hc1 Hs1].
  eapply moves_call; [exact Hc|cbn [calls set_call]; by rewrite Hc1| |exact Hs1].
  split; [done|]. left. unfold returned. rewrite Hat. by destruct error.
Qed.
Lemma moves_receive k b b' : receive k b = Some b' -> moves None b b'.
Proof.
  unfold receive. destruct (calls b !! k) as [c|] eqn:Hc; [|done]. cbn [mbind option_bind].
  destruct (at_ c) eqn:Hat, (inbox c) as [|x l] eqn:Hin; try done. intros [= <-].
  eapply moves_call; [exact Hc|done| |done]. split; [done|]. right. unfold returned at 1. rewrite Hat. split; [done|].
  exists x. split; [done|]. left. rewrite Hin. apply elem_of_cons. by left.
Qed.
Lemma moves_expire k text b b' : expire k text b = Some b' -> moves None b b'.
Proof.
  unfold expire. destruct (calls b !! k) as [c|] eqn:Hc; [|done]. cbn [mbind option_bind].
  destruct (at_ c) eqn:Hat, (inbox c) as [|x l] eqn:Hin; try done. intros [= <-].
  eapply moves_call; [exact Hc|done| |done]. split; [done|]. left. unfold returned. by rewrite Hat.
Qed.
Lemma moves_withdraw k b b' : withdraw k b = Some b' -> moves None b b'.
Proof.
  unfold withdraw. destruct (calls b !! k) as [c|] eqn:Hc; [|done]. cbn [mbind option_bind].
  destruct (at_ c) as [| |e|] eqn:Hat; try done. intros [= <-].
  eapply moves_call; [exact Hc|done| |done]. split; [done|]. right. unfold returned at 1. rewrite Hat. split; [done|].
  eexists. split; [done|]. right. by exists e.
Qed.
Lemma moves_read line b : moves None b (read_frame line b).
Proof.
  unfold read_frame. destruct (frame_of line) as [text|[| |i role q|i x]]; try by apply moves_same.
  - split; [right; split; [done|by left]|]. right. left. by exists i, role, q.
  - destruct (pending b !! i); [|by apply moves_same]. apply (moves_deliver _ _ (set_pending _ b)).
Qed.
Lemma moves_take b b' : take_pending b = Some b' -> moves None b b'.
Proof. unfold take_pending. destruct (reader b); try done. intros [= <-]. by apply moves_same. Qed.
Lemma moves_tell k b b' : tell k b = Some b' -> moves None b b'.
Proof.
  unfold tell. destruct (reader b) as [| |X|]; try done. destruct (decide (k ∈ X)); [|done]. intros [= <-].
  apply (moves_deliver _ _ (set_reader _ b)).
Qed.
Lemma moves_finish b b' : finish b = Some b' -> moves None b b'.
Proof. unfold finish. destruct (reader b); try done. destruct (decide _); [|done]. intros [= <-]. by apply moves_same. Qed.
Lemma moves_serve j result b b' : serve j result b = Some b' -> moves None b b'.
Proof.
  unfold serve. destruct (servings b !! j) as [v|] eqn:Hv; [|done]. cbn [mbind option_bind].
  destruct (serving_at v) eqn:Hat; try done. intros [= <-].
  eapply moves_serving; [exact Hv|done|done| |done]. right. unfold answer at 1. rewrite Hat. split; [done|]. by eexists.
Qed.
Lemma moves_reply j w b b' : reply j w b = Some b' -> moves None b b'.
Proof.
  unfold reply. destruct (servings b !! j) as [v|] eqn:Hv; [|done]. cbn [mbind option_bind].
  destruct (serving_at v) as [|x|] eqn:Hat; try done.
  destruct (write_frame _ w b) as [[error b1]|] eqn:Hw; [|done]. cbn [mbind option_bind]. intros [= <-].
  destruct (write_frame_calls _ _ _ _ _ Hw) as [Hc1 Hs1].
  eapply moves_serving; [exact Hv|cbn [servings set_serving]; by rewrite Hs1|done| |exact Hc1].
  left. unfold answer. by rewrite Hat.
Qed.

Lemma act_moves a b incoming b' rest : act a b incoming = Some (b', rest) -> moves (begins a) b b'.
Proof.
  intros Ha.
  assert (Hstay : forall x : option PeerBridge.t, (fun b => (b, incoming)) <$> x = Some (b', rest) -> x = Some b').
  { by intros [b''|] [= <- <-]. }
  destruct a; cbn in Ha; try apply Hstay in Ha.
  - injection Ha as <- <-. split; [|by left]. left. by eexists _, _, _.
  - by eapply moves_send.
  - by eapply moves_receive.
  - by eapply moves_expire.
  - by eapply moves_withdraw.
  - destruct (reader b); try done. destruct incoming as [|line l]; [done|]. injection Ha as <- <-. apply moves_read.
  - destruct (reader b); try done. injection Ha as <- <-. by apply moves_same.
  - by apply moves_take.
  - by eapply moves_tell.
  - by apply moves_finish.
  - by eapply moves_serve.
  - by eapply moves_reply.
  - injection Ha as <- <-. by apply moves_same.
Qed.

(** *** What the views see of it *)

Local Abbreviation calls_spec := (PeerCalls.step pass_request pass_response).

(** One step of the promise, or none. *)
Definition stutters (cs cs' : list PeerCalls.call) : Prop := cs' = cs \/ calls_spec cs cs'.

Lemma omap_insert_same {A B} (f : A -> option B) (l : list A) j x y :
  l !! j = Some x -> f y = f x -> omap f (<[j := y]> l) = omap f l.
Proof.
  revert j. induction l as [|z l IH]; intros [|j] Hj Hf; [done..| |].
  - injection Hj as ->. simpl. by rewrite Hf.
  - simpl. destruct (f z); [f_equal|]; exact (IH j Hj Hf).
Qed.

Lemma done_other svs i : i ∉ serving_id <$> svs -> done_for svs i = [].
Proof.
  induction svs as [|v svs IH]; [done|]. rewrite fmap_cons, not_elem_of_cons. intros [Hv Hr].
  unfold done_for. cbn [omap list_omap]. unfold entry at 1. rewrite decide_False by congruence. by apply IH.
Qed.
Lemma done_unique svs j v :
  NoDup (serving_id <$> svs) -> svs !! j = Some v -> done_for svs (serving_id v) = option_list (entry (serving_id v) v).
Proof.
  revert j. induction svs as [|v0 svs IH]; intros [|j] Hnd Hj; [done..| |].
  - injection Hj as ->. rewrite fmap_cons in Hnd. apply NoDup_cons in Hnd as [Hn Hnd].
    unfold done_for. cbn [omap list_omap]. pose proof (done_other _ _ Hn) as He. unfold done_for in He. rewrite He.
    by destruct (entry _ v).
  - rewrite fmap_cons in Hnd. apply NoDup_cons in Hnd as [Hn Hnd].
    change (svs !! j = Some v) in Hj.
    unfold done_for. cbn [omap list_omap]. unfold entry at 1. rewrite decide_False; [by eapply IH|].
    intros He. apply Hn. apply list_elem_of_lookup. exists j. by rewrite list_lookup_fmap, Hj, He.
Qed.

Lemma linked_servings cs p reqs svs resps : linked cs p reqs svs resps -> NoDup (serving_id <$> svs).
Proof.
  intros L. pose proof (asked_apart _ _ _ _ _ _ _ L) as Hnd. rewrite fmap_app in Hnd.
  apply NoDup_app in Hnd as [Hnd _]. by rewrite <- list_fmap_compose in Hnd.
Qed.

(** What a thread serves under the id of a call is that call's request. *)
Lemma served_for cs p reqs svs resps k c v :
  linked cs p reqs svs resps -> cs !! k = Some c -> v ∈ svs -> serving_id v = id c ->
  serving_role v = target_role c /\ serving_request v = pass_request (request c).
Proof.
  intros L Hc Hv Hi.
  destruct (asked_from _ _ _ _ _ _ _ L (asked_by v)) as (k' & c' & Hc' & He & _).
  { apply elem_of_app. left. by apply list_elem_of_fmap_2. }
  unfold asked_by in He. injection He as He1 He2 He3.
  assert (k' = k) as -> by (eapply same_id; [apply L|exact Hc'|exact Hc|congruence]). rewrite Hc in Hc'.
  injection Hc' as <-. done.
Qed.

Lemma done_answered cs p reqs svs resps k c a :
  linked cs p reqs svs resps -> cs !! k = Some c -> answered_by pass_response svs (id c) a ->
  exists a0, done_for svs (id c) = [(target_role c, pass_request (request c), a0)] /\ a = pass_response a0.
Proof.
  intros L Hc (v & a0 & Hv & Hi & Ha & ->). exists a0. split; [|done].
  destruct (served_for _ _ _ _ _ _ _ _ L Hc Hv Hi) as [Hr Hq].
  apply list_elem_of_lookup in Hv as [j Hj]. rewrite <- Hi, (done_unique _ _ _ (linked_servings _ _ _ _ _ L) Hj).
  unfold entry. rewrite decide_True by done. rewrite Ha. simpl. by rewrite Hr, Hq.
Qed.

Lemma view_insert svs (cs : list call) (k : nat) c : view_call svs <$> <[k := c]> cs = <[k := view_call svs c]> (view_call svs <$> cs).
Proof. apply list_fmap_insert. Qed.
Lemma view_lookup svs (cs : list call) (k : nat) c : cs !! k = Some c -> (view_call svs <$> cs) !! k = Some (view_call svs c).
Proof. intros Hc. by rewrite list_lookup_fmap, Hc. Qed.

(** A step of the callers' own end. *)
Lemma view_calls_step new b o cs' :
  (forall i, new = Some i -> i ∉ id <$> calls b) -> toward b o -> calls_step new (calls b) cs' ->
  stutters (view_of b o) (view_call (servings o) <$> cs').
Proof.
  intros Hfresh L Hs. unfold view_of. destruct Hs as [(i & role & q & -> & ->)|(-> & [->|(k & c & c' & Hc & -> & Hsame & Hret)])].
  - right. rewrite fmap_app. cbn [fmap list_fmap]. unfold view_call at 3. cbn [target_role request id returned at_].
    rewrite done_other; [apply PeerCalls.ask|]. intros (v & -> & Hv)%list_elem_of_fmap.
    destruct (asked_from _ _ _ _ _ _ _ L (asked_by v)) as (k & c & Hc & He & _).
    { apply elem_of_app. left. by apply list_elem_of_fmap_2. }
    apply (Hfresh _ eq_refl). injection He as -> _ _. apply list_elem_of_fmap_2. by eapply list_elem_of_lookup_2.
  - by left.
  - destruct Hsame as (Hi & Hr & Hq). rewrite view_insert.
    assert (Hview : view_call (servings o) c' =
      PeerCalls.Call (target_role c) (request c) (done_for (servings o) (id c)) (returned c')).
    { unfold view_call. by rewrite Hi, Hr, Hq. }
    rewrite Hview. pose proof (view_lookup (servings o) _ _ _ Hc) as Hlook.
    destruct Hret as [->|(Hnone & a & Ha & Hwhy)].
    + rewrite list_insert_id by exact Hlook. by left.
    + right. rewrite Ha. unfold view_call at 2 in Hlook. rewrite Hnone in Hlook.
      destruct (linked_sound _ _ _ _ _ _ _ L Hc) as [Hh Hf].
      assert (Hex : explained pass_response (servings o) (id c) a).
      { destruct Hwhy as [Hin|(e & He & ->)]; [apply Hh; by left|]. left. exists e. split; [done|by apply Hf]. }
      destruct Hex as [(e & -> & He)|Hby]; [by eapply PeerCalls.return_failure|].
      destruct (done_answered _ _ _ _ _ _ _ _ L Hc Hby) as (a0 & Hd & ->). rewrite Hd in Hlook |- *.
      by apply PeerCalls.return_answer.
Qed.

Lemma view_ext svs svs' (cs : list call) :
  (forall c, c ∈ cs -> done_for svs' (id c) = done_for svs (id c)) -> view_call svs' <$> cs = view_call svs <$> cs.
Proof.
  intros He. apply list_fmap_ext. intros k c Hc. unfold view_call. rewrite He; [done|]. by eapply list_elem_of_lookup_2.
Qed.

(** A step of the other end. *)
Lemma view_servings_step b o svs' :
  toward b o -> servings_step (servings o) svs' ->
  stutters (view_of b o) (view_call svs' <$> calls b).
Proof.
  intros L [->|[(i & role & q & ->)|(j & v & v' & Hv & -> & Hsame & Hans)]]; unfold view_of.
  - by left.
  - rewrite (view_ext (servings o) (_ ++ _)); [by left|]. intros c _. unfold done_for. rewrite omap_app. cbn [omap list_omap].
    unfold entry at 2. simpl. destruct (decide _); by rewrite app_nil_r.
  - injection Hsame as Hi Hr Hq.
    assert (Hother : forall i, i <> serving_id v \/ answer v' = answer v -> done_for (<[j := v']> (servings o)) i = done_for (servings o) i).
    { intros i Hcase. eapply omap_insert_same; [exact Hv|]. unfold entry. rewrite Hi, Hr, Hq.
      destruct Hcase as [Hn| ->]; [|done]. by rewrite !decide_False by congruence. }
    destruct Hans as [Hans|(Hnone & a & Ha)].
    + rewrite (view_ext (servings o) (<[j := v']> (servings o))); [by left|]. intros c _. apply Hother. by right.
    + destruct (asked_from _ _ _ _ _ _ _ L (asked_by v)) as (k & c & Hc & He & _).
      { apply elem_of_app. left. apply list_elem_of_fmap_2. by eapply list_elem_of_lookup_2. }
      injection He as Hi' Hr' Hq'. right.
      assert (Hbefore : done_for (servings o) (id c) = []).
      { rewrite <- Hi', (done_unique _ _ _ (linked_servings _ _ _ _ _ L) Hv). unfold entry. rewrite Hnone. by destruct (decide _). }
      assert (Hafter : done_for (<[j := v']> (servings o)) (id c) = [(target_role c, pass_request (request c), a)]).
      { assert (Hj : <[j := v']> (servings o) !! j = Some v') by (apply list_lookup_insert_eq; by eapply lookup_lt_Some).
        rewrite <- Hi', <- Hi. erewrite done_unique; [| |exact Hj].
        - unfold entry. rewrite decide_True by done. rewrite Ha. simpl. by rewrite Hr, Hq, Hr', Hq'.
        - rewrite list_fmap_insert, list_insert_id; [eapply linked_servings; exact L|]. by rewrite list_lookup_fmap, Hv, Hi. }
      assert (Hviews : view_call (<[j := v']> (servings o)) <$> calls b =
        <[k := PeerCalls.Call (target_role c) (request c) [(target_role c, pass_request (request c), a)] (returned c)]>
          (view_call (servings o) <$> calls b)).
      { apply list_eq. intros k'. rewrite list_lookup_fmap. destruct (decide (k' = k)) as [->|Hn].
        - rewrite Hc, list_lookup_insert_eq by (rewrite length_fmap; by eapply lookup_lt_Some).
          simpl. unfold view_call. by rewrite Hafter.
        - rewrite list_lookup_insert_ne, list_lookup_fmap by done. destruct (calls b !! k') as [c'|] eqn:Hc'; [|done].
          simpl. unfold view_call. rewrite Hother; [done|]. left. intros He.
          apply Hn. eapply same_id; [apply L|exact Hc'|exact Hc|congruence]. }
      rewrite Hviews. apply PeerCalls.perform. rewrite (view_lookup _ _ _ _ Hc). unfold view_call. by rewrite Hbefore.
Qed.

(** *** Runs *)

Record invariant (ls : list (side * action)) (x : system) : Prop := {
  ends_toward s : toward (end_of s x) (end_of (other s) x);
  ends_ids s : id <$> calls (end_of s x) = drawn s ls;
}.

Lemma toward_start : toward start_bridge start_bridge.
Proof.
  split; try by apply NoDup_nil.
  - intros i k Hk. by destruct (lookup_empty_Some (M := gmap string) i k).
  - intros q Hq. by apply not_elem_of_nil in Hq.
  - intros i a Ha. by apply not_elem_of_nil in Ha.
  - intros c Hc. by apply not_elem_of_nil in Hc.
Qed.
Lemma invariant_start : invariant [] start.
Proof. split; intros []; [exact toward_start..|done|done]. Qed.

Lemma moves_ids new b b' : moves new b b' -> id <$> calls b' = (id <$> calls b) ++ option_list new.
Proof.
  intros [[(i & role & q & -> & ->)|(-> & [->|(k & c & c' & Hc & -> & (Hi & _) & _)])] _].
  - by rewrite fmap_app.
  - by rewrite app_nil_r.
  - rewrite (ids_insert _ _ _ _ Hc Hi). by rewrite app_nil_r.
Qed.

Lemma drawn_snoc s ls t a :
  drawn s (ls ++ [(t, a)]) = drawn s ls ++ (if decide (t = s) then option_list (begins a) else []).
Proof.
  unfold drawn. rewrite omap_app. f_equal. cbn [omap list_omap]. destruct a; simpl; by destruct (decide (t = s)).
Qed.

Lemma ends_both_same s b o : end_of s (both s b o) = b.
Proof. by destruct s. Qed.
Lemma ends_both_other s b o : end_of (other s) (both s b o) = o.
Proof. by destruct s. Qed.
Lemma other_other s : other (other s) = s.
Proof. by destruct s. Qed.
Lemma either_side (s t : side) : t = s \/ t = other s.
Proof. destruct s, t; auto. Qed.

(** A step, as a step of one end against the other. *)
Lemma step_inv s a x x' :
  step (s, a) x = Some x' ->
  exists b' rest, act a (end_of s x) (lines (end_of (other s) x)) = Some (b', rest) /\
    end_of s x' = b' /\ end_of (other s) x' = set_lines rest (end_of (other s) x).
Proof.
  unfold step. destruct (act a _ _) as [[b' rest]|]; [|done]. intros [= <-].
  exists b', rest. by rewrite ends_both_same, ends_both_other.
Qed.

Lemma begins_fresh ls x s a :
  invariant ls x -> NoDup (drawn s (ls ++ [(s, a)])) -> forall i, begins a = Some i -> i ∉ id <$> calls (end_of s x).
Proof.
  intros I Hnd i Hi. rewrite (ends_ids _ _ I). rewrite drawn_snoc, decide_True, Hi in Hnd by done.
  apply NoDup_app in Hnd as (_ & Hno & _). intros Hin. apply (Hno i Hin). by apply list_elem_of_singleton.
Qed.

Lemma step_invariant ls l x x' :
  step l x = Some x' -> invariant ls x -> (forall s, NoDup (drawn s (ls ++ [l]))) -> invariant (ls ++ [l]) x'.
Proof.
  destruct l as [s a]. intros (b' & rest & Ha & Hs & Ho)%step_inv I Hnd.
  pose proof (ends_toward _ _ I (other s)) as L2. rewrite other_other in L2.
  destruct (act_toward _ _ _ _ _ Ha (begins_fresh _ _ _ _ I (Hnd s)) (ends_toward _ _ I s) L2) as [L1' L2'].
  split; intros t; destruct (either_side s t) as [->| ->].
  - by rewrite Hs, Ho.
  - by rewrite other_other, Hs, Ho.
  - rewrite drawn_snoc, decide_True, Hs by done. rewrite (moves_ids _ _ _ (act_moves _ _ _ _ _ Ha)).
    by rewrite (ends_ids _ _ I).
  - rewrite drawn_snoc, decide_False, app_nil_r, Ho by (by destruct s). apply (ends_ids _ _ I (other s)).
Qed.

Lemma step_refines ls l x x' s :
  step l x = Some x' -> invariant ls x -> (forall s, NoDup (drawn s (ls ++ [l]))) -> stutters (view s x) (view s x').
Proof.
  destruct l as [t a]. intros Hstep I Hnd. destruct (step_inv _ _ _ _ Hstep) as (b' & rest & Ha & Hs & Ho).
  destruct (act_moves _ _ _ _ _ Ha) as [Hc Hv]. unfold view. destruct (either_side t s) as [->| ->].
  - rewrite Hs, Ho. exact (view_calls_step _ _ _ _ (begins_fresh _ _ _ _ I (Hnd t)) (ends_toward _ _ I t) Hc).
  - pose proof (ends_toward _ _ I (other t)) as L2. rewrite !other_other in L2 |- *. rewrite Hs, Ho.
    exact (view_servings_step _ _ _ L2 Hv).
Qed.

Lemma run_snoc ls l x : run (ls ++ [l]) x = run ls x ≫= step l.
Proof.
  revert x. induction ls as [|l0 ls IH]; intros x; simpl.
  - by destruct (step l x).
  - destruct (step l0 x) as [y|]; [apply IH|done].
Qed.
Lemma drawn_prefix s ls ls' : NoDup (drawn s (ls ++ ls')) -> NoDup (drawn s ls).
Proof. unfold drawn. rewrite omap_app. by intros [? _]%NoDup_app. Qed.

Lemma run_invariant ls x :
  run ls start = Some x -> (forall s, NoDup (drawn s ls)) -> invariant ls x.
Proof.
  revert x. induction ls as [|l ls IH] using rev_ind; intros x Hrun Hnd.
  - injection Hrun as <-. exact invariant_start.
  - rewrite run_snoc in Hrun. destruct (run ls start) as [y|] eqn:Hy; [|done].
    eapply step_invariant; [exact Hrun| |exact Hnd]. apply IH; [done|]. intros s. by eapply drawn_prefix.
Qed.

(** C6. Refinement: however the steps of the two ends interleave, and whatever writes, reads and waits
    fail, the callers of each end see calls that are performed at most once, by the role they named
    and for the request they made, and answered at most once, with that role's answer or a failure of
    the bridge itself. *)
Theorem bridges_refine_calls ls x s :
  run ls start = Some x -> (forall s, NoDup (drawn s ls)) -> rtc calls_spec [] (view s x).
Proof.
  revert x. induction ls as [|l ls IH] using rev_ind; intros x Hrun Hnd.
  - injection Hrun as <-. by destruct s.
  - rewrite run_snoc in Hrun. destruct (run ls start) as [y|] eqn:Hy; [|done].
    assert (Hnd' : forall s, NoDup (drawn s ls)) by (intros t; by eapply drawn_prefix).
    destruct (step_refines _ _ _ _ s Hrun (run_invariant _ _ Hy Hnd') Hnd) as [->|Hstep]; [by apply IH|].
    eapply rtc_r; [by apply IH|exact Hstep].
Qed.

(** ** After the connection has broken *)

Definition telling (b : PeerBridge.t) : gset nat := match reader b with Telling X => X | _ => ∅ end.
Definition waits (c : call) : Prop := (at_ c = Registered \/ at_ c = Waiting) /\ inbox c = [].
(** Whoever waits can still be reached. *)
Definition reachable (b : PeerBridge.t) : Prop :=
  forall k c, calls b !! k = Some c -> waits c -> pending b !! id c = Some k \/ k ∈ telling b.
(** Once the reader has taken [pending], only calls from the [n]-th on are in it. *)
Definition late (n : nat) (b : PeerBridge.t) : Prop :=
  (n <= length (calls b))%nat /\
  match reader b with
  | Reading => False
  | Ending => True
  | Telling _ | Done => forall i k, pending b !! i = Some k -> (n <= k)%nat
  end.

Lemma reachable_call b k c c' p' :
  calls b !! k = Some c -> id c' = id c -> (forall i, i <> id c -> p' !! i = pending b !! i) -> NoDup (id <$> calls b) ->
  (waits c' -> waits c /\ p' !! id c = pending b !! id c) ->
  reachable b -> reachable (set_call k c' (set_pending p' b)).
Proof.
  intros Hc Hi Hp Hnd Hw R k0 c0. cbn [calls set_call set_pending pending]. intros Hk0 Hwait.
  destruct (decide (k0 = k)) as [->|Hn].
  - rewrite list_lookup_insert_eq in Hk0 by (by eapply lookup_lt_Some). injection Hk0 as <-.
    destruct (Hw Hwait) as [Hwc Hpc]. rewrite Hi, Hpc. by apply R.
  - rewrite list_lookup_insert_ne in Hk0 by done. rewrite Hp; [by apply R|].
    intros He. apply Hn. by eapply same_id.
Qed.

Lemma reachable_deliver b k a p' i :
  (forall j, j <> i -> p' !! j = pending b !! j) -> NoDup (id <$> calls b) ->
  (forall c, calls b !! k = Some c -> id c = i \/ p' = pending b) ->
  (is_Some (calls b !! k) \/ p' = pending b) ->
  reachable b -> reachable (deliver k a (set_pending p' b)).
Proof.
  intros Hp Hnd Hk Hsome R. unfold deliver. cbn [calls set_pending]. destruct (calls b !! k) as [c|] eqn:Hc.
  - eapply reachable_call; [exact Hc|done| |exact Hnd| |exact R].
    + intros j Hj. destruct (Hk c eq_refl) as [<-| ->]; [by apply Hp|done].
    + intros [_ Hin]. simpl in Hin. by destruct (inbox c).
  - destruct Hsome as [[? [=]]| ->]. by rewrite same_pending.
Qed.

Lemma reachable_keep b k c c' :
  calls b !! k = Some c -> id c' = id c -> NoDup (id <$> calls b) -> (waits c' -> waits c) ->
  reachable b -> reachable (set_call k c' b).
Proof.
  intros Hc Hi Hnd Hw R. rewrite <- (same_pending b). eapply reachable_call; [exact Hc|exact Hi|done|exact Hnd| |exact R]. auto.
Qed.

Lemma reachable_register uuid role q b :
  peer_request_id uuid ∉ id <$> calls b -> reachable b -> reachable (register uuid role q b).
Proof.
  intros Hi R k c. cbn [calls register pending]. intros [Hc|[Hge Hc]]%lookup_app_Some Hw.
  - rewrite lookup_insert_ne; [by apply R|]. intros He. apply Hi. rewrite He. apply list_elem_of_fmap_2. by eapply list_elem_of_lookup_2.
  - apply list_lookup_singleton_Some in Hc as [Hz <-]. left. simpl. rewrite lookup_insert_eq. f_equal. lia.
Qed.

Lemma reachable_send k w b b' : send k w b = Some b' -> NoDup (id <$> calls b) -> reachable b -> reachable b'.
Proof.
  unfold send. destruct (calls b !! k) as [c|] eqn:Hc; [|done]. cbn [mbind option_bind].
  destruct (at_ c) eqn:Hat; try done.
  destruct (write_frame _ w b) as [[error b1]|] eqn:Hw; [|done]. cbn [mbind option_bind]. intros [= <-] Hnd R.
  destruct (write_frame_shape _ _ _ _ _ Hw) as (l & -> & _).
  eapply reachable_keep; [exact Hc|done|exact Hnd| |exact R].
  intros [_ Hin]. split; [by left|exact Hin].
Qed.
Lemma reachable_receive k b b' : receive k b = Some b' -> NoDup (id <$> calls b) -> reachable b -> reachable b'.
Proof.
  unfold receive. destruct (calls b !! k) as [c|] eqn:Hc; [|done]. cbn [mbind option_bind].
  destruct (at_ c) eqn:Hat, (inbox c) as [|x l] eqn:Hin; try done. intros [= <-] Hnd R.
  eapply reachable_keep; [exact Hc|done|exact Hnd| |exact R]. by intros [[|] _].
Qed.
Lemma reachable_expire k text b b' : expire k text b = Some b' -> NoDup (id <$> calls b) -> reachable b -> reachable b'.
Proof.
  unfold expire. destruct (calls b !! k) as [c|] eqn:Hc; [|done]. cbn [mbind option_bind].
  destruct (at_ c) eqn:Hat, (inbox c) as [|x l] eqn:Hin; try done. intros [= <-] Hnd R.
  eapply reachable_keep; [exact Hc|done|exact Hnd| |exact R]. by intros [[|] _].
Qed.
Lemma reachable_withdraw k b b' : withdraw k b = Some b' -> NoDup (id <$> calls b) -> reachable b -> reachable b'.
Proof.
  unfold withdraw. destruct (calls b !! k) as [c|] eqn:Hc; [|done]. cbn [mbind option_bind].
  destruct (at_ c) as [| |e|] eqn:Hat; try done. intros [= <-] Hnd R.
  eapply reachable_call; [exact Hc|done| |exact Hnd| |exact R].
  - intros i Hi. by rewrite lookup_delete_ne.
  - by intros [[|] _].
Qed.
Lemma reachable_read line b o :
  reader b = Reading -> toward b o -> reachable b -> reachable (read_frame line b).
Proof.
  intros Hr L R. assert (Hstop : reachable (set_reader Ending b)).
  { intros k c Hc Hw. destruct (R k c Hc Hw) as [Hp|Ht]; [by left|]. right. unfold telling in Ht. by rewrite Hr in Ht. }
  unfold read_frame. destruct (frame_of line) as [text|[| |i role q|i a]]; try exact Hstop; [exact R|].
  destruct (pending b !! i) as [k|] eqn:Hp; [|exact R].
  destruct (waits_under _ _ _ _ _ _ _ L i k Hp) as (c & Hc & Hi).
  apply reachable_deliver with (i := i); [|exact (ids_apart _ _ _ _ _ _ _ L)| | |exact R].
  - intros j Hj. by rewrite lookup_delete_ne.
  - intros c0 Hc0. rewrite Hc in Hc0. injection Hc0 as <-. by left.
  - left. by exists c.
Qed.
Lemma reachable_take b b' : take_pending b = Some b' -> reachable b -> reachable b'.
Proof.
  unfold take_pending. destruct (reader b) eqn:Hr; try done. intros [= <-] R k c Hc Hw.
  destruct (R k c Hc Hw) as [Hp|Ht]; [|unfold telling in Ht; by rewrite Hr in Ht].
  right. unfold telling. cbn [reader set_reader]. apply elem_of_list_to_set, list_elem_of_fmap.
  exists (id c, k). split; [done|]. by apply elem_of_map_to_list.
Qed.
Lemma reachable_tell k b b' : tell k b = Some b' -> NoDup (id <$> calls b) -> reachable b -> reachable b'.
Proof.
  unfold tell. destruct (reader b) as [| |X|] eqn:Hr; try done. destruct (decide (k ∈ X)); [|done]. intros [= <-] Hnd R.
  intros k' c' Hc' Hw. unfold deliver in *. cbn [calls set_reader] in *. destruct (calls b !! k) as [c|] eqn:Hc.
  - cbn [calls set_call pending set_reader telling reader] in *. destruct (decide (k' = k)) as [->|Hn].
    + rewrite list_lookup_insert_eq in Hc' by (by eapply lookup_lt_Some). injection Hc' as <-.
      destruct Hw as [_ Hin]. simpl in Hin. by destruct (inbox c).
    + rewrite list_lookup_insert_ne in Hc' by done. destruct (R k' c' Hc' Hw) as [Hp|Ht]; [by left|right].
      unfold telling in *. rewrite Hr in Ht. cbn [reader set_call set_reader]. set_solver.
  - destruct (R k' c' Hc' Hw) as [Hp|Ht]; [by left|right]. unfold telling in *. rewrite Hr in Ht. cbn [reader set_reader].
    apply elem_of_difference. split; [exact Ht|]. intros ->%elem_of_singleton. cbn [calls set_reader] in Hc'. congruence.
Qed.
Lemma reachable_finish b b' : finish b = Some b' -> reachable b -> reachable b'.
Proof.
  unfold finish. destruct (reader b) as [| |X|] eqn:Hr; try done. destruct (decide (X = ∅)) as [->|]; [|done].
  intros [= <-] R k c Hc Hw. destruct (R k c Hc Hw) as [Hp|Ht]; [by left|]. unfold telling in Ht. by rewrite Hr in Ht.
Qed.
Lemma reachable_others b b' :
  calls b' = calls b -> pending b' = pending b -> reader b' = reader b -> reachable b -> reachable b'.
Proof. intros Hc Hp Hr R k c. unfold telling. rewrite Hc, Hp, Hr. apply R. Qed.

Lemma others_serve j result b b' :
  serve j result b = Some b' -> calls b' = calls b /\ pending b' = pending b /\ reader b' = reader b.
Proof.
  unfold serve. destruct (servings b !! j) as [v|]; [|done]. cbn [mbind option_bind]. destruct (serving_at v); try done.
  by intros [= <-].
Qed.
Lemma others_reply j w b b' :
  reply j w b = Some b' -> calls b' = calls b /\ pending b' = pending b /\ reader b' = reader b.
Proof.
  unfold reply. destruct (servings b !! j) as [v|]; [|done]. cbn [mbind option_bind]. destruct (serving_at v); try done.
  destruct (write_frame _ w b) as [[error b1]|] eqn:Hw; [|done]. cbn [mbind option_bind]. intros [= <-].
  by destruct (write_frame_shape _ _ _ _ _ Hw) as (l & -> & _).
Qed.

Lemma act_reachable a b o incoming b' rest :
  act a b incoming = Some (b', rest) -> (forall i, begins a = Some i -> i ∉ id <$> calls b) ->
  toward b o -> reachable b -> reachable b'.
Proof.
  intros Ha Hfresh L R. pose proof (ids_apart _ _ _ _ _ _ _ L) as Hnd.
  assert (Hstay : forall x : option PeerBridge.t, (fun b => (b, incoming)) <$> x = Some (b', rest) -> x = Some b').
  { by intros [b''|] [= <- <-]. }
  destruct a; cbn in Ha; try apply Hstay in Ha.
  - injection Ha as <- <-. apply reachable_register; [by apply Hfresh|exact R].
  - by eapply reachable_send.
  - by eapply reachable_receive.
  - by eapply reachable_expire.
  - by eapply reachable_withdraw.
  - destruct (reader b) eqn:Hr; try done. destruct incoming as [|line l]; [done|]. injection Ha as <- <-.
    by eapply reachable_read.
  - destruct (reader b) eqn:Hr; try done. injection Ha as <- <-.
    intros k c Hc Hw. destruct (R k c Hc Hw) as [Hp|Ht]; [by left|]. unfold telling in Ht. by rewrite Hr in Ht.
  - by eapply reachable_take.
  - by eapply reachable_tell.
  - by eapply reachable_finish.
  - destruct (others_serve _ _ _ _ Ha) as (? & ? & ?). by eapply reachable_others.
  - destruct (others_reply _ _ _ _ Ha) as (? & ? & ?). by eapply reachable_others.
  - injection Ha as <- <-. by eapply reachable_others.
Qed.

Lemma moves_length new b b' : moves new b b' -> (length (calls b) <= length (calls b'))%nat.
Proof. intros Hm%moves_ids. apply (f_equal length) in Hm. rewrite length_app, !length_fmap in Hm. lia. Qed.

Lemma late_keep n b b' :
  (length (calls b) <= length (calls b'))%nat -> pending b' ⊆ pending b -> reader b' = reader b -> late n b -> late n b'.
Proof.
  intros Hl Hp Hr [Hn Hlate]. split; [lia|]. rewrite Hr. destruct (reader b); try done; intros i k Hk; eapply Hlate; by eapply lookup_weaken.
Qed.

Lemma deliver_rest k a b : pending (deliver k a b) = pending b /\ reader (deliver k a b) = reader b.
Proof. unfold deliver. by destruct (calls b !! k). Qed.

(** Steps that neither read nor begin leave the reader alone, and add nothing to [pending]. *)
Lemma send_rest k w b b' : send k w b = Some b' -> pending b' ⊆ pending b /\ reader b' = reader b.
Proof.
  unfold send. destruct (calls b !! k) as [c|]; [|done]. cbn [mbind option_bind]. destruct (at_ c); try done.
  destruct (write_frame _ w b) as [[error b1]|] eqn:Hw; [|done]. cbn [mbind option_bind]. intros [= <-].
  by destruct (write_frame_shape _ _ _ _ _ Hw) as (l & -> & _).
Qed.
Lemma receive_rest k b b' : receive k b = Some b' -> pending b' ⊆ pending b /\ reader b' = reader b.
Proof.
  unfold receive. destruct (calls b !! k) as [c|]; [|done]. cbn [mbind option_bind].
  destruct (at_ c), (inbox c); try done. by intros [= <-].
Qed.
Lemma expire_rest k text b b' : expire k text b = Some b' -> pending b' ⊆ pending b /\ reader b' = reader b.
Proof.
  unfold expire. destruct (calls b !! k) as [c|]; [|done]. cbn [mbind option_bind].
  destruct (at_ c), (inbox c); try done. by intros [= <-].
Qed.
Lemma withdraw_rest k b b' : withdraw k b = Some b' -> pending b' ⊆ pending b /\ reader b' = reader b.
Proof.
  unfold withdraw. destruct (calls b !! k) as [c|]; [|done]. cbn [mbind option_bind].
  destruct (at_ c); try done. intros [= <-]. split; [apply delete_subseteq|done].
Qed.

Lemma late_take n b b' : take_pending b = Some b' -> late n b -> late n b'.
Proof.
  unfold take_pending. destruct (reader b) eqn:Hr; try done. intros [= <-] [Hn _]. split; [exact Hn|].
  intros i k Hk. by destruct (lookup_empty_Some (M := gmap string) i k).
Qed.
Lemma late_tell n k b b' : tell k b = Some b' -> late n b -> (length (calls b) <= length (calls b'))%nat -> late n b'.
Proof.
  unfold tell. destruct (reader b) as [| |X|] eqn:Hr; try done. destruct (decide (k ∈ X)); [|done].
  intros [= <-] [Hn Hlate] Hl. split; [lia|].
  destruct (deliver_rest k DISCONNECTED (set_reader (Telling (X ∖ {[ k ]})) b)) as [-> ->]. rewrite Hr in Hlate. exact Hlate.
Qed.
Lemma late_finish n b b' : finish b = Some b' -> late n b -> late n b'.
Proof.
  unfold finish. destruct (reader b) eqn:Hr; try done. destruct (decide _); [|done]. intros [= <-] [Hn Hlate].
  rewrite Hr in Hlate. by split.
Qed.
Lemma late_begin n uuid role q b : late n b -> late n (register uuid role q b).
Proof.
  intros [Hn Hlate]. split; [cbn [calls register]; rewrite length_app; lia|]. cbn [reader register pending].
  destruct (reader b); try done; intros i k [[_ <-]|[_ Hk]]%lookup_insert_Some; try exact Hn; by eapply Hlate.
Qed.

Lemma act_late n a b incoming b' rest : act a b incoming = Some (b', rest) -> late n b -> late n b'.
Proof.
  intros Ha Hlate. pose proof (moves_length _ _ _ (act_moves _ _ _ _ _ Ha)) as Hl.
  assert (Hkeep : pending b' ⊆ pending b /\ reader b' = reader b -> late n b') by (intros [? ?]; by eapply late_keep).
  assert (Hstay : forall x : option PeerBridge.t, (fun b => (b, incoming)) <$> x = Some (b', rest) -> x = Some b').
  { by intros [b''|] [= <- <-]. }
  assert (Hout : reader b <> Reading) by (intros Hr; destruct Hlate as [_ Hf]; by rewrite Hr in Hf).
  destruct a; cbn in Ha; try apply Hstay in Ha.
  - injection Ha as <- <-. by apply late_begin.
  - apply Hkeep. by eapply send_rest.
  - apply Hkeep. by eapply receive_rest.
  - apply Hkeep. by eapply expire_rest.
  - apply Hkeep. by eapply withdraw_rest.
  - by destruct (reader b).
  - by destruct (reader b).
  - by eapply late_take.
  - by eapply late_tell.
  - by eapply late_finish.
  - apply Hkeep. by destruct (others_serve _ _ _ _ Ha) as (_ & -> & ->).
  - apply Hkeep. by destruct (others_reply _ _ _ _ Ha) as (_ & -> & ->).
  - injection Ha as <- <-. by apply Hkeep.
Qed.

Lemma run_reachable ls x s : run ls start = Some x -> (forall s, NoDup (drawn s ls)) -> reachable (end_of s x).
Proof.
  revert x. induction ls as [|[t a] ls IH] using rev_ind; intros x Hrun Hnd.
  - injection Hrun as <-. destruct s; by intros k c.
  - rewrite run_snoc in Hrun. destruct (run ls start) as [y|] eqn:Hy; [|done].
    assert (Hnd' : forall s, NoDup (drawn s ls)) by (intros u; by eapply drawn_prefix).
    pose proof (run_invariant _ _ Hy Hnd') as I. pose proof (IH y eq_refl Hnd') as HR.
    destruct (step_inv _ _ _ _ Hrun) as (b' & rest & Ha & Hs & Ho). destruct (either_side t s) as [->| ->].
    + rewrite Hs. exact (act_reachable _ _ _ _ _ _ Ha (begins_fresh _ _ _ _ I (Hnd t)) (ends_toward _ _ I t) HR).
    + rewrite Ho. exact HR.
Qed.

Lemma run_late n ls x x' s : run ls x = Some x' -> late n (end_of s x) -> late n (end_of s x').
Proof.
  revert x. induction ls as [|[t a] ls IH]; intros x Hrun Hl; [by injection Hrun as <-|].
  cbn [run mbind option_bind] in Hrun. destruct (step (t, a) x) as [y|] eqn:Hy; [|done]. apply (IH y Hrun).
  destruct (step_inv _ _ _ _ Hy) as (b' & rest & Ha & Hs & Ho). destruct (either_side t s) as [->| ->].
  - rewrite Hs. by eapply act_late.
  - by rewrite Ho.
Qed.

Lemma run_through ls ls' x : run (ls ++ ls') x = run ls x ≫= run ls'.
Proof.
  revert x. induction ls as [|l ls IH]; intros x; [done|]. cbn [run app]. destruct (step l x) as [y|]; [apply IH|done].
Qed.

(** C16. Errors: when the connection breaks, every caller that was waiting by then is told.  Once the
    reader has left its loop and come to its end, no call that was begun before still waits for an
    answer that cannot come: its inbox holds one, whether an answer or the report of the
    disconnection. *)
Theorem disconnection_is_told ls ls' x x' s k c :
  run ls start = Some x -> reader (end_of s x) = Ending ->
  run ls' x = Some x' -> reader (end_of s x') = Done ->
  (forall s, NoDup (drawn s (ls ++ ls'))) ->
  (k < length (calls (end_of s x)))%nat -> calls (end_of s x') !! k = Some c -> at_ c = Waiting -> inbox c <> [].
Proof.
  intros Hrun Hend Hrun' Hdone Hnd Hk Hc Hat Hin.
  assert (Hall : run (ls ++ ls') start = Some x') by (rewrite run_through, Hrun; exact Hrun').
  assert (Hlate : late (length (calls (end_of s x))) (end_of s x')).
  { eapply run_late; [exact Hrun'|]. split; [done|]. by rewrite Hend. }
  destruct (run_reachable _ _ s Hall Hnd k c Hc (conj (or_intror Hat) Hin)) as [Hp|Ht].
  - destruct Hlate as [_ Hlate]. rewrite Hdone in Hlate. specialize (Hlate _ _ Hp). lia.
  - unfold telling in Ht. by rewrite Hdone in Ht.
Qed.

(** ** While nothing breaks *)

(** The steps of a connection that holds, with callers that do not give up. *)
Definition sound (a : action) : bool :=
  match a with
  | Begin _ _ _ | Send _ Through | Receive _ | Read | Serve _ _ | Reply _ Through => true
  | _ => false
  end.

Definition unreplied (v : serving) : Prop := forall a, serving_at v <> Replied a.
(** Where the answer to a call is. *)
Definition under_way (b o : PeerBridge.t) (k : nat) (c : call) : Prop :=
  pending b !! id c = Some k /\
  ((exists role q, (id c, role, q) ∈ requests_in (lines b)) \/
   (exists v, v ∈ servings o /\ serving_id v = id c /\ unreplied v) \/
   (exists a, (id c, a) ∈ responses_in (lines o))).
Definition well_placed (b o : PeerBridge.t) (k : nat) (c : call) : Prop :=
  match at_ c with
  | Registered => pending b !! id c = Some k /\ inbox c = []
  | Waiting => inbox c <> [] \/ under_way b o k c
  | Failing _ => False
  | Returned _ => True
  end.
Definition message (line : string) : Prop := is_Some (request_in line) \/ is_Some (response_in line).

Record healthy (b o : PeerBridge.t) : Prop := {
  healthy_reader : reader b = Reading;
  healthy_open : open b = true;
  healthy_lines line : line ∈ lines b -> message line;
  healthy_calls k c : calls b !! k = Some c -> well_placed b o k c;
  healthy_answers c a : c ∈ calls b -> holds c a -> answered_by pass_response (servings o) (id c) a;
}.

(** What the other end may do to a call. *)
Lemma well_placed_other b o o' k c :
  (forall v, v ∈ servings o -> unreplied v -> (exists v', v' ∈ servings o' /\ serving_id v' = serving_id v /\ unreplied v') \/
     exists a, (serving_id v, a) ∈ responses_in (lines o')) ->
  (forall x, x ∈ responses_in (lines o) -> x ∈ responses_in (lines o')) ->
  well_placed b o k c -> well_placed b o' k c.
Proof.
  intros Hv Hx. unfold well_placed, under_way. destruct (at_ c); try done.
  intros [Hin|(Hp & Hcase)]; [by left|right]. split; [exact Hp|].
  destruct Hcase as [Hr|[(v & Hin & Hi & Hu)|(a & Ha)]]; [by left| |right; right; exists a; by apply Hx].
  right. destruct (Hv v Hin Hu) as [(v' & Hin' & Hi' & Hu')|(a & Ha)].
  - left. exists v'. rewrite Hi', Hi. done.
  - right. exists a. by rewrite <- Hi.
Qed.
Lemma answered_mono (svs svs' : list serving) i a :
  (forall v a0, v ∈ svs -> answer v = Some a0 -> exists v', v' ∈ svs' /\ serving_id v' = serving_id v /\ answer v' = Some a0) ->
  answered_by pass_response svs i a -> answered_by pass_response svs' i a.
Proof.
  intros Hm (v & a0 & Hv & Hi & Ha & ->). destruct (Hm v a0 Hv Ha) as (v' & Hv' & Hi' & Ha').
  exists v', a0. by rewrite Hi'.
Qed.

(** The caller [k] moves on; [pending] and the lines keep what the others need. *)
Lemma healthy_call b o k c c' ls :
  calls b !! k = Some c -> same_call c c' -> requests_in (lines b) ⊆ requests_in ls ->
  (forall line, line ∈ ls -> message line) ->
  (forall a, holds c' a -> holds c a) ->
  well_placed (set_lines ls (set_call k c' b)) o k c' ->
  healthy b o -> healthy (set_lines ls (set_call k c' b)) o.
Proof.
  intros Hc (Hi & _) Hreq Hls Hh Hw G. split; [apply G|apply G|exact Hls| |].
  - intros k0 c0 Hk0. cbn [calls set_lines set_call] in Hk0. destruct (decide (k0 = k)) as [->|Hn].
    + rewrite list_lookup_insert_eq in Hk0 by (by eapply lookup_lt_Some). by injection Hk0 as <-.
    + rewrite list_lookup_insert_ne in Hk0 by done. pose proof (healthy_calls _ _ G k0 c0 Hk0) as Hp.
      unfold well_placed, under_way in *. cbn [pending lines set_lines set_call]. destruct (at_ c0); try done.
      destruct Hp as [Hp|(Hp & [(role & q & Hq)|Hrest])]; [by left| |].
      * right. split; [exact Hp|]. left. exists role, q. by apply Hreq.
      * right. split; [exact Hp|by right].
  - intros c0 a Hc0 Ha. cbn [calls set_lines set_call] in Hc0. apply elem_of_insert_inv in Hc0 as [->|Hc0].
    + rewrite Hi. eapply healthy_answers; [exact G|by eapply list_elem_of_lookup_2|by apply Hh].
    + by eapply healthy_answers.
Qed.

Lemma healthy_register uuid role q b o :
  peer_request_id uuid ∉ id <$> calls b -> healthy b o -> healthy (register uuid role q b) o.
Proof.
  intros Hi G. split; [apply G|apply G|apply G| |].
  - intros k c. cbn [calls register]. intros [Hc|[Hge Hc]]%lookup_app_Some.
    + assert (Hne : peer_request_id uuid <> id c).
      { intros He. apply Hi. rewrite He. apply list_elem_of_fmap_2. by eapply list_elem_of_lookup_2. }
      pose proof (healthy_calls _ _ G k c Hc) as Hp. unfold well_placed, under_way in *.
      cbn [pending lines register]. rewrite lookup_insert_ne by done. exact Hp.
    + apply list_lookup_singleton_Some in Hc as [Hz <-]. unfold well_placed. cbn [at_ inbox id pending register].
      rewrite lookup_insert_eq. split; [f_equal; lia|done].
  - intros c a [Hc| ->%list_elem_of_singleton]%elem_of_app Ha; [by eapply healthy_answers|].
    destruct Ha as [Ha|[=]]. by apply not_elem_of_nil in Ha.
Qed.

Lemma request_message i role q : message (frame_text (PeerFrame.Request i role q)).
Proof. left. unfold request_in. rewrite (carries_request _ _ _ Hcarries). by eexists. Qed.
Lemma response_message i a : message (frame_text (PeerFrame.Response i a)).
Proof. right. unfold response_in. rewrite (carries_response _ _ _ Hcarries). by eexists. Qed.
Lemma messages_snoc ls line : (forall l, l ∈ ls -> message l) -> message line -> forall l, l ∈ ls ++ [line] -> message l.
Proof. intros Hls Hl l [Hin| ->%list_elem_of_singleton]%elem_of_app; [by apply Hls|done]. Qed.

Lemma healthy_send k b b' o :
  send k Through b = Some b' -> healthy b o -> healthy o b -> healthy b' o /\ healthy o b'.
Proof.
  unfold send. destruct (calls b !! k) as [c|] eqn:Hc; [|done]. cbn [mbind option_bind].
  destruct (at_ c) eqn:Hat; try done. cbn [write_frame mbind option_bind]. intros Hb G1 G2.
  unfold append in Hb. rewrite (healthy_open _ _ G1) in Hb. injection Hb as <-.
  destruct (request_line (id c) (target_role c) (request c)) as [Hreq Hresp].
  pose proof (healthy_calls _ _ G1 k c Hc) as Hp. unfold well_placed in Hp. rewrite Hat in Hp. destruct Hp as [Hp Hin].
  split.
  - apply (healthy_call b o k c (with_stage Waiting c)
             (lines b ++ [frame_text (PeerFrame.Request (id c) (target_role c) (request c))])); [exact Hc|done| | | | |exact G1].
    + rewrite requests_snoc. intros x Hx. apply elem_of_app. by left.
    + apply messages_snoc; [apply G1|apply request_message].
    + intros a [Ha|[=]]. by left.
    + unfold well_placed. cbn [at_ with_stage]. right. split; [exact Hp|]. left.
      exists (target_role c), (pass_request (request c)). cbn [lines set_lines set_call]. rewrite requests_snoc, Hreq.
      apply elem_of_app. right. by apply elem_of_cons; left.
  - split; try apply G2. intros k0 c0 Hk0. eapply well_placed_other; [| |by apply (healthy_calls _ _ G2)].
    + intros v Hv Hu. left. by exists v.
    + intros x Hx. cbn [lines set_lines set_call]. rewrite responses_snoc. apply elem_of_app. by left.
Qed.

Lemma healthy_receive k b b' o :
  receive k b = Some b' -> healthy b o -> healthy o b -> healthy b' o /\ healthy o b'.
Proof.
  unfold receive. destruct (calls b !! k) as [c|] eqn:Hc; [|done]. cbn [mbind option_bind].
  destruct (at_ c) eqn:Hat, (inbox c) as [|x l] eqn:Hin; try done. intros [= <-] G1 G2.
  split; [|split; apply G2].
  apply (healthy_call b o k c (with_inbox l (with_stage (Returned x) c)) (lines b)); [exact Hc|done|done|apply G1| |done|exact G1].
  intros a [Ha|[= <-]]; left; rewrite Hin; apply elem_of_cons; [by right|by left].
Qed.

(** The reader of [b] takes the next line of [o]. *)
Lemma deliver_servings k a b : servings (deliver k a b) = servings b.
Proof. unfold deliver. by destruct (calls b !! k). Qed.

Lemma healthy_read_request line rest i role q b o :
  lines o = line :: rest -> request_in line = Some (i, role, q) -> response_in line = None ->
  healthy b o -> healthy o b ->
  let b' := mk (pending b) (calls b) (servings b ++ [Serving i role q Asking]) (reader b) (lines b) (open b) in
  healthy b' (set_lines rest o) /\ healthy (set_lines rest o) b'.
Proof.
  intros Hl Hq Ha G1 G2 b'. split.
  - split; try apply G1. intros k c Hc. eapply well_placed_other; [| |apply (healthy_calls _ _ G1 k c Hc)].
    + intros v Hv Hu. left. by exists v.
    + intros x Hx. cbn [lines set_lines]. rewrite Hl, responses_cons, Ha in Hx. exact Hx.
  - split; try apply G2.
    + intros l Hin. apply (healthy_lines _ _ G2). rewrite Hl. by apply elem_of_cons; right.
    + intros k c Hc. pose proof (healthy_calls _ _ G2 k c Hc) as Hp. unfold well_placed, under_way in *.
      cbn [pending lines set_lines servings b']. rewrite Hl, requests_cons, Hq in Hp. destruct (at_ c); try done.
      destruct Hp as [Hp|(Hp & Hcase)]; [by left|right]. split; [exact Hp|].
      destruct Hcase as [(role' & q' & [[= Hi <- <-]|Hin]%elem_of_cons)|[(v & Hv & Hrest)|Hr]].
      * right. left. exists (Serving i role' q' Asking). rewrite elem_of_app, list_elem_of_singleton.
        split; [by right|]. by split.
      * left. by exists role', q'.
      * right. left. exists v. rewrite elem_of_app. by split; [left|].
      * by right; right.
    + intros c a Hc Hh. eapply answered_mono; [|by eapply (healthy_answers _ _ G2)].
      intros v a0 Hv Hans. exists v. cbn [servings b']. rewrite elem_of_app. by split; [left|].
Qed.

(** A call under another id does not miss the line of an answer. *)
Lemma well_placed_skip line rest i a p' b o k c :
  lines o = line :: rest -> response_in line = Some (i, a) -> id c <> i -> (forall j, j <> i -> p' !! j = pending b !! j) ->
  well_placed b o k c -> well_placed (set_pending p' b) (set_lines rest o) k c.
Proof.
  intros Hl Ha Hn Hp'. unfold well_placed, under_way. cbn [pending lines servings set_pending set_lines].
  rewrite Hp' by done. rewrite Hl, responses_cons, Ha. destruct (at_ c); try done.
  intros [Hin|(Hp & [Hr|[Hv|(a' & [[= He _]|Hx]%elem_of_cons)]])]; [by left|right..|done|right]; split; try exact Hp; auto.
  right. right. by exists a'.
Qed.

Lemma not_registered b o i a k c :
  toward b o -> answered_by pass_response (servings o) i a -> calls b !! k = Some c -> id c = i -> at_ c <> Registered.
Proof.
  intros L (v & a0 & Hv & Hv' & _) Hc Hi.
  destruct (asked_from _ _ _ _ _ _ _ L (asked_by v)) as (k' & c' & Hc' & He & Hreg).
  { apply elem_of_app. left. by apply list_elem_of_fmap_2. }
  injection He as He _ _.
  assert (k' = k) as -> by (eapply same_id; [exact (ids_apart _ _ _ _ _ _ _ L)|exact Hc'|exact Hc|congruence]). congruence.
Qed.

Lemma healthy_delivered line rest i a k c b o :
  lines o = line :: rest -> response_in line = Some (i, a) -> answered_by pass_response (servings o) i a ->
  toward b o -> calls b !! k = Some c -> id c = i -> healthy b o ->
  healthy (deliver k a (set_pending (delete i (pending b)) b)) (set_lines rest o).
Proof.
  intros Hl Ha Hby L Hc Hi G. unfold deliver. cbn [calls set_pending]. rewrite Hc. split; try apply G.
  - intros k0 c0 Hk0. cbn [calls set_call] in Hk0. destruct (decide (k0 = k)) as [->|Hn].
    + rewrite list_lookup_insert_eq in Hk0 by (by eapply lookup_lt_Some). injection Hk0 as <-.
      pose proof (healthy_calls _ _ G k c Hc) as Hw. pose proof (not_registered _ _ _ _ _ _ L Hby Hc Hi) as Hreg.
      unfold well_placed in *. cbn [at_ inbox with_inbox]. destruct (at_ c); try done. left. by destruct (inbox c).
    + rewrite list_lookup_insert_ne in Hk0 by done.
      refine (well_placed_skip _ _ _ _ (delete i (pending b)) _ _ k0 c0 Hl Ha _ _ (healthy_calls _ _ G k0 c0 Hk0)).
      * intros He. apply Hn. eapply same_id; [exact (ids_apart _ _ _ _ _ _ _ L)|exact Hk0|exact Hc|congruence].
      * intros j Hj. by rewrite lookup_delete_ne.
  - intros c0 a0 [->|Hc0]%elem_of_insert_inv Hh; [|by eapply (healthy_answers _ _ G)].
    assert (Hold : forall a1, holds c a1 -> answered_by pass_response (servings o) (id c) a1).
    { intros a1. apply (healthy_answers _ _ G). by eapply list_elem_of_lookup_2. }
    destruct Hh as [Hin|Hr]; [|apply Hold; by right].
    simpl in Hin. apply elem_of_app in Hin as [Hin| ->%list_elem_of_singleton]; [apply Hold; by left|].
    simpl. by rewrite Hi.
Qed.

(** The end that wrote an answer does not need its line any more. *)
Lemma healthy_read_back line rest i a b b' o :
  lines o = line :: rest -> request_in line = None -> response_in line = Some (i, a) ->
  servings b' = servings b -> lines b' = lines b -> healthy o b -> healthy (set_lines rest o) b'.
Proof.
  intros Hl Hq Ha Hs Hls G. split; try apply G.
  - intros l Hin. apply (healthy_lines _ _ G). rewrite Hl. by apply elem_of_cons; right.
  - intros k c Hc. pose proof (healthy_calls _ _ G k c Hc) as Hp. unfold well_placed, under_way in *.
    cbn [pending lines set_lines]. rewrite Hs, Hls. by rewrite Hl, requests_cons, Hq in Hp.
  - intros c x Hc Hh. rewrite Hs. by eapply (healthy_answers _ _ G).
Qed.

Lemma healthy_deliver line rest i a b o :
  lines o = line :: rest -> request_in line = None -> response_in line = Some (i, a) ->
  toward b o -> healthy b o -> healthy o b ->
  let b' := match pending b !! i with Some k => deliver k a (set_pending (delete i (pending b)) b) | None => b end in
  healthy b' (set_lines rest o) /\ healthy (set_lines rest o) b'.
Proof.
  intros Hl Hq Ha L G1 G2. cbv zeta. destruct (pending b !! i) as [k|] eqn:Hp.
  - assert (Hby : answered_by pass_response (servings o) i a).
    { eapply answers_from; [exact L|]. rewrite Hl, responses_cons, Ha. apply elem_of_cons. by left. }
    destruct (waits_under _ _ _ _ _ _ _ L i k Hp) as (c & Hc & Hi). split; [by eapply healthy_delivered|].
    eapply healthy_read_back with (b := b); [exact Hl|exact Hq|exact Ha|apply (deliver_servings k a (set_pending _ b))| |exact G2].
    unfold deliver. cbn [calls set_pending]. by rewrite Hc.
  - split; [|by eapply healthy_read_back]. split; try apply G1. intros k c Hc.
    pose proof (healthy_calls _ _ G1 k c Hc) as Hw. destruct (decide (id c = i)) as [<-|Hn].
    + unfold well_placed, under_way in *. rewrite Hp in Hw |- *. destruct (at_ c); try done; try (by destruct Hw).
      destruct Hw as [Hw|[[=] _]]. by left.
    + rewrite <- (same_pending b). by eapply well_placed_skip.
Qed.

Lemma healthy_read line rest b o :
  lines o = line :: rest -> toward b o -> healthy b o -> healthy o b ->
  healthy (read_frame line b) (set_lines rest o) /\ healthy (set_lines rest o) (read_frame line b).
Proof.
  intros Hl L G1 G2.
  assert (Hm : message line) by (apply (healthy_lines _ _ G2); rewrite Hl; by apply elem_of_cons; left).
  unfold read_frame. unfold message, request_in, response_in in Hm.
  destruct (frame_of line) as [text|[| |i role q|i a]] eqn:Hf; try (by destruct Hm as [[? [=]]|[? [=]]]).
  - eapply healthy_read_request; [exact Hl| | |exact G1|exact G2]; unfold request_in, response_in; by rewrite Hf.
  - eapply healthy_deliver; [exact Hl| | |exact L|exact G1|exact G2]; unfold request_in, response_in; by rewrite Hf.
Qed.

(** *** The threads of requests *)

Lemma elem_of_insert_other {A} (l : list A) j x y z : l !! j = Some x -> z ∈ l -> z = x \/ z ∈ <[j := y]> l.
Proof.
  intros Hj (i & Hi)%list_elem_of_lookup. destruct (decide (i = j)) as [->|Hn]; [left; congruence|right].
  apply list_elem_of_lookup. exists i. by rewrite list_lookup_insert_ne.
Qed.

(** A thread of [b] moves on, and may write. *)
Lemma healthy_progress j v v' ls b o :
  servings b !! j = Some v -> asked_by v' = asked_by v -> (answer v = None \/ answer v' = answer v) ->
  requests_in ls = requests_in (lines b) -> (forall l, l ∈ ls -> message l) ->
  (forall x, x ∈ responses_in (lines b) -> x ∈ responses_in ls) ->
  (unreplied v' \/ exists a, (serving_id v, a) ∈ responses_in ls) ->
  healthy b o -> healthy o b ->
  let b' := set_serving j v' (set_lines ls b) in healthy b' o /\ healthy o b'.
Proof.
  intros Hv Hsame Hans Hreq Hls Hresp Hu G1 G2 b'. injection Hsame as Hi _ _.
  assert (Hin' : v' ∈ <[j := v']> (servings b)) by (apply list_elem_of_insert; by eapply lookup_lt_Some).
  split.
  - split; try apply G1; [exact Hls|]. intros k c Hc. pose proof (healthy_calls _ _ G1 k c Hc) as Hp.
    unfold well_placed, under_way in *. cbn [pending lines b' set_serving set_lines]. by rewrite Hreq.
  - split; try apply G2.
    + intros k c Hc. eapply well_placed_other; [|exact Hresp|by apply (healthy_calls _ _ G2)].
      intros v0 Hv0 Hu0. destruct (elem_of_insert_other _ _ _ v' _ Hv Hv0) as [->|Hin]; [|left; by exists v0].
      destruct Hu as [Hu|Ha]; [left; by exists v'|by right].
    + intros c a Hc Hh. eapply answered_mono; [|by eapply (healthy_answers _ _ G2)].
      intros v0 a0 Hv0 Ha0. destruct (elem_of_insert_other _ _ _ v' _ Hv Hv0) as [->|Hin]; [|by exists v0].
      exists v'. split; [exact Hin'|]. split; [exact Hi|]. destruct Hans as [Hn|He]; congruence.
Qed.

Lemma healthy_serve j result b b' o :
  serve j result b = Some b' -> healthy b o -> healthy o b -> healthy b' o /\ healthy o b'.
Proof.
  unfold serve. destruct (servings b !! j) as [v|] eqn:Hv; [|done]. cbn [mbind option_bind].
  destruct (serving_at v) eqn:Hat; try done. intros [= <-] G1 G2. rewrite <- (same_lines b).
  apply (healthy_progress j v); [exact Hv|done| |done|apply G1|done|by left|exact G1|exact G2].
  left. unfold answer. by rewrite Hat.
Qed.
Lemma healthy_reply j b b' o :
  reply j Through b = Some b' -> healthy b o -> healthy o b -> healthy b' o /\ healthy o b'.
Proof.
  unfold reply. destruct (servings b !! j) as [v|] eqn:Hv; [|done]. cbn [mbind option_bind].
  destruct (serving_at v) as [|a|] eqn:Hat; try done. cbn [write_frame mbind option_bind]. intros Hb G1 G2.
  unfold append in Hb. rewrite (healthy_open _ _ G1) in Hb. injection Hb as <-.
  destruct (response_line (serving_id v) a) as [Hreq Hresp].
  apply (healthy_progress j v); [exact Hv|done| | | | | |exact G1|exact G2].
  - right. unfold answer. by rewrite Hat.
  - by rewrite requests_snoc, Hreq, app_nil_r.
  - apply messages_snoc; [apply G1|apply response_message].
  - intros x Hx. rewrite responses_snoc. apply elem_of_app. by left.
  - right. exists (pass_response a). rewrite responses_snoc, Hresp. apply elem_of_app. right. by apply elem_of_cons; left.
Qed.

Lemma healthy_begin uuid role q b o :
  peer_request_id uuid ∉ id <$> calls b -> healthy b o -> healthy o b ->
  healthy (register uuid role q b) o /\ healthy o (register uuid role q b).
Proof. intros Hi G1 G2. split; [by apply healthy_register|split; apply G2]. Qed.

Lemma act_healthy a b o b' rest :
  act a b (lines o) = Some (b', rest) -> sound a = true -> (forall i, begins a = Some i -> i ∉ id <$> calls b) ->
  toward b o -> healthy b o -> healthy o b -> healthy b' (set_lines rest o) /\ healthy (set_lines rest o) b'.
Proof.
  intros Ha Hsound Hfresh L G1 G2.
  assert (Hstay : forall x : option PeerBridge.t, (fun b => (b, lines o)) <$> x = Some (b', rest) ->
    (forall b'', x = Some b'' -> healthy b'' o /\ healthy o b'') -> healthy b' (set_lines rest o) /\ healthy (set_lines rest o) b').
  { intros [b''|] [= <- <-] Hx. rewrite same_lines. by apply Hx. }
  destruct a; try discriminate Hsound; cbn in Ha; try (eapply Hstay; [exact Ha|]; intros b'' Hb).
  - injection Ha as <- <-. rewrite same_lines. apply healthy_begin; [by apply Hfresh|done|done].
  - destruct w; [|discriminate Hsound]. by eapply healthy_send.
  - by eapply healthy_receive.
  - destruct (reader b); try done. destruct (lines o) as [|line rest'] eqn:Hl; [done|].
    injection Ha as <- <-. by apply healthy_read.
  - by eapply healthy_serve.
  - destruct w; [|discriminate Hsound]. by eapply healthy_reply.
Qed.

(** *** A call comes to its end *)

(** A step that neither breaks anything nor begins another call. *)
Definition quietly (x x' : system) : Prop := exists l, sound l.2 = true /\ begins l.2 = None /\ step l x = Some x'.
Definition fine (x : system) : Prop :=
  (exists ls, invariant ls x) /\ forall s, healthy (end_of s x) (end_of (other s) x).

Lemma fine_step ls s a x x' :
  step (s, a) x = Some x' -> sound a = true -> invariant ls x -> (forall s', NoDup (drawn s' (ls ++ [(s, a)]))) ->
  (forall s, healthy (end_of s x) (end_of (other s) x)) -> forall s, healthy (end_of s x') (end_of (other s) x').
Proof.
  intros Hstep Hsound I Hnd G. destruct (step_inv _ _ _ _ Hstep) as (b' & rest & Ha & Hs & Ho).
  pose proof (G (other s)) as G2. rewrite other_other in G2.
  destruct (act_healthy _ _ _ _ _ Ha Hsound (begins_fresh _ _ _ _ I (Hnd s)) (ends_toward _ _ I s) (G s) G2) as [G1' G2'].
  intros t. destruct (either_side s t) as [->| ->]; [by rewrite Hs, Ho|by rewrite other_other, Hs, Ho].
Qed.

Lemma healthy_start : healthy start_bridge start_bridge.
Proof.
  split; try done.
  - intros line Hl. by apply not_elem_of_nil in Hl.
  - intros c a Hc. by apply not_elem_of_nil in Hc.
Qed.
Lemma run_fine ls x :
  run ls start = Some x -> Forall (fun l => sound l.2 = true) ls -> (forall s, NoDup (drawn s ls)) -> fine x.
Proof.
  revert x. induction ls as [|[s a] ls IH] using rev_ind; intros x Hrun Hsound Hnd.
  - injection Hrun as <-. split; [exists []; exact invariant_start|]. intros []; exact healthy_start.
  - split; [exists (ls ++ [(s, a)]); by apply run_invariant|].
    rewrite run_snoc in Hrun. destruct (run ls start) as [y|] eqn:Hy; [|done].
    apply Forall_app in Hsound as [Hls [Ha _]%Forall_cons].
    assert (Hnd' : forall s, NoDup (drawn s ls)) by (intros u; by eapply drawn_prefix).
    eapply fine_step; [exact Hrun|exact Ha|by apply run_invariant|exact Hnd|by apply IH].
Qed.

Lemma invariant_ids ls x s : invariant ls x -> NoDup (drawn s ls).
Proof. intros I. rewrite <- (ends_ids _ _ I). exact (ids_apart _ _ _ _ _ _ _ (ends_toward _ _ I s)). Qed.
Lemma fine_quietly x x' : quietly x x' -> fine x -> fine x'.
Proof.
  intros ([s a] & Hsound & Hb & Hstep) [[ls I] G]. simpl in *.
  assert (Hnd : forall t, NoDup (drawn t (ls ++ [(s, a)]))).
  { intros t. rewrite drawn_snoc, Hb. destruct (decide (s = t)); rewrite app_nil_r; by eapply invariant_ids. }
  split; [exists (ls ++ [(s, a)]); by eapply step_invariant|by eapply fine_step].
Qed.
Lemma fine_all_quietly x x' : rtc quietly x x' -> fine x -> fine x'.
Proof. induction 1 as [|x y z Hxy _ IH]; [done|]. intros Hx. by eapply IH, fine_quietly. Qed.

Lemma quiet_step s a x b' rest :
  sound a = true -> begins a = None -> act a (end_of s x) (lines (end_of (other s) x)) = Some (b', rest) ->
  exists x', quietly x x' /\ end_of s x' = b' /\ end_of (other s) x' = set_lines rest (end_of (other s) x).
Proof.
  intros Hsound Hb Ha. exists (both s b' (set_lines rest (end_of (other s) x))).
  rewrite ends_both_same, ends_both_other. split; [|done]. exists (s, a). split; [done|]. split; [done|].
  unfold step. by rewrite Ha.
Qed.

(** The callers of an end, but for what is in their inboxes. *)
Definition kept (b b' : PeerBridge.t) : Prop :=
  forall k c, calls b !! k = Some c -> exists c', calls b' !! k = Some c' /\ same_call c c' /\ at_ c' = at_ c.
Lemma kept_refl b : kept b b.
Proof. intros k c Hc. by exists c. Qed.
Lemma kept_trans b1 b2 b3 : kept b1 b2 -> kept b2 b3 -> kept b1 b3.
Proof.
  intros H1 H2 k c Hc. destruct (H1 k c Hc) as (c' & Hc' & (Hi & Hr & Hq) & Ha).
  destruct (H2 k c' Hc') as (c'' & Hc'' & (Hi' & Hr' & Hq') & Ha'). exists c''. unfold same_call. by rewrite Hi', Hr', Hq', Ha'.
Qed.
Lemma read_frame_kept line b : lines (read_frame line b) = lines b /\ kept b (read_frame line b).
Proof.
  unfold read_frame. destruct (frame_of line) as [text|[| |i role q|i a]]; try (split; [done|exact (kept_refl b)]).
  destruct (pending b !! i) as [k|]; [|split; [done|exact (kept_refl b)]].
  unfold deliver. cbn [calls set_pending]. destruct (calls b !! k) as [c|] eqn:Hc; [|split; [done|exact (kept_refl b)]].
  split; [done|]. intros k0 c0 Hc0. cbn [calls set_call]. eexists. split; [exact (lookup_insert_any _ _ _ _ _ _ Hc Hc0)|].
  destruct (decide (k0 = k)) as [->|]; [|done]. rewrite Hc in Hc0. by injection Hc0 as <-.
Qed.

(** The other end reads everything [s] has written. *)
Lemma read_all s x :
  fine x ->
  exists x', rtc quietly x x' /\ end_of s x' = set_lines [] (end_of s x) /\
    lines (end_of (other s) x') = lines (end_of (other s) x) /\ kept (end_of (other s) x) (end_of (other s) x').
Proof.
  remember (lines (end_of s x)) as ls eqn:Hls. revert x Hls.
  induction ls as [|line ls IH]; intros x Hls Hfine.
  - exists x. split; [reflexivity|]. split; [rewrite Hls; by destruct (end_of s x)|]. split; [done|apply kept_refl].
  - pose proof (healthy_reader _ _ (proj2 Hfine (other s))) as Hr.
    destruct (quiet_step (other s) Read x (read_frame line (end_of (other s) x)) ls) as (y & Hq & Hy1 & Hy2); [done|done| |].
    { rewrite other_other, <- Hls. simpl. by rewrite Hr. }
    rewrite other_other in Hy2. destruct (read_frame_kept line (end_of (other s) x)) as [Hl Hk].
    destruct (IH y) as (x' & Hrun & H1 & H2 & H3); [by rewrite Hy2|by eapply fine_quietly|].
    exists x'. split; [by eapply rtc_l|]. rewrite Hy1 in H2, H3. rewrite H1, H2, Hy2, Hl.
    split; [done|]. split; [done|by eapply kept_trans].
Qed.

Lemma fine_servings x s : fine x -> NoDup (serving_id <$> servings (end_of (other s) x)).
Proof. intros [[ls I] _]. eapply linked_servings, (ends_toward _ _ I s). Qed.

Lemma reply_answering s j v a x :
  fine x -> servings (end_of (other s) x) !! j = Some v -> serving_at v = Answering a ->
  exists x', quietly x x' /\ end_of s x' = end_of s x /\
    servings (end_of (other s) x') = <[j := with_progress (Replied a) v]> (servings (end_of (other s) x)).
Proof.
  intros Hfine Hv Hat. pose proof (healthy_open _ _ (proj2 Hfine (other s))) as Hopen.
  destruct (quiet_step (other s) (Reply j Through) x
    (set_serving j (with_progress (Replied a) v) (append (frame_text (PeerFrame.Response (serving_id v) a)) (end_of (other s) x)))
    (lines (end_of s x))) as (x' & Hq & H1 & H2); [done|done| |].
  { rewrite other_other. cbn [act]. unfold reply. rewrite Hv. cbn [mbind option_bind]. by rewrite Hat. }
  rewrite other_other, same_lines in H2. exists x'. rewrite H1. unfold append. rewrite Hopen. done.
Qed.
Lemma serve_asking s j v a x :
  servings (end_of (other s) x) !! j = Some v -> serving_at v = Asking ->
  exists x', quietly x x' /\ end_of s x' = end_of s x /\
    servings (end_of (other s) x') = <[j := with_progress (Answering a) v]> (servings (end_of (other s) x)).
Proof.
  intros Hv Hat.
  destruct (quiet_step (other s) (Serve j (inr a)) x (set_serving j (with_progress (Answering a) v) (end_of (other s) x))
    (lines (end_of s x))) as (x' & Hq & H1 & H2); [done|done| |].
  { rewrite other_other. cbn [act]. unfold serve. rewrite Hv. cbn [mbind option_bind]. by rewrite Hat. }
  rewrite other_other, same_lines in H2. exists x'. by rewrite H1.
Qed.

(** The thread of a request, when there is one, answers and writes its answer. *)
Definition all_replied (i : string) (svs : list serving) : Prop := forall v, v ∈ svs -> serving_id v = i -> ~ unreplied v.
Lemma all_replied_insert svs j v a :
  NoDup (serving_id <$> svs) -> svs !! j = Some v -> all_replied (serving_id v) (<[j := with_progress (Replied a) v]> svs).
Proof.
  intros Hnd Hv v0 (j0 & Hj0)%list_elem_of_lookup Hi Hu. destruct (decide (j0 = j)) as [->|Hn].
  - rewrite list_lookup_insert_eq in Hj0 by (by eapply lookup_lt_Some). injection Hj0 as <-. by apply (Hu a).
  - rewrite list_lookup_insert_ne in Hj0 by done. apply Hn.
    eapply NoDup_lookup; [exact Hnd| |]; rewrite list_lookup_fmap; [by rewrite Hj0|rewrite Hv; simpl; by rewrite Hi].
Qed.
Lemma answer_all (a : Response.t) s i x :
  fine x -> exists x', rtc quietly x x' /\ end_of s x' = end_of s x /\ all_replied i (servings (end_of (other s) x')).
Proof.
  intros Hfine. pose proof (fine_servings x s Hfine) as Hnd.
  destruct (decide (i ∈ serving_id <$> servings (end_of (other s) x))) as [(v & -> & Hv)%list_elem_of_fmap|Hno].
  - apply list_elem_of_lookup in Hv as [j Hv]. destruct (serving_at v) as [|a0|a0] eqn:Hat.
    + destruct (serve_asking s j v a x Hv Hat) as (y & Hy & Hs & Ho).
      assert (Hvy : servings (end_of (other s) y) !! j = Some (with_progress (Answering a) v)).
      { rewrite Ho. apply list_lookup_insert_eq. by eapply lookup_lt_Some. }
      destruct (reply_answering s j _ a y (fine_quietly _ _ Hy Hfine) Hvy eq_refl) as (x' & Hx' & Hs' & Ho').
      exists x'. split; [eapply rtc_l; [exact Hy|by apply rtc_once]|]. split; [by rewrite Hs'|].
      rewrite Ho', Ho, list_insert_insert_eq.
      change (with_progress (Replied a) (with_progress (Answering a) v)) with (with_progress (Replied a) v).
      by apply all_replied_insert.
    + destruct (reply_answering s j v a0 x Hfine Hv Hat) as (x' & Hx' & Hs' & Ho').
      exists x'. split; [by apply rtc_once|]. split; [done|]. rewrite Ho'. by apply all_replied_insert.
    + exists x. split; [reflexivity|]. split; [done|]. intros v0 (j0 & Hj0)%list_elem_of_lookup Hi Hu.
      assert (j0 = j) as ->.
      { eapply NoDup_lookup; [exact Hnd| |]; rewrite list_lookup_fmap; [by rewrite Hj0|rewrite Hv; simpl; by rewrite Hi]. }
      rewrite Hv in Hj0. injection Hj0 as <-. by apply (Hu a0).
  - exists x. split; [reflexivity|]. split; [done|]. intros v Hv Hi _. apply Hno. rewrite <- Hi. by apply list_elem_of_fmap_2.
Qed.

(** A call whose frame is written gets an answer. *)
Lemma waiting_completes s k c x :
  fine x -> calls (end_of s x) !! k = Some c -> at_ c = Waiting ->
  exists x' c' a, rtc quietly x x' /\ calls (end_of s x') !! k = Some c' /\ same_call c c' /\ at_ c' = Returned a.
Proof.
  intros Hfine Hc Hat.
  destruct (read_all s x Hfine) as (x1 & R1 & H1 & _ & _). pose proof (fine_all_quietly _ _ R1 Hfine) as F1.
  destruct (answer_all (Response.success "" VNull) s (id c) x1 F1) as (x2 & R2 & H2 & Hrep). pose proof (fine_all_quietly _ _ R2 F1) as F2.
  destruct (read_all (other s) x2 F2) as (x3 & R3 & H3 & Hl3 & Hk3). pose proof (fine_all_quietly _ _ R3 F2) as F3.
  rewrite other_other in Hl3, Hk3.
  destruct (Hk3 k c) as (c3 & Hc3 & Hsame & Hat3); [by rewrite H2, H1|].
  assert (Hin : inbox c3 <> []).
  { pose proof (healthy_calls _ _ (proj2 F3 s) k c3 Hc3) as Hw. unfold well_placed in Hw. rewrite Hat3, Hat in Hw.
    destruct Hw as [Hw|(_ & [(role & q & Hq)|[(v & Hv & Hi & Hu)|(a & Ha)]])]; [done| | |].
    - rewrite Hl3, H2, H1 in Hq. by apply not_elem_of_nil in Hq.
    - rewrite H3 in Hv. destruct Hsame as (Hi3 & _). destruct (Hrep v Hv); [by rewrite Hi|exact Hu].
    - rewrite H3 in Ha. by apply not_elem_of_nil in Ha. }
  destruct (inbox c3) as [|a rest] eqn:Hi3; [done|].
  destruct (quiet_step s (Receive k) x3 (set_call k (with_inbox rest (with_stage (Returned a) c3)) (end_of s x3))
    (lines (end_of (other s) x3))) as (x4 & Hq & H4 & _); [done|done| |].
  { cbn [act]. unfold receive. rewrite Hc3. cbn [mbind option_bind]. by rewrite Hat3, Hat, Hi3. }
  exists x4. eexists. exists a. split.
  - etrans; [exact R1|]. etrans; [exact R2|]. etrans; [exact R3|]. by apply rtc_once.
  - rewrite H4. split; [apply list_lookup_insert_eq; by eapply lookup_lt_Some|]. done.
Qed.

(** C17. Liveness: as long as the connection holds and callers are patient, a call that was begun can
    always come to its end.  From every state such a run reaches there are steps (the frame is written,
    what is on the wire is read, the thread answers, its answer is written, read and received) after
    which the caller has returned, with the answer the other node's role gave to its own request. *)
Theorem calls_complete ls x s k c :
  run ls start = Some x -> Forall (fun l => sound l.2 = true) ls -> (forall s, NoDup (drawn s ls)) ->
  calls (end_of s x) !! k = Some c ->
  exists x' a, rtc quietly x x' /\
    view s x' !! k = Some (PeerCalls.Call (target_role c) (request c)
                             [(target_role c, pass_request (request c), a)] (Some (pass_response a))).
Proof.
  intros Hrun Hsound Hnd Hc. pose proof (run_fine _ _ Hrun Hsound Hnd) as Hfine.
  assert (Hret : exists x' c' a, rtc quietly x x' /\ calls (end_of s x') !! k = Some c' /\ same_call c c' /\ at_ c' = Returned a).
  { pose proof (healthy_calls _ _ (proj2 Hfine s) k c Hc) as Hw. destruct (at_ c) as [| |e|a] eqn:Hat.
    - destruct (quiet_step s (Send k Through) x (set_call k (with_stage Waiting c)
        (append (frame_text (PeerFrame.Request (id c) (target_role c) (request c))) (end_of s x)))
        (lines (end_of (other s) x))) as (y & Hq & H1 & _); [done|done| |].
      { cbn [act]. unfold send. rewrite Hc. cbn [mbind option_bind]. by rewrite Hat. }
      assert (Hcy : calls (end_of s y) !! k = Some (with_stage Waiting c)).
      { rewrite H1. cbn [calls set_call]. unfold append. destruct (open _); apply list_lookup_insert_eq; by eapply lookup_lt_Some. }
      destruct (waiting_completes s k _ y (fine_quietly _ _ Hq Hfine) Hcy eq_refl) as (x' & c' & a & R & Hc' & Hsame & Ha).
      exists x', c', a. split; [by eapply rtc_l|done].
    - by apply waiting_completes.
    - unfold well_placed in Hw. by rewrite Hat in Hw.
    - exists x, c, a. split; [reflexivity|done]. }
  destruct Hret as (x' & c' & a & R & Hc' & (Hi & Hr & Hq) & Ha). exists x'.
  destruct (fine_all_quietly _ _ R Hfine) as [[ls' I] G].
  destruct (done_answered _ _ _ _ _ _ _ _ (ends_toward _ _ I s) Hc'
    (healthy_answers _ _ (G s) c' a (list_elem_of_lookup_2 _ _ _ Hc') (or_intror Ha))) as (a0 & Hd & ->).
  exists a0. split; [exact R|]. unfold view, view_of. rewrite (view_lookup _ _ _ _ Hc').
  unfold view_call. rewrite Hd, Hr, Hq. unfold returned. by rewrite Ha.
Qed.
End steps.

(** ** At a concrete connection

    A codec by hand: fields in an array, values as the bits of [Samples]. *)

Definition option_text (v : Value) : option (option string) :=
  match v with VNull => Some None | VString s => Some (Some s) | _ => None end.
Lemma option_text_value (o : option string) : option_text (vopt VString o) = Some o.
Proof. by destruct o. Qed.

Definition request_value (q : Request.t) : Value := VArray [
  VString (Request.api_version q); VString (Request.request_id q); vopt VString (Request.correlation_id q);
  vopt VString (Request.parent_request_id q); vopt VString (Request.run_id q); vopt VString (Request.span_id q);
  vopt VString (Request.parent_span_id q); vopt VString (Request.agent_session_id q); VString (Request.action q);
  Request.params q].
Definition value_request (v : Value) : option Request.t :=
  match v with
  | VArray [VString a; VString b; c; d; e; f; g; h; VString i; j] =>
      c ← option_text c; d ← option_text d; e ← option_text e; f ← option_text f; g ← option_text g; h ← option_text h;
      Some (Request.mk a b c d e f g h i j)
  | _ => None
  end.
Lemma value_request_value q : value_request (request_value q) = Some q.
Proof. unfold request_value, value_request. rewrite !option_text_value. by destruct q. Qed.

Definition error_value (e : RpcError.t) : Value :=
  VArray [VString (RpcError.code e); VString (RpcError.message e); VBool (RpcError.retryable e); RpcError.details e].
Definition value_error (v : Value) : option RpcError.t :=
  match v with VArray [VString c; VString m; VBool b; d] => Some (RpcError.mk c m b d) | _ => None end.
Definition listed {A} (f : A -> Value) (o : option A) : Value := VArray (f <$> option_list o).
Definition unlisted {A} (f : Value -> option A) (v : Value) : option (option A) :=
  match v with VArray [] => Some None | VArray [v] => Some <$> f v | _ => None end.
Definition response_value (a : Response.t) : Value := VArray [
  VBool (Response.ok a); VString (Response.api_version a); VString (Response.request_id a);
  listed Datatypes.id (Response.result a); listed error_value (Response.error a)].
Definition value_response (v : Value) : option Response.t :=
  match v with
  | VArray [VBool o; VString a; VString i; r; e] =>
      r ← unlisted Some r; e ← unlisted value_error e; Some (Response.mk o a i r e)
  | _ => None
  end.
Lemma value_response_value a : value_response (response_value a) = Some a.
Proof. by destruct a as [? ? ? [?|] [[]|]]. Qed.

Definition role_value (r : TargetRole.t) : Value := VBool (bool_decide (r = TargetRole.Controller)).
Definition value_role (v : Value) : option TargetRole.t :=
  match v with VBool b => Some (if b then TargetRole.Controller else TargetRole.Executor) | _ => None end.
Lemma value_role_value r : value_role (role_value r) = Some r.
Proof. by destruct r. Qed.
Definition frame_value (f : PeerFrame.t) : Value :=
  match f with
  | PeerFrame.Hello p n rs => VArray [VNull; VString p; VString n; VArray (role_value <$> rs)]
  | PeerFrame.HelloAck p n rs => VArray [VBool true; VString p; VString n; VArray (role_value <$> rs)]
  | PeerFrame.Request i r q => VArray [VString i; role_value r; request_value q]
  | PeerFrame.Response i a => VArray [VString i; response_value a]
  end.
Definition value_frame (v : Value) : option PeerFrame.t :=
  match v with
  | VArray [VNull; VString p; VString n; VArray rs] => PeerFrame.Hello p n <$> mapM value_role rs
  | VArray [VBool _; VString p; VString n; VArray rs] => PeerFrame.HelloAck p n <$> mapM value_role rs
  | VArray [VString i; r; q] => r ← value_role r; q ← value_request q; Some (PeerFrame.Request i r q)
  | VArray [VString i; a] => a ← value_response a; Some (PeerFrame.Response i a)
  | _ => None
  end.
Lemma value_frame_value f : value_frame (frame_value f) = Some f.
Proof.
  assert (Hroles : forall rs, mapM value_role (role_value <$> rs) = Some rs).
  { intros rs. apply mapM_Some. induction rs as [|r rs IH]; [constructor|]. constructor; [apply value_role_value|exact IH]. }
  destruct f as [p n rs|p n rs|i r q|i a]; cbn [frame_value value_frame].
  - by rewrite Hroles.
  - by rewrite Hroles.
  - rewrite value_role_value. cbn [mbind option_bind]. by rewrite value_request_value.
  - by rewrite value_response_value.
Qed.

Definition bit_wire : Wire := {|
  frame_text f := Samples.value_text (frame_value f);
  frame_of s := match Samples.text_value s ≫= value_frame with Some f => inr f | None => inl "expected value" end;
|}.
Lemma bit_wire_frames f : @frame_of bit_wire (@frame_text bit_wire f) = inr f.
Proof. cbn [frame_of frame_text bit_wire]. rewrite Samples.text_of_value. cbn [mbind option_bind]. by rewrite value_frame_value. Qed.
Lemma bit_wire_carries : carries bit_wire Datatypes.id Datatypes.id.
Proof. split; intros; apply bit_wire_frames. Qed.

Definition ping : Request.t := Request.new "1" "ping" VNull.
Definition pong : Response.t := Response.success "req_1" (VString "ready").
Definition asking : list (side * action) := [(Near, Begin "a" TargetRole.Controller ping); (Near, Send 0 Through)].
Definition talking : list (side * action) :=
  asking ++ [(Far, Read); (Far, Serve 0 (inr pong)); (Far, Reply 0 Through); (Near, Read); (Near, Receive 0)].
Definition after (ls : list (side * action)) : system := default start (@run bit_wire ls start).

Lemma bridges_refine_calls_witness :
  view Near (after talking) =
    [PeerCalls.Call TargetRole.Controller ping [(TargetRole.Controller, ping, pong)] (Some pong)] /\
  rtc (PeerCalls.step Datatypes.id Datatypes.id) [] (view Near (after talking)).
Proof.
  split; [vm_compute; reflexivity|].
  apply (bridges_refine_calls Datatypes.id Datatypes.id bit_wire_carries talking); [vm_compute; reflexivity|].
  intros []; apply (bool_decide_unpack _); vm_compute; exact I.
Defined.

Definition breaking : list (side * action) := [(Near, Take); (Near, Tell 0); (Near, Finish)].
Lemma disconnection_is_told_witness :
  (inbox <$> calls (near (after (asking ++ [(Near, Break)] ++ breaking)))) = [[DISCONNECTED]] /\
  forall c, calls (end_of Near (after (asking ++ [(Near, Break)] ++ breaking))) !! 0%nat = Some c -> inbox c <> [].
Proof.
  split; [vm_compute; reflexivity|]. intros c Hc.
  apply (disconnection_is_told Datatypes.id Datatypes.id bit_wire_carries (asking ++ [(Near, Break)]) breaking
           (after (asking ++ [(Near, Break)])) (after (asking ++ [(Near, Break)] ++ breaking)) Near 0 c);
    [vm_compute; reflexivity..| |vm_compute; lia|exact Hc|].
  - intros []; apply (bool_decide_unpack _); vm_compute; exact I.
  - revert Hc. vm_compute. by intros [= <-].
Defined.

Lemma calls_complete_witness :
  exists x' a, rtc (@quietly bit_wire) (after asking) x' /\
    view Near x' !! 0%nat = Some (PeerCalls.Call TargetRole.Controller ping [(TargetRole.Controller, ping, a)] (Some a)).
Proof.
  refine (calls_complete Datatypes.id Datatypes.id bit_wire_carries asking (after asking) Near 0
            (Call (peer_request_id "a") TargetRole.Controller ping [] Waiting) _ _ _ _); [vm_compute; reflexivity| | |].
  - by repeat constructor.
  - intros []; apply (bool_decide_unpack _); vm_compute; exact I.
  - vm_compute. reflexivity.
Defined.

(** A call that begins after the reader has told the others is told by nobody: when its frame can still
    be written, it is in [pending], nothing reads what the other end may answer, and it waits for its
    timeout (an hour for [call]). *)
Example a_late_call_waits :
  let b := near (after ([(Near, Break)] ++ [(Near, Take); (Near, Finish)] ++ asking)) in
  reader b = Done /\ pending b !! peer_request_id "a" = Some 0%nat /\
  calls b = [Call (peer_request_id "a") TargetRole.Controller ping [] Waiting].
Proof. vm_compute. done. Qed.

(** A frame whose [flush] failed arrives all the same: the role serves a request whose caller is told
    that it was not written. *)
Example a_failed_flush_still_asks :
  let frame := @frame_text bit_wire (PeerFrame.Request (peer_request_id "b") TargetRole.Executor ping) in
  let x := after [(Far, Begin "b" TargetRole.Executor ping); (Far, Send 0 (Broken "broken pipe" (Some frame)));
                  (Far, Withdraw 0); (Near, Read); (Near, Serve 0 (inr pong))] in
  view Far x = [PeerCalls.Call TargetRole.Executor ping [(TargetRole.Executor, ping, pong)]
                  (Some (Response.failure "peer" (WRITE_FAILED "broken pipe")))].
Proof. vm_compute. done. Qed.

(** A handshake frame after the handshake ends the connection. *)
Example a_second_hello_disconnects :
  reader (@read_frame bit_wire (@frame_text bit_wire (PeerFrame.Hello "workbench.peer/v1" "b" [])) start_bridge) = Ending.
Proof. vm_compute. done. Qed.
End Peers.
