(* ===== verification/Connections.v ===== *)
(** * Connections ([crates/workbench-runtime/src/peer.rs], [rpc.rs], [transport.rs])

    What surrounds a bridge: the handshake that opens a framed connection, the
    command the dialing node has its [ssh] run on the other, the loop that
    reconnects and the status file it keeps, the local RPC server, and the three
    ways a controller reaches an endpoint.  Processes and sockets are the
    environment's; their results are arguments. *)

From Stdlib Require Import Ascii String.
From S2P Require Import Prelude RustStd Json Protocol Schema Samples Peers.

(** ** The handshake *)

Module Handshake.
Definition PEER_PROTOCOL : string := "workbench.peer/v1".
Definition both_roles : list TargetRole.t := [TargetRole.Controller; TargetRole.Executor].
Definition has_required_roles (roles : list TargetRole.t) : bool :=
  existsb (fun r => bool_decide (r = TargetRole.Controller)) roles &&
  existsb (fun r => bool_decide (r = TargetRole.Executor)) roles.

Section handshake.
(** [debug] is the text [{:?}] gives a frame. *)
Context `{Wire} (debug : PeerFrame.t -> string).

(** The line [read_line] leaves: empty at the end of the stream. *)
Definition read_handshake_frame (line : string) : outcome string PeerFrame.t :=
  if Str.is_empty line then Err "peer closed before handshake"
  else match frame_of line with inl _ => Err "decode peer handshake" | inr frame => Ok frame end.

Definition hello (local_id : string) : PeerFrame.t := PeerFrame.Hello PEER_PROTOCOL local_id both_roles.
Definition hello_ack (local_id : string) : PeerFrame.t := PeerFrame.HelloAck PEER_PROTOCOL local_id both_roles.
Definition accepted (protocol node_id : string) (roles : list TargetRole.t) (expected_peer_id : string) : bool :=
  bool_decide (protocol = PEER_PROTOCOL) && bool_decide (node_id = expected_peer_id) && has_required_roles roles.

(** After [hello local_id] is written. *)
Definition initiate_handshake (line expected_peer_id : string) : outcome string unit :=
  frame ← read_handshake_frame line;
  let refused := Err ("invalid peer handshake acknowledgement: " +:+ debug frame) in
  match frame with
  | PeerFrame.HelloAck p n rs => if accepted p n rs expected_peer_id then Ok tt else refused
  | _ => refused
  end.
(** The frame it writes. *)
Definition accept_handshake (line expected_peer_id local_id : string) : outcome string PeerFrame.t :=
  frame ← read_handshake_frame line;
  let refused := Err ("invalid peer handshake: " +:+ debug frame) in
  match frame with
  | PeerFrame.Hello p n rs => if accepted p n rs expected_peer_id then Ok (hello_ack local_id) else refused
  | _ => refused
  end.

(** The two ends of one connection: an acceptor that refuses writes nothing. *)
Definition acceptor (dialer_id expected_peer_id local_id : string) : outcome string PeerFrame.t :=
  accept_handshake (frame_text (hello dialer_id)) expected_peer_id local_id.
Definition dialer (answer : outcome string PeerFrame.t) (expected_peer_id : string) : outcome string unit :=
  initiate_handshake (match answer with Ok ack => frame_text ack | _ => "" end) expected_peer_id.
End handshake.
End Handshake.

(** ** Configurations *)

Module PeerConnectConfig.
Record t := mk {
  local_id : string;
  peer_id : string;
  host : string;
  local_controller_socket : string;
  local_executor_socket : string;
  expose_controller_socket : string;
  expose_executor_socket : string;
  remote_executable : string;
  remote_state_root : string;
  remote_windows : bool;
  state_path : string;
}.
End PeerConnectConfig.

Module PeerStatus.
Record t := mk {
  peer_id : string;
  host : string;
  connection_id : string;
  generation : Z;
  state : string;
  updated_at : Z;
  error : option string;
}.
End PeerStatus.

Module Connections.

Definition id_byte (c : ascii) : bool :=
  Str.is_alphanumeric c || bool_decide (c ∈ ["."; "_"; "-"]%char).
Definition validate_id (name value : string) : outcome string unit :=
  if Str.is_empty value || negb (Str.all id_byte value) then Err ("invalid " +:+ name +:+ ": " +:+ value) else Ok tt.
Fixpoint validate_absolute_paths (paths : list string) : outcome string unit :=
  match paths with
  | [] => Ok tt
  | p :: paths' =>
      if FsPath.is_absolute p then validate_absolute_paths paths' else Err ("peer path must be absolute: " +:+ p)
  end.
Definition validate_remote_root (path : string) : outcome string unit :=
  if Str.is_empty path || Str.contains (String "010" "") path || Str.contains (String "013" "") path || Str.contains "'" path
  then Err ("invalid remote state root: " +:+ path) else Ok tt.
Definition validate_config (c : PeerConnectConfig.t) : outcome string unit :=
  _ ← validate_id "local id" (PeerConnectConfig.local_id c);
  _ ← validate_id "peer id" (PeerConnectConfig.peer_id c);
  _ ← validate_id "host" (PeerConnectConfig.host c);
  _ ← validate_absolute_paths
        [PeerConnectConfig.local_controller_socket c; PeerConnectConfig.local_executor_socket c;
         PeerConnectConfig.expose_controller_socket c; PeerConnectConfig.expose_executor_socket c;
         PeerConnectConfig.state_path c];
  _ ← validate_remote_root (PeerConnectConfig.remote_state_root c);
  validate_remote_root (PeerConnectConfig.remote_executable c).

(** The identity the local controller reports is the configured one. *)
Definition check_identity (reported : option Value) (configured : string) : outcome string unit :=
  match (r ← reported; c ← vget r "controller"; i ← vget c "id"; as_str i) with
  | None => Err "local Controller did not report its node identity"
  | Some actual =>
      if bool_decide (actual = configured) then Ok tt
      else Err ("local Controller identity is " +:+ actual +:+ ", configured peer identity is " +:+ configured)
  end.

(** ** What [ssh] is asked to run *)

Definition shell_single_quote (value : string) : string := Str.replace "'" "'\''" value.
Definition powershell_single_quote (value : string) : string := Str.replace "'" "''" value.

(** The seven values of the command: the program, then the arguments of
    [peer accept]. *)
Definition separator (windows : bool) : string := if windows then "\" else "/".
Definition remote_values (c : PeerConnectConfig.t) : list string :=
  let root := PeerConnectConfig.remote_state_root c in
  let sep := separator (PeerConnectConfig.remote_windows c) in
  let fabric role := root +:+ sep +:+ "fabric" +:+ sep +:+ PeerConnectConfig.local_id c +:+ "-" +:+ role +:+ ".sock" in
  [PeerConnectConfig.remote_executable c; PeerConnectConfig.local_id c; PeerConnectConfig.peer_id c;
   root +:+ sep +:+ "controller.sock"; root +:+ sep +:+ "executor.sock"; fabric "controller"; fabric "executor"].
Definition accept_options : list string :=
  ["--id"; "--local-id"; "--local-controller-socket"; "--local-executor-socket"; "--expose-controller-socket";
   "--expose-executor-socket"].

Fixpoint format_options (quote : string -> string) (options values : list string) : string :=
  match options, values with
  | o :: options', v :: values' => " " +:+ o +:+ " '" +:+ quote v +:+ "'" +:+ format_options quote options' values'
  | _, _ => ""
  end.
Definition format_command (quote : string -> string) (values : list string) : string :=
  match values with
  | [] => ""
  | program :: values => "'" +:+ quote program +:+ "' peer accept" +:+ format_options quote accept_options values
  end.
Definition double_quote : string := String "034" "".
Definition remote_command (c : PeerConnectConfig.t) : string :=
  if PeerConnectConfig.remote_windows c then
    "powershell.exe -NoProfile -NonInteractive -Command " +:+ double_quote +:+ "& " +:+
      format_command powershell_single_quote (remote_values c) +:+ double_quote
  else format_command shell_single_quote (remote_values c).
Definition ssh_args (c : PeerConnectConfig.t) : list string :=
  ["-T"; "-o"; "BatchMode=yes"; "-o"; "ClearAllForwardings=yes"; "-o";
   "HostKeyAlgorithms=rsa-sha2-512,rsa-sha2-256,ecdsa-sha2-nistp256,ssh-ed25519"; "-o"; "ServerAliveInterval=5"; "-o";
   "ServerAliveCountMax=2"; "-o"; "TCPKeepAlive=yes"; "-o"; "ConnectTimeout=10"; PeerConnectConfig.host c; remote_command c].

(** ** The reconnect loop *)

Definition PEER_BACKOFF_INITIAL : Z := 1000.
Definition PEER_BACKOFF_MAX : Z := 60000.
Definition PEER_STABLE_CONNECTION : Z := 30000.
Definition next_peer_backoff (current connected_for : Z) : Z :=
  if connected_for >=? PEER_STABLE_CONNECTION then PEER_BACKOFF_INITIAL else Z.min (current * 2) PEER_BACKOFF_MAX.

(** What an attempt comes to: everything up to the readiness of both remote
    roles ([remove_socket], [ssh], the handshake, [probe_peer_roles]), how the
    reader ends, and how long it all took. *)
Module Attempt.
Record t := mk {
  connected : outcome string unit;
  closed : outcome string unit;
  lasted : Z;
}.
End Attempt.

(** The status file, every status written to it, and the sleeps so far. *)
Module Loop.
Record t := mk {
  status : option PeerStatus.t;
  written : list PeerStatus.t;
  slept : list Z;
}.
End Loop.
Abbreviation loop := (M Loop.t string).

Section connecting.
Context (config : PeerConnectConfig.t) (connection_id : string).

(** The text of an I/O error. *)
Definition io_failed : string := "io error".

(** [fs::write] of the temporary file, and [atomic_replace]. *)
Definition write_status (generation : Z) (state : string) (error : option string) : loop unit :=
  n ← now;
  wrote ← write_ok;
  _ ← guard wrote io_failed;
  replaced ← write_ok;
  _ ← guard replaced io_failed;
  let s := {| PeerStatus.peer_id := PeerConnectConfig.peer_id config; PeerStatus.host := PeerConnectConfig.host config;
              PeerStatus.connection_id := connection_id; PeerStatus.generation := generation; PeerStatus.state := state;
              PeerStatus.updated_at := n; PeerStatus.error := error |} in
  modify (fun l => Loop.mk (Some s) (Loop.written l ++ [s]) (Loop.slept l)).

Definition connect_once (generation : Z) (a : Attempt.t) : loop unit :=
  _ ← lift (Attempt.connected a);
  _ ← write_status generation "ready" None;
  lift (Attempt.closed a).

(** [match m { Ok(()) => .., Err(error) => .. }] *)
Definition result_of (m : loop unit) : loop (option string) := fun l w =>
  match m l w with
  | (Ok _, l', w') => (Ok None, l', w')
  | (Err e, l', w') => (Ok (Some e), l', w')
  | (Panic, l', w') => (Panic, l', w')
  end.

Fixpoint connect_loop (backoff generation : Z) (attempts : list Attempt.t) : loop unit :=
  match attempts with
  | [] => mret tt
  | a :: attempts' =>
      _ ← write_status generation "connecting" None;
      error ← result_of (connect_once generation a);
      _ ← write_status generation "reconnecting" (Some (default "peer transport closed" error));
      let backoff := next_peer_backoff backoff (Attempt.lasted a) in
      _ ← modify (fun l => Loop.mk (Loop.status l) (Loop.written l) (Loop.slept l ++ [backoff]));
      connect_loop backoff (u64_saturating_add generation 1) attempts'
  end.

(** [reported] is what the local controller answers to [ping] ([call_unix]), [leased] what
    [acquire_peer_lease] comes to. *)
Definition connect_peer (reported : outcome string (option Value)) (leased : outcome string unit)
    (attempts : list Attempt.t) : loop unit :=
  _ ← lift (validate_config config);
  result ← lift reported;
  _ ← lift (check_identity result (PeerConnectConfig.local_id config));
  made ← write_ok;
  _ ← guard made io_failed;
  _ ← lift leased;
  l ← get;
  let generation := match Loop.status l with
                    | Some s => u64_saturating_add (PeerStatus.generation s) 1
                    | None => 1
                    end in
  connect_loop PEER_BACKOFF_INITIAL generation attempts.
End connecting.

(** ** Local RPC *)

Section rpc.
Context (request_text : Request.t -> string) (request_of : string -> string + Request.t).
Context (response_text : Response.t -> string) (response_of : string -> string + Response.t).

(** [handle_stream]: the line it writes. *)
Definition handle_stream (handler : Request.t -> Response.t) (line : string) : string :=
  response_text
    (match request_of line with
     | inr request => handler request
     | inl error => Response.failure "unknown" (RpcError.new "INVALID_REQUEST" ("invalid JSON request: " +:+ error))
     end).
(** [call_unix], [served] being what the connection gives back for a line. *)
Definition call_unix (served : string -> outcome string string) (request : Request.t) : outcome string Response.t :=
  line ← served (request_text request);
  if Str.is_empty line then Err "server closed connection without a response"
  else match response_of line with inl error => Err error | inr response => Ok response end.

(** ** Endpoints *)

(** A finished child: whether its status is a success, its two streams. *)
Record child := Child { success : bool; stdout : string; stderr : string }.
Context (local : string -> string -> outcome string string).
Context (params_text : Value -> string).
Context (spawn : string -> list string -> option string -> string -> outcome string child).

Definition remote_call (socket action params : string) : string :=
  ".local/bin/workbench --socket '" +:+ shell_single_quote socket +:+ "' call '" +:+ shell_single_quote action +:+ "' '" +:+
    shell_single_quote params +:+ "'".
Definition ssh_call_args (host socket : string) (control_path : option string) (request : Request.t) : list string :=
  ["-o"; "ClearAllForwardings=yes"; "-o"; "BatchMode=yes"] ++
  (match control_path with Some p => ["-S"; p] | None => [] end) ++
  [host; remote_call socket (Request.action request) (params_text (Request.params request))].

Definition decode (context text : string) : outcome string Response.t :=
  match response_of text with inl _ => Err context | inr response => Ok response end.
Definition call_executor (endpoint : ExecutorEndpoint.t) (request : Request.t) : outcome string Response.t :=
  match endpoint with
  | ExecutorEndpoint.Local socket => call_unix (local socket) request
  | ExecutorEndpoint.Ssh host socket control_path =>
      output ← map_err (fun _ => "invoke executor through ssh host " +:+ host)
                 (spawn "ssh" (ssh_call_args host socket control_path request) None "");
      if success output then decode "decode ssh executor response" (stdout output)
      else Err ("ssh executor failed: " +:+ Str.trim (stderr output))
  | ExecutorEndpoint.Command executable args cwd =>
      output ← map_err (fun _ => "start command provider " +:+ executable)
                 (spawn executable args cwd (request_text request));
      if negb (success output) && Str.is_empty (stdout output)
      then Err ("command provider failed: " +:+ Str.trim (stderr output))
      else decode "decode command provider response" (stdout output)
  end.

(** [call_executor_with_timeout]: [in_time] is whether the thread sent its
    result before the deadline. *)
Definition call_executor_with_timeout (endpoint : ExecutorEndpoint.t) (request : Request.t) (timeout : Z) (in_time : bool)
    : outcome string Response.t :=
  if in_time then call_executor endpoint request
  else Err ("executor response exceeded " +:+ pretty timeout +:+ "ms deadline").
End rpc.

(** ** The handshake agrees *)

Section agreement.
Context `{W : Wire} (debug : PeerFrame.t -> string).
Context (Hcarries : forall f, frame_of (frame_text f) = inr f) (Hlines : forall f, frame_text f <> "").

Lemma read_own_frame f : Handshake.read_handshake_frame (frame_text f) = Ok f.
Proof.
  unfold Handshake.read_handshake_frame, Str.is_empty. rewrite bool_decide_eq_false_2 by apply Hlines. by rewrite Hcarries.
Qed.

Lemma acceptor_ok dialer_id expected local_id :
  Handshake.acceptor debug dialer_id expected local_id = Ok (Handshake.hello_ack local_id) <-> dialer_id = expected.
Proof.
  unfold Handshake.acceptor, Handshake.accept_handshake. rewrite read_own_frame. cbn [mbind outcome_bind Handshake.hello].
  unfold Handshake.accepted. rewrite bool_decide_eq_true_2 by done. rewrite andb_true_l, andb_true_r.
  destruct (bool_decide (dialer_id = expected)) eqn:He.
  - split; [|done]. intros _. by apply bool_decide_eq_true_1 in He.
  - apply bool_decide_eq_false_1 in He. by split.
Qed.
Lemma acceptor_err dialer_id expected local_id ack :
  Handshake.acceptor debug dialer_id expected local_id = Ok ack -> dialer_id = expected /\ ack = Handshake.hello_ack local_id.
Proof.
  intros Ha. assert (He : ack = Handshake.hello_ack local_id).
  { unfold Handshake.acceptor, Handshake.accept_handshake in Ha. rewrite read_own_frame in Ha.
    cbn [mbind outcome_bind Handshake.hello] in Ha. destruct (Handshake.accepted _ _ _ _); [by injection Ha as <-|done]. }
  split; [|exact He]. rewrite He in Ha. by apply acceptor_ok in Ha.
Qed.

(** Agreement: a connection is opened exactly when each end is the node the other expects.  The
    accepting end takes the dialer for the node it expects when it is that node; the dialing end then
    succeeds when, besides, it has reached the node it meant to, and never when the accepting end
    refused. *)
Theorem handshake_agrees dialer_id dialer_expects acceptor_id acceptor_expects :
  let answer := Handshake.acceptor debug dialer_id acceptor_expects acceptor_id in
  (is_ok answer = true <-> dialer_id = acceptor_expects) /\
  (Handshake.dialer debug answer dialer_expects = Ok tt <-> dialer_id = acceptor_expects /\ acceptor_id = dialer_expects).
Proof.
  intros answer. split.
  - subst answer. split; intros Hok.
    + destruct (Handshake.acceptor _ _ _ _) as [ack| |] eqn:Ha; try done. by apply acceptor_err in Ha as [? _].
    + apply (acceptor_ok _ _ acceptor_id) in Hok. by rewrite Hok.
  - subst answer. unfold Handshake.dialer. destruct (Handshake.acceptor _ _ _ _) as [ack| |] eqn:Ha.
    + apply acceptor_err in Ha as [-> ->]. unfold Handshake.initiate_handshake. rewrite read_own_frame.
      cbn [mbind outcome_bind Handshake.hello_ack]. unfold Handshake.accepted. rewrite bool_decide_eq_true_2 by done.
      rewrite andb_true_l, andb_true_r. destruct (bool_decide (acceptor_id = dialer_expects)) eqn:He.
      * apply bool_decide_eq_true_1 in He. by split.
      * apply bool_decide_eq_false_1 in He. split; [done|]. by intros [_ ?].
    + split; [done|]. intros [Hd _]. apply (acceptor_ok _ _ acceptor_id) in Hd. congruence.
    + split; [done|]. intros [Hd _]. apply (acceptor_ok _ _ acceptor_id) in Hd. congruence.
Qed.
End agreement.

(** ** The remote command line

    What a POSIX shell is relied on for: a line of words set apart by single
    blanks, each made of text in single quotes, characters after a backslash and
    ordinary characters, is those words.  The first word is one that no alias or
    reserved word can be. *)

Module Sh.
Inductive piece :=
  | Quoted (v : string)
  | Escaped (c : ascii)
  | Plain (s : string).
Definition piece_text (p : piece) : string :=
  match p with Quoted v => "'" +:+ v +:+ "'" | Escaped c => "\" +:+ String c "" | Plain s => s end.
Definition piece_value (p : piece) : string :=
  match p with Quoted v => v | Escaped c => String c "" | Plain s => s end.
Definition ordinary (c : ascii) : bool := Str.is_alphanumeric c || bool_decide (c ∈ ["."; "_"; "-"; "/"]%char).
Definition piece_ok (p : piece) : Prop :=
  match p with
  | Quoted v => Str.count_char "'" v = O /\ Str.count_char "000" v = O
  | Escaped c => c <> "010"%char /\ c <> "000"%char
  | Plain s => Str.all ordinary s = true
  end.

Definition word := list piece.
Definition concat (l : list string) : string := foldr String.append "" l.
Definition text (w : word) : string := concat (piece_text <$> w).
Definition value (w : word) : string := concat (piece_value <$> w).
Definition word_ok (w : word) : Prop := w <> [] /\ Forall piece_ok w /\ text w <> "".
Definition command_ok (w : word) : bool :=
  existsb (fun p => match p with Quoted _ => true | Escaped _ => false | Plain s => Str.contains "/" s end) w.
Fixpoint line (ws : list word) : string :=
  match ws with
  | [] => ""
  | [w] => text w
  | w :: ws' => text w +:+ " " +:+ line ws'
  end.

Definition posix (words : string -> option (list string)) : Prop :=
  forall w ws, command_ok w = true -> Forall word_ok (w :: ws) -> words (line (w :: ws)) = Some (value <$> w :: ws).

(** A value between single quotes, each quote in it taken out and escaped. *)
Fixpoint between_quotes (pieces : list string) : word :=
  match pieces with
  | [] => []
  | [v] => [Quoted v]
  | v :: pieces' => Quoted v :: Escaped "'" :: between_quotes pieces'
  end.
Definition quoted (v : string) : word := between_quotes (Str.split "'" v).

(** A shell that does just that. *)
Inductive mode := InWord | InQuotes | Escaping.
Definition onto (c : ascii) (o : option (string * list string)) : option (string * list string) :=
  '(w, ws) ← o; Some (String c w, ws).
Fixpoint read (m : mode) (s : string) : option (string * list string) :=
  match m, s with
  | InWord, EmptyString => Some ("", [])
  | InWord, String c s' =>
      if decide (c = " "%char) then '(w, ws) ← read InWord s'; Some ("", w :: ws)
      else if decide (c = "'"%char) then read InQuotes s'
      else if decide (c = "\"%char) then read Escaping s'
      else if ordinary c then onto c (read InWord s') else None
  | InQuotes, String c s' => if decide (c = "'"%char) then read InWord s' else onto c (read InQuotes s')
  | Escaping, String c s' => onto c (read InWord s')
  | _, EmptyString => None
  end.
Definition words (s : string) : option (list string) := '(w, ws) ← read InWord s; Some (w :: ws).
End Sh.

Module Quoting.
Import Sh.

Lemma replace_quote r s :
  Str.replace "'" r s = match s with
                        | EmptyString => ""
                        | String c s' => if decide (c = "'"%char) then r +:+ Str.replace "'" r s' else String c (Str.replace "'" r s')
                        end.
Proof.
  destruct s as [|c s]; [done|]. unfold Str.replace. cbn [Str.replace_from Str.starts_with String.length Nat.sub].
  destruct (decide ("'"%char = c)) as [<-|Hn]; [by rewrite decide_True|]. by rewrite decide_False.
Qed.

Lemma split_not_nil c s : Str.split c s <> [].
Proof. destruct s as [|a s]; [done|]. simpl. destruct (decide (a = c)); [done|]. by destruct (Str.split c s). Qed.

Lemma after_quote a b : "'" +:+ a = "'" +:+ b -> a = b.
Proof. by intros [=]. Qed.

(** What stands between the quotes the code writes is the text of the pieces. *)
Lemma quoted_text v : text (quoted v) = "'" +:+ shell_single_quote v +:+ "'".
Proof.
  unfold quoted, shell_single_quote. induction v as [|c v IH]; [done|].
  rewrite replace_quote. cbn [Str.split]. destruct (decide (c = "'"%char)) as [->|Hn].
  - destruct (Str.split "'" v) as [|p ps] eqn:Hs; [by apply split_not_nil in Hs|].
    change (text (Quoted "" :: Escaped "'" :: between_quotes (p :: ps)) = "''\" +:+ ("'" +:+ ("'" +:+ Str.replace "'" "'\''" v +:+ "'"))).
    rewrite <- IH. done.
  - destruct (Str.split "'" v) as [|p [|p' ps]] eqn:Hs; [by apply split_not_nil in Hs| |].
    + assert (Hp : text [Quoted p] = "'" +:+ (p +:+ "'")) by exact (Str.app_nil_r _).
      assert (Hc : text [Quoted (String c p)] = "'" +:+ String c (p +:+ "'")) by exact (Str.app_nil_r _).
      cbn [between_quotes] in IH |- *. rewrite Hp in IH. rewrite Hc. apply after_quote in IH. by rewrite IH.
    + assert (Hp : text (Quoted p :: Escaped "'" :: between_quotes (p' :: ps)) =
        "'" +:+ ((p +:+ "'") +:+ ("\'" +:+ text (between_quotes (p' :: ps))))) by done.
      assert (Hc : text (Quoted (String c p) :: Escaped "'" :: between_quotes (p' :: ps)) =
        "'" +:+ String c ((p +:+ "'") +:+ ("\'" +:+ text (between_quotes (p' :: ps))))) by done.
      change (between_quotes (p :: p' :: ps)) with (Quoted p :: Escaped "'" :: between_quotes (p' :: ps)) in IH.
      change (between_quotes (String c p :: p' :: ps)) with (Quoted (String c p) :: Escaped "'" :: between_quotes (p' :: ps)).
      rewrite Hp in IH. rewrite Hc. apply after_quote in IH. by rewrite IH.
Qed.

Lemma quoted_value v : value (quoted v) = v.
Proof.
  unfold quoted. induction v as [|c v IH]; [done|]. cbn [Str.split]. destruct (decide (c = "'"%char)) as [->|Hn].
  - destruct (Str.split "'" v) as [|p ps] eqn:Hs; [by apply split_not_nil in Hs|].
    change (String "'" (value (between_quotes (p :: ps))) = String "'" v). by rewrite IH.
  - destruct (Str.split "'" v) as [|p [|p' ps]] eqn:Hs; [by apply split_not_nil in Hs| |].
    + change (String c (value (between_quotes [p])) = String c v). by rewrite IH.
    + change (String c (value (between_quotes (p :: p' :: ps))) = String c v). by rewrite IH.
Qed.

Lemma split_quotes v : Str.count_char "000" v = O -> Forall (fun p => Str.count_char "'" p = O /\ Str.count_char "000" p = O) (Str.split "'" v).
Proof.
  induction v as [|c v IH]; intros Hz; [by repeat constructor|].
  assert (Hcons : forall a s x, Str.count_char a (String x s) = if decide (x = a) then S (Str.count_char a s) else Str.count_char a s) by done.
  rewrite Hcons in Hz. destruct (decide (c = "000"%char)) as [|Hn0]; [done|]. cbn [Str.split].
  destruct (decide (c = "'"%char)) as [->|Hn]; [constructor; [done|by apply IH]|].
  specialize (IH Hz). destruct (Str.split "'" v) as [|p ps]; [by repeat constructor; rewrite Hcons, decide_False|].
  apply Forall_cons in IH as [[Hq Hp] Hps]. constructor; [|exact Hps]. by rewrite !Hcons, !decide_False.
Qed.
Lemma quoted_ok v : Str.count_char "000" v = O -> word_ok (quoted v).
Proof.
  intros Hz. split; [|split].
  - unfold quoted. destruct (Str.split "'" v) as [|p [|p' ps]] eqn:Hs; [by apply split_not_nil in Hs|done|done].
  - unfold quoted. pose proof (split_quotes v Hz) as Hps. pose proof (split_not_nil "'" v) as Hne.
    induction Hps as [|p ps Hp Hps IH]; [done|]. destruct ps as [|p' ps]; [constructor; [exact Hp|constructor]|].
    change (Forall piece_ok (Quoted p :: Escaped "'" :: between_quotes (p' :: ps))). constructor; [exact Hp|]. constructor; [by split|]. by apply IH.
  - rewrite quoted_text. done.
Qed.
Lemma quoted_command v : command_ok (quoted v) = true.
Proof. unfold quoted. destruct (Str.split "'" v) as [|p [|p' ps]] eqn:Hs; [by apply split_not_nil in Hs|done|done]. Qed.

(** *** The shell above is one *)

Lemma read_ordinary c s : ordinary c = true -> read InWord (String c s) = onto c (read InWord s).
Proof.
  intros Hc. change (read InWord (String c s)) with
    (if decide (c = " "%char) then '(w, ws) ← read InWord s; Some ("", w :: ws)
     else if decide (c = "'"%char) then read InQuotes s
     else if decide (c = "\"%char) then read Escaping s
     else if ordinary c then onto c (read InWord s) else None).
  rewrite Hc. repeat (rewrite decide_False by by intros ->). done.
Qed.
Lemma read_word w s o :
  Forall piece_ok w -> read InWord s = Some o -> read InWord (text w +:+ s) = Some (value w +:+ o.1, o.2).
Proof.
  intros Hw Ho. induction Hw as [|p w Hp Hw IH].
  { change (read InWord s = Some (o.1, o.2)). rewrite Ho. by destruct o. }
  assert (Htext : text (p :: w) +:+ s = piece_text p +:+ (text w +:+ s)) by apply Str.app_assoc.
  assert (Hval : value (p :: w) +:+ o.1 = piece_value p +:+ (value w +:+ o.1)) by apply Str.app_assoc.
  rewrite Htext, Hval. clear Htext Hval. revert IH. generalize (text w +:+ s) as t, (value w +:+ o.1) as u. intros t u IH.
  destruct p as [v|c|v]; cbn [piece_text piece_value].
  - destruct Hp as [Hq _]. change (read InQuotes ((v +:+ "'") +:+ t) = Some (v +:+ u, o.2)).
    induction v as [|c v IHv]; [exact IH|]. revert Hq. simpl. destruct (decide (c = "'"%char)); [done|]. intros Hq.
    rewrite IHv by exact Hq. done.
  - change (onto c (read InWord t) = Some (String c u, o.2)). by rewrite IH.
  - simpl in Hp. induction v as [|c v IHv]; [exact IH|]. simpl in Hp. apply andb_true_iff in Hp as [Hc Hv].
    change (String c v +:+ t) with (String c (v +:+ t)). rewrite read_ordinary by exact Hc. by rewrite (IHv Hv).
Qed.

Lemma words_posix : posix words.
Proof.
  intros w ws _ Hws. unfold words.
  assert (Hread : read InWord (line (w :: ws)) = Some (value w, value <$> ws)).
  { revert w Hws. induction ws as [|w' ws IH]; intros w [(_ & Hw & _) Hws]%Forall_cons.
    - cbn [line]. rewrite <- (Str.app_nil_r (text w)). rewrite (read_word _ _ ("", [])) by done.
      cbn [fst snd]. by rewrite Str.app_nil_r.
    - change (line (w :: w' :: ws)) with (text w +:+ (" " +:+ line (w' :: ws))).
      rewrite (read_word _ _ ("", value <$> w' :: ws) Hw); [cbn [fst snd]; by rewrite Str.app_nil_r|].
      change (('(w0, ws0) ← read InWord (line (w' :: ws)); Some ("", w0 :: ws0)) = Some ("", value <$> w' :: ws)).
      by rewrite (IH w' Hws). }
  by rewrite Hread.
Qed.

(** *** The commands *)

Definition plain (s : string) : word := [Plain s].
Lemma plain_text s : text (plain s) = s.
Proof. unfold text. simpl. apply Str.app_nil_r. Qed.
Lemma plain_value s : value (plain s) = s.
Proof. unfold value. simpl. apply Str.app_nil_r. Qed.
Lemma plain_ok s : Str.all ordinary s = true -> s <> "" -> word_ok (plain s).
Proof. intros Hs Hne. split; [done|]. split; [by repeat constructor|by rewrite plain_text]. Qed.

Fixpoint interleave (options values : list string) : list word :=
  match options, values with
  | o :: options', v :: values' => plain o :: quoted v :: interleave options' values'
  | _, _ => []
  end.
Fixpoint interleaved (options values : list string) : list string :=
  match options, values with
  | o :: options', v :: values' => o :: v :: interleaved options' values'
  | _, _ => []
  end.
Lemma line_cons w w' ws : line (w :: w' :: ws) = text w +:+ " " +:+ line (w' :: ws).
Proof. done. Qed.
Lemma line_options w options values :
  line (w :: interleave options values) = text w +:+ format_options shell_single_quote options values.
Proof.
  revert w values. induction options as [|o options IH]; intros w [|v values]; simpl interleave; simpl format_options;
    try (symmetry; apply Str.app_nil_r).
  rewrite line_cons, line_cons, IH, plain_text, quoted_text. by rewrite !Str.app_assoc.
Qed.
Lemma values_options options values : value <$> interleave options values = interleaved options values.
Proof.
  revert values. induction options as [|o options IH]; intros [|v values]; [done..|]. simpl.
  by rewrite IH, plain_value, quoted_value.
Qed.
Lemma options_ok options values :
  Forall (fun o => Str.all ordinary o = true /\ o <> "") options -> Forall (fun v => Str.count_char "000" v = O) values ->
  Forall word_ok (interleave options values).
Proof.
  intros Ho. revert values. induction Ho as [|o options [Hall Hne] Ho IH]; intros values Hv; [by destruct values|].
  destruct Hv as [|v values Hv Hvs]; [constructor|]. simpl. constructor; [by apply plain_ok|].
  constructor; [by apply quoted_ok|by apply IH].
Qed.

(** Round trip: what [ssh] has the other node's shell run is read by it as the values the code put
    there, one word each, whatever characters they hold: the program and its arguments for a peer, and
    for an executor behind [ssh] the socket, the action and the text of the parameters. *)
Theorem remote_commands_read_back (words : string -> option (list string)) c socket action params :
  posix words -> PeerConnectConfig.remote_windows c = false ->
  Forall (fun v => Str.count_char "000" v = O) (remote_values c) ->
  Forall (fun v => Str.count_char "000" v = O) [socket; action; params] ->
  (exists program values, remote_values c = program :: values /\
     words (remote_command c) = Some (program :: "peer" :: "accept" :: interleaved accept_options values)) /\
  words (remote_call socket action params) = Some [".local/bin/workbench"; "--socket"; socket; "call"; action; params].
Proof.
  intros Hwords Hw Hv Hr. split.
  - unfold remote_command. rewrite Hw. destruct (remote_values c) as [|program values] eqn:He; [done|].
    exists program, values. split; [done|]. apply Forall_cons in Hv as [Hp Hv].
    assert (Hline : format_command shell_single_quote (program :: values) =
      line (quoted program :: plain "peer" :: plain "accept" :: interleave accept_options values)).
    { rewrite line_cons, line_cons, line_options, !plain_text, quoted_text. unfold format_command. by rewrite !Str.app_assoc. }
    rewrite Hline, Hwords; [|apply quoted_command|].
    + rewrite !fmap_cons, values_options, quoted_value. by rewrite !plain_value.
    + repeat (constructor; [first [by apply quoted_ok|by apply plain_ok]|]). apply options_ok; [|exact Hv].
      by repeat constructor.
  - assert (Hline : remote_call socket action params =
      line [plain ".local/bin/workbench"; plain "--socket"; quoted socket; plain "call"; quoted action; quoted params]).
    { rewrite !line_cons. cbn [line]. rewrite !plain_text, !quoted_text. unfold remote_call. by rewrite !Str.app_assoc. }
    rewrite Hline, Hwords; [|done|].
    + rewrite !fmap_cons, !quoted_value, !plain_value. done.
    + apply Forall_cons in Hr as [Hs [Ha [Hp _]%Forall_cons]%Forall_cons].
      repeat (constructor; [first [by apply quoted_ok|by apply plain_ok]|]). constructor.
Qed.
End Quoting.

(** ** Reconnecting *)

Section reconnecting.
Context (config : PeerConnectConfig.t) (connection_id : string).

(** The sleeps after attempts that lasted so long. *)
Fixpoint backoffs (current : Z) (lasted : list Z) : list Z :=
  match lasted with
  | [] => []
  | t :: lasted' => next_peer_backoff current t :: backoffs (next_peer_backoff current t) lasted'
  end.

Definition paced (s : Z) : Prop := PEER_BACKOFF_INITIAL <= s <= PEER_BACKOFF_MAX.
Lemma next_paced current t : paced current -> paced (next_peer_backoff current t).
Proof.
  unfold paced, next_peer_backoff, PEER_BACKOFF_INITIAL, PEER_BACKOFF_MAX, PEER_STABLE_CONNECTION.
  destruct (t >=? 30000); lia.
Qed.
Lemma backoffs_paced current lasted : paced current -> Forall paced (backoffs current lasted).
Proof.
  revert current. induction lasted as [|t lasted IH]; intros current Hc; [constructor|].
  constructor; [by apply next_paced|]. by apply IH, next_paced.
Qed.
(** [n] connections in a row that break early double the pause [n] times, up to the most. *)
Lemma backoffs_double current lasted i :
  0 <= current -> Forall (fun t => t < PEER_STABLE_CONNECTION) lasted -> (i < length lasted)%nat ->
  backoffs current lasted !! i = Some (Z.min (current * 2 ^ Z.of_nat (S i)) PEER_BACKOFF_MAX).
Proof.
  intros Hc Hl. revert current i Hc. induction Hl as [|t lasted Ht Hl IH]; intros current i Hc Hi; [simpl in Hi; lia|].
  assert (Hn : next_peer_backoff current t = Z.min (current * 2) PEER_BACKOFF_MAX).
  { unfold next_peer_backoff. destruct (t >=? PEER_STABLE_CONNECTION) eqn:He; lia. }
  simpl. rewrite Hn. destruct i as [|i]; [reflexivity|]. simpl in Hi.
  change ((Z.min (current * 2) PEER_BACKOFF_MAX :: backoffs (Z.min (current * 2) PEER_BACKOFF_MAX) lasted) !! S i)
    with (backoffs (Z.min (current * 2) PEER_BACKOFF_MAX) lasted !! i).
  rewrite IH; [|unfold PEER_BACKOFF_MAX; lia|lia]. f_equal.
  pose proof (Z.pow_pos_nonneg 2 (Z.of_nat (S i)) ltac:(lia) ltac:(lia)) as Hpos.
  rewrite (Nat2Z.inj_succ (S i)), Z.pow_succ_r by lia. unfold PEER_BACKOFF_MAX. nia.
Qed.
Lemma backoffs_reset current lasted i t :
  lasted !! i = Some t -> PEER_STABLE_CONNECTION <= t -> backoffs current lasted !! i = Some PEER_BACKOFF_INITIAL.
Proof.
  revert current i. induction lasted as [|t0 lasted IH]; intros current [|i] Ht Hs; [done..| |by apply IH].
  injection Ht as ->. simpl. unfold next_peer_backoff. destruct (t >=? PEER_STABLE_CONNECTION) eqn:He; [done|lia].
Qed.

(** What a run adds: statuses of [gen] or a later generation, in order, and sleeps. *)
Definition adds (gen : Z) (l l' : Loop.t) (sleeps : list Z) : Prop :=
  exists ws, Loop.written l' = Loop.written l ++ ws /\ Loop.slept l' = Loop.slept l ++ sleeps /\
    Forall (fun s => gen <= PeerStatus.generation s) ws /\ Sorted Z.le (PeerStatus.generation <$> ws).
Lemma adds_refl gen l : adds gen l l [].
Proof. exists []. rewrite !app_nil_r. by repeat split; constructor. Qed.

Lemma Sorted_app (xs ys : list Z) g :
  Sorted Z.le xs -> Sorted Z.le ys -> Forall (fun x => x <= g) xs -> Forall (fun y => g <= y) ys -> Sorted Z.le (xs ++ ys).
Proof.
  intros Hx Hy Hxs Hys. induction Hx as [|x xs Hx IH Hhd]; [exact Hy|]. apply Forall_cons in Hxs as [Hxg Hxs].
  simpl. constructor; [by apply IH|]. destruct xs as [|x' xs]; [|by constructor; inversion Hhd].
  simpl. destruct Hys; constructor; lia.
Qed.

(** Everything of one generation, then what follows it. *)
Lemma adds_trans gen gen' l1 l2 l3 s1 s2 :
  adds gen l1 l2 s1 -> (forall ws, Loop.written l2 = Loop.written l1 ++ ws -> Forall (fun s => PeerStatus.generation s <= gen') ws) ->
  gen <= gen' -> adds gen' l2 l3 s2 -> adds gen l1 l3 (s1 ++ s2).
Proof.
  intros (ws1 & Hw1 & Hs1 & Hg1 & Ho1) Hmax Hle (ws2 & Hw2 & Hs2 & Hg2 & Ho2). exists (ws1 ++ ws2).
  rewrite Hw2, Hw1, Hs2, Hs1, !app_assoc. split; [done|]. split; [done|]. split.
  - apply Forall_app. split; [exact Hg1|]. eapply Forall_impl; [exact Hg2|]. simpl. lia.
  - rewrite fmap_app. eapply Sorted_app with (g := gen'); [exact Ho1|exact Ho2| |].
    + apply Forall_fmap. eapply Forall_impl; [by apply Hmax|]. done.
    + apply Forall_fmap. exact Hg2.
Qed.

(** One status of generation [gen], or nothing at all. *)
Definition one (gen : Z) (l l' : Loop.t) : Prop :=
  l' = l \/ exists s, l' = Loop.mk (Some s) (Loop.written l ++ [s]) (Loop.slept l) /\ PeerStatus.generation s = gen.
Definition same_generation (gen : Z) (l l' : Loop.t) : Prop :=
  Loop.slept l' = Loop.slept l /\
  exists ws, Loop.written l' = Loop.written l ++ ws /\ Forall (fun s => PeerStatus.generation s = gen) ws.
Lemma one_same gen l l' : one gen l l' -> same_generation gen l l'.
Proof.
  intros [->|(s & -> & Hs)]; (split; [done|]); [exists []; rewrite app_nil_r|exists [s]]; split; by repeat constructor.
Qed.
Lemma same_trans gen l1 l2 l3 : same_generation gen l1 l2 -> same_generation gen l2 l3 -> same_generation gen l1 l3.
Proof.
  intros (Hs1 & ws1 & Hw1 & Hg1) (Hs2 & ws2 & Hw2 & Hg2). split; [congruence|]. exists (ws1 ++ ws2).
  rewrite Hw2, Hw1, app_assoc. split; [done|]. by apply Forall_app.
Qed.
Lemma same_adds gen l l' : same_generation gen l l' -> adds gen l l' [].
Proof.
  intros (Hs & ws & Hw & Hg). exists ws. rewrite app_nil_r. split; [exact Hw|]. split; [exact Hs|]. split.
  - eapply Forall_impl; [exact Hg|]. simpl. lia.
  - clear Hw. induction Hg as [|s ws Hs' Hg IH]; [constructor|]. simpl. constructor; [exact IH|].
    destruct Hg; constructor; lia.
Qed.

Lemma write_status_one gen state error l w : one gen l (write_status config connection_id gen state error l w).1.2.
Proof.
  unfold write_status, mbind, M_bind, now, write_ok, guard. simpl.
  destruct (io_ok w (io_at w)); [|by left]. simpl. destruct (io_ok w (S (io_at w))); [|by left]. right. eexists. split; [reflexivity|done].
Qed.
Lemma connect_once_one gen a l w : one gen l (connect_once config connection_id gen a l w).1.2.
Proof.
  unfold connect_once. unfold mbind at 1, M_bind at 1, lift at 1. destruct (Attempt.connected a) as [[]|e|]; [|by left..].
  unfold mbind, M_bind. pose proof (write_status_one gen "ready" None l w) as Hone.
  destruct (write_status _ _ _ _ _ l w) as [[[[]|e|] l'] w']; exact Hone.
Qed.
Lemma result_of_state m l w : (result_of m l w).1.2 = (m l w).1.2.
Proof. unfold result_of. by destruct (m l w) as [[[[]|e|] l'] w']. Qed.

Lemma loop_adds backoff gen attempts l w :
  0 <= gen <= u64_max ->
  exists sleeps, sleeps `prefix_of` backoffs backoff (Attempt.lasted <$> attempts) /\
    adds gen l (connect_loop config connection_id backoff gen attempts l w).1.2 sleeps.
Proof.
  revert backoff gen l w. induction attempts as [|a attempts IH]; intros backoff gen l w Hgen.
  { exists []. split; [done|apply adds_refl]. }
  cbn [connect_loop]. unfold mbind at 1, M_bind at 1. pose proof (write_status_one gen "connecting" None l w) as H1.
  destruct (write_status _ _ gen "connecting" None l w) as [[[[]|e|] l1] w1]; cbn [fst snd] in H1;
    try (exists []; split; [apply prefix_nil|by apply same_adds, one_same]).
  unfold mbind at 1, M_bind at 1.
  pose proof (connect_once_one gen a l1 w1) as H2. rewrite <- result_of_state in H2.
  destruct (result_of _ l1 w1) as [[[error|e|] l2] w2]; cbn [fst snd] in H2;
    try (exists []; split; [apply prefix_nil|apply same_adds; eapply same_trans; by apply one_same]).
  unfold mbind at 1, M_bind at 1. pose proof (write_status_one gen "reconnecting" (Some (default "peer transport closed" error)) l2 w2) as H3.
  destruct (write_status _ _ gen "reconnecting" _ l2 w2) as [[[[]|e|] l3] w3]; cbn [fst snd] in H3.
  2, 3: exists []; split; [apply prefix_nil|]; apply same_adds; eapply same_trans; [|by apply one_same]; eapply same_trans; by apply one_same.
  assert (Hsame : same_generation gen l l3) by (eapply same_trans; [|by apply one_same]; eapply same_trans; by apply one_same).
  cbv zeta. unfold mbind at 1, M_bind at 1, modify at 1. cbn [fst snd].
  set (b := next_peer_backoff backoff (Attempt.lasted a)).
  set (l4 := Loop.mk (Loop.status l3) (Loop.written l3) (Loop.slept l3 ++ [b])).
  destruct (IH b (u64_saturating_add gen 1) l4 w3) as (sleeps & Hpre & Hadds).
  { unfold u64_saturating_add, u64_max in *. lia. }
  exists (b :: sleeps). split; [by apply prefix_cons|].
  destruct Hsame as (Hs & ws & Hw & Hg).
  apply (adds_trans gen (u64_saturating_add gen 1) l l4 _ [b] sleeps); [| | |exact Hadds].
  - destruct (same_adds gen l l3) as (ws' & Hw' & _ & Hrest); [by split; [|exists ws]|].
    exists ws'. subst l4. cbn [Loop.written Loop.slept]. by rewrite Hs.
  - intros ws' Hw'. subst l4. cbn [Loop.written] in Hw'. rewrite Hw in Hw'. apply app_inv_head in Hw' as <-.
    eapply Forall_impl; [exact Hg|]. simpl. intros s ->. unfold u64_saturating_add, u64_max in *. lia.
  - unfold u64_saturating_add, u64_max in *. lia.
Qed.

Definition last_generation (l : Loop.t) : Z :=
  match Loop.status l with Some s => PeerStatus.generation s | None => 0 end.

Lemma lift_run {A B} (o : outcome string A) (k : A -> loop B) l w :
  (lift o ≫= k) l w = match o with Ok a => k a l w | Err e => (Err e, l, w) | Panic => (Panic, l, w) end.
Proof. by destruct o. Qed.

(** The run refuses to start, or it is the loop. *)
Lemma connect_peer_runs reported leased attempts l w :
  (connect_peer config connection_id reported leased attempts l w).1.2 = l \/
  exists w', (connect_peer config connection_id reported leased attempts l w).1.2 =
    (connect_loop config connection_id PEER_BACKOFF_INITIAL
       (match Loop.status l with Some s => u64_saturating_add (PeerStatus.generation s) 1 | None => 1 end) attempts l w').1.2.
Proof.
  unfold connect_peer. rewrite lift_run. destruct (validate_config config) as [[]|e|]; [|by left..].
  rewrite lift_run. destruct reported as [result|e|]; [|by left..].
  rewrite lift_run. destruct (check_identity _ _) as [[]|e|]; [|by left..].
  rewrite (bind_run_Ok write_ok _ l w _ l (io_tick w)) by done. rewrite guard_run.
  destruct (io_ok w (io_at w)); [|by left].
  rewrite lift_run. destruct leased as [[]|e|]; [|by left..].
  right. exists (io_tick w). by rewrite (bind_run_Ok get _ l (io_tick w) l l (io_tick w)).
Qed.

(** Bounds: however connections fare and whichever writes of the status file fail, the pauses of the
    reconnect loop are those of its schedule: never under a second nor over a minute, doubled by every
    connection that breaks early, a second again after one that held; and the generations it records
    start after the one it found in the status file and never go back. *)
Theorem reconnects_are_paced reported leased attempts l w :
  0 <= last_generation l -> last_generation l < u64_max ->
  let l' := (connect_peer config connection_id reported leased attempts l w).1.2 in
  exists sleeps ws,
    Loop.slept l' = Loop.slept l ++ sleeps /\ Loop.written l' = Loop.written l ++ ws /\
    sleeps `prefix_of` backoffs PEER_BACKOFF_INITIAL (Attempt.lasted <$> attempts) /\
    Forall (fun s => 1000 <= s <= 60000) sleeps /\
    Forall (fun s => last_generation l < PeerStatus.generation s) ws /\ Sorted Z.le (PeerStatus.generation <$> ws) /\
    (forall i, Forall (fun a => Attempt.lasted a < PEER_STABLE_CONNECTION) attempts -> (i < length sleeps)%nat ->
       sleeps !! i = Some (Z.min (1000 * 2 ^ Z.of_nat (S i)) 60000)) /\
    (forall i a, attempts !! i = Some a -> PEER_STABLE_CONNECTION <= Attempt.lasted a -> (i < length sleeps)%nat ->
       sleeps !! i = Some 1000).
Proof.
  intros H0 Hmax l'. subst l'. destruct (connect_peer_runs reported leased attempts l w) as [->|(w' & ->)].
  { exists [], []. rewrite !app_nil_r. do 3 (split; [done || apply prefix_nil|]).
    do 3 (split; [constructor|]). split; intros; simpl in *; lia. }
  set (gen := match Loop.status l with Some _ => _ | None => _ end).
  assert (Hgen : gen = last_generation l + 1).
  { subst gen. revert H0 Hmax. unfold last_generation. destruct (Loop.status l); [|done].
    unfold u64_saturating_add, u64_max. lia. }
  destruct (loop_adds PEER_BACKOFF_INITIAL gen attempts l w') as (sleeps & Hpre & ws & Hw & Hs & Hg & Ho); [lia|].
  exists sleeps, ws. split; [exact Hs|]. split; [exact Hw|]. split; [exact Hpre|]. split; [|split; [|split; [exact Ho|]]].
  - destruct Hpre as [rest Hrest].
    pose proof (backoffs_paced PEER_BACKOFF_INITIAL (Attempt.lasted <$> attempts) ltac:(by unfold paced)) as Hall.
    rewrite Hrest in Hall. by apply Forall_app in Hall as [Hall _].
  - eapply Forall_impl; [exact Hg|]. simpl. lia.
  - assert (Hlook : forall i x, (i < length sleeps)%nat ->
      backoffs PEER_BACKOFF_INITIAL (Attempt.lasted <$> attempts) !! i = Some x -> sleeps !! i = Some x).
    { intros i x Hi Hx. destruct Hpre as [rest Hrest]. rewrite Hrest in Hx. by rewrite lookup_app_l in Hx. }
    assert (Hlen : forall b ts, length (backoffs b ts) = length ts).
    { intros b ts. revert b. induction ts as [|t ts IHt]; intros b; simpl; [done|]. by rewrite IHt. }
    split.
    + intros i Hshort Hi. apply Hlook; [exact Hi|]. apply backoffs_double; [done|by apply Forall_fmap|].
      apply prefix_length in Hpre. rewrite Hlen in Hpre. lia.
    + intros i a Ha Hlong Hi. apply Hlook; [exact Hi|]. eapply backoffs_reset; [|exact Hlong]. by rewrite list_lookup_fmap, Ha.
Qed.
End reconnecting.

(** ** At concrete connections *)

Lemma bit_wire_lines f : @frame_text Peers.bit_wire f <> "".
Proof. cbn [frame_text Peers.bit_wire]. unfold Samples.value_text. by destruct (encode _). Qed.

Lemma handshake_agrees_witness :
  let answer := @Handshake.acceptor Peers.bit_wire (fun _ => "frame") "laptop" "laptop" "devbox" in
  (is_ok answer = true <-> "laptop" = "laptop") /\
  (@Handshake.dialer Peers.bit_wire (fun _ => "frame") answer "devbox" = Ok tt <-> "laptop" = "laptop" /\ "devbox" = "devbox").
Proof. apply (@handshake_agrees Peers.bit_wire (fun _ => "frame") Peers.bit_wire_frames bit_wire_lines). Defined.

Definition laptop : PeerConnectConfig.t := {|
  PeerConnectConfig.local_id := "laptop"; PeerConnectConfig.peer_id := "devbox"; PeerConnectConfig.host := "devbox";
  PeerConnectConfig.local_controller_socket := "/s/controller.sock"; PeerConnectConfig.local_executor_socket := "/s/executor.sock";
  PeerConnectConfig.expose_controller_socket := "/s/fabric/devbox-controller.sock";
  PeerConnectConfig.expose_executor_socket := "/s/fabric/devbox-executor.sock";
  PeerConnectConfig.remote_executable := ".local/bin/workbench"; PeerConnectConfig.remote_state_root := "/home/o'neil/state";
  PeerConnectConfig.remote_windows := false; PeerConnectConfig.state_path := "/s/peer.json" |}.

Example laptop_command :
  Sh.words (remote_command laptop) = Some
    [".local/bin/workbench"; "peer"; "accept"; "--id"; "laptop"; "--local-id"; "devbox";
     "--local-controller-socket"; "/home/o'neil/state/controller.sock";
     "--local-executor-socket"; "/home/o'neil/state/executor.sock";
     "--expose-controller-socket"; "/home/o'neil/state/fabric/laptop-controller.sock";
     "--expose-executor-socket"; "/home/o'neil/state/fabric/laptop-executor.sock"].
Proof. vm_compute. reflexivity. Qed.
(** Quotes are kept out of a root all the same. *)
Example laptop_is_refused : validate_config laptop = Err "invalid remote state root: /home/o'neil/state".
Proof. vm_compute. reflexivity. Qed.

Lemma remote_commands_read_back_witness :
  (exists program values, remote_values laptop = program :: values /\
     Sh.words (remote_command laptop) = Some (program :: "peer" :: "accept" :: Quoting.interleaved accept_options values)) /\
  Sh.words (remote_call "/s/x.sock" "command.run" "{'a b'}") =
    Some [".local/bin/workbench"; "--socket"; "/s/x.sock"; "call"; "command.run"; "{'a b'}"].
Proof.
  apply (Quoting.remote_commands_read_back Sh.words laptop "/s/x.sock" "command.run" "{'a b'}");
    [exact Quoting.words_posix|done|by repeat constructor|by repeat constructor].
Defined.

Definition sound_laptop : PeerConnectConfig.t := {|
  PeerConnectConfig.local_id := "laptop"; PeerConnectConfig.peer_id := "devbox"; PeerConnectConfig.host := "devbox";
  PeerConnectConfig.local_controller_socket := "/s/controller.sock"; PeerConnectConfig.local_executor_socket := "/s/executor.sock";
  PeerConnectConfig.expose_controller_socket := "/s/fabric/devbox-controller.sock";
  PeerConnectConfig.expose_executor_socket := "/s/fabric/devbox-executor.sock";
  PeerConnectConfig.remote_executable := ".local/bin/workbench"; PeerConnectConfig.remote_state_root := "/home/dev/state";
  PeerConnectConfig.remote_windows := false; PeerConnectConfig.state_path := "/s/peer.json" |}.
Definition pinged : option Value := Some (json_object [("controller", json_object [("id", VString "laptop")])]).
Definition flaky : list Attempt.t :=
  [Attempt.mk (Err "no route") (Ok tt) 10; Attempt.mk (Ok tt) (Err "peer closed the framed connection") 500;
   Attempt.mk (Ok tt) (Err "peer closed the framed connection") 40000; Attempt.mk (Err "no route") (Ok tt) 10].
Definition calm : world := World (fun n => Z.of_nat n) (fun n => "u") (fun _ => true) 0 0 0.
Definition fresh_loop : Loop.t := Loop.mk None [] [].
Example flaky_run :
  let l := (connect_peer sound_laptop "connection_1" (Ok pinged) (Ok tt) flaky fresh_loop calm).1.2 in
  Loop.slept l = [2000; 4000; 1000; 2000] /\
  ((fun s => (PeerStatus.generation s, PeerStatus.state s)) <$> Loop.written l) =
    [(1, "connecting"); (1, "reconnecting"); (2, "connecting"); (2, "ready"); (2, "reconnecting");
     (3, "connecting"); (3, "ready"); (3, "reconnecting"); (4, "connecting"); (4, "reconnecting")].
Proof. vm_compute. done. Qed.

Lemma reconnects_are_paced_witness :
  let l' := (connect_peer sound_laptop "connection_1" (Ok pinged) (Ok tt) flaky fresh_loop calm).1.2 in
  exists sleeps ws,
    Loop.slept l' = [] ++ sleeps /\ Loop.written l' = [] ++ ws /\
    sleeps `prefix_of` backoffs PEER_BACKOFF_INITIAL (Attempt.lasted <$> flaky) /\
    Forall (fun s => 1000 <= s <= 60000) sleeps /\
    Forall (fun s => 0 < PeerStatus.generation s) ws /\ Sorted Z.le (PeerStatus.generation <$> ws) /\
    (forall i, Forall (fun a => Attempt.lasted a < PEER_STABLE_CONNECTION) flaky -> (i < length sleeps)%nat ->
       sleeps !! i = Some (Z.min (1000 * 2 ^ Z.of_nat (S i)) 60000)) /\
    (forall i a, flaky !! i = Some a -> PEER_STABLE_CONNECTION <= Attempt.lasted a -> (i < length sleeps)%nat ->
       sleeps !! i = Some 1000).
Proof.
  apply (reconnects_are_paced sound_laptop "connection_1" (Ok pinged) (Ok tt) flaky fresh_loop calm); unfold last_generation, fresh_loop, u64_max; simpl; lia.
Defined.

(** An executor behind [ssh] gets the action and the parameters of a request and nothing else of it: the
    ids that tie it to its run and its parent stay behind. *)
Example ssh_drops_the_trace q1 q2 host socket control text :
  Request.action q1 = Request.action q2 -> Request.params q1 = Request.params q2 ->
  ssh_call_args text host socket control q1 = ssh_call_args text host socket control q2.
Proof. intros Ha Hp. unfold ssh_call_args. by rewrite Ha, Hp. Qed.
End Connections.
