(* ===== verification/Fabric.v ===== *)
(** * Fabric manifests ([crates/workbench-cli/src/main.rs])

    A manifest names the nodes of a fabric.  [load_fabric_manifest] checks it,
    [plan_fabric_manifest] derives the links between the nodes: who dials whom.
    The YAML of the file and the printing of the plan are [serde]'s. *)

From Stdlib Require Import Ascii String.
From S2P Require Import Prelude RustStd Json.

Module FabricPlatform.
Inductive t := Macos | Linux | Termux | Windows.
#[global] Instance eq_dec : EqDecision t.
Proof. solve_decision. Defined.
End FabricPlatform.

Module FabricArchitecture.
Inductive t := Aarch64 | X86_64.
#[global] Instance eq_dec : EqDecision t.
Proof. solve_decision. Defined.
End FabricArchitecture.

Module WindowsDesktop.
Record t := mk { enabled : bool; user : option string }.
End WindowsDesktop.

Module FabricConnection.
Record t := mk { ssh_alias : string }.
End FabricConnection.

Module FabricNode.
Record t := mk {
  id : string;
  platform : FabricPlatform.t;
  architecture : FabricArchitecture.t;
  connection : option FabricConnection.t;
  allow_roots : list string;
  computer_use_environment : gmap string string;
  windows_desktop : option WindowsDesktop.t;
}.
End FabricNode.

Module FabricTopologyMode.
Inductive t := FullMesh.
End FabricTopologyMode.

Module FabricManifest.
Record t := mk {
  api_version : string;
  kind : string;
  initiator_node : string;
  nodes : list FabricNode.t;
  topology : FabricTopologyMode.t;
}.
End FabricManifest.

(** An element of the plan's [links]. *)
Module Link.
Record t := mk { dialer : string; peer : string; ssh_alias : option string }.
Definition to_value (l : t) : Value := json_object [
  ("dialer", VString (dialer l)); ("peer", VString (peer l)); ("sshAlias", vopt VString (ssh_alias l))].
End Link.

Module Fabric.
Import FabricNode.

(** ** Validation *)

Definition identity_byte (c : ascii) : bool :=
  Str.is_alphanumeric c || bool_decide (c = "."%char) || bool_decide (c = "_"%char) || bool_decide (c = "-"%char).
Definition validate_identity (value : string) : outcome string unit :=
  if Str.is_empty value || negb (Str.all identity_byte value)
  then Err ("invalid node identity or SSH alias: " +:+ value) else Ok tt.

(** [value.trim_end_matches(['/', '\\'])] *)
Definition slash (c : ascii) : bool := bool_decide (c = "/"%char) || bool_decide (c = "\"%char).
Fixpoint trim_slashes (s : string) : string :=
  match s with
  | EmptyString => EmptyString
  | String c s' => if Str.all slash s then EmptyString else String c (trim_slashes s')
  end.
Definition alphabetic (c : ascii) : bool := Str.is_alphanumeric c && negb (Str.is_digit c).
Definition drive (s : string) : bool :=
  match s with String a (String b EmptyString) => alphabetic a && bool_decide (b = ":"%char) | _ => false end.
(** Longer than a drive, a colon and a slash. *)
Definition below_drive (s : string) : bool :=
  match s with
  | String a (String b (String c (String _ _))) => alphabetic a && bool_decide (b = ":"%char) && slash c
  | _ => false
  end.
Definition validate_allow_root (value : string) : outcome string unit :=
  if Str.is_empty value || bool_decide (value ∈ ["/"; "~"; "$HOME"; "${user.home}"]) || drive (trim_slashes value)
  then Err ("allowRoot must be a narrow non-root path: " +:+ value)
  else if Str.starts_with "/" value || Str.starts_with "${user.home}/" value || below_drive value then Ok tt
  else Err ("allowRoot must be absolute or start with ${user.home}/: " +:+ value).

Fixpoint validate_roots (node_id : string) (roots : list string) : outcome string unit :=
  match roots with
  | [] => Ok tt
  | root :: roots' =>
      _ ← map_err (fun error => "node " +:+ node_id +:+ ": " +:+ error) (validate_allow_root root);
      validate_roots node_id roots'
  end.

Definition validate_desktop (node : FabricNode.t) (desktop : WindowsDesktop.t) : outcome string unit :=
  if negb (bool_decide (platform node = FabricPlatform.Windows)) then Err "windowsDesktop is only valid on Windows nodes"
  else if WindowsDesktop.enabled desktop then
    if match WindowsDesktop.user desktop with Some user => Str.is_empty (Str.trim user) | None => true end
    then Err "windowsDesktop needs an explicit user"
    else if bool_decide (computer_use_environment node !! "PI_COMPUTER_USE_HEADLESS" = Some "true")
    then Err "windowsDesktop requires headless=false" else Ok tt
  else Ok tt.

Definition released (platform : FabricPlatform.t) (architecture : FabricArchitecture.t) : bool :=
  match platform, architecture with
  | FabricPlatform.Macos, FabricArchitecture.Aarch64
  | FabricPlatform.Linux, FabricArchitecture.X86_64
  | FabricPlatform.Termux, FabricArchitecture.Aarch64
  | FabricPlatform.Termux, FabricArchitecture.X86_64
  | FabricPlatform.Windows, FabricArchitecture.X86_64 => true
  | _, _ => false
  end.

(** One turn of the loop over the nodes, with the identities seen before. *)
Definition validate_node (initiator : string) (seen : gset string) (node : FabricNode.t) : outcome string unit :=
  _ ← validate_identity (id node);
  _ ← match windows_desktop node with Some desktop => validate_desktop node desktop | None => Ok tt end;
  _ ← (if bool_decide (id node ∈ seen) then Err ("duplicate node id: " +:+ id node) else Ok tt);
  _ ← (if bool_decide (id node = initiator) then Ok tt
       else match connection node with
            | None => Err ("remote node " +:+ id node +:+ " needs connection.sshAlias")
            | Some connection => validate_identity (FabricConnection.ssh_alias connection)
            end);
  _ ← (if released (platform node) (architecture node) then Ok tt
       else Err ("node " +:+ id node +:+ " uses an unsupported release platform/architecture combination"));
  _ ← (if bool_decide (allow_roots node = []) then Err ("node " +:+ id node +:+ " needs at least one allowRoot") else Ok tt);
  validate_roots (id node) (allow_roots node).
Fixpoint validate_nodes (initiator : string) (seen : gset string) (nodes : list FabricNode.t) : outcome string (gset string) :=
  match nodes with
  | [] => Ok seen
  | node :: nodes' =>
      _ ← validate_node initiator seen node;
      validate_nodes initiator ({[id node]} ∪ seen) nodes'
  end.

(** [load_fabric_manifest], once the file is decoded. *)
Definition load_fabric_manifest (manifest : FabricManifest.t) : outcome string FabricManifest.t :=
  if negb (bool_decide (FabricManifest.api_version manifest = "distributed-workbench.dev/v1"))
  then Err "apiVersion must be distributed-workbench.dev/v1"
  else if negb (bool_decide (FabricManifest.kind manifest = "Fabric")) then Err "kind must be Fabric"
  else if bool_decide (length (FabricManifest.nodes manifest) = O) then Err "nodes must not be empty"
  else
    identities ← validate_nodes (FabricManifest.initiator_node manifest) ∅ (FabricManifest.nodes manifest);
    if bool_decide (FabricManifest.initiator_node manifest ∈ identities) then Ok manifest
    else Err "initiatorNode does not reference a node".

(** ** Planning *)

Definition alias (node : FabricNode.t) : option string := FabricConnection.ssh_alias <$> connection node.
Definition is_platform (p : FabricPlatform.t) (node : FabricNode.t) : bool := bool_decide (platform node = p).

Definition initiator_link (initiator : string) (node : FabricNode.t) : Link.t :=
  if is_platform FabricPlatform.Termux node then Link.mk (id node) initiator (alias node)
  else Link.mk initiator (id node) (alias node).

(** [(dialer, peer)] *)
Definition direction (left right : FabricNode.t) : FabricNode.t * FabricNode.t :=
  if is_platform FabricPlatform.Termux left then (left, right)
  else if is_platform FabricPlatform.Termux right then (right, left)
  else if negb (is_platform FabricPlatform.Windows left) && is_platform FabricPlatform.Windows right then (left, right)
  else if is_platform FabricPlatform.Windows left && negb (is_platform FabricPlatform.Windows right) then (right, left)
  else if decide (String.le (id left) (id right)) then (left, right)
  else (right, left).
Definition remote_link (left right : FabricNode.t) : Link.t :=
  let '(dialer, peer) := direction left right in Link.mk (id dialer) (id peer) (alias peer).

(** The two loops over [remote_nodes]. *)
Fixpoint remote_links (nodes : list FabricNode.t) : list Link.t :=
  match nodes with
  | [] => []
  | node :: nodes' => (remote_link node <$> nodes') ++ remote_links nodes'
  end.
Definition remote_nodes (manifest : FabricManifest.t) : list FabricNode.t :=
  bfilter (fun node => negb (bool_decide (id node = FabricManifest.initiator_node manifest))) (FabricManifest.nodes manifest).
Definition plan_links (manifest : FabricManifest.t) : list Link.t :=
  (initiator_link (FabricManifest.initiator_node manifest) <$> remote_nodes manifest) ++ remote_links (remote_nodes manifest).
(** [plan_fabric_manifest]; [nodes] is the text [serde] gives the nodes. *)
Definition plan_fabric_manifest (nodes : list FabricNode.t -> Value) (manifest : FabricManifest.t) : outcome string Value :=
  manifest ← load_fabric_manifest manifest;
  Ok (json_object [
    ("apiVersion", VString (FabricManifest.api_version manifest));
    ("kind", VString "FabricPlan");
    ("initiatorNode", VString (FabricManifest.initiator_node manifest));
    ("nodes", nodes (FabricManifest.nodes manifest));
    ("links", VArray (Link.to_value <$> plan_links manifest))]).

(** ** What a manifest that loads is like *)

Definition loaded (manifest : FabricManifest.t) : Prop := load_fabric_manifest manifest = Ok manifest.

Lemma validate_nodes_Ok initiator seen nodes identities :
  validate_nodes initiator seen nodes = Ok identities ->
  NoDup (id <$> nodes) /\ (forall n, n ∈ nodes -> (id n ∉ seen) /\ (id n = initiator \/ (exists a, alias n = Some a))) /\
  (forall i, i ∈ identities -> i ∈ seen \/ i ∈ (id <$> nodes)).
Proof.
  revert seen. induction nodes as [|n nodes IH]; intros seen.
  { intros [= <-]. split; [constructor|]. split; [|by left]. by intros n ?%not_elem_of_nil. }
  cbn [validate_nodes]. destruct (validate_node initiator seen n) as [[]| |] eqn:Hn; [|done..].
  cbn [mbind outcome_bind]. intros Hrest. destruct (IH _ Hrest) as (Hnd & Hall & Hids).
  assert (Hhead : (id n ∉ seen) /\ (id n = initiator \/ (exists a, alias n = Some a))).
  { unfold validate_node in Hn. destruct (validate_identity (id n)); [|done..]. cbn [mbind outcome_bind] in Hn.
    destruct (match windows_desktop n with Some _ => _ | None => _ end); [|done..]. cbn [mbind outcome_bind] in Hn.
    destruct (bool_decide (id n ∈ seen)) eqn:Hs; [done|]. apply bool_decide_eq_false_1 in Hs. split; [exact Hs|].
    cbn [mbind outcome_bind] in Hn. destruct (bool_decide (id n = initiator)) eqn:Hi; [left; by apply bool_decide_eq_true_1 in Hi|].
    right. unfold alias. destruct (connection n) as [c|]; [|done]. by exists (FabricConnection.ssh_alias c). }
  split; [|split].
  - rewrite fmap_cons. constructor; [|exact Hnd]. intros (n' & He & Hn')%list_elem_of_fmap.
    destruct (Hall n' Hn') as [Hno _]. apply Hno. rewrite He. by apply elem_of_union_l, elem_of_singleton.
  - intros n' [->|Hn']%elem_of_cons; [exact Hhead|]. destruct (Hall n' Hn') as [Hno Hc]. split; [|exact Hc].
    intros Hs. by apply Hno, elem_of_union_r.
  - intros i Hi. destruct (Hids i Hi) as [[->%elem_of_singleton|Hs]%elem_of_union|Hr]; [right|by left|right];
      rewrite fmap_cons, elem_of_cons; [by left|by right].
Qed.

Lemma loaded_nodes manifest :
  loaded manifest ->
  NoDup (id <$> FabricManifest.nodes manifest) /\
  (forall n, n ∈ FabricManifest.nodes manifest -> id n = FabricManifest.initiator_node manifest \/ (exists a, alias n = Some a)) /\
  FabricManifest.initiator_node manifest ∈ (id <$> FabricManifest.nodes manifest).
Proof.
  unfold loaded, load_fabric_manifest.
  destruct (negb (bool_decide (_ = "distributed-workbench.dev/v1"))); [done|].
  destruct (negb (bool_decide (_ = "Fabric"))); [done|]. destruct (bool_decide (length _ = _)); [done|].
  destruct (validate_nodes _ _ _) as [identities| |] eqn:Hv; [|done..]. cbn [mbind outcome_bind].
  destruct (bool_decide (_ ∈ identities)) eqn:Hi; [|done]. intros _. apply bool_decide_eq_true_1 in Hi.
  destruct (validate_nodes_Ok _ _ _ _ Hv) as (Hnd & Hall & Hids). split; [exact Hnd|]. split.
  - intros n Hn. by apply Hall.
  - destruct (Hids _ Hi) as [Hs|Hn]; [by apply not_elem_of_empty in Hs|exact Hn].
Qed.

(** ** One link between any two nodes *)

Definition joins (a b : string) (l : Link.t) : bool :=
  bool_decide (Link.dialer l = a /\ Link.peer l = b) || bool_decide (Link.dialer l = b /\ Link.peer l = a).
Definition ends (l : Link.t) (x y : string) : Prop :=
  (Link.dialer l = x /\ Link.peer l = y) \/ (Link.dialer l = y /\ Link.peer l = x).

Lemma joins_sym a b l : joins a b l = joins b a l.
Proof. apply orb_comm. Qed.
Lemma joins_ends l x y a b : ends l x y -> joins a b l = true <-> (x = a /\ y = b) \/ (x = b /\ y = a).
Proof.
  unfold joins. rewrite orb_true_iff, !bool_decide_eq_true.
  intros [[-> ->]|[-> ->]]; split; intros [[-> ->]|[-> ->]]; auto.
Qed.

Section star.
(** The links from one node to every other of a list. *)
Context (f : FabricNode.t -> Link.t) (x : string).
Context (Hf : forall y, ends (f y) x (id y)).

Lemma star_none rest a b :
  (x <> a \/ b ∉ id <$> rest) -> (x <> b \/ a ∉ id <$> rest) -> bfilter (joins a b) (f <$> rest) = [].
Proof.
  intros Ha Hb. apply bfilter_nil. intros l (y & -> & Hy)%list_elem_of_fmap.
  apply not_true_is_false. intros [[-> <-]|[-> <-]]%(joins_ends _ _ _ _ _ (Hf y)).
  - destruct Ha as [Ha|Ha]; [done|]. apply Ha. by apply list_elem_of_fmap_2.
  - destruct Hb as [Hb|Hb]; [done|]. apply Hb. by apply list_elem_of_fmap_2.
Qed.
Lemma star_one rest y :
  NoDup (id <$> rest) -> x ∉ id <$> rest -> y ∈ rest -> bfilter (joins x (id y)) (f <$> rest) = [f y].
Proof.
  induction rest as [|z rest IH]; intros Hnd Hx Hy; [by apply not_elem_of_nil in Hy|].
  rewrite fmap_cons in Hnd. apply NoDup_cons in Hnd as [Hz Hnd]. rewrite fmap_cons, not_elem_of_cons in Hx. destruct Hx as [Hxz Hx].
  simpl. destruct (joins x (id y) (f z)) eqn:Hj.
  - apply (joins_ends _ _ _ _ _ (Hf z)) in Hj as [[_ He]|[_ He]]; [|congruence].
    apply elem_of_cons in Hy as [->|Hy]; [|destruct Hz; rewrite He; by apply list_elem_of_fmap_2].
    f_equal. apply star_none; [by right|]. left. congruence.
  - apply elem_of_cons in Hy as [->|Hy]; [|by apply IH].
    assert (Ht : joins x (id z) (f z) = true) by (apply (joins_ends _ _ _ _ _ (Hf z)); by left). congruence.
Qed.
End star.

Lemma initiator_ends i y : ends (initiator_link i y) i (id y).
Proof. unfold initiator_link. destruct (is_platform _ y); [by right|by left]. Qed.
Lemma direction_cases x y : direction x y = (x, y) \/ direction x y = (y, x).
Proof. unfold direction. repeat case_match; auto. Qed.
Lemma remote_ends x y : ends (remote_link x y) (id x) (id y).
Proof. unfold remote_link. destruct (direction_cases x y) as [->| ->]; [by left|by right]. Qed.

Lemma remote_none nodes a b : a ∉ id <$> nodes -> bfilter (joins a b) (remote_links nodes) = [].
Proof.
  induction nodes as [|x nodes IH]; [done|]. rewrite fmap_cons, not_elem_of_cons. intros [Hx Ha].
  cbn [remote_links]. rewrite bfilter_app, IH, app_nil_r by done.
  apply (star_none (remote_link x) (id x) (remote_ends x)); [left; congruence|by right].
Qed.
Lemma sublist_cons_l_elem (y : FabricNode.t) l : y ∈ l -> [y] `sublist_of` l.
Proof. intros (l1 & l2 & ->)%list_elem_of_split. apply sublist_inserts_l, sublist_skip, sublist_nil_l. Qed.
Lemma remote_one nodes a b :
  NoDup (id <$> nodes) -> a ∈ nodes -> b ∈ nodes -> id a <> id b ->
  (bfilter (joins (id a) (id b)) (remote_links nodes) = [remote_link a b] /\ [a; b] `sublist_of` nodes) \/
  (bfilter (joins (id a) (id b)) (remote_links nodes) = [remote_link b a] /\ [b; a] `sublist_of` nodes).
Proof.
  induction nodes as [|x nodes IH]; intros Hnd Ha Hb Hab; [by apply not_elem_of_nil in Ha|].
  rewrite fmap_cons in Hnd. apply NoDup_cons in Hnd as [Hx Hnd]. cbn [remote_links]. rewrite bfilter_app.
  apply elem_of_cons in Ha as [->|Ha], Hb as [->|Hb]; [done| | |].
  - left. rewrite (star_one (remote_link x) (id x) (remote_ends x)), remote_none by done.
    split; [done|]. by apply sublist_skip, sublist_cons_l_elem.
  - right. assert (Hswap : forall l, bfilter (joins (id a) (id x)) l = bfilter (joins (id x) (id a)) l).
    { intros l. induction l as [|y l IHl]; [done|]. simpl. by rewrite joins_sym, IHl. }
    rewrite !Hswap, (star_one (remote_link x) (id x) (remote_ends x)), remote_none by done.
    split; [done|]. by apply sublist_skip, sublist_cons_l_elem.
  - rewrite (star_none (remote_link x) (id x) (remote_ends x));
      [|left; intros He; apply Hx; rewrite He; by apply list_elem_of_fmap_2..].
    destruct (IH Hnd Ha Hb Hab) as [[-> Hs]|[-> Hs]]; [left|right]; (split; [done|by apply sublist_cons]).
Qed.

Lemma remote_member manifest n :
  n ∈ remote_nodes manifest <-> n ∈ FabricManifest.nodes manifest /\ id n <> FabricManifest.initiator_node manifest.
Proof.
  unfold remote_nodes. rewrite elem_of_bfilter, negb_true_iff, bool_decide_eq_false. tauto.
Qed.

(** *** Who dials

    Phones dial out, Windows nodes are dialed. *)
Definition rank (n : FabricNode.t) : Z :=
  match platform n with
  | FabricPlatform.Termux => 0
  | FabricPlatform.Macos | FabricPlatform.Linux => 1
  | FabricPlatform.Windows => 2
  end.
(** Of two nodes beside the initiator the one of the lower rank dials; of two phones the one the manifest names
    first, of two others of one rank the one with the lesser identity. *)
Definition precedes (nodes : list FabricNode.t) (a b : FabricNode.t) : Prop :=
  rank a < rank b \/
  (rank a = rank b /\
   if decide (platform a = FabricPlatform.Termux) then [a; b] `sublist_of` nodes else String.le (id a) (id b)).
(** The initiator dials every node but a phone, which dials it. *)
Definition dials (manifest : FabricManifest.t) (a b : FabricNode.t) : Prop :=
  if decide (id a = FabricManifest.initiator_node manifest) then platform b <> FabricPlatform.Termux
  else if decide (id b = FabricManifest.initiator_node manifest) then platform a = FabricPlatform.Termux
  else precedes (FabricManifest.nodes manifest) a b.

Lemma sublist_pair_asym nodes a b :
  NoDup (id <$> nodes) -> id a <> id b -> [a; b] `sublist_of` nodes -> [b; a] `sublist_of` nodes -> False.
Proof.
  induction nodes as [|x nodes IH]; intros Hnd Hab Hs1 Hs2; [by apply sublist_nil_r in Hs1|].
  rewrite fmap_cons in Hnd. apply NoDup_cons in Hnd as [Hx Hnd].
  assert (Hin : forall y z, [y; z] `sublist_of` nodes -> y ∈ nodes /\ z ∈ nodes).
  { intros y z Hs%sublist_subseteq. split; apply Hs; [by left|by right; left]. }
  assert (Hout : forall y, y ∈ nodes -> y <> x) by (intros y Hy ->; apply Hx; by apply list_elem_of_fmap_2).
  apply sublist_cons_r in Hs1 as [Hs1|(l1 & [= <- <-] & Hs1)].
  - apply sublist_cons_r in Hs2 as [Hs2|(l2 & [= <- <-] & Hs2)]; [by apply IH|].
    by apply (Hout b); [apply (Hin _ _ Hs1)|].
  - apply sublist_cons_r in Hs2 as [Hs2|(l2 & [= <- <-] & Hs2)]; [|done].
    by apply (Hout a); [apply (Hin _ _ Hs2)|].
Qed.
Lemma rank_termux a b : rank a = rank b -> platform a = FabricPlatform.Termux <-> platform b = FabricPlatform.Termux.
Proof. unfold rank. by destruct (platform a), (platform b). Qed.
Lemma precedes_asym nodes a b :
  NoDup (id <$> nodes) -> id a <> id b -> precedes nodes a b -> precedes nodes b a -> False.
Proof.
  intros Hnd Hab [H1|[He H1]] [H2|[He' H2]]; [lia..|]. apply rank_termux in He as Ht.
  destruct (decide (platform a = FabricPlatform.Termux)), (decide (platform b = FabricPlatform.Termux)); try tauto.
  - by eapply sublist_pair_asym.
  - apply Hab. by apply (anti_symm String.le).
Qed.
Lemma dials_asym manifest a b :
  loaded manifest -> id a <> id b -> dials manifest a b -> dials manifest b a -> False.
Proof.
  intros (Hnd & _ & _)%loaded_nodes Hab. unfold dials.
  destruct (decide (id a = _)), (decide (id b = _)); [congruence|done|done|by apply precedes_asym].
Qed.

Lemma direction_precedes nodes x y :
  [x; y] `sublist_of` nodes ->
  (direction x y = (x, y) /\ precedes nodes x y) \/ (direction x y = (y, x) /\ precedes nodes y x).
Proof.
  intros Hs. unfold direction, precedes, is_platform, rank.
  destruct (platform x), (platform y); cbn;
    repeat match goal with |- context [bool_decide (?p = ?q)] =>
             let v := eval vm_compute in (bool_decide (p = q)) in change (bool_decide (p = q)) with v end;
    cbn; try (by left; split; [|left]); try (by right; split; [|left]);
    try (rewrite !(decide_True (P := _ = FabricPlatform.Termux)) by done; by auto);
    rewrite !(decide_False (P := _ = FabricPlatform.Termux)) by done;
    (destruct (decide (String.le (id x) (id y))); [by auto|]);
    right; (split; [done|]); right; (split; [done|]); by destruct (total String.le (id x) (id y)).
Qed.

(** What the plan promises of the link between two nodes. *)
Definition good_link (manifest : FabricManifest.t) (a b : FabricNode.t) (l : Link.t) : Prop :=
  bfilter (joins (id a) (id b)) (plan_links manifest) = [l] /\
  ((dials manifest a b /\ Link.dialer l = id a /\ Link.peer l = id b) \/
   (dials manifest b a /\ Link.dialer l = id b /\ Link.peer l = id a)) /\
  is_Some (Link.ssh_alias l) /\
  (Link.peer l <> FabricManifest.initiator_node manifest ->
   exists p, p ∈ [a; b] /\ Link.peer l = id p /\ Link.ssh_alias l = alias p).

Lemma remote_link_alias x y :
  exists p, p ∈ [x; y] /\ Link.peer (remote_link x y) = id p /\ Link.ssh_alias (remote_link x y) = alias p.
Proof.
  unfold remote_link. destruct (direction_cases x y) as [->| ->]; [exists y|exists x]; (split; [|done]); rewrite !elem_of_cons; auto.
Qed.

Lemma remote_ids manifest : loaded manifest -> NoDup (id <$> remote_nodes manifest).
Proof.
  intros (Hnd & _ & _)%loaded_nodes. eapply sublist_NoDup; [exact Hnd|]. apply fmap_sublist, bfilter_sublist.
Qed.
Lemma initiator_not_remote manifest : FabricManifest.initiator_node manifest ∉ id <$> remote_nodes manifest.
Proof. intros (n & He & [_ Hn]%remote_member)%list_elem_of_fmap. congruence. Qed.

(** The link between the initiator and another node. *)
Lemma initiator_good manifest a b :
  loaded manifest -> id a = FabricManifest.initiator_node manifest -> b ∈ FabricManifest.nodes manifest -> id a <> id b ->
  good_link manifest a b (initiator_link (id a) b).
Proof.
  intros Hload Ha Hb Hab. assert (Hr : b ∈ remote_nodes manifest) by (apply remote_member; split; congruence).
  pose proof (initiator_not_remote manifest) as Hno. split; [|split; [|split]].
  - unfold plan_links. rewrite bfilter_app, <- Ha.
    rewrite (star_one (initiator_link (id a)) (id a) (initiator_ends (id a))), remote_none;
      [done|by rewrite Ha|by apply remote_ids|by rewrite Ha|done].
  - unfold initiator_link, dials, is_platform.
    rewrite !(decide_True (P := id a = FabricManifest.initiator_node manifest)), decide_False by congruence.
    destruct (bool_decide (platform b = FabricPlatform.Termux)) eqn:Ht.
    + apply bool_decide_eq_true_1 in Ht. by right.
    + apply bool_decide_eq_false_1 in Ht. by left.
  - destruct (loaded_nodes manifest Hload) as (_ & Hal & _). destruct (Hal b Hb) as [He|[s Hs]]; [congruence|].
    exists s. unfold initiator_link. by destruct (is_platform _ b).
  - intros Hp. exists b. split; [rewrite !elem_of_cons; auto|]. revert Hp. unfold initiator_link.
    destruct (is_platform _ b); [|done]. cbn [Link.peer]. congruence.
Qed.

Lemma good_link_sym manifest a b l : good_link manifest a b l -> good_link manifest b a l.
Proof.
  intros (Hl & Hd & Hs & Hp). split; [|split; [tauto|split; [done|]]].
  - rewrite <- Hl. apply bfilter_ext. intros x _. apply joins_sym.
  - intros Hpeer. destruct (Hp Hpeer) as (p & Hin & Hrest). exists p. split; [|done]. rewrite !elem_of_cons in Hin |- *. tauto.
Qed.

(** A link between two nodes beside the initiator, named in this order. *)
Lemma remote_pair_good manifest a b :
  loaded manifest -> a ∈ remote_nodes manifest -> b ∈ remote_nodes manifest ->
  [a; b] `sublist_of` remote_nodes manifest ->
  bfilter (joins (id a) (id b)) (plan_links manifest) = [remote_link a b] -> good_link manifest a b (remote_link a b).
Proof.
  intros Hload [Ha Hai]%remote_member [Hb Hbi]%remote_member Hs Hl. destruct (loaded_nodes manifest Hload) as (_ & Hal & _).
  destruct (remote_link_alias a b) as (p & Hp & Hpeer & Halias). split; [exact Hl|]. split; [|split].
  - assert (Hs' : [a; b] `sublist_of` FabricManifest.nodes manifest) by (etrans; [exact Hs|apply bfilter_sublist]).
    unfold dials, remote_link. rewrite !decide_False by done.
    destruct (direction_precedes _ a b Hs') as [[-> Hd]|[-> Hd]]; [left|right]; done.
  - rewrite Halias. rewrite !elem_of_cons in Hp. destruct Hp as [->|[->|[]%not_elem_of_nil]].
    + destruct (Hal a Ha) as [|[s ->]]; [done|by exists s].
    + destruct (Hal b Hb) as [|[s ->]]; [done|by exists s].
  - intros _. by exists p.
Qed.
Lemma remote_good manifest a b :
  loaded manifest -> a ∈ remote_nodes manifest -> b ∈ remote_nodes manifest -> id a <> id b -> exists l, good_link manifest a b l.
Proof.
  intros Hload Ha Hb Hab. pose proof (initiator_not_remote manifest) as Hno.
  assert (Hstar : bfilter (joins (id a) (id b)) (plan_links manifest) =
    bfilter (joins (id a) (id b)) (remote_links (remote_nodes manifest))).
  { unfold plan_links. rewrite bfilter_app.
    rewrite (star_none (initiator_link (FabricManifest.initiator_node manifest)) _ (initiator_ends _)); [done| |];
      left; intros He; apply Hno; rewrite He; by apply list_elem_of_fmap_2. }
  destruct (remote_one (remote_nodes manifest) a b (remote_ids manifest Hload) Ha Hb Hab) as [[Hl Hs]|[Hl Hs]]; eexists.
  - apply remote_pair_good; [done..|]. by rewrite Hstar.
  - apply good_link_sym, remote_pair_good; [done..|]. rewrite <- Hl, <- Hstar. apply bfilter_ext. intros x _. apply joins_sym.
Qed.

Lemma remote_links_nodes nodes l :
  NoDup (id <$> nodes) -> l ∈ remote_links nodes ->
  exists a b, a ∈ nodes /\ b ∈ nodes /\ id a <> id b /\ Link.dialer l = id a /\ Link.peer l = id b.
Proof.
  induction nodes as [|x nodes IH]; intros Hnd Hl; [by apply not_elem_of_nil in Hl|].
  rewrite fmap_cons in Hnd. apply NoDup_cons in Hnd as [Hx Hnd]. cbn [remote_links] in Hl.
  apply elem_of_app in Hl as [(y & -> & Hy)%list_elem_of_fmap|Hl].
  - assert (Hxy : id x <> id y) by (intros He; apply Hx; rewrite He; by apply list_elem_of_fmap_2).
    assert (Hyc : y ∈ x :: nodes) by (apply elem_of_cons; by right).
    assert (Hxc : x ∈ x :: nodes) by (apply elem_of_cons; by left).
    destruct (remote_ends x y) as [[-> ->]|[-> ->]]; [exists x, y|exists y, x]; done.
  - destruct (IH Hnd Hl) as (a & b & Ha & Hb & Hrest). exists a, b. rewrite !elem_of_cons. auto.
Qed.


(** ** A fabric *)

Definition node name platform architecture connection : FabricNode.t := {|
  id := name; platform := platform; architecture := architecture; connection := FabricConnection.mk <$> connection;
  allow_roots := ["/srv/work"]; computer_use_environment := ∅; windows_desktop := None |}.
Definition laptop : FabricNode.t := node "laptop" FabricPlatform.Macos FabricArchitecture.Aarch64 None.
Definition phone : FabricNode.t := node "phone" FabricPlatform.Termux FabricArchitecture.Aarch64 (Some "phone-ssh").
Definition devbox : FabricNode.t := node "devbox" FabricPlatform.Linux FabricArchitecture.X86_64 (Some "devbox-ssh").
Definition desktop : FabricNode.t := node "desktop" FabricPlatform.Windows FabricArchitecture.X86_64 (Some "desktop-ssh").
Definition fabric : FabricManifest.t := {|
  FabricManifest.api_version := "distributed-workbench.dev/v1"; FabricManifest.kind := "Fabric";
  FabricManifest.initiator_node := "laptop"; FabricManifest.nodes := [laptop; desktop; phone; devbox];
  FabricManifest.topology := FabricTopologyMode.FullMesh |}.
Lemma fabric_loads : loaded fabric.
Proof. vm_compute. reflexivity. Qed.

Example fabric_plan :
  ((fun l => (Link.dialer l, Link.peer l, Link.ssh_alias l)) <$> plan_links fabric) =
    [("laptop", "desktop", Some "desktop-ssh"); ("phone", "laptop", Some "phone-ssh"); ("laptop", "devbox", Some "devbox-ssh");
     ("phone", "desktop", Some "desktop-ssh"); ("devbox", "desktop", Some "desktop-ssh"); ("phone", "devbox", Some "devbox-ssh")].
Proof. vm_compute. reflexivity. Qed.


(** The second link above: a Termux node that dials the initiator is given its own alias, not that of the
    node it has to reach. *)
Example a_phone_dials_its_own_alias :
  initiator_link "laptop" phone = Link.mk "phone" "laptop" (alias phone).
Proof. reflexivity. Qed.

(** Roots that are as broad as the refused ones. *)
Example broad_roots_are_accepted :
  validate_allow_root "//" = Ok tt /\ validate_allow_root "/." = Ok tt /\ validate_allow_root "${user.home}/" = Ok tt /\
  validate_allow_root "/srv/.." = Ok tt.
Proof. vm_compute. done. Qed.
End Fabric.
