(* ===== verification/Registry.v ===== *)
(** * Sessions, artifacts, generations, agents and nodes
      ([crates/workbench-runtime/src/controller.rs])

    The handlers that register records with a controller: [session.*],
    [artifact.*], [generation.*], [agent.*], [executor.*], [controller.*]. *)

From Stdlib Require Import String.
From S2P Require Import Prelude RustStd History Json Protocol Schema Store Leases Tasks.
From S2P Require Import Contracts Lifecycles Controller.

Module Registry.
Import Controller.

Section handlers.
Context {P : Platform}.

(** ** Sessions *)

Definition session_is (session_id : string) (s : WorkspaceSession.t) : bool :=
  bool_decide (Metadata.id (WorkspaceSession.metadata s) = session_id).
Definition session_id (s : WorkspaceSession.t) : string := Metadata.id (WorkspaceSession.metadata s).

(** [session.authority = a] *)
Definition with_authority (a : option SessionAuthority.t) (s : WorkspaceSession.t) : WorkspaceSession.t :=
  WorkspaceSession.mk (WorkspaceSession.api_version s) (WorkspaceSession.metadata s)
    (WorkspaceSession.objective s) (WorkspaceSession.state s) a (WorkspaceSession.observability s).

(** The authority part of [session.put]: the session as it will be stored. *)
Definition settle_authority (controller_id : string) (sessions : list WorkspaceSession.t)
    (session : WorkspaceSession.t) : outcome RpcError.t WorkspaceSession.t :=
  let existing := bfind (session_is (session_id session)) sessions in
  session ← match existing with
            | Some existing =>
                match WorkspaceSession.authority existing with
                | Some a =>
                    if negb (bool_decide (SessionAuthority.controller_id a = controller_id))
                    then Err (RpcError.new "SESSION_REMOTE_REFERENCE_REQUIRED"
                                "legacy remote session identity is reserved; create a new local session ID")
                    else Ok match WorkspaceSession.authority session with
                            | None => with_authority (Some a) session
                            | Some _ => session
                            end
                | None => Ok session
                end
            | None => Ok session
            end;
  match WorkspaceSession.authority session with
  | None => Ok (with_authority (Some (SessionAuthority.mk controller_id 1 None)) session)
  | Some authority =>
      if decide (SessionAuthority.controller_id authority = controller_id) then
        if decide ((existing ≫= WorkspaceSession.authority) = Some authority) then Ok session
        else Err (RpcError.new "INVALID_AUTHORITY" "session authority can only change through handoff")
      else Err (RpcError.new "NOT_SESSION_AUTHORITY"
                  ("session " +:+ session_id session +:+ " is owned by controller " +:+
                   SessionAuthority.controller_id authority))
  end.

Definition grant_is (grant_id : string) (g : ReadGrant.t) : bool := bool_decide (ReadGrant.id g = grant_id).

(** [grant.state = Revoked; grant.revoked_at = Some(n)] *)
Definition revoked (n : Z) (g : ReadGrant.t) : ReadGrant.t :=
  ReadGrant.mk (ReadGrant.id g) (ReadGrant.workspace_session_id g) (ReadGrant.executor_id g)
    (ReadGrant.requested_root g) (ReadGrant.real_root g) (ReadGrant.capabilities g)
    ReadGrantState.Revoked (ReadGrant.requested_by g) (ReadGrant.created_at g)
    (ReadGrant.approved_at g) (Some n) (ReadGrant.approved_by g) (ReadGrant.audit g).

Definition archived_grants (session : WorkspaceSession.t) (grants : list ReadGrant.t) :
    list (string * string) :=
  if decide (WorkspaceSession.state session = SessionState.Archived) then
    (fun g => (ReadGrant.id g, ReadGrant.executor_id g)) <$>
      bfilter (fun g => bool_decide (ReadGrant.workspace_session_id g = session_id session)
                        && bool_decide (ReadGrant.state g = ReadGrantState.Approved)) grants
  else [].

Fixpoint revoke_on_executors (grants : list (string * string)) : handler unit :=
  match grants with
  | [] => mret tt
  | (grant_id, executor_id) :: grants' =>
      _ ← call_registered_executor executor_id "read-grant.revoke"
            (json_object [("grantId", VString grant_id)]);
      revoke_on_executors grants'
  end.

Fixpoint mark_revoked (grants : list (string * string)) : handler unit :=
  match grants with
  | [] => mret tt
  | (grant_id, _) :: grants' =>
      c ← get;
      match bfind (grant_is grant_id) (WorkbenchState.read_grants (state c)) with
      | Some _ =>
          n ← now;
          modify_state (fun s => WorkbenchState.with_read_grants
            (update_first (grant_is grant_id) (revoked n) (WorkbenchState.read_grants s)) s)
      | None => mret tt
      end ;;
      mark_revoked grants'
  end.

Definition session_put (params : Value) : handler Value :=
  session ← lift (invalid_params (from_value params));
  c ← get;
  session ← lift (settle_authority (id c) (WorkbenchState.sessions (state c)) session);
  let grants := archived_grants session (WorkbenchState.read_grants (state c)) in
  revoke_on_executors grants ;;
  modify_state (fun s => WorkbenchState.with_sessions
    (upsert_by session (session_is (session_id session)) (WorkbenchState.sessions s)) s) ;;
  mark_revoked grants ;;
  persist ;;
  mret (to_value session).

(** ["session.accept-handoff" | "session.handoff"] *)
Definition session_handoff : handler Value :=
  throw (RpcError.new "SESSION_IMMUTABLE_HOME"
    "sessions have a permanent Controller identity; create a new session to continue on another Controller").

Definition unknown_session (id : string) : RpcError.t :=
  RpcError.new "SESSION_NOT_FOUND" ("unknown session: " +:+ id).

Definition session_get (params : Value) : handler Value :=
  id ← lift (required_str params "sessionId");
  c ← get;
  session ← lift (ok_or (unknown_session id) (bfind (session_is id) (WorkbenchState.sessions (state c))));
  mret (to_value session).

Definition session_list : handler Value :=
  c ← get; mret (list_value (WorkbenchState.sessions (state c))).

(** [session.state = st; session.metadata.updated_at = n] *)
Definition with_session_state (st : SessionState.t) (n : Z) (s : WorkspaceSession.t) : WorkspaceSession.t :=
  let m := WorkspaceSession.metadata s in
  WorkspaceSession.mk (WorkspaceSession.api_version s)
    (Metadata.mk (Metadata.id m) (Metadata.labels m) (Metadata.created_at m) n)
    (WorkspaceSession.objective s) st (WorkspaceSession.authority s) (WorkspaceSession.observability s).

Definition state_required (params : Value) : outcome RpcError.t Value :=
  ok_or (RpcError.new "INVALID_PARAMS" "state is required") (vget params "state").

Definition session_transition (params : Value) : handler Value :=
  id ← lift (required_str params "sessionId");
  st ← lift (state_required params);
  session_state ← lift (invalid_params (from_value st));
  c ← get;
  session ← lift (ok_or (unknown_session id) (bfind (session_is id) (WorkbenchState.sessions (state c))));
  n ← now;
  modify_state (fun s => WorkbenchState.with_sessions
    (update_first (session_is id) (with_session_state session_state n) (WorkbenchState.sessions s)) s) ;;
  persist ;;
  mret (to_value (with_session_state session_state n session)).

(** ** Artifacts *)

Definition artifact_is (digest : string) (a : Artifact.t) : bool := bool_decide (Artifact.digest a = digest).

Definition artifact_put (params : Value) : handler Value :=
  artifact ← lift (invalid_params (from_value params));
  modify_state (fun s => WorkbenchState.with_artifacts
    (upsert_by artifact (artifact_is (Artifact.digest artifact)) (WorkbenchState.artifacts s)) s) ;;
  persist ;;
  mret (to_value artifact).

Definition artifact_get (params : Value) : handler Value :=
  digest ← lift (required_str params "digest");
  c ← get;
  artifact ← lift (ok_or (RpcError.new "ARTIFACT_NOT_FOUND" ("unknown artifact: " +:+ digest))
                     (bfind (artifact_is digest) (WorkbenchState.artifacts (state c))));
  mret (to_value artifact).

Definition artifact_list : handler Value :=
  c ← get; mret (list_value (WorkbenchState.artifacts (state c))).

(** ** Generations *)

Definition generation_is (generation_id : string) (g : Generation.t) : bool :=
  bool_decide (Generation.id g = generation_id).

(** [Debug] of a generation state. *)
Definition debug_generation (s : GenerationState.t) : string :=
  match s with
  | GenerationState.Reserved => "Reserved" | GenerationState.Materializing => "Materializing"
  | GenerationState.Materialized => "Materialized" | GenerationState.Validated => "Validated"
  | GenerationState.Finalized => "Finalized" | GenerationState.SmokePassed => "SmokePassed"
  | GenerationState.Active => "Active" | GenerationState.Superseded => "Superseded"
  | GenerationState.Failed => "Failed"
  end.

Definition admit_generation (generations : list Generation.t) (generation : Generation.t) :
    outcome RpcError.t unit :=
  match bfind (generation_is (Generation.id generation)) generations with
  | None => Ok tt
  | Some existing =>
      if negb (bool_decide (Generation.workspace_session_id existing = Generation.workspace_session_id generation))
         || negb (bool_decide (Generation.root existing = Generation.root generation))
         || negb (bool_decide (BaselineIdentity.digest (Generation.baseline existing) =
                               BaselineIdentity.digest (Generation.baseline generation)))
      then Err (RpcError.new "GENERATION_IDENTITY_CONFLICT" "generation identity fields are immutable")
      else if negb (generation_transition_allowed (Generation.state existing) (Generation.state generation))
      then Err (RpcError.new "INVALID_GENERATION_STATE"
                  ("invalid generation transition " +:+ debug_generation (Generation.state existing) +:+
                   " -> " +:+ debug_generation (Generation.state generation)))
      else Ok tt
  end.

Definition generation_put (params : Value) : handler Value :=
  generation ← lift (invalid_params (from_value params));
  c ← get;
  _ ← lift (admit_generation (WorkbenchState.generations (state c)) generation);
  modify_state (fun s => WorkbenchState.with_generations
    (upsert_by generation (generation_is (Generation.id generation)) (WorkbenchState.generations s)) s) ;;
  persist ;;
  mret (to_value generation).

Definition generation_get (params : Value) : handler Value :=
  id ← lift (required_str params "generationId");
  c ← get;
  generation ← lift (ok_or (RpcError.new "GENERATION_NOT_FOUND" ("unknown generation: " +:+ id))
                       (bfind (generation_is id) (WorkbenchState.generations (state c))));
  mret (to_value generation).

Definition generation_list : handler Value :=
  c ← get; mret (list_value (WorkbenchState.generations (state c))).

(** ** Agents *)

Definition agent_is (agent_id : string) (a : AgentInstance.t) : bool :=
  bool_decide (AgentInstance.id a = agent_id).

Definition agent_put (params : Value) : handler Value :=
  agent ← lift (invalid_params (from_value params));
  modify_state (fun s => WorkbenchState.with_agents
    (upsert_by agent (agent_is (AgentInstance.id agent)) (WorkbenchState.agents s)) s) ;;
  persist ;;
  mret (to_value agent).

Definition unknown_agent (id : string) : RpcError.t :=
  RpcError.new "AGENT_NOT_FOUND" ("unknown agent: " +:+ id).

Definition agent_get (params : Value) : handler Value :=
  id ← lift (required_str params "agentId");
  c ← get;
  agent ← lift (ok_or (unknown_agent id) (bfind (agent_is id) (WorkbenchState.agents (state c))));
  mret (to_value agent).

Definition agent_list : handler Value := c ← get; mret (list_value (WorkbenchState.agents (state c))).

(** [agent.state = st; agent.metadata = m] *)
Definition with_agent_state (st : AgentState.t) (m : Value) (a : AgentInstance.t) : AgentInstance.t :=
  AgentInstance.mk (AgentInstance.id a) (AgentInstance.workspace_session_id a)
    (AgentInstance.executor_id a) (AgentInstance.role a) (AgentInstance.provider a) st m.

Definition agent_transition (params : Value) : handler Value :=
  id ← lift (required_str params "agentId");
  st ← lift (state_required params);
  agent_state ← lift (invalid_params (from_value st));
  c ← get;
  agent ← lift (ok_or (unknown_agent id) (bfind (agent_is id) (WorkbenchState.agents (state c))));
  let change a := with_agent_state agent_state (AgentInstance.metadata a) a in
  modify_state (fun s => WorkbenchState.with_agents
    (update_first (agent_is id) change (WorkbenchState.agents s)) s) ;;
  persist ;;
  mret (to_value (change agent)).

(** ** Executors *)

Definition API_VERSION : string := "workbench.dev/v1".

(** [state.executors.retain(|e| e.metadata.id != id)] *)
Definition without_executor (id : string) (es : list Executor.t) : list Executor.t :=
  bfilter (fun e => negb (executor_is id e)) es.

Definition executor_put (params : Value) : handler Value :=
  executor ← lift (invalid_params (from_value params));
  modify_state (fun s => WorkbenchState.with_executors
    (upsert_by executor (executor_is (Metadata.id (Executor.metadata executor)))
       (WorkbenchState.executors s)) s) ;;
  persist ;;
  mret (to_value executor).

Definition executor_list : handler Value :=
  c ← get; mret (list_value (WorkbenchState.executors (state c))).

Definition endpoint_param (params : Value) : outcome RpcError.t ExecutorEndpoint.t :=
  v ← ok_or (RpcError.new "INVALID_PARAMS" "endpoint is required") (vget params "endpoint");
  invalid_params (from_value v).

Definition executor_register (params : Value) : handler Value :=
  id ← lift (required_str params "executorId");
  endpoint ← lift (endpoint_param params);
  status ← call_endpoint endpoint "status" VNull
             (retryable_error "EXECUTOR_UNAVAILABLE") executor_failed;
  actual_id ← lift (ok_or (RpcError.new "EXECUTOR_INVALID" "executor status did not report an identity")
                      (str_param status "executorId"));
  guard (bool_decide (actual_id = id))
    (RpcError.new "EXECUTOR_IDENTITY_MISMATCH"
       ("endpoint reported Executor " +:+ actual_id +:+ ", expected " +:+ id)) ;;
  capabilities ← lift (map_err (RpcError.new "EXECUTOR_INVALID")
                         (from_value (default (VArray []) (vget status "capabilities"))));
  allowed_roots ← lift (map_err (RpcError.new "EXECUTOR_INVALID")
                          (from_value (default (VArray []) (vget status "allowedRoots"))));
  n ← now;
  let executor := Executor.mk API_VERSION (Metadata.mk id ∅ n n) endpoint capabilities allowed_roots
                    HealthStatus.Ready in
  modify_state (fun s => WorkbenchState.with_executors
    (upsert_by executor (executor_is id) (WorkbenchState.executors s)) s) ;;
  persist ;;
  mret (to_value executor).

Definition executor_unregister (params : Value) : handler Value :=
  id ← lift (required_str params "executorId");
  c ← get;
  let before := WorkbenchState.executors (state c) in
  let removed := negb (bool_decide (length (without_executor id before) = length before)) in
  modify_state (fun s => WorkbenchState.with_executors (without_executor id (WorkbenchState.executors s)) s) ;;
  (if removed then persist else mret tt) ;;
  mret (json_object [("executorId", VString id); ("removed", VBool removed)]).

Definition executor_remove (params : Value) : handler Value :=
  id ← lift (required_str params "executorId");
  c ← get;
  let before := WorkbenchState.executors (state c) in
  modify_state (fun s => WorkbenchState.with_executors (without_executor id (WorkbenchState.executors s)) s) ;;
  guard (negb (bool_decide (length (without_executor id before) = length before))) (unknown_executor id) ;;
  persist ;;
  mret (json_object [("executorId", VString id); ("removed", VBool true)]).

(** ** Controllers *)

Definition peer_is (peer_id : string) (p : ControllerPeer.t) : bool :=
  bool_decide (Metadata.id (ControllerPeer.metadata p) = peer_id).
Definition without_peer (id : string) (ps : list ControllerPeer.t) : list ControllerPeer.t :=
  bfilter (fun p => negb (peer_is id p)) ps.
Definition controller_failed : RpcError.t := RpcError.new "CONTROLLER_FAILED" "controller failed".

Definition controller_list : handler Value :=
  c ← get; mret (list_value (WorkbenchState.controllers (state c))).

Definition controller_register (params : Value) : handler Value :=
  id ← lift (required_str params "controllerId");
  endpoint ← lift (endpoint_param params);
  status ← call_endpoint endpoint "ping" VNull
             (retryable_error "CONTROLLER_UNAVAILABLE") controller_failed;
  actual_id ← lift (ok_or (RpcError.new "CONTROLLER_INVALID" "controller status did not report an identity")
                      (v ← vget status "controller"; str_param v "id"));
  guard (bool_decide (actual_id = id))
    (RpcError.new "CONTROLLER_IDENTITY_MISMATCH"
       ("endpoint reported Controller " +:+ actual_id +:+ ", expected " +:+ id)) ;;
  n ← now;
  let peer := ControllerPeer.mk API_VERSION (Metadata.mk id ∅ n n) endpoint HealthStatus.Ready in
  modify_state (fun s => WorkbenchState.with_controllers
    (upsert_by peer (peer_is id) (WorkbenchState.controllers s)) s) ;;
  persist ;;
  mret (to_value peer).

Definition controller_unregister (params : Value) : handler Value :=
  peer ← lift (required_str params "controllerId");
  c ← get;
  guard (negb (bool_decide (peer = id c)))
    (RpcError.new "CONTROLLER_SELF_UNREGISTER" "a Controller cannot unregister itself") ;;
  let before := WorkbenchState.controllers (state c) in
  let removed := negb (bool_decide (length (without_peer peer before) = length before)) in
  modify_state (fun s => WorkbenchState.with_controllers (without_peer peer (WorkbenchState.controllers s)) s) ;;
  (if removed then persist else mret tt) ;;
  mret (json_object [("controllerId", VString peer); ("removed", VBool removed)]).

Definition controller_call (params : Value) : handler Value :=
  peer ← lift (required_str params "controllerId");
  c ← get;
  controller ← lift (ok_or (RpcError.new "CONTROLLER_NOT_FOUND" ("unknown controller: " +:+ peer))
                       (bfind (peer_is peer) (WorkbenchState.controllers (state c))));
  action ← lift (required_str params "action");
  call_endpoint (ControllerPeer.endpoint controller) action (default VNull (vget params "params"))
    (retryable_error "CONTROLLER_UNAVAILABLE") controller_failed.
End handlers.

(** ** Lifecycles *)

Section lifecycles.
Context {P : Platform}.

(** Replacing or adding a record under its key, when it may follow the one that
    is there. *)
Lemma evolves_upsert {A} (R : relation A) `{!Reflexive R} (value : A) (p : A -> bool) items :
  (forall existing, bfind p items = Some existing -> R existing value) ->
  evolves R items (upsert_by value p items).
Proof.
  intros Hv. unfold upsert_by. destruct (bfind p items) as [x|] eqn:Hx; [|by apply evolves_push].
  apply evolves_update_first; [done|]. intros y Hy. apply Hv. congruence.
Qed.

Lemma session_is_id sid s : session_is sid s = true -> session_id s = sid.
Proof. apply bool_decide_eq_true. Qed.

(** The session [session.put] stores follows the one it replaces, and its home
    is this controller. *)
Lemma settle_authority_step cid sessions session s :
  settle_authority cid sessions session = Ok s ->
  session_id s = session_id session /\
  (exists a, WorkspaceSession.authority s = Some a /\ SessionAuthority.controller_id a = cid) /\
  forall existing, bfind (session_is (session_id session)) sessions = Some existing ->
    session_step existing s.
Proof.
  unfold settle_authority. set (existing := bfind _ sessions).
  assert (Hex : forall e, existing = Some e -> session_id e = session_id session).
  { intros e He. apply bfind_Some in He as [He _]. by apply session_is_id. }
  intros (s1 & H1 & H2)%bind_Ok.
  assert (Hs1 : session_id s1 = session_id session /\
    forall e a, existing = Some e -> WorkspaceSession.authority e = Some a ->
      SessionAuthority.controller_id a = cid /\
      (WorkspaceSession.authority s1 = None -> False)).
  { destruct existing as [e|]; [|injection H1 as <-; by split].
    destruct (WorkspaceSession.authority e) as [a|] eqn:Ha; [|injection H1 as <-; split; [done|];
      intros ?? [= <-]; congruence].
    case_bool_decide as Hc; [|done]. simpl in H1. injection H1 as <-.
    destruct (WorkspaceSession.authority session) eqn:Hs; (split; [done|]);
      intros ?? [= <-] ?; simplify_eq; (split; [done|]); simpl; congruence. }
  destruct Hs1 as [Hid Hauth].
  destruct (WorkspaceSession.authority s1) as [b|] eqn:Hb.
  - repeat case_decide; simplify_eq. split; [done|]. split; [by exists b|]. intros e He.
    split; [exact (eq_trans Hid (eq_sym (Hex e He)))|]. rewrite He in *. simpl in *. intros a Ha. congruence.
  - injection H2 as <-. split; [exact Hid|]. split; [by eexists|]. intros e He.
    split; [exact (eq_trans Hid (eq_sym (Hex e He)))|]. intros a Ha. by destruct (Hauth _ _ He Ha) as [_ []].
Qed.

Lemma admit_generation_step gs g existing u :
  admit_generation gs g = Ok u -> bfind (generation_is (Generation.id g)) gs = Some existing ->
  generation_step existing g.
Proof.
  unfold admit_generation. intros Ha He. rewrite He in Ha.
  apply bfind_Some in He as [Hid%bool_decide_eq_true _].
  destruct (_ || _) eqn:Hident; [done|]. destruct (negb _) eqn:Hs in Ha; [done|].
  apply orb_false_iff in Hident as [[Hw Hr]%orb_false_iff Hd].
  apply negb_false_iff, bool_decide_eq_true in Hw, Hr, Hd. apply negb_false_iff in Hs.
  split; [unfold generation_identity; congruence|]. by apply rtc_once.
Qed.

Lemma quiet_revoke_on_executors grants : quiet (revoke_on_executors grants).
Proof. induction grants as [|[] grants IH]; simpl; hush; apply IH. Qed.
#[local] Hint Resolve quiet_revoke_on_executors : quiet.
Lemma keeps_mark_revoked c0 grants : keeps (later c0) (mark_revoked grants).
Proof.
  induction grants as [|[] grants IH]; simpl; keep. intros c Hc.
  etrans; [exact Hc|]. by apply later_same.
Qed.
#[local] Hint Resolve keeps_mark_revoked : keeps.

Lemma keeps_session_put c0 params : keeps (later c0) (session_put params).
Proof.
  follow session_put. etrans; [by apply later_set_sent|]. apply later_with_sessions, evolves_upsert; [apply _|].
  match goal with H : settle_authority _ _ _ = Ok _ |- _ => apply settle_authority_step in H as (-> & _ & H) end.
  done.
Qed.
Lemma keeps_session_handoff c0 : keeps (later c0) session_handoff.
Proof. unfold session_handoff. keep. Qed.
Lemma keeps_session_get c0 params : keeps (later c0) (session_get params).
Proof. unfold session_get. keep. Qed.
Lemma keeps_session_list c0 : keeps (later c0) session_list.
Proof. unfold session_list. keep. Qed.
Lemma keeps_session_transition c0 params : keeps (later c0) (session_transition params).
Proof.
  follow session_transition. etrans; [done|].
  apply later_with_sessions, evolves_update_first; [apply _|]. by intros ? _.
Qed.
Lemma keeps_artifact_put c0 params : keeps (later c0) (artifact_put params).
Proof. follow artifact_put. Qed.
Lemma keeps_artifact_get c0 params : keeps (later c0) (artifact_get params).
Proof. unfold artifact_get. keep. Qed.
Lemma keeps_artifact_list c0 : keeps (later c0) artifact_list.
Proof. unfold artifact_list. keep. Qed.
Lemma keeps_generation_put c0 params : keeps (later c0) (generation_put params).
Proof.
  follow generation_put. etrans; [done|]. apply later_with_generations, evolves_upsert; [apply _|].
  intros existing He. by eapply admit_generation_step.
Qed.
Lemma keeps_generation_get c0 params : keeps (later c0) (generation_get params).
Proof. unfold generation_get. keep. Qed.
Lemma keeps_generation_list c0 : keeps (later c0) generation_list.
Proof. unfold generation_list. keep. Qed.
Lemma keeps_agent_put c0 params : keeps (later c0) (agent_put params).
Proof.
  follow agent_put. etrans; [done|]. apply later_with_agents, evolves_upsert; [apply _|].
  intros existing He. apply bfind_Some in He as [He%bool_decide_eq_true _]. by symmetry.
Qed.
Lemma keeps_agent_get c0 params : keeps (later c0) (agent_get params).
Proof. unfold agent_get. keep. Qed.
Lemma keeps_agent_list c0 : keeps (later c0) agent_list.
Proof. unfold agent_list. keep. Qed.
Lemma keeps_agent_transition c0 params : keeps (later c0) (agent_transition params).
Proof.
  follow agent_transition. etrans; [done|].
  apply later_with_agents, evolves_update_first; [apply _|]. by intros ? _.
Qed.
Lemma keeps_executor_put c0 params : keeps (later c0) (executor_put params).
Proof. follow executor_put. Qed.
Lemma keeps_executor_list c0 : keeps (later c0) executor_list.
Proof. unfold executor_list. keep. Qed.
Lemma keeps_executor_register c0 params : keeps (later c0) (executor_register params).
Proof. follow executor_register. Qed.
Lemma keeps_executor_unregister c0 params : keeps (later c0) (executor_unregister params).
Proof. follow executor_unregister. Qed.
Lemma keeps_executor_remove c0 params : keeps (later c0) (executor_remove params).
Proof. follow executor_remove. Qed.
Lemma keeps_controller_list c0 : keeps (later c0) controller_list.
Proof. unfold controller_list. keep. Qed.
Lemma keeps_controller_register c0 params : keeps (later c0) (controller_register params).
Proof. follow controller_register. Qed.
Lemma keeps_controller_unregister c0 params : keeps (later c0) (controller_unregister params).
Proof. follow controller_unregister. Qed.
Lemma keeps_controller_call c0 params : keeps (later c0) (controller_call params).
Proof. unfold controller_call. keep. Qed.
End lifecycles.

(** ** Durability *)

Section durable.
Context {P : Platform}.

Lemma acks_session_put params : acks (session_put params).
Proof. unfold session_put. ack. Qed.
Lemma acks_session_handoff : acks session_handoff.
Proof. unfold session_handoff. ack. Qed.
Lemma acks_session_get params : acks (session_get params).
Proof. unfold session_get. ack. Qed.
Lemma acks_session_list : acks session_list.
Proof. unfold session_list. ack. Qed.
Lemma acks_session_transition params : acks (session_transition params).
Proof. unfold session_transition. ack. Qed.
Lemma acks_artifact_put params : acks (artifact_put params).
Proof. unfold artifact_put. ack. Qed.
Lemma acks_artifact_get params : acks (artifact_get params).
Proof. unfold artifact_get. ack. Qed.
Lemma acks_artifact_list : acks artifact_list.
Proof. unfold artifact_list. ack. Qed.
Lemma acks_generation_put params : acks (generation_put params).
Proof. unfold generation_put. ack. Qed.
Lemma acks_generation_get params : acks (generation_get params).
Proof. unfold generation_get. ack. Qed.
Lemma acks_generation_list : acks generation_list.
Proof. unfold generation_list. ack. Qed.
Lemma acks_agent_put params : acks (agent_put params).
Proof. unfold agent_put. ack. Qed.
Lemma acks_agent_get params : acks (agent_get params).
Proof. unfold agent_get. ack. Qed.
Lemma acks_agent_list : acks agent_list.
Proof. unfold agent_list. ack. Qed.
Lemma acks_agent_transition params : acks (agent_transition params).
Proof. unfold agent_transition. ack. Qed.
Lemma acks_executor_put params : acks (executor_put params).
Proof. unfold executor_put. ack. Qed.
Lemma acks_executor_list : acks executor_list.
Proof. unfold executor_list. ack. Qed.
Lemma acks_executor_register params : acks (executor_register params).
Proof. unfold executor_register. ack. Qed.
Lemma acks_executor_remove params : acks (executor_remove params).
Proof. unfold executor_remove. ack. Qed.
Lemma acks_controller_list : acks controller_list.
Proof. unfold controller_list. ack. Qed.
Lemma acks_controller_register params : acks (controller_register params).
Proof. unfold controller_register. ack. Qed.
Lemma acks_controller_call params : acks (controller_call params).
Proof. unfold controller_call. ack. Qed.

(** Removing nothing leaves the vector as it is. *)
Lemma bfilter_same_length {A} (p : A -> bool) l : length (bfilter p l) = length l -> bfilter p l = l.
Proof.
  intros Hl. induction l as [|x l IH]; [done|]. simpl in *.
  pose proof (sublist_length _ _ (bfilter_sublist p l)).
  destruct (p x); simpl in *; [|lia]. by rewrite IH by lia.
Qed.

Lemma acks_executor_unregister params : acks (executor_unregister params).
Proof.
  intros c w a c' w' Hrun Hc. unfold executor_unregister in Hrun. ok_inv Hrun.
  case_bool_decide as Hlen; cbn [negb] in *; [|by eapply syncs_persist].
  match goal with Hm : mret _ _ _ = _ |- _ => ok_inv Hm end. unfold synced in *. cbn in *. unfold without_executor.
  rewrite bfilter_same_length by done. by destruct c as [? ? []].
Qed.
Lemma acks_controller_unregister params : acks (controller_unregister params).
Proof.
  intros c w a c' w' Hrun Hc. unfold controller_unregister in Hrun. ok_inv Hrun.
  case_bool_decide as Hlen; cbn [negb] in *; [|by eapply syncs_persist].
  match goal with Hm : mret _ _ _ = _ |- _ => ok_inv Hm end. unfold synced in *. cbn in *. unfold without_peer.
  rewrite bfilter_same_length by done. by destruct c as [? ? []].
Qed.
End durable.
End Registry.

#[export] Hint Resolve
  Registry.keeps_session_put Registry.keeps_session_handoff Registry.keeps_session_get Registry.keeps_session_list Registry.keeps_session_transition Registry.keeps_artifact_put Registry.keeps_artifact_get Registry.keeps_artifact_list Registry.keeps_generation_put Registry.keeps_generation_get Registry.keeps_generation_list Registry.keeps_agent_put Registry.keeps_agent_get Registry.keeps_agent_list Registry.keeps_agent_transition Registry.keeps_executor_put Registry.keeps_executor_list Registry.keeps_executor_register Registry.keeps_executor_unregister Registry.keeps_executor_remove Registry.keeps_controller_list Registry.keeps_controller_register Registry.keeps_controller_unregister Registry.keeps_controller_call : keeps.
#[export] Hint Resolve
  Registry.acks_session_put Registry.acks_session_handoff Registry.acks_session_get Registry.acks_session_list Registry.acks_session_transition Registry.acks_artifact_put Registry.acks_artifact_get Registry.acks_artifact_list Registry.acks_generation_put Registry.acks_generation_get Registry.acks_generation_list Registry.acks_agent_put Registry.acks_agent_get Registry.acks_agent_list Registry.acks_agent_transition Registry.acks_executor_put Registry.acks_executor_list Registry.acks_executor_register Registry.acks_executor_unregister Registry.acks_executor_remove Registry.acks_controller_list Registry.acks_controller_register Registry.acks_controller_unregister Registry.acks_controller_call : acks.
