(* ===== verification/Approvals.v ===== *)
(** * Approvals, read grants and operators ([crates/workbench-runtime/src/controller.rs])

    Who may do what: [approval.*] for dangerous commands, [read-grant.*] for
    roots outside an executor's own, [operator.grant] and [operator.nonce] for
    forced actions. *)

From Stdlib Require Import String.
From S2P Require Import Prelude RustStd History Json Protocol Schema Store Leases Tasks.
From S2P Require Import Contracts Lifecycles Controller Samples Registry.

Module Approvals.
Import Controller.

Section handlers.
Context {P : Platform}.

(** ** Approvals *)

Definition approval_is (approval_id : string) (a : Approval.t) : bool :=
  bool_decide (Approval.id a = approval_id).

(** Pending or approved, for this digest and owner. *)
Definition same_request (digest owner : string) (a : Approval.t) : bool :=
  bool_decide (Approval.digest a = digest) && bool_decide (Approval.owner a = owner)
  && match Approval.state a with ApprovalState.Pending | ApprovalState.Approved => true | _ => false end.

Definition approval_request (params : Value) : handler Value :=
  digest ← lift (required_str params "digest");
  owner ← lift (required_str params "owner");
  c ← get;
  match bfind (same_request digest owner) (WorkbenchState.approvals (state c)) with
  | Some existing => mret (to_value existing)
  | None =>
      u ← fresh_uuid;
      reason ← lift (required_str params "reason");
      n ← now;
      let approval := Approval.mk ("approval_" +:+ u) digest owner reason ApprovalState.Pending n
                        None None None in
      modify_state (fun s => WorkbenchState.with_approvals (WorkbenchState.approvals s ++ [approval]) s) ;;
      persist ;;
      mret (to_value approval)
  end.

Definition approval_list : handler Value :=
  c ← get; mret (list_value (WorkbenchState.approvals (state c))).

(** [approval.state = Approved; approved_at = Some(n); expires_at = Some(n + ttl)] *)
Definition approved (n ttl : Z) (a : Approval.t) : Approval.t :=
  Approval.mk (Approval.id a) (Approval.digest a) (Approval.owner a) (Approval.reason a)
    ApprovalState.Approved (Approval.created_at a) (Some n) (Approval.consumed_at a)
    (Some (u64_saturating_add n ttl)).
Definition withdrawn (a : Approval.t) : Approval.t :=
  Approval.mk (Approval.id a) (Approval.digest a) (Approval.owner a) (Approval.reason a)
    ApprovalState.Revoked (Approval.created_at a) (Approval.approved_at a) (Approval.consumed_at a)
    (Approval.expires_at a).

(** ["approval.approve" | "approval.revoke"] *)
Definition approval_decide (action : string) (params : Value) : handler Value :=
  approval_id ← lift (required_str params "approvalId");
  c ← get;
  approval ← lift (ok_or (RpcError.new "APPROVAL_NOT_FOUND" ("unknown approval: " +:+ approval_id))
                     (bfind (approval_is approval_id) (WorkbenchState.approvals (state c))));
  change ← (if decide (action = "approval.approve") then
              guard (bool_decide (Approval.state approval = ApprovalState.Pending))
                (RpcError.new "APPROVAL_NOT_PENDING" "approval is not pending") ;;
              n ← now;
              mret (approved n (ttl_ms params))
            else mret withdrawn : handler (Approval.t -> Approval.t));
  modify_state (fun s => WorkbenchState.with_approvals
    (update_first (approval_is approval_id) change (WorkbenchState.approvals s)) s) ;;
  persist ;;
  mret (to_value (change approval)).

(** ** Read grants *)

Definition unknown_grant (id : string) : RpcError.t :=
  RpcError.new "READ_GRANT_NOT_FOUND" ("unknown read grant: " +:+ id).

(** The grant covers [path] for [capability] in this session, on this executor. *)
Definition grant_covers (controller_id executor_id workspace capability path : string)
    (g : ReadGrant.t) : bool :=
  bool_decide (ReadGrant.workspace_session_id g = workspace)
  && bool_decide ((vget (ReadGrant.audit g) "sessionControllerId" ≫= as_str) = Some controller_id)
  && bool_decide (ReadGrant.executor_id g = executor_id)
  && bool_decide (ReadGrant.state g = ReadGrantState.Approved)
  && bool_decide (capability ∈ ReadGrant.capabilities g)
  && FsPath.starts_with (ReadGrant.real_root g) path.

(** [grant.workspace_session_id = workspace] *)
Definition with_workspace (workspace : string) (g : ReadGrant.t) : ReadGrant.t :=
  ReadGrant.mk (ReadGrant.id g) workspace (ReadGrant.executor_id g) (ReadGrant.requested_root g)
    (ReadGrant.real_root g) (ReadGrant.capabilities g) (ReadGrant.state g) (ReadGrant.requested_by g)
    (ReadGrant.created_at g) (ReadGrant.approved_at g) (ReadGrant.revoked_at g)
    (ReadGrant.approved_by g) (ReadGrant.audit g).

Definition find_read_grant (executor_id workspace capability path : string) :
    handler (option ReadGrant.t) :=
  c ← get;
  match bfind (grant_covers (id c) executor_id workspace capability path)
          (WorkbenchState.read_grants (state c)) with
  | Some grant => mret (Some grant)
  | None =>
      scope ← session_scope workspace;
      value ← call_registered_executor executor_id "read-grant.find"
                (json_object [("workspaceSessionId", VString scope); ("capability", VString capability);
                              ("path", VString path)]);
      if is_null value then mret None
      else
        grant ← lift (map_err (RpcError.new "INVALID_READ_GRANT") (from_value value));
        let grant := with_workspace workspace grant in
        modify_state (fun s => WorkbenchState.with_read_grants
          (bfilter (fun g => negb (Registry.grant_is (ReadGrant.id grant) g)) (WorkbenchState.read_grants s)
           ++ [grant]) s) ;;
        persist ;;
        mret (Some grant)
  end.

Definition granted_capabilities : list string :=
  ["filesystem.resolve"; "filesystem.stat"; "filesystem.list"; "filesystem.read"; "filesystem.search"].

Definition read_grant_request (params : Value) : handler Value :=
  workspace ← lift (required_str params "workspaceSessionId");
  executor ← lift (required_str params "executorId");
  requested_root ← lift (required_str params "requestedRoot");
  resolved ← call_registered_executor executor "read-grant.resolve"
               (json_object [("requestedRoot", VString requested_root)]);
  real_root ← lift (required_str resolved "realRoot");
  found ← find_read_grant executor workspace "filesystem.read" real_root;
  match found with
  | Some grant => mret (to_value grant)
  | None =>
      c ← get;
      match bfind (fun g => bool_decide (ReadGrant.workspace_session_id g = workspace)
                            && bool_decide (ReadGrant.executor_id g = executor)
                            && bool_decide (ReadGrant.state g = ReadGrantState.Requested)
                            && bool_decide (ReadGrant.real_root g = real_root))
              (WorkbenchState.read_grants (state c)) with
      | Some grant => mret (to_value grant)
      | None =>
          n ← now;
          u ← fresh_uuid;
          requested_by ← lift (required_str params "requestedBy");
          let grant := ReadGrant.mk ("read_grant_" +:+ u) workspace executor requested_root real_root
                         granted_capabilities ReadGrantState.Requested requested_by n None None None
                         (default (VObject []) (vget params "audit")) in
          modify_state (fun s => WorkbenchState.with_read_grants (WorkbenchState.read_grants s ++ [grant]) s) ;;
          persist ;;
          mret (to_value grant)
      end
  end.

(** The assignments of [read-grant.approve]. *)
Definition granted (n : Z) (approver : string) (audit : Value) (g : ReadGrant.t) : ReadGrant.t :=
  ReadGrant.mk (ReadGrant.id g) (ReadGrant.workspace_session_id g) (ReadGrant.executor_id g)
    (ReadGrant.requested_root g) (ReadGrant.real_root g) (ReadGrant.capabilities g)
    ReadGrantState.Approved (ReadGrant.requested_by g) (ReadGrant.created_at g) (Some n)
    (ReadGrant.revoked_at g) (Some approver) audit.

Definition read_grant_approve (params : Value) : handler Value :=
  grant_id ← lift (required_str params "grantId");
  approver ← lift (required_str params "approvedBy");
  c ← get;
  grant ← lift (ok_or (unknown_grant grant_id)
                  (bfind (Registry.grant_is grant_id) (WorkbenchState.read_grants (state c))));
  guard (bool_decide (ReadGrant.state grant = ReadGrantState.Requested))
    (RpcError.new "INVALID_READ_GRANT_STATE" "only requested grants can be approved") ;;
  n ← now;
  audit ← set_field (ReadGrant.audit grant) "sessionControllerId" (VString (id c));
  let grant := granted n approver audit grant in
  scope ← session_scope (ReadGrant.workspace_session_id grant);
  _ ← call_registered_executor (ReadGrant.executor_id grant) "read-grant.approve"
        (to_value (with_workspace scope grant));
  c ← get;
  _ ← lift (expect (bfind (Registry.grant_is grant_id) (WorkbenchState.read_grants (state c))));
  modify_state (fun s => WorkbenchState.with_read_grants
    (update_first (Registry.grant_is grant_id) (fun _ => grant) (WorkbenchState.read_grants s)) s) ;;
  persist ;;
  mret (to_value grant).

Definition read_grant_list (params : Value) : handler Value :=
  c ← get;
  let workspace := str_param params "workspaceSessionId" in
  let executor := str_param params "executorId" in
  let matches filter value := from_option (fun v => bool_decide (v = value)) true filter in
  mret (list_value
    (bfilter (fun g => matches workspace (ReadGrant.workspace_session_id g)
                       && matches executor (ReadGrant.executor_id g))
       (WorkbenchState.read_grants (state c)))).

Definition read_grant_revoke (params : Value) : handler Value :=
  grant_id ← lift (required_str params "grantId");
  c ← get;
  grant ← lift (ok_or (unknown_grant grant_id)
                  (bfind (Registry.grant_is grant_id) (WorkbenchState.read_grants (state c))));
  _ ← call_registered_executor (ReadGrant.executor_id grant) "read-grant.revoke"
        (json_object [("grantId", VString grant_id)]);
  c ← get;
  grant ← lift (expect (bfind (Registry.grant_is grant_id) (WorkbenchState.read_grants (state c))));
  n ← now;
  modify_state (fun s => WorkbenchState.with_read_grants
    (update_first (Registry.grant_is grant_id) (Registry.revoked n) (WorkbenchState.read_grants s)) s) ;;
  persist ;;
  mret (to_value (Registry.revoked n grant)).

(** ** Operators *)

Definition operator_actions : list string :=
  ["cancel-task"; "stop-process"; "retry-task"; "restart-process"; "driver-acquire";
   "driver-handoff"; "driver-release"; "approval-approve"; "approval-revoke"].

Definition required_operator_action (params : Value) : outcome RpcError.t string :=
  action ← required_str params "action";
  if decide (action ∈ operator_actions) then Ok action
  else Err (RpcError.new "OPERATOR_ACTION_NOT_ALLOWED" "operator action is not in the fixed allowlist").

Definition force_action (action : string) : bool :=
  bool_decide (action ∈ ["cancel-task"; "stop-process"]).

Definition required_force_action (params : Value) : outcome RpcError.t string :=
  action ← required_operator_action params;
  if force_action action then Ok action
  else Err (RpcError.new "OPERATOR_ACTION_NOT_ALLOWED"
              "only cancel-task and stop-process support force actions").

Definition operator_grant (params : Value) : handler Value :=
  operator_id ← lift (required_str params "operatorId");
  u ← fresh_uuid;
  let token := "grant_" +:+ u in
  n ← now;
  let expires_at := u64_add n (Z.min (ttl_ms params) 3600000) in
  modify (fun c => set_operator_grants
    (<[operator_id := OperatorGrant.mk operator_id (sha256_bytes token) expires_at]> (operator_grants c)) c) ;;
  mret (json_object [("operatorId", VString operator_id); ("grantToken", VString token);
                     ("expiresAt", vnat expires_at)]).

(** [values().find(|g| g.token_digest == digest && g.expires_at > now_ms())];
    a [HashMap] has no order of its own, the map's stands in for it. *)
Fixpoint find_operator (digest : string) (grants : list OperatorGrant.t) : handler (option OperatorGrant.t) :=
  match grants with
  | [] => mret None
  | g :: grants' =>
      if decide (OperatorGrant.token_digest g = digest) then
        n ← now;
        if OperatorGrant.expires_at g >? n then mret (Some g) else find_operator digest grants'
      else find_operator digest grants'
  end.

Definition authenticate_operator (grant_token : string) : handler OperatorGrant.t :=
  c ← get;
  found ← find_operator (sha256_bytes grant_token) (map_to_list (operator_grants c)).*2;
  lift (ok_or (RpcError.new "OPERATOR_GRANT_INVALID" "operator grant is invalid or expired") found).

Definition operator_nonce (params : Value) : handler Value :=
  grant_token ← lift (required_str params "grantToken");
  action ← lift (required_force_action params);
  target ← lift (required_str params "target");
  reason ← lift (required_str params "reason");
  guard (bool_decide ((vget params "confirmed" ≫= as_bool) = Some true))
    (RpcError.new "CONFIRMATION_REQUIRED" "operator action requires explicit confirmation") ;;
  operator ← authenticate_operator grant_token;
  u ← fresh_uuid;
  let nonce := "nonce_" +:+ u in
  n ← now;
  let expires_at := u64_add n 60000 in
  modify (fun c => set_operator_nonces
    (<[nonce := OperatorNonce.mk (OperatorGrant.operator_id operator) action target
                  (Str.take_chars 500 reason) expires_at]> (operator_nonces c)) c) ;;
  mret (json_object [("actionNonce", VString nonce); ("action", VString action);
                     ("target", VString target); ("expiresAt", vnat expires_at)]).

(** The first half of a forced [operator.action]: the nonce is taken out of the
    table before it is looked at. *)
Definition consume_nonce (nonce_id action target : string) : handler OperatorNonce.t :=
  c ← get;
  modify (fun c => set_operator_nonces (delete nonce_id (operator_nonces c)) c) ;;
  nonce ← lift (ok_or (RpcError.new "ACTION_NONCE_INVALID" "action nonce is missing or already consumed")
                  (operator_nonces c !! nonce_id));
  n ← now;
  guard (negb ((OperatorNonce.expires_at nonce <=? n)
               || negb (bool_decide (OperatorNonce.action nonce = action))
               || negb (bool_decide (OperatorNonce.target nonce = target))))
    (RpcError.new "ACTION_NONCE_INVALID" "action nonce is expired or does not match target") ;;
  mret nonce.
End handlers.

(** ** Lifecycles and durability *)

Section lifecycles.
Context {P : Platform}.

(** An approval found under its identifier is found there ever after. *)
Lemma approval_found_later c c' i a :
  later c c' -> bfind (approval_is i) (WorkbenchState.approvals (state c)) = Some a ->
  exists a', bfind (approval_is i) (WorkbenchState.approvals (state c')) = Some a' /\ approval_step a a'.
Proof.
  intros Hl. apply evolves_bfind; [|apply Hl]. intros y y' (Ht & _). unfold approval_is.
  by replace (Approval.id y') with (Approval.id y) by (unfold approval_terms in Ht; congruence).
Qed.

Lemma keeps_approval_request c0 params : keeps (later c0) (approval_request params).
Proof. follow approval_request. etrans; [done|]. by apply later_with_approvals, evolves_push, _. Qed.
Lemma acks_approval_request params : acks (approval_request params).
Proof. unfold approval_request. ack. Qed.
Lemma keeps_approval_list c0 : keeps (later c0) approval_list.
Proof. unfold approval_list. keep. Qed.
Lemma acks_approval_list : acks approval_list.
Proof. unfold approval_list. ack. Qed.

Lemma approved_step n ttl a :
  Approval.state a = ApprovalState.Pending -> approval_step a (approved n ttl a).
Proof. intros Ha. split_and!; [done| |done]. apply rtc_once. left. by split. Qed.
Lemma withdrawn_step a : approval_step a (withdrawn a).
Proof. split_and!; [done| |done]. apply rtc_once. by right; right. Qed.

Lemma keeps_approval_decide c0 action params : keeps (later c0) (approval_decide action params).
Proof.
  follow approval_decide; (etrans; [done|]);
    apply later_with_approvals, evolves_update_first; try apply _; intros a Ha.
  - apply approved_step.
    match goal with H : bool_decide _ = true |- _ => apply bool_decide_eq_true in H as Hp end.
    match goal with H : ok_or _ _ = Ok _ |- _ => apply ok_or_Ok in H end. congruence.
  - apply withdrawn_step.
Qed.
Lemma acks_approval_decide action params : acks (approval_decide action params).
Proof. unfold approval_decide. ack. Qed.

Lemma keeps_find_read_grant c0 e s cap p : keeps (later c0) (find_read_grant e s cap p).
Proof. follow find_read_grant. Qed.
Lemma acks_find_read_grant e s cap p : acks (find_read_grant e s cap p).
Proof. unfold find_read_grant. ack. Qed.
#[local] Hint Resolve keeps_find_read_grant : keeps.
#[local] Hint Resolve acks_find_read_grant : acks.
Lemma keeps_read_grant_request c0 params : keeps (later c0) (read_grant_request params).
Proof. follow read_grant_request. Qed.
Lemma acks_read_grant_request params : acks (read_grant_request params).
Proof. unfold read_grant_request. ack. Qed.
Lemma keeps_read_grant_approve c0 params : keeps (later c0) (read_grant_approve params).
Proof. follow read_grant_approve. Qed.
Lemma acks_read_grant_approve params : acks (read_grant_approve params).
Proof. unfold read_grant_approve. ack. Qed.
Lemma keeps_read_grant_list c0 params : keeps (later c0) (read_grant_list params).
Proof. unfold read_grant_list. keep. Qed.
Lemma acks_read_grant_list params : acks (read_grant_list params).
Proof. unfold read_grant_list. ack. Qed.
Lemma keeps_read_grant_revoke c0 params : keeps (later c0) (read_grant_revoke params).
Proof. follow read_grant_revoke. Qed.
Lemma acks_read_grant_revoke params : acks (read_grant_revoke params).
Proof. unfold read_grant_revoke. ack. Qed.

Lemma quiet_find_operator d gs : quiet (find_operator d gs).
Proof. induction gs as [|g gs IH]; simpl; hush; apply IH. Qed.
#[local] Hint Resolve quiet_find_operator : quiet.
Lemma quiet_authenticate_operator tok : quiet (authenticate_operator tok).
Proof. unfold authenticate_operator. hush. Qed.
#[local] Hint Resolve quiet_authenticate_operator quiet_keeps : quiet keeps.

Lemma keeps_operator_grant c0 params : keeps (later c0) (operator_grant params).
Proof. unfold operator_grant. keep. intros c Hc. etrans; [exact Hc|by apply later_same]. Qed.
Lemma acks_operator_grant params : acks (operator_grant params).
Proof. unfold operator_grant. ack. Qed.
Lemma keeps_operator_nonce c0 params : keeps (later c0) (operator_nonce params).
Proof.
  unfold operator_nonce. keep. intros c Hc. etrans; [exact Hc|by apply later_same].
Qed.
Lemma acks_operator_nonce params : acks (operator_nonce params).
Proof. unfold operator_nonce. ack. Qed.
Lemma keeps_consume_nonce c0 n a tg : keeps (later c0) (consume_nonce n a tg).
Proof. unfold consume_nonce. keep. intros c Hc. etrans; [exact Hc|by apply later_same]. Qed.
Lemma acks_consume_nonce n a tg : acks (consume_nonce n a tg).
Proof. unfold consume_nonce. ack. Qed.

(** ** Operator nonces *)

(** A nonce authorizes one action: consuming it succeeds only if the
    controller had issued it, for this very action and target, and it has not
    expired; and whether or not consuming succeeds, no later attempt with the
    same nonce succeeds. *)
Theorem nonce_authorizes_once nonce_id action target c w o c' w' :
  consume_nonce nonce_id action target c w = (o, c', w') ->
  (forall nonce, o = Ok nonce ->
     operator_nonces c !! nonce_id = Some nonce /\ OperatorNonce.action nonce = action /\
     OperatorNonce.target nonce = target /\ clock w (clock_at w) < OperatorNonce.expires_at nonce) /\
  forall action' target' w2, exists e, (consume_nonce nonce_id action' target' c' w2).1.1 = Err e.
Proof.
  intros Hrun. split.
  - intros nonce ->. unfold consume_nonce in Hrun. ok_inv Hrun. simplify_eq.
    repeat match goal with
           | H : ok_or _ _ = Ok _ |- _ => apply ok_or_Ok in H
           | H : negb (_ || _) = true |- _ => apply negb_true_iff, orb_false_iff in H as [[He Ha]%orb_false_iff Ht]
           end.
    apply negb_false_iff, bool_decide_eq_true in Ha, Ht. split_and!; [done..|]. lia.
  - assert (operator_nonces c' !! nonce_id = None) as Hnone.
    { assert (c' = set_operator_nonces (delete nonce_id (operator_nonces c)) c) as ->.
      { unfold consume_nonce in Hrun. run_handler. destruct (operator_nonces c !! nonce_id); cbn in Hrun;
          [destruct (negb (_ || _))|]; by injection Hrun. }
      apply lookup_delete_eq. }
    intros action' target' w2. eexists. unfold consume_nonce. run_handler.
    rewrite Hnone. reflexivity.
Qed.
End lifecycles.

(** ** Witnesses *)

Definition nonce_controller : t :=
  set_operator_nonces {["n1" := OperatorNonce.mk "ops" "cancel-task" "t1" "stuck" 5000]}
    (sample_controller WorkbenchState.default).

Lemma nonce_authorizes_once_witness :
  let run := consume_nonce "n1" "cancel-task" "t1" nonce_controller
               (sample_world (fun _ => true)) in
  is_ok run.1.1 = true /\
  exists e, (consume_nonce "n1" "cancel-task" "t1" run.1.2 run.2).1.1 = Err e.
Proof.
  cbv zeta. split; [vm_compute; reflexivity|].
  destruct (consume_nonce _ _ _ nonce_controller _) as [[o c'] w'] eqn:Hrun.
  exact (proj2 (nonce_authorizes_once _ _ _ _ _ _ _ _ Hrun) "cancel-task" "t1" w').
Defined.
End Approvals.

#[export] Hint Resolve
  Approvals.keeps_approval_request Approvals.keeps_approval_list Approvals.keeps_approval_decide
  Approvals.keeps_find_read_grant Approvals.keeps_read_grant_request
  Approvals.keeps_read_grant_approve Approvals.keeps_read_grant_list
  Approvals.keeps_read_grant_revoke Approvals.keeps_operator_grant Approvals.keeps_operator_nonce
  Approvals.keeps_consume_nonce : keeps.
#[export] Hint Resolve
  Approvals.acks_approval_request Approvals.acks_approval_list Approvals.acks_approval_decide
  Approvals.acks_find_read_grant Approvals.acks_read_grant_request
  Approvals.acks_read_grant_approve Approvals.acks_read_grant_list
  Approvals.acks_read_grant_revoke Approvals.acks_operator_grant Approvals.acks_operator_nonce
  Approvals.acks_consume_nonce : acks.
#[export] Hint Resolve Approvals.quiet_find_operator Approvals.quiet_authenticate_operator : quiet.
