(* ===== verification/Drivers.v ===== *)
(** * Drivers and leases ([crates/workbench-runtime/src/controller.rs])

    One agent at a time drives a workspace: it holds the lease of
    [workspace:<session>].  Another agent asks for the driver with
    [driver.handoff.request]; the current one drains (no new mutation starts,
    tasks and mutations in flight finish), and [driver.handoff.await] passes
    the lease on. *)

From Stdlib Require Import String.
From S2P Require Import Prelude RustStd History Json Protocol Schema Store Leases Tasks.
From S2P Require Import Contracts Lifecycles Controller.

Module Drivers.
Import Controller.

Section handlers.
Context {P : Platform}.

(** ["driver.status" | "lease.status"] *)
Definition lease_status (params : Value) : handler Value :=
  resource ← lift (required_str params "resource");
  c ← get;
  mret (vopt to_value (LeaseTable.get resource (leases c))).

(** ** Draining *)

Definition drains (n : Z) (workspace owner : string) (r : DriverHandoffRequest.t) : bool :=
  bool_decide (DriverHandoffRequest.workspace_session_id r = workspace)
  && bool_decide (DriverHandoffRequest.previous_owner r = Some owner)
  && (DriverHandoffRequest.expires_at r >? n)
  && handoff_open (DriverHandoffRequest.state r).

Definition workspace_is_draining (workspace owner : string) : handler bool :=
  n ← now;
  c ← get;
  mret (existsb (drains n workspace owner) (WorkbenchState.driver_handoff_requests (state c))).

(** [request.state = st] *)
Definition with_request_state (st : DriverHandoffState.t) (r : DriverHandoffRequest.t) : DriverHandoffRequest.t :=
  DriverHandoffRequest.mk (DriverHandoffRequest.id r) (DriverHandoffRequest.workspace_session_id r)
    (DriverHandoffRequest.resource r) (DriverHandoffRequest.requested_by r)
    (DriverHandoffRequest.previous_owner r) st (DriverHandoffRequest.created_at r)
    (DriverHandoffRequest.expires_at r) (DriverHandoffRequest.completed_at r).

Definition busy_task (workspace : string) (task : Task.t) : bool :=
  bool_decide (Task.workspace_session_id task = workspace)
  && match Task.state task with
     | TaskState.Queued | TaskState.Running | TaskState.Cancelling => true
     | _ => false
     end.

Definition mutating (workspace : string) (m : AgentMutationOperation.t) : bool :=
  bool_decide (AgentMutationOperation.workspace_session_id m = workspace).

Definition open_in (workspace : string) (r : DriverHandoffRequest.t) : bool :=
  bool_decide (DriverHandoffRequest.workspace_session_id r = workspace)
  && handoff_open (DriverHandoffRequest.state r).

(** What one turn of the loop of [refresh_driver_handoff] makes of a request. *)
Definition expires (n : Z) (workspace : string) (r : DriverHandoffRequest.t) : bool :=
  open_in workspace r && (DriverHandoffRequest.expires_at r <=? n).
Definition readies (n : Z) (busy : bool) (workspace : string) (r : DriverHandoffRequest.t) : bool :=
  open_in workspace r && negb (DriverHandoffRequest.expires_at r <=? n) && negb busy
  && negb (bool_decide (DriverHandoffRequest.state r = DriverHandoffState.Ready)).
Definition refreshed (n : Z) (busy : bool) (workspace : string) (r : DriverHandoffRequest.t) :
    DriverHandoffRequest.t :=
  if expires n workspace r then with_request_state DriverHandoffState.Expired r
  else if readies n busy workspace r then with_request_state DriverHandoffState.Ready r
  else r.

(** The lease table's side of the expired requests. *)
Fixpoint cancel_expired (rs : list DriverHandoffRequest.t) : handler unit :=
  match rs with
  | [] => mret tt
  | r :: rs' =>
      (match DriverHandoffRequest.previous_owner r with
       | Some _ =>
           ignore_error (cancel_handoff (DriverHandoffRequest.resource r)
                           (DriverHandoffRequest.requested_by r))
       | None => mret tt
       end) ;;
      cancel_expired rs'
  end.

Definition refresh_driver_handoff (workspace : string) : handler unit :=
  n ← now;
  c ← get;
  let task_busy := existsb (busy_task workspace) (TaskTable.snapshot (tasks c)) in
  let busy := task_busy || existsb (mutating workspace) (WorkbenchState.agent_mutations (state c)) in
  let requests := WorkbenchState.driver_handoff_requests (state c) in
  modify_state (fun s => WorkbenchState.with_requests
    (refreshed n busy workspace <$> WorkbenchState.driver_handoff_requests s) s) ;;
  cancel_expired (bfilter (expires n workspace) requests) ;;
  if existsb (fun r => expires n workspace r || readies n busy workspace r) requests
  then persist else mret tt.

Definition driver_handoff_status (params : Value) : handler Value :=
  workspace ← lift (required_str params "workspaceSessionId");
  refresh_driver_handoff workspace ;;
  c ← get;
  mret (vopt to_value
    (max_by_key DriverHandoffRequest.created_at
       (bfilter (fun r => bool_decide (DriverHandoffRequest.workspace_session_id r = workspace))
          (WorkbenchState.driver_handoff_requests (state c))))).

(** ** Mutations in flight *)

Definition mutation_is (operation_id : string) (m : AgentMutationOperation.t) : bool :=
  bool_decide (AgentMutationOperation.id m = operation_id).

Definition agent_mutation_start (params : Value) : handler Value :=
  workspace ← lift (required_str params "workspaceSessionId");
  agent ← lift (required_str params "agentId");
  draining ← workspace_is_draining workspace agent;
  guard (negb draining)
    (RpcError.new "DRIVER_DRAINING" "workspace driver is draining; mutation hook rejected new write") ;;
  operation_id ← lift (required_str params "operationId");
  tool ← lift (required_str params "tool");
  n ← now;
  let operation := AgentMutationOperation.mk operation_id workspace agent tool n in
  c ← get;
  modify_state (fun s => WorkbenchState.with_mutations
    (if existsb (mutation_is operation_id) (WorkbenchState.agent_mutations s)
     then WorkbenchState.agent_mutations s
     else WorkbenchState.agent_mutations s ++ [operation]) s) ;;
  persist ;;
  mret (to_value operation).

Definition agent_mutation_finish (params : Value) : handler Value :=
  operation_id ← lift (required_str params "operationId");
  workspace ← lift (required_str params "workspaceSessionId");
  modify_state (fun s => WorkbenchState.with_mutations
    (bfilter (fun m => negb (mutation_is operation_id m)) (WorkbenchState.agent_mutations s)) s) ;;
  refresh_driver_handoff workspace ;;
  persist ;;
  mret (json_object [("operationId", VString operation_id); ("finished", VBool true)]).

(** ** Handoff requests *)

Definition workspace_resource (workspace : string) : string := "workspace:" +:+ workspace.

Definition driver_handoff_request (params : Value) : handler Value :=
  workspace ← lift (required_str params "workspaceSessionId");
  requester ← lift (required_str params "owner");
  let resource := workspace_resource workspace in
  n ← now;
  c ← get;
  let existing := LeaseTable.get resource (leases c) in
  guard (negb (bool_decide ((Lease.owner <$> existing) = Some requester)))
    (RpcError.new "ALREADY_DRIVER" "requester already owns workspace driver") ;;
  u ← fresh_uuid;
  let request :=
    DriverHandoffRequest.mk ("driver_handoff_" +:+ u) workspace resource requester
      (Lease.owner <$> existing)
      match existing with Some _ => DriverHandoffState.Draining | None => DriverHandoffState.Ready end
      n (u64_saturating_add n (ttl_ms params)) None in
  (match existing with
   | Some _ => _ ← request_handoff resource requester; mret tt
   | None => mret tt
   end) ;;
  modify_state (fun s => WorkbenchState.with_requests
    (WorkbenchState.driver_handoff_requests s ++ [request]) s) ;;
  refresh_driver_handoff workspace ;;
  persist ;;
  mret (to_value request).

Definition requested_in (workspace requester : string) (r : DriverHandoffRequest.t) : bool :=
  bool_decide (DriverHandoffRequest.workspace_session_id r = workspace)
  && bool_decide (DriverHandoffRequest.requested_by r = requester).

Definition awaited (workspace requester : string) (r : DriverHandoffRequest.t) : bool :=
  requested_in workspace requester r
  && match DriverHandoffRequest.state r with
     | DriverHandoffState.Ready | DriverHandoffState.Draining => true
     | _ => false
     end.

Definition no_active_request : RpcError.t :=
  RpcError.new "DRIVER_HANDOFF_NOT_FOUND" "no active handoff request".

(** [request.state = Completed; request.completed_at = Some(n)] *)
Definition completed (n : Z) (r : DriverHandoffRequest.t) : DriverHandoffRequest.t :=
  DriverHandoffRequest.mk (DriverHandoffRequest.id r) (DriverHandoffRequest.workspace_session_id r)
    (DriverHandoffRequest.resource r) (DriverHandoffRequest.requested_by r)
    (DriverHandoffRequest.previous_owner r) DriverHandoffState.Completed
    (DriverHandoffRequest.created_at r) (DriverHandoffRequest.expires_at r) (Some n).

Definition driver_handoff_await (params : Value) : handler Value :=
  workspace ← lift (required_str params "workspaceSessionId");
  requester ← lift (required_str params "owner");
  refresh_driver_handoff workspace ;;
  let resource := workspace_resource workspace in
  c ← get;
  request ← lift (ok_or no_active_request
    (bfind_last (awaited workspace requester) (WorkbenchState.driver_handoff_requests (state c))));
  guard (bool_decide (DriverHandoffRequest.state request = DriverHandoffState.Ready))
    (retryable_error "DRIVER_HANDOFF_DRAINING" "current writer is still draining") ;;
  lease ← match DriverHandoffRequest.previous_owner request with
          | Some _ => take_handoff resource requester (ttl_ms params)
          | None => acquire LeaseKind.Driver resource requester (ttl_ms params)
          end;
  n ← now;
  modify_state (fun s => WorkbenchState.with_requests
    (update_last (awaited workspace requester) (completed n) (WorkbenchState.driver_handoff_requests s)) s) ;;
  persist ;;
  mret (to_value lease).

Definition cancellable (workspace requester : string) (r : DriverHandoffRequest.t) : bool :=
  requested_in workspace requester r && handoff_open (DriverHandoffRequest.state r).

Definition driver_handoff_cancel (params : Value) : handler Value :=
  workspace ← lift (required_str params "workspaceSessionId");
  requester ← lift (required_str params "owner");
  let resource := workspace_resource workspace in
  c ← get;
  request ← lift (ok_or no_active_request
    (bfind_last (cancellable workspace requester) (WorkbenchState.driver_handoff_requests (state c))));
  (match DriverHandoffRequest.previous_owner request with
   | Some _ => _ ← cancel_handoff resource requester; mret tt
   | None => mret tt
   end) ;;
  modify_state (fun s => WorkbenchState.with_requests
    (update_last (cancellable workspace requester)
       (with_request_state DriverHandoffState.Cancelled) (WorkbenchState.driver_handoff_requests s)) s) ;;
  persist ;;
  mret (json_object [("cancelled", VBool true); ("workspaceSessionId", VString workspace)]).

(** ** Leases *)

(** A lease of the owner on another resource that ranks before [resource]. *)
Definition out_of_order (resource owner : string) (held : list Lease.t) : bool :=
  let requested_rank := lease_order_rank resource in
  existsb (fun lease =>
    let held_rank := lease_order_rank (Lease.resource lease) in
    bool_decide (Lease.owner lease = owner) && negb (bool_decide (Lease.resource lease = resource))
    && (held_rank >? 0) && (held_rank <? requested_rank)) held.

(** ["driver.acquire" | "lease.acquire"] *)
Definition lease_acquire (action : string) (params : Value) : handler Value :=
  resource ← lift (required_str params "resource");
  owner ← lift (required_str params "owner");
  c ← get;
  guard (negb (bool_decide (action = "lease.acquire")
               && out_of_order resource owner (LeaseTable.snapshot (leases c))))
    (RpcError.new "LEASE_ORDER_VIOLATION"
       "release workspace driver before runtime lease, and runtime lease before acceptance lease") ;;
  let kind := if Str.starts_with "driver" action then LeaseKind.Driver else LeaseKind.Resource in
  lease ← acquire kind resource owner (ttl_ms params);
  persist ;;
  mret (to_value lease).

(** ["driver.renew" | "lease.renew"] *)
Definition lease_renew (params : Value) : handler Value :=
  resource ← lift (required_str params "resource");
  owner ← lift (required_str params "owner");
  token ← lift (required_str params "token");
  lease ← renew resource owner token (ttl_ms params);
  persist ;;
  mret (to_value lease).

Definition driver_handoff (params : Value) : handler Value :=
  resource ← lift (required_str params "resource");
  owner ← lift (required_str params "owner");
  token ← lift (required_str params "token");
  target ← lift (required_str params "target");
  lease ← handoff resource owner token target;
  persist ;;
  mret (to_value lease).

Definition driver_take (params : Value) : handler Value :=
  resource ← lift (required_str params "resource");
  owner ← lift (required_str params "owner");
  c ← get;
  lease ← match LeaseTable.get resource (leases c) with
          | Some _ => take_handoff resource owner (ttl_ms params)
          | None => acquire LeaseKind.Driver resource owner (ttl_ms params)
          end;
  persist ;;
  mret (to_value lease).

(** ["driver.release" | "lease.release"] *)
Definition lease_release (params : Value) : handler Value :=
  resource ← lift (required_str params "resource");
  owner ← lift (required_str params "owner");
  token ← lift (required_str params "token");
  lease ← release resource owner token;
  persist ;;
  mret (to_value lease).
End handlers.

(** ** Lifecycles *)

Section lifecycles.
Context {P : Platform}.

Lemma with_request_state_step st r :
  driver_next (DriverHandoffRequest.state r) st -> request_step r (with_request_state st r).
Proof. intros Hst. split; [done|]. by apply rtc_once. Qed.

Lemma refreshed_step n busy workspace r : request_step r (refreshed n busy workspace r).
Proof.
  unfold refreshed. destruct (expires n workspace r) eqn:He; [|destruct (readies n busy workspace r) eqn:Hr].
  - apply andb_true_iff in He as [[_ Ho]%andb_true_iff _].
    apply with_request_state_step. left. auto.
  - apply andb_true_iff in Hr as [[[[_ Ho]%andb_true_iff _]%andb_true_iff _]%andb_true_iff _].
    apply with_request_state_step. left. auto.
  - done.
Qed.

Lemma framed_cancel_expired rs : framed (cancel_expired rs).
Proof. induction rs as [|r rs IH]; simpl; frame; exact IH. Qed.
#[local] Hint Resolve framed_cancel_expired : framed.

Lemma keeps_refresh_driver_handoff c0 ws : keeps (later c0) (refresh_driver_handoff ws).
Proof.
  follow refresh_driver_handoff; (etrans; [done|]);
    apply later_with_requests, evolves_fmap; intros r _; apply refreshed_step.
Qed.
#[local] Hint Resolve keeps_refresh_driver_handoff : keeps.

Lemma quiet_workspace_is_draining ws o : quiet (workspace_is_draining ws o).
Proof. unfold workspace_is_draining. hush. Qed.
#[local] Hint Resolve quiet_workspace_is_draining : quiet.

Lemma keeps_lease_status c0 params : keeps (later c0) (lease_status params).
Proof. unfold lease_status. keep. Qed.
Lemma keeps_driver_handoff_status c0 params : keeps (later c0) (driver_handoff_status params).
Proof. unfold driver_handoff_status. keep. Qed.
Lemma keeps_agent_mutation_start c0 params : keeps (later c0) (agent_mutation_start params).
Proof. follow agent_mutation_start. Qed.
Lemma keeps_agent_mutation_finish c0 params : keeps (later c0) (agent_mutation_finish params).
Proof. follow agent_mutation_finish. Qed.
Lemma keeps_driver_handoff_request c0 params : keeps (later c0) (driver_handoff_request params).
Proof.
  follow driver_handoff_request; (etrans; [done|]); by apply later_with_requests, evolves_push, _.
Qed.

Lemma keeps_driver_handoff_await c0 params : keeps (later c0) (driver_handoff_await params).
Proof.
  follow driver_handoff_await; (etrans; [done|]);
    apply later_with_requests, evolves_update_last; try apply _; intros r Hr;
    match goal with Hs : state _ = state _ |- _ => rewrite Hs in Hr end;
    match goal with Hf : ok_or _ _ = Ok _ |- _ => apply ok_or_Ok in Hf end;
    match goal with Hb : bool_decide _ = true |- _ => apply bool_decide_eq_true in Hb as Hready end;
    simplify_eq; (split; [done|]); apply rtc_once; right; done.
Qed.

Lemma keeps_driver_handoff_cancel c0 params : keeps (later c0) (driver_handoff_cancel params).
Proof.
  follow driver_handoff_cancel; (etrans; [done|]);
    apply later_with_requests, evolves_update_last; try apply _; intros r Hr;
    apply bfind_Some in Hr as [[_ Ho]%andb_true_iff _];
    apply with_request_state_step; left; auto.
Qed.
Lemma keeps_lease_acquire c0 action params : keeps (later c0) (lease_acquire action params).
Proof. unfold lease_acquire. keep. Qed.
Lemma keeps_lease_renew c0 params : keeps (later c0) (lease_renew params).
Proof. unfold lease_renew. keep. Qed.
Lemma keeps_driver_handoff c0 params : keeps (later c0) (driver_handoff params).
Proof. unfold driver_handoff. keep. Qed.
Lemma keeps_driver_take c0 params : keeps (later c0) (driver_take params).
Proof. unfold driver_take. keep. Qed.
Lemma keeps_lease_release c0 params : keeps (later c0) (lease_release params).
Proof. unfold lease_release. keep. Qed.
End lifecycles.

(** ** Durability *)

Section durable.
Context {P : Platform}.

(** A refresh that reports no change has made none. *)
Lemma refresh_nothing n busy ws rs :
  existsb (fun r => expires n ws r || readies n busy ws r) rs = false ->
  refreshed n busy ws <$> rs = rs /\ bfilter (expires n ws) rs = [].
Proof.
  induction rs as [|r rs IH]; [done|]. cbn [existsb].
  intros [[He Hr]%orb_false_iff Hrs]%orb_false_iff. destruct (IH Hrs) as [IH1 IH2].
  cbn [bfilter]. rewrite He. split; [|done]. change (refreshed n busy ws r :: (refreshed n busy ws <$> rs) = r :: rs).
  rewrite IH1. unfold refreshed. by rewrite He, Hr.
Qed.

Lemma acks_refresh_driver_handoff ws : acks (refresh_driver_handoff ws).
Proof.
  intros c w a c' w' Hrun Hc. unfold refresh_driver_handoff in Hrun. ok_inv Hrun.
  case_in Hok1; [by eapply syncs_persist|]. ok_inv Hok1.
  match goal with He : existsb _ _ = false |- _ => apply refresh_nothing in He as [Hsame Hnone] end.
  rewrite Hnone in *. cbn [cancel_expired] in *.
  match goal with Hm : mret _ _ _ = _ |- _ => ok_inv Hm end.
  rewrite Hsame. unfold synced in *. destruct c as [? ? []]. done.
Qed.
#[local] Hint Resolve acks_refresh_driver_handoff : acks.

Lemma acks_lease_status params : acks (lease_status params).
Proof. unfold lease_status. ack. Qed.
Lemma acks_driver_handoff_status params : acks (driver_handoff_status params).
Proof. unfold driver_handoff_status. ack. Qed.
Lemma acks_agent_mutation_start params : acks (agent_mutation_start params).
Proof. unfold agent_mutation_start. ack. Qed.
Lemma acks_agent_mutation_finish params : acks (agent_mutation_finish params).
Proof. unfold agent_mutation_finish. ack. Qed.
Lemma acks_driver_handoff_request params : acks (driver_handoff_request params).
Proof. unfold driver_handoff_request. ack. Qed.
Lemma acks_driver_handoff_await params : acks (driver_handoff_await params).
Proof. unfold driver_handoff_await. ack. Qed.
Lemma acks_driver_handoff_cancel params : acks (driver_handoff_cancel params).
Proof. unfold driver_handoff_cancel. ack. Qed.
Lemma acks_lease_acquire action params : acks (lease_acquire action params).
Proof. unfold lease_acquire. ack. Qed.
Lemma acks_lease_renew params : acks (lease_renew params).
Proof. unfold lease_renew. ack. Qed.
Lemma acks_driver_handoff params : acks (driver_handoff params).
Proof. unfold driver_handoff. ack. Qed.
Lemma acks_driver_take params : acks (driver_take params).
Proof. unfold driver_take. ack. Qed.
Lemma acks_lease_release params : acks (lease_release params).
Proof. unfold lease_release. ack. Qed.
End durable.
End Drivers.

#[export] Hint Resolve Drivers.framed_cancel_expired : framed.
#[export] Hint Resolve Drivers.quiet_workspace_is_draining : quiet.
#[export] Hint Resolve
  Drivers.keeps_refresh_driver_handoff Drivers.keeps_lease_status Drivers.keeps_driver_handoff_status
  Drivers.keeps_agent_mutation_start Drivers.keeps_agent_mutation_finish
  Drivers.keeps_driver_handoff_request Drivers.keeps_driver_handoff_await
  Drivers.keeps_driver_handoff_cancel Drivers.keeps_lease_acquire Drivers.keeps_lease_renew
  Drivers.keeps_driver_handoff Drivers.keeps_driver_take Drivers.keeps_lease_release : keeps.
#[export] Hint Resolve
  Drivers.acks_refresh_driver_handoff Drivers.acks_lease_status Drivers.acks_driver_handoff_status
  Drivers.acks_agent_mutation_start Drivers.acks_agent_mutation_finish
  Drivers.acks_driver_handoff_request Drivers.acks_driver_handoff_await
  Drivers.acks_driver_handoff_cancel Drivers.acks_lease_acquire Drivers.acks_lease_renew
  Drivers.acks_driver_handoff Drivers.acks_driver_take Drivers.acks_lease_release : acks.
