(* ===== verification/TaskRpc.v ===== *)
(** * Tasks and ports over RPC ([crates/workbench-runtime/src/controller.rs])

    The [task.*] handlers around the task table, and the two [port.*] handlers
    and [executor.call], which speak to executors under leases the executors
    themselves issue. *)

From Stdlib Require Import String.
From S2P Require Import Prelude RustStd History Json Protocol Schema Store Leases Tasks.
From S2P Require Import Contracts Lifecycles Controller.

Module TaskRpc.
Import Controller.

Section handlers.
Context {P : Platform}.

(** ** Tasks *)

Definition unknown_task (task_id : string) : RpcError.t :=
  RpcError.new "TASK_NOT_FOUND" ("unknown task: " +:+ task_id).

Definition find_task (task_id : string) : handler Task.t :=
  c ← get; lift (ok_or (unknown_task task_id) (TaskTable.get task_id (tasks c))).

Definition task_submit (params : Value) : handler Value :=
  '(correlation_id, request_id) ← current_trace;
  session ← lift (required_str params "workspaceSessionId");
  executor ← lift (required_str params "executorId");
  capability ← lift (required_str params "capability");
  key ← lift (required_str params "idempotencyKey");
  '(task, reused) ← submit_traced session executor capability (default VNull (vget params "input")) key
                      correlation_id request_id;
  persist ;;
  observe_task_state task ;;
  mret (json_object [("task", to_value task); ("reused", VBool reused)]).

Definition task_get (params : Value) : handler Value :=
  task_id ← lift (required_str params "taskId");
  task ← find_task task_id;
  mret (to_value task).

Definition task_list : handler Value := c ← get; mret (list_value (TaskTable.snapshot (tasks c))).

Definition task_events (params : Value) : handler Value :=
  task_id ← lift (required_str params "taskId");
  task ← find_task task_id;
  mret (json_object [("taskId", VString task_id); ("events", list_value (Task.events task))]).

(** The polling loop, for at most [fuel] polls; other requests run between two
    polls in the program, none does here. *)
Fixpoint task_wait_loop (fuel : nat) (task_id : string) (deadline : Z) : handler Value :=
  match fuel with
  | O => lift Panic
  | S fuel' =>
      task ← find_task task_id;
      if TaskState.terminal (Task.state task) then mret (to_value task)
      else
        n ← now;
        if n >=? deadline
        then throw (RpcError.new "TASK_WAIT_TIMEOUT"
                      ("task " +:+ task_id +:+ " did not finish before timeout"))
        else task_wait_loop fuel' task_id deadline
  end.

Definition task_wait (fuel : nat) (params : Value) : handler Value :=
  task_id ← lift (required_str params "taskId");
  let timeout_ms := Z.min (default 30000 (u64_param params "timeoutMs")) 3600000 in
  n ← now;
  task_wait_loop fuel task_id (n + timeout_ms).

Definition task_retry (params : Value) : handler Value :=
  task_id ← lift (required_str params "taskId");
  task ← retry (fun e => RpcError.new "TASK_NOT_RETRYABLE" (task_error_text e)) task_id;
  persist ;;
  observe_task_state task ;;
  mret (to_value task).

Definition failure_of (e : RpcError.t) : TaskFailure.t :=
  TaskFailure.mk (RpcError.code e) (RpcError.message e) (RpcError.retryable e) (RpcError.details e).

Definition process_of (task : Task.t) : option string :=
  match str_param (Task.input task) "processId" with
  | Some p => Some p
  | None => output ← Task.output task; str_param output "id"
  end.

Definition stop_process (task : Task.t) : handler Value :=
  match process_of task with
  | Some process_id =>
      call_registered_executor (Task.executor_id task) "process.stop"
        (json_object [("processId", VString process_id)])
  | None => throw (RpcError.new "TASK_PROCESS_NOT_REGISTERED" "running task has no registered processId")
  end.

Definition task_cancel (params : Value) : handler Value :=
  guard (bool_decide ((vget params "_operatorAuthorized" ≫= as_bool) = Some true))
    (RpcError.new "OPERATOR_REQUIRED" "task cancellation requires an operator nonce") ;;
  task_id ← lift (required_str params "taskId");
  task ← find_task task_id;
  if TaskState.terminal (Task.state task) then mret (to_value task)
  else if decide (Task.state task = TaskState.Queued) then
    task ← transition task_id TaskState.Cancelled None None;
    persist ;;
    observe_task_state task ;;
    mret (to_value task)
  else
    cancel_requested ← transition task_id TaskState.CancelRequested None None;
    observe_task_state cancel_requested ;;
    cancelling ← transition task_id TaskState.Cancelling None None;
    observe_task_state cancelling ;;
    persist ;;
    stop_result ← attempt (stop_process task);
    let '(st, error) := match stop_result with
                        | inr _ => (TaskState.Cancelled, None)
                        | inl error => (TaskState.FailedToCancel, Some (failure_of error))
                        end in
    task ← transition task_id st None error;
    persist ;;
    observe_task_state task ;;
    mret (to_value task).

Definition prune_terminal_before (cutoff : Z) : handler (list Task.t) :=
  task_op invalid_task_state (fun T =>
    let '(removed, T') := TaskTable.prune_terminal_before cutoff T in (Ok removed, T')).

Definition task_prune (params : Value) : handler Value :=
  cutoff ← match u64_param params "before" with Some n => mret n | None => now end;
  removed ← prune_terminal_before cutoff;
  persist ;;
  mret (json_object [("pruned", vnat (Z.of_nat (length removed)));
                     ("taskIds", VArray ((fun t => VString (Task.id t)) <$> removed))]).

Definition task_transition (params : Value) : handler Value :=
  st ← lift (ok_or (RpcError.new "INVALID_PARAMS" "state is required") (vget params "state"));
  st ← lift (invalid_params (from_value st));
  task_id ← lift (required_str params "taskId");
  task ← transition task_id st (vget params "output") None;
  persist ;;
  observe_task_state task ;;
  mret (to_value task).

(** ** Ports *)

Definition offers (capability : string) (e : Executor.t) : bool :=
  existsb (fun c => bool_decide (CapabilityDescriptor.name c = capability)) (Executor.capabilities e).

Fixpoint list_ports (params : Value) (executors : list Executor.t) (found : list Value) : handler Value :=
  match executors with
  | [] => mret (VArray found)
  | e :: executors' =>
      let executor_id := Metadata.id (Executor.metadata e) in
      if from_option (fun v => negb (bool_decide (v = executor_id))) false (str_param params "executorId")
      then list_ports params executors' found
      else
        value ← call_registered_executor executor_id "resource.lease.list"
                  (json_object [("prefix", VString "port:")]);
        list_ports params executors' (found ++ default [] (as_array value))
  end.

Definition port_list (params : Value) : handler Value :=
  c ← get;
  list_ports params (bfilter (offers "port.check") (WorkbenchState.executors (state c))) [].

Definition port_resource (executor_id : string) (port : Z) : string :=
  "port:" +:+ executor_id +:+ ":" +:+ pretty port.

(** The search from [port] on, over [n] ports. *)
Fixpoint try_ports (n : nat) (port : Z) (params : Value) (executor_id owner qualified_owner : string)
    (exhausted : RpcError.t) : handler Value :=
  match n with
  | O => throw exhausted
  | S n' =>
      let resource := port_resource executor_id port in
      acquired ← attempt (call_registered_executor executor_id "resource.lease.acquire"
        (json_object [("resource", VString resource); ("owner", VString qualified_owner);
                      ("ttlMs", vnat (ttl_ms params))]));
      match acquired with
      | inl error =>
          if decide (RpcError.code error = "RESOURCE_BUSY")
          then try_ports n' (port + 1) params executor_id owner qualified_owner exhausted
          else throw error
      | inr lease =>
          checked ← attempt (call_registered_executor executor_id "port.check"
                               (json_object [("port", vnat port)]));
          let available := match checked with
                           | inr v => bool_decide ((vget v "available" ≫= as_bool) = Some true)
                           | inl _ => false
                           end in
          if available then
            lease ← set_field lease "owner" (VString owner);
            mret (json_object [("executorId", VString executor_id); ("port", vnat port); ("lease", lease)])
          else
            ignore_error (call_registered_executor executor_id "resource.lease.release"
              (json_object [("resource", VString resource); ("owner", VString qualified_owner);
                            ("token", vindex lease "token")])) ;;
            match checked with
            | inl error => throw error
            | inr _ => try_ports n' (port + 1) params executor_id owner qualified_owner exhausted
            end
      end
  end.

Definition port_allocate (params : Value) : handler Value :=
  executor_id ← lift (required_str params "executorId");
  owner ← lift (required_str params "owner");
  qualified_owner ← resource_owner owner;
  let first := default 20000 (u64_param params "start") in
  let last := default 40000 (u64_param params "end") in
  guard (negb ((first =? 0) || (last >? 65535) || (first >? last)))
    (RpcError.new "INVALID_PARAMS" "invalid port range") ;;
  try_ports (Z.to_nat (last - first + 1)) first params executor_id owner qualified_owner
    (RpcError.new "PORT_UNAVAILABLE"
       ("no available port in " +:+ pretty first +:+ "..=" +:+ pretty last)).

(** ** Calls with leases *)

(** One element of [leases]: its authority, and the grant an executor issued. *)
Definition lease_authority (executor_id : string) (item : Value) : handler (Value * list Value) :=
  resource ← lift (required_str item "resource");
  owner ← lift (required_str item "owner");
  token ← lift (required_str item "token");
  c ← get;
  '(lease, grants) ←
    (match resource_executor (json_object [("resource", VString resource)])
             (WorkbenchState.executors (state c)) with
     | Some _ =>
         qualified ← resource_owner owner;
         let grant := json_object [("resource", VString resource); ("owner", VString qualified);
                                   ("token", VString token)] in
         value ← call_registered_executor executor_id "resource.lease.validate" grant;
         lease ← lift (map_err (RpcError.new "INVALID_LEASE") (from_value value));
         mret (lease, [grant])
     | None => lease ← validate resource owner token; mret (lease, [])
     end : handler (Lease.t * list Value));
  mret (json_object [("controllerId", VString (id c)); ("resource", VString (Lease.resource lease));
                     ("fence", vnat (Lease.fence lease))], grants).

Fixpoint lease_authorities (executor_id : string) (items : list Value) : handler (list Value * list Value) :=
  match items with
  | [] => mret ([], [])
  | item :: items' =>
      '(authority, grants) ← lease_authority executor_id item;
      '(authorities, grants') ← lease_authorities executor_id items';
      mret (authority :: authorities, grants ++ grants')
  end.

Definition lease_params (params : Value) : option (list Value) :=
  match vget params "leases" ≫= as_array with
  | Some items => Some items
  | None =>
      (fun resource => [json_object [("resource", resource); ("owner", default VNull (vget params "owner"));
                                     ("token", default VNull (vget params "token"))]])
        <$> vget params "leaseResource"
  end.

Definition executor_call (params : Value) : handler Value :=
  executor_id ← lift (required_str params "executorId");
  executor ← find_executor (unknown_executor executor_id) executor_id;
  action ← lift (required_str params "action");
  let nested := default VNull (vget params "params") in
  nested ← match lease_params params with
           | Some items =>
               '(authorities, grants) ← lease_authorities executor_id items;
               nested ← set_field nested "_resourceLeases" (VArray grants);
               set_field nested "_authority" (VArray authorities)
           | None => mret nested
           end;
  call_endpoint (Executor.endpoint executor) action nested
    (retryable_error "EXECUTOR_UNAVAILABLE") executor_failed.
End handlers.

(** ** Lifecycles and durability *)

Section lifecycles.
Context {P : Platform}.

Lemma quiet_find_task tid : quiet (find_task tid).
Proof. unfold find_task. hush. Qed.
#[local] Hint Resolve quiet_find_task : quiet.
Lemma quiet_task_get params : quiet (task_get params).
Proof. unfold task_get. hush. Qed.
Lemma quiet_task_list : quiet task_list.
Proof. unfold task_list. hush. Qed.
Lemma quiet_task_events params : quiet (task_events params).
Proof. unfold task_events. hush. Qed.
Lemma quiet_task_wait_loop fuel tid d : quiet (task_wait_loop fuel tid d).
Proof. induction fuel as [|fuel IH]; simpl; hush. Qed.
#[local] Hint Resolve quiet_task_wait_loop : quiet.
Lemma quiet_task_wait fuel params : quiet (task_wait fuel params).
Proof. unfold task_wait. hush. Qed.
Lemma quiet_stop_process task : quiet (stop_process task).
Proof. unfold stop_process. hush. Qed.
#[local] Hint Resolve quiet_stop_process : quiet.
Lemma quiet_list_ports params es found : quiet (list_ports params es found).
Proof. revert found. induction es as [|e es IH]; intros found; simpl; hush; apply IH. Qed.
#[local] Hint Resolve quiet_list_ports : quiet.
Lemma quiet_port_list params : quiet (port_list params).
Proof. unfold port_list. hush. Qed.
Lemma quiet_try_ports n port params e o q ex : quiet (try_ports n port params e o q ex).
Proof. revert port. induction n as [|n IH]; intros port; simpl; hush; apply IH. Qed.
#[local] Hint Resolve quiet_try_ports : quiet.
Lemma quiet_port_allocate params : quiet (port_allocate params).
Proof. unfold port_allocate. hush. Qed.
Lemma quiet_lease_authority e item : quiet (lease_authority e item).
Proof. unfold lease_authority. hush. Qed.
#[local] Hint Resolve quiet_lease_authority : quiet.
Lemma quiet_lease_authorities e items : quiet (lease_authorities e items).
Proof. induction items as [|item items IH]; simpl; hush; apply IH. Qed.
#[local] Hint Resolve quiet_lease_authorities : quiet.
Lemma quiet_executor_call params : quiet (executor_call params).
Proof. unfold executor_call. hush. Qed.

Lemma framed_prune_terminal_before cutoff : framed (prune_terminal_before cutoff).
Proof.
  unfold prune_terminal_before. apply framed_task_op. intros T. exists [TaskTable.PruneBefore cutoff].
  simpl. by destruct (TaskTable.prune_terminal_before cutoff T).
Qed.
#[local] Hint Resolve framed_prune_terminal_before : framed.

Lemma keeps_task_submit c0 params : keeps (later c0) (task_submit params).
Proof. unfold task_submit. keep. Qed.
Lemma keeps_task_retry c0 params : keeps (later c0) (task_retry params).
Proof. unfold task_retry. keep. Qed.
Lemma keeps_task_cancel c0 params : keeps (later c0) (task_cancel params).
Proof. unfold task_cancel. keep. Qed.
Lemma keeps_task_prune c0 params : keeps (later c0) (task_prune params).
Proof. unfold task_prune. keep. Qed.
Lemma keeps_task_transition c0 params : keeps (later c0) (task_transition params).
Proof. unfold task_transition. keep. Qed.
Lemma acks_task_submit params : acks (task_submit params).
Proof. unfold task_submit. ack. Qed.
Lemma acks_task_retry params : acks (task_retry params).
Proof. unfold task_retry. ack. Qed.
Lemma acks_task_cancel params : acks (task_cancel params).
Proof. unfold task_cancel. ack. Qed.
Lemma acks_task_prune params : acks (task_prune params).
Proof. unfold task_prune. ack. Qed.
Lemma acks_task_transition params : acks (task_transition params).
Proof. unfold task_transition. ack. Qed.
End lifecycles.
End TaskRpc.

#[export] Hint Resolve TaskRpc.quiet_find_task TaskRpc.quiet_task_get TaskRpc.quiet_task_list
  TaskRpc.quiet_task_events TaskRpc.quiet_task_wait TaskRpc.quiet_stop_process
  TaskRpc.quiet_port_list TaskRpc.quiet_port_allocate TaskRpc.quiet_executor_call : quiet.
#[export] Hint Resolve TaskRpc.keeps_task_submit TaskRpc.keeps_task_retry TaskRpc.keeps_task_cancel
  TaskRpc.keeps_task_prune TaskRpc.keeps_task_transition : keeps.
#[export] Hint Resolve TaskRpc.acks_task_submit TaskRpc.acks_task_retry TaskRpc.acks_task_cancel
  TaskRpc.acks_task_prune TaskRpc.acks_task_transition : acks.
