(* ===== verification/Relay.v ===== *)
(** * Artifact relay ([crates/workbench-runtime/src/controller.rs])

    [artifact.transfer]: the controller copies an artifact from one executor to
    another, chunk by chunk, under a lease the destination issues.  Transfer
    events are telemetry and leave no trace in the model; an [Instant] is a
    reading of the world's clock. *)

From Stdlib Require Import Ascii String.
From S2P Require Import Prelude RustStd History Json Protocol Schema Store Leases Tasks.
From S2P Require Import Contracts Lifecycles Controller Samples.

Module Relay.
Import Controller.

Section handlers.
Context {P : Platform}.

(** ** The lease on the destination *)

(** The lease of one transfer: what proves it, where the transfer stages its
    files, and the fence its writes carry. *)
Record permit := Permit { grant : Value; staging : string; authority : Value }.

(** The permit a lease gives; [unique] keeps the places of transfers apart. *)
Definition lease_request (controller_id destination_path : string) : Value :=
  json_object [("resource", VString ("artifact-relay:" +:+ destination_path));
               ("owner", VString ("controller:" +:+ controller_id)); ("ttlMs", vnat 3600000)].
Definition permit_of (controller_id suffix destination_path unique : string) (lease : Value) : permit :=
  let resource := "artifact-relay:" +:+ destination_path in
  Permit
    (json_object [("resource", VString resource); ("owner", VString ("controller:" +:+ controller_id));
                  ("token", vindex lease "token")])
    (destination_path +:+ suffix +:+ unique)
    (VArray [json_object [("controllerId", VString controller_id); ("resource", VString resource);
                          ("fence", vindex lease "fence")]]).
Definition relay_permit (executor_id suffix destination_path : string) : handler permit :=
  c ← get;
  lease ← call_registered_executor executor_id "resource.lease.acquire" (lease_request (id c) destination_path);
  u ← fresh_uuid;
  mret (permit_of (id c) suffix destination_path u lease).

(** The parameters of a request made under the lease. *)
Definition under (p : permit) (fields : list (string * Value)) : Value :=
  json_object (fields ++ [("_authority", authority p); ("_resourceLeases", VArray [grant p])]).

(** [let result = (|| { .. })(); let _ = release; result] *)
Definition releasing (executor_id : string) (p : permit) (m : handler Value) : handler Value :=
  result ← attempt m;
  ignore_error (call_registered_executor executor_id "resource.lease.release" (grant p)) ;;
  match result with
  | inl error => throw error
  | inr value => mret value
  end.

(** ** The archive transport *)

(** [m.map_err(f)] *)
Definition map_error {A} (f : RpcError.t -> RpcError.t) (m : handler A) : handler A :=
  fun c w => let '(o, c', w') := m c w in (map_err f o, c', w').

(** How far a transfer is. *)
Record progress := Progress { offset : Z; chunks : Z; encoded_bytes : Z }.

Definition transfer_error (stage : string) (at_ : progress) (error : RpcError.t) : RpcError.t :=
  RpcError.mk (RpcError.code error) (RpcError.message error) (RpcError.retryable error)
    (json_object [("stage", VString stage); ("failureOffset", vnat (offset at_));
                  ("transferredBytes", vnat (offset at_)); ("chunks", vnat (chunks at_));
                  ("retryCount", vnat 0); ("cause", RpcError.details error)]).

Definition invalid_artifact (message : string) : RpcError.t := RpcError.new "INVALID_ARTIFACT" message.
Definition unexpected_eof (message : string) : RpcError.t := RpcError.new "ARTIFACT_TRANSFER_FAILED" message.

(** The read and the write of one chunk. *)
Definition archive_read (token : string) (offset : Z) : Value :=
  json_object [("token", VString token); ("offset", vnat offset); ("limit", vnat (8 * 1024 * 1024))].
Definition archive_write (destination_path : string) (p : permit) (offset : Z) (data : Value) : Value :=
  under p [("destination", VString destination_path); ("staging", VString (staging p));
           ("offset", vnat offset); ("data", data)].

(** After a chunk of [bytes] bytes that arrived as [data]. *)
Definition encoded (data : Value) : Z :=
  match as_str data with Some data => Str.len data | None => 0 end.

(** The loop that copies the archive; every turn moves on by at least a byte. *)
Fixpoint relay_chunks (fuel : nat) (source destination destination_path token : string) (p : permit)
    (archive_size : Z) (pr : progress) : handler progress :=
  if offset pr <? archive_size then
    match fuel with
    | O => lift Panic
    | S fuel' =>
        chunk ← map_error (transfer_error "reading" pr)
          (call_registered_executor source "artifact.relay.archive.read" (archive_read token (offset pr)));
        bytes ← lift (ok_or (invalid_artifact "archive chunk has no byte count") (u64_param chunk "bytes"));
        if bytes =? 0 then
          throw (transfer_error "reading" pr (unexpected_eof "unexpected EOF while reading archive"))
        else
          let data := vindex chunk "data" in
          let pr := Progress (offset pr) (u64_add (chunks pr) 1) (u64_add (encoded_bytes pr) (encoded data)) in
          _ ← map_error (transfer_error "writing" pr)
            (call_registered_executor destination "artifact.relay.archive.write"
               (archive_write destination_path p (offset pr) data));
          relay_chunks fuel' source destination destination_path token p archive_size
            (Progress (u64_saturating_add (offset pr) bytes) (chunks pr) (encoded_bytes pr))
    end
  else mret pr.

(** What the source says of the archive it has made. *)
Record announced := Announced {
  archive_token : string; archive_digest : string; archive_size : Z; raw_size : Z; file_count : Z;
  archive_kind : string }.

Definition announced_archive (archive : Value) : outcome RpcError.t announced :=
  token ← required_str archive "token";
  digest ← required_str archive "digest";
  archive_size ← ok_or (invalid_artifact "archive size is required") (u64_param archive "archiveSize");
  size ← ok_or (invalid_artifact "artifact size is required") (u64_param archive "size");
  files ← ok_or (invalid_artifact "artifact file count is required") (u64_param archive "files");
  Ok (Announced token digest archive_size size files (default "directory" (str_param archive "kind"))).

Definition archive_prepare (destination_path : string) (p : permit) : Value :=
  under p [("destination", VString destination_path); ("staging", VString (staging p))].
Definition archive_commit (destination_path : string) (p : permit) (a : announced) : Value :=
  under p [("destination", VString destination_path); ("staging", VString (staging p));
           ("expectedDigest", VString (archive_digest a)); ("archiveSize", vnat (archive_size a));
           ("size", vnat (raw_size a)); ("files", vnat (file_count a)); ("kind", VString (archive_kind a))].

(** A duration in milliseconds is far below 2^64: [as u64] leaves it alone. *)
Definition throughput (archive_size duration : Z) : Z :=
  if duration =? 0 then u64_wrap (archive_size * 1000)
  else u64_saturating_mul archive_size 1000 / duration.

(** The body of the transfer, under the lease. *)
Definition transfer_archive (fuel : nat) (source destination destination_path mode : string) (a : announced)
    (p : permit) : handler Value :=
  _ ← map_error (transfer_error "preparing" (Progress 0 0 0))
    (call_registered_executor destination "artifact.relay.archive.prepare" (archive_prepare destination_path p));
  relay_started ← now;
  pr ← relay_chunks fuel source destination destination_path (archive_token a) p (archive_size a) (Progress 0 0 0);
  relay_done ← now;
  let relay_duration := saturating_sub relay_done relay_started in
  commit_started ← now;
  committed ← map_error (transfer_error "committing" pr)
    (call_registered_executor destination "artifact.relay.archive.commit" (archive_commit destination_path p a));
  commit_done ← now;
  mret (json_object
    [("source", json_object [("executorId", VString source)]);
     ("destination", json_object [("executorId", VString destination); ("path", VString destination_path)]);
     ("mode", VString mode); ("transport", VString "archive"); ("compression", VString "gzip");
     ("archiveSize", vnat (archive_size a)); ("digest", vindex committed "digest");
     ("size", vindex committed "size"); ("files", vindex committed "files");
     ("transfer", json_object
        [("rawBytes", vnat (raw_size a)); ("archiveBytes", vnat (archive_size a));
         ("transferredBytes", vnat (offset pr)); ("encodedBytes", vnat (encoded_bytes pr));
         ("chunks", vnat (chunks pr)); ("chunkSize", vnat (8 * 1024 * 1024)); ("retryCount", vnat 0);
         ("relayDurationMs", vnat relay_duration);
         ("commitDurationMs", vnat (saturating_sub commit_done commit_started));
         ("throughputBytesPerSecond", vnat (throughput (archive_size a) relay_duration))])]).

Definition relay_archive (fuel : nat) (source destination destination_path mode : string) (archive : Value) :
    handler Value :=
  a ← lift (announced_archive archive);
  p ← relay_permit destination ".workbench-relay-" destination_path;
  releasing destination p (transfer_archive fuel source destination destination_path mode a p).

(** ** A copy within one executor *)

Definition relay_local_artifact (executor_id source_path destination_path mode : string)
    (transfer_started : Z) : handler Value :=
  p ← relay_permit executor_id ".workbench-local-" destination_path;
  releasing executor_id p (
    copied ← call_registered_executor executor_id "artifact.relay.local-copy"
      (under p [("source", VString source_path); ("destination", VString destination_path);
                ("staging", VString (staging p))]);
    n1 ← now; n2 ← now;
    mret (json_object
      [("source", json_object [("executorId", VString executor_id); ("path", VString source_path)]);
       ("destination", json_object [("executorId", VString executor_id); ("path", VString destination_path)]);
       ("mode", VString mode); ("transport", VString "local"); ("digest", vindex copied "digest");
       ("size", vindex copied "size"); ("files", vindex copied "files");
       ("transfer", json_object
          [("rawBytes", vindex copied "size"); ("transferredBytes", vindex copied "size");
           ("chunks", vnat 0); ("retryCount", vnat 0); ("relayDurationMs", vnat 0);
           ("commitDurationMs", vnat (saturating_sub n1 transfer_started));
           ("totalDurationMs", vnat (saturating_sub n2 transfer_started))])])).

(** ** File by file, for executors without the archive transport *)

Definition read_manifest (source source_path : string) : handler Value :=
  call_registered_executor source "artifact.relay.manifest" (json_object [("path", VString source_path)]).

(** [a.get(key) == b.get(key)] *)
Definition same_field (key : string) (a b : Value) : bool :=
  match vget a key, vget b key with
  | Some v, Some w => value_eq v w
  | None, None => true
  | _, _ => false
  end.

(** Read the manifest until two readings in a row agree. *)
Fixpoint stable_manifest (fuel : nat) (source source_path : string) (deadline : Z) (manifest : Value) :
    handler Value :=
  match fuel with
  | O => lift Panic
  | S fuel' =>
      next ← read_manifest source source_path;
      if same_field "digest" next manifest && same_field "entries" next manifest then mret next
      else
        n ← now;
        if n >=? deadline
        then throw (RpcError.new "ARTIFACT_NOT_STABLE" "source artifact changed during the stability window")
        else stable_manifest fuel' source source_path deadline next
  end.

Definition empty_file (entry : Value) : bool :=
  bool_decide (str_param entry "kind" = Some "file") && bool_decide (u64_param entry "size" = Some 0).

(** One file, from [offset] on. *)
Fixpoint relay_file (fuel : nat) (source source_path destination destination_path relative : string)
    (p : permit) (size offset : Z) : handler unit :=
  if offset <? size then
    match fuel with
    | O => lift Panic
    | S fuel' =>
        chunk ← call_registered_executor source "artifact.relay.read"
          (json_object [("path", VString source_path); ("relativePath", VString relative);
                        ("offset", vnat offset); ("limit", vnat (1024 * 1024))]);
        bytes ← lift (ok_or (invalid_artifact "relay chunk has no byte count") (u64_param chunk "bytes"));
        if bytes =? 0 then throw (unexpected_eof ("unexpected EOF while reading " +:+ relative))
        else
          _ ← call_registered_executor destination "artifact.relay.write"
            (under p [("destination", VString destination_path); ("staging", VString (staging p));
                      ("relativePath", VString relative); ("offset", vnat offset);
                      ("data", vindex chunk "data")]);
          relay_file fuel' source source_path destination destination_path relative p size
            (u64_saturating_add offset bytes)
    end
  else mret tt.

Fixpoint relay_files (fuel : nat) (source source_path destination destination_path : string) (p : permit)
    (entries : list Value) : handler unit :=
  match entries with
  | [] => mret tt
  | entry :: entries' =>
      kind ← lift (required_str entry "kind");
      (if negb (bool_decide (kind = "file")) then mret tt
       else
         relative ← lift (required_str entry "path");
         size ← lift (ok_or (invalid_artifact "file size is required") (u64_param entry "size"));
         relay_file fuel source source_path destination destination_path relative p size 0) ;;
      relay_files fuel source source_path destination destination_path p entries'
  end.

Definition relay_tree (fuel : nat) (params : Value) (source source_path destination destination_path mode : string) :
    handler Value :=
  manifest ← read_manifest source source_path;
  n ← now;
  manifest ← stable_manifest fuel source source_path (n + 30000) manifest;
  entries ← lift (ok_or (invalid_artifact "source manifest has no entries")
                    (vget manifest "entries" ≫= as_array));
  guard (negb (bool_decide ((vget params "rejectEmptyFiles" ≫= as_bool) = Some true)
               && existsb empty_file entries))
    (RpcError.new "ARTIFACT_INCOMPLETE" "source artifact contains an empty file") ;;
  digest ← lift (required_str manifest "digest");
  p ← relay_permit destination ".workbench-relay-" destination_path;
  releasing destination p (
    _ ← call_registered_executor destination "artifact.relay.prepare"
      (under p [("destination", VString destination_path); ("staging", VString (staging p));
                ("entries", VArray entries)]);
    relay_files fuel source source_path destination destination_path p entries ;;
    committed ← call_registered_executor destination "artifact.relay.commit"
      (under p [("destination", VString destination_path); ("staging", VString (staging p));
                ("expectedDigest", VString digest)]);
    mret (json_object
      [("source", json_object [("executorId", VString source); ("path", VString source_path)]);
       ("destination", json_object [("executorId", VString destination); ("path", VString destination_path)]);
       ("mode", VString mode); ("digest", vindex committed "digest");
       ("size", vindex committed "size"); ("files", vindex committed "files")])).

(** ** The handler *)

(** [value["transfer"]["totalDurationMs"] = duration] *)
Definition with_total_duration (duration : Z) (value : Value) : handler Value :=
  transfer ← set_field (vindex value "transfer") "totalDurationMs" (vnat duration);
  set_field value "transfer" transfer.

Definition field_required (params : Value) (key : string) : outcome RpcError.t Value :=
  ok_or (RpcError.new "INVALID_PARAMS" (key +:+ " is required")) (vget params key).

Definition relay_artifact (fuel : nat) (params : Value) : handler Value :=
  transfer_started ← now;
  source ← lift (field_required params "source");
  destination ← lift (field_required params "destination");
  source_executor ← lift (required_str source "executorId");
  source_path ← lift (required_str source "path");
  destination_executor ← lift (required_str destination "executorId");
  destination_path ← lift (required_str destination "path");
  let mode := default "mirror" (str_param params "mode") in
  guard (bool_decide (mode = "mirror"))
    (RpcError.new "INVALID_PARAMS" "Controller artifact relay currently requires mode=mirror") ;;
  if decide (source_executor = destination_executor) then
    relay_local_artifact source_executor source_path destination_path mode transfer_started
  else
    created ← attempt (call_registered_executor source_executor "artifact.relay.archive.create"
                         (json_object [("path", VString source_path)]));
    match created with
    | inr archive =>
        token ← lift (required_str archive "token");
        result ← attempt (relay_archive fuel source_executor destination_executor destination_path mode archive);
        ignore_error (call_registered_executor source_executor "artifact.relay.archive.remove"
                        (json_object [("token", VString token)])) ;;
        match result with
        | inr value => n ← now; with_total_duration (saturating_sub n transfer_started) value
        | inl error => throw error
        end
    | inl error =>
        if decide (RpcError.code error = "UNKNOWN_ACTION") then
          relay_tree fuel params source_executor source_path destination_executor destination_path mode
        else throw error
    end.
End handlers.

(** ** What a transfer sends *)

Section transfers.
Context {P : Platform}.

Lemma map_error_Ok {A} f (m : handler A) c w a c' w' :
  map_error f m c w = (Ok a, c', w') -> m c w = (Ok a, c', w').
Proof. unfold map_error. destruct (m c w) as [[[]?]?]; cbn; congruence. Qed.
Lemma quiet_map_error {A} f (m : handler A) : quiet m -> quiet (map_error f m).
Proof.
  intros Hm c w. destruct (Hm c w) as [l Hl]. exists l. unfold map_error. by destruct (m c w) as [[]].
Qed.
#[local] Hint Resolve quiet_map_error : quiet.

Lemma quiet_relay_permit x s d : quiet (relay_permit x s d).
Proof. unfold relay_permit. hush. Qed.
Lemma quiet_releasing x p m : quiet m -> quiet (releasing x p m).
Proof. intros. unfold releasing. hush. Qed.
#[local] Hint Resolve quiet_relay_permit quiet_releasing : quiet.
Lemma quiet_relay_chunks fuel s d dp tok p size pr : quiet (relay_chunks fuel s d dp tok p size pr).
Proof. revert pr. induction fuel as [|fuel IH]; intros pr; simpl; hush; apply IH. Qed.
#[local] Hint Resolve quiet_relay_chunks : quiet.
Lemma quiet_transfer_archive fuel s d dp mode a p : quiet (transfer_archive fuel s d dp mode a p).
Proof. unfold transfer_archive. hush. Qed.
#[local] Hint Resolve quiet_transfer_archive : quiet.
Lemma quiet_relay_archive fuel s d dp mode a : quiet (relay_archive fuel s d dp mode a).
Proof. unfold relay_archive. hush. Qed.
Lemma quiet_relay_local_artifact x s d mode n : quiet (relay_local_artifact x s d mode n).
Proof. unfold relay_local_artifact. hush. apply quiet_releasing. hush. Qed.
Lemma quiet_stable_manifest fuel s sp dl m : quiet (stable_manifest fuel s sp dl m).
Proof. unfold read_manifest. revert m. induction fuel as [|fuel IH]; intros m; simpl; unfold read_manifest; hush; apply IH. Qed.
Lemma quiet_relay_file fuel s sp d dp r p size o : quiet (relay_file fuel s sp d dp r p size o).
Proof. revert o. induction fuel as [|fuel IH]; intros o; simpl; hush; apply IH. Qed.
#[local] Hint Resolve quiet_relay_archive quiet_relay_local_artifact quiet_stable_manifest quiet_relay_file : quiet.
Lemma quiet_relay_files fuel s sp d dp p es : quiet (relay_files fuel s sp d dp p es).
Proof. induction es as [|e es IH]; simpl; hush; apply IH. Qed.
#[local] Hint Resolve quiet_relay_files : quiet.
Lemma quiet_relay_tree fuel ps s sp d dp mode : quiet (relay_tree fuel ps s sp d dp mode).
Proof. unfold relay_tree, read_manifest. hush. apply quiet_releasing. hush. Qed.
#[local] Hint Resolve quiet_relay_tree : quiet.
Lemma quiet_relay_artifact fuel ps : quiet (relay_artifact fuel ps).
Proof. unfold relay_artifact, with_total_duration. hush. Qed.

(** *** The chunks *)

Definition payload (r : Response.t) : Value := default VNull (Response.result r).

(** The exchanges that copy an archive of [size] bytes from [off] on: as long as the end is not reached, a read
    at [off] is answered with a number of bytes and with data, exactly that data is written at [off], and the
    copy goes on where those bytes end. *)
Inductive copies (source destination : ExecutorEndpoint.t) (destination_path token : string) (p : permit)
    (size : Z) : Z -> list exchange -> Prop :=
| copies_end off : size <= off -> copies source destination destination_path token p size off []
| copies_chunk off r bytes written es :
    off < size -> Response.ok r = true -> u64_param (payload r) "bytes" = Some bytes -> bytes <> 0 ->
    Response.ok written = true ->
    copies source destination destination_path token p size (u64_saturating_add off bytes) es ->
    copies source destination destination_path token p size off
      ((source, "artifact.relay.archive.read", archive_read token off, inr r) ::
       (destination, "artifact.relay.archive.write",
          archive_write destination_path p off (vindex (payload r) "data"), inr written) :: es).

Lemma relay_chunks_Ok fuel s d dp tok p size pr c w pr' c' w' ed :
  endpoint_of c d = Some ed ->
  relay_chunks fuel s d dp tok p size pr c w = (Ok pr', c', w') ->
  exists es, exchanged c es c' /\ (es <> [] -> is_Some (endpoint_of c s)) /\
    copies (default ed (endpoint_of c s)) ed dp tok p size (offset pr) es.
Proof.
  intros Hed. revert pr c w Hed. induction fuel as [|fuel IH]; intros pr c w Hed; cbn [relay_chunks];
    destruct (offset pr <? size) eqn:Hlt; try done.
  1, 3: intros [= <- <- _]; exists []; split; [apply exchanged_nil|]; split; [done|]; apply copies_end; lia.
  intros (chunk & c1 & w1 & Hread%map_error_Ok & Hrun)%bind_Ok_inv.
  apply bind_Ok_inv in Hrun as (bytes & c2 & w2 & Hb & Hrun). ok_inv Hb.
  match goal with H : ok_or _ _ = Ok _ |- _ => apply ok_or_Ok in H as Hbytes end.
  destruct (bytes =? 0) eqn:Hz; [done|].
  apply bind_Ok_inv in Hrun as (u & c3 & w3 & Hwrite%map_error_Ok & Hrun).
  apply call_exchanged in Hread as (es & r & Hes & Hr & Hok & ->).
  apply call_exchanged in Hwrite as (ed' & r' & Hed' & Hw & Hok' & _).
  rewrite (exchanged_endpoint _ _ _ _ Hr), Hed in Hed'. injection Hed' as <-.
  apply IH in Hrun as (l & Hl & _ & Hc); [|by rewrite (exchanged_endpoint _ _ _ _ Hw), (exchanged_endpoint _ _ _ _ Hr)].
  rewrite (exchanged_endpoint _ _ _ s Hw), (exchanged_endpoint _ _ _ s Hr), Hes in Hc. rewrite Hes.
  eexists. split; [exact (exchanged_app _ [_] _ _ _ Hr (exchanged_app _ [_] _ _ _ Hw Hl))|]. split; [done|].
  apply copies_chunk with bytes; [by apply Z.ltb_lt|done|done|lia|done|exact Hc].
Qed.

(** The source gives the archive [content] out: what it answers to a read at [off] is some piece of what is
    there, with its length, and [encode]d. *)
Definition serves {A} (source : ExecutorEndpoint.t) (token : string) (encode : list A -> Value) (content : list A) : Prop :=
  forall n rq r off bytes,
    Request.action rq = "artifact.relay.archive.read" -> Request.params rq = archive_read token off ->
    call_executor n source rq = inr r -> Response.ok r = true -> u64_param (payload r) "bytes" = Some bytes ->
    exists piece, piece `prefix_of` drop (Z.to_nat off) content /\ bytes = Z.of_nat (length piece) /\
      vindex (payload r) "data" = encode piece.

(** The data of the writes, in their order. *)
Definition written (es : list exchange) : list Value :=
  omap (fun e => if bool_decide (e.1.1.2 = "artifact.relay.archive.write") then vget e.1.2 "data" else None) es.

Lemma copies_content {A} source destination dp tok p size off es (encode : list A -> Value) content :
  copies source destination dp tok p size off es -> Forall genuine es -> serves source tok encode content ->
  Z.of_nat (length content) = size -> size <= u64_max -> 0 <= off <= size ->
  exists pieces, written es = encode <$> pieces /\ concat pieces = drop (Z.to_nat off) content.
Proof.
  intros Hc Hg Hs Hlen Hmax. induction Hc as [off Hoff|off r bytes wr es Hlt Hok Hb Hnz Hok' _ IH]; intros Hin.
  { exists []. split; [done|]. by rewrite drop_ge by lia. }
  apply Forall_cons in Hg as [(n & rq & [= Ha Hps Hr]) Hg]. apply Forall_cons in Hg as [_ Hg].
  destruct (Hs n rq r off bytes) as (piece & [rest Hrest] & -> & Hd); [done..|].
  assert (length piece + length rest = length content - Z.to_nat off)%nat as Hsum.
  { by rewrite <- length_drop, Hrest, length_app. }
  assert (u64_saturating_add off (Z.of_nat (length piece)) = off + Z.of_nat (length piece)) as Hadd.
  { unfold u64_saturating_add. lia. }
  rewrite Hadd in IH. destruct (IH Hg ltac:(lia)) as (pieces & Hw & Hcat). exists (piece :: pieces). split.
  - rewrite fmap_cons, <- Hw, <- Hd. done.
  - cbn [concat]. rewrite Hcat, Hrest. f_equal.
    replace (Z.to_nat (off + Z.of_nat (length piece))) with (Z.to_nat off + length piece)%nat by lia.
    by rewrite <- drop_drop, Hrest, drop_app_length.
Qed.

Lemma relay_permit_Ok x suffix dp c w p c' w' :
  relay_permit x suffix dp c w = (Ok p, c', w') ->
  exists ep r u, endpoint_of c x = Some ep /\ Response.ok r = true /\
    exchanged c [(ep, "resource.lease.acquire", lease_request (id c) dp, inr r)] c' /\
    p = permit_of (id c) suffix dp u (payload r).
Proof.
  unfold relay_permit. intros Hrun. ok_inv Hrun.
  match goal with H : call_registered_executor _ _ _ _ _ = _ |- _ =>
    apply call_exchanged in H as (ep & r & He & Hm & Hok & ->) end.
  by eexists ep, r, _.
Qed.

(** What [releasing] adds to a body that did not panic. *)
Lemma releasing_made x p m c w o c' w' ep :
  quiet m -> endpoint_of c x = Some ep -> releasing x p m c w = (o, c', w') -> o <> Panic ->
  exists c1 w1, m c w = (o, c1, w1) /\ made c1 [(ep, "resource.lease.release", grant p)] c'.
Proof.
  intros Hm Hep. unfold releasing, attempt, ignore_error, mbind, M_bind.
  destruct (m c w) as [[o1 c1] w1] eqn:H1. pose proof (quiet_made _ _ _ _ _ _ Hm H1) as [cs Hcs].
  destruct (call_registered_executor x "resource.lease.release" (grant p) c1 w1) as [[o2 c2] w2] eqn:H2.
  pose proof (call_made _ _ _ _ _ _ _ _ H2) as [Hcall Hno].
  rewrite (made_endpoint _ _ _ _ Hcs), Hep in Hcall. destruct Hcall as [Hcall _].
  intros Hrun Ho. exists c1, w1. destruct o1 as [a|e|], o2; cbn in Hrun; rewrite ?H2 in Hrun; try done; injection Hrun as <- <- _; done.
Qed.

(** C21. A relay that succeeds has moved the whole archive, in order and without a gap: under the lease the
    destination granted it prepared the destination; then it read chunk after chunk, each where the one before
    it ended by the count of bytes the source had answered with, and wrote at that place exactly the data of
    that answer, until the size was reached; only then did it commit, under the digest and the sizes the source
    had announced; and the last thing it did was to release the lease.  Hence, when the source gives out an
    archive of the size it announced, in pieces of whatever length, the pieces written are that archive. *)
Theorem relay_archive_moves_every_byte fuel s d dp mode archive c w v c' w' :
  relay_archive fuel s d dp mode archive c w = (Ok v, c', w') ->
  exists a ed lease u prepared es committed released,
    let p := permit_of (id c) ".workbench-relay-" dp u (payload lease) in
    let source := default ed (endpoint_of c s) in
    announced_archive archive = Ok a /\ endpoint_of c d = Some ed /\
    (es <> [] -> endpoint_of c s = Some source) /\
    Response.ok lease = true /\ Response.ok prepared = true /\ Response.ok committed = true /\
    exchanged c
      ((ed, "resource.lease.acquire", lease_request (id c) dp, inr lease) ::
       (ed, "artifact.relay.archive.prepare", archive_prepare dp p, inr prepared) :: es ++
       [(ed, "artifact.relay.archive.commit", archive_commit dp p a, inr committed);
        (ed, "resource.lease.release", grant p, released)]) c' /\
    copies source ed dp (archive_token a) p (archive_size a) 0 es /\
    forall A (encode : list A -> Value) content,
      serves source (archive_token a) encode content ->
      Z.of_nat (length content) = archive_size a -> archive_size a <= u64_max ->
      exists pieces, written es = encode <$> pieces /\ concat pieces = content.
Proof.
  unfold relay_archive. intros Hrun.
  apply bind_Ok_inv in Hrun as (a & ? & ? & H & Hrun). ok_inv H. rename H into Ha.
  apply bind_Ok_inv in Hrun as (p & c1 & w1 & (ed & lease & u & Hed & Hlok & H1 & ->)%relay_permit_Ok & Hrun).
  pose proof (exchanged_endpoint _ _ _ d H1) as Hed1. rewrite Hed in Hed1.
  apply (releasing_made _ _ _ _ _ _ _ _ ed) in Hrun as (c2 & w2 & Hbody & Hrel);
    [|apply quiet_transfer_archive|done|done].
  apply made_exchanged in Hrel as ([|[call released] [|]] & [= ->] & Hrel).
  unfold transfer_archive in Hbody.
  apply bind_Ok_inv in Hbody as (? & c3 & w3 & Hp%map_error_Ok & Hbody).
  apply call_exchanged in Hp as (ed' & prepared & Hed' & Hprep & Hpok & _).
  rewrite Hed1 in Hed'. injection Hed' as <-. pose proof (exchanged_endpoint _ _ _ d Hprep) as Hed3. rewrite Hed1 in Hed3.
  apply bind_Ok_inv in Hbody as (? & ? & ? & H & Hbody). ok_inv H.
  apply bind_Ok_inv in Hbody as (pr & c4 & w4 & Hchunks & Hbody).
  apply (relay_chunks_Ok _ _ _ _ _ _ _ _ _ _ _ _ _ _ Hed3) in Hchunks as (es & Hes & Hknown & Hcopies). cbn in Hcopies.
  rewrite (exchanged_endpoint _ _ _ s Hprep), (exchanged_endpoint _ _ _ s H1) in Hknown, Hcopies.
  do 2 (apply bind_Ok_inv in Hbody as (? & ? & ? & H & Hbody); ok_inv H).
  apply bind_Ok_inv in Hbody as (? & c5 & w5 & Hc%map_error_Ok & Hbody).
  apply call_exchanged in Hc as (ed' & committed & Hed' & Hcommit & Hcok & _).
  rewrite (exchanged_endpoint _ _ _ _ Hes), Hed3 in Hed'. injection Hed' as <-. ok_inv Hbody.
  exists a, ed, lease, u, prepared, es, committed, released. cbv zeta. do 6 (split; [done || by intros [e ->]%Hknown|]).
  split; [|split; [done|]].
  - refine (exchanged_app _ [_] _ _ _ H1 (exchanged_app _ [_] _ _ _ Hprep (exchanged_app _ _ _ _ _ Hes _))).
    exact (exchanged_app _ [_] _ [_] _ Hcommit Hrel).
  - intros A encode content Hs Hlen Hmax. change content with (drop (Z.to_nat 0) content).
    eapply copies_content; [done|by eapply exchanged_genuine|done..|lia].
Qed.

(** *** Termination and release *)

Definition no_panic {A} (m : handler A) : Prop := forall c w, (m c w).1.1 <> Panic.

Lemma bind_no_panic {A B} (m : handler A) (k : A -> handler B) c w :
  (m c w).1.1 <> Panic ->
  (forall a c1 w1, m c w = (Ok a, c1, w1) -> (k a c1 w1).1.1 <> Panic) -> ((m ≫= k) c w).1.1 <> Panic.
Proof.
  intros Hm Hk. unfold mbind, M_bind. destruct (m c w) as [[[a|e|] c1] w1]; [by apply Hk|done|done].
Qed.
Lemma no_panic_bind {A B} (m : handler A) (k : A -> handler B) :
  no_panic m -> (forall a, no_panic (k a)) -> no_panic (m ≫= k).
Proof. intros Hm Hk c w. apply bind_no_panic; [apply Hm|intros; apply Hk]. Qed.
Lemma no_panic_call x a p : no_panic (call_registered_executor x a p).
Proof.
  intros c w. destruct (call_registered_executor x a p c w) as [[o c'] w'] eqn:H.
  by apply call_made in H as [_ ?].
Qed.
Lemma no_panic_map_error {A} f (m : handler A) : no_panic m -> no_panic (map_error f m).
Proof.
  intros Hm c w. specialize (Hm c w). unfold map_error. by destruct (m c w) as [[[]?]?].
Qed.

(** A number the executors answer with is a [u64]. *)
Definition answers_u64 : Prop :=
  forall n ep rq r v bytes, call_executor n ep rq = inr r -> Response.result r = Some v ->
    u64_param v "bytes" = Some bytes -> 0 <= bytes.

Lemma relay_chunks_total fuel s d dp tok p size pr :
  answers_u64 -> size <= u64_max -> 0 <= offset pr -> size - offset pr <= Z.of_nat fuel ->
  no_panic (relay_chunks fuel s d dp tok p size pr).
Proof.
  intros Hu Hmax. revert pr. induction fuel as [|fuel IH]; intros pr Hpr Hfuel c w; cbn [relay_chunks];
    destruct (offset pr <? size) eqn:Hlt; try done; [lia|].
  apply bind_no_panic; [apply no_panic_map_error, no_panic_call|].
  intros chunk c1 w1 [Hcall _]%map_error_Ok%call_made.
  apply bind_no_panic; [by destruct (u64_param chunk "bytes")|].
  intros bytes ? ? [= Hbytes%ok_or_Ok <- <-]. destruct (bytes =? 0) eqn:Hz; [done|].
  assert (0 <= bytes) as Hpos.
  { destruct (endpoint_of c s); [|by destruct Hcall as [_ [e [=]]]].
    destruct Hcall as [_ Hans]. destruct (Hans _ eq_refl) as (n & rq & r & Hr & ->).
    destruct (Response.result r) as [v|] eqn:Hv; [|done]. exact (Hu _ _ _ _ _ _ Hr Hv Hbytes). }
  apply no_panic_bind; [apply no_panic_map_error, no_panic_call|].
  intros _. apply IH; cbn; unfold u64_saturating_add; lia.
Qed.

Lemma transfer_archive_total fuel s d dp mode a p :
  answers_u64 -> archive_size a <= u64_max -> archive_size a <= Z.of_nat fuel ->
  no_panic (transfer_archive fuel s d dp mode a p).
Proof.
  intros Hu Hmax Hfuel. unfold transfer_archive.
  apply no_panic_bind; [apply no_panic_map_error, no_panic_call|intros _].
  apply no_panic_bind; [by intros ? ?|intros n1].
  apply no_panic_bind; [apply relay_chunks_total; cbn; [done|lia..]|intros pr].
  do 2 (apply no_panic_bind; [by intros ? ?|intros ?]).
  apply no_panic_bind; [apply no_panic_map_error, no_panic_call|intros ?].
  apply no_panic_bind; [by intros ? ?|]. by intros ? ? ?.
Qed.

Lemma announced_archive_total archive : announced_archive archive <> Panic.
Proof.
  assert (forall v k, required_str v k <> Panic) as Hstr.
  { intros v k. unfold required_str. destruct (_ ≫= _) as [s|]; [by destruct (Str.is_empty s)|done]. }
  unfold announced_archive.
  pose proof (Hstr archive "token"). destruct (required_str archive "token"); [cbn|done|done].
  pose proof (Hstr archive "digest"). destruct (required_str archive "digest"); [cbn|done|done].
  destruct (u64_param archive "archiveSize"); [cbn|done].
  destruct (u64_param archive "size"); [cbn|done]. by destruct (u64_param archive "files").
Qed.

(** The requests of a transfer that held a lease: the lease's first and last. *)
Definition leased (ed : ExecutorEndpoint.t) (cs : list (ExecutorEndpoint.t * string * Value)) : Prop :=
  exists p lease inner,
    cs = (ed, "resource.lease.acquire", lease) :: inner ++ [(ed, "resource.lease.release", grant p)].

(** A relay always ends, and gives its lease back: given fuel for the
    archive's size it returns (it does not panic), and unless the destination
    granted no lease (then at most the request for it was sent), its last
    request releases the lease, on every error path too. *)
Theorem relay_archive_releases_its_lease fuel s d dp mode archive c w o c' w' :
  answers_u64 ->
  (forall a, announced_archive archive = Ok a ->
     archive_size a <= u64_max /\ archive_size a <= Z.of_nat fuel) ->
  relay_archive fuel s d dp mode archive c w = (o, c', w') ->
  o <> Panic /\
  exists cs, made c cs c' /\
    ((is_ok o = false /\ Forall (fun x => x.1.2 = "resource.lease.acquire") cs) \/
     exists ed, endpoint_of c d = Some ed /\ leased ed cs).
Proof.
  intros Hu Hfuel. unfold relay_archive. unfold mbind at 1, M_bind at 1, lift at 1.
  pose proof (announced_archive_total archive) as Htotal.
  destruct (announced_archive archive) as [a|e|]; [clear Htotal| |done].
  2: { intros [= <- <- <-]. split; [done|]. exists []. split; [apply made_nil|by left]. }
  destruct (Hfuel a eq_refl) as [Hmax Hsize].
  unfold mbind at 1, M_bind at 1.
  destruct (relay_permit d ".workbench-relay-" dp c w) as [[op c1] w1] eqn:Hp.
  destruct op as [p|e|].
  - apply relay_permit_Ok in Hp as (ed & lease & u & Hed & _ & H1%exchanged_made & _). intros Hrun.
    assert (o <> Panic) as Ho.
    { intros ->. revert Hrun. unfold releasing, attempt, ignore_error, mbind, M_bind.
      pose proof (transfer_archive_total fuel s d dp mode a p Hu Hmax Hsize c1 w1) as Hno.
      destruct (transfer_archive _ _ _ _ _ _ _ c1 w1) as [[o2 c2] w2].
      pose proof (no_panic_call d "resource.lease.release" (grant p) c2 w2) as Hrel.
      destruct o2; cbn in Hno |- *; [| |done];
        by destruct (call_registered_executor _ _ _ c2 w2) as [[[]?]?]. }
    split; [done|].
    pose proof (quiet_made _ _ _ _ _ _ (quiet_releasing _ _ _ (quiet_transfer_archive _ _ _ _ _ _ _)) Hrun) as _.
    apply (releasing_made _ _ _ _ _ _ _ _ ed) in Hrun as (c2 & w2 & Hbody & Hrel);
      [|apply quiet_transfer_archive|by rewrite (made_endpoint _ _ _ _ H1)|done].
    apply quiet_made in Hbody as [inner Hinner]; [|apply quiet_transfer_archive].
    eexists. split; [exact (made_app _ _ _ _ _ H1 (made_app _ _ _ _ _ Hinner Hrel))|].
    right. exists ed. split; [done|]. by eexists p, _, inner.
  - intros [= <- <- <-]. split; [done|]. unfold relay_permit in Hp.
    unfold mbind at 1, M_bind at 1, get at 1 in Hp. unfold mbind at 1, M_bind at 1 in Hp.
    destruct (call_registered_executor _ _ _ c w) as [[oc c2] w2] eqn:Hcall.
    apply call_made in Hcall as [Hcall _].
    assert (c1 = c2) as -> by (destruct oc; run_handler; congruence).
    destruct (endpoint_of c d) as [ed|] eqn:Hed.
    + destruct Hcall as [Hmade _]. eexists. split; [exact Hmade|]. left. split; [done|]. by repeat constructor.
    + destruct Hcall as [-> _]. exists []. split; [apply made_nil|by left].
  - exfalso. unfold relay_permit in Hp. unfold mbind at 1, M_bind at 1, get at 1 in Hp.
    unfold mbind at 1, M_bind at 1 in Hp.
    destruct (call_registered_executor _ _ _ c w) as [[oc c2] w2] eqn:Hcall.
    apply call_made in Hcall as [_ Hno]. destruct oc; [run_handler; congruence|congruence|done].
Qed.
End transfers.

(** ** Witnesses *)

(** An executor that gives [hello] out, at most three bytes at a time. *)
Definition hello : list ascii := list_ascii_of_string "hello".
Definition encode_text (l : list ascii) : Value := VString (string_of_list_ascii l).
Definition answer_relay (r : Request.t) : string + Response.t :=
  inr (Response.success (Request.request_id r)
    (if decide (Request.action r = "artifact.relay.archive.read")
     then let piece := take 3 (drop (Z.to_nat (default 0 (u64_param (Request.params r) "offset"))) hello) in
          json_object [("bytes", vnat (Z.of_nat (length piece))); ("data", encode_text piece)]
     else json_object [("token", VString "t1"); ("fence", vnat 1)])).
Definition relay_platform : Platform := platform_answering answer_relay.

Definition relay_executor (executor_id : string) : Executor.t :=
  Executor.mk "workbench.dev/v1" (Metadata.mk executor_id ∅ 1 1)
    (ExecutorEndpoint.Local ("/run/" +:+ executor_id)) [] [] HealthStatus.Ready.
Definition relay_state : WorkbenchState.t :=
  WorkbenchState.with_executors [relay_executor "node-a"; relay_executor "node-b"] WorkbenchState.default.
Definition relay_sample : Value :=
  json_object [("token", VString "a1"); ("digest", VString "sha256:a"); ("archiveSize", vnat 5);
               ("size", vnat 9); ("files", vnat 1)].
Abbreviation relay_run := (relay_archive (P := relay_platform) 5 "node-a" "node-b" "/dst" "mirror" relay_sample
    (sample_controller relay_state) (sample_world (fun _ => true))).

Lemma node_serves : serves (P := relay_platform) (ExecutorEndpoint.Local "/run/node-a") "a1" encode_text hello.
Proof.
  intros n rq r off bytes Ha Hps [= <-] _. rewrite Ha, decide_True by done. rewrite Hps. intros [= <-].
  eexists. split; [|by split]. cbn. by eexists (drop 3 _); rewrite take_drop.
Qed.

(** Five bytes in two chunks. *)
Lemma relay_archive_moves_every_byte_witness :
  is_ok relay_run.1.1 = true /\
  exists es pieces, exchanged (P := relay_platform) (sample_controller relay_state) es relay_run.1.2 /\
    written es = encode_text <$> pieces /\ concat pieces = hello.
Proof.
  assert (is_ok relay_run.1.1 = true) as Hok by (vm_compute; reflexivity).
  split; [exact Hok|]. apply ok_run in Hok as [v Hv].
  apply (relay_archive_moves_every_byte (P := relay_platform)) in Hv
    as (a & ed & lease & u & prepared & es & co & rel & Ha & Hed & _ & _ & _ & _ & Hex & _ & Hall).
  injection Ha as <-. injection Hed as <-.
  destruct (Hall _ encode_text hello node_serves eq_refl ltac:(by vm_compute)) as (pieces & Hw & Hc).
  eexists _, pieces. split; [exact Hex|]. split; [|exact Hc]. rewrite <- Hw.
  cbn. unfold written. rewrite omap_app. by rewrite app_nil_r.
Defined.

Lemma answer_relay_u64 : answers_u64 (P := relay_platform).
Proof.
  intros n ep rq r v bytes [= <-] [= <-]. unfold u64_param. case_decide; cbn -[take drop length]; [intros [= <-]; lia|done].
Qed.

(** The same transfer: it held a lease and gave it back. *)
Lemma relay_archive_releases_its_lease_witness :
  exists cs, made (sample_controller relay_state) cs relay_run.1.2 /\
    exists ed, leased ed cs.
Proof.
  destruct relay_run as [[o c'] w'] eqn:Hrun.
  assert (is_ok o = true) as Hok.
  { change o with (o, c', w').1.1. rewrite <- Hrun. vm_compute. reflexivity. }
  apply (relay_archive_releases_its_lease (P := relay_platform)) in Hrun
    as (_ & cs & Hmade & [[Ho _]|(ed & _ & Hl)]).
  - congruence.
  - exists cs. split; [exact Hmade|]. by exists ed.
  - apply answer_relay_u64.
  - intros a [= <-]. vm_compute. split; congruence.
Defined.
End Relay.

#[export] Hint Resolve Relay.quiet_relay_artifact : quiet.
