(* ===== verification/Transactions.v ===== *)
(** * Activation transactions and handoffs ([crates/workbench-runtime/src/controller.rs])

    [transaction.*] keeps the journal of an activation; [handoff.*] passes work
    between agents, an acceptance handoff under an acceptance lease and with a
    report. *)

From Stdlib Require Import String.
From S2P Require Import Prelude RustStd History Json Protocol Schema Store Leases Tasks.
From S2P Require Import Contracts Lifecycles Controller.

Module Transactions.
Import Controller.

Section handlers.
Context {P : Platform}.

Definition transaction_is (transaction_id : string) (x : ActivationTransaction.t) : bool :=
  bool_decide (ActivationTransaction.id x = transaction_id).

Definition unknown_transaction (transaction_id : string) : RpcError.t :=
  RpcError.new "TRANSACTION_NOT_FOUND" ("unknown transaction: " +:+ transaction_id).

Definition transaction_begin (params : Value) : handler Value :=
  key ← lift (required_str params "idempotencyKey");
  c ← get;
  match bfind (fun x => bool_decide (ActivationTransaction.idempotency_key x = key)
                        && bool_decide (str_param params "workspaceSessionId" =
                                        Some (ActivationTransaction.workspace_session_id x)))
          (WorkbenchState.transactions (state c)) with
  | Some existing => mret (json_object [("transaction", to_value existing); ("reused", VBool true)])
  | None =>
      n ← now;
      u ← fresh_uuid;
      workspace ← lift (required_str params "workspaceSessionId");
      target ← lift (required_str params "target");
      generation ← lift (required_str params "generationId");
      let transaction :=
        ActivationTransaction.mk ("transaction_" +:+ u) workspace key target generation
          (str_param params "previousGenerationId") TransactionState.Planned n n [] []
          (u64_param params "leaseFence") [] None in
      modify_state (fun s => WorkbenchState.with_transactions
        (WorkbenchState.transactions s ++ [transaction]) s) ;;
      persist ;;
      mret (json_object [("transaction", to_value transaction); ("reused", VBool false)])
  end.

Definition transaction_get (params : Value) : handler Value :=
  transaction_id ← lift (required_str params "transactionId");
  c ← get;
  transaction ← lift (ok_or (unknown_transaction transaction_id)
                        (bfind (transaction_is transaction_id) (WorkbenchState.transactions (state c))));
  mret (to_value transaction).

Definition transaction_list : handler Value :=
  c ← get; mret (list_value (WorkbenchState.transactions (state c))).

Definition finished (s : TransactionStepState.t) : bool :=
  match s with
  | TransactionStepState.Succeeded | TransactionStepState.Failed
  | TransactionStepState.Compensated | TransactionStepState.OutcomeUnknown => true
  | _ => false
  end.

(** A vector's length stays below 2^63, so its successor does not wrap. *)
Definition journal_entry (n : Z) (params : Value) (step : string) (st : TransactionStepState.t)
    (x : ActivationTransaction.t) : TransactionJournalEntry.t :=
  TransactionJournalEntry.mk
    (Z.of_nat (length (ActivationTransaction.journal x)) + 1) step st
    (u32_wrap (default 1 (u64_param params "attempt")))
    (default n (u64_param params "startedAt"))
    (if finished st then Some n else None)
    (str_param params "inputDigest") (str_param params "outputDigest")
    (str_param params "executorId") (u64_param params "fence")
    (default VNull (vget params "details")).

(** The state a recorded step moves the transaction to. *)
Definition next_state (step : string) (st : TransactionStepState.t) (s : TransactionState.t) :
    TransactionState.t :=
  match st with
  | TransactionStepState.Started => TransactionState.Running
  | TransactionStepState.Succeeded => if decide (step = "activate") then TransactionState.Activated else s
  | TransactionStepState.Failed => TransactionState.Failed
  | TransactionStepState.OutcomeUnknown => TransactionState.OutcomeUnknown
  | TransactionStepState.Compensated => TransactionState.RolledBack
  | TransactionStepState.Planned => s
  end.

Definition completed_after (step : string) (st : TransactionStepState.t) (steps : list string) : list string :=
  match st with
  | TransactionStepState.Succeeded => if decide (step ∈ steps) then steps else steps ++ [step]
  | _ => steps
  end.

Definition previous_after (params : Value) (step : string) (previous : option string) : option string :=
  if decide (step = "activate") then
    match str_param params "previousGenerationId" with Some p => Some p | None => previous end
  else previous.

(** The assignments of [transaction.record]. *)
Definition recorded (n : Z) (params : Value) (step : string) (st : TransactionStepState.t)
    (x : ActivationTransaction.t) : ActivationTransaction.t :=
  ActivationTransaction.mk (ActivationTransaction.id x) (ActivationTransaction.workspace_session_id x)
    (ActivationTransaction.idempotency_key x) (ActivationTransaction.target x)
    (ActivationTransaction.generation_id x)
    (previous_after params step (ActivationTransaction.previous_generation_id x))
    (next_state step st (ActivationTransaction.state x))
    (ActivationTransaction.created_at x) n
    (completed_after step st (ActivationTransaction.completed_steps x))
    (ActivationTransaction.journal x ++ [journal_entry n params step st x])
    (ActivationTransaction.lease_fence x) (ActivationTransaction.evidence x)
    (ActivationTransaction.error x).

(** The transaction's fence against the one the request used. *)
Definition fence_admits (x : ActivationTransaction.t) (params : Value) : bool :=
  match ActivationTransaction.lease_fence x, u64_param params "fence" with
  | Some expected, Some actual => expected =? actual
  | _, _ => true
  end.

Definition stale_fence (x : ActivationTransaction.t) (params : Value) : RpcError.t :=
  RpcError.new "STALE_FENCING_TOKEN"
    ("transaction fence is " +:+ pretty (default 0 (ActivationTransaction.lease_fence x)) +:+
     ", request used " +:+ pretty (default 0 (u64_param params "fence"))).

Definition transaction_record (params : Value) : handler Value :=
  transaction_id ← lift (required_str params "transactionId");
  step ← lift (required_str params "step");
  st ← lift (ok_or (RpcError.new "INVALID_PARAMS" "state is required") (vget params "state"));
  step_state ← lift (invalid_params (from_value st));
  c ← get;
  transaction ← lift (ok_or (unknown_transaction transaction_id)
                        (bfind (transaction_is transaction_id) (WorkbenchState.transactions (state c))));
  guard (fence_admits transaction params) (stale_fence transaction params) ;;
  n ← now;
  modify_state (fun s => WorkbenchState.with_transactions
    (update_first (transaction_is transaction_id) (recorded n params step step_state)
       (WorkbenchState.transactions s)) s) ;;
  persist ;;
  mret (to_value (recorded n params step step_state transaction)).

(** ** Handoffs *)

Definition handoff_is (handoff_id : string) (h : Handoff.t) : bool := bool_decide (Handoff.id h = handoff_id).

Definition unknown_handoff (handoff_id : string) : RpcError.t :=
  RpcError.new "HANDOFF_NOT_FOUND" ("unknown handoff: " +:+ handoff_id).

(** A handoff with the fields the handlers assign. *)
Definition with_handoff (id : string) (created_at : Z) (acknowledged_at completed_at : option Z)
    (report : option Value) (h : Handoff.t) : Handoff.t :=
  Handoff.mk id (Handoff.kind h) (Handoff.workspace_session_id h) (Handoff.objective h)
    (Handoff.from h) (Handoff.to h) (Handoff.artifacts h) (Handoff.evidence h)
    (Handoff.completed_actions h) (Handoff.pending_actions h) (Handoff.acceptance_criteria h)
    (Handoff.constraints h) (Handoff.blockers h) created_at acknowledged_at completed_at report.

Definition handoff_create (params : Value) : handler Value :=
  handoff ← lift (invalid_params (from_value params));
  new_id ← (if Str.is_empty (Handoff.id handoff) then u ← fresh_uuid; mret ("handoff_" +:+ u)
            else mret (Handoff.id handoff) : handler string);
  created_at ← (if Handoff.created_at handoff =? 0 then now else mret (Handoff.created_at handoff));
  let handoff := with_handoff new_id created_at (Handoff.acknowledged_at handoff)
                   (Handoff.completed_at handoff) (Handoff.report handoff) handoff in
  modify_state (fun s => WorkbenchState.with_handoffs (WorkbenchState.handoffs s ++ [handoff]) s) ;;
  persist ;;
  mret (to_value handoff).

Definition handoff_get (params : Value) : handler Value :=
  handoff_id ← lift (required_str params "handoffId");
  c ← get;
  handoff ← lift (ok_or (unknown_handoff handoff_id)
                    (bfind (handoff_is handoff_id) (WorkbenchState.handoffs (state c))));
  mret (to_value handoff).

Definition kind_name (k : HandoffKind.t) : string :=
  match k with HandoffKind.Work => "work" | HandoffKind.Acceptance => "acceptance" end.

Definition handoff_list (params : Value) : handler Value :=
  c ← get;
  let kind := str_param params "kind" in
  let agent := str_param params "agentId" in
  mret (list_value
    (bfilter (fun h =>
        from_option (fun v => bool_decide (v = kind_name (Handoff.kind h))) true kind
        && from_option (fun v => bool_decide (AgentRoleRef.agent_id (Handoff.to h) = Some v)) true agent)
       (WorkbenchState.handoffs (state c)))).

(** The acceptance lease a report or a completion is made under. *)
Definition acceptance_lease (message : string) (params : Value) : handler Lease.t :=
  resource ← lift (required_str params "acceptanceResource");
  guard (Str.starts_with "acceptance:" resource) (RpcError.new "INVALID_ACCEPTANCE_RESOURCE" message) ;;
  owner ← lift (required_str params "owner");
  token ← lift (required_str params "leaseToken");
  validate resource owner token.

(** [handoff.report = Some(report)] *)
Definition reported (report : Value) (h : Handoff.t) : Handoff.t :=
  with_handoff (Handoff.id h) (Handoff.created_at h) (Handoff.acknowledged_at h)
    (Handoff.completed_at h) (Some report) h.

Definition handoff_report (params : Value) : handler Value :=
  handoff_id ← lift (required_str params "handoffId");
  _ ← acceptance_lease "acceptanceResource must use acceptance:<executor>:<port>" params;
  c ← get;
  handoff ← lift (ok_or (unknown_handoff handoff_id)
                    (bfind (handoff_is handoff_id) (WorkbenchState.handoffs (state c))));
  guard (bool_decide (Handoff.kind handoff = HandoffKind.Acceptance))
    (RpcError.new "INVALID_HANDOFF_KIND" "reports are only valid for acceptance handoffs") ;;
  let report := default VNull (vget params "report") in
  modify_state (fun s => WorkbenchState.with_handoffs
    (update_first (handoff_is handoff_id) (reported report) (WorkbenchState.handoffs s)) s) ;;
  persist ;;
  mret (to_value (reported report handoff)).

Definition acknowledged (n : Z) (h : Handoff.t) : Handoff.t :=
  with_handoff (Handoff.id h) (Handoff.created_at h) (Some n) (Handoff.completed_at h) (Handoff.report h) h.
Definition completed (n : Z) (h : Handoff.t) : Handoff.t :=
  with_handoff (Handoff.id h) (Handoff.created_at h) (Handoff.acknowledged_at h) (Some n) (Handoff.report h) h.

(** What completing an acceptance takes beyond the acknowledgement. *)
Definition accept (params : Value) (handoff : Handoff.t) : handler unit :=
  if decide (Handoff.kind handoff = HandoffKind.Acceptance) then
    _ ← acceptance_lease "acceptance resource is required" params;
    guard (match Handoff.report handoff with Some _ => true | None => false end)
      (RpcError.new "ACCEPTANCE_REPORT_REQUIRED" "acceptance report is required before completion")
  else mret tt.

(** ["handoff.acknowledge" | "handoff.complete"] *)
Definition handoff_advance (action : string) (params : Value) : handler Value :=
  handoff_id ← lift (required_str params "handoffId");
  c ← get;
  handoff ← lift (ok_or (unknown_handoff handoff_id)
                    (bfind (handoff_is handoff_id) (WorkbenchState.handoffs (state c))));
  n ← now;
  change ← (if decide (action = "handoff.acknowledge") then
              guard (match Handoff.acknowledged_at handoff with Some _ => false | None => true end)
                (RpcError.new "HANDOFF_ALREADY_ACKNOWLEDGED"
                   ("handoff already acknowledged: " +:+ handoff_id)) ;;
              mret (acknowledged n)
            else
              guard (match Handoff.acknowledged_at handoff with Some _ => true | None => false end)
                (RpcError.new "HANDOFF_NOT_ACKNOWLEDGED" "handoff must be acknowledged before completion") ;;
              accept params handoff ;;
              mret (completed n) : handler (Handoff.t -> Handoff.t));
  modify_state (fun s => WorkbenchState.with_handoffs
    (update_first (handoff_is handoff_id) change (WorkbenchState.handoffs s)) s) ;;
  persist ;;
  mret (to_value (change handoff)).
End handlers.

(** ** Lifecycles *)

Section lifecycles.
Context {P : Platform}.

Lemma completed_after_prefix step st steps : steps `prefix_of` completed_after step st steps.
Proof. unfold completed_after. destruct st; try done. case_decide; [done|by eexists]. Qed.

Lemma recorded_step n params step st x :
  fence_admits x params = true -> transaction_step x (recorded n params step st x).
Proof.
  intros Hf. split; [done|]. split; [|apply completed_after_prefix].
  exists [journal_entry n params step st x]. split; [done|]. intros [|i] e; [|done]. intros [= <-].
  split; cbn; [lia|].
  unfold fence_admits in Hf. intros f f' Hx Hp. rewrite Hx, Hp in Hf. by apply Z.eqb_eq in Hf.
Qed.

Lemma quiet_acceptance_lease m params : quiet (acceptance_lease m params).
Proof. unfold acceptance_lease. hush. Qed.
#[local] Hint Resolve quiet_acceptance_lease : quiet.
Lemma quiet_accept params h : quiet (accept params h).
Proof. unfold accept. hush. Qed.
#[local] Hint Resolve quiet_accept : quiet.

(** What [accept] guarantees when it lets a completion through. *)
Lemma accept_Ok params h c w c' w' :
  accept params h c w = (Ok tt, c', w') ->
  Handoff.kind h = HandoffKind.Acceptance -> is_Some (Handoff.report h).
Proof.
  unfold accept. intros Hrun Hk. rewrite decide_True in Hrun by done. ok_inv Hrun.
  destruct (Handoff.report h); [by eexists|done].
Qed.

Lemma acknowledged_step n h : Handoff.acknowledged_at h = None -> handoff_step h (acknowledged n h).
Proof. intros Ha. split_and!; cbn; try done; try congruence. by intros -> []. Qed.

Lemma completed_step n h :
  is_Some (Handoff.acknowledged_at h) ->
  (Handoff.kind h = HandoffKind.Acceptance -> is_Some (Handoff.report h)) ->
  handoff_step h (completed n h).
Proof. intros Ha Hr. split_and!; cbn; try done; by eexists. Qed.

Lemma reported_step r h : handoff_step h (reported r h).
Proof. split_and!; cbn; try done; try (by eexists). by intros -> []. Qed.

Lemma keeps_transaction_begin c0 params : keeps (later c0) (transaction_begin params).
Proof. follow transaction_begin. etrans; [done|]. by apply later_with_transactions, evolves_push, _. Qed.
Lemma keeps_transaction_get c0 params : keeps (later c0) (transaction_get params).
Proof. unfold transaction_get. keep. Qed.
Lemma keeps_transaction_list c0 : keeps (later c0) transaction_list.
Proof. unfold transaction_list. keep. Qed.
Lemma keeps_transaction_record c0 params : keeps (later c0) (transaction_record params).
Proof.
  follow transaction_record. etrans; [done|].
  apply later_with_transactions, evolves_update_first; [apply _|]. intros x Hx.
  match goal with Hf : ok_or _ _ = Ok _ |- _ => apply ok_or_Ok in Hf end. simplify_eq.
  by apply recorded_step.
Qed.
Lemma keeps_handoff_create c0 params : keeps (later c0) (handoff_create params).
Proof. follow handoff_create; (etrans; [done|]); by apply later_with_handoffs, evolves_push, _. Qed.
Lemma keeps_handoff_get c0 params : keeps (later c0) (handoff_get params).
Proof. unfold handoff_get. keep. Qed.
Lemma keeps_handoff_list c0 params : keeps (later c0) (handoff_list params).
Proof. unfold handoff_list. keep. Qed.
Lemma keeps_handoff_report c0 params : keeps (later c0) (handoff_report params).
Proof.
  follow handoff_report. etrans; [by apply later_set_sent|].
  apply later_with_handoffs, evolves_update_first; [apply _|]. intros x Hx. apply reported_step.
Qed.
Lemma keeps_handoff_advance c0 action params : keeps (later c0) (handoff_advance action params).
Proof.
  follow handoff_advance;
    (etrans; [|apply later_with_handoffs, evolves_update_first; [apply _|intros x Hx]]; [settle|]);
    match goal with Hf : ok_or _ _ = Ok _ |- _ =>
      apply ok_or_Ok in Hf; cbn in Hx; rewrite Hf in Hx; injection Hx as <- end.
  - apply acknowledged_step. by destruct (Handoff.acknowledged_at _).
  - apply completed_step; [by destruct (Handoff.acknowledged_at _)|].
    match goal with Hr : accept _ _ _ _ = (Ok ?u, _, _) |- _ => destruct u; by eapply accept_Ok end.
Qed.

Lemma acks_transaction_begin params : acks (transaction_begin params).
Proof. unfold transaction_begin. ack. Qed.
Lemma acks_transaction_get params : acks (transaction_get params).
Proof. unfold transaction_get. ack. Qed.
Lemma acks_transaction_list : acks transaction_list.
Proof. unfold transaction_list. ack. Qed.
Lemma acks_transaction_record params : acks (transaction_record params).
Proof. unfold transaction_record. ack. Qed.
Lemma acks_handoff_create params : acks (handoff_create params).
Proof. unfold handoff_create. ack. Qed.
Lemma acks_handoff_get params : acks (handoff_get params).
Proof. unfold handoff_get. ack. Qed.
Lemma acks_handoff_list params : acks (handoff_list params).
Proof. unfold handoff_list. ack. Qed.
Lemma acks_handoff_report params : acks (handoff_report params).
Proof. unfold handoff_report. ack. Qed.
Lemma acks_handoff_advance action params : acks (handoff_advance action params).
Proof. unfold handoff_advance. ack. Qed.
End lifecycles.
End Transactions.

#[export] Hint Resolve
  Transactions.keeps_transaction_begin Transactions.keeps_transaction_get
  Transactions.keeps_transaction_list Transactions.keeps_transaction_record
  Transactions.keeps_handoff_create Transactions.keeps_handoff_get Transactions.keeps_handoff_list
  Transactions.keeps_handoff_report Transactions.keeps_handoff_advance : keeps.
#[export] Hint Resolve
  Transactions.acks_transaction_begin Transactions.acks_transaction_get
  Transactions.acks_transaction_list Transactions.acks_transaction_record
  Transactions.acks_handoff_create Transactions.acks_handoff_get Transactions.acks_handoff_list
  Transactions.acks_handoff_report Transactions.acks_handoff_advance : acks.
