(* ===== verification/Invoke.v ===== *)
(** * Capability invocation ([crates/workbench-runtime/src/controller.rs])

    [capability.invoke] is how work reaches an executor: the session and the
    contract are looked up, authority and approval are checked, a task is
    opened, the declared locks are taken, and the request is dispatched.  The
    handler is cut at the steps its source takes, in their order. *)

From Stdlib Require Import Ascii String.
From S2P Require Import Prelude RustStd History Json Protocol Schema Store Leases Tasks.
From S2P Require Import Contracts Evidence Lifecycles Controller Samples Registry Approvals.
From S2P Require Import Drivers TaskRpc.

Module Invoke.
Import Controller.

(** What the request names, resolved. *)
Record target := Target {
  executor_id : string;
  capability : string;
  workspace : string;
  owner : string;
  key : string;
  executor : Executor.t;
  contract : CapabilityDescriptor.t;
}.

Section handlers.
Context {P : Platform}.

(** ** The contract *)

Definition resolve (params : Value) : handler (target * Value) :=
  executor_id ← lift (required_str params "executorId");
  capability ← lift (required_str params "capability");
  workspace ← lift (required_str params "workspaceSessionId");
  c ← get;
  authority ← lift (ok_or (Registry.unknown_session workspace)
    (session ← bfind (Registry.session_is workspace) (WorkbenchState.sessions (state c));
     WorkspaceSession.authority session));
  guard (bool_decide (SessionAuthority.controller_id authority = id c))
    (RpcError.new "NOT_SESSION_AUTHORITY"
       ("session is owned by " +:+ SessionAuthority.controller_id authority)) ;;
  owner ← lift (required_str params "owner");
  key ← lift (required_str params "idempotencyKey");
  let input := default (VObject []) (vget params "input") in
  executor ← find_executor (unknown_executor executor_id) executor_id;
  contract ← lift (ok_or (RpcError.new "CAPABILITY_NOT_FOUND" ("executor does not provide " +:+ capability))
    (bfind (fun d => bool_decide (CapabilityDescriptor.name d = capability)) (Executor.capabilities executor)));
  guard (bool_decide (head (Str.split "."%char (CapabilityDescriptor.version contract)) = Some "2"))
    (RpcError.new "PEER_CAPABILITY_VERSION_MISMATCH"
       (executor_id +:+ "/" +:+ capability +:+ " does not implement authority protocol v2")) ;;
  mret (Target executor_id capability workspace owner key executor contract, input).

(** ** Read grants *)

Definition reads_files (capability : string) : bool :=
  bool_decide (capability ∈ ["filesystem.resolve"; "filesystem.stat"; "filesystem.read";
                             "filesystem.list"; "filesystem.search"]).
Definition reads_application (capability : string) : bool :=
  bool_decide (capability ∈ ["application.inspect"; "application.materialize"]).

(** [input] with the grant that covers the path under [path_key], if any. *)
Definition with_grant (t : target) (grant_capability path_key : string) (input : Value) : handler Value :=
  input ← set_field input "_workspaceSessionId" (VString (workspace t));
  match str_param input path_key with
  | Some path =>
      found ← Approvals.find_read_grant (executor_id t) (workspace t) grant_capability path;
      match found with
      | Some grant => set_field input "_readGrantId" (VString (ReadGrant.id grant))
      | None => mret input
      end
  | None => mret input
  end.

Definition attach_grants (t : target) (input : Value) : handler Value :=
  input ← (if reads_files (capability t) then with_grant t (capability t) "path" input else mret input);
  if reads_application (capability t) then
    with_grant t "filesystem.read"
      (if decide (capability t = "application.inspect") then "applicationPath" else "baselinePath") input
  else mret input.

(** ** Authority *)

Definition readonly (t : target) : bool :=
  bool_decide (CapabilityDescriptor.authority (contract t) = CapabilityAuthority.None).

Definition check_draining (t : target) : handler unit :=
  if decide (CapabilityDescriptor.authority (contract t) = CapabilityAuthority.WorkspaceDriver) then
    draining ← Drivers.workspace_is_draining (workspace t) (owner t);
    guard (negb draining)
      (RpcError.new "DRIVER_DRAINING"
         "workspace driver is draining for an automatic handoff; new mutations are disabled")
  else mret tt.

(** The environment of an agent. *)
Definition agent_environment (t : target) (input : Value) : handler Value :=
  if decide (capability t = "agent.start") then
    let role := default "agent" (str_param input "role") in
    let agent_id := default (owner t) (str_param input "agentId") in
    input ← match vget input "env" with
            | Some (VObject _) => mret input
            | _ => set_field input "env" (VObject [])
            end;
    env ← lift (expect (as_object (vindex input "env")));
    let env := obj_insert env "WORKBENCH_WORKSPACE_SESSION_ID" (VString (workspace t)) in
    let env := obj_insert env "WORKBENCH_NODE_ID" (VString (executor_id t)) in
    let env := obj_insert env "WORKBENCH_AGENT_ROLE" (VString role) in
    let env := obj_insert env "WORKBENCH_AGENT_ID" (VString agent_id) in
    let env := obj_insert env "WORKBENCH_RUN_SUMMARY" (VString (role +:+ " task in " +:+ workspace t)) in
    set_field input "env" (VObject env)
  else mret input.

Definition lease_optional (capability : string) : bool :=
  bool_decide (capability ∈ ["tunnel.ensure"; "tunnel.stop"]).

(** The lease the contract asks for, and the input that proves it. *)
Definition required_authority (fuel : nat) (t : target) (params input : Value) :
    handler (option Lease.t * Value) :=
  match CapabilityDescriptor.authority (contract t) with
  | CapabilityAuthority.None | CapabilityAuthority.DesktopSession => mret (None, input)
  | CapabilityAuthority.WorkspaceDriver =>
      token ← lift (required_str params "driverToken");
      lease ← validate (Drivers.workspace_resource (workspace t)) (owner t) token;
      mret (Some lease, input)
  | CapabilityAuthority.ResourceLease template =>
      resource ← lift (render_capability_authority_resource fuel template (executor_id t) input);
      match str_param params "authorityLeaseToken" with
      | Some token =>
          qualified ← resource_owner (owner t);
          let grant := json_object [("resource", VString resource); ("owner", VString qualified);
                                    ("token", VString token)] in
          value ← call_registered_executor (executor_id t) "resource.lease.validate" grant;
          input ← set_field input "_resourceLeases" (VArray [grant]);
          lease ← lift (map_err (RpcError.new "INVALID_LEASE") (from_value value));
          mret (Some lease, input)
      | None =>
          if lease_optional (capability t) then mret (None, input)
          else throw (RpcError.new "RESOURCE_LEASE_REQUIRED"
                        "resource operation requires an Executor-issued lease")
      end
  end.

(** ** Execution mode *)

Definition execution_mode (params : Value) : string := default "auto" (str_param params "executionMode").
Definition valid_mode (mode : string) : bool := bool_decide (mode ∈ ["auto"; "sync"; "async"]).

(** Whether the request is the one a worker of this controller makes for the
    task it names; the token is taken out of the table when it matches. *)
Definition resume_authorized (params : Value) : handler bool :=
  match str_param params "_resumeTaskId" with
  | None => mret false
  | Some task_id =>
      c ← get;
      let supplied := str_param params "_resumeToken" in
      if decide (is_Some supplied /\ supplied = async_resume_tokens c !! task_id) then
        modify (fun c => set_resume_tokens (delete task_id (async_resume_tokens c)) c) ;;
        mret true
      else mret false
  end.

Definition runs_async (t : target) (params : Value) : bool :=
  match str_param params "_resumeTaskId" with Some _ => false | None => true end
  && (bool_decide (execution_mode params = "async")
      || (bool_decide (execution_mode params = "auto")
          && bool_decide (CapabilityDescriptor.execution_kind (contract t) = ExecutionKind.Background))).

(** The worker thread's request; its identifier is drawn when it is spawned. *)
Definition spawn_worker (params : Value) (task_id : string) (correlation request : option string) :
    handler unit :=
  worker_params ← set_field params "executionMode" (VString "sync");
  worker_params ← set_field worker_params "_resumeTaskId" (VString task_id);
  u ← fresh_uuid;
  let resume_token := "resume_" +:+ u in
  modify (fun c => set_resume_tokens (<[task_id := resume_token]> (async_resume_tokens c)) c) ;;
  worker_params ← set_field worker_params "_resumeToken" (VString resume_token);
  u ← fresh_uuid;
  let r := Request.new u "capability.invoke" worker_params in
  let r := {| Request.api_version := Request.api_version r; Request.request_id := Request.request_id r;
              Request.correlation_id := correlation; Request.parent_request_id := request;
              Request.run_id := Request.run_id r; Request.span_id := Request.span_id r;
              Request.parent_span_id := Request.parent_span_id r;
              Request.agent_session_id := Request.agent_session_id r;
              Request.action := Request.action r; Request.params := Request.params r |} in
  modify (fun c => set_workers (workers c ++ [r]) c).

Definition queue_full (c : t) : RpcError.t :=
  retryable_error "TASK_QUEUE_FULL"
    ("controller async task limit " +:+ pretty (async_maximum c) +:+ " reached").

Definition invoke_async (t : target) (params input : Value) : handler Value :=
  c ← get;
  guard (async_active c <? async_maximum c) (queue_full c) ;;
  modify (fun c => set_async_active (async_active c + 1) c) ;;
  '(correlation, request) ← current_trace;
  '(task, reused) ← submit_traced (workspace t) (executor_id t) (capability t) input (key t)
                      correlation request;
  if (reused : bool) then
    modify (fun c => set_async_active (async_active c - 1) c) ;;
    mret (json_object [("task", to_value task); ("reused", VBool true);
                       ("accepted", VBool (negb (TaskState.terminal (Task.state task))))])
  else
    persisted ← attempt persist;
    match persisted with
    | inl error =>
        modify (fun c => set_async_active (async_active c - 1) c) ;;
        throw error
    | inr _ =>
        observe_task_state task ;;
        spawn_worker params (Task.id task) correlation request ;;
        mret (json_object [("task", to_value task); ("reused", VBool false); ("accepted", VBool true)])
    end.

(** ** Approval *)

Definition runs_command (capability : string) : bool :=
  bool_decide (capability ∈ ["process.start"; "command.run"; "artifact.build"; "agent.start"]).

(** [approval.state = Consumed; approval.consumed_at = Some(n)] *)
Definition consumed (n : Z) (a : Approval.t) : Approval.t :=
  Approval.mk (Approval.id a) (Approval.digest a) (Approval.owner a) (Approval.reason a)
    ApprovalState.Consumed (Approval.created_at a) (Approval.approved_at a) (Some n)
    (Approval.expires_at a).

(** The approval is for this very command of this owner, and has not expired. *)
Definition approval_valid (digest owner : string) (a : Approval.t) : handler bool :=
  if negb (bool_decide (Approval.digest a = digest)) || negb (bool_decide (Approval.owner a = owner))
     || negb (bool_decide (Approval.state a = ApprovalState.Approved))
  then mret false
  else match Approval.expires_at a with
       | None => mret false
       | Some expires => n ← now; mret (negb (expires <=? n))
       end.

Definition consume_approval (t : target) (params input : Value) : handler Value :=
  if runs_command (capability t) && command_requires_approval input then
    digest ← lift (command_digest input);
    approval_id ← lift (required_str params "approvalId");
    c ← get;
    approval ← lift (ok_or (RpcError.new "APPROVAL_NOT_FOUND" "approval not found")
      (bfind (Approvals.approval_is approval_id) (WorkbenchState.approvals (state c))));
    valid ← approval_valid digest (owner t) approval;
    guard valid (RpcError.new "APPROVAL_INVALID" "approval does not authorize this exact command") ;;
    n ← now;
    modify_state (fun s => WorkbenchState.with_approvals
      (update_first (Approvals.approval_is approval_id) (consumed n) (WorkbenchState.approvals s)) s) ;;
    input ← set_field input "approvalDigest" (VString digest);
    persist ;;
    mret input
  else mret input.

(** ** The task *)

Definition in_progress (task_id : string) : RpcError.t :=
  RpcError.new "TASK_IN_PROGRESS" ("task " +:+ task_id +:+ " is already in progress").
Definition retry_exhausted (task_id : string) : RpcError.t :=
  RpcError.new "TASK_RETRY_EXHAUSTED" ("task " +:+ task_id +:+ " exhausted retry policy").

(** The task of this invocation, or the answer an earlier one already has. *)
Definition open_task (t : target) (params input : Value) (resume : bool) : handler (Task.t + Value) :=
  '(correlation, request) ← current_trace;
  '(task, reused) ← submit_traced (workspace t) (executor_id t) (capability t) input (key t)
                      correlation request;
  if negb reused then mret (inl task)
  else
    let may_retry := Task.attempt task <? RetryPolicy.max_attempts (CapabilityDescriptor.retry (contract t)) in
    match Task.state task with
    | TaskState.Succeeded =>
        mret (inr (json_object [("task", to_value task); ("reused", VBool true);
                                ("result", default VNull (Task.output task))]))
    | TaskState.Failed | TaskState.TimedOut | TaskState.OutcomeUnknown =>
        if may_retry then task ← retry invalid_task_state (Task.id task); mret (inl task)
        else throw (retry_exhausted (Task.id task))
    | TaskState.Queued =>
        if bool_decide (str_param params "_resumeTaskId" = Some (Task.id task)) && resume
        then mret (inl task) else throw (in_progress (Task.id task))
    | TaskState.Running => throw (in_progress (Task.id task))
    | _ => throw (retry_exhausted (Task.id task))
    end.

(** [let _ = tasks.transition(id, st, None, Some(error)); self.persist()?; Err(error)] *)
Definition fail_task {A} (task_id : string) (st : TaskState.t) (failure : TaskFailure.t)
    (error : RpcError.t) : handler A :=
  ignore_error (transition task_id st None (Some failure)) ;;
  persist ;;
  throw error.

(** ** Locks *)

Definition lock_resources (fuel : nat) (t : target) (input : Value) : outcome RpcError.t (list string) :=
  locks ← collect (fun lock => render_lock fuel (LockTemplate.key lock) input)
            (CapabilityDescriptor.locks (contract t));
  if bool_decide (capability t = "command.run") && negb (readonly t)
  then extra ← command_resources input; Ok (locks ++ extra)
  else Ok locks.

(** [release_acquired]: newest first, errors ignored. *)
Fixpoint release_all (leases : list Lease.t) : handler unit :=
  match leases with
  | [] => mret tt
  | lease :: leases' =>
      ignore_error (release (Lease.resource lease) (Lease.owner lease) (Lease.token lease)) ;;
      release_all leases'
  end.
Definition release_acquired (acquired : list Lease.t) : handler unit := release_all (reverse acquired).

(** The acquisition loop: a conflict releases what was taken and fails the task. *)
Fixpoint acquire_locks (t : target) (task_id : string) (resources : list string) (acquired : list Lease.t) :
    handler (list Lease.t) :=
  match resources with
  | [] => mret acquired
  | resource :: resources' =>
      acquisition ← attempt (acquire LeaseKind.Resource resource (owner t)
        (u64_saturating_add (CapabilityDescriptor.timeout_ms (contract t)) 30000));
      match acquisition with
      | inr lease => acquire_locks t task_id resources' (acquired ++ [lease])
      | inl error =>
          release_acquired acquired ;;
          fail_task task_id TaskState.Failed (TaskRpc.failure_of error) error
      end
  end.

(** ** Dispatch *)

(** One entry of [_authority]. *)
Definition authority_entry (controller_id : string) (n : Z) (lease : Lease.t) : Value :=
  json_object [("controllerId", VString controller_id); ("resource", VString (Lease.resource lease));
               ("fence", vnat (executor_execution_fence n (Lease.fence lease)));
               ("expiresAt", vnat (Lease.expires_at lease))].

Fixpoint authority_entries (controller_id : string) (leases : list Lease.t) : handler (list Value) :=
  match leases with
  | [] => mret []
  | lease :: leases' =>
      n ← now;
      rest ← authority_entries controller_id leases';
      mret (authority_entry controller_id n lease :: rest)
  end.

(** The input as the executor gets it. *)
Definition prepare_input (t : target) (authority : option Lease.t) (acquired : list Lease.t) (input : Value) :
    handler Value :=
  c ← get;
  input ← (if readonly t then mret input
           else
             input ← set_field input "_workspaceSessionId" (VString (workspace t));
             entries ← authority_entries (id c)
               (option_list authority ++
                take (length (CapabilityDescriptor.locks (contract t))) acquired);
             set_field input "_authority" (VArray entries));
  input ← set_field input "_sessionRef"
            (json_object [("controllerId", VString (id c)); ("sessionId", VString (workspace t))]);
  set_field input "_agentSessionId" (VString (owner t)).

(** ** Readiness *)

Definition readiness_wait (process_id : string) (timeout_ms : Z) : Value :=
  json_object [("processId", VString process_id); ("timeoutMs", vnat timeout_ms)].

Definition wait_for_process_readiness (t : target) (input result : Value) : handler Value :=
  process_id ← lift (required_str input "processId");
  let timeout_ms :=
    match u64_param input "readinessTimeoutMs" with
    | Some n => n
    | None => default 180000 (readiness ← vget input "readiness"; u64_param readiness "timeoutMs")
    end in
  if decide ((readiness ← vget result "readiness"; str_param readiness "state") = Some "ready")
  then mret result
  else
    request ← traced_request "readiness.wait" (readiness_wait process_id timeout_ms);
    waited ← send (Executor.endpoint (executor t)) request;
    match waited with
    | inl error => throw (retryable_error "EXECUTOR_DISCONNECTED" error)
    | inr waited =>
        if negb (Response.ok waited) then
          throw (default (RpcError.new "INVALID_EXECUTOR_RESPONSE" "readiness.wait returned no result")
                   (Response.error waited))
        else lift (ok_or (RpcError.new "INVALID_EXECUTOR_RESPONSE" "readiness.wait returned an empty result")
                     (Response.result waited))
    end.

(** The tunnel's record as pending, when the wait failed for a passing reason. *)
Definition pending_tunnel (waited : string + Response.t) (value : Value) : handler (option Value) :=
  match waited with
  | inr response =>
      match Response.ok response, Response.error response with
      | false, Some error =>
          if RpcError.retryable error then
            value ← set_field value "observedState" (VString "pending");
            value ← set_field value "pendingReason" (VString (RpcError.message error));
            value ← set_field value "retryable" (VBool true);
            mret (Some value)
          else mret None
      | _, _ => mret None
      end
  | inl _ => mret None
  end.

Definition tunnel_failure (waited : string + Response.t) : RpcError.t :=
  match waited with
  | inr response =>
      if Response.ok response then RpcError.new "TUNNEL_NOT_READY" "tunnel did not become ready"
      else default (RpcError.new "TUNNEL_NOT_READY" "tunnel readiness failed") (Response.error response)
  | inl error => retryable_error "EXECUTOR_DISCONNECTED" error
  end.

Definition wait_for_tunnel_readiness (t : target) (input result : Value) : handler Value :=
  if decide (str_param result "observedState" = Some "ready") then mret result
  else
    tunnel_id ← lift (required_str input "tunnelId");
    let timeout_ms := Z.min (default 8000 (u64_param input "readinessTimeoutMs")) 8000 in
    request ← traced_request "readiness.wait" (readiness_wait ("tunnel-" +:+ tunnel_id) timeout_ms);
    waited ← send (Executor.endpoint (executor t)) request;
    request ← traced_request "tunnel.get" (json_object [("tunnelId", VString tunnel_id)]);
    current ← send (Executor.endpoint (executor t)) request;
    match current with
    | inl error => throw (RpcError.new "EXECUTOR_DISCONNECTED" error)
    | inr current =>
        match Response.ok current, Response.result current with
        | true, Some value =>
            if decide (str_param value "observedState" = Some "ready") then mret value
            else
              pending ← pending_tunnel waited value;
              match pending with
              | Some value => mret value
              | None => throw (tunnel_failure waited)
              end
        | _, _ => throw (tunnel_failure waited)
        end
    end.

(** [input.get("waitReady") == Some(true)], for the two capabilities that have it. *)
Definition wait_ready (t : target) (input result : Value) : handler Value :=
  let asked := bool_decide ((vget input "waitReady" ≫= as_bool) = Some true) in
  if bool_decide (capability t = "process.start") && asked then wait_for_process_readiness t input result
  else if bool_decide (capability t = "tunnel.ensure") && asked then wait_for_tunnel_readiness t input result
  else mret result.

(** ** Outcome *)

Definition artifact_from_result (t : target) (input result : Value) (task_id : string) :
    handler (option Artifact.t) :=
  let described :=
    value ← (if decide (capability t = "artifact.build") then vget result "artifact"
             else if decide (capability t = "artifact.describe" \/ capability t = "artifact.transfer")
             then Some result else None);
    digest ← str_param value "digest";
    path ← (match vget value "path" with Some p => Some p | None => vget value "destination" end ≫= as_str);
    Some (digest, path, default 0 (u64_param value "size")) in
  match described with
  | None => mret None
  | Some (digest, path, size) =>
      n ← now;
      mret (Some
        (Artifact.mk digest (default "generic" (str_param input "artifactType"))
           "workbench.dev/artifact/v1" size [ArtifactLocation.File (executor_id t) path]
           (Provenance.mk (workspace t) (Some task_id) (option_list (str_param input "digest")) ∅) n))
  end.

(** The registry entries a success leaves. *)
Definition record_success (t : target) (input result : Value) (task_id : string) : handler unit :=
  artifact ← artifact_from_result t input result task_id;
  (match artifact with
   | Some artifact =>
       modify_state (fun s => WorkbenchState.with_artifacts
         (upsert_by artifact (Registry.artifact_is (Artifact.digest artifact)) (WorkbenchState.artifacts s)) s)
   | None => mret tt
   end) ;;
  if decide (capability t = "agent.start") then
    agent_id ← lift (required_str input "agentId");
    role ← lift (required_str input "role");
    let agent := AgentInstance.mk agent_id (workspace t) (executor_id t) role
                   (default "process" (str_param input "provider")) AgentState.Running result in
    modify_state (fun s => WorkbenchState.with_agents
      (upsert_by agent (Registry.agent_is agent_id) (WorkbenchState.agents s)) s)
  else if decide (capability t = "agent.stop") then
    modify_state (fun s => WorkbenchState.with_agents
      (update_first (Registry.agent_is (default "" (str_param input "agentId")))
         (Registry.with_agent_state AgentState.Stopped result) (WorkbenchState.agents s)) s)
  else mret tt.

Definition settle_success (t : target) (task_id : string) (input result : Value) : handler Value :=
  ready ← attempt (wait_ready t input result);
  match ready with
  | inl error => fail_task task_id TaskState.Failed (TaskRpc.failure_of error) error
  | inr result =>
      match validate_schema (CapabilityDescriptor.output_schema (contract t)) result "output" with
      | Err error =>
          fail_task task_id TaskState.Failed
            (TaskFailure.mk (RpcError.code error) (RpcError.message error) false (RpcError.details error)) error
      | Panic => lift Panic
      | Ok _ =>
          task ← transition task_id TaskState.Succeeded
                   (Some (retained_task_output (capability t) result)) None;
          record_success t input result (Task.id task) ;;
          persist ;;
          mret (json_object [("task", to_value task); ("reused", VBool false); ("result", result)])
      end
  end.

(** A transport error whose text speaks of a deadline: the executor may still
    be working. *)
Definition timed_out (error : string) : bool := Str.contains "deadline" error.

Definition settle_response (t : target) (task_id : string) (input : Value) (response : string + Response.t) :
    handler Value :=
  match response with
  | inr response =>
      if Response.ok response
      then settle_success t task_id input (default VNull (Response.result response))
      else
        let error := default executor_failed (Response.error response) in
        fail_task task_id TaskState.Failed (TaskRpc.failure_of error) error
  | inl error =>
      let rpc := retryable_error (if timed_out error then "EXECUTOR_TIMEOUT" else "EXECUTOR_UNAVAILABLE") error in
      fail_task task_id (if timed_out error then TaskState.OutcomeUnknown else TaskState.Failed)
        (TaskFailure.mk (RpcError.code rpc) (RpcError.message rpc) true VNull) rpc
  end.

(** From an open task to its outcome. *)
Definition run_task (fuel : nat) (t : target) (task_id : string) (authority : option Lease.t) (input : Value) :
    handler Value :=
  task ← transition task_id TaskState.Running None None;
  resources ← lift (lock_resources fuel t input);
  acquired ← acquire_locks t (Task.id task) resources [];
  input ← prepare_input t authority acquired input;
  request ← traced_request (capability t) input;
  response ← send_with_timeout (Executor.endpoint (executor t)) request
               (Z.max (CapabilityDescriptor.timeout_ms (contract t)) 1);
  (match response with
   | inl error => if timed_out error then mret tt else release_acquired acquired
   | inr _ => release_acquired acquired
   end) ;;
  settle_response t (Task.id task) input response.

(** ** The handler *)

(** A task run to its outcome, or the answer it already has. *)
Definition finish_task (fuel : nat) (t : target) (params : Value) (authority : option Lease.t)
    (resume : bool) (input : Value) : handler Value :=
  opened ← open_task t params input resume;
  match opened with
  | inr answer => mret answer
  | inl task => run_task fuel t (Task.id task) authority input
  end.

Definition capability_invoke (fuel : nat) (params : Value) : handler Value :=
  '(t, input) ← resolve params;
  input ← attach_grants t input;
  check_draining t ;;
  input ← agent_environment t input;
  '(authority, input) ← required_authority fuel t params input;
  _ ← lift (validate_schema (CapabilityDescriptor.input_schema (contract t)) input "input");
  guard (valid_mode (execution_mode params))
    (RpcError.new "INVALID_PARAMS" "executionMode must be auto, sync, or async") ;;
  resume ← resume_authorized params;
  if runs_async t params then invoke_async t params input
  else
    input ← consume_approval t params input;
    finish_task fuel t params authority resume input.
End handlers.

(** ** Lifecycles *)

Section lifecycles.
Context {P : Platform}.

Lemma quiet_resolve params : quiet (resolve params).
Proof. unfold resolve. hush. Qed.
Lemma keeps_with_grant c0 t cap k input : keeps (later c0) (with_grant t cap k input).
Proof. unfold with_grant. keep. Qed.
Lemma acks_with_grant t cap k input : acks (with_grant t cap k input).
Proof. unfold with_grant. ack. Qed.
#[local] Hint Resolve quiet_resolve : quiet.
#[local] Hint Resolve keeps_with_grant quiet_keeps : keeps.
#[local] Hint Resolve acks_with_grant : acks.
Lemma keeps_attach_grants c0 t input : keeps (later c0) (attach_grants t input).
Proof. unfold attach_grants. keep. Qed.
Lemma acks_attach_grants t input : acks (attach_grants t input).
Proof. unfold attach_grants. ack. Qed.
Lemma quiet_check_draining t : quiet (check_draining t).
Proof. unfold check_draining. hush. Qed.
Lemma quiet_agent_environment t input : quiet (agent_environment t input).
Proof. unfold agent_environment. hush. Qed.
Lemma quiet_required_authority fuel t params input : quiet (required_authority fuel t params input).
Proof. unfold required_authority. hush. Qed.
Lemma keeps_resume_authorized c0 params : keeps (later c0) (resume_authorized params).
Proof. unfold resume_authorized. keep. intros c Hc. etrans; [exact Hc|by apply later_same]. Qed.
Lemma acks_resume_authorized params : acks (resume_authorized params).
Proof. unfold resume_authorized. ack. Qed.
Lemma keeps_spawn_worker c0 params tid co rq : keeps (later c0) (spawn_worker params tid co rq).
Proof. unfold spawn_worker. keep; intros c Hc; (etrans; [exact Hc|by apply later_same]). Qed.
Lemma acks_spawn_worker params tid co rq : acks (spawn_worker params tid co rq).
Proof. unfold spawn_worker. ack. Qed.
#[local] Hint Resolve quiet_check_draining quiet_agent_environment quiet_required_authority : quiet.
#[local] Hint Resolve keeps_attach_grants keeps_resume_authorized keeps_spawn_worker : keeps.
#[local] Hint Resolve acks_attach_grants acks_resume_authorized acks_spawn_worker : acks.

Lemma keeps_invoke_async c0 t params input : keeps (later c0) (invoke_async t params input).
Proof. unfold invoke_async. keep; intros c Hc; (etrans; [exact Hc|by apply later_same]). Qed.

Lemma quiet_approval_valid d o a : quiet (approval_valid d o a).
Proof. unfold approval_valid. hush. Qed.
#[local] Hint Resolve quiet_approval_valid : quiet.

(** What a valid approval is. *)
Lemma approval_valid_true d o a c w c' w' :
  approval_valid d o a c w = (Ok true, c', w') ->
  Approval.digest a = d /\ Approval.owner a = o /\ Approval.state a = ApprovalState.Approved /\
  exists e, Approval.expires_at a = Some e /\ clock w (clock_at w) < e.
Proof.
  unfold approval_valid. destruct (_ || _) eqn:Hb; [done|].
  apply orb_false_iff in Hb as [[Hd Ho]%orb_false_iff Hs].
  apply negb_false_iff, bool_decide_eq_true in Hd, Ho, Hs.
  destruct (Approval.expires_at a) as [e|]; [|done]. intros Hrun. run_handler.
  injection Hrun as He _ _. apply negb_true_iff in He. split_and!; try done. exists e. split; [done|lia].
Qed.

Lemma consumed_step n a :
  Approval.state a = ApprovalState.Approved -> approval_step a (consumed n a).
Proof. intros Ha. split_and!; [done| |by eexists]. apply rtc_once. right. left. by split. Qed.

Lemma keeps_consume_approval c0 t params input : keeps (later c0) (consume_approval t params input).
Proof.
  follow consume_approval.
  etrans; [|apply later_with_approvals, evolves_update_first; [apply _|intros x Hx]]; [settle|].
  match goal with Hf : ok_or _ _ = Ok _ |- _ =>
    apply ok_or_Ok in Hf; cbn in Hx; rewrite Hf in Hx; injection Hx as <- end.
  match goal with Hv : approval_valid _ _ _ _ _ = (Ok ?v, _, _), Hb : ?v = true |- _ =>
    rewrite Hb in Hv; apply approval_valid_true in Hv as (_ & _ & Hs & _) end.
  by apply consumed_step.
Qed.
Lemma acks_consume_approval t params input : acks (consume_approval t params input).
Proof. unfold consume_approval. ack. Qed.

Lemma framed_open_task t params input r : framed (open_task t params input r).
Proof. unfold open_task. frame. Qed.
Lemma keeps_fail_task {A} c0 tid st f e : keeps (later c0) (fail_task (A := A) tid st f e).
Proof. unfold fail_task. keep. Qed.
Lemma framed_release_all ls : framed (release_all ls).
Proof. induction ls as [|l ls IH]; simpl; frame; exact IH. Qed.
Lemma framed_release_acquired ls : framed (release_acquired ls).
Proof. apply framed_release_all. Qed.
#[local] Hint Resolve framed_open_task framed_release_acquired : framed.
#[local] Hint Resolve keeps_fail_task : keeps.
Lemma keeps_acquire_locks c0 t tid rs acq : keeps (later c0) (acquire_locks t tid rs acq).
Proof. revert acq. induction rs as [|r rs IH]; intros acq; simpl; keep; apply IH. Qed.
Lemma quiet_authority_entries cid ls : quiet (authority_entries cid ls).
Proof. induction ls as [|l ls IH]; simpl; hush; exact IH. Qed.
#[local] Hint Resolve quiet_authority_entries : quiet.
Lemma quiet_prepare_input t a acq input : quiet (prepare_input t a acq input).
Proof. unfold prepare_input. hush. Qed.
Lemma quiet_wait_ready t input result : quiet (wait_ready t input result).
Proof. unfold wait_ready, wait_for_process_readiness, wait_for_tunnel_readiness, pending_tunnel. hush. Qed.
Lemma quiet_artifact_from_result t input result tid : quiet (artifact_from_result t input result tid).
Proof. unfold artifact_from_result. hush. Qed.
#[local] Hint Resolve quiet_prepare_input quiet_wait_ready quiet_artifact_from_result : quiet.
#[local] Hint Resolve keeps_acquire_locks : keeps.

Lemma keeps_record_success c0 t input result tid : keeps (later c0) (record_success t input result tid).
Proof.
  follow record_success; (etrans; [|apply later_with_agents]; [settle|]).
  all: first [ apply evolves_update_first; [apply _|]; by intros
             | apply Registry.evolves_upsert; [apply _|]; intros x Hx;
               apply bfind_Some in Hx as [Hx%bool_decide_eq_true _]; by rewrite <- Hx ].
Qed.
#[local] Hint Resolve keeps_record_success : keeps.
Lemma keeps_settle_success c0 t tid input result : keeps (later c0) (settle_success t tid input result).
Proof. unfold settle_success. keep. Qed.
#[local] Hint Resolve keeps_settle_success : keeps.
Lemma keeps_settle_response c0 t tid input r : keeps (later c0) (settle_response t tid input r).
Proof. unfold settle_response. keep. Qed.
#[local] Hint Resolve keeps_settle_response keeps_consume_approval keeps_invoke_async : keeps.
Lemma keeps_run_task c0 fuel t tid a input : keeps (later c0) (run_task fuel t tid a input).
Proof. unfold run_task. keep. Qed.
#[local] Hint Resolve keeps_run_task : keeps.
Lemma keeps_finish_task c0 fuel t params a r input : keeps (later c0) (finish_task fuel t params a r input).
Proof. unfold finish_task. keep. Qed.
#[local] Hint Resolve keeps_finish_task : keeps.
Lemma keeps_capability_invoke c0 fuel params : keeps (later c0) (capability_invoke fuel params).
Proof. unfold capability_invoke. keep. Qed.

(** ** Durability *)

Lemma syncs_fail_task {A} tid st f e : syncs (fail_task (A := A) tid st f e).
Proof. unfold fail_task. ack. Qed.
Lemma syncs_settle_response t tid input r : syncs (settle_response t tid input r).
Proof.
  unfold settle_response, settle_success.
  destruct r as [e|r]; [apply syncs_fail_task|]. destruct (Response.ok r); [|apply syncs_fail_task].
  apply syncs_bind_r; intros [e|v]; [apply syncs_fail_task|].
  destruct (validate_schema _ _ _); [|apply syncs_fail_task|by intros c w a c' w'].
  ack.
Qed.
Lemma syncs_run_task fuel t tid a input : syncs (run_task fuel t tid a input).
Proof.
  unfold run_task. repeat (apply syncs_bind_r; intros ?). apply syncs_settle_response.
Qed.

(** A reused task leaves the table as it was. *)
Lemma submit_reused s e cap i k co rq c w task c' w' :
  submit_traced s e cap i k co rq c w = (Ok (task, true), c', w') -> c' = c.
Proof.
  unfold submit_traced. intros Hrun. ok_inv Hrun. unfold task_op in *.
  match goal with H : context [TaskTable.submit_traced] |- _ => unfold TaskTable.submit_traced in H; revert H end.
  destruct (TaskTable.idempotency _ !! _) as [id|]; [|done].
  destruct (TaskTable.tasks _ !! id); [|done]. intros [= _ <- _]. by destruct c.
Qed.
Lemma open_task_answer t params input r c w v c' w' :
  open_task t params input r c w = (Ok (inr v), c', w') -> c' = c.
Proof.
  unfold open_task. intros Hrun. apply bind_Ok_inv in Hrun as ([co rq] & c1 & w1 & H1 & Hrun).
  apply bind_Ok_inv in Hrun as ([task []] & c2 & w2 & H2 & Hrun); [|by ok_inv Hrun].
  assert (c1 = c) as -> by (unfold current_trace in H1; run_handler; by injection H1).
  apply submit_reused in H2 as ->. cbn [negb] in Hrun.
  destruct (Task.state task); repeat case_in Hrun; ok_inv Hrun; done.
Qed.

Lemma attempt_persist_synced c w u c' w' :
  attempt persist c w = (Ok (inr u), c', w') -> synced c'.
Proof.
  unfold attempt. destruct (persist c w) as [[[]?]?] eqn:Hp; intros [=]; simplify_eq.
  by eapply syncs_persist.
Qed.

Lemma acks_invoke_async t params input : acks (invoke_async t params input).
Proof.
  intros c w v c' w' Hrun Hc. unfold invoke_async in Hrun.
  apply bind_Ok_inv in Hrun as (? & c1 & w1 & H1 & Hrun). ok_inv H1.
  apply bind_Ok_inv in Hrun as (? & c2 & w2 & H2 & Hrun). ok_inv H2.
  apply bind_Ok_inv in Hrun as (? & c3 & w3 & H3 & Hrun). ok_inv H3.
  apply bind_Ok_inv in Hrun as ([co rq] & c4 & w4 & H4 & Hrun).
  pose proof (acks_quiet _ quiet_current_trace _ _ _ _ _ H4 Hc) as Hc4.
  apply bind_Ok_inv in Hrun as ([task []] & c5 & w5 & H5 & Hrun).
  - apply submit_reused in H5 as ->. eapply acks_bind; [| |exact Hrun|exact Hc4]; intros; cbn beta; ack.
  - apply bind_Ok_inv in Hrun as ([e|u] & c6 & w6 & H6 & Hrun); [by ok_inv Hrun|].
    apply attempt_persist_synced in H6. eapply acks_bind; [| |exact Hrun|exact H6]; intros; cbn beta; ack.
Qed.
#[local] Hint Resolve acks_invoke_async acks_consume_approval : acks.

Lemma acks_finish_task fuel t params a r input : acks (finish_task fuel t params a r input).
Proof.
  intros c w v c' w' Hrun Hc. unfold finish_task in Hrun.
  apply bind_Ok_inv in Hrun as ([task|answer] & c1 & w1 & H1 & Hrun).
  - by eapply syncs_run_task.
  - apply open_task_answer in H1 as ->. by ok_inv Hrun.
Qed.
#[local] Hint Resolve acks_finish_task : acks.

Lemma acks_capability_invoke fuel params : acks (capability_invoke fuel params).
Proof. unfold capability_invoke. ack. Qed.

(** ** Approvals are used once *)

(** A dangerous command goes through [consume_approval] only with an approval
    for it; what it found and what it left. *)
Lemma consume_approval_Ok t params input c w v c' w' :
  runs_command (capability t) && command_requires_approval input = true ->
  consume_approval t params input c w = (Ok v, c', w') ->
  exists digest i a n, command_digest input = Ok digest /\ required_str params "approvalId" = Ok i /\
    bfind (Approvals.approval_is i) (WorkbenchState.approvals (state c)) = Some a /\
    Approval.digest a = digest /\ Approval.owner a = owner t /\
    Approval.state a = ApprovalState.Approved /\
    (exists e, Approval.expires_at a = Some e /\ clock w (clock_at w) < e) /\
    later c c' /\
    exists c1, later c1 c' /\
      bfind (Approvals.approval_is i) (WorkbenchState.approvals (state c1)) = Some (consumed n a).
Proof.
  intros Hneeds Hrun. pose proof (keeps_run _ _ _ _ _ _ _ (keeps_consume_approval c t params input) Hrun
    ltac:(reflexivity)) as Hlater.
  unfold consume_approval in Hrun. rewrite Hneeds in Hrun.
  apply bind_Ok_inv in Hrun as (digest & ? & ? & Hd & Hrun). ok_inv Hd.
  apply bind_Ok_inv in Hrun as (i & ? & ? & Hi & Hrun). ok_inv Hi.
  apply bind_Ok_inv in Hrun as (? & ? & ? & Hget & Hrun). ok_inv Hget.
  apply bind_Ok_inv in Hrun as (a & ? & ? & Ha & Hrun). ok_inv Ha. apply ok_or_Ok in Ha.
  apply bind_Ok_inv in Hrun as (b & c2 & w2 & Hv & Hrun).
  assert (c2 = c) as ->.
  { unfold approval_valid in Hv. repeat case_in Hv; run_handler; by injection Hv. }
  apply bind_Ok_inv in Hrun as (? & ? & ? & Hg & Hrun). ok_inv Hg. subst b.
  apply approval_valid_true in Hv as (Hdig & Hown & Hst & Hexp).
  apply bind_Ok_inv in Hrun as (n & ? & ? & Hn & Hrun). ok_inv Hn.
  apply bind_Ok_inv in Hrun as (? & c3 & w3 & Hm & Hrun). ok_inv Hm.
  eexists digest, i, a, _. split_and!; try done. eexists. split.
  - match type of Hrun with _ ?s _ = _ =>
      refine (keeps_run (later s) _ s _ _ _ _ _ Hrun (reflexivity s)); keep end.
  - cbn. apply bfind_update_first; [exact Ha|]. by apply bfind_Some in Ha as [? _].
Qed.

(** C13. A dangerous command runs at most once per approval: consuming an
    approval succeeds only for the command (by digest) and the owner it was
    given for, while it is approved and has not expired; after that, in every
    later state of the controller, whatever requests came in between, the same
    approval authorizes no dangerous command any more. *)
Theorem approval_used_once t params input c w v c' w' :
  runs_command (capability t) && command_requires_approval input = true ->
  consume_approval t params input c w = (Ok v, c', w') ->
  (exists i a, required_str params "approvalId" = Ok i /\
     bfind (Approvals.approval_is i) (WorkbenchState.approvals (state c)) = Some a /\
     command_digest input = Ok (Approval.digest a) /\ Approval.owner a = owner t /\
     Approval.state a = ApprovalState.Approved /\
     exists e, Approval.expires_at a = Some e /\ clock w (clock_at w) < e) /\
  forall c2 t2 params2 input2 w2 v2 c3 w3,
    later c' c2 -> required_str params2 "approvalId" = required_str params "approvalId" ->
    runs_command (capability t2) && command_requires_approval input2 = true ->
    consume_approval t2 params2 input2 c2 w2 <> (Ok v2, c3, w3).
Proof.
  intros Hneeds Hrun. destruct (consume_approval_Ok _ _ _ _ _ _ _ _ Hneeds Hrun)
    as (digest & i & a & n & Hd & Hi & Ha & <- & Ho & Hs & He & _ & c1 & Hc1 & Hspent).
  split; [by exists i, a|]. intros c2 t2 params2 input2 w2 v2 c3 w3 Hlater Hsame Hneeds2 Hrun2.
  destruct (consume_approval_Ok _ _ _ _ _ _ _ _ Hneeds2 Hrun2)
    as (? & i2 & a2 & ? & _ & Hi2 & Ha2 & _ & _ & Hs2 & _).
  assert (i2 = i) as -> by congruence.
  destruct (Approvals.approval_found_later c1 c2 i _ ltac:(by etrans) Hspent) as (a' & Ha' & _ & Hrtc & _).
  assert (a2 = a') as -> by congruence.
  apply approval_spent_final in Hrtc; [|by left]. destruct Hrtc as [|[]]; congruence.
Qed.
End lifecycles.

(** ** Witnesses *)

Definition rm_input : Value :=
  json_object [("argv", VArray [VString "/bin/rm"; VString "-rf"]); ("cwd", VString "/tmp")].
Definition rm_params : Value := json_object [("approvalId", VString "a1")].

Definition sample_contract : CapabilityDescriptor.t :=
  CapabilityDescriptor.mk "command.run" "2.0" (VObject []) (VObject []) [] []
    (IdempotencyContract.mk [] 0) 1000 ExecutionKind.Inline (RetryPolicy.mk 1 [] 0)
    RollbackStrategy.None HealthCheck.None [] Effect.Mutating CapabilityAuthority.WorkspaceDriver 3
    None CancelPolicy.Continue.
Definition sample_executor : Executor.t :=
  Executor.mk "workbench.dev/v1" (Metadata.mk "node-a" ∅ 1 1) (ExecutorEndpoint.Local "/run/a")
    [sample_contract] [] HealthStatus.Ready.
Definition sample_target : target :=
  Target "node-a" "command.run" "s1" "alice" "k1" sample_executor sample_contract.

(** An approval of exactly that command. *)
Definition rm_approved : WorkbenchState.t :=
  WorkbenchState.with_approvals
    [Approval.mk "a1" "sha256:#?" "alice" "cleanup" ApprovalState.Approved 1 (Some 1) None (Some 5000)]
    WorkbenchState.default.

Lemma approval_used_once_witness :
  let run := consume_approval (P := sample_platform) sample_target rm_params rm_input in
  let c := sample_controller rm_approved in
  let w := sample_world (fun _ => true) in
  is_ok (run c w).1.1 = true /\
  forall w2 v2 c3 w3, run (run c w).1.2 w2 <> (Ok v2, c3, w3).
Proof.
  intros run c w. split; [vm_compute; reflexivity|].
  destruct (run c w) as [[o c'] w'] eqn:Hrun.
  assert (exists v, o = Ok v) as [v ->].
  { assert (Hok : is_ok (run c w).1.1 = true) by (vm_compute; reflexivity).
    rewrite Hrun in Hok. destruct o as [v| |]; [by exists v|done|done]. }
  intros w2 v2 c3 w3.
  exact (proj2 (approval_used_once (P := sample_platform) sample_target rm_params rm_input c w v c' w'
    eq_refl Hrun) c' sample_target rm_params rm_input w2 v2 c3 w3 (reflexivity c') eq_refl eq_refl).
Defined.
End Invoke.

#[export] Hint Resolve Invoke.keeps_capability_invoke : keeps.
#[export] Hint Resolve Invoke.acks_capability_invoke : acks.
