(* ===== verification/Authority.v ===== *)
(** * What a capability invocation sends
      ([crates/workbench-runtime/src/controller.rs])

    [capability.invoke] asks executors for a few auxiliary things (a read
    grant, the validation of a lease, readiness); every other request it sends
    is the invocation itself.  This file follows what each of its steps sends
    and proves that the invocation leaves the controller only with authority. *)

From Stdlib Require Import String.
From S2P Require Import Prelude RustStd History Json Protocol Schema Store Leases Tasks.
From S2P Require Import Contracts Lifecycles Controller Samples Registry Approvals Drivers.
From S2P Require Import TaskRpc Invoke.

Module Authority.
Import Controller.

(** ** Requests sent *)

Section emits.
Context {P : Platform}.
Implicit Types Q : ExecutorEndpoint.t * Request.t -> Prop.

(** From [c], [m] sends only requests that satisfy [Q]. *)
Definition emits_at {A} Q (m : handler A) (c : t) (w : world) : Prop :=
  exists l, sent (m c w).1.2 = sent c ++ l /\ Forall Q l.
Definition emits {A} Q (m : handler A) : Prop := forall c w, emits_at Q m c w.

Lemma emits_at_bind {A B} Q (m : handler A) (k : A -> handler B) c w :
  emits_at Q m c w -> (forall a c1 w1, m c w = (Ok a, c1, w1) -> emits_at Q (k a) c1 w1) ->
  emits_at Q (m ≫= k) c w.
Proof.
  unfold emits_at, mbind, M_bind. intros (l & Hl & Hq) Hk.
  destruct (m c w) as [[[a|e|] c1] w1]; cbn in *; [|by exists l..].
  destruct (Hk a c1 w1 eq_refl) as (l' & Hl' & Hq').
  exists (l ++ l'). rewrite Hl', Hl, app_assoc. split; [done|]. by apply Forall_app.
Qed.
Lemma emits_bind {A B} Q (m : handler A) (k : A -> handler B) :
  emits Q m -> (forall a, emits Q (k a)) -> emits Q (m ≫= k).
Proof. intros Hm Hk c w. apply emits_at_bind; [apply Hm|intros; apply Hk]. Qed.

Lemma emits_silent {A} Q (m : handler A) : (forall c w, sent (m c w).1.2 = sent c) -> emits Q m.
Proof. intros Hm c w. exists []. by rewrite Hm, app_nil_r. Qed.
Lemma emits_ret {A} Q (a : A) : emits Q (mret a).
Proof. by apply emits_silent. Qed.
Lemma emits_throw {A} Q e : emits (A := A) Q (throw e).
Proof. by apply emits_silent. Qed.
Lemma emits_lift {A} Q (o : outcome RpcError.t A) : emits Q (lift o).
Proof. by apply emits_silent. Qed.
Lemma emits_get Q : emits Q get.
Proof. by apply emits_silent. Qed.
Lemma emits_now Q : emits Q now.
Proof. by apply emits_silent. Qed.
Lemma emits_uuid Q : emits Q fresh_uuid.
Proof. by apply emits_silent. Qed.
Lemma emits_write_ok Q : emits Q write_ok.
Proof. by apply emits_silent. Qed.
Lemma emits_guard Q b e : emits Q (guard b e).
Proof. apply emits_silent. intros c w. by destruct b. Qed.
Lemma emits_modify Q f : (forall c, sent (f c) = sent c) -> emits Q (modify f : handler unit).
Proof. intros Hf. apply emits_silent. intros c w. apply Hf. Qed.
Lemma emits_set_field Q v k new : emits Q (set_field v k new).
Proof. apply emits_lift. Qed.
Lemma emits_lease_op {A} Q (f : LeaseTable.t -> outcome LeaseTable.LeaseError A * LeaseTable.t) :
  emits Q (lease_op f).
Proof. apply emits_silent. intros c w. unfold lease_op. by destruct (f (leases c)). Qed.
Lemma emits_task_op {A} Q map (f : TaskTable.t -> outcome TaskTable.TaskError A * TaskTable.t) :
  emits Q (task_op map f).
Proof. apply emits_silent. intros c w. unfold task_op. by destruct (f (tasks c)). Qed.
Lemma emits_ignore_error {A} Q (m : handler A) : emits Q m -> emits Q (ignore_error m).
Proof.
  intros Hm c w. specialize (Hm c w). unfold emits_at, ignore_error in *. by destruct (m c w) as [[[]?]?].
Qed.
Lemma emits_attempt {A} Q (m : handler A) : emits Q m -> emits Q (attempt m).
Proof.
  intros Hm c w. specialize (Hm c w). unfold emits_at, attempt in *. by destruct (m c w) as [[[]?]?].
Qed.
End emits.

Create HintDb emits.
#[local] Hint Resolve emits_ret emits_throw emits_lift emits_get emits_now emits_uuid emits_write_ok
  emits_guard emits_set_field emits_lease_op emits_task_op emits_ignore_error emits_attempt : emits.
Ltac emit_step :=
  match goal with
  | |- emits _ (if ?b then _ else _) => destruct b
  | |- emits _ (match ?x with _ => _ end) => destruct x
  | |- emits _ (modify _) => apply emits_modify; done
  | |- emits _ (_ ≫= _) => apply emits_bind; [|intros ?]
  | |- emits _ _ => solve [auto with emits]
  end.
Ltac emit := repeat emit_step.

(** ** Inputs and their fields *)

(** From [v] to [v'] only the fields [keys] may have changed. *)
Definition changes (keys : list string) (v v' : Value) : Prop := forall k, k ∉ keys -> vget v' k = vget v k.

Lemma changes_refl keys v : changes keys v v.
Proof. done. Qed.
Lemma changes_app keys1 keys2 v1 v2 v3 : changes keys1 v1 v2 -> changes keys2 v2 v3 -> changes (keys1 ++ keys2) v1 v3.
Proof. intros H1 H2 k [Hk1 Hk2]%not_elem_of_app. by rewrite H2, H1. Qed.
Lemma changes_mono keys keys' v v' : changes keys v v' -> keys ⊆ keys' -> changes keys' v v'.
Proof. intros Hv Hk k Hn. apply Hv. intros ?%Hk. done. Qed.
Lemma changes_then keys v1 v2 v3 : changes keys v1 v2 -> changes keys v2 v3 -> changes keys v1 v3.
Proof. intros H1 H2 k Hk. by rewrite H2, H1. Qed.
Lemma changes_vset k new v v' : vset v k new = Some v' -> changes [k] v v'.
Proof. intros Hs k' Hk. apply (vget_vset_ne _ _ _ _ _ Hs). intros ->. apply Hk. by left. Qed.

(** What decides about approval are the fields [argv] and [cwd]. *)
Lemma changes_requires_approval keys v v' :
  changes keys v v' -> "argv" ∉ keys -> command_requires_approval v' = command_requires_approval v.
Proof. intros Hv Hk. unfold command_requires_approval. by rewrite (Hv _ Hk). Qed.
Lemma changes_command_digest `{!Text, !Sha256} keys v v' :
  changes keys v v' -> "argv" ∉ keys -> "cwd" ∉ keys -> command_digest v' = command_digest v.
Proof. intros Hv Ha Hc. unfold command_digest. by rewrite (Hv _ Ha), (Hv _ Hc). Qed.

(** The fields the controller sets of its own: with a read grant, with an approval, and at dispatch. *)
Definition granting_fields : list string := ["_workspaceSessionId"; "_readGrantId"].
Definition approval_fields : list string := ["approvalDigest"].
Definition prepared_fields : list string := ["_workspaceSessionId"; "_authority"; "_sessionRef"; "_agentSessionId"].
Definition agent_variables : list string :=
  ["WORKBENCH_WORKSPACE_SESSION_ID"; "WORKBENCH_NODE_ID"; "WORKBENCH_AGENT_ROLE"; "WORKBENCH_AGENT_ID";
   "WORKBENCH_RUN_SUMMARY"].

Section steps.
Context {P : Platform}.
Implicit Types Q : ExecutorEndpoint.t * Request.t -> Prop.

Lemma emits_persist Q : emits Q persist.
Proof. unfold persist. emit. Qed.
Lemma emits_current_trace Q : emits Q current_trace.
Proof. unfold current_trace. emit. Qed.
Lemma emits_observe_task_state Q task : emits Q (observe_task_state task).
Proof. unfold observe_task_state. emit. Qed.
Lemma emits_find_executor Q e x : emits Q (find_executor e x).
Proof. unfold find_executor. emit. Qed.
Lemma emits_session_scope Q x : emits Q (session_scope x).
Proof. unfold session_scope. emit. Qed.
Lemma emits_resource_owner Q x : emits Q (resource_owner x).
Proof. unfold resource_owner. emit. Qed.
Lemma emits_validate Q r o tok : emits Q (validate r o tok).
Proof. unfold validate. emit. Qed.
Lemma emits_release Q r o tok : emits Q (release r o tok).
Proof. unfold release. emit. Qed.
Lemma emits_acquire Q k r o ttl : emits Q (acquire k r o ttl).
Proof. unfold acquire. emit. Qed.
Lemma emits_transition Q tid s out err : emits Q (transition tid s out err).
Proof. unfold transition. emit. Qed.
Lemma emits_retry Q map tid : emits Q (retry map tid).
Proof. unfold retry. emit. Qed.
Lemma emits_submit_traced Q s e cap i k co rq : emits Q (submit_traced s e cap i k co rq).
Proof. unfold submit_traced. emit. Qed.
Lemma emits_traced_request Q a p : emits Q (traced_request a p).
Proof. unfold traced_request. emit. Qed.
#[local] Hint Resolve emits_persist emits_current_trace emits_observe_task_state emits_find_executor
  emits_session_scope emits_resource_owner emits_validate emits_release emits_acquire emits_transition
  emits_retry emits_submit_traced emits_traced_request : emits.

Lemma traced_request_Ok a p c w rq c' w' :
  traced_request a p c w = (Ok rq, c', w') -> Request.action rq = a /\ Request.params rq = p /\ c' = c.
Proof. unfold traced_request. intros Hrun. ok_inv Hrun. by destruct (trace c). Qed.
Lemma emits_at_send Q ep rq c w : Q (ep, rq) -> emits_at Q (send ep rq) c w.
Proof. intros Hq. exists [(ep, rq)]. by repeat constructor. Qed.
Lemma emits_at_send_with_timeout Q ep rq n c w : Q (ep, rq) -> emits_at Q (send_with_timeout ep rq n) c w.
Proof. intros Hq. exists [(ep, rq)]. by repeat constructor. Qed.

(** A request made and sent at once. *)
Lemma emits_traced_send {A} Q ep a p (k : string + Response.t -> handler A) :
  (forall rq, Request.action rq = a -> Q (ep, rq)) -> (forall r, emits Q (k r)) ->
  emits Q (request ← traced_request a p; response ← send ep request; k response).
Proof.
  intros Hq Hk c w. apply emits_at_bind; [apply emits_traced_request|].
  intros rq c1 w1 (Ha & _ & ->)%traced_request_Ok.
  apply emits_at_bind; [by apply emits_at_send, Hq|]. intros. apply Hk.
Qed.

Lemma emits_call_registered_executor Q x a p :
  (forall ep rq, Request.action rq = a -> Q (ep, rq)) -> emits Q (call_registered_executor x a p).
Proof.
  intros Hq. unfold call_registered_executor, call_endpoint. apply emits_bind; [auto with emits|].
  intros e. apply emits_traced_send; [by auto|]. intros r. emit.
Qed.

(** ** The steps of an invocation *)

(** What an invocation asks besides the invocation itself. *)
Definition auxiliary (m : ExecutorEndpoint.t * Request.t) : Prop :=
  Request.action m.2 ∈ ["read-grant.find"; "resource.lease.validate"; "readiness.wait"; "tunnel.get"].

Section invocation.
Context Q (Haux : forall m, auxiliary m -> Q m).

Lemma aux_call x a p :
  a ∈ ["read-grant.find"; "resource.lease.validate"; "readiness.wait"; "tunnel.get"] ->
  emits Q (call_registered_executor x a p).
Proof. intros Ha. apply emits_call_registered_executor. intros ep rq <-. by apply Haux. Qed.
Lemma aux_send {A} ep a p (k : string + Response.t -> handler A) :
  a ∈ ["read-grant.find"; "resource.lease.validate"; "readiness.wait"; "tunnel.get"] ->
  (forall r, emits Q (k r)) ->
  emits Q (request ← traced_request a p; response ← send ep request; k response).
Proof. intros Ha Hk. apply emits_traced_send; [|done]. intros rq <-. by apply Haux. Qed.
#[local] Hint Extern 2 (emits _ (call_registered_executor _ _ _)) =>
  apply aux_call; rewrite !elem_of_cons; tauto : emits.

Lemma emits_find_read_grant e s cap p : emits Q (Approvals.find_read_grant e s cap p).
Proof. unfold Approvals.find_read_grant. emit. Qed.
#[local] Hint Resolve emits_find_read_grant : emits.
Lemma emits_with_grant t cap k input : emits Q (Invoke.with_grant t cap k input).
Proof. unfold Invoke.with_grant. emit. Qed.
#[local] Hint Resolve emits_with_grant : emits.
Lemma emits_attach_grants t input : emits Q (Invoke.attach_grants t input).
Proof. unfold Invoke.attach_grants. emit. Qed.
Lemma emits_resolve params : emits Q (Invoke.resolve params).
Proof. unfold Invoke.resolve. emit. Qed.
Lemma emits_check_draining t : emits Q (Invoke.check_draining t).
Proof. unfold Invoke.check_draining, Drivers.workspace_is_draining. emit. Qed.
Lemma emits_agent_environment t input : emits Q (Invoke.agent_environment t input).
Proof. unfold Invoke.agent_environment. emit. Qed.
Lemma emits_required_authority fuel t params input : emits Q (Invoke.required_authority fuel t params input).
Proof. unfold Invoke.required_authority. emit. Qed.
Lemma emits_resume_authorized params : emits Q (Invoke.resume_authorized params).
Proof. unfold Invoke.resume_authorized. emit. Qed.
Lemma emits_spawn_worker params tid co rq : emits Q (Invoke.spawn_worker params tid co rq).
Proof. unfold Invoke.spawn_worker. emit. Qed.
#[local] Hint Resolve emits_spawn_worker : emits.
Lemma emits_invoke_async t params input : emits Q (Invoke.invoke_async t params input).
Proof. unfold Invoke.invoke_async. emit. Qed.
Lemma emits_approval_valid d o a : emits Q (Invoke.approval_valid d o a).
Proof. unfold Invoke.approval_valid. emit. Qed.
#[local] Hint Resolve emits_approval_valid : emits.
Lemma emits_consume_approval t params input : emits Q (Invoke.consume_approval t params input).
Proof. unfold Invoke.consume_approval. emit. Qed.
Lemma emits_open_task t params input r : emits Q (Invoke.open_task t params input r).
Proof. unfold Invoke.open_task. emit. Qed.
Lemma emits_fail_task {A} tid st f e : emits Q (Invoke.fail_task (A := A) tid st f e).
Proof. unfold Invoke.fail_task. emit. Qed.
Lemma emits_release_all ls : emits Q (Invoke.release_all ls).
Proof. induction ls as [|l ls IH]; simpl; emit; exact IH. Qed.
Lemma emits_release_acquired ls : emits Q (Invoke.release_acquired ls).
Proof. apply emits_release_all. Qed.
#[local] Hint Resolve emits_fail_task emits_release_acquired : emits.
Lemma emits_acquire_locks t tid rs acq : emits Q (Invoke.acquire_locks t tid rs acq).
Proof. revert acq. induction rs as [|r rs IH]; intros acq; simpl; emit; apply IH. Qed.
Lemma emits_authority_entries cid ls : emits Q (Invoke.authority_entries cid ls).
Proof. induction ls as [|l ls IH]; simpl; emit; exact IH. Qed.
#[local] Hint Resolve emits_authority_entries : emits.
Lemma emits_prepare_input t a acq input : emits Q (Invoke.prepare_input t a acq input).
Proof. unfold Invoke.prepare_input. emit. Qed.

Lemma emits_wait_ready t input result : emits Q (Invoke.wait_ready t input result).
Proof.
  unfold Invoke.wait_ready. emit.
  - unfold Invoke.wait_for_process_readiness. emit_step; [auto with emits|]. emit_step; [auto with emits|].
    apply aux_send; [rewrite !elem_of_cons; tauto|intros ?; emit].
  - unfold Invoke.wait_for_tunnel_readiness, Invoke.pending_tunnel. emit_step; [auto with emits|].
    emit_step; [auto with emits|]. apply aux_send; [rewrite !elem_of_cons; tauto|intros r].
    apply aux_send; [rewrite !elem_of_cons; tauto|intros ?; emit].
Qed.
Lemma emits_artifact_from_result t input result tid : emits Q (Invoke.artifact_from_result t input result tid).
Proof. unfold Invoke.artifact_from_result. emit. Qed.
#[local] Hint Resolve emits_wait_ready emits_artifact_from_result : emits.
Lemma emits_record_success t input result tid : emits Q (Invoke.record_success t input result tid).
Proof. unfold Invoke.record_success. emit. Qed.
#[local] Hint Resolve emits_record_success : emits.
Lemma emits_settle_response t tid input r : emits Q (Invoke.settle_response t tid input r).
Proof. unfold Invoke.settle_response, Invoke.settle_success. emit. Qed.
End invocation.

(** ** The invocation itself *)

(** The request carries the lease: its resource and a fence made from its own. *)
Definition carries (controller_id : string) (lease : Lease.t) (params : Value) : Prop :=
  exists entries n, vget params "_authority" = Some (VArray entries) /\
    Invoke.authority_entry controller_id n lease ∈ entries.

Lemma set_field_Ok v k new c w v' c' w' :
  set_field v k new c w = (Ok v', c', w') -> vset v k new = Some v' /\ c' = c.
Proof. unfold set_field. intros Hrun. ok_inv Hrun. by apply expect_Ok in Hrun. Qed.

Lemma authority_entries_Ok cid ls c w es c' w' :
  Invoke.authority_entries cid ls c w = (Ok es, c', w') ->
  c' = c /\ forall l, l ∈ ls -> exists n, Invoke.authority_entry cid n l ∈ es.
Proof.
  revert c w es c' w'. induction ls as [|l ls IH]; intros c w es c' w' Hrun; cbn in Hrun.
  { apply ret_Ok_inv in Hrun as (-> & -> & _). split; [done|]. by intros l ?%not_elem_of_nil. }
  apply bind_Ok_inv in Hrun as (n & ? & ? & H & Hrun). ok_inv H.
  apply bind_Ok_inv in Hrun as (rest & ? & ? & H & Hrun). apply IH in H as [-> Hrest].
  apply ret_Ok_inv in Hrun as (-> & -> & _). split; [done|].
  intros l' [->|Hl']%elem_of_cons; [eexists; by left|]. destruct (Hrest _ Hl') as [n' Hn']. exists n'. by right.
Qed.

(** The input [input] of [t] as it is sent. *)
Definition prepared (controller_id : string) (t : Invoke.target) (authority : option Lease.t) (input sent : Value) : Prop :=
  changes prepared_fields input sent /\
  vget sent "_sessionRef" = Some (json_object [("controllerId", VString controller_id);
                                               ("sessionId", VString (Invoke.workspace t))]) /\
  vget sent "_agentSessionId" = Some (VString (Invoke.owner t)) /\
  (Invoke.readonly t = false ->
     vget sent "_workspaceSessionId" = Some (VString (Invoke.workspace t)) /\
     forall lease, authority = Some lease -> carries controller_id lease sent).

Lemma prepare_input_Ok t authority acquired input c w v c' w' :
  Invoke.prepare_input t authority acquired input c w = (Ok v, c', w') -> prepared (id c) t authority input v.
Proof.
  unfold Invoke.prepare_input. intros Hrun.
  apply bind_Ok_inv in Hrun as (? & ? & ? & H & Hrun). ok_inv H.
  apply bind_Ok_inv in Hrun as (v1 & c1 & w1 & H & Hrun).
  apply bind_Ok_inv in Hrun as (v2 & ? & ? & [H2 ->]%set_field_Ok & [H3 _]%set_field_Ok).
  assert (changes prepared_fields v1 v) as Hlast.
  { eapply changes_mono; [exact (changes_app _ _ _ _ _ (changes_vset _ _ _ _ H2) (changes_vset _ _ _ _ H3))|compute_done]. }
  assert (forall k, k ∈ ["_workspaceSessionId"; "_authority"] -> vget v k = vget v1 k) as Hkeep.
  { intros k Hk. rewrite (vget_vset_ne _ _ _ _ _ H3), (vget_vset_ne _ _ _ _ _ H2); [done|intros <-; revert Hk; compute_done..]. }
  assert (vget v "_sessionRef" = vget v2 "_sessionRef") as Href by (by apply (vget_vset_ne _ _ _ _ _ H3)).
  unfold prepared. rewrite Href, (vget_vset _ _ _ _ H2), (vget_vset _ _ _ _ H3).
  rewrite !Hkeep by compute_done. destruct (Invoke.readonly t).
  { ok_inv H. by split_and!. }
  apply bind_Ok_inv in H as (v0 & ? & ? & [H0 ->]%set_field_Ok & H).
  apply bind_Ok_inv in H as (es & ? & ? & [-> Hes]%authority_entries_Ok & H).
  apply set_field_Ok in H as [H1 ->]. split_and!; [|done..|].
  - eapply changes_then; [|exact Hlast].
    eapply changes_mono; [exact (changes_app _ _ _ _ _ (changes_vset _ _ _ _ H0) (changes_vset _ _ _ _ H1))|compute_done].
  - intros _. rewrite (vget_vset_ne _ _ _ _ _ H1), (vget_vset _ _ _ _ H0) by done. split; [done|].
    intros lease ->. destruct (Hes lease) as [n Hn]; [by left|]. exists es, n.
    by rewrite Hkeep, (vget_vset _ _ _ _ H1) by compute_done.
Qed.

(** What a task's run sends of its own. *)
Definition invocation_of (controller_id : string) (t : Invoke.target) (authority : option Lease.t) (input : Value)
    (m : ExecutorEndpoint.t * Request.t) : Prop :=
  m.1 = Executor.endpoint (Invoke.executor t) /\ Request.action m.2 = Invoke.capability t /\
  prepared controller_id t authority input (Request.params m.2).

Lemma emits_at_run_task Q fuel t tid authority input c w :
  (forall m, auxiliary m -> Q m) -> (forall m, invocation_of (id c) t authority input m -> Q m) ->
  emits_at Q (Invoke.run_task fuel t tid authority input) c w.
Proof.
  intros Haux Hinv. unfold Invoke.run_task.
  apply emits_at_bind; [apply emits_transition|]. intros task c1 w1 H1.
  apply (keeps_run (later c) _ c) in H1; [|auto with keeps|reflexivity].
  apply emits_at_bind; [apply emits_lift|]. intros rs c2 w2 (_ & -> & ->)%lift_Ok_inv.
  apply emits_at_bind; [by apply emits_acquire_locks|]. intros acq c3 w3 H3.
  apply (keeps_run (later c) _ c1) in H3; [|apply Invoke.keeps_acquire_locks|done].
  apply emits_at_bind; [by apply emits_prepare_input|]. intros v c4 w4 Hv%prepare_input_Ok.
  rewrite (later_id _ _ H3) in Hv.
  apply emits_at_bind; [apply emits_traced_request|]. intros rq c5 w5 (Ha & Hp & ->)%traced_request_Ok.
  apply emits_at_bind.
  - apply emits_at_send_with_timeout, Hinv. split_and!; [done|done|]. cbn [snd]. by rewrite Hp.
  - intros r c6 w6 _. apply emits_at_bind.
    + destruct r as [e|r]; [destruct (Invoke.timed_out e); [apply emits_ret|]|]; by apply emits_release_acquired.
    + intros. by apply emits_settle_response.
Qed.

(** What [capability.invoke] has checked of the target in state [c]. *)
Definition resolved (c : t) (params : Value) (t : Invoke.target) : Prop :=
  required_str params "capability" = Ok (Invoke.capability t) /\
  required_str params "owner" = Ok (Invoke.owner t) /\
  required_str params "workspaceSessionId" = Ok (Invoke.workspace t) /\
  required_str params "executorId" = Ok (Invoke.executor_id t) /\
  bfind (executor_is (Invoke.executor_id t)) (WorkbenchState.executors (state c)) = Some (Invoke.executor t) /\
  bfind (fun d => bool_decide (CapabilityDescriptor.name d = Invoke.capability t))
    (Executor.capabilities (Invoke.executor t)) = Some (Invoke.contract t) /\
  exists s a, bfind (Registry.session_is (Invoke.workspace t)) (WorkbenchState.sessions (state c)) = Some s /\
    WorkspaceSession.authority s = Some a /\ SessionAuthority.controller_id a = id c.

(** The input the caller gave. *)
Definition requested (params : Value) : Value := default (VObject []) (vget params "input").

Lemma resolve_Ok params c w t input c' w' :
  Invoke.resolve params c w = (Ok (t, input), c', w') -> resolved c params t /\ input = requested params /\ c' = c.
Proof.
  unfold Invoke.resolve, find_executor. intros Hrun.
  apply bind_Ok_inv in Hrun as (x & ? & ? & H & Hrun). ok_inv H.
  apply bind_Ok_inv in Hrun as (cap & ? & ? & Hcap & Hrun). ok_inv Hcap.
  apply bind_Ok_inv in Hrun as (ws & ? & ? & H' & Hrun). ok_inv H'.
  apply bind_Ok_inv in Hrun as (? & ? & ? & H'' & Hrun). ok_inv H''.
  apply bind_Ok_inv in Hrun as (a & ? & ? & Ha & Hrun). ok_inv Ha. apply ok_or_Ok, bind_Some in Ha as (s & Hs & Ha).
  apply bind_Ok_inv in Hrun as (? & ? & ? & Hg & Hrun). ok_inv Hg. apply bool_decide_eq_true in Hg.
  apply bind_Ok_inv in Hrun as (o & ? & ? & Ho & Hrun). ok_inv Ho.
  apply bind_Ok_inv in Hrun as (key & ? & ? & Hkey & Hrun). ok_inv Hkey.
  apply bind_Ok_inv in Hrun as (e & ? & ? & He & Hrun). ok_inv He.
  match goal with H : ok_or (unknown_executor _) _ = _ |- _ => apply ok_or_Ok in H as Hexec end.
  apply bind_Ok_inv in Hrun as (d & ? & ? & Hd & Hrun). ok_inv Hd. apply ok_or_Ok in Hd.
  apply bind_Ok_inv in Hrun as (? & ? & ? & Hv & Hrun). ok_inv Hv.
  apply ret_Ok_inv in Hrun as ([= -> ->] & -> & _). split; [|done].
  split_and!; try done. by exists s, a.
Qed.

(** The caller's input with what the controller adds before it checks it: the session and the grant a read is
    covered by, and the variables of an agent. *)
Definition enriched (t : Invoke.target) (input input' : Value) : Prop :=
  (forall k, k ∉ granting_fields -> (Invoke.capability t = "agent.start" -> k <> "env") -> vget input' k = vget input k) /\
  (Invoke.capability t = "agent.start" ->
     forall k, k ∉ agent_variables -> vget (vindex input' "env") k = vget (vindex input "env") k).

Lemma with_grant_changes t cap key input c w v c' w' :
  Invoke.with_grant t cap key input c w = (Ok v, c', w') -> changes granting_fields input v.
Proof.
  unfold Invoke.with_grant. intros Hrun.
  apply bind_Ok_inv in Hrun as (v1 & ? & ? & [H1%changes_vset ->]%set_field_Ok & Hrun).
  assert (changes granting_fields input v1) as Hv by (eapply changes_mono; [exact H1|compute_done]).
  destruct (str_param v1 key); [|by apply ret_Ok_inv in Hrun as (-> & _)].
  apply bind_Ok_inv in Hrun as (found & ? & ? & _ & Hrun). destruct found as [g|].
  - apply set_field_Ok in Hrun as [H2%changes_vset _]. eapply changes_then; [exact Hv|].
    eapply changes_mono; [exact H2|compute_done].
  - by apply ret_Ok_inv in Hrun as (-> & _).
Qed.
Lemma attach_grants_changes t input c w v c' w' :
  Invoke.attach_grants t input c w = (Ok v, c', w') -> changes granting_fields input v.
Proof.
  unfold Invoke.attach_grants. intros Hrun. apply bind_Ok_inv in Hrun as (v1 & ? & ? & H & Hrun).
  eapply changes_then.
  - destruct (Invoke.reads_files _); [by eapply with_grant_changes|by apply ret_Ok_inv in H as (-> & _)].
  - destruct (Invoke.reads_application _); [by eapply with_grant_changes|by apply ret_Ok_inv in Hrun as (-> & _)].
Qed.

Lemma agent_environment_Ok t input c w v c' w' :
  Invoke.agent_environment t input c w = (Ok v, c', w') ->
  (if decide (Invoke.capability t = "agent.start")
   then changes ["env"] input v /\
        forall k, k ∉ agent_variables -> vget (vindex v "env") k = vget (vindex input "env") k
   else v = input) /\ c' = c.
Proof.
  unfold Invoke.agent_environment. intros Hrun. case_decide; [|by apply ret_Ok_inv in Hrun as (-> & -> & _)].
  apply bind_Ok_inv in Hrun as (v0 & c0 & w0 & H0 & Hrun).
  assert (changes ["env"] input v0 /\ c0 = c /\ forall k, vget (vindex v0 "env") k = vget (vindex input "env") k)
    as (Hv0 & -> & Henv).
  { destruct (vget input "env") as [[]|] eqn:He.
    6: by apply ret_Ok_inv in H0 as (-> & -> & _).
    all: apply set_field_Ok in H0 as [H0 ->]; split; [by apply (changes_vset _ _ _ _ H0)|]; split; [done|];
      intros k; unfold vindex; by rewrite (vget_vset _ _ _ _ H0), He. }
  apply bind_Ok_inv in Hrun as (env & ? & ? & He & Hrun). ok_inv He.
  apply set_field_Ok in Hrun as [H1 ->]. split; [|done]. split.
  - eapply changes_then; [exact Hv0|by apply (changes_vset _ _ _ _ H1)].
  - intros k Hk. unfold vindex at 1. rewrite (vget_vset _ _ _ _ H1). cbn -[obj_get obj_insert].
    unfold agent_variables in Hk. rewrite !not_elem_of_cons in Hk. destruct Hk as (? & ? & ? & ? & ? & _).
    rewrite !obj_get_insert_ne by done. rewrite <- Henv.
    match goal with H : expect _ = Ok _ |- _ => apply expect_Ok in H end.
    destruct (vindex v0 "env"); simplify_eq/=. done.
Qed.

(** The executor, asked in state [c], validated the lease the caller shows for [resource] by its token. *)
Definition validated (c : t) (t : Invoke.target) (grant : Value) (lease : Lease.t) : Prop :=
  exists ep n rq r,
    endpoint_of c (Invoke.executor_id t) = Some ep /\
    Request.action rq = "resource.lease.validate" /\ Request.params rq = grant /\
    call_executor n ep rq = inr r /\ Response.ok r = true /\
    from_value (default VNull (Response.result r)) = Ok lease.

(** The authority the contract asks for, held in state [c]; [checked] is the input with what proves it. *)
Definition holds (fuel : nat) (c : t) (params : Value) (t : Invoke.target) (input : Value)
    (authority : option Lease.t) (checked : Value) : Prop :=
  match CapabilityDescriptor.authority (Invoke.contract t) with
  | CapabilityAuthority.None | CapabilityAuthority.DesktopSession => authority = None /\ checked = input
  | CapabilityAuthority.WorkspaceDriver => checked = input /\ exists token lease n,
      required_str params "driverToken" = Ok token /\ authority = Some lease /\
      LeaseTable.validate n (Drivers.workspace_resource (Invoke.workspace t)) (Invoke.owner t) token
        (leases c) = Ok lease
  | CapabilityAuthority.ResourceLease template =>
      exists resource, render_capability_authority_resource fuel template (Invoke.executor_id t) input = Ok resource /\
      match str_param params "authorityLeaseToken" with
      | Some token =>
          let grant := json_object
            [("resource", VString resource);
             ("owner", VString (json_text (VArray [VString (id c); VString (Invoke.owner t)])));
             ("token", VString token)] in
          exists lease, authority = Some lease /\ validated c t grant lease /\
            changes ["_resourceLeases"] input checked /\ vget checked "_resourceLeases" = Some (VArray [grant])
      | None => Invoke.lease_optional (Invoke.capability t) = true /\ authority = None /\ checked = input
      end
  end.

Lemma required_authority_Ok fuel t params input c w authority input' c' w' :
  Invoke.required_authority fuel t params input c w = (Ok (authority, input'), c', w') ->
  holds fuel c params t input authority input'.
Proof.
  unfold Invoke.required_authority, holds. intros Hrun.
  destruct (CapabilityDescriptor.authority (Invoke.contract t)) as [| | |template].
  all: try (by apply ret_Ok_inv in Hrun as ([= -> ->] & _)).
  - apply bind_Ok_inv in Hrun as (token & ? & ? & Htok & Hrun). ok_inv Htok.
    apply bind_Ok_inv in Hrun as (lease & ? & ? & Hv & Hrun).
    apply ret_Ok_inv in Hrun as ([= -> ->] & _). split; [done|].
    unfold validate in Hv. apply bind_Ok_inv in Hv as (n & ? & ? & Hn & Hv). ok_inv Hn.
    unfold lease_op in Hv. injection Hv as Hv _ _.
    destruct (LeaseTable.validate _ _ _ _ _) as [l| |] eqn:Hvalid in Hv; try done. injection Hv as ->.
    by eexists token, lease, _.
  - apply bind_Ok_inv in Hrun as (resource & ? & ? & Hr & Hrun). ok_inv Hr. exists resource. split; [done|].
    destruct (str_param params "authorityLeaseToken") as [token|].
    + apply bind_Ok_inv in Hrun as (qualified & ? & ? & Hq & Hrun). unfold resource_owner in Hq. ok_inv Hq.
      apply bind_Ok_inv in Hrun as (v & ? & ? & Hcall & Hrun).
      apply bind_Ok_inv in Hrun as (v1 & ? & ? & [Hset ->]%set_field_Ok & Hrun).
      apply bind_Ok_inv in Hrun as (lease & ? & ? & Hl & Hrun). ok_inv Hl.
      apply ret_Ok_inv in Hrun as ([= -> ->] & _). exists lease. split; [done|].
      apply call_exchanged in Hcall as (ep & r & Hep & Hex & Hok & ->).
      apply exchanged_genuine, Forall_singleton in Hex as (n & rq & [= Ha Hp Hc]).
      split; [|split; [by apply (changes_vset _ _ _ _ Hset)|by apply (vget_vset _ _ _ _ Hset)]].
      exists ep, n, rq, r. split_and!; try done.
      destruct (from_value _); by simplify_eq/=.
    + destruct (Invoke.lease_optional (Invoke.capability t)); [|done].
      by apply ret_Ok_inv in Hrun as ([= -> ->] & _).
Qed.

Lemma holds_changes fuel c params t input authority checked :
  holds fuel c params t input authority checked -> changes ["_resourceLeases"] input checked.
Proof.
  unfold holds. destruct (CapabilityDescriptor.authority _).
  - by intros [_ ->].
  - by intros [-> _].
  - by intros [_ ->].
  - intros (? & _ & H). destruct (str_param _ _); [by destruct H as (? & _ & _ & ? & _)|by destruct H as (_ & _ & ->)].
Qed.

(** The approval under which the dangerous command [sent] was let through. *)
Definition approved (c : t) (params : Value) (t : Invoke.target) (sent : Value) : Prop :=
  Invoke.runs_command (Invoke.capability t) && command_requires_approval sent = true ->
  exists i a, required_str params "approvalId" = Ok i /\
    bfind (Approvals.approval_is i) (WorkbenchState.approvals (state c)) = Some a /\
    command_digest sent = Ok (Approval.digest a) /\ Approval.owner a = Invoke.owner t /\
    Approval.state a = ApprovalState.Approved.

Lemma consume_approval_changes t params input c w v c' w' :
  Invoke.consume_approval t params input c w = (Ok v, c', w') -> changes approval_fields input v.
Proof.
  unfold Invoke.consume_approval. intros Hrun. destruct (_ && _); [|by apply ret_Ok_inv in Hrun as (-> & _)].
  do 8 (apply bind_Ok_inv in Hrun as (? & ? & ? & _ & Hrun)).
  apply bind_Ok_inv in Hrun as (v1 & ? & ? & [Hset _]%set_field_Ok & Hrun).
  apply bind_Ok_inv in Hrun as (? & ? & ? & _ & Hrun). apply ret_Ok_inv in Hrun as (-> & _).
  by apply (changes_vset _ _ _ _ Hset).
Qed.

Lemma consume_approval_approved t params input c w v c' w' sent :
  Invoke.consume_approval t params input c w = (Ok v, c', w') -> changes prepared_fields v sent ->
  approved c params t sent.
Proof.
  intros Hrun Hsent. pose proof (consume_approval_changes _ _ _ _ _ _ _ _ Hrun) as Hv.
  pose proof (changes_app _ _ _ _ _ Hv Hsent) as Hall. unfold approved.
  rewrite (changes_requires_approval _ _ _ Hall), (changes_command_digest _ _ _ Hall) by compute_done.
  intros Hneeds. destruct (Invoke.consume_approval_Ok _ _ _ _ _ _ _ _ Hneeds Hrun)
    as (digest & i & a & n & Hd & Hi & Ha & <- & Ho & Hs & _). by exists i, a.
Qed.

Lemma enriched_by t input input1 input2 :
  changes granting_fields input input1 ->
  (if decide (Invoke.capability t = "agent.start")
   then changes ["env"] input1 input2 /\
        forall k, k ∉ agent_variables -> vget (vindex input2 "env") k = vget (vindex input1 "env") k
   else input2 = input1) -> enriched t input input2.
Proof.
  intros H1 H2. assert (forall k, vget (vindex input1 "env") k = vget (vindex input "env") k) as Henv.
  { intros k. unfold vindex. by rewrite (H1 "env") by compute_done. }
  unfold enriched. case_decide as Hc; [|by subst; split; [intros k Hk _; apply H1|]].
  destruct H2 as [H2 Hvars]. split; [|by intros _ k Hk; rewrite Hvars, Henv].
  intros k Hk Hne. rewrite (H2 k), (H1 k); [done|done|]. intros ?%list_elem_of_singleton. by apply Hne.
Qed.

(** All that was checked before the request [m] left, from the caller's input to what is sent. *)
Definition authorized (fuel : nat) (c : t) (params : Value) (m : ExecutorEndpoint.t * Request.t) : Prop :=
  exists t input authority checked c1 c2,
    let sent := Request.params m.2 in
    resolved c params t /\ m.1 = Executor.endpoint (Invoke.executor t) /\ Request.action m.2 = Invoke.capability t /\
    enriched t (requested params) input /\
    later c c1 /\ holds fuel c1 params t input authority checked /\
    validate_schema (CapabilityDescriptor.input_schema (Invoke.contract t)) checked "input" = Ok tt /\
    changes (approval_fields ++ prepared_fields) checked sent /\
    later c c2 /\ approved c2 params t sent /\
    vget sent "_sessionRef" = Some (json_object [("controllerId", VString (id c));
                                                 ("sessionId", VString (Invoke.workspace t))]) /\
    vget sent "_agentSessionId" = Some (VString (Invoke.owner t)) /\
    (Invoke.readonly t = false -> vget sent "_workspaceSessionId" = Some (VString (Invoke.workspace t))) /\
    forall lease, authority = Some lease -> carries (id c) lease sent.

Lemma holds_not_readonly fuel c params t input lease checked :
  holds fuel c params t input (Some lease) checked -> Invoke.readonly t = false.
Proof.
  unfold holds, Invoke.readonly. intros Hh. apply bool_decide_eq_false. intros Hr. rewrite Hr in Hh. by destruct Hh.
Qed.

(** C1. Nothing runs without authority.  Whatever way an invocation goes, every request it sends is auxiliary (a
    read grant, the validation of a lease, readiness) or is the invocation the caller asked for: of that
    capability, at that registered executor, for that session, which is at home here, with the caller's own
    input, to which only the fields named here were added.  All of this was checked before: the authority the
    contract asks for was held (a workspace driver by the caller's token in the lease table; a lease on a
    resource by the validation the executor itself gave for the resource the input names, the caller and his
    token); the input satisfied the contract's schema; and if what is sent is a dangerous command, the caller
    named an approval of exactly that command for himself.  And it carries the lease's fence. *)
Theorem invocations_are_authorized fuel params c w :
  exists l, sent (Invoke.capability_invoke fuel params c w).1.2 = sent c ++ l /\
    Forall (fun m => auxiliary m \/ authorized fuel c params m) l.
Proof.
  set (Q := fun m => auxiliary m \/ authorized fuel c params m).
  assert (Haux : forall m, auxiliary m -> Q m) by (by left).
  change (emits_at Q (Invoke.capability_invoke fuel params) c w). unfold Invoke.capability_invoke.
  apply emits_at_bind; [by apply emits_resolve|]. intros [t input] c1 w1 (Hres & -> & ->)%resolve_Ok.
  apply emits_at_bind; [by apply emits_attach_grants|]. intros input1 c1' w1' H1.
  pose proof (attach_grants_changes _ _ _ _ _ _ _ H1) as Hin1.
  apply (keeps_run (later c) _ c) in H1; [|apply Invoke.keeps_attach_grants|reflexivity].
  apply emits_at_bind; [by apply emits_check_draining|]. intros u c2 w2 H2.
  apply (keeps_run (later c) _ c1') in H2; [|apply quiet_keeps, Invoke.quiet_check_draining|done].
  apply emits_at_bind; [by apply emits_agent_environment|]. intros input2 c3 w3 H3.
  apply agent_environment_Ok in H3 as [Hin2 ->].
  apply emits_at_bind; [by apply emits_required_authority|]. intros [authority input3] c4 w4 H4.
  pose proof (required_authority_Ok _ _ _ _ _ _ _ _ _ _ H4) as Hholds.
  apply (keeps_run (later c) _ c2) in H4; [|apply quiet_keeps, Invoke.quiet_required_authority|done].
  apply emits_at_bind; [apply emits_lift|]. intros [] c5 w5 (Hschema & -> & ->)%lift_Ok_inv.
  apply emits_at_bind; [apply emits_guard|]. intros _ c6 w6 (_ & -> & ->)%guard_Ok_inv.
  apply emits_at_bind; [by apply emits_resume_authorized|]. intros resume c7 w7 H7.
  apply (keeps_run (later c) _ c4) in H7; [|apply Invoke.keeps_resume_authorized|done].
  destruct (Invoke.runs_async t params); [by apply emits_invoke_async|].
  apply emits_at_bind; [by apply emits_consume_approval|]. intros input4 c8 w8 H8.
  pose proof (consume_approval_changes _ _ _ _ _ _ _ _ H8) as Hin4.
  pose proof (fun sent => consume_approval_approved _ _ _ _ _ _ _ _ sent H8) as Happ.
  apply (keeps_run (later c) _ c7) in H8; [|apply Invoke.keeps_consume_approval|done].
  unfold Invoke.finish_task.
  apply emits_at_bind; [by apply emits_open_task|]. intros [task|answer] c9 w9 H9; [|apply emits_ret].
  apply (keeps_run (later c) _ c8) in H9; [|apply framed_keeps, Invoke.framed_open_task|done].
  apply emits_at_run_task; [done|]. intros m (Hep & Hact & Hsent & Href & Hag & Hprep). right.
  rewrite (later_id _ _ H9) in *.
  exists t, input2, authority, input3, c2, c7. cbv zeta.
  do 3 (split; [done|]). split; [by eapply enriched_by|]. do 3 (split; [done|]).
  split; [by eapply changes_app|]. split; [done|]. split; [by eapply Happ|]. do 2 (split; [done|]).
  split; [intros Hro; by apply Hprep|]. intros lease ->. apply Hprep; [by eapply holds_not_readonly|done].
Qed.
End steps.
End Authority.
