(* ===== verification/Dispatch.v ===== *)
(** * Routing and the request loop ([crates/workbench-runtime/src/controller.rs])

    [dispatch] decides where a request goes: to the executor that owns the
    resource, to the controller a session calls home, to a desktop, or to a
    handler of this controller.  [handle] serves one request; [open_with_id]
    starts a controller from what the state file holds.

    The reporting actions are a parameter ([reports]): [status],
    [dashboard.snapshot] and the [run.*], [observability.*] and [observation.*]
    actions, which read the tables and speak to the observation store and to
    other nodes, but assign nothing of the state the record holds.  [Reports]
    models them and shows that they are so ([reports_quiet]). *)

From Stdlib Require Import Ascii String.
From S2P Require Import Prelude RustStd History Json Protocol Schema Store Leases Tasks.
From S2P Require Import Contracts Evidence Lifecycles Controller Samples Registry Approvals.
From S2P Require Import Drivers TaskRpc Relay Transactions Invoke.

Module Dispatch.
Import Controller.

Section handlers.
Context {P : Platform}.

(** ** Small handlers *)

Definition protocol_features : list string :=
  ["capability-authority-v2"; "local-session-v1"; "executor-resource-authority-v1";
   "driver-draining-v1"; "read-grant-v1"; "acceptance-handoff-v1"].

Definition ping : handler Value :=
  c ← get;
  mret (json_object [("controller", json_object
    [("id", VString (id c)); ("status", VString "ready");
     ("protocolFeatures", VArray (VString <$> protocol_features))])]).

Definition check_executor (executor : Executor.t) : handler Value :=
  let executor_id := Metadata.id (Executor.metadata executor) in
  request ← traced_request "status" VNull;
  response ← send (Executor.endpoint executor) request;
  mret match response with
       | inr response =>
           if Response.ok response then
             json_object [("executorId", VString executor_id); ("status", VString "ready");
                          ("capabilities", vnat (Z.of_nat (length (Executor.capabilities executor))))]
           else json_object [("executorId", VString executor_id); ("status", VString "failed");
                             ("error", vopt to_value (Response.error response))]
       | inl error => json_object [("executorId", VString executor_id); ("status", VString "offline");
                                   ("error", VString error)]
       end.

Fixpoint check_executors (executors : list Executor.t) : handler (list Value) :=
  match executors with
  | [] => mret []
  | executor :: executors' =>
      check ← check_executor executor; rest ← check_executors executors'; mret (check :: rest)
  end.

Definition doctor : handler Value :=
  c ← get;
  checks ← check_executors (WorkbenchState.executors (state c));
  mret (json_object
    [("healthy", VBool (forallb (fun check => bool_decide (str_param check "status" = Some "ready")) checks));
     ("controller", json_object [("id", VString (id c)); ("status", VString "ready")]);
     ("checks", VArray checks)]).

(** ** Operator actions *)

Definition ttl_param (params : Value) : Value := default (vnat 300000) (vget params "ttlMs").

(** What a granted operator may do without a nonce. *)
Definition granted_action (dispatch : string -> Value -> handler Value) (action target : string)
    (operator : OperatorGrant.t) (params : Value) : handler Value :=
  let driver := [("resource", VString target)] in
  if decide (action = "retry-task") then
    dispatch "task.retry" (json_object [("taskId", VString target); ("_operatorAuthorized", VBool true)])
  else if decide (action = "restart-process") then
    executor_id ← lift (required_str params "executorId");
    call_registered_executor executor_id "process.restart" (json_object [("processId", VString target)])
  else if decide (action = "driver-acquire") then
    dispatch "driver.acquire"
      (json_object (driver ++ [("owner", VString (OperatorGrant.operator_id operator)); ("ttlMs", ttl_param params)]))
  else if decide (action = "driver-handoff") then
    owner ← lift (required_str params "owner");
    token ← lift (required_str params "driverToken");
    handoff_target ← lift (required_str params "handoffTarget");
    dispatch "driver.handoff"
      (json_object (driver ++ [("owner", VString owner); ("token", VString token);
                               ("target", VString handoff_target)]))
  else if decide (action = "driver-release") then
    owner ← lift (required_str params "owner");
    token ← lift (required_str params "driverToken");
    dispatch "driver.release" (json_object (driver ++ [("owner", VString owner); ("token", VString token)]))
  else if decide (action = "approval-approve") then
    dispatch "approval.approve" (json_object [("approvalId", VString target); ("ttlMs", ttl_param params)])
  else if decide (action = "approval-revoke") then
    dispatch "approval.revoke" (json_object [("approvalId", VString target)])
  else lift Panic.

(** What needs a nonce. *)
Definition forced_action (dispatch : string -> Value -> handler Value) (action target : string)
    (params : Value) : handler Value :=
  if decide (action = "cancel-task") then
    _ ← dispatch "task.get" (json_object [("taskId", VString target)]);
    dispatch "task.cancel" (json_object [("taskId", VString target); ("_operatorAuthorized", VBool true)])
  else if decide (action = "stop-process") then
    executor_id ← lift (required_str params "executorId");
    call_registered_executor executor_id "process.stop" (json_object [("processId", VString target)])
  else lift Panic.

(** [operator.action]; the observation it ends with reads [runId] and the clock. *)
Definition operator_action (dispatch : string -> Value -> handler Value) (params : Value) : handler Value :=
  action ← lift (Approvals.required_operator_action params);
  target ← lift (required_str params "target");
  result ← (if Approvals.force_action action then
              nonce_id ← lift (required_str params "actionNonce");
              _ ← Approvals.consume_nonce nonce_id action target;
              forced_action dispatch action target params
            else
              grant_token ← lift (required_str params "grantToken");
              operator ← Approvals.authenticate_operator grant_token;
              granted_action dispatch action target operator params);
  _ ← lift (optional_str params "runId");
  _ ← now;
  mret result.

(** ** Routing *)

(** The session a request is about. *)
Definition session_id_for_action (s : WorkbenchState.t) (action : string) (params : Value) : option string :=
  let named :=
    match vget params "workspaceSessionId" with Some v => Some v | None => vget params "sessionId" end ≫= as_str in
  let or_else (o : option string) (b : bool) (o' : option string) :=
    match o with Some x => Some x | None => if b then o' else None end in
  let called a := bool_decide (action = a) in
  let within p := Str.starts_with p action in
  let r := or_else named (called "session.put") (pointer params ["metadata"; "id"] ≫= as_str) in
  let r := or_else r (called "session.accept-handoff") (pointer params ["session"; "metadata"; "id"] ≫= as_str) in
  let r := or_else r (called "artifact.put") (pointer params ["provenance"; "workspaceSessionId"] ≫= as_str) in
  let r := or_else r (within "driver." || within "lease.")
             (str_param params "resource" ≫= Str.strip_prefix "workspace:") in
  let r := or_else r (within "agent.")
    (i ← str_param params "agentId";
     AgentInstance.workspace_session_id <$> bfind (Registry.agent_is i) (WorkbenchState.agents s)) in
  let r := or_else r (within "task.")
    (i ← str_param params "taskId";
     Task.workspace_session_id <$> bfind (fun task => bool_decide (Task.id task = i)) (WorkbenchState.tasks s)) in
  let r := or_else r (within "transaction.")
    (i ← str_param params "transactionId";
     ActivationTransaction.workspace_session_id <$>
       bfind (Transactions.transaction_is i) (WorkbenchState.transactions s)) in
  or_else r (within "handoff.")
    (i ← str_param params "handoffId";
     Handoff.workspace_session_id <$> bfind (Transactions.handoff_is i) (WorkbenchState.handoffs s)).

(** A session whose home is another controller is served there. *)
Definition route_session_action (action : string) (params : Value) : handler (option Value) :=
  if bool_decide (action ∈ ["session.put"; "session.accept-handoff"]) then mret None
  else
    c ← get;
    match session_id_for_action (state c) action params with
    | None => mret None
    | Some session_id =>
        let authority_id := default (id c) (str_param params "sessionControllerId") in
        if decide (authority_id = id c) then
          match bfind (Registry.session_is session_id) (WorkbenchState.sessions (state c))
                  ≫= WorkspaceSession.authority with
          | Some authority =>
              guard (bool_decide (SessionAuthority.controller_id authority = id c))
                (RpcError.new "SESSION_REMOTE_REFERENCE_REQUIRED"
                   ("legacy session " +:+ session_id +:+ " belongs to " +:+
                    SessionAuthority.controller_id authority +:+
                    "; specify sessionControllerId explicitly or create a new local session")) ;;
              mret None
          | None => mret None
          end
        else
          controller ← lift (ok_or (RpcError.new "SESSION_AUTHORITY_UNAVAILABLE"
              ("home controller " +:+ authority_id +:+ " is not registered"))
            (bfind (fun p => bool_decide (Metadata.id (ControllerPeer.metadata p) = authority_id))
               (WorkbenchState.controllers (state c))));
          value ← call_endpoint (ControllerPeer.endpoint controller) action params
                    (RpcError.new "SESSION_AUTHORITY_UNAVAILABLE")
                    (RpcError.new "SESSION_AUTHORITY_FAILED" "home controller rejected request");
          mret (Some value)
    end.

(** A resource lease is the executor's: the request goes there under a
    qualified owner and comes back under the caller's. *)
Definition forward_lease (executor_id action : string) (params : Value) : handler Value :=
  forwarded ← match str_param params "owner" with
              | Some owner => qualified ← resource_owner owner; set_field params "owner" (VString qualified)
              | None => mret params
              end;
  result ← call_registered_executor executor_id ("resource." +:+ action) forwarded;
  match vget result "resource", vget params "owner" with
  | Some _, Some owner =>
      result ← set_field result "owner" owner;
      c ← get;
      set_field result "controllerId" (VString (id c))
  | _, _ => mret result
  end.

Definition forward_desktop (action : string) (params : Value) : handler Value :=
  executor_id ← lift (required_str params "executorId");
  executor ← find_executor (RpcError.new "EXECUTOR_NOT_FOUND" executor_id) executor_id;
  call_endpoint (Executor.endpoint executor) action params
    (RpcError.new "EXECUTOR_UNAVAILABLE") (RpcError.new "EXECUTOR_FAILED" "desktop request failed").

Definition unknown_action (action : string) : RpcError.t :=
  RpcError.new "UNKNOWN_ACTION" ("unknown action: " +:+ action).

(** The [match] on the action's name. *)
Definition table : Type := list (string * (Value -> handler Value)).

Definition lookup_action (actions : table) (action : string) (params : Value) : handler Value :=
  match bfind (fun entry => bool_decide (entry.1 = action)) actions with
  | Some entry => entry.2 params
  | None => throw (unknown_action action)
  end.

Definition names_workspace (params : Value) : bool :=
  match str_param params "resource" with Some r => Str.starts_with "workspace:" r | None => false end.

Definition dispatch_in (actions : table) (action : string) (params : Value) : handler Value :=
  c ← get;
  match (if Str.starts_with "lease." action
         then resource_executor params (WorkbenchState.executors (state c)) else None) with
  | Some executor_id => forward_lease executor_id action params
  | None =>
      if Str.starts_with "lease." action && negb (names_workspace params) then
        throw (RpcError.new "RESOURCE_EXECUTOR_REQUIRED" "resource leases require a registered executorId")
      else
        routed ← route_session_action action params;
        match routed with
        | Some value => mret value
        | None =>
            if Str.starts_with "desktop." action then forward_desktop action params
            else lookup_action actions action params
        end
  end.

(** ** The actions *)

Definition session_actions : table :=
  [("session.put", Registry.session_put);
   ("session.accept-handoff", fun _ => Registry.session_handoff);
   ("session.handoff", fun _ => Registry.session_handoff);
   ("session.get", Registry.session_get);
   ("session.list", fun _ => Registry.session_list);
   ("session.transition", Registry.session_transition)].

Definition record_actions (fuel : nat) : table :=
  [("artifact.put", Registry.artifact_put); ("artifact.get", Registry.artifact_get);
   ("artifact.list", fun _ => Registry.artifact_list);
   ("artifact.transfer", Relay.relay_artifact fuel);
   ("generation.put", Registry.generation_put); ("generation.get", Registry.generation_get);
   ("generation.list", fun _ => Registry.generation_list);
   ("agent.put", Registry.agent_put); ("agent.get", Registry.agent_get);
   ("agent.list", fun _ => Registry.agent_list); ("agent.transition", Registry.agent_transition)].

Definition node_actions : table :=
  [("ping", fun _ => ping); ("doctor", fun _ => doctor);
   ("executor.list", fun _ => Registry.executor_list);
   ("controller.list", fun _ => Registry.controller_list);
   ("executor.unregister", Registry.executor_unregister);
   ("controller.unregister", Registry.controller_unregister);
   ("controller.register", Registry.controller_register);
   ("controller.call", Registry.controller_call);
   ("executor.put", Registry.executor_put); ("executor.register", Registry.executor_register);
   ("executor.remove", Registry.executor_remove); ("executor.call", TaskRpc.executor_call)].

Definition authority_actions : table :=
  [("operator.grant", Approvals.operator_grant); ("operator.nonce", Approvals.operator_nonce);
   ("approval.request", Approvals.approval_request); ("approval.list", fun _ => Approvals.approval_list);
   ("approval.approve", Approvals.approval_decide "approval.approve");
   ("approval.revoke", Approvals.approval_decide "approval.revoke");
   ("read-grant.request", Approvals.read_grant_request);
   ("read-grant.approve", Approvals.read_grant_approve);
   ("read-grant.list", Approvals.read_grant_list); ("read-grant.revoke", Approvals.read_grant_revoke)].

Definition driver_actions : table :=
  [("driver.status", Drivers.lease_status); ("lease.status", Drivers.lease_status);
   ("driver.handoff.status", Drivers.driver_handoff_status);
   ("agent.mutation.start", Drivers.agent_mutation_start);
   ("agent.mutation.finish", Drivers.agent_mutation_finish);
   ("driver.handoff.request", Drivers.driver_handoff_request);
   ("driver.handoff.await", Drivers.driver_handoff_await);
   ("driver.handoff.cancel", Drivers.driver_handoff_cancel);
   ("driver.acquire", Drivers.lease_acquire "driver.acquire");
   ("lease.acquire", Drivers.lease_acquire "lease.acquire");
   ("driver.renew", Drivers.lease_renew); ("lease.renew", Drivers.lease_renew);
   ("driver.handoff", Drivers.driver_handoff); ("driver.take", Drivers.driver_take);
   ("driver.release", Drivers.lease_release); ("lease.release", Drivers.lease_release)].

Definition work_actions (fuel : nat) : table :=
  [("capability.invoke", Invoke.capability_invoke fuel);
   ("task.submit", TaskRpc.task_submit); ("task.get", TaskRpc.task_get);
   ("task.list", fun _ => TaskRpc.task_list); ("task.events", TaskRpc.task_events);
   ("task.wait", TaskRpc.task_wait fuel); ("task.retry", TaskRpc.task_retry);
   ("task.cancel", TaskRpc.task_cancel); ("task.prune", TaskRpc.task_prune);
   ("task.transition", TaskRpc.task_transition);
   ("port.list", TaskRpc.port_list); ("port.allocate", TaskRpc.port_allocate);
   ("transaction.begin", Transactions.transaction_begin);
   ("transaction.get", Transactions.transaction_get);
   ("transaction.list", fun _ => Transactions.transaction_list);
   ("transaction.record", Transactions.transaction_record);
   ("handoff.create", Transactions.handoff_create); ("handoff.get", Transactions.handoff_get);
   ("handoff.list", Transactions.handoff_list); ("handoff.report", Transactions.handoff_report);
   ("handoff.acknowledge", Transactions.handoff_advance "handoff.acknowledge");
   ("handoff.complete", Transactions.handoff_advance "handoff.complete")].

Variable reports : table.

Definition actions (fuel : nat) : table :=
  session_actions ++ record_actions fuel ++ node_actions ++ authority_actions ++ driver_actions ++
  work_actions fuel ++ reports.

(** [operator.action] dispatches in turn, to other actions only. *)
Definition dispatch (fuel : nat) : string -> Value -> handler Value :=
  dispatch_in (("operator.action", operator_action (dispatch_in (actions fuel))) :: actions fuel).

(** ** One request *)

Definition trace_of (request : Request.t) : TraceContext.t :=
  TraceContext.mk (default (Request.request_id request) (Request.correlation_id request))
    (Request.request_id request) (Request.run_id request) (Request.span_id request)
    (Request.agent_session_id request).

(** [reap_expired] on the lease table. *)
Definition reap : handler (list Lease.t) :=
  n ← now;
  c ← get;
  let '(reaped, T) := LeaseTable.reap_expired n (leases c) in
  modify (set_leases T) ;;
  mret reaped.

Definition serve (fuel : nat) (request : Request.t) : handler Value :=
  reaped ← reap;
  (match reaped with [] => mret tt | _ => persist end) ;;
  dispatch fuel (Request.action request) (Request.params request).

(** The gate of the session keeps two requests about one session apart; here
    requests are served one at a time.  Events and observations are telemetry. *)
Definition handle (fuel : nat) (request : Request.t) : handler Response.t :=
  c ← get;
  modify (set_trace (Some (trace_of request))) ;;
  result ← attempt (serve fuel request);
  modify (set_trace (trace c)) ;;
  mret match result with
       | inr value => Response.success (Request.request_id request) value
       | inl error => Response.failure (Request.request_id request) error
       end.

(** The thread of an accepted asynchronous task. *)
Definition run_worker (fuel : nat) : handler unit :=
  c ← get;
  match workers c with
  | [] => mret tt
  | request :: rest =>
      modify (set_workers rest) ;;
      _ ← handle fuel request;
      modify (fun c => set_async_active (async_active c - 1) c)
  end.

(** ** Start *)

Inductive OpenError : Type :=
  | ControllerIdentityMismatch (stored configured : string)
  | SaveFailed.

(** A session without a home gets this controller. *)
Definition housed (controller_id : string) (s : WorkspaceSession.t) : WorkspaceSession.t :=
  match WorkspaceSession.authority s with
  | None => Registry.with_authority (Some (SessionAuthority.mk controller_id 1 None)) s
  | Some _ => s
  end.
Definition homeless (s : WorkspaceSession.t) : bool :=
  match WorkspaceSession.authority s with None => true | Some _ => false end.

(** What was stored, under this controller's identity. *)
Definition adopted (controller_id : string) (stored : WorkbenchState.t) : WorkbenchState.t :=
  WorkbenchState.with_sessions (housed controller_id <$> WorkbenchState.sessions stored)
    (WorkbenchState.with_controller_id (Some controller_id) stored).
Definition identity_changed (controller_id : string) (stored : WorkbenchState.t) : bool :=
  negb (bool_decide (WorkbenchState.controller_id stored = Some controller_id))
  || existsb homeless (WorkbenchState.sessions stored).

(** The readings of the clock from here on. *)
Definition readings : M (option WorkbenchState.t) OpenError (nat -> Z) :=
  fun d w => (Ok (fun i => clock w (clock_at w + i)%nat), d, w).

Definition async_limit : Z :=
  match env_u64 "WORKBENCH_CONTROLLER_ASYNC_CONCURRENCY" with
  | Some n => if n >? 0 then n else 32
  | None => 32
  end.

(** [open_with_id]; its state is the state file. *)
Definition open_with_id (configured : option string) : M (option WorkbenchState.t) OpenError t :=
  d ← get;
  let stored := default WorkbenchState.default d in
  (match WorkbenchState.controller_id stored, configured with
   | Some was, Some now => guard (bool_decide (was = now)) (ControllerIdentityMismatch was now)
   | _, _ => mret tt
   end) ;;
  controller_id ← match configured, WorkbenchState.controller_id stored with
                  | Some controller_id, _ | None, Some controller_id => mret controller_id
                  | None, None => u ← fresh_uuid; mret ("controller_" +:+ u)
                  end;
  let '(state, compacted) := compact_persisted_evidence (adopted controller_id stored) in
  n ← now;
  let '(reaped, leases) := LeaseTable.reap_expired n
    (LeaseTable.from_snapshot (WorkbenchState.leases state) (WorkbenchState.lease_fences state)) in
  clocks ← readings;
  let '(recovered, tasks) := TaskTable.recover_orphans clocks (TaskTable.from_tasks (WorkbenchState.tasks state)) in
  n ← now;
  let '(pruned, tasks) := prune_task_retention n tasks in
  let opened state := Controller.mk controller_id (Some state) state leases tasks ∅ ∅ 0 async_limit ∅ None [] [] in
  if identity_changed controller_id stored || compacted
     || negb (bool_decide (length reaped = 0%nat)) || negb (bool_decide (length recovered = 0%nat))
     || negb (bool_decide (length pruned = 0%nat))
  then
    let state := WorkbenchState.with_tables (LeaseTable.persistence_snapshot leases)
      (LeaseTable.fence_snapshot leases) (TaskTable.persistence_snapshot tasks) state in
    ok ← write_ok;
    if (ok : bool) then put (Some state) ;; mret (opened state) else throw SaveFailed
  else mret (Controller.set_disk d (opened state)).
End handlers.

(** ** Lifecycles *)

Section lifecycles.
Context {P : Platform}.

Lemma quiet_ping : quiet ping.
Proof. unfold ping. hush. Qed.
Lemma quiet_check_executor e : quiet (check_executor e).
Proof. unfold check_executor. hush. Qed.
#[local] Hint Resolve quiet_check_executor : quiet.
Lemma quiet_check_executors es : quiet (check_executors es).
Proof. induction es as [|e es IH]; simpl; hush; exact IH. Qed.
#[local] Hint Resolve quiet_check_executors : quiet.
Lemma quiet_doctor : quiet doctor.
Proof. unfold doctor. hush. Qed.
Lemma quiet_route_session_action a ps : quiet (route_session_action a ps).
Proof. unfold route_session_action. hush. Qed.
Lemma quiet_forward_lease x a ps : quiet (forward_lease x a ps).
Proof. unfold forward_lease. hush. Qed.
Lemma quiet_forward_desktop a ps : quiet (forward_desktop a ps).
Proof. unfold forward_desktop. hush. Qed.
#[local] Hint Resolve quiet_ping quiet_doctor quiet_route_session_action quiet_forward_lease
  quiet_forward_desktop : quiet.
#[local] Hint Resolve quiet_keeps : keeps.
#[local] Hint Extern 6 (quiet _) => solve [hush] : keeps.

(** A property of handlers that composes, so that it extends to the table. *)
Record closed (R : forall A, handler A -> Prop) : Prop := {
  closed_quiet A (m : handler A) : quiet m -> R A m;
  closed_bind A B (m : handler A) (k : A -> handler B) : R A m -> (forall a, R B (k a)) -> R B (m ≫= k);
  closed_nonce n a tg : R _ (Approvals.consume_nonce n a tg);
}.

Definition each (R : forall A, handler A -> Prop) (actions : table) : Prop :=
  Forall (fun entry => forall ps, R _ (entry.2 ps)) actions.

Section closed.
Context (R : forall A, handler A -> Prop) (HR : closed R).

Ltac route :=
  repeat match goal with
  | |- R _ (if ?b then _ else _) => destruct b
  | |- R _ (match ?x with _ => _ end) => destruct x
  | |- R _ _ => solve [auto | apply (closed_nonce _ HR) | apply (closed_quiet _ HR); hush]
  | |- R _ (_ ≫= _) => apply (closed_bind _ HR); [|intros ?]
  end.

Lemma closed_lookup_action actions a ps : each R actions -> R _ (lookup_action actions a ps).
Proof.
  intros Hact. unfold lookup_action. destruct (bfind _ actions) as [entry|] eqn:He; [|route].
  apply bfind_Some in He as [_ He]. unfold each in Hact. rewrite Forall_forall in Hact. by apply Hact.
Qed.

Lemma closed_dispatch_in actions a ps : each R actions -> R _ (dispatch_in actions a ps).
Proof.
  intros Hact. pose proof (fun a ps => closed_lookup_action actions a ps Hact). unfold dispatch_in. route.
Qed.

Lemma closed_operator_action (d : string -> Value -> handler Value) ps :
  (forall a ps, R _ (d a ps)) -> R _ (operator_action d ps).
Proof.
  intros Hd. unfold operator_action, forced_action, granted_action. route.
Qed.

Lemma closed_dispatch reports fuel a ps : each R (actions reports fuel) -> R _ (dispatch reports fuel a ps).
Proof.
  intros Hact. unfold dispatch. apply closed_dispatch_in. constructor; [|done].
  intros ps'. apply closed_operator_action. intros. by apply closed_dispatch_in.
Qed.
End closed.

(** *** Every handler moves the records along their lifecycles *)

Lemma closed_keeps c0 : closed (fun A m => keeps (later c0) m).
Proof.
  split; [intros; by apply quiet_keeps|intros; by apply keeps_bind|auto with keeps].
Qed.

Lemma keeps_actions c0 reports fuel :
  each (fun A m => keeps (later c0) m) reports -> each (fun A m => keeps (later c0) m) (actions reports fuel).
Proof.
  intros Hrep. unfold actions, each. rewrite !Forall_app. split_and!; [..|exact Hrep];
    repeat (apply Forall_cons_2; [intros ps; cbn [snd]; auto with keeps|]); apply Forall_nil_2.
Qed.

(** *** And acknowledges only what it has stored *)

Lemma closed_acks : closed (fun A m => acks m).
Proof. split; [intros; by apply acks_quiet|intros; by apply acks_bind|auto with acks]. Qed.

Lemma acks_actions reports fuel :
  each (fun A m => acks m) reports -> each (fun A m => acks m) (actions reports fuel).
Proof.
  intros Hrep. unfold actions, each. rewrite !Forall_app. split_and!; [..|exact Hrep];
    repeat (apply Forall_cons_2; [intros ps; cbn [snd]; auto with acks|]); apply Forall_nil_2.
Qed.

(** ** One request *)

Section requests.
Context (reports : table) (fuel : nat).
Hypothesis reports_quiet : each (fun A m => quiet m) reports.

Lemma reports_closed R : closed R -> each R reports.
Proof.
  intros HR. eapply Forall_impl; [exact reports_quiet|]. intros e He ps. by apply (closed_quiet _ HR).
Qed.

Lemma keeps_dispatch c0 a ps : keeps (later c0) (dispatch reports fuel a ps).
Proof. apply (closed_dispatch _ (closed_keeps c0)), keeps_actions, reports_closed, closed_keeps. Qed.
Lemma acks_dispatch a ps : acks (dispatch reports fuel a ps).
Proof. apply (closed_dispatch _ closed_acks), acks_actions, reports_closed, closed_acks. Qed.

Lemma keeps_reap c0 : keeps (later c0) reap.
Proof.
  intros c w Hc. unfold reap. run_handler.
  destruct (LeaseTable.reap_expired _ (leases c)) as [r T] eqn:Hr. cbn.
  etrans; [exact Hc|]. eapply (later_set_leases _ [LeaseTable.Reap _]). cbn. by rewrite Hr.
Qed.
#[local] Hint Resolve keeps_reap keeps_dispatch : keeps.
Lemma keeps_serve c0 request : keeps (later c0) (serve reports fuel request).
Proof. unfold serve. keep. Qed.
#[local] Hint Resolve keeps_serve : keeps.
Lemma keeps_handle c0 request : keeps (later c0) (handle reports fuel request).
Proof. unfold handle. keep; intros c Hc; (etrans; [exact Hc|by apply later_same]). Qed.
#[local] Hint Resolve keeps_handle : keeps.
Lemma keeps_run_worker c0 : keeps (later c0) (run_worker reports fuel).
Proof. unfold run_worker. keep; intros c Hc; (etrans; [exact Hc|by apply later_same]). Qed.

Lemma remove_each_nil rs ls : (LeaseTable.remove_each rs ls).1 = [] -> (LeaseTable.remove_each rs ls).2 = ls.
Proof.
  revert ls. induction rs as [|r rs IH]; intros ls; cbn; [done|].
  specialize (IH (delete r ls)). destruct (LeaseTable.remove_each rs (delete r ls)) as [removed ls'] eqn:Hrm.
  cbn in *. destruct (ls !! r) eqn:Hr; [done|]. intros ->. rewrite IH by done. by apply delete_id.
Qed.
Lemma reap_nothing n T T' : LeaseTable.reap_expired n T = ([], T') -> T' = T.
Proof.
  unfold LeaseTable.reap_expired. intros Hr.
  destruct (LeaseTable.remove_each _ _) as [rm ls] eqn:Hrm. injection Hr as -> <-.
  pose proof (remove_each_nil _ _ ltac:(by rewrite Hrm)) as Hls. rewrite Hrm in Hls. cbn in Hls. subst.
  by destruct T.
Qed.

Lemma acks_serve request : acks (serve reports fuel request).
Proof.
  intros c w v c' w' Hrun Hc. unfold serve in Hrun.
  apply bind_Ok_inv in Hrun as (reaped & c1 & w1 & Hreap & Hrun).
  apply bind_Ok_inv in Hrun as (u & c2 & w2 & Hp & Hrun).
  apply (acks_dispatch _ _ _ _ _ _ _ Hrun).
  destruct reaped as [|l ls]; [|by eapply syncs_persist].
  ok_inv Hp. unfold reap in Hreap. run_handler.
  destruct (LeaseTable.reap_expired _ (leases c)) as [r T] eqn:Hr.
  injection Hreap as -> <- _. apply reap_nothing in Hr as ->. by destruct c.
Qed.

(** C12. Acknowledged means stored: if the state file was up to date before a
    request, and the request is answered with success, the state file holds
    everything the controller knows afterwards (its records and both tables);
    whatever the request did, it is found again after a crash. *)
Theorem acknowledged_requests_are_durable request c w response c' w' :
  handle reports fuel request c w = (Ok response, c', w') ->
  Response.ok response = true -> synced c -> synced c'.
Proof.
  intros Hrun Hok Hc. unfold handle in Hrun.
  apply bind_Ok_inv in Hrun as (? & ? & ? & H & Hrun). ok_inv H.
  apply bind_Ok_inv in Hrun as (? & ? & ? & H & Hrun). ok_inv H.
  apply bind_Ok_inv in Hrun as (result & c1 & w1 & Hserve & Hrun).
  apply bind_Ok_inv in Hrun as (? & ? & ? & H & Hrun). ok_inv H.
  apply ret_Ok_inv in Hrun as (-> & -> & ->).
  unfold attempt in Hserve. destruct (serve _ _ _ _ _) as [[[v|e|] c2] w2] eqn:Hs; [| |done];
    injection Hserve as <- <- <-; [|done].
  change (synced c2). eapply acks_serve; [exact Hs|exact Hc].
Qed.

(** ** Histories *)

(** One request served, or one worker run, from start to end. *)
Inductive step (c c' : t) : Prop :=
  | step_request request w o w' : handle reports fuel request c w = (o, c', w') -> step c c'
  | step_worker w o w' : run_worker reports fuel c w = (o, c', w') -> step c c'.

Lemma steps_later c c' : rtc step c c' -> later c c'.
Proof.
  induction 1 as [c|c1 c2 c3 Hstep _ IH]; [reflexivity|]. etrans; [|exact IH].
  destruct Hstep as [rq w o w' Hrun|w o w' Hrun];
    [eapply (keeps_run _ _ _ _ _ _ _ (keeps_handle c1 rq) Hrun)|
     eapply (keeps_run _ _ _ _ _ _ _ (keeps_run_worker c1) Hrun)]; reflexivity.
Qed.

(** The journal of a transaction is written on at its end only. *)

(** A transaction's journal is append-only: over any sequence of requests
    its terms (session, key, target, generation, fence) are fixed, the entries
    it had stay, at their place, the new ones are numbered on without a gap,
    none of them is recorded under another fence than the transaction's, and
    the steps it had completed stay completed. *)
Theorem transaction_journal_is_append_only c c' i x :
  rtc step c c' ->
  bfind (Transactions.transaction_is i) (WorkbenchState.transactions (state c)) = Some x ->
  exists x' es,
    bfind (Transactions.transaction_is i) (WorkbenchState.transactions (state c')) = Some x' /\
    transaction_terms x' = transaction_terms x /\
    ActivationTransaction.journal x' = ActivationTransaction.journal x ++ es /\
    (forall k e, es !! k = Some e ->
       TransactionJournalEntry.sequence e =
         Z.of_nat (length (ActivationTransaction.journal x)) + Z.of_nat k + 1) /\
    (forall e f f', e ∈ es -> ActivationTransaction.lease_fence x = Some f ->
       TransactionJournalEntry.fence e = Some f' -> f' = f) /\
    ActivationTransaction.completed_steps x `prefix_of` ActivationTransaction.completed_steps x'.
Proof.
  intros Hl%steps_later Hx.
  assert (forall y y', transaction_step y y' ->
    Transactions.transaction_is i y' = Transactions.transaction_is i y) as Hkey.
  { intros y y' (Hy & _). unfold Transactions.transaction_is.
    by replace (ActivationTransaction.id y') with (ActivationTransaction.id y)
      by (unfold transaction_terms in Hy; congruence). }
  destruct (evolves_bfind _ _ _ _ _ Hkey (later_transactions _ _ Hl) Hx)
    as (x' & Hx' & Ht & (es & Hj & Hes) & Hc).
  exists x', es. split_and!; try done.
  - intros k e Hk. by apply Hes.
  - intros e f f' [k Hk]%list_elem_of_lookup_1 Hf Hf'. by apply (proj2 (Hes _ _ Hk) f f').
Qed.

(** ** Restarts *)

(** Two states with the same records, whatever their tables. *)
Definition same_but_tables (s s' : WorkbenchState.t) : Prop :=
  WorkbenchState.with_tables [] ∅ [] s' = WorkbenchState.with_tables [] ∅ [] s.

(** What a controller that has opened is. *)
Record opened (configured : option string) (stored : WorkbenchState.t) (c' : t) : Prop := {
  opened_configured : forall i, configured = Some i -> id c' = i;
  opened_stored : forall i, WorkbenchState.controller_id stored = Some i -> id c' = i;
  opened_records :
    same_but_tables (compact_persisted_evidence (adopted (id c') stored)).1 (state c');
  opened_leases : exists n,
    leases c' = (LeaseTable.reap_expired n
      (LeaseTable.from_snapshot (WorkbenchState.leases stored) (WorkbenchState.lease_fences stored))).2;
  opened_tasks : forall i task, TaskTable.tasks (tasks c') !! i = Some task -> TaskTable.orphan task = false;
  opened_forgets : operator_grants c' = ∅ /\ operator_nonces c' = ∅ /\ async_resume_tokens c' = ∅ /\
    async_active c' = 0 /\ workers c' = [];
}.

Lemma recovered_not_orphan clocks T i task :
  TaskTable.tasks (TaskTable.recover_orphans clocks T).2 !! i = Some task -> TaskTable.orphan task = false.
Proof.
  intros Hi. pose proof (TaskTable.recover_lookup clocks T i) as Hr.
  destruct (TaskTable.tasks T !! i) as [old|]; [|congruence].
  destruct (TaskTable.orphan old) eqn:Ho; [|congruence].
  destruct Hr as (task' & Htask & n1 & n2 & Hrec). rewrite Hi in Htask. injection Htask as <-. by subst.
Qed.
Lemma pruned_not_orphan n clocks T pruned T' i task :
  prune_task_retention n (TaskTable.recover_orphans clocks T).2 = (pruned, T') ->
  TaskTable.tasks T' !! i = Some task -> TaskTable.orphan task = false.
Proof.
  unfold prune_task_retention, TaskTable.prune_retention. intros Hp Hi.
  change T' with (pruned, T').2 in Hi. rewrite <- Hp, TaskTable.remove_tasks_lookup in Hi.
  case_decide; [done|]. by eapply recovered_not_orphan.
Qed.

(** The identity a controller opens under. *)
Lemma open_identity configured stored d w cid d' w' :
  ((match WorkbenchState.controller_id stored, configured with
    | Some was, Some now => guard (bool_decide (was = now)) (ControllerIdentityMismatch was now)
    | _, _ => mret tt
    end) ;;
   match configured, WorkbenchState.controller_id stored with
   | Some controller_id, _ | None, Some controller_id => mret controller_id
   | None, None => u ← fresh_uuid; mret ("controller_" +:+ u)
   end : M (option WorkbenchState.t) OpenError string) d w = (Ok cid, d', w') ->
  d' = d /\ (forall i, configured = Some i -> cid = i) /\
  (forall i, WorkbenchState.controller_id stored = Some i -> cid = i).
Proof.
  intros (u & d1 & w1 & Hcheck & Hid)%bind_Ok_inv.
  destruct configured as [x|], (WorkbenchState.controller_id stored) as [y|].
  - apply guard_Ok_inv in Hcheck as (->%bool_decide_eq_true & -> & ->).
    apply ret_Ok_inv in Hid as (-> & -> & ->). split; [done|]. by split; intros i [= ->].
  - ok_inv Hcheck. apply ret_Ok_inv in Hid as (-> & -> & ->). split; [done|]. by split; intros i; [intros [= ->]|].
  - ok_inv Hcheck. apply ret_Ok_inv in Hid as (-> & -> & ->). split; [done|]. by split; intros i; [|intros [= ->]].
  - ok_inv Hcheck. by ok_inv Hid.
Qed.

Lemma open_Ok configured d w c' d' w' :
  open_with_id configured d w = (Ok c', d', w') ->
  opened configured (default WorkbenchState.default d) c' /\ disk c' = d'.
Proof.
  unfold open_with_id. set (stored := default _ d). intros Hrun.
  apply bind_Ok_inv in Hrun as (? & ? & ? & H & Hrun). ok_inv H. fold stored in Hrun.
  apply bind_Ok_inv in Hrun as (u & d1 & w1 & Hcheck & Hrun).
  apply bind_Ok_inv in Hrun as (cid & d2 & w2 & Hid & Hrun).
  destruct (open_identity configured stored d w cid d2 w2) as (-> & Hconf & Hstored).
  { unfold mbind, M_bind. by rewrite Hcheck. }
  pose proof (compact_persisted_records (adopted cid stored)) as (_ & _ & Hls & Hfs & _).
  destruct (compact_persisted_evidence (adopted cid stored)) as [st compacted] eqn:Hst.
  cbn [fst] in Hls, Hfs. change (WorkbenchState.leases st = WorkbenchState.leases stored) in Hls.
  change (WorkbenchState.lease_fences st = WorkbenchState.lease_fences stored) in Hfs.
  apply bind_Ok_inv in Hrun as (n & ? & ? & H & Hrun). ok_inv H.
  destruct (LeaseTable.reap_expired _ _) as [reaped ls] eqn:Hreap.
  apply bind_Ok_inv in Hrun as (clocks & ? & ? & H & Hrun). injection H as <- <- <-.
  destruct (TaskTable.recover_orphans _ _) as [recovered ts] eqn:Hrec.
  apply bind_Ok_inv in Hrun as (n & ? & ? & H & Hrun). ok_inv H.
  destruct (prune_task_retention _ ts) as [pruned ts'] eqn:Hprune.
  assert (Hnone : forall i task, TaskTable.tasks ts' !! i = Some task -> TaskTable.orphan task = false).
  { intros i task. eapply (pruned_not_orphan _ _ _ pruned). rewrite Hrec. exact Hprune. }
  assert (Hmk : forall fd fs, same_but_tables st fs ->
    opened configured stored (Controller.mk cid fd fs ls ts' ∅ ∅ 0 async_limit ∅ None [] [])).
  { intros fd fs Hsame. split; try done; [cbn [id]; by rewrite Hst|].
    eexists. cbn. rewrite <- Hls, <- Hfs, Hreap. done. }
  destruct (_ || _) in Hrun.
  - apply bind_Ok_inv in Hrun as (ok & ? & ? & H & Hrun). ok_inv H. case_in Hrun; [|done].
    apply bind_Ok_inv in Hrun as (? & ? & ? & H & Hrun). injection H as _ <- <-.
    apply ret_Ok_inv in Hrun as (-> & -> & _). split; [by apply Hmk|done].
  - apply ret_Ok_inv in Hrun as (-> & -> & _). split; [by apply (Hmk _ st)|done].
Qed.

(** *** Lifetimes

    A lifetime is any sequence of requests, worker runs and restarts; a restart
    happens when the state file is up to date, as it is after every
    acknowledged request. *)

(** The state file names this controller, as it does once one has opened. *)
Definition anchored (c : t) : Prop := WorkbenchState.controller_id (state c) = Some (id c).

Definition restarted (c c' : t) : Prop :=
  synced c /\ exists configured w d w', open_with_id configured (disk c) w = (Ok c', d, w').

Definition lifetime : relation t := rtc (fun c c' => step c c' \/ restarted c c').

(** What lasts through restarts too. *)
Record survives (c c' : t) : Prop := {
  survives_id : id c' = id c;
  survives_anchored : anchored c';
  survives_sessions :
    evolves session_step (WorkbenchState.sessions (state c)) (WorkbenchState.sessions (state c'));
  survives_generations :
    evolves generation_step (WorkbenchState.generations (state c)) (WorkbenchState.generations (state c'));
  survives_handoffs :
    evolves handoff_step (WorkbenchState.handoffs (state c)) (WorkbenchState.handoffs (state c'));
  survives_requests :
    evolves request_step (WorkbenchState.driver_handoff_requests (state c))
      (WorkbenchState.driver_handoff_requests (state c'));
  survives_approvals :
    evolves approval_step (WorkbenchState.approvals (state c)) (WorkbenchState.approvals (state c'));
}.

Lemma later_survives c c' : anchored c -> later c c' -> survives c c'.
Proof.
  unfold anchored. intros Hc Hl. split; unfold anchored; try apply Hl. by rewrite (later_controller_id _ _ Hl), (later_id _ _ Hl). Qed.

Lemma restarted_survives c c' : anchored c -> restarted c c' -> survives c c'.
Proof.
  intros Hc [[Hdisk _] (configured & w & d & w' & [Hopen _]%open_Ok)]. rewrite Hdisk in Hopen. cbn [default] in Hopen.
  pose proof (opened_stored _ _ _ Hopen _ Hc) as Hid. pose proof (opened_records _ _ _ Hopen) as Hsame.
  pose proof (compact_persisted_records (adopted (id c') (state c)))
    as (Hci & Hss & _ & _ & Hrs & Has & Hgs & Hhs). unfold same_but_tables in Hsame.
  apply (f_equal WorkbenchState.controller_id) in Hsame as Hci'.
  apply (f_equal WorkbenchState.sessions) in Hsame as Hss'.
  apply (f_equal WorkbenchState.driver_handoff_requests) in Hsame as Hrs'.
  apply (f_equal WorkbenchState.approvals) in Hsame as Has'.
  apply (f_equal WorkbenchState.generations) in Hsame as Hgs'.
  apply (f_equal WorkbenchState.handoffs) in Hsame as Hhs'. cbn -[compact_persisted_evidence] in *.
  split; unfold anchored.
  - exact Hid.
  - by rewrite Hci', Hci.
  - rewrite Hss', Hss. apply evolves_fmap. intros s _. unfold housed.
    destruct (WorkspaceSession.authority s) eqn:Ha; [done|]. split; [done|]. by rewrite Ha.
  - rewrite Hgs', Hgs. apply evolves_fmap. intros g _.
    destruct (compact_generation_fields g) as (H1 & H2 & H3 & H4 & H5).
    split; [|by rewrite H5]. unfold generation_identity. by rewrite H1, H2, H3, H4.
  - rewrite Hhs', Hhs. apply evolves_fmap. intros h _.
    destruct (compact_handoff_fields h) as (H1 & H2 & H3 & H4 & H5 & H6 & H7 & H8).
    unfold handoff_step, handoff_terms. rewrite H1, H2, H3, H4, H5, H6, H7, H8. split_and!; try done.
    by intros -> [].
  - rewrite Hrs', Hrs. reflexivity.
  - rewrite Has', Has. reflexivity.
Qed.

Lemma survives_trans c1 c2 c3 : survives c1 c2 -> survives c2 c3 -> survives c1 c3.
Proof. intros [] []. split; try (by etrans); congruence. Qed.

Lemma lifetime_survives c c' : anchored c -> lifetime c c' -> survives c c'.
Proof.
  intros Hc Hlife. induction Hlife as [c|c1 c2 c3 Hstep _ IH]; [by apply later_survives|].
  assert (survives c1 c2) as H12.
  { destruct Hstep; [apply later_survives; [done|]; by apply steps_later, rtc_once|by apply restarted_survives]. }
  eapply survives_trans; [exact H12|]. apply IH, (survives_anchored _ _ H12).
Qed.

(** The keys records are found by are fixed. *)
Lemma session_key i y y' : session_step y y' -> Registry.session_is i y' = Registry.session_is i y.
Proof. unfold Registry.session_is. by intros [-> _]. Qed.
Lemma generation_key i y y' : generation_step y y' -> Registry.generation_is i y' = Registry.generation_is i y.
Proof. unfold Registry.generation_is. by intros [[= -> _ _ _] _]. Qed.
Lemma handoff_key i y y' : handoff_step y y' -> Transactions.handoff_is i y' = Transactions.handoff_is i y.
Proof. unfold Transactions.handoff_is. by intros [[= -> _ _ _ _] _]. Qed.
Lemma approval_key i y y' : approval_step y y' -> Approvals.approval_is i y' = Approvals.approval_is i y.
Proof. unfold Approvals.approval_is. by intros [[= -> _ _ _ _] _]. Qed.


(** A generation moves forward only: it keeps its session, root and
    baseline for ever, and its state stays or moves up the pipeline, so a
    failed or superseded generation never becomes active and no stage is
    entered twice. *)
Theorem generation_moves_forward c c' i g :
  anchored c -> lifetime c c' ->
  bfind (Registry.generation_is i) (WorkbenchState.generations (state c)) = Some g ->
  exists g', bfind (Registry.generation_is i) (WorkbenchState.generations (state c')) = Some g' /\
    generation_identity g' = generation_identity g /\
    (Generation.state g' = Generation.state g \/
     generation_rank (Generation.state g) < generation_rank (Generation.state g')).
Proof.
  intros Hc Hl%lifetime_survives Hg; [|done].
  destruct (evolves_bfind generation_step _ _ _ _ (generation_key i)
    (survives_generations _ _ Hl) Hg) as (g' & Hg' & Hid & Hst%generation_rtc_rank).
  exists g'. split_and!; [done|done|]. destruct Hst as [->|]; auto.
Qed.

(** A handoff is completed in order: an acknowledgement is never taken
    back or re-dated, and a handoff that was open and is now completed has
    been acknowledged and, if it is an acceptance, carries a report. *)
Theorem handoff_completes_in_order c c' i h :
  anchored c -> lifetime c c' ->
  bfind (Transactions.handoff_is i) (WorkbenchState.handoffs (state c)) = Some h ->
  exists h', bfind (Transactions.handoff_is i) (WorkbenchState.handoffs (state c')) = Some h' /\
    handoff_terms h' = handoff_terms h /\
    (forall at_, Handoff.acknowledged_at h = Some at_ -> Handoff.acknowledged_at h' = Some at_) /\
    (Handoff.completed_at h = None -> is_Some (Handoff.completed_at h') ->
       is_Some (Handoff.acknowledged_at h') /\
       (Handoff.kind h' = HandoffKind.Acceptance -> is_Some (Handoff.report h'))).
Proof.
  intros Hc Hl%lifetime_survives Hh; [|done].
  destruct (evolves_bfind handoff_step _ _ _ _ (handoff_key i)
    (survives_handoffs _ _ Hl) Hh) as (h' & Hh' & Ht & Ha & _ & _ & Hn).
  by exists h'.
Qed.

(** A driver handoff request that is closed stays closed: completed,
    cancelled and expired requests keep their state, so no await that comes
    after moves the driver on their account; and no request ever changes whom
    it is for. *)
Theorem closed_driver_requests_stay_closed c c' r :
  anchored c -> lifetime c c' -> r ∈ WorkbenchState.driver_handoff_requests (state c) ->
  exists r', r' ∈ WorkbenchState.driver_handoff_requests (state c') /\
    request_terms r' = request_terms r /\
    (handoff_open (DriverHandoffRequest.state r) = false ->
     DriverHandoffRequest.state r' = DriverHandoffRequest.state r).
Proof.
  intros Hc Hl%lifetime_survives Hr; [|done].
  destruct (evolves_elem _ _ _ _ (survives_requests _ _ Hl) Hr) as (r' & Hr' & Ht & Hs).
  exists r'. split_and!; [done|done|]. by apply driver_closed_final.
Qed.

(** What an approval is for is fixed when it is requested, and an approval
    that is consumed or revoked never authorizes anything again, not even
    after a restart. *)
Theorem spent_approvals_stay_spent c c' i a :
  anchored c -> lifetime c c' ->
  bfind (Approvals.approval_is i) (WorkbenchState.approvals (state c)) = Some a ->
  exists a', bfind (Approvals.approval_is i) (WorkbenchState.approvals (state c')) = Some a' /\
    approval_terms a' = approval_terms a /\
    (approval_spent (Approval.state a) -> approval_spent (Approval.state a')).
Proof.
  intros Hc Hl%lifetime_survives Ha; [|done].
  destruct (evolves_bfind approval_step _ _ _ _ (approval_key i)
    (survives_approvals _ _ Hl) Ha) as (a' & Ha' & Ht & Hs & _).
  exists a'. split_and!; [done|done|]. by apply approval_spent_final.
Qed.

(** C24. A restart resumes where the controller stopped: opened from an
    up-to-date state file it has the same identity, the same approvals and
    driver requests, the same lease table with its tokens hashed less what has
    expired, no task that claims to be queued or running, and no operator
    grant, nonce or worker of the time before. *)
Theorem restart_resumes c configured w c' d w' :
  anchored c -> synced c ->
  open_with_id configured (disk c) w = (Ok c', d, w') ->
  id c' = id c /\
  WorkbenchState.approvals (state c') = WorkbenchState.approvals (state c) /\
  WorkbenchState.driver_handoff_requests (state c') = WorkbenchState.driver_handoff_requests (state c) /\
  (exists n, leases c' = (LeaseTable.reap_expired n (LeaseTable.restart (leases c))).2) /\
  (forall i task, TaskTable.tasks (tasks c') !! i = Some task -> TaskTable.orphan task = false) /\
  operator_grants c' = ∅ /\ operator_nonces c' = ∅ /\ workers c' = [].
Proof.
  intros Hc Hsync [Hopen _]%open_Ok. destruct Hsync as [Hdisk Hstate].
  rewrite Hdisk in Hopen. cbn [default] in Hopen. destruct Hopen as [_ Hid Hsame [n Hls] Hts (Hg & Hn & _ & _ & Hw)].
  pose proof (compact_persisted_records (adopted (id c') (state c))) as (_ & _ & _ & _ & Hrs & Has & _).
  unfold same_but_tables in Hsame.
  split_and!; try done; [by apply Hid| | |].
  - apply (f_equal WorkbenchState.approvals) in Hsame. cbn -[compact_persisted_evidence] in Hsame. by rewrite Hsame, Has.
  - apply (f_equal WorkbenchState.driver_handoff_requests) in Hsame. cbn -[compact_persisted_evidence] in Hsame. by rewrite Hsame, Hrs.
  - apply (f_equal WorkbenchState.leases) in Hstate as Hl.
    apply (f_equal WorkbenchState.lease_fences) in Hstate as Hf. cbn in Hl, Hf.
    exists n. unfold Datatypes.id in Hls. by rewrite Hls, Hl, Hf.
Qed.
End requests.
End lifecycles.

(** ** Witnesses *)

Definition no_reports : table := [("status", fun _ => ping)].
Lemma no_reports_quiet : each (fun A m => quiet m) no_reports.
Proof. apply Forall_cons_2; [intros ps; apply quiet_ping|apply Forall_nil_2]. Qed.

Abbreviation sample_handle := (handle (P := sample_platform) no_reports 10).
Definition sample_request (action : string) (params : Value) : Request.t := Request.new "r1" action params.
Abbreviation always := (sample_world (fun _ => true)).

(** A controller with one record of each kind, its state file up to date. *)
Definition sample_records : WorkbenchState.t :=
  WorkbenchState.with_controller_id (Some "ctl")
  (WorkbenchState.with_sessions [sample_session (Some (SessionAuthority.mk "ctl" 1 None))]
  (WorkbenchState.with_generations [sample_generation GenerationState.Reserved "/r"]
  (WorkbenchState.with_handoffs [sample_handoff HandoffKind.Work]
  (WorkbenchState.with_transactions
     [ActivationTransaction.mk "x1" "s1" "k" "target" "g1" None TransactionState.Planned 1 1 [] [] (Some 3)
        [] None]
  (WorkbenchState.with_requests
     [DriverHandoffRequest.mk "q1" "s1" "workspace:s1" "bob" (Some "alice") DriverHandoffState.Cancelled 1 9000 None]
  (WorkbenchState.with_approvals
     [Approval.mk "a1" "sha256:#?" "alice" "cleanup" ApprovalState.Revoked 1 None None None]
     WorkbenchState.default)))))).
Definition sample_node : t := sample_controller sample_records.
Lemma sample_anchored : anchored sample_node.
Proof. done. Qed.

(** One request, as a history. *)
Lemma sample_lifetime action params :
  lifetime (P := sample_platform) no_reports 10 sample_node
    (sample_handle (sample_request action params) sample_node always).1.2.
Proof.
  apply rtc_once. left. destruct (sample_handle _ _ _) as [[o c'] w'] eqn:Hrun. by eapply step_request.
Qed.

Abbreviation put_s1 := (sample_request "session.put" (VString "s1")).

Lemma acknowledged_requests_are_durable_witness :
  let run := sample_handle put_s1 sample_node always in
  (exists response, run.1.1 = Ok response /\ Response.ok response = true) /\
  synced (P := sample_platform) run.1.2.
Proof.
  cbv zeta. assert (Hok : exists response, (sample_handle put_s1 sample_node always).1.1 = Ok response /\
    Response.ok response = true) by (eexists; split; [vm_compute; reflexivity|reflexivity]).
  split; [exact Hok|]. destruct Hok as (response & Hresponse & Hok).
  apply (acknowledged_requests_are_durable (P := sample_platform) no_reports 10 no_reports_quiet put_s1
    sample_node always response _ _ (ok_pair _ _ _ _ Hresponse) Hok).
  split; reflexivity.
Defined.

Abbreviation record_build := (sample_request "transaction.record"
  (json_object [("transactionId", VString "x1"); ("step", VString "build"); ("state", VString "started");
                ("fence", vnat 3)])).

Lemma transaction_journal_is_append_only_witness :
  exists x' es,
    bfind (Transactions.transaction_is "x1")
      (WorkbenchState.transactions (state (sample_handle record_build sample_node always).1.2)) = Some x' /\
    ActivationTransaction.journal x' = es.
Proof.
  assert (Hstep : rtc (step (P := sample_platform) no_reports 10) sample_node
    (sample_handle record_build sample_node always).1.2).
  { apply rtc_once. destruct (sample_handle _ _ _) as [[o c'] w'] eqn:Hrun. by eapply step_request. }
  destruct (transaction_journal_is_append_only (P := sample_platform) no_reports 10 no_reports_quiet
    _ _ "x1" _ Hstep eq_refl) as (x' & es & Hx' & _ & Hj & _).
  exists x', es. split; [exact Hx'|exact Hj].
Defined.


Abbreviation put_g1 := (sample_request "generation.put" (VString "materializing")).

Lemma generation_moves_forward_witness :
  exists g', bfind (Registry.generation_is "g1")
      (WorkbenchState.generations (state (sample_handle put_g1 sample_node always).1.2)) = Some g' /\
    Generation.root g' = "/r".
Proof.
  destruct (generation_moves_forward (P := sample_platform) no_reports 10 no_reports_quiet _ _ "g1" _
    sample_anchored (sample_lifetime "generation.put" (VString "materializing")) eq_refl)
    as (g' & Hg' & Hid & _).
  exists g'. split; [exact Hg'|]. by injection Hid.
Defined.

Abbreviation acknowledge_h1 := (sample_request "handoff.acknowledge" (json_object [("handoffId", VString "h1")])).

Lemma handoff_completes_in_order_witness :
  exists h', bfind (Transactions.handoff_is "h1")
      (WorkbenchState.handoffs (state (sample_handle acknowledge_h1 sample_node always).1.2)) = Some h' /\
    handoff_terms h' = handoff_terms (sample_handoff HandoffKind.Work).
Proof.
  destruct (handoff_completes_in_order (P := sample_platform) no_reports 10 no_reports_quiet _ _ "h1" _
    sample_anchored (sample_lifetime "handoff.acknowledge" (json_object [("handoffId", VString "h1")])) eq_refl)
    as (h' & Hh' & Ht & _).
  exists h'. split; [exact Hh'|exact Ht].
Defined.

Lemma closed_driver_requests_stay_closed_witness :
  exists r', r' ∈ WorkbenchState.driver_handoff_requests (state (sample_handle put_s1 sample_node always).1.2) /\
    DriverHandoffRequest.state r' = DriverHandoffState.Cancelled.
Proof.
  destruct (closed_driver_requests_stay_closed (P := sample_platform) no_reports 10 no_reports_quiet _ _
    (DriverHandoffRequest.mk "q1" "s1" "workspace:s1" "bob" (Some "alice") DriverHandoffState.Cancelled 1 9000 None)
    sample_anchored (sample_lifetime "session.put" (VString "s1")) ltac:(by left)) as (r' & Hr' & _ & Hs).
  exists r'. split; [exact Hr'|by apply Hs].
Defined.

(** Approving it again is refused. *)
Abbreviation approve_a1 := (sample_request "approval.approve" (json_object [("approvalId", VString "a1")])).

Lemma spent_approvals_stay_spent_witness :
  exists a', bfind (Approvals.approval_is "a1")
      (WorkbenchState.approvals (state (sample_handle approve_a1 sample_node always).1.2)) = Some a' /\
    approval_spent (Approval.state a').
Proof.
  destruct (spent_approvals_stay_spent (P := sample_platform) no_reports 10 no_reports_quiet _ _ "a1" _
    sample_anchored (sample_lifetime "approval.approve" (json_object [("approvalId", VString "a1")])) eq_refl)
    as (a' & Ha' & _ & Hs).
  exists a'. split; [exact Ha'|]. apply Hs. by right; left.
Defined.

Lemma restart_resumes_witness :
  exists c', (open_with_id (P := sample_platform) None (Some sample_records) always).1.1 = Ok c' /\
    id c' = "ctl" /\ operator_nonces c' = ∅.
Proof.
  assert (exists c', (open_with_id (P := sample_platform) None (Some sample_records) always).1.1 = Ok c')
    as [c' Hc'] by (eexists; vm_compute; reflexivity).
  exists c'. split; [exact Hc'|].
  destruct (restart_resumes (P := sample_platform) sample_node None always c' _ _ sample_anchored
    (conj eq_refl eq_refl) (ok_pair _ _ _ _ Hc')) as (Hid & _ & _ & _ & _ & _ & Hn & _).
  split; [exact Hid|exact Hn].
Defined.
End Dispatch.
