(* ===== verification/Reports.v ===== *)
(** * Reports ([crates/workbench-runtime/src/controller.rs])

    The actions that report: [status], [dashboard.snapshot], the runs and the
    observations of a controller and its peers.  They read the controller's
    records and tables, ask other nodes, and keep the observation store. *)

From Stdlib Require Import Ascii String.
From S2P Require Import Prelude RustStd Sequences Json Protocol Schema Store.
From S2P Require Import Leases Tasks Contracts Lifecycles Controller Samples Observability Dispatch.

(** What the answers take from [serde] and from the file system. *)
Class ReportText := {
  run_serde :: Serde Run.t;
  run_status_serde :: Serde RunStatus.t;
  observation_serde :: Serde Observation.t;
  health_value : HealthStatus.t -> Value;
  approval_state_value : ApprovalState.t -> Value;
  generation_state_value : GenerationState.t -> Value;
  session_observability_value : SessionObservability.t -> Value;
  socket_exists : string -> bool;
}.

Module Reports.
Import Controller Slice.

Section status.
Context {P : Platform} {R : ReportText}.

(** ** Status *)

Definition local_health (endpoint : ExecutorEndpoint.t) (health : HealthStatus.t) : HealthStatus.t :=
  match endpoint with
  | ExecutorEndpoint.Local socket => if socket_exists socket then HealthStatus.Ready else HealthStatus.Offline
  | _ => health
  end.
(** [refresh_local_endpoint_health], on Unix. *)
Definition refresh_controller (c : ControllerPeer.t) : ControllerPeer.t :=
  ControllerPeer.mk (ControllerPeer.api_version c) (ControllerPeer.metadata c) (ControllerPeer.endpoint c)
    (local_health (ControllerPeer.endpoint c) (ControllerPeer.health c)).
Definition refresh_executor (e : Executor.t) : Executor.t :=
  Executor.mk (Executor.api_version e) (Executor.metadata e) (Executor.endpoint e) (Executor.capabilities e)
    (Executor.allowed_roots e) (local_health (Executor.endpoint e) (Executor.health e)).

Definition ready (id : string) : Value := json_object [
  ("id", VString id); ("status", VString "ready"); ("protocolFeatures", VArray (VString <$> Dispatch.protocol_features))].
Definition capability_count (e : Executor.t) : Value := vnat (Z.of_nat (length (Executor.capabilities e))).
(** [*counts.entry(state).or_insert(0) += 1] *)
Definition count_state (counts : gmap string Z) (task : Task.t) : gmap string Z :=
  let state := Str.to_ascii_lowercase (debug_state (Task.state task)) in
  <[state := default 0 (counts !! state) + 1]> counts.
Definition status (params : Value) : Controller.handler Value :=
  c ← get;
  let controllers := refresh_controller <$> WorkbenchState.controllers (state c) in
  let executors := refresh_executor <$> WorkbenchState.executors (state c) in
  let leases := LeaseTable.snapshot (leases c) in
  let tasks := TaskTable.snapshot (tasks c) in
  mret
    (if bool_decide ((vget params "verbose" ≫= as_bool) = Some true) then json_object [
       ("controller", ready (id c)); ("controllers", list_value controllers); ("executors", list_value executors);
       ("leases", list_value leases); ("tasks", list_value tasks)]
     else json_object [
       ("controller", ready (id c));
       ("controllers", VArray ((fun x => json_object [
          ("id", VString (Metadata.id (ControllerPeer.metadata x))); ("health", health_value (ControllerPeer.health x));
          ("endpoint", to_value (ControllerPeer.endpoint x))]) <$> controllers));
       ("executors", VArray ((fun x => json_object [
          ("id", VString (Metadata.id (Executor.metadata x))); ("health", health_value (Executor.health x));
          ("capabilityCount", capability_count x); ("endpoint", to_value (Executor.endpoint x))]) <$> executors));
       ("leases", json_object [("count", vnat (Z.of_nat (length leases)))]);
       ("tasks", json_object [
          ("count", vnat (Z.of_nat (length tasks)));
          ("byState", json_object (prod_map Datatypes.id vnat <$> BTree.entries (foldl count_state ∅ tasks)))])]).

(** ** The snapshot of the dashboard *)

(** [call_executor(&endpoint, &Request::new(action, params))] *)
Definition ask (endpoint : ExecutorEndpoint.t) (action : string) (params : Value) : Controller.handler (string + Response.t) :=
  u ← fresh_uuid; send endpoint (Request.new u action params).
(** The answers of many nodes, asked at once: here one after the other, in their order. *)
Fixpoint each_of {A B} (f : A -> Controller.handler B) (l : list A) : Controller.handler (list B) :=
  match l with [] => mret [] | x :: l' => y ← f x; ys ← each_of f l'; mret (y :: ys) end.

Definition elements (v : option Value) (key : string) : list Value := default [] (v ≫= fun v => vget v key ≫= as_array).
Definition executor_id (e : Executor.t) : string := Metadata.id (Executor.metadata e).
Definition process_node (e : Executor.t) : Controller.handler Value :=
  response ← ask (Executor.endpoint e) "process.list" VNull;
  let answer := match response with inr r => if Response.ok r then Some (elements (Response.result r) "processes") else None | inl _ => None end in
  mret match answer with
       | Some processes => json_object [
           ("executorId", VString (executor_id e)); ("stale", VBool false);
           ("processes", VArray ((fun item => json_object
              ((fun key => (key, vindex item key)) <$> ["id"; "state"; "pid"; "restartable"; "readiness"; "startedAt"; "updatedAt"])) <$> processes))]
       | None => json_object [("executorId", VString (executor_id e)); ("stale", VBool true); ("processes", VArray [])]
       end.
Definition has_capability (name : string) (e : Executor.t) : bool :=
  existsb (fun c => bool_decide (CapabilityDescriptor.name c = name)) (Executor.capabilities e).
(** [tunnel["executorId"] = ...] panics for what is no object. *)
Definition tunnels_of (e : Executor.t) (response : string + Response.t) : Controller.handler (list Value) :=
  match response with
  | inr r => if Response.ok r
             then each_of (fun tunnel => set_field tunnel "executorId" (VString (executor_id e))) (elements (Response.result r) "tunnels")
             else mret []
  | inl _ => mret []
  end.
Definition ask_tunnels (e : Executor.t) : Controller.handler (Executor.t * (string + Response.t)) :=
  response ← ask (Executor.endpoint e) "tunnel.list" VNull; mret (e, response).

Definition lease_item (l : Lease.t) : Value := json_object [
  ("id", VString (Lease.id l)); ("kind", LeaseKind.to_value (Lease.kind l)); ("resource", VString (Lease.resource l));
  ("owner", VString (Lease.owner l)); ("fence", vnat (Lease.fence l)); ("expiresAt", vnat (Lease.expires_at l));
  ("handoffTo", vopt VString (Lease.handoff_to l))].
Definition port_item (l : Lease.t) : Value := json_object [
  ("id", VString (Lease.id l)); ("resource", VString (Lease.resource l)); ("owner", VString (Lease.owner l));
  ("expiresAt", vnat (Lease.expires_at l))].
Definition approval_item (a : Approval.t) : Value := json_object [
  ("id", VString (Approval.id a)); ("owner", VString (Approval.owner a)); ("state", approval_state_value (Approval.state a));
  ("digest", VString (Approval.digest a)); ("createdAt", vnat (Approval.created_at a)); ("expiresAt", vopt vnat (Approval.expires_at a))].
(** The timeout a task runs under, as its executor is registered now. *)
Definition task_timeout (executors : list Executor.t) (task : Task.t) : option Z :=
  executor ← bfind (fun e => bool_decide (executor_id e = Task.executor_id task)) executors;
  capability ← bfind (fun c => bool_decide (CapabilityDescriptor.name c = Task.capability task)) (Executor.capabilities executor);
  Some (CapabilityDescriptor.timeout_ms capability).
Definition task_item (executors : list Executor.t) (task : Task.t) : Value :=
  let timeout_ms := task_timeout executors task in
  json_object [
    ("id", VString (Task.id task)); ("workspaceSessionId", VString (Task.workspace_session_id task));
    ("executorId", VString (Task.executor_id task)); ("capability", VString (Task.capability task));
    ("state", to_value (Task.state task)); ("createdAt", vnat (Task.created_at task)); ("updatedAt", vnat (Task.updated_at task));
    ("timeoutMs", vopt vnat timeout_ms);
    ("expectedBy", vopt (fun timeout => vnat (u64_saturating_add (Task.created_at task) timeout)) timeout_ms)].

Definition dashboard_snapshot : Controller.handler Value :=
  c ← get;
  let s := state c in
  let leases := LeaseTable.snapshot (leases c) in
  let tasks := TaskTable.snapshot (tasks c) in
  process_nodes ← each_of process_node (WorkbenchState.executors s);
  asked ← each_of ask_tunnels (bfilter (has_capability "tunnel.list") (WorkbenchState.executors s));
  tunnels ← each_of (fun x => tunnels_of x.1 x.2) asked;
  n ← now;
  mret (json_object [
    ("generatedAt", vnat n);
    ("controller", json_object [("id", VString (id c)); ("status", VString "ready")]);
    ("controllers", VArray ((fun x => json_object [
       ("id", VString (Metadata.id (ControllerPeer.metadata x))); ("health", health_value (ControllerPeer.health x))])
       <$> WorkbenchState.controllers s));
    ("sessions", VArray ((fun x => json_object [
       ("id", VString (Metadata.id (WorkspaceSession.metadata x))); ("objective", VString (WorkspaceSession.objective x));
       ("state", to_value (WorkspaceSession.state x));
       ("observability", vopt session_observability_value (WorkspaceSession.observability x))]) <$> WorkbenchState.sessions s));
    ("executors", VArray ((fun x => json_object [
       ("id", VString (executor_id x)); ("health", health_value (Executor.health x)); ("capabilityCount", capability_count x)])
       <$> WorkbenchState.executors s));
    ("leases", VArray (lease_item <$> leases));
    ("ports", VArray (port_item <$> bfilter (fun l => Str.starts_with "port:" (Lease.resource l)) leases));
    ("approvals", VArray (approval_item <$> WorkbenchState.approvals s));
    ("processNodes", VArray process_nodes);
    ("tunnels", VArray (concat tunnels));
    ("tasks", VArray (task_item (WorkbenchState.executors s) <$> tasks));
    ("artifacts", VArray ((fun x => json_object [
       ("digest", VString (Artifact.digest x)); ("artifactType", VString (Artifact.artifact_type x)); ("size", vnat (Artifact.size x));
       ("createdAt", vnat (Artifact.created_at x))]) <$> WorkbenchState.artifacts s));
    ("generations", VArray ((fun x => json_object [
       ("id", VString (Generation.id x)); ("state", generation_state_value (Generation.state x))]) <$> WorkbenchState.generations s));
    ("agents", VArray ((fun x => json_object [
       ("id", VString (AgentInstance.id x)); ("workspaceSessionId", VString (AgentInstance.workspace_session_id x));
       ("state", to_value (AgentInstance.state x)); ("role", VString (AgentInstance.role x));
       ("executorId", VString (AgentInstance.executor_id x))]) <$> WorkbenchState.agents s))]).
End status.

(** ** A controller with its observation store *)

Record node := Node { controller : Controller.t; store : ObservabilityStore.t }.
Abbreviation handler := (M node RpcError.t).

Definition on_controller {A} (m : Controller.handler A) : handler A := fun s w =>
  let '(o, c, w) := m (controller s) w in (o, Node c (store s), w).
(** The methods of the store give their errors as values. *)
Definition on_store {A} (m : M ObservabilityStore.t ObservabilityError.t A) : handler (ObservabilityError.t + A) := fun s w =>
  let '(o, d, w) := m (store s) w in
  (match o with Ok a => Ok (inr a) | Err e => Ok (inl e) | Panic => Panic end, Node (controller s) d, w).

Definition error_text (e : ObservabilityError.t) : string :=
  match e with
  | ObservabilityError.Sql text => "observability database error: " +:+ text
  | ObservabilityError.Json text => "invalid observability data: " +:+ text
  | ObservabilityError.RunNotFound id => "run not found: " +:+ id
  | ObservabilityError.InvalidTransition text => "invalid run transition: " +:+ text
  end.
Definition observability_rpc_error (e : ObservabilityError.t) : RpcError.t :=
  RpcError.new (match e with
                | ObservabilityError.RunNotFound _ => "RUN_NOT_FOUND"
                | ObservabilityError.InvalidTransition _ => "INVALID_RUN_TRANSITION"
                | _ => "OBSERVABILITY_STORE_FAILED"
                end) (error_text e).
Definition settled {A} (r : ObservabilityError.t + A) : handler A :=
  match r with inl e => throw (observability_rpc_error e) | inr a => mret a end.

Section runs.
Context {P : Platform} {R : ReportText} {W : RecordText}.
Context (refused out_of_range constraint full : string).
Context (order_by_started_at : list ObservabilityStore.run_row -> list ObservabilityStore.run_row).

Abbreviation store_append o := (ObservabilityStore.append refused out_of_range full o).
Definition remember (o : Observation.t) : handler unit := _ ← on_store (store_append o); mret tt.

Definition run_observation (run : Run.t) (node_id : string) (timestamp : Z) (name status : string) (duration_ms : option Z)
    (attributes : Value) : Observation.t := {|
  Observation.event_id := 0; Observation.run_id := Some (Run.run_id run); Observation.timestamp := timestamp;
  Observation.node_id := node_id; Observation.role := "controller"; Observation.kind := "run"; Observation.name := name;
  Observation.status := status; Observation.duration_ms := duration_ms; Observation.span_id := None;
  Observation.parent_span_id := None; Observation.request_id := None; Observation.task_id := None;
  Observation.process_id := None; Observation.connection_id := None; Observation.attributes := attributes |}.

Definition run_start (params : Value) : handler Value :=
  run_id ← match str_param params "runId" with Some id => mret id | None => u ← fresh_uuid; mret ("run_" +:+ u) end;
  workspace ← lift (optional_str params "workspaceSessionId");
  agent ← lift (optional_str params "agentSessionId");
  summary ← lift (required_str params "targetSummary");
  created_by ← lift (optional_str params "createdBy");
  started_at ← now;
  let run := Run.mk run_id workspace agent (Str.take_chars 500 summary) (default "agent" created_by)
               RunStatus.Running RunHealth.Unknown started_at None None in
  started ← on_store (ObservabilityStore.start_run refused out_of_range constraint run);
  _ ← settled started;
  s ← get;
  remember (run_observation run (id (controller s)) started_at "run.start" "running" None
              (json_object [("createdBy", VString (Run.created_by run))])) ;;
  mret (to_value run).

(** [call_peer_until_success] *)
Fixpoint first_success (action : string) (params : Value) (peers : list ControllerPeer.t) : Controller.handler Value :=
  match peers with
  | [] => throw (RpcError.new "RUN_NOT_FOUND" "run was not found on any connected Controller")
  | peer :: peers' =>
      request ← traced_request action params;
      response ← send (ControllerPeer.endpoint peer) request;
      match response with
      | inr r => if Response.ok r then mret (default VNull (Response.result r)) else first_success action params peers'
      | inl _ => first_success action params peers'
      end
  end.
Definition call_peer_until_success (action : string) (params : Value) : Controller.handler Value :=
  c ← get; first_success action params (WorkbenchState.controllers (state c)).

Definition local_only (params : Value) : bool := bool_decide ((vget params "localOnly" ≫= as_bool) = Some true).
Definition run_finish (params : Value) : handler Value :=
  status ← lift (map_err (RpcError.new "INVALID_PARAMS") (from_value (default (VString "completed") (vget params "status"))));
  run_id ← lift (required_str params "runId");
  business ← lift (optional_str params "businessOutcome");
  n ← now;
  finished ← on_store (ObservabilityStore.finish_run refused run_id status n business);
  match finished with
  | inr run =>
      s ← get;
      let at_ := default n (Run.finished_at run) in
      remember (run_observation run (id (controller s)) at_ "run.finish" (RunStatus.name (Run.status run))
                  (Some (saturating_sub at_ (Run.started_at run)))
                  (json_object [("health", VString (RunHealth.name (Run.health run))); ("businessOutcome", vopt VString (Run.business_outcome run))])) ;;
      mret (to_value run)
  | inl (ObservabilityError.RunNotFound _ as e) =>
      if local_only params then throw (observability_rpc_error e)
      else on_controller (call_peer_until_success "run.finish" (json_object [
             ("runId", VString run_id); ("status", vindex params "status"); ("businessOutcome", vindex params "businessOutcome");
             ("localOnly", VBool true)]))
  | inl e => throw (observability_rpc_error e)
  end.

Definition run_get (params : Value) : handler Value :=
  run_id ← lift (required_str params "runId");
  found ← on_store (ObservabilityStore.get_run refused run_id);
  found ← settled found;
  match found with
  | Some run => mret (to_value run)
  | None =>
      if local_only params then throw (RpcError.new "RUN_NOT_FOUND" "run not found")
      else on_controller (call_peer_until_success "run.get" (json_object [("runId", VString run_id); ("localOnly", VBool true)]))
  end.

Definition clamped (key : string) (fallback low high : Z) (params : Value) : Z :=
  Z.max low (Z.min (default fallback (u64_param params key)) high).
Definition parsed {A} `{!Serde A} (v : Value) : option A := match from_value v with Ok a => Some a | _ => None end.
(** What the peers answered, as far as it can be read. *)
Definition peer_runs (responses : list (string + Response.t)) : list Run.t :=
  omap parsed (concat ((fun response => match response with
                                        | inr r => if Response.ok r then default [] (Response.result r ≫= as_array) else []
                                        | inl _ => []
                                        end) <$> responses)).
Definition latest_first (runs : list Run.t) : list Run.t := sort_by (fun x y => Run.started_at y <=? Run.started_at x) runs.
Definition run_list (params : Value) : handler Value :=
  let limit := clamped "limit" 100 1 500 params in
  let offset := Z.min (default 0 (u64_param params "offset")) 10000 in
  let fetch_limit := Z.min (limit + offset) 500 in
  status_filter ← lift (optional_str params "status");
  own ← on_store (ObservabilityStore.list_runs refused order_by_started_at fetch_limit);
  own ← settled own;
  runs ← (if local_only params then mret own
          else
            s ← get;
            responses ← on_controller (each_of (fun peer =>
              ask (ControllerPeer.endpoint peer) "run.list" (json_object [("limit", vnat fetch_limit); ("localOnly", VBool true)]))
              (WorkbenchState.controllers (state (controller s))));
            mret (retain_first Run.run_id [] (latest_first (own ++ peer_runs responses))));
  let kept := match status_filter with
              | Some status => bfilter (fun run => bool_decide (RunStatus.name (Run.status run) = status)) runs
              | None => runs
              end in
  mret (list_value (take (Z.to_nat limit) (drop (Z.to_nat offset) (latest_first kept)))).

(** ** Observations *)

(** The requests to the peers, each from its own cursor.  The threads that make them have no trace context
    ([CURRENT_TRACE] is a thread's own), so [traced_request] gives a plain request there. *)
Definition cursor_of (cursors : option (list (string * Value))) (node_id : string) : option Z :=
  vs ← cursors; vget (VObject vs) node_id ≫= as_u64.
Definition ask_observations (cursors : option (list (string * Value))) (run_id : option string) (limit : Z) (peer : ControllerPeer.t) :
    Controller.handler (string * Z * (string + Response.t)) :=
  let node_id := Metadata.id (ControllerPeer.metadata peer) in
  let remote_cursor := default 0 (cursor_of cursors node_id) in
  response ← ask (ControllerPeer.endpoint peer) "observability.query" (json_object [
    ("runId", vopt VString run_id); ("cursor", vnat remote_cursor); ("limit", vnat limit); ("localOnly", VBool true)]);
  mret (node_id, remote_cursor, response).

Record collected := Collected { cursors : list (string * Value); nodes : list Value; events : list Observation.t }.
Definition node_item (node_id : string) (stale : bool) (cursor : Z) : Value :=
  json_object [("nodeId", VString node_id); ("stale", VBool stale); ("cursor", vnat cursor)].
Definition collect_answer (acc : collected) (answer : string * Z * (string + Response.t)) : collected :=
  let '(node_id, previous_cursor, response) := answer in
  let value := match response with inr r => if Response.ok r then Some (default VNull (Response.result r)) else None | inl _ => None end in
  match value with
  | Some value =>
      let remote_cursor := default previous_cursor (u64_param value "cursor") in
      Collected (obj_insert (cursors acc) node_id (vnat remote_cursor)) (nodes acc ++ [node_item node_id false remote_cursor])
        (events acc ++ omap parsed (default [] (vget value "events" ≫= as_array)))
  | None =>
      Collected (obj_insert (cursors acc) node_id (vnat previous_cursor)) (nodes acc ++ [node_item node_id true previous_cursor]) (events acc)
  end.

(** By time, then by node, then by key. *)
Definition not_after (x y : Observation.t) : bool :=
  if Observation.timestamp x <? Observation.timestamp y then true
  else if Observation.timestamp y <? Observation.timestamp x then false
  else if decide (Observation.node_id x = Observation.node_id y) then Observation.event_id x <=? Observation.event_id y
  else bool_decide (String.le (Observation.node_id x) (Observation.node_id y)).
Definition event_key (o : Observation.t) : string * Z := (Observation.node_id o, Observation.event_id o).
Definition merge_events (limit : Z) (events : list Observation.t) : list Observation.t :=
  last_n (Z.to_nat limit) (retain_first event_key [] (sort_by not_after events)).

Definition observability_query (params : Value) : handler Value :=
  s ← get;
  let node_id := id (controller s) in
  let requested := vget params "cursors" ≫= as_object in
  let local_cursor := match cursor_of requested node_id with Some n => Some n | None => u64_param params "cursor" end in
  run_id ← lift (optional_str params "runId");
  own ← on_store (ObservabilityStore.query refused out_of_range
                    (ObservationQuery.mk run_id local_cursor (default 200 (u64_param params "limit"))));
  own ← settled own;
  let cursor := from_option Observation.event_id (default 0 local_cursor) (last own) in
  if local_only params then
    mret (json_object [("events", list_value own); ("cursor", vnat cursor); ("nodeId", VString node_id); ("stale", VBool false)])
  else
    let limit := clamped "limit" 200 1 1000 params in
    answers ← on_controller (each_of (ask_observations requested run_id limit) (WorkbenchState.controllers (state (controller s))));
    let all := foldl collect_answer (Collected [(node_id, vnat cursor)] [node_item node_id false cursor] own) answers in
    mret (json_object [
      ("events", list_value (merge_events limit (events all))); ("cursor", vnat cursor); ("cursors", VObject (cursors all));
      ("nodes", VArray (nodes all))]).

Definition ALLOWED : list string :=
  ["capability"; "component"; "stage"; "targetNode"; "targetRepo"; "errorCode"; "artifactDigest"; "approvalId"; "action";
   "workspaceSessionId"; "agentId"; "blockerId"; "blockerKind"; "blockerReason"; "waitingOn"].
Definition safe_value (v : Value) : Value :=
  match v with
  | VString text => VString (Str.take_chars 500 text)
  | VBool _ | VNumber _ | VNull => v
  | _ => VNull
  end.
Definition safe_observation_attributes (attributes : Value) : Value :=
  match attributes with
  | VObject o => VObject ((fun kv => (kv.1, safe_value kv.2)) <$> bfilter (fun kv => bool_decide (kv.1 ∈ ALLOWED)) o)
  | _ => json_object []
  end.
Definition observation_append (params : Value) : handler Value :=
  observation ← lift (invalid_params (from_value params));
  let observation := Observation.set_attributes (safe_observation_attributes (Observation.attributes observation))
                       (Observation.set_event_id 0 observation) in
  event_id ← on_store (store_append observation);
  event_id ← settled event_id;
  mret (json_object [("eventId", vnat event_id)]).

(** ** What a request leaves in the store *)

Definition lifecycle_observation_kind (action : string) : option string :=
  if Str.starts_with "driver." action || Str.starts_with "lease." action then Some "lease"
  else if Str.starts_with "approval." action then Some "approval"
  else if Str.starts_with "artifact." action then Some "artifact"
  else if Str.starts_with "generation." action then Some "generation"
  else if Str.starts_with "handoff." action || Str.starts_with "session.handoff" action then Some "handoff"
  else if Str.starts_with "agent." action then Some "agent"
  else None.
Definition lifecycle_item (params : Value) (key : string) : option (string * Value) :=
  value ← vget params key; if is_string value || is_number value then Some (key, value) else None.
Definition safe_lifecycle_attributes (params : Value) : Value :=
  json_object (omap (lifecycle_item params)
    ["taskId"; "processId"; "approvalId"; "generationId"; "agentId"; "executorId"; "workspaceSessionId"; "targetControllerId"; "digest"]).
Definition request_observation (request : Request.t) (ok : bool) (node_id : string) (timestamp elapsed : Z) (kind : string)
    (task_id process_id : option string) (attributes : Value) : Observation.t := {|
  Observation.event_id := 0; Observation.run_id := Request.run_id request; Observation.timestamp := timestamp;
  Observation.node_id := node_id; Observation.role := "controller"; Observation.kind := kind; Observation.name := Request.action request;
  Observation.status := if ok then "completed" else "failed"; Observation.duration_ms := Some elapsed;
  Observation.span_id := Request.span_id request; Observation.parent_span_id := Request.parent_span_id request;
  Observation.request_id := Some (Request.request_id request); Observation.task_id := task_id; Observation.process_id := process_id;
  Observation.connection_id := None; Observation.attributes := attributes |}.
(** The end of [handle]; [elapsed] is what the timer shows. *)
Definition observe_request (request : Request.t) (response : Response.t) (elapsed : Z) : handler unit :=
  s ← get;
  let node_id := id (controller s) in
  n ← now;
  remember (request_observation request (Response.ok response) node_id n elapsed "rpc" None None
    (match Response.error response with Some e => json_object [("errorCode", VString (RpcError.code e))] | None => json_object [] end)) ;;
  match lifecycle_observation_kind (Request.action request) with
  | Some kind =>
      let attributes := safe_lifecycle_attributes (Request.params request) in
      n ← now;
      remember (request_observation request (Response.ok response) node_id n elapsed kind
        (str_param attributes "taskId") (str_param attributes "processId") attributes)
  | None => mret tt
  end.
Definition observe_task_state (task : Task.t) : handler unit :=
  s ← get;
  n ← now;
  remember {|
    Observation.event_id := 0; Observation.run_id := trace (controller s) ≫= TraceContext.run_id; Observation.timestamp := n;
    Observation.node_id := id (controller s); Observation.role := "controller"; Observation.kind := "task-state";
    Observation.name := Task.capability task; Observation.status := default "unknown" (as_str (to_value (Task.state task)));
    Observation.duration_ms := None; Observation.span_id := None; Observation.parent_span_id := None;
    Observation.request_id := Task.request_id task; Observation.task_id := Some (Task.id task);
    Observation.process_id := str_param (Task.input task) "processId"; Observation.connection_id := None;
    Observation.attributes := json_object [("capability", VString (Task.capability task)); ("targetNode", VString (Task.executor_id task))] |}.

(** ** The actions, over a store as it stands *)

Definition at_store {A} (d : ObservabilityStore.t) (m : handler A) : Controller.handler A := fun c w =>
  let '(o, s, w) := m (Node c d) w in (o, controller s, w).
Definition reports (d : ObservabilityStore.t) : Dispatch.table :=
  [("status", status); ("dashboard.snapshot", fun _ => dashboard_snapshot);
   ("run.start", fun ps => at_store d (run_start ps)); ("run.finish", fun ps => at_store d (run_finish ps));
   ("run.get", fun ps => at_store d (run_get ps)); ("run.list", fun ps => at_store d (run_list ps));
   ("observability.query", fun ps => at_store d (observability_query ps));
   ("observation.append", fun ps => at_store d (observation_append ps))].
End runs.

(** ** Reports leave the records alone *)

Section leaving.
Context {P : Platform} {R : ReportText} {W : RecordText}.
Context (refused out_of_range constraint full : string).
Context (order_by_started_at : list ObservabilityStore.run_row -> list ObservabilityStore.run_row).

Lemma quiet_ask e a ps : quiet (ask e a ps).
Proof. unfold ask. apply quiet_bind; [apply quiet_uuid|]. intros u. apply quiet_send. Qed.
Lemma quiet_each_of {A B} (f : A -> Controller.handler B) l : (forall x, quiet (f x)) -> quiet (each_of f l).
Proof.
  intros Hf. induction l as [|x l IH]; cbn [each_of]; [apply quiet_ret|].
  apply quiet_bind; [apply Hf|]. intros y. apply quiet_bind; [exact IH|]. intros ys. apply quiet_ret.
Qed.
Lemma quiet_status ps : quiet (status ps).
Proof. unfold status. apply quiet_bind; [apply quiet_get|]. intros c. apply quiet_ret. Qed.
Lemma quiet_snapshot : quiet dashboard_snapshot.
Proof.
  unfold dashboard_snapshot. apply quiet_bind; [apply quiet_get|]. intros c.
  apply quiet_bind; [apply quiet_each_of; intros e; apply quiet_bind; [apply quiet_ask|intros r; apply quiet_ret]|]. intros nodes.
  apply quiet_bind; [apply quiet_each_of; intros e; apply quiet_bind; [apply quiet_ask|intros r; apply quiet_ret]|]. intros asked.
  apply quiet_bind; [|intros tunnels; apply quiet_bind; [apply quiet_now|intros n; apply quiet_ret]].
  apply quiet_each_of. intros [e [text|r]]; [apply quiet_ret|]. unfold tunnels_of. cbn [fst snd].
  destruct (Response.ok r); [|apply quiet_ret]. apply quiet_each_of. intros v. apply quiet_set_field.
Qed.
Lemma quiet_first_success a ps peers : quiet (first_success a ps peers).
Proof.
  induction peers as [|p peers IH]; cbn [first_success]; [apply quiet_throw|].
  apply quiet_bind; [apply quiet_traced_request|]. intros q. apply quiet_bind; [apply quiet_send|]. intros [e|r]; [exact IH|].
  destruct (Response.ok r); [apply quiet_ret|exact IH].
Qed.

(** A handler of the node that only talks to others and to the store. *)
Definition still {A} (m : handler A) : Prop :=
  forall s w, exists l, controller (m s w).1.2 = set_sent (sent (controller s) ++ l) (controller s).
Lemma still_pure {A} (m : handler A) : (forall s w, controller (m s w).1.2 = controller s) -> still m.
Proof. intros Hm s w. exists []. by rewrite Hm, set_sent_id. Qed.
Lemma still_bind {A B} (m : handler A) (k : A -> handler B) : still m -> (forall a, still (k a)) -> still (m ≫= k).
Proof.
  intros Hm Hk s w. destruct (Hm s w) as [l Hl]. unfold mbind, M_bind.
  destruct (m s w) as [[[a|e|] s1] w1]; cbn [fst snd] in *; [|by exists l..].
  destruct (Hk a s1 w1) as [l' Hl']. exists (l ++ l'). rewrite Hl', Hl. unfold set_sent. simpl. by rewrite <- app_assoc.
Qed.
Lemma still_controller {A} (m : Controller.handler A) : quiet m -> still (on_controller m).
Proof.
  intros Hm s w. destruct (Hm (controller s) w) as [l Hl]. exists l. unfold on_controller.
  by destruct (m (controller s) w) as [[o c] w'].
Qed.
Lemma still_store {A} (m : M ObservabilityStore.t ObservabilityError.t A) : still (on_store m).
Proof. apply still_pure. intros s w. unfold on_store. by destruct (m (store s) w) as [[o d] w']. Qed.
Lemma still_ret {A} (a : A) : still (mret a : handler A).
Proof. by apply still_pure. Qed.
Lemma still_throw {A} e : still (throw e : handler A).
Proof. by apply still_pure. Qed.
Lemma still_lift {A} (o : outcome RpcError.t A) : still (lift o).
Proof. by apply still_pure. Qed.
Lemma still_get : still (get : handler node).
Proof. by apply still_pure. Qed.
Lemma still_now : still (now : handler Z).
Proof. by apply still_pure. Qed.
Lemma still_settled {A} (r : ObservabilityError.t + A) : still (settled r).
Proof. destruct r; [apply still_throw|apply still_ret]. Qed.
Lemma still_remember o : still (remember refused out_of_range full o).
Proof. apply still_bind; [apply still_store|]. intros r. apply still_ret. Qed.
Lemma still_uuid : still (fresh_uuid : handler string).
Proof. by apply still_pure. Qed.

Ltac still_step :=
  match goal with
  | |- still (_ ≫= _) => apply still_bind; [|intros ?]
  | |- still (if _ then _ else _) => case_match
  | |- still (match _ with _ => _ end) => case_match
  | |- still _ => first [apply still_ret | apply still_throw | apply still_lift | apply still_get | apply still_now | apply still_uuid
                        | apply still_settled | apply still_remember | apply still_store]
  | |- still (on_controller _) => apply still_controller
  end.
Ltac be_still := repeat still_step.

Lemma still_run_start ps : still (run_start refused out_of_range constraint full ps).
Proof. unfold run_start. be_still. Qed.
Lemma still_run_finish ps : still (run_finish refused out_of_range full ps).
Proof. unfold run_finish. be_still. apply quiet_bind; [apply quiet_get|]. intros c. apply quiet_first_success. Qed.
Lemma still_run_get ps : still (run_get refused ps).
Proof. unfold run_get. be_still. apply quiet_bind; [apply quiet_get|]. intros c. apply quiet_first_success. Qed.
Lemma still_run_list ps : still (run_list refused order_by_started_at ps).
Proof. unfold run_list. cbv zeta. be_still. apply quiet_each_of. intros p. apply quiet_ask. Qed.
Lemma quiet_ask_observations vs r n p : quiet (ask_observations vs r n p).
Proof.
  unfold ask_observations. apply quiet_bind; [apply quiet_ask|]. intros a. apply quiet_ret.
Qed.
Lemma still_query ps : still (observability_query refused out_of_range ps).
Proof. unfold observability_query. cbv zeta. be_still. apply quiet_each_of. intros p. apply quiet_ask_observations. Qed.
Lemma still_append ps : still (observation_append refused out_of_range full ps).
Proof. unfold observation_append. cbv zeta. be_still. Qed.

Lemma quiet_at_store {A} d (m : handler A) : still m -> quiet (at_store d m).
Proof.
  intros Hm c w. destruct (Hm (Node c d) w) as [l Hl]. exists l. unfold at_store.
  by destruct (m (Node c d) w) as [[o s] w'].
Qed.

(** What [Dispatch] asks of the reporting actions. *)
Lemma reports_quiet d : Dispatch.each (fun A m => quiet m) (reports refused out_of_range constraint full order_by_started_at d).
Proof.
  unfold reports. repeat (apply Forall_cons_2; [intros ps; cbn [snd]|]); [..|apply Forall_nil_2].
  - apply quiet_status.
  - apply quiet_snapshot.
  - apply quiet_at_store, still_run_start.
  - apply quiet_at_store, still_run_finish.
  - apply quiet_at_store, still_run_get.
  - apply quiet_at_store, still_run_list.
  - apply quiet_at_store, still_query.
  - apply quiet_at_store, still_append.
Qed.
End leaving.

(** ** Merging the observations of all nodes *)

Lemma not_after_total x y : not_after x y = false -> not_after y x = true.
Proof.
  unfold not_after. destruct (Observation.timestamp x <? Observation.timestamp y) eqn:Hxy; [done|].
  destruct (Observation.timestamp y <? Observation.timestamp x) eqn:Hyx; [done|].
  destruct (decide (Observation.node_id x = Observation.node_id y)) as [He|Hn].
  - rewrite decide_True by done. lia.
  - rewrite decide_False by done. intros Hle%bool_decide_eq_false_1. apply bool_decide_eq_true_2.
    destruct (total String.le (Observation.node_id x) (Observation.node_id y)); [done|done].
Qed.
Lemma not_after_trans x y z : not_after x y = true -> not_after y z = true -> not_after x z = true.
Proof.
  unfold not_after.
  destruct (Observation.timestamp x <? Observation.timestamp y) eqn:H1, (Observation.timestamp y <? Observation.timestamp x) eqn:H2,
    (Observation.timestamp y <? Observation.timestamp z) eqn:H3, (Observation.timestamp z <? Observation.timestamp y) eqn:H4,
    (Observation.timestamp x <? Observation.timestamp z) eqn:H5, (Observation.timestamp z <? Observation.timestamp x) eqn:H6; try done; try lia.
  destruct (decide (Observation.node_id x = Observation.node_id y)) as [Hxy|Hxy], (decide (Observation.node_id y = Observation.node_id z)) as [Hyz|Hyz],
    (decide (Observation.node_id x = Observation.node_id z)) as [Hxz|Hxz]; try congruence; try lia; rewrite ?Hxy, ?Hyz in *; try done.
  - intros Ha%bool_decide_eq_true_1 Hb%bool_decide_eq_true_1. exfalso. apply Hxy. rewrite Hxz in *. by apply (anti_symm String.le).
  - intros Ha%bool_decide_eq_true_1 Hb%bool_decide_eq_true_1. apply bool_decide_eq_true_2. by etrans.
Qed.

(** The first of each key in the order of time, and of those the last [limit]. *)
Lemma merged_events limit l :
  0 <= limit ->
  let merged := merge_events limit l in
  NoDup (event_key <$> merged) /\ StronglySorted (ordered not_after) merged /\ Z.of_nat (length merged) <= limit /\
  (forall o, o ∈ merged -> o ∈ l) /\
  forall o, o ∈ l -> exists o', o' ∈ l /\ event_key o' = event_key o /\
    (o' ∈ merged \/ (Z.of_nat (length merged) = limit /\ forall m, m ∈ merged -> not_after o' m = true)).
Proof.
  intros Hlimit merged. set (sorted := sort_by not_after l). set (first := retain_first event_key [] sorted).
  assert (Hsub : first `sublist_of` sorted) by apply retain_first_sublist.
  assert (Hs : StronglySorted (ordered not_after) first).
  { eapply sublist_StronglySorted; [exact Hsub|]. apply sort_by_sorted; [apply not_after_total|apply not_after_trans]. }
  assert (Hm : merged `sublist_of` first) by apply sublist_drop.
  assert (Hin : forall o, o ∈ first -> o ∈ l).
  { intros o Ho. apply (sublist_subseteq _ _ Hsub) in Ho. unfold sorted in Ho. by rewrite (sort_by_perm not_after l) in Ho. }
  split; [eapply sublist_NoDup; [apply (retain_first_NoDup event_key [] sorted)|by apply fmap_sublist]|].
  split; [by eapply sublist_StronglySorted|]. split; [unfold merged, merge_events; rewrite length_last_n; lia|].
  split; [intros o Ho; by apply Hin, (sublist_subseteq _ _ Hm)|].
  intros o Ho. assert (Hk : event_key o ∈ event_key <$> first).
  { apply retain_first_keys. split; [|by intros ?%not_elem_of_nil]. apply list_elem_of_fmap_2. unfold sorted. by rewrite sort_by_perm. }
  apply list_elem_of_fmap in Hk as (o' & Hk & Ho'). exists o'. split; [by apply Hin|]. split; [done|].
  rewrite (last_n_split (Z.to_nat limit) first) in Ho'. apply elem_of_app in Ho' as [Ho'|Ho']; [right|by left]. split.
  - unfold merged, merge_events. fold sorted first. rewrite length_last_n. apply list_elem_of_lookup in Ho' as [i Hi].
    apply lookup_lt_Some in Hi. rewrite length_take in Hi. lia.
  - intros m Hmm. by apply (last_n_latest (ordered not_after) (Z.to_nat limit) first).
Qed.

Section merging.
Context {P : Platform} {R : ReportText} {W : RecordText}.
Context (refused out_of_range : string).

(** What a peer gave, as far as it can be read. *)
Definition readable_events (response : string + Response.t) : list Observation.t :=
  match response with
  | inr r => if Response.ok r then omap parsed (default [] (vget (default VNull (Response.result r)) "events" ≫= as_array)) else []
  | inl _ => []
  end.
(** The cursor a peer is read from, and how its answer shows in [nodes]: where the peer stands, or that it did
    not answer and stands where it was read from. *)
Definition peer_id (peer : ControllerPeer.t) : string := Metadata.id (ControllerPeer.metadata peer).
Definition read_from (params : Value) (node_id : string) : option Z :=
  cursor_of (vget params "cursors" ≫= as_object) node_id.
Definition peer_state (params : Value) (peer : ControllerPeer.t) (response : string + Response.t) : Value :=
  let before := default 0 (read_from params (peer_id peer)) in
  let '(stale, cursor) := match response with
                          | inr r => if Response.ok r
                                     then (false, default before (u64_param (default VNull (Response.result r)) "cursor"))
                                     else (true, before)
                          | inl _ => (true, before)
                          end in
  json_object [("nodeId", VString (peer_id peer)); ("stale", VBool stale); ("cursor", vnat cursor)].

(** The question a peer is asked. *)
Definition asks_peer (params : Value) (run_id : option string) (peer : ControllerPeer.t)
    (m : ExecutorEndpoint.t * Request.t) : Prop :=
  exists u, m = (ControllerPeer.endpoint peer, Request.new u "observability.query" (json_object [
    ("runId", vopt VString run_id); ("cursor", vnat (default 0 (read_from params (peer_id peer))));
    ("limit", vnat (clamped "limit" 200 1 1000 params)); ("localOnly", VBool true)])).

Lemma collected_answers params peers responses acc :
  length responses = length peers ->
  let all := foldl collect_answer acc
    (zip_with (fun p r => (peer_id p, default 0 (read_from params (peer_id p)), r)) peers responses) in
  events all = events acc ++ concat (readable_events <$> responses) /\
  nodes all = nodes acc ++ zip_with (peer_state params) peers responses.
Proof.
  revert responses acc. induction peers as [|p peers IH]; intros [|r responses] acc [=]; [by rewrite !app_nil_r|].
  cbn [zip_with foldl]. rewrite fmap_cons. cbn [concat]. rewrite (app_assoc (events acc)), (cons_middle (peer_state _ _ _)), (app_assoc (nodes acc)).
  match goal with |- context [foldl collect_answer ?a] => destruct (IH responses a) as [-> ->]; [done|] end.
  unfold collect_answer, readable_events, peer_state, node_item.
  destruct r as [e|r]; [by rewrite app_nil_r|]. destruct (Response.ok r); [done|by rewrite app_nil_r].
Qed.

Lemma asked_observations params run peers c w :
  exists l w', each_of (ask_observations (vget params "cursors" ≫= as_object) run (clamped "limit" 200 1 1000 params)) peers c w =
      (Ok (zip_with (fun p r => (peer_id p, default 0 (read_from params (peer_id p)), r)) peers (answers_to c l)),
       set_sent (sent c ++ l) c, w') /\
    Forall2 (asks_peer params run) peers l.
Proof.
  revert c w. induction peers as [|p peers IH]; intros c w.
  { exists [], w. by rewrite set_sent_id. }
  cbn [each_of]. unfold mbind at 1, M_bind at 1.
  match goal with |- context [ask_observations ?vs ?r ?n p c w] =>
    assert (Hask : exists q w1, ask_observations vs r n p c w =
      (Ok (peer_id p, default 0 (read_from params (peer_id p)), call_executor (length (sent c)) (ControllerPeer.endpoint p) q),
       set_sent (sent c ++ [(ControllerPeer.endpoint p, q)]) c, w1) /\ asks_peer params run p (ControllerPeer.endpoint p, q))
      by (eexists _, _; split; [reflexivity|by eexists]) end.
  destruct Hask as (q & w1 & -> & Hq). set (m := (ControllerPeer.endpoint p, q)) in *.
  destruct (IH (set_sent (sent c ++ [m]) c) w1) as (l & w' & Hrun & Hl).
  unfold mbind at 1, M_bind at 1. rewrite Hrun. exists (m :: l), w'. split; [|by constructor].
  change (m :: l) with ([m] ++ l). rewrite answers_to_app. cbn. rewrite Nat.add_0_r. unfold set_sent. simpl. by rewrite <- app_assoc.
Qed.

(** C40. A query for observations answers with the merge of the node's own page and of what every peer gave.  It
    asks each peer once, for the page after the cursor given for it; the answers are what the peers returned to
    these requests.  Of these and the own page, no observation appears twice, they are in the order of time, at
    most as many as asked for; each comes from one of the nodes; and one that is missing is either another copy
    of one that is there or, when the answer is full, not after any that is there.  Every peer is shown with the
    cursor it answered with, or as stale with the one it was read from. *)
Theorem observations_are_merged params s w v s' w' :
  local_only params = false ->
  observability_query refused out_of_range params s w = (Ok v, s', w') ->
  exists run_id own l merged,
    let c := controller s in
    let peers := WorkbenchState.controllers (state c) in
    let after := match read_from params (id c) with Some n => Some n | None => u64_param params "cursor" end in
    let limit := clamped "limit" 200 1 1000 params in
    let all := own ++ concat (readable_events <$> answers_to c l) in
    optional_str params "runId" = Ok run_id /\
    (ObservabilityStore.query refused out_of_range
       (ObservationQuery.mk run_id after (default 200 (u64_param params "limit"))) (store s) w).1.1 = Ok own /\
    controller s' = set_sent (sent c ++ l) c /\ Forall2 (asks_peer params run_id) peers l /\
    vget v "events" = Some (list_value merged) /\
    NoDup (event_key <$> merged) /\ StronglySorted (ordered not_after) merged /\ Z.of_nat (length merged) <= limit /\
    (forall o, o ∈ merged -> o ∈ all) /\
    (forall o, o ∈ all -> exists o', o' ∈ all /\ event_key o' = event_key o /\
       (o' ∈ merged \/ (Z.of_nat (length merged) = limit /\ forall m, m ∈ merged -> not_after o' m = true))) /\
    exists here, vget v "nodes" = Some (VArray (here :: zip_with (peer_state params) peers (answers_to c l))).
Proof.
  intros Hlocal Hrun. unfold observability_query in Hrun. cbv zeta in Hrun. rewrite Hlocal in Hrun.
  apply bind_Ok_inv in Hrun as (s0 & s1 & w1 & [= <- <- <-] & Hrun).
  apply bind_Ok_inv in Hrun as (run_id & s1 & w1 & [Hid [-> ->]]%lift_Ok_inv & Hrun).
  apply bind_Ok_inv in Hrun as (page & s1 & w1 & Hpage & Hrun).
  assert (Hc : controller s1 = controller s).
  { unfold on_store in Hpage. destruct (ObservabilityStore.query _ _ _ _ _) as [[o d] w0]. by injection Hpage as _ <- _. }
  apply bind_Ok_inv in Hrun as (own & s2 & w2 & Hown & Hrun).
  assert (page = inr own /\ s2 = s1 /\ w2 = w1) as (-> & -> & ->).
  { destruct page; [done|]. apply ret_Ok_inv in Hown as (-> & -> & ->). done. }
  apply bind_Ok_inv in Hrun as (answers & s2 & w2 & Hask & [-> [-> ->]]%ret_Ok_inv).
  unfold on_controller in Hask. rewrite Hc in Hask.
  destruct (asked_observations params run_id (WorkbenchState.controllers (state (controller s))) (controller s) w1) as (l & w3 & Hall & Hl).
  rewrite Hall in Hask. injection Hask as <- <- <-.
  match goal with |- context [events (foldl collect_answer ?acc _)] =>
    destruct (collected_answers params (WorkbenchState.controllers (state (controller s))) (answers_to (controller s) l) acc) as [Hev Hno] end.
  { rewrite length_answers_to. symmetry. by eapply Forall2_length. }
  cbn [events nodes] in Hev, Hno. exists run_id, own, l,
    (merge_events (clamped "limit" 200 1 1000 params) (own ++ concat (readable_events <$> answers_to (controller s) l))).
  cbv zeta. split; [done|]. split.
  { unfold on_store in Hpage. fold (read_from params (id (controller s))) in Hpage.
    destruct (ObservabilityStore.query _ _ _ _ _) as [[o d] w0]. destruct o; [|done..]. by simplify_eq/=. }
  split; [done|]. split; [done|]. split; [by rewrite <- Hev|].
  destruct (merged_events (clamped "limit" 200 1 1000 params) (own ++ concat (readable_events <$> answers_to (controller s) l)))
    as (H1 & H2 & H3 & H4 & H5); [unfold clamped; lia|].
  do 5 (split; [done|]). eexists. etrans; [|exact (f_equal (fun ns => Some (VArray ns)) Hno)]. reflexivity.
Qed.
End merging.

(** ** Reports of a node *)

Definition run_to_value (r : Run.t) : Value := json_object [("runId", VString (Run.run_id r)); ("status", VString (RunStatus.name (Run.status r)))].
Definition sample_reports : ReportText := {|
  run_serde := {| to_value := run_to_value; from_value v := Err "unsupported" |};
  run_status_serde := named_serde [("running", RunStatus.Running); ("completed", RunStatus.Completed);
                                   ("cancelled", RunStatus.Cancelled); ("interrupted", RunStatus.Interrupted)];
  observation_serde := {| to_value := ObservabilityStore.observation_value;
                          from_value v := match ObservabilityStore.value_observation v with Some o => Ok o | None => Err "no observation" end |};
  health_value _ := VString "ready"; approval_state_value _ := VNull; generation_state_value _ := VNull;
  session_observability_value _ := VNull; socket_exists _ := false |}.

Definition event_of (node_id : string) (n t : Z) : Observation.t :=
  let o := ObservabilityStore.seen None t in
  Observation.set_event_id n (Observation.mk 0 None t node_id (Observation.role o) (Observation.kind o) (Observation.name o)
    (Observation.status o) None None None None None None None (Observation.attributes o)).
(** A peer with one observation, number 7 of the time 3. *)
Definition peer_answers (q : Request.t) : string + Response.t :=
  if bool_decide (Request.action q = "observability.query") then
    inr (Response.success (Request.request_id q)
           (json_object [("events", VArray [ObservabilityStore.observation_value (event_of "far" 7 3)]); ("cursor", vnat 7)]))
  else inr (Response.failure (Request.request_id q) (RpcError.new "RUN_NOT_FOUND" "run not found")).
Definition far : ControllerPeer.t := ControllerPeer.mk "v1" (Metadata.mk "far" ∅ 0 0) (ExecutorEndpoint.Local "/far") HealthStatus.Ready.
Definition a_node : node :=
  Node (sample_controller (WorkbenchState.with_controllers [far] WorkbenchState.default)) ObservabilityStore.two.

Abbreviation query_here := (observability_query (P := platform_answering peer_answers) (R := sample_reports) (W := ObservabilityStore.bit_text) "refused" "range").
Definition numbers (v : Value) (key : string) : list (string * Z) :=
  omap (fun o => (fun o => event_key o) <$> ObservabilityStore.value_observation o) (default [] (vget v key ≫= as_array)).
Definition query_params : Value := json_object [("limit", vnat 2)].

(** Of three observations the older own one is left out of an answer of two, but the cursors stand after all
    three: a reader that goes on from them is never given it. *)
Example a_full_answer_loses_an_observation :
  match (query_here query_params a_node ObservabilityStore.willing).1.1 with
  | Ok v =>
      numbers v "events" = [("far", 7); ("node", 2)] /\
      vget v "cursors" = Some (json_object [("ctl", vnat 2); ("far", vnat 7)]) /\
      match (query_here (json_object [("limit", vnat 2); ("cursors", vindex v "cursors")]) a_node ObservabilityStore.willing).1.1 with
      | Ok v' => numbers v' "events" = [("far", 7)]
      | _ => False
      end
  | _ => False
  end.
Proof. vm_compute. repeat split; reflexivity. Qed.

Lemma observations_are_merged_witness :
  let params := json_object [("limit", vnat 50)] in
  let '(o, s', _) := query_here params a_node ObservabilityStore.willing in
  match o with
  | Ok v =>
      numbers v "events" = [("node", 1); ("far", 7); ("node", 2)] /\
      exists own l merged,
        let answers := @answers_to (platform_answering peer_answers) (controller a_node) l in
        let all := own ++ concat (@readable_events sample_reports <$> answers) in
        Forall2 (asks_peer params None) [far] l /\
        vget v "events" = Some (@list_value _ (@observation_serde sample_reports) merged) /\
        controller s' = set_sent (sent (controller a_node) ++ l) (controller a_node) /\
        NoDup (event_key <$> merged) /\ (forall o, o ∈ merged -> o ∈ all)
  | _ => False
  end.
Proof.
  intros params. destruct (query_here params a_node ObservabilityStore.willing) as [[o s'] w'] eqn:Hrun.
  destruct o as [v|e|]; [|revert Hrun; vm_compute; done..]. split.
  - revert Hrun. vm_compute. intros [= <- _ _]. reflexivity.
  - assert (Hl : local_only params = false) by (vm_compute; reflexivity).
    destruct (@observations_are_merged (platform_answering peer_answers) sample_reports ObservabilityStore.bit_text "refused" "range"
                params a_node ObservabilityStore.willing v s' w' Hl Hrun)
      as (run & own & l & merged & [= <-] & _ & Hs & Hf & Hv & Hnd & _ & _ & Hin & _).
    exists own, l, merged. by repeat split.
Defined.

(** A run of a peer is finished by a request that repeats the status it was given; without one it repeats
    [null], which no node takes for a status. *)
Abbreviation finish_here := (run_finish (P := platform_answering peer_answers) (R := sample_reports) (W := ObservabilityStore.bit_text) "refused" "range" "full").
Example a_run_of_a_peer_needs_a_status :
  let '(o, s, _) := finish_here (json_object [("runId", VString "elsewhere")]) a_node ObservabilityStore.willing in
  match o, sent (controller s) with
  | Err e, [(_, q)] =>
      RpcError.code e = "RUN_NOT_FOUND" /\ vget (Request.params q) "status" = Some VNull /\
      exists e', (finish_here (Request.params q) a_node ObservabilityStore.willing).1.1 = Err e' /\ RpcError.code e' = "INVALID_PARAMS"
  | _, _ => False
  end.
Proof. vm_compute. split; [reflexivity|]. split; [reflexivity|]. eexists. split; reflexivity. Qed.

(** Without a status a run of this node completes. *)
Example a_run_of_this_node_completes :
  match finish_here (json_object [("runId", VString "r1")]) a_node ObservabilityStore.willing with
  | (Ok v, s, _) => (vget v "status" ≫= as_str) = Some "completed" /\ length (ObservabilityStore.observations (store s)) = 3%nat
  | _ => False
  end.
Proof. vm_compute. split; reflexivity. Qed.
End Reports.
