(* ===== verification/Catalog.v ===== *)
(** * The capability catalog ([crates/workbench-runtime/src/executor.rs])

    [capability_catalog] lists what an executor offers on its platform, each
    capability with the whole contract the controller reads: the schemas of its
    input and its result, its locks, the authority it needs and how it is
    scheduled.  A [match] on a name is a list of alternatives tried in order; an
    arm under [#[cfg(..)]] is tried on that platform only. *)

From Stdlib Require Import Ascii String.
From S2P Require Import Prelude RustStd Json Schema Protocol Contracts Templates.

Module Catalog.

(** [target_os], as far as the source tells platforms apart. *)
Inductive target_os := Linux | MacOs | Windows.
#[global] Instance target_os_eq_dec : EqDecision target_os.
Proof. solve_decision. Defined.

(** ** Matching on a name *)

Record alternative (A : Type) := Arm { only : option target_os; names : list string; body : A }.
Arguments Arm {A} _ _ _.
Arguments only {A} _.
Arguments names {A} _.
Arguments body {A} _.

Abbreviation arm ns b := (Arm None ns b) (only parsing).
Abbreviation on os ns b := (Arm (Some os) ns b) (only parsing).

Definition taken {A} (os : target_os) (name : string) (a : alternative A) : bool :=
  from_option (fun o => bool_decide (o = os)) true (only a) && bool_decide (name ∈ names a).

Definition first_arm {A} (os : target_os) (name : string) (d : A) (arms : list (alternative A)) : A :=
  from_option body d (bfind (taken os name) arms).

(** ** How an action is scheduled *)

Inductive ExecutionClass := Control | Probe | ReadOnly | Mutating.
#[global] Instance ExecutionClass_eq_dec : EqDecision ExecutionClass.
Proof. solve_decision. Defined.

Definition control_actions : list string :=
  ["ping"; "status"; "capability.list"; "process.get"; "process.list"; "process.events";
   "tunnel.get"; "tunnel.list"].
Definition read_only_actions : list string :=
  ["filesystem.resolve"; "filesystem.stat"; "filesystem.read"; "filesystem.list";
   "filesystem.search"; "artifact.describe"; "artifact.relay.archive.read";
   "artifact.relay.manifest"; "artifact.relay.read"; "readiness.wait"; "logs.read";
   "port.check"; "application.inspect"; "ui.inspect"; "ui.evaluate"; "ui.native-inspect";
   "clipboard.read"; "clipboard.status"; "computer-use.tools"].

Definition execution_class (action : string) (params : Value) : ExecutionClass :=
  if bool_decide (action ∈ control_actions) then Control
  else if bool_decide (action ∈ read_only_actions) then ReadOnly
  else if bool_decide (action = "command.run") &&
          bool_decide ((vget params "mode" ≫= as_str) = Some "readonly") then Probe
  else Mutating.

(** ** Authority *)

Definition unprotected : list string :=
  ["filesystem.resolve"; "filesystem.stat"; "filesystem.read"; "filesystem.list";
   "filesystem.search"; "artifact.describe"; "artifact.relay.archive.create";
   "artifact.relay.archive.read"; "artifact.relay.archive.remove"; "artifact.relay.manifest";
   "artifact.relay.read"; "tunnel.get"; "tunnel.list"; "process.get"; "process.list";
   "process.events"; "readiness.wait"; "logs.read"; "port.check"; "application.inspect";
   "ui.inspect"; "ui.evaluate"; "ui.capture"; "ui.native-inspect"; "clipboard.status";
   "clipboard.read"].

Definition authorities : list (alternative CapabilityAuthority.t) := [
  arm unprotected CapabilityAuthority.None;
  arm ["computer-use.tools"] CapabilityAuthority.None;
  arm ["computer-use.call"] CapabilityAuthority.DesktopSession;
  arm ["clipboard.write"] (CapabilityAuthority.ResourceLease "clipboard:${executorId}");
  arm ["application.activate"; "application.launch"; "application.open-file"; "application.stop";
       "application.runtime.record"]
    (CapabilityAuthority.ResourceLease "runtime:${executorId}");
  arm ["ui.automate"; "ui.input"]
    (CapabilityAuthority.ResourceLease "acceptance:${executorId}:${remoteDebuggingPort}");
  arm ["tunnel.ensure"; "tunnel.stop"]
    (CapabilityAuthority.ResourceLease "tunnel:${executorId}:${tunnelId}");
  arm ["artifact.relay.archive.prepare"; "artifact.relay.archive.write";
       "artifact.relay.archive.commit"; "artifact.relay.prepare"; "artifact.relay.write";
       "artifact.relay.commit"]
    (CapabilityAuthority.ResourceLease "artifact-relay:${destination}");
  arm ["artifact.relay.local-copy"]
    (CapabilityAuthority.ResourceLease "artifact-relay:${destination}")].

(** No arm of this match is under a [cfg]. *)
Definition capability_authority (name : string) : CapabilityAuthority.t :=
  first_arm Linux name CapabilityAuthority.WorkspaceDriver authorities.

(** ** Scheduling *)

Definition capability_execution_kind (name : string) (timeout_ms : Z) : ExecutionKind.t :=
  if (timeout_ms >? 30000) ||
     bool_decide (name ∈ ["artifact.build"; "artifact.relay"; "generation.materialize";
                          "application.launch"; "process.start"; "command.run"])
  then ExecutionKind.Background else ExecutionKind.Inline.

Definition capability_priority (name : string) : Z :=
  match execution_class name VNull with
  | Control => 0
  | Probe | ReadOnly => 2
  | Mutating =>
      if bool_decide (name ∈ ["tunnel.ensure"; "process.start"; "process.stop"]) then 3 else 4
  end.

Definition capability_concurrency (name : string) : option Z :=
  if bool_decide (name = "command.run") then Some 4
  else match execution_class name VNull with
       | Control => None
       | Probe => Some 4
       | ReadOnly => Some 8
       | Mutating => Some 1
       end.

Definition capability_cancel_policy (name : string) : CancelPolicy.t := CancelPolicy.Continue.

(** ** Contracts

    The tuple [contract] starts from, and its arms by family. *)

Record terms := Terms {
  required : list string;
  properties : Value;
  locks : list string;
  key_fields : list string;
  timeout_ms : Z;
  rollback : RollbackStrategy.t;
  evidence : list string;
}.

Definition strings (l : list string) : Value := VArray (VString <$> l).
Definition typed (type : string) : Value := json_object [("type", VString type)].

Definition desktop_terms : list (alternative (string -> terms)) := [
  arm ["computer-use.tools"; "computer-use.call"] (fun name => Terms
    ["computer-use"]
    (if bool_decide (name = "computer-use.tools")
     then json_object []
     else json_object [("_desktop", json_object [("type", VString "object");
           ("properties", json_object [("owner", typed "string"); ("token", typed "string")]);
           ("required", strings ["owner"; "token"])]); ("tool", typed "string");
           ("arguments", typed "object")])
    [] []
    120000 RollbackStrategy.None ["computer-use-result"]);
  arm ["clipboard.status"] (fun _ => Terms
    ["clipboard"]
    (json_object [])
    [] []
    5000 RollbackStrategy.None ["clipboard-status"]);
  arm ["clipboard.read"] (fun _ => Terms
    ["clipboard"]
    (json_object [("maxBytes", json_object [("type", VString "integer"); ("minimum", vnat 1);
     ("maximum", vnat 16777216)])])
    [] ["maxBytes"]
    5000 RollbackStrategy.None ["clipboard-digest"]);
  arm ["clipboard.write"] (fun _ => Terms
    ["clipboard"]
    (json_object [("semanticDigest", typed "string"); ("content", typed "object");
     ("expiresAtMs", json_object [("type", VString "integer"); ("minimum", vnat 1)]);
     ("maxBytes", json_object [("type", VString "integer"); ("minimum", vnat 1);
     ("maximum", vnat 16777216)])])
    [] ["semanticDigest"]
    5000 RollbackStrategy.None ["clipboard-digest"])].

Definition filesystem_terms : list (alternative (string -> terms)) := [
  arm ["filesystem.resolve"; "filesystem.stat"; "filesystem.list"] (fun _ => Terms
    ["filesystem"]
    (json_object [("path", typed "string")])
    [] ["path"]
    30000 RollbackStrategy.None ["filesystem-result"]);
  arm ["filesystem.read"] (fun _ => Terms
    ["filesystem"]
    (json_object [("path", typed "string"); ("offset", json_object [("type", VString "integer");
     ("minimum", vnat 0)]); ("limit", json_object [("type", VString "integer");
     ("minimum", vnat 0); ("maximum", vnat 1048576)])])
    [] ["path"; "offset"; "limit"]
    30000 RollbackStrategy.None ["filesystem-result"]);
  arm ["filesystem.search"] (fun _ => Terms
    ["filesystem"]
    (json_object [("path", typed "string"); ("query", typed "string");
     ("maxResults", json_object [("type", VString "integer"); ("minimum", vnat 1)])])
    [] ["path"; "query"; "maxResults"]
    60000 RollbackStrategy.None ["search-results"]);
  arm ["filesystem.write"] (fun _ => Terms
    ["filesystem"]
    (json_object [("path", typed "string"); ("content", typed "string");
     ("encoding", json_object [("type", VString "string"); ("enum", strings ["utf-8";
     "base64"])]); ("expectedDigest", typed "string")])
    ["filesystem:${path}"] ["path"; "content"; "encoding"; "expectedDigest"]
    30000 RollbackStrategy.None ["file-digest"]);
  arm ["filesystem.patch"] (fun _ => Terms
    ["filesystem"]
    (json_object [("path", typed "string"); ("before", typed "string"); ("after", typed "string");
     ("expectedDigest", typed "string")])
    ["filesystem:${path}"] ["path"; "before"; "after"; "expectedDigest"]
    30000 RollbackStrategy.None ["file-digest"]);
  arm ["filesystem.remove"] (fun _ => Terms
    ["filesystem"]
    (json_object [("path", typed "string"); ("expectedDigest", typed "string")])
    ["filesystem:${path}"] ["path"; "expectedDigest"]
    30000 (RollbackStrategy.Compensate "filesystem.restore") ["restore-token"]);
  arm ["filesystem.restore"] (fun _ => Terms
    ["filesystem"]
    (json_object [("path", typed "string"); ("restoreToken", typed "string")])
    ["filesystem:${path}"] ["path"; "restoreToken"]
    30000 RollbackStrategy.None ["restore-result"]);
  arm ["filesystem.mkdir"] (fun _ => Terms
    ["filesystem"]
    (json_object [("path", typed "string")])
    ["filesystem:${path}"] ["path"]
    30000 RollbackStrategy.None ["directory-result"])].

Definition artifact_terms : list (alternative (string -> terms)) := [
  arm ["command.run"] (fun _ => Terms
    ["process"]
    (json_object [("cwd", typed "string"); ("argv", json_object [("type", VString "array");
     ("items", typed "string")]); ("env", json_object [("type", VString "object");
     ("additionalProperties", typed "string")]); ("mode", json_object [("type", VString "string");
     ("enum", strings ["readonly"; "mutating"])]);
     ("resources", json_object [("type", VString "array"); ("items", typed "string")]);
     ("timeoutMs", json_object [("type", VString "integer"); ("minimum", vnat 1);
     ("maximum", vnat 3600000)]); ("approvalDigest", typed "string")])
    [] ["cwd"; "argv"; "env"; "mode"; "resources"]
    3600000 RollbackStrategy.None ["command-result"]);
  arm ["artifact.build"] (fun _ => Terms
    ["process"; "filesystem"]
    (json_object [("cwd", typed "string"); ("argv", json_object [("type", VString "array");
     ("items", typed "string")]); ("env", json_object [("type", VString "object");
     ("additionalProperties", typed "string")]); ("artifactPath", typed "string");
     ("artifactType", typed "string"); ("approvalDigest", typed "string")])
    ["build:${artifactPath}"] ["cwd"; "argv"; "env"; "artifactPath"; "artifactType"]
    3600000 RollbackStrategy.None ["build-log"; "artifact-digest"; "provenance"]);
  arm ["artifact.describe"] (fun _ => Terms
    ["filesystem"]
    (json_object [("path", typed "string")])
    [] ["path"]
    3600000 RollbackStrategy.None ["artifact-digest"; "provenance"]);
  arm ["artifact.relay.archive.create"; "artifact.relay.archive.read";
    "artifact.relay.archive.remove"; "artifact.relay.manifest"; "artifact.relay.read"]
    (fun _ => Terms
    ["filesystem"]
    (json_object [("path", typed "string"); ("token", typed "string");
     ("relativePath", typed "string"); ("offset", typed "integer"); ("limit", typed "integer")])
    [] ["path"; "relativePath"; "offset"; "limit"]
    600000 RollbackStrategy.None ["artifact-relay-source"]);
  arm ["artifact.relay.local-copy"] (fun _ => Terms
    ["filesystem-copy"]
    (json_object [("source", typed "string"); ("destination", typed "string");
     ("staging", typed "string")])
    ["artifact-relay:${destination}"] ["source"; "destination"; "staging"]
    3600000 RollbackStrategy.None ["artifact-relay-local-copy"]);
  arm ["artifact.relay.archive.prepare"; "artifact.relay.archive.write";
    "artifact.relay.archive.commit"; "artifact.relay.prepare"; "artifact.relay.write";
    "artifact.relay.commit"]
    (fun _ => Terms
    ["filesystem"]
    (json_object [("destination", typed "string"); ("staging", typed "string");
     ("entries", typed "array"); ("relativePath", typed "string"); ("offset", typed "integer");
     ("data", typed "string"); ("expectedDigest", typed "string");
     ("archiveSize", typed "integer"); ("size", typed "integer"); ("files", typed "integer")])
    ["artifact-relay:${destination}"] ["destination"; "staging"]
    3600000 RollbackStrategy.None ["artifact-relay-destination"])].

Definition generation_terms : list (alternative (string -> terms)) := [
  arm ["application.materialize"] (fun _ => Terms
    ["filesystem-copy"]
    (json_object [("generationRoot", typed "string"); ("generationId", typed "string");
     ("baselinePath", typed "string"); ("derivedFrom", json_object [("type", strings ["string";
     "null"])])])
    ["generation:${generationRoot}/${generationId}"]
    ["generationRoot"; "generationId"; "baselinePath"]
    3600000 RollbackStrategy.RetainPreviousGeneration ["generation-marker"; "baseline-identity"]);
  arm ["application.apply-artifacts"] (fun _ => Terms
    ["filesystem-copy"]
    (json_object [("applicationPath", typed "string"); ("overlays", typed "array")])
    ["application:${applicationPath}"] ["applicationPath"; "overlays"]
    3600000 RollbackStrategy.RetainPreviousGeneration ["applied-artifacts"; "generation-marker"]);
  arm ["artifact.pack-chromium-datapack"] (fun _ => Terms
    ["chromium-datapack"]
    (json_object [("rootPath", typed "string"); ("resourceTrees", typed "array");
     ("outputRelative", typed "string"); ("platform", typed "string"); ("arch", typed "string");
     ("bundleName", typed "string"); ("manifestMetadata", typed "object");
     ("basePackPath", typed "string"); ("basePackDigest", typed "string");
     ("changedPrefixes", json_object [("type", VString "array"); ("items", typed "string")])])
    ["datapack:${rootPath}/${outputRelative}"] ["rootPath"; "resourceTrees"; "outputRelative"]
    3600000 RollbackStrategy.RetainPreviousGeneration ["packed-resource-digest"; "packed-resource-manifest"]);
  arm ["application.finalize"] (fun _ => Terms
    ["macos-codesign"]
    (json_object [("applicationPath", typed "string"); ("identity", typed "string");
     ("signingKeychain", typed "string"); ("signingKeychainPasswordFile", typed "string");
     ("units", typed "array")])
    ["application:${applicationPath}"] ["applicationPath"; "units"; "identity"]
    600000 RollbackStrategy.RetainPreviousGeneration ["signature-verification"]);
  arm ["application.activate"] (fun _ => Terms
    ["atomic-symlink"]
    (json_object [("generationRoot", typed "string"); ("generationId", typed "string");
     ("fence", typed "integer")])
    ["activation:${generationRoot}/current"] ["generationRoot"; "generationId"]
    30000 RollbackStrategy.RetainPreviousGeneration ["activation-record"]);
  arm ["application.generation.record"; "application.runtime.record"] (fun _ => Terms
    ["filesystem"]
    (json_object [("generationRoot", typed "string"); ("generationId", typed "string");
     ("state", typed "string"); ("evidence", typed "object")])
    ["generation:${generationRoot}/${generationId}"]
    ["generationRoot"; "generationId"; "state"; "evidence"]
    30000 RollbackStrategy.RetainPreviousGeneration ["generation-record"])].

Definition application_terms : list (alternative (string -> terms)) := [
  arm ["application.inspect"] (fun _ => Terms
    ["macos-application"]
    (json_object [("applicationPath", typed "string")])
    [] ["applicationPath"]
    30000 RollbackStrategy.None ["application-identity"]);
  arm ["application.launch"] (fun _ => Terms
    ["macos-application"]
    (json_object [("applicationPath", typed "string"); ("bundleIdentifier", typed "string");
     ("args", json_object [("type", VString "array"); ("items", typed "string")]);
     ("userDataDir", typed "string"); ("runtimeShadowDir", typed "string");
     ("runtimeShadowMutablePaths", json_object [("type", VString "array");
     ("items", typed "string")]); ("chromiumLocalStateReapply", typed "boolean");
     ("chromiumLocalStatePath", typed "string"); ("chromiumLocalStatePatch", typed "object");
     ("chromiumLocalStateSettleMs", json_object [("type", VString "integer"); ("minimum", vnat 0);
     ("maximum", vnat 30000)]); ("file", typed "string");
     ("remoteDebuggingPort", typed "integer"); ("terminateConflictingInstances", typed "boolean")])
    ["application-instance:${bundleIdentifier}"]
    ["applicationPath"; "bundleIdentifier"; "args"; "terminateConflictingInstances"]
    120000 (RollbackStrategy.Compensate "process.stop") ["process"; "readiness"]);
  arm ["application.open-file"] (fun _ => Terms
    ["launch-services"]
    (json_object [("applicationPath", typed "string"); ("file", typed "string");
     ("handlerPath", typed "string")])
    ["application-instance:${applicationPath}"] ["applicationPath"; "file"]
    30000 RollbackStrategy.None ["open-result"]);
  arm ["application.stop"] (fun _ => Terms
    ["macos-application"]
    (json_object [("applicationPath", typed "string")])
    ["application-instance:${applicationPath}"] ["applicationPath"]
    30000 RollbackStrategy.None ["stop-result"])].

Definition ui_terms : list (alternative (string -> terms)) := [
  arm ["ui.inspect"] (fun _ => Terms
    ["cdp"]
    (json_object [("remoteDebuggingPort", typed "integer")])
    [] []
    30000 RollbackStrategy.None ["ui-snapshot"]);
  arm ["ui.evaluate"] (fun _ => Terms
    ["cdp"]
    (json_object [("remoteDebuggingPort", typed "integer"); ("targetUrlPrefix", typed "string");
     ("expression", typed "string")])
    [] ["remoteDebuggingPort"; "targetUrlPrefix"; "expression"]
    30000 RollbackStrategy.None ["evaluation-result"]);
  arm ["ui.automate"] (fun _ => Terms
    ["cdp"]
    (json_object [("remoteDebuggingPort", typed "integer"); ("targetUrlPrefix", typed "string");
     ("method", typed "string"); ("params", typed "object")])
    ["ui-target:${remoteDebuggingPort}"]
    ["remoteDebuggingPort"; "targetUrlPrefix"; "method"; "params"]
    30000 RollbackStrategy.None ["automation-result"]);
  on MacOs ["ui.capture"] (fun _ => Terms
    ["cdp"]
    (json_object [("remoteDebuggingPort", typed "integer"); ("targetUrlPrefix", typed "string");
     ("output", typed "string")])
    [] ["remoteDebuggingPort"; "targetUrlPrefix"; "output"]
    30000 RollbackStrategy.None ["screenshot"]);
  on Windows ["ui.capture"] (fun _ => Terms
    ["windows-desktop"; "printwindow"]
    (json_object [("applicationPath", typed "string"); ("expectedWindowTitle", typed "string");
     ("output", typed "string")])
    [] ["applicationPath"; "expectedWindowTitle"; "output"]
    30000 RollbackStrategy.None ["screenshot"; "capture-backend"; "window-bounds"]);
  on Windows ["ui.input"] (fun _ => Terms
    ["windows-desktop"; "send-input"]
    (json_object [("applicationPath", typed "string"); ("expectedWindowTitle", typed "string");
     ("remoteDebuggingPort", typed "integer"); ("actions", json_object [("type", VString "array");
     ("minItems", vnat 1); ("maxItems", vnat 100);
     ("items", json_object [("type", VString "object");
     ("properties", json_object [("type", json_object [("enum", strings ["focus"; "click"; "key";
     "text"; "paste"; "wait"])]); ("x", typed "integer"); ("y", typed "integer");
     ("button", json_object [("enum", strings ["left"; "right"; "middle"])]);
     ("count", json_object [("type", VString "integer"); ("minimum", vnat 1);
     ("maximum", vnat 3)]); ("key", typed "string");
     ("modifiers", json_object [("type", VString "array");
     ("items", json_object [("enum", strings ["ALT"; "CTRL"; "SHIFT"; "WIN"])])]);
     ("text", json_object [("type", VString "string"); ("maxLength", vnat 16384)]);
     ("durationMs", json_object [("type", VString "integer"); ("minimum", vnat 0);
     ("maximum", vnat 5000)])]); ("required", strings ["type"]);
     ("additionalProperties", VBool false)])])])
    ["ui-target:${remoteDebuggingPort}"]
    ["applicationPath"; "expectedWindowTitle"; "remoteDebuggingPort"; "actions"]
    30000 RollbackStrategy.None ["input-actions"; "target-window"; "window-bounds"]);
  arm ["ui.native-inspect"] (fun _ => Terms
    ["macos-accessibility"]
    (json_object [("applicationPath", typed "string"); ("requestPermission", typed "boolean")])
    [] ["applicationPath"]
    30000 RollbackStrategy.None ["native-window-tree"; "accessibility-trust"])].

Definition process_terms : list (alternative (string -> terms)) := [
  arm ["process.start"] (fun _ => Terms
    ["process"]
    (json_object [("processId", typed "string"); ("cwd", typed "string");
     ("argv", json_object [("type", VString "array"); ("items", typed "string")]);
     ("env", json_object [("type", VString "object"); ("additionalProperties", typed "string")]);
     ("logPath", typed "string"); ("readiness", typed "object")])
    ["process:${processId}"] ["processId"; "argv"; "cwd"]
    30000 (RollbackStrategy.Compensate "process.stop") ["process-record"; "readiness"]);
  arm ["process.get"; "process.stop"; "process.restart"; "process.events"; "readiness.wait";
    "logs.read"]
    (fun name => Terms
    ["process"]
    (json_object [("processId", typed "string"); ("tail", typed "integer");
     ("timeoutMs", typed "integer")])
    (if bool_decide (name ∈ ["process.stop"; "process.restart"]) then ["process:${processId}"] else [])
    ["processId"]
    (if bool_decide (name = "readiness.wait") then 900000 else 30000) RollbackStrategy.None ["process-record"]);
  arm ["process.list"] (fun _ => Terms
    ["process"]
    (json_object [])
    [] []
    30000 RollbackStrategy.None ["process-list"]);
  arm ["port.check"] (fun _ => Terms
    ["network"]
    (json_object [("port", json_object [("type", VString "integer"); ("minimum", vnat 1);
     ("maximum", vnat 65535)])])
    [] ["port"]
    30000 RollbackStrategy.None ["port-status"]);
  arm ["tunnel.ensure"] (fun _ => Terms
    ["process"; "network"]
    (json_object [("tunnelId", typed "string"); ("workspaceSessionId", typed "string");
     ("sshHost", typed "string"); ("direction", json_object [("type", VString "string");
     ("enum", strings ["local-forward"; "remote-forward"])]); ("bindHost", typed "string");
     ("bindPort", json_object [("type", VString "integer"); ("minimum", vnat 1);
     ("maximum", vnat 65535)]); ("targetHost", typed "string");
     ("targetPort", json_object [("type", VString "integer"); ("minimum", vnat 1);
     ("maximum", vnat 65535)]); ("cwd", typed "string"); ("logPath", typed "string");
     ("knownHostsFile", typed "string")])
    ["tunnel:${tunnelId}"; "bind:${bindHost}:${bindPort}"]
    ["tunnelId"; "sshHost"; "direction"; "bindHost"; "bindPort"; "targetHost"; "targetPort"]
    30000 (RollbackStrategy.Compensate "tunnel.stop") ["tunnel-record"; "readiness"]);
  arm ["tunnel.get"; "tunnel.stop"] (fun name => Terms
    ["process"; "network"]
    (json_object [("tunnelId", typed "string")])
    (if bool_decide (name = "tunnel.stop") then ["tunnel:${tunnelId}"] else []) ["tunnelId"]
    30000 RollbackStrategy.None ["tunnel-record"]);
  arm ["tunnel.list"] (fun _ => Terms
    ["process"; "network"]
    (json_object [])
    [] []
    30000 RollbackStrategy.None ["tunnel-list"]);
  arm ["agent.start"] (fun _ => Terms
    ["process"; "agent-runtime"]
    (json_object [("agentId", typed "string"); ("role", typed "string"); ("cwd", typed "string");
     ("argv", json_object [("type", VString "array"); ("items", typed "string")]);
     ("env", json_object [("type", VString "object"); ("additionalProperties", typed "string")]);
     ("logPath", typed "string"); ("readiness", typed "object")])
    ["agent:${agentId}"] ["agentId"; "role"; "cwd"; "argv"]
    60000 (RollbackStrategy.Compensate "agent.stop") ["agent-process"; "readiness"]);
  arm ["agent.stop"] (fun _ => Terms
    ["process"; "agent-runtime"]
    (json_object [("agentId", typed "string")])
    ["agent:${agentId}"] ["agentId"]
    30000 RollbackStrategy.None ["agent-process"])].

Definition no_terms : terms :=
  Terms [] (json_object []) [] [] 30000 RollbackStrategy.None [].

Definition contract_terms (os : target_os) (name : string) : terms :=
  first_arm os name (fun _ => no_terms)
    (desktop_terms ++ filesystem_terms ++ artifact_terms ++ generation_terms ++
     application_terms ++ ui_terms ++ process_terms) name.

(** ** Result schemas *)

Definition result_properties : list (alternative Value) := [
  arm ["filesystem.resolve"]
    (json_object [("path", typed "string"); ("exists", typed "boolean")]);
  arm ["filesystem.stat"]
    (json_object [("path", typed "string"); ("exists", typed "boolean"); ("kind", typed "string");
     ("size", typed "integer"); ("digest", json_object [("type", strings ["string"; "null"])])]);
  arm ["filesystem.read"]
    (json_object [("path", typed "string"); ("content", typed "string");
     ("digest", typed "string"); ("size", typed "integer"); ("offset", typed "integer");
     ("bytes", typed "integer"); ("eof", typed "boolean")]);
  arm ["filesystem.list"] (json_object [("path", typed "string"); ("entries", typed "array")]);
  arm ["filesystem.search"]
    (json_object [("path", typed "string"); ("query", typed "string"); ("matches", typed "array");
     ("truncated", typed "boolean")]);
  arm ["filesystem.write"; "filesystem.patch"]
    (json_object [("path", typed "string"); ("digest", typed "string")]);
  arm ["filesystem.remove"]
    (json_object [("path", typed "string"); ("removed", typed "boolean");
     ("restoreToken", typed "string")]);
  arm ["filesystem.restore"]
    (json_object [("path", typed "string"); ("restored", typed "boolean")]);
  arm ["filesystem.mkdir"] (json_object [("path", typed "string"); ("created", typed "boolean")]);
  arm ["artifact.describe"]
    (json_object [("digest", typed "string"); ("size", typed "integer");
     ("files", typed "integer"); ("kind", typed "string"); ("path", typed "string");
     ("executorId", typed "string")]);
  arm ["command.run"]
    (json_object [("cwd", typed "string"); ("argv", typed "array");
     ("exitCode", json_object [("type", strings ["integer"; "null"])]);
     ("stdout", typed "string"); ("stderr", typed "string")]);
  arm ["artifact.build"]
    (json_object [("command", typed "object"); ("artifact", typed "object")]);
  arm ["process.start"; "process.get"; "process.stop"; "process.restart"; "agent.start"; "agent.stop"]
    (json_object [("id", typed "string"); ("state", typed "string");
     ("pid", json_object [("type", strings ["integer"; "null"])])]);
  arm ["tunnel.ensure"; "tunnel.get"; "tunnel.stop"]
    (json_object [("id", typed "string"); ("state", typed "string");
     ("observedState", typed "string"); ("source", typed "object");
     ("destination", typed "object")]);
  arm ["tunnel.list"] (json_object [("tunnels", typed "array")])].

Definition application_result_properties : list (alternative Value) := [
  arm ["application.materialize"]
    (json_object [("generationId", typed "string"); ("root", typed "string");
     ("applicationPath", typed "string"); ("markerPath", typed "string");
     ("createdAt", typed "integer"); ("derivedFrom", json_object [("type", strings ["string";
     "null"])]); ("cloneHits", typed "integer"); ("linkHits", typed "integer");
     ("copiedFiles", typed "integer"); ("copiedBytes", typed "integer")]);
  arm ["application.activate"]
    (json_object [("current", typed "string");
     ("previous", json_object [("type", strings ["string"; "null"])]);
     ("generationId", typed "string"); ("activatedAt", typed "integer")]);
  arm ["application.generation.record"; "application.runtime.record"]
    (json_object [("generationId", typed "string"); ("state", typed "string")]);
  arm ["application.inspect"]
    (json_object [("path", typed "string");
     ("bundleIdentifier", json_object [("type", strings ["string"; "null"])]);
     ("version", json_object []); ("build", json_object []); ("documentTypes", json_object [])]);
  arm ["application.finalize"]
    (json_object [("applicationPath", typed "string"); ("signed", typed "array");
     ("verified", typed "boolean")]);
  arm ["application.launch"]
    (json_object [("applicationPath", typed "string"); ("pid", typed "integer");
     ("runtimeApplicationPath", json_object [("type", strings ["string"; "null"])]);
     ("launcherPid", json_object [("type", strings ["integer"; "null"])]);
     ("file", json_object [("type", strings ["string"; "null"])]); ("args", typed "array");
     ("cdp", json_object [("type", strings ["object"; "null"])])]);
  arm ["application.apply-artifacts"] (json_object [("applied", typed "array")]);
  arm ["artifact.pack-chromium-datapack"]
    (json_object [("output", typed "string"); ("resources", typed "integer");
     ("entries", typed "integer"); ("size", typed "integer"); ("sha256", typed "string");
     ("contentHash", typed "string")]);
  arm ["application.open-file"]
    (json_object [("applicationPath", typed "string"); ("handlerPath", typed "string");
     ("file", typed "string"); ("openedAt", typed "integer")]);
  arm ["application.stop"]
    (json_object [("applicationPath", typed "string"); ("stopped", typed "array")]);
  arm ["ui.inspect"] (json_object [("targets", typed "array")]);
  arm ["ui.automate"] (json_object [("target", typed "object"); ("result", json_object [])]);
  on MacOs ["ui.capture"]
    (json_object [("path", typed "string"); ("target", typed "object");
     ("bytes", typed "integer"); ("capturedAt", typed "integer")]);
  on Windows ["ui.capture"]
    (json_object [("path", typed "string"); ("applicationPath", typed "string");
     ("executable", typed "string"); ("capture", typed "object"); ("bytes", typed "integer");
     ("capturedAt", typed "integer")]);
  on Windows ["ui.input"]
    (json_object [("applicationPath", typed "string"); ("executable", typed "string");
     ("target", typed "object"); ("actions", typed "array"); ("inputAt", typed "integer")]);
  arm ["logs.read"]
    (json_object [("processId", typed "string"); ("path", typed "string");
     ("lines", typed "array")]);
  arm ["process.list"] (json_object [("processes", typed "array")]);
  arm ["port.check"] (json_object [("port", typed "integer"); ("available", typed "boolean")]);
  arm ["ui.evaluate"]
    (json_object [("target", typed "object"); ("value", json_object []);
     ("evaluatedAt", typed "integer")]);
  arm ["ui.native-inspect"]
    (json_object [("applicationPath", typed "string"); ("pids", typed "array");
     ("inspection", typed "object"); ("inspectedAt", typed "integer")]);
  arm ["process.events"] (json_object [("processId", typed "string"); ("events", typed "array")])].

Definition keys (v : Value) : list string := from_option (fmap fst) [] (as_object v).

Definition output_schema (os : target_os) (name : string) : Value :=
  let properties := first_arm os name (json_object []) (result_properties ++ application_result_properties) in
  let required :=
    bfilter (fun key => negb (bool_decide (name = "application.launch") &&
                              bool_decide (key = "runtimeApplicationPath")))
      (keys properties) in
  json_object [("type", VString "object"); ("properties", properties);
               ("required", strings required); ("additionalProperties", VBool true)].

(** ** The descriptor *)

Definition optional_fields : list string :=
  ["mode"; "identity"; "fence"; "remoteDebuggingPort"; "targetUrlPrefix"; "requestPermission";
   "maxResults"; "env"; "logPath"; "readiness"; "tail"; "fence"; "approvalDigest";
   "workspaceSessionId"; "knownHostsFile"; "mode"; "resources"; "timeoutMs"].

Definition optional_for (name : string) : list string :=
  first_arm Linux name [] [
    arm ["application.launch"]
      ["chromiumLocalStatePatch"; "chromiumLocalStatePath"; "chromiumLocalStateSettleMs"; "file";
       "runtimeShadowDir"; "runtimeShadowMutablePaths"; "chromiumLocalStateReapply"; "userDataDir"];
    arm ["application.open-file"] ["handlerPath"];
    arm ["application.materialize"] ["derivedFrom"];
    arm ["artifact.pack-chromium-datapack"]
      ["basePackPath"; "basePackDigest"; "changedPrefixes"; "manifestMetadata"];
    arm ["filesystem.read"] ["offset"; "limit"];
    arm ["filesystem.write"] ["encoding"; "expectedDigest"]].

Definition contract (os : target_os) (name : string) (effect : Effect.t) : CapabilityDescriptor.t :=
  let t := contract_terms os name in
  let schema_required :=
    bfilter (fun key => negb (bool_decide (key ∈ optional_fields) || bool_decide (key ∈ optional_for name)))
      (keys (properties t)) in
  let retryable_idempotent := negb (bool_decide (key_fields t = [])) in
  {| CapabilityDescriptor.name := name;
     CapabilityDescriptor.version := "2.0.0";
     CapabilityDescriptor.input_schema :=
       json_object [("$schema", VString "https://json-schema.org/draft/2020-12/schema");
                    ("type", VString "object"); ("properties", properties t);
                    ("required", strings schema_required); ("additionalProperties", VBool true)];
     CapabilityDescriptor.output_schema := output_schema os name;
     CapabilityDescriptor.required_executor_features := required t;
     CapabilityDescriptor.locks := (fun key => LockTemplate.mk key LockMode.Exclusive) <$> locks t;
     CapabilityDescriptor.idempotency := IdempotencyContract.mk (key_fields t) 86400000;
     CapabilityDescriptor.timeout_ms := timeout_ms t;
     CapabilityDescriptor.execution_kind := capability_execution_kind name (timeout_ms t);
     CapabilityDescriptor.retry :=
       RetryPolicy.mk (if bool_decide (effect = Effect.ReadOnly) || retryable_idempotent then 3 else 1)
         ["EXECUTOR_UNAVAILABLE"] 500;
     CapabilityDescriptor.rollback := rollback t;
     CapabilityDescriptor.health_check := HealthCheck.Process;
     CapabilityDescriptor.emitted_evidence := evidence t;
     CapabilityDescriptor.effect := effect;
     CapabilityDescriptor.authority := capability_authority name;
     CapabilityDescriptor.priority := capability_priority name;
     CapabilityDescriptor.max_concurrency := capability_concurrency name;
     CapabilityDescriptor.cancel_policy := capability_cancel_policy name |}.

Definition everywhere : list (string * Effect.t) :=
  [("filesystem.resolve", Effect.ReadOnly); ("filesystem.stat", Effect.ReadOnly);
  ("filesystem.read", Effect.ReadOnly); ("filesystem.list", Effect.ReadOnly);
  ("filesystem.search", Effect.ReadOnly); ("filesystem.write", Effect.Mutating);
  ("filesystem.patch", Effect.Mutating); ("filesystem.remove", Effect.Mutating);
  ("filesystem.restore", Effect.Mutating); ("filesystem.mkdir", Effect.Mutating);
  ("command.run", Effect.Mutating); ("computer-use.tools", Effect.ReadOnly);
  ("computer-use.call", Effect.Mutating); ("clipboard.status", Effect.ReadOnly);
  ("clipboard.read", Effect.ReadOnly); ("clipboard.write", Effect.Mutating);
  ("artifact.build", Effect.Mutating); ("artifact.describe", Effect.ReadOnly);
  ("artifact.relay.archive.create", Effect.ReadOnly);
  ("artifact.relay.archive.read", Effect.ReadOnly);
  ("artifact.relay.archive.remove", Effect.ReadOnly);
  ("artifact.relay.archive.prepare", Effect.Mutating);
  ("artifact.relay.archive.write", Effect.Mutating);
  ("artifact.relay.archive.commit", Effect.Mutating);
  ("artifact.relay.local-copy", Effect.Mutating); ("artifact.relay.manifest", Effect.ReadOnly);
  ("artifact.relay.read", Effect.ReadOnly); ("artifact.relay.prepare", Effect.Mutating);
  ("artifact.relay.write", Effect.Mutating); ("artifact.relay.commit", Effect.Mutating);
  ("process.start", Effect.Mutating); ("process.get", Effect.ReadOnly);
  ("process.list", Effect.ReadOnly); ("process.stop", Effect.Mutating);
  ("process.restart", Effect.Mutating); ("process.events", Effect.ReadOnly);
  ("readiness.wait", Effect.ReadOnly); ("logs.read", Effect.ReadOnly);
  ("port.check", Effect.ReadOnly); ("tunnel.ensure", Effect.Mutating);
  ("tunnel.get", Effect.ReadOnly); ("tunnel.list", Effect.ReadOnly);
  ("tunnel.stop", Effect.Mutating); ("agent.start", Effect.Mutating);
  ("agent.stop", Effect.Mutating); ("application.materialize", Effect.Mutating);
  ("application.apply-artifacts", Effect.Mutating);
  ("artifact.pack-chromium-datapack", Effect.Mutating);
  ("application.generation.record", Effect.Mutating);
  ("application.runtime.record", Effect.Mutating); ("application.activate", Effect.Mutating)].
Definition on_macos : list (string * Effect.t) :=
  [("application.inspect", Effect.ReadOnly); ("application.finalize", Effect.Mutating);
  ("application.launch", Effect.Mutating); ("application.open-file", Effect.Mutating);
  ("application.stop", Effect.Mutating); ("ui.inspect", Effect.ReadOnly);
  ("ui.evaluate", Effect.ReadOnly); ("ui.automate", Effect.Mutating);
  ("ui.capture", Effect.ReadOnly); ("ui.native-inspect", Effect.ReadOnly)].
Definition on_windows : list (string * Effect.t) :=
  [("application.inspect", Effect.ReadOnly); ("application.launch", Effect.Mutating);
  ("application.open-file", Effect.Mutating); ("ui.evaluate", Effect.ReadOnly);
  ("ui.capture", Effect.ReadOnly); ("ui.input", Effect.Mutating);
  ("ui.native-inspect", Effect.ReadOnly)].

Definition capabilities (os : target_os) : list (string * Effect.t) :=
  everywhere ++ match os with Linux => [] | MacOs => on_macos | Windows => on_windows end.

Definition capability_catalog (os : target_os) : list CapabilityDescriptor.t :=
  (fun ne => contract os ne.1 ne.2) <$> capabilities os.

(** ** What every contract of the catalog satisfies *)

Definition schema_required (c : CapabilityDescriptor.t) : list string :=
  from_option (omap as_str) [] (vget (CapabilityDescriptor.input_schema c) "required" ≫= as_array).

(** [template] reads as pieces whose slots are required fields. *)
Definition template_ok (required : list string) (template : string) : bool :=
  let ps := pieces template in
  bool_decide (spell ps = template) && pieces_ok ps && Nat.ltb (length (slots ps)) 4 &&
  forallb (fun key => bool_decide (key ∈ required)) (slots ps).

Definition lease_template (c : CapabilityDescriptor.t) : option string :=
  match CapabilityDescriptor.authority c with
  | CapabilityAuthority.ResourceLease template => Some template
  | _ => None
  end.

(** The executor's own name is put in before the rest of the template is read. *)
Definition own (executor_id : string) (p : piece) : piece :=
  if decide (p = Slot "executorId") then Lit executor_id else p.

Definition no_port : list string := ["ui.automate"; "ui.input"].

Definition declares_object (c : CapabilityDescriptor.t) : bool :=
  match vget (CapabilityDescriptor.input_schema c) "type" with
  | Some (VString kind) => bool_decide (kind = "object")
  | _ => false
  end.

Definition contract_ok (c : CapabilityDescriptor.t) : bool :=
  bool_decide (CapabilityDescriptor.name c ∈ no_port) ||
  (declares_object c &&
   forallb (fun l => template_ok (schema_required c) (LockTemplate.key l)) (CapabilityDescriptor.locks c) &&
   from_option (template_ok ("executorId" :: schema_required c)) true (lease_template c)).

Lemma catalog_forallb (p : CapabilityDescriptor.t -> bool) os c :
  forallb (fun os => forallb p (capability_catalog os)) [Linux; MacOs; Windows] = true ->
  c ∈ capability_catalog os -> p c = true.
Proof.
  intros Hp Hc. apply forallb_forall with (x := os) in Hp; [|by destruct os; simpl; auto].
  rewrite forallb_forall in Hp. by apply Hp, list_elem_of_In.
Qed.

(** The templates under which a lease is required. *)
Definition lease_templates : list string :=
  ["clipboard:${executorId}"; "artifact-relay:${destination}"; "tunnel:${executorId}:${tunnelId}";
   "runtime:${executorId}"; "acceptance:${executorId}:${remoteDebuggingPort}"].

Lemma own_template executor_id template :
  template ∈ lease_templates ->
  Str.replace "${executorId}" executor_id template = spell (own executor_id <$> pieces template).
Proof.
  unfold lease_templates. rewrite !elem_of_cons, elem_of_nil.
  by intros [->|[->|[->|[->|[->|[]]]]]].
Qed.

Lemma pieces_ok_own executor_id ps :
  Str.count_char "$" executor_id = 0%nat -> pieces_ok ps = true ->
  pieces_ok (own executor_id <$> ps) = true.
Proof.
  intros Hid. unfold pieces_ok. induction ps as [|p ps IH]; [done|]. cbn [fmap list_fmap forallb].
  rewrite !andb_true_iff. intros [Hp Hps]. split; [|by apply IH].
  unfold own. case_decide; [by apply bool_decide_eq_true|done].
Qed.

Lemma slots_own executor_id ps key :
  key ∈ slots (own executor_id <$> ps) -> key ∈ slots ps /\ key <> "executorId".
Proof.
  unfold slots. rewrite !list_elem_of_omap. intros (p & Hp & Hkey).
  apply list_elem_of_fmap in Hp as (q & -> & Hq). unfold own in Hkey.
  case_decide as Hd; [done|]. split; [by exists q|]. intros ->.
  by destruct q; simplify_eq.
Qed.

Lemma length_slots_own executor_id ps : (length (slots (own executor_id <$> ps)) <= length (slots ps))%nat.
Proof.
  induction ps as [|[text|key] ps IH]; [done|exact IH|].
  change (own executor_id <$> Slot key :: ps)
    with (own executor_id (Slot key) :: (own executor_id <$> ps)).
  change (slots (Slot key :: ps)) with (key :: slots ps). unfold own at 1.
  case_decide; [change (length (slots (own executor_id <$> ps)) <= S (length (slots ps)))%nat; lia|].
  change (S (length (slots (own executor_id <$> ps))) <= S (length (slots ps)))%nat. lia.
Qed.

Section rendering.
Context `{!Text}.

Lemma renders ps input fuel :
  pieces_ok ps = true -> plain_at ps input -> (length (slots ps) < fuel)%nat ->
  (forall key, key ∈ slots ps -> is_Some (vget input key)) ->
  exists r, render_lock fuel (spell ps) input = Ok r /\ render_authority_resource fuel (spell ps) input = Ok r.
Proof.
  intros Hok Hplain Hf Hs. destruct (fill_Ok ps input Hs) as [r Hr]. exists r.
  by rewrite render_lock_fill, render_authority_fill, Hr.
Qed.

Lemma template_ok_inv required template :
  template_ok required template = true ->
  spell (pieces template) = template /\ pieces_ok (pieces template) = true /\
  (length (slots (pieces template)) < 4)%nat /\
  (forall key, key ∈ slots (pieces template) -> key ∈ required).
Proof.
  unfold template_ok. rewrite !andb_true_iff, bool_decide_eq_true, Nat.ltb_lt, forallb_forall.
  intros [[[Hs Hok] Hl] Hr]. split_and!; [done..|]. intros key Hkey.
  by apply list_elem_of_In, Hr, bool_decide_eq_true in Hkey.
Qed.

(** A value the input schema accepts has the required fields. *)
Lemma accepted_required c input path key :
  declares_object c = true ->
  validate_schema (CapabilityDescriptor.input_schema c) input path = Ok tt ->
  key ∈ schema_required c -> is_Some (vget input key).
Proof.
  unfold declares_object, schema_required. intros Hobj [Hnode _]%validate_schema_step Hkey.
  destruct (vget (CapabilityDescriptor.input_schema c) "type") as [[]|] eqn:Ht; try done.
  apply bool_decide_eq_true in Hobj as ->. pose proof (node_type _ _ Hnode _ Ht) as Htype.
  destruct input as [| | | | |o]; try done.
  destruct (vget _ "required" ≫= as_array) as [required|] eqn:Hreq; simpl in Hkey;
    [|by apply not_elem_of_nil in Hkey].
  apply as_array_Some in Hreq. apply list_elem_of_omap in Hkey as (v & Hv & Hs).
  destruct v as [| | |s| |]; try done. injection Hs as ->. pose proof (node_required _ _ Hnode _ _ _ eq_refl Hreq Hv) as Hc.
  unfold contains_key in Hc. simpl. destruct (obj_get o key); [by eexists|done].
Qed.

(** Every input that a contract's schema accepts names the contract's
    resources: its locks and the resource of its lease render, on the
    controller and on the executor, and to the same name.  The contracts of
    [ui.automate] and [ui.input] are left out, see [ui_automate_needs_a_port]. *)
Theorem contract_resources_render os c executor_id input path fuel :
  c ∈ capability_catalog os -> CapabilityDescriptor.name c ∉ no_port ->
  validate_schema (CapabilityDescriptor.input_schema c) input path = Ok tt ->
  fields_plain input -> Str.count_char "$" executor_id = 0%nat -> (4 <= fuel)%nat ->
  (forall lock, lock ∈ CapabilityDescriptor.locks c -> exists resource,
     render_lock fuel (LockTemplate.key lock) input = Ok resource /\
     render_authority_resource fuel (LockTemplate.key lock) input = Ok resource) /\
  (forall template, CapabilityDescriptor.authority c = CapabilityAuthority.ResourceLease template ->
   exists resource,
     render_capability_authority_resource fuel template executor_id input = Ok resource /\
     render_authority_resource fuel (Str.replace "${executorId}" executor_id template) input = Ok resource).
Proof.
  intros Hc Hname Hschema Hplain Hid Hf.
  pose proof (catalog_forallb contract_ok os c ltac:(vm_compute; done) Hc) as Hok.
  unfold contract_ok in Hok. rewrite bool_decide_eq_false_2 in Hok by done.
  apply andb_true_iff in Hok as [[Hobj Hlocks]%andb_true_iff Hlease].
  pose proof (fun key => accepted_required c input path key Hobj Hschema) as Hreq. split.
  - intros lock Hin. rewrite forallb_forall in Hlocks.
    apply list_elem_of_In, Hlocks, template_ok_inv in Hin as (Hsp & Hps & Hlen & Hs).
    rewrite <- Hsp. apply renders; [done|by apply fields_plain_at|lia|]. intros key Hk. by apply Hreq, Hs.
  - intros template Ha. unfold lease_template in Hlease. rewrite Ha in Hlease. simpl in Hlease.
    apply template_ok_inv in Hlease as (Hsp & Hps & Hlen & Hs).
    unfold render_capability_authority_resource. rewrite own_template.
    + apply renders; [by apply pieces_ok_own|by apply fields_plain_at| |].
      * pose proof (length_slots_own executor_id (pieces template)). lia.
      * intros key [Hk Hne]%slots_own. apply Hreq. apply Hs in Hk.
        apply elem_of_cons in Hk as [->|Hk]; done.
    + assert (from_option (fun t => bool_decide (t ∈ lease_templates)) true (lease_template c) = true) as Hin.
      { by apply (catalog_forallb (fun c => from_option (fun t => bool_decide (t ∈ lease_templates)) true
          (lease_template c)) os c ltac:(vm_compute; done)). }
      unfold lease_template in Hin. rewrite Ha in Hin. by apply bool_decide_eq_true in Hin.
Qed.

(** The two contracts whose locks name an optional field accept an input that
    their lock refuses. *)
Example ui_automate_needs_a_port :
  let c := contract MacOs "ui.automate" Effect.Mutating in
  let input := json_object [("method", VString "Page.reload"); ("params", json_object [])] in
  c ∈ capability_catalog MacOs /\
  validate_schema (CapabilityDescriptor.input_schema c) input "input" = Ok tt /\
  render_lock 4 "ui-target:${remoteDebuggingPort}" input = Err (lock_requires "remoteDebuggingPort") /\
  (LockTemplate.key <$> CapabilityDescriptor.locks c) = ["ui-target:${remoteDebuggingPort}"].
Proof.
  split; [|by split_and!]. apply list_elem_of_fmap. exists ("ui.automate", Effect.Mutating).
  split; [done|]. refine (bool_decide_unpack _ _). vm_compute. done.
Qed.
End rendering.

(** Of one kind: a read-only capability needs no authority and nothing else
    does without; the desktop's is tried once; and no contract is cancelled by
    a client that goes away. *)
Definition scheduled_safely (c : CapabilityDescriptor.t) : bool :=
  Bool.eqb (bool_decide (CapabilityDescriptor.effect c = Effect.ReadOnly))
           (bool_decide (CapabilityDescriptor.authority c = CapabilityAuthority.None)) &&
  (negb (bool_decide (CapabilityDescriptor.authority c = CapabilityAuthority.DesktopSession)) ||
   (RetryPolicy.max_attempts (CapabilityDescriptor.retry c) =? 1)).

(** The catalog protects every change: on each platform, a capability may
    run without authority exactly when it is read-only; the capability that
    needs a desktop session is attempted once and never retried; and a name
    is in the catalog once, so that looking it up finds its contract. *)
Theorem catalog_protects_every_mutation os c :
  c ∈ capability_catalog os ->
  (CapabilityDescriptor.effect c = Effect.ReadOnly <->
   CapabilityDescriptor.authority c = CapabilityAuthority.None) /\
  (CapabilityDescriptor.authority c = CapabilityAuthority.DesktopSession ->
   RetryPolicy.max_attempts (CapabilityDescriptor.retry c) = 1) /\
  bfind (fun d => bool_decide (CapabilityDescriptor.name d = CapabilityDescriptor.name c))
    (capability_catalog os) = Some c.
Proof.
  intros Hc. pose proof (catalog_forallb scheduled_safely os c ltac:(vm_compute; done) Hc) as Hs.
  unfold scheduled_safely in Hs. apply andb_true_iff in Hs as [He Hd].
  apply Bool.eqb_prop in He. split; [|split].
  - split; intros Hx; rewrite (bool_decide_eq_true_2 _ Hx) in He;
      [symmetry in He|]; by apply bool_decide_eq_true in He.
  - intros Ha. rewrite (bool_decide_eq_true_2 _ Ha) in Hd. simpl in Hd. lia.
  - apply bfind_key; [|done]. assert (NoDup (CapabilityDescriptor.name <$> capability_catalog os)) as Hnd.
    { refine (bool_decide_unpack _ _). destruct os; vm_compute; done. }
    done.
Qed.

(** ** Witnesses *)

Lemma contract_resources_render_witness :
  let c := contract Linux "filesystem.write" Effect.Mutating in
  let input := json_object [("path", VString "/srv/a"); ("content", VString "hello")] in
  exists resource,
    render_lock (H := plain_text) 4 "filesystem:${path}" input = Ok resource /\
    render_authority_resource (H := plain_text) 4 "filesystem:${path}" input = Ok resource.
Proof.
  intros c input.
  assert (fields_plain (H := plain_text) input) as Hplain.
  { intros key v Hv.
    change (obj_get [("content", VString "hello"); ("path", VString "/srv/a")] key = Some v) in Hv.
    simpl in Hv. repeat case_decide; by simplify_eq. }
  assert (c ∈ capability_catalog Linux) as Hc.
  { apply list_elem_of_fmap. exists ("filesystem.write", Effect.Mutating). split; [done|].
    refine (bool_decide_unpack _ _). vm_compute. done. }
  destruct (contract_resources_render (H := plain_text) Linux c "node-a" input "input" 4 Hc
    ltac:(refine (bool_decide_unpack _ _); vm_compute; done) eq_refl Hplain eq_refl ltac:(lia)) as [Hlocks _].
  apply (Hlocks (LockTemplate.mk "filesystem:${path}" LockMode.Exclusive)).
  vm_compute. left.
Defined.

Lemma catalog_protects_every_mutation_witness :
  let c := contract Linux "computer-use.call" Effect.Mutating in
  c ∈ capability_catalog Linux /\ RetryPolicy.max_attempts (CapabilityDescriptor.retry c) = 1.
Proof.
  intros c.
  assert (c ∈ capability_catalog Linux) as Hc.
  { apply list_elem_of_fmap. exists ("computer-use.call", Effect.Mutating). split; [done|].
    refine (bool_decide_unpack _ _). vm_compute. done. }
  split; [exact Hc|].
  destruct (catalog_protects_every_mutation Linux c Hc) as (_ & Hd & _). by apply Hd.
Defined.

End Catalog.
