(* ===== verification/Arbitration.v ===== *)
(** * Executor-local arbitration ([crates/workbench-runtime/src/resource.rs])

    [Resources] decides which operation may run on which shared resource of an
    executor, for every controller that connects to it: a lease table, the set
    of resources an operation is executing on right now ([active], released when
    the operation's [Permit] is dropped) and the set whose last operation was
    interrupted by a restart ([quarantined]).  The [Mutex] makes every method one
    atomic step.  The state file is part of the model: [host] pairs the Rust
    value with what is on the disk, and a write may fail at any time. *)

From Stdlib Require Import String.
From S2P Require Import Prelude RustStd Json Schema Protocol Leases.

Module Resources.

(** The contents of the state file. *)
Module Snapshot.
Record t := mk {
  leases : list Lease.t;
  fences : gmap string Z;
  active : gset string;
}.
Definition default : t := mk [] ∅ ∅.
End Snapshot.

Record t := mk {
  table : LeaseTable.t;
  active : gset string;
  quarantined : gset string;
  path : option string;
}.

Record host := Host {
  state : t;
  disk : option Snapshot.t;
}.

Definition set_table (T : LeaseTable.t) (s : t) : t := mk T (active s) (quarantined s) (path s).
Definition set_active (a : gset string) (s : t) : t := mk (table s) a (quarantined s) (path s).
Definition set_quarantined (q : gset string) (s : t) : t := mk (table s) (active s) q (path s).
Definition on_state (f : t -> t) (h : host) : host := Host (f (state h)) (disk h).

(** ** Operations *)

Definition handler := M host RpcError.t.

Definition lease_error (e : LeaseTable.LeaseError) : RpcError.t :=
  RpcError.new
    match e with
    | LeaseTable.Active _ _ => "RESOURCE_BUSY"
    | LeaseTable.NotFound => "RESOURCE_LEASE_REQUIRED"
    | _ => "RESOURCE_LEASE_INVALID"
    end (LeaseTable.to_string e).

(** [fn string]: a required, non-empty string parameter. *)
Definition string_param (params : Value) (key : string) : outcome RpcError.t string :=
  match vget params key ≫= as_str with
  | Some s =>
      if Str.is_empty s then Err (RpcError.new "INVALID_PARAMS" (key +:+ " is required")) else Ok s
  | None => Err (RpcError.new "INVALID_PARAMS" (key +:+ " is required"))
  end.

Section operations.
Context `{!Sha256}.

(** A [LeaseTable] method under the receiver's table. *)
Definition on_table {A}
    (f : LeaseTable.t -> outcome LeaseTable.LeaseError A * LeaseTable.t) : handler A := fun h w =>
  let '(o, T') := f (table (state h)) in
  (map_err lease_error o, on_state (set_table T') h, w).

(** [open]: the leases come back, and whatever was executing is quarantined. *)
Definition open (p : string) (file : option Snapshot.t) : t :=
  let snapshot := default Snapshot.default file in
  mk (LeaseTable.from_snapshot (Snapshot.leases snapshot) (Snapshot.fences snapshot))
     ∅ (Snapshot.active snapshot) (Some p).

(** What [persist] writes. *)
Definition snapshot (s : t) : Snapshot.t :=
  Snapshot.mk (LeaseTable.persistence_snapshot (table s)) (LeaseTable.fence_snapshot (table s))
    (active s ∪ quarantined s).

(** The file is replaced as a whole or not at all. *)
Definition persist : handler unit :=
  h ← get;
  match path (state h) with
  | None => mret tt
  | Some _ =>
      ok ← write_ok;
      if (ok : bool) then put (Host (state h) (Some (snapshot (state h))))
      else throw (RpcError.new "RESOURCE_STATE_FAILED" "io error")
  end.

Definition available (resource : string) (s : t) : outcome RpcError.t unit :=
  if bool_decide (resource ∈ quarantined s)
  then Err (RpcError.new "RESOURCE_RECOVERY_REQUIRED"
              ("uncertain operation on " +:+ resource +:+ " survived Executor restart"))
  else if bool_decide (resource ∈ active s)
  then Err (RpcError.new "RESOURCE_BUSY" ("operation is still executing on " +:+ resource))
  else Ok tt.

(** [l.token.clear()] *)
Definition without_token (l : Lease.t) : Lease.t := Lease.with_token l "".

Definition status (resource : string) (s : t) : Value :=
  json_object
    [("lease", vopt (fun l => Lease.to_value (without_token l)) (LeaseTable.get resource (table s)));
     ("active", VBool (bool_decide (resource ∈ active s)));
     ("quarantined", VBool (bool_decide (resource ∈ quarantined s)))].

(** The arms that need an owner and a time to live. *)
Definition lease_command (action : string) (resource owner : string) (ttl : Z) (params : Value) :
    handler Lease.t :=
  if decide (action = "resource.lease.acquire") then
    h ← get;
    _ ← lift (available resource (state h));
    n ← now; u1 ← fresh_uuid; u2 ← fresh_uuid;
    on_table (LeaseTable.acquire n u1 u2 LeaseKind.Resource resource owner ttl)
  else if decide (action = "resource.lease.validate") then
    token ← lift (string_param params "token");
    n ← now;
    on_table (fun T => (LeaseTable.validate n resource owner token T, T))
  else if decide (action = "resource.lease.renew") then
    token ← lift (string_param params "token");
    n1 ← now; n2 ← now;
    on_table (LeaseTable.renew n1 n2 resource owner token ttl)
  else if decide (action = "resource.lease.release") then
    h ← get;
    _ ← lift (available resource (state h));
    token ← lift (string_param params "token");
    n ← now;
    on_table (LeaseTable.release n resource owner token)
  else throw (RpcError.new "UNKNOWN_ACTION" action).

Definition command (action : string) (params : Value) : handler Value :=
  h ← get;
  if decide (action = "resource.lease.list") then
    let prefix := default "" (vget params "prefix" ≫= as_str) in
    mret (VArray ((fun l => Lease.to_value (without_token l)) <$>
            bfilter (fun l => Str.starts_with prefix (Lease.resource l))
              (LeaseTable.snapshot (table (state h)))))
  else
  resource ← lift (string_param params "resource");
  if decide (action = "resource.lease.status") then mret (status resource (state h))
  else if decide (action = "resource.lease.recover") then
    _ ← guard (bool_decide ((vget params "confirmExecutionStopped" ≫= as_bool) = Some true))
          (RpcError.new "RESOURCE_RECOVERY_CONFIRMATION_REQUIRED"
             "confirm the old operation and any child process have stopped");
    _ ← guard (bool_decide (resource ∉ active (state h)))
          (RpcError.new "RESOURCE_BUSY" "operation is still executing");
    _ ← modify (on_state (fun s => set_quarantined (quarantined s ∖ {[resource]}) s));
    _ ← persist;
    mret (json_object [("resource", vstr resource); ("recovered", VBool true)])
  else
  owner ← lift (string_param params "owner");
  let ttl := default 300000 (vget params "ttlMs" ≫= as_u64) in
  _ ← guard (negb ((ttl =? 0) || (ttl >? 86400000)))
        (RpcError.new "INVALID_PARAMS" "TTL must be between 1 ms and 24 hours");
  lease ← lease_command action resource owner ttl params;
  _ ← persist;
  mret (Lease.to_value lease).

(** [resources.sort(); resources.dedup()] *)
Definition sort_dedup (resources : list string) : list string :=
  merge_sort String.le (elements (list_to_set (C := gset string) resources)).

Definition names (resource : string) (grant : Value) : bool :=
  bool_decide ((vget grant "resource" ≫= as_str) = Some resource).

(** The first loop of [begin]: one resource. *)
Definition admit_one (grants : list Value) (resource : string) : handler unit :=
  h ← get;
  _ ← lift (available resource (state h));
  match bfind (names resource) grants with
  | Some grant =>
      owner ← lift (string_param grant "owner");
      token ← lift (string_param grant "token");
      n ← now;
      _ ← lift (map_err lease_error (LeaseTable.validate n resource owner token (table (state h))));
      mret tt
  | None =>
      match LeaseTable.get resource (table (state h)) with
      | None => mret tt
      | Some l =>
          n ← now;
          guard (negb (Lease.expires_at l >? n))
            (RpcError.new "RESOURCE_BUSY" (resource +:+ " has an outstanding lease"))
      end
  end.

Fixpoint admit_all (grants : list Value) (resources : list string) : handler unit :=
  match resources with
  | [] => mret tt
  | r :: rs => _ ← admit_one grants r; admit_all grants rs
  end.

(** The result is the [Permit]: the resources its drop will free. *)
Definition begin (resources : list string) (grants : list Value) : handler (list string) :=
  let rs := sort_dedup resources in
  _ ← admit_all grants rs;
  _ ← guard (forallb (fun grant => existsb (fun r => names r grant) rs) grants)
        (RpcError.new "RESOURCE_LEASE_SCOPE_MISMATCH" "lease does not authorize this operation");
  _ ← modify (on_state (fun s => set_active (active s ∪ list_to_set rs) s));
  _ ← (if decide (rs = []) then mret tt else persist : handler unit);
  mret rs.

(** [Permit::drop]; a failing write is ignored. *)
Definition drop_permit (permit : list string) (h : host) (w : world) : host * world :=
  match permit with
  | [] => (h, w)
  | _ =>
      let h' := on_state (fun s => set_active (active s ∖ list_to_set permit) s) h in
      let '(_, h'', w') := persist h' w in (h'', w')
  end.
End operations.

(** ** The arbitration system

    The permits handed out and not yet dropped, next to the host.  A step is one
    call under the lock, or a crash of the executor: the permits are lost with
    the process, and the next process opens the file. *)

Record system := System {
  host_of : host;
  permits : list (list string);
}.

Section system.
Context `{!Sha256}.

Definition initial (p : string) : system := System (Host (open p None) None) [].

Inductive step : system -> system -> Prop :=
  | step_command S action params w :
      step S (System (command action params (host_of S) w).1.2 (permits S))
  | step_begin S resources grants w permit :
      (begin resources grants (host_of S) w).1.1 = Ok permit ->
      step S (System (begin resources grants (host_of S) w).1.2 (permit :: permits S))
  | step_begin_refused S resources grants w :
      is_ok (begin resources grants (host_of S) w).1.1 = false ->
      step S (System (begin resources grants (host_of S) w).1.2 (permits S))
  | step_drop h ps permit ps' w :
      step (System h (ps ++ permit :: ps'))
           (System (drop_permit permit h w).1 (ps ++ ps'))
  | step_crash S p :
      path (state (host_of S)) = Some p ->
      step S (System (Host (open p (disk (host_of S))) (disk (host_of S))) []).

Definition reachable (p : string) : system -> Prop := rtc step (initial p).

Definition on_disk (h : host) : gset string := default ∅ (Snapshot.active <$> disk h).

(** No two outstanding permits share a resource, every outstanding resource is
    marked active in memory and on the disk, and so is every quarantined one. *)
Definition inv (S : system) : Prop :=
  NoDup (concat (permits S)) /\
  (forall r, r ∈ concat (permits S) -> r ∈ active (state (host_of S))) /\
  (forall r, r ∈ concat (permits S) -> r ∈ on_disk (host_of S)) /\
  quarantined (state (host_of S)) ⊆ on_disk (host_of S) /\
  (exists p, path (state (host_of S)) = Some p).

(** The same for one host and the set [P] of outstanding resources. *)
Definition guarded (P : gset string) (h : host) : Prop :=
  P ⊆ active (state h) /\ P ⊆ on_disk h /\ quarantined (state h) ⊆ on_disk h /\
  (exists p, path (state h) = Some p).

Definition outstanding (S : system) : gset string := list_to_set (concat (permits S)).

Lemma inv_guarded S :
  inv S <-> NoDup (concat (permits S)) /\ guarded (outstanding S) (host_of S).
Proof.
  unfold inv, guarded, outstanding. rewrite !elem_of_subseteq.
  setoid_rewrite elem_of_list_to_set. tauto.
Qed.

(** *** Every handler keeps the host guarded *)

Lemma persist_spec h w p :
  path (state h) = Some p ->
  persist h w =
  if io_ok w (io_at w)
  then (Ok tt, Host (state h) (Some (snapshot (state h))), io_tick w)
  else (Err (RpcError.new "RESOURCE_STATE_FAILED" "io error"), h, io_tick w).
Proof.
  intros Hp. unfold persist. run_handler. rewrite Hp. by destruct (io_ok w (io_at w)).
Qed.

Lemma persist_guarded P : keeps (guarded P) persist.
Proof.
  intros h w (HA & HD & HQ & p & Hp). rewrite (persist_spec _ _ p Hp).
  destruct (io_ok w (io_at w)); [|by repeat split; try exists p].
  split; [done|]. cbn [fst snd on_disk disk default]. unfold on_disk. simpl.
  split; [set_solver|]. split; [set_solver|]. by exists p.
Qed.

Lemma on_table_guarded {A} P (f : LeaseTable.t -> outcome LeaseTable.LeaseError A * LeaseTable.t) :
  keeps (guarded P) (on_table f).
Proof. intros h w Hg. unfold on_table. by destruct (f _). Qed.
#[local] Hint Resolve persist_guarded on_table_guarded : keeps.

Lemma lease_command_guarded P action resource owner ttl params :
  keeps (guarded P) (lease_command action resource owner ttl params).
Proof. unfold lease_command. keep. Qed.
#[local] Hint Resolve lease_command_guarded : keeps.

Lemma command_guarded P action params : keeps (guarded P) (command action params).
Proof.
  unfold command. keep. intros h (HA & HD & HQ & Hp). split; [done|]. split; [done|].
  split; [|done]. transitivity (quarantined (state h)); [|done].
  apply subseteq_difference_l. done.
Qed.

(** The first loop of [begin] only reads. *)
Definition admitted (grants : list Value) (c : nat -> Z) (s : t) (r : string) : Prop :=
  available r s = Ok tt /\
  forall l, LeaseTable.get r (table s) = Some l -> (forall i, c i < Lease.expires_at l) ->
    exists grant owner token, grant ∈ grants /\ names r grant = true /\
      string_param grant "owner" = Ok owner /\ string_param grant "token" = Ok token /\
      Lease.owner l = owner /\ LeaseTable.token_matches (Lease.token l) token = true.

Lemma admit_one_reads grants r h w :
  (admit_one grants r h w).1.2 = h /\ clock (admit_one grants r h w).2 = clock w /\
  ((admit_one grants r h w).1.1 = Ok tt -> admitted grants (clock w) (state h) r).
Proof.
  unfold admit_one, admitted. run_handler.
  destruct (available r (state h)) as [[]|e|]; [|by split_and!..].
  destruct (bfind (names r) grants) as [grant|] eqn:Hf.
  - destruct (string_param grant "owner") as [owner|e|] eqn:Ho; [|by split_and!..].
    destruct (string_param grant "token") as [token|e|] eqn:Ht; [|by split_and!..].
    simpl. destruct (LeaseTable.validate _ r owner token _) as [l'|e|] eqn:Hv; [|by split_and!..].
    split_and!; try done. intros _. split; [done|]. intros l Hl _.
    apply LeaseTable.validate_Ok in Hv as (Hl' & _ & Hown & Htok).
    unfold LeaseTable.get in Hl. rewrite Hl in Hl'. injection Hl' as <-.
    apply bfind_Some in Hf as [Hn Hin]. by exists grant, owner, token.
  - destruct (LeaseTable.get r (table (state h))) as [l|] eqn:Hl; [|by split_and!].
    simpl. destruct (Lease.expires_at l >? _) eqn:Hx; simpl; [by split_and!|].
    split_and!; try done. intros _. split; [done|]. intros l' [= <-] Hlt.
    specialize (Hlt (clock_at w)). lia.
Qed.

Lemma admit_all_reads grants rs h w :
  (admit_all grants rs h w).1.2 = h /\
  ((admit_all grants rs h w).1.1 = Ok tt -> Forall (admitted grants (clock w) (state h)) rs).
Proof.
  revert w. induction rs as [|r rs IH]; intros w; [by split|].
  cbn [admit_all]. destruct (admit_one_reads grants r h w) as (H1 & H2 & H3).
  unfold mbind, M_bind. destruct (admit_one grants r h w) as [[[[]|e|] h1] w1];
    simpl in *; subst; [|by split..].
  destruct (IH w1) as [IH1 IH2]. rewrite H2 in IH2. split; [done|]. intros Hok. constructor; auto.
Qed.

Lemma elem_of_sort_dedup rs r : r ∈ sort_dedup rs <-> r ∈ rs.
Proof. unfold sort_dedup. by rewrite merge_sort_Permutation, elem_of_elements, elem_of_list_to_set. Qed.

Lemma NoDup_sort_dedup rs : NoDup (sort_dedup rs).
Proof. unfold sort_dedup. rewrite merge_sort_Permutation. apply NoDup_elements. Qed.

Lemma available_Ok r s :
  available r s = Ok tt <-> (r ∉ quarantined s) /\ (r ∉ active s).
Proof. unfold available. repeat case_bool_decide; split; try done; by intros []. Qed.

(** Everything [begin] can do: refuse and leave the host alone, hand out a
    permit, or mark the resources and fail to write them down. *)
Lemma begin_cases resources grants h w :
  let r := begin resources grants h w in
  let rs := sort_dedup resources in
  (is_ok r.1.1 = false /\ r.1.2 = h) \/
  (Forall (admitted grants (clock w) (state h)) rs /\
   (forall grant, grant ∈ grants -> exists x, x ∈ rs /\ names x grant = true) /\
   let h' := on_state (fun s => set_active (active s ∪ list_to_set rs) s) h in
   (r.1.1 = Ok rs /\ rs = [] /\ r.1.2 = h') \/
   (exists w', (persist h' w').1.1 = Ok tt /\ r.1 = (Ok rs, (persist h' w').1.2)) \/
   (exists w', is_ok (persist h' w').1.1 = false /\ is_ok r.1.1 = false /\
               r.1.2 = (persist h' w').1.2)).
Proof.
  intros r rs. unfold r, begin. fold rs. unfold mbind, M_bind.
  destruct (admit_all_reads grants rs h w) as [Hs Hav].
  destruct (admit_all grants rs h w) as [[[[]|e|] h1] w1]; simpl in Hs; subst h1; [|by left; split; [reflexivity|]..].
  specialize (Hav eq_refl). unfold guard. destruct (forallb _ _) eqn:Hsc; [|by left].
  right. split; [exact Hav|]. split.
  { intros grant Hin. rewrite forallb_forall in Hsc. specialize (Hsc grant).
    rewrite <- list_elem_of_In in Hsc. apply Hsc, existsb_exists in Hin as (x & Hx & Hn).
    exists x. by rewrite list_elem_of_In. }
  set (h' := on_state _ h).
  cbn [modify mret M_ret fst snd]. destruct (decide (rs = [])) as [Hrs|Hrs]; [by left|].
  right. change (on_state _ h) with h'.
  destruct (persist h' w1) as [[[[]|e|] h2] w2] eqn:Hp; [left|right..]; exists w1; by rewrite Hp.
Qed.

Lemma guarded_mark P rs h :
  guarded P h -> guarded P (on_state (fun s => set_active (active s ∪ rs) s) h).
Proof.
  intros (HA & HD & HQ & Hp). split; [|done]. simpl. by apply union_subseteq_l'.
Qed.

Lemma begin_guarded P resources grants : keeps (guarded P) (begin resources grants).
Proof.
  intros h w Hg. destruct (begin_cases resources grants h w) as [[_ ->]|(_ & _ & Hc)]; [done|].
  pose proof (guarded_mark P (list_to_set (sort_dedup resources)) h Hg) as Hg'.
  destruct Hc as [(_ & _ & ->)|[(w' & _ & ->)|(w' & _ & _ & ->)]]; [done| |];
    by apply (persist_guarded P).
Qed.

(** A permit covers resources nobody was using, and they are now marked in
    memory and on the disk. *)
Lemma begin_permit P resources grants h w permit :
  guarded P h -> (begin resources grants h w).1.1 = Ok permit ->
  permit = sort_dedup resources /\
  (forall r, r ∈ permit -> (r ∉ active (state h)) /\ (r ∉ quarantined (state h))) /\
  guarded (list_to_set permit ∪ P) (begin resources grants h w).1.2.
Proof.
  intros Hg Hok. pose proof (begin_guarded P resources grants h w Hg) as Hg'.
  destruct (begin_cases resources grants h w) as [[Hf _]|(Hav & _ & Hc)]; [by rewrite Hok in Hf|].
  assert (Hfree : forall r, r ∈ sort_dedup resources -> (r ∉ active (state h)) /\ (r ∉ quarantined (state h))).
  { rewrite Forall_forall in Hav. intros r Hr. apply and_comm. by apply available_Ok, (Hav r Hr). }
  pose proof Hg as (_ & _ & _ & p & Hp).
  destruct Hc as [(H1 & Hnil & Hh)|[(w' & H1 & Hr)|(w' & _ & Hf & _)]]; [| |by rewrite Hok in Hf].
  - rewrite H1 in Hok. injection Hok as <-. split; [done|]. split; [done|].
    rewrite Hnil. simpl. by rewrite (left_id_L ∅ (∪)).
  - rewrite Hr in Hok, Hg' |- *. simpl in Hok. injection Hok as <-. split; [done|]. split; [done|].
    cbn [snd] in *. rewrite (persist_spec _ _ p) in H1, Hg' |- * by done.
    destruct (io_ok w' (io_at w')); [|done]. destruct Hg' as (HA & HD & HQ & Hp').
    split; [|split; [|done]]; apply union_subseteq; (split; [|done]); simpl.
    + apply union_subseteq_r.
    + unfold on_disk. simpl. apply union_subseteq_l', union_subseteq_r.
Qed.

Lemma drop_guarded P permit h w :
  guarded (list_to_set permit ∪ P) h -> (list_to_set permit ## P) ->
  guarded P (drop_permit permit h w).1.
Proof.
  intros (HA & HD & HQ & Hp) Hdis. apply union_subseteq in HA as [_ HA], HD as [_ HD].
  unfold drop_permit. destruct permit as [|r rs] eqn:Hperm; [done|]. rewrite <- Hperm in *.
  set (h' := on_state _ h). assert (Hg : guarded P h').
  { split; [|done]. simpl. intros x Hx. apply elem_of_difference. split; [by apply HA|].
    intros Hin. by apply (Hdis x). }
  apply (persist_guarded P h' w) in Hg. by destruct (persist h' w) as [[o h''] w''].
Qed.

Lemma arbitration_step_inv S S' : step S S' -> inv S -> inv S'.
Proof.
  intros Hstep [Hnd Hg]%inv_guarded. apply inv_guarded.
  destruct Hstep as [S action params w|S rs grants w permit Hok|S rs grants w Hno|h ps permit ps' w|S p Hp];
    unfold outstanding in *; cbn [permits host_of] in *.
  - split; [done|]. by apply command_guarded.
  - destruct (begin_permit _ _ _ _ _ _ Hg Hok) as (Hperm & Hfree & Hg'). cbn [concat]. split.
    + apply NoDup_app. split_and!; [rewrite Hperm; apply NoDup_sort_dedup| |done].
      intros r Hr Hin. destruct (Hfree r Hr) as [Hna _]. apply Hna. apply Hg.
      by apply elem_of_list_to_set.
    + by rewrite list_to_set_app_L.
  - split; [done|]. by apply begin_guarded.
  - assert (Hperm : concat (ps ++ permit :: ps') ≡ₚ permit ++ concat (ps ++ ps')).
    { rewrite !concat_app. cbn [concat]. by rewrite Permutation_app_swap_app. }
    rewrite Hperm in Hnd. apply NoDup_app in Hnd as (_ & Hdis & Hnd). split; [done|].
    apply drop_guarded.
    + by rewrite <- list_to_set_app_L, <- (list_to_set_perm_L _ _ Hperm).
    + intros r. rewrite !elem_of_list_to_set. apply Hdis.
  - split; [constructor|]. unfold guarded, on_disk. simpl.
    split; [set_solver|]. split; [set_solver|]. split; [|by exists p].
    by destruct (disk (host_of S)).
Qed.

Lemma arbitration_reachable_inv p S : reachable p S -> inv S.
Proof.
  unfold reachable. intros Hr. assert (Hi : inv (initial p)).
  { split; [constructor|]. cbn. split_and!; try (by intros r ?%not_elem_of_nil); [set_solver|by exists p]. }
  induction Hr as [|S1 S2 S3 Hs _ IH]; [done|]. apply IH. by eapply arbitration_step_inv.
Qed.

(** *** What can lift a quarantine *)

Definition confirmed (params : Value) : Prop :=
  (vget params "confirmExecutionStopped" ≫= as_bool) = Some true.

Lemma persist_state h w : state (persist h w).1.2 = state h.
Proof.
  unfold persist. run_handler. destruct (path (state h)); [|done].
  by destruct (io_ok w (io_at w)).
Qed.

(** Handlers that leave the quarantine alone. *)
Definition same_quarantine (Q : gset string) (h : host) : Prop := quarantined (state h) = Q.

Lemma persist_quarantine Q : keeps (same_quarantine Q) persist.
Proof. intros h w Hq. unfold same_quarantine in *. by rewrite persist_state. Qed.

Lemma on_table_quarantine {A} Q (f : LeaseTable.t -> outcome LeaseTable.LeaseError A * LeaseTable.t) :
  keeps (same_quarantine Q) (on_table f).
Proof. intros h w Hq. unfold on_table. by destruct (f _). Qed.
#[local] Hint Resolve persist_quarantine on_table_quarantine : keeps.

Lemma lease_command_quarantine Q action resource owner ttl params :
  keeps (same_quarantine Q) (lease_command action resource owner ttl params).
Proof. unfold lease_command. keep. Qed.
#[local] Hint Resolve lease_command_quarantine : keeps.

Lemma command_quarantine action params h w r :
  r ∈ quarantined (state h) -> r ∉ quarantined (state (command action params h w).1.2) ->
  action = "resource.lease.recover" /\ string_param params "resource" = Ok r /\ confirmed params.
Proof.
  intros Hin Hout.
  destruct (decide (action = "resource.lease.recover")) as [->|Hne].
  - split; [done|]. unfold confirmed. revert Hout. unfold command. run_handler. simpl.
    destruct (string_param params "resource") as [res|e|]; simpl; [|done..].
    case_bool_decide; [|done]. case_bool_decide; [|done].
    run_handler. match goal with |- context [persist ?h' w] => pose proof (persist_state h' w) as Hs;
      destruct (persist h' w) as [[[[]|e|] h2] w2] end; simpl in Hs |- *; rewrite Hs; simpl;
      rewrite elem_of_difference, elem_of_singleton; intros Hn;
      (split; [|done]);
      (destruct (decide (r = res)) as [->|]; [done|exfalso; by apply Hn]).
  - exfalso. apply Hout.
    enough (Hk : keeps (same_quarantine (quarantined (state h))) (command action params))
      by (specialize (Hk h w eq_refl); unfold same_quarantine in Hk; by rewrite Hk).
    unfold command. by keep.
Qed.

Lemma begin_quarantine resources grants h w :
  quarantined (state (begin resources grants h w).1.2) = quarantined (state h).
Proof.
  destruct (begin_cases resources grants h w) as [[_ ->]|(_ & _ & Hc)]; [done|].
  destruct Hc as [(_ & _ & ->)|[(w' & _ & ->)|(w' & _ & _ & ->)]];
    cbn [snd]; rewrite ?persist_state; done.
Qed.

Lemma drop_quarantine permit h w :
  quarantined (state (drop_permit permit h w).1) = quarantined (state h).
Proof.
  unfold drop_permit. destruct permit; [done|].
  set (h' := on_state _ h). pose proof (persist_state h' w) as Hs.
  destruct (persist h' w) as [[o h''] w'']. simpl in *. by rewrite Hs.
Qed.

(** *** A resource that is not available is refused everywhere *)

Lemma begin_unavailable resources grants h w r :
  r ∈ resources -> r ∈ active (state h) \/ r ∈ quarantined (state h) ->
  is_ok (begin resources grants h w).1.1 = false /\ (begin resources grants h w).1.2 = h.
Proof.
  intros Hr Hun. destruct (begin_cases resources grants h w) as [?|(Hav & _ & _)]; [done|]. exfalso.
  rewrite Forall_forall in Hav. specialize (Hav r). rewrite elem_of_sort_dedup in Hav.
  destruct (Hav Hr) as [Hok%available_Ok _]. tauto.
Qed.

Lemma command_unavailable action params h w r :
  action = "resource.lease.acquire" \/ action = "resource.lease.release" ->
  string_param params "resource" = Ok r ->
  r ∈ active (state h) \/ r ∈ quarantined (state h) ->
  is_ok (command action params h w).1.1 = false /\ (command action params h w).1.2 = h.
Proof.
  intros Ha Hr Hun.
  assert (Hav : available r (state h) <> Ok tt) by (intros ?%available_Ok; tauto).
  unfold command, lease_command. run_handler.
  destruct Ha as [-> | ->]; simpl; rewrite Hr;
    (destruct (string_param params "owner") as [owner|e|]; simpl; [|done..]);
    (destruct (negb _); [|done]); simpl; by destruct (available r (state h)) as [[]|e|].
Qed.

(** ** What the arbitration promises *)

(** Exclusive use.  In every state the executor can reach, whatever the
    controllers ask for, whenever permits are dropped, writes fail or the
    process crashes, no resource is covered by two outstanding permits; and for
    a resource that is covered, a further [begin] is refused and so are
    [acquire] and [release], all without touching the host. *)
Theorem outstanding_permits_exclusive p S r :
  reachable p S -> r ∈ concat (permits S) ->
  NoDup (concat (permits S)) /\
  (forall resources grants w, r ∈ resources ->
     is_ok (begin resources grants (host_of S) w).1.1 = false /\
     (begin resources grants (host_of S) w).1.2 = host_of S) /\
  (forall action params w,
     action = "resource.lease.acquire" \/ action = "resource.lease.release" ->
     string_param params "resource" = Ok r ->
     is_ok (command action params (host_of S) w).1.1 = false /\
     (command action params (host_of S) w).1.2 = host_of S).
Proof.
  intros (Hnd & Hact & _)%arbitration_reachable_inv Hr. split; [done|]. split.
  - intros resources grants w Hin. eapply begin_unavailable; [done|]. left. auto.
  - intros action params w Ha Hres. eapply command_unavailable; [done..|]. left. auto.
Qed.

(** A crash fails closed.  A resource whose operation was running when the
    executor died is quarantined in the next process; a quarantined resource
    is refused to every [begin]; and in any reachable state the only step that
    lifts a quarantine, a further crash included, is a [recover] command that
    names the resource and confirms that its execution has stopped. *)
Theorem crash_quarantines_until_recovery p S r :
  reachable p S ->
  (r ∈ concat (permits S) -> r ∈ quarantined (open p (disk (host_of S)))) /\
  (r ∈ quarantined (state (host_of S)) ->
   (forall resources grants w, r ∈ resources ->
      is_ok (begin resources grants (host_of S) w).1.1 = false) /\
   forall S', step S S' -> r ∉ quarantined (state (host_of S')) ->
     exists action params w, action = "resource.lease.recover" /\
       string_param params "resource" = Ok r /\ confirmed params /\
       host_of S' = (command action params (host_of S) w).1.2).
Proof.
  intros (_ & _ & Hdisk & Hq & _)%arbitration_reachable_inv. split.
  - intros Hr%Hdisk. unfold on_disk in Hr. simpl. by destruct (disk (host_of S)).
  - intros Hr. split.
    { intros resources grants w Hin. eapply begin_unavailable; [done|]. by right. }
    intros S' Hstep Hout.
    destruct Hstep as [S action params w|S rs grants w permit Hok|S rs grants w Hno|h ps permit ps' w|S p' Hp];
      cbn [host_of] in *.
    + destruct (command_quarantine _ _ _ _ _ Hr Hout) as (Ha & Hres & Hc).
      by exists action, params, w.
    + by rewrite begin_quarantine in Hout.
    + by rewrite begin_quarantine in Hout.
    + by rewrite drop_quarantine in Hout.
    + exfalso. apply Hout. apply Hq in Hr. unfold on_disk in Hr. simpl.
      by destruct (disk (host_of S)).
Qed.

(** Leases are respected.  An operation is admitted on a resource whose
    lease stays live throughout the call only with a grant that names that
    resource and carries the lease's owner and token; and a grant for anything
    the operation does not touch is refused. *)
Theorem begin_respects_leases resources grants h w permit :
  (begin resources grants h w).1.1 = Ok permit ->
  (forall r, r ∈ permit <-> r ∈ resources) /\
  (forall r l, r ∈ resources -> LeaseTable.get r (table (state h)) = Some l ->
     (forall i, clock w i < Lease.expires_at l) ->
     exists grant owner token, grant ∈ grants /\ names r grant = true /\
       string_param grant "owner" = Ok owner /\ string_param grant "token" = Ok token /\
       Lease.owner l = owner /\ LeaseTable.token_matches (Lease.token l) token = true) /\
  (forall grant, grant ∈ grants -> exists r, r ∈ resources /\ names r grant = true).
Proof.
  intros Hok. destruct (begin_cases resources grants h w) as [[Hf _]|(Hav & Hsc & Hc)].
  { by rewrite Hok in Hf. }
  assert (permit = sort_dedup resources) as ->.
  { destruct Hc as [(H1 & _)|[(w' & _ & H1)|(w' & _ & H1 & _)]].
    - rewrite H1 in Hok. by injection Hok.
    - rewrite H1 in Hok. by injection Hok.
    - by rewrite Hok in H1. }
  split; [apply elem_of_sort_dedup|]. split.
  - intros r l Hr Hl Hlive. rewrite Forall_forall in Hav.
    destruct (Hav r) as [_ Had]; [by apply elem_of_sort_dedup|]. by apply Had.
  - intros grant (r & Hr & Hn)%Hsc. exists r. by rewrite <- elem_of_sort_dedup.
Qed.

End system.

(** ** Witnesses *)

#[local] Instance plain_sha : Sha256 := fun s => s.

Definition sample_world (ok : bool) : world :=
  World (fun _ => 1000) (fun n => pretty n) (fun _ => ok) 0 0 0.

(** One controller leased [tunnel] and runs an operation on it. *)
Definition sample_acquire : host :=
  (command "resource.lease.acquire"
     (json_object [("resource", vstr "tunnel"); ("owner", vstr "a")])
     (host_of (initial "resources.json")) (sample_world true)).1.2.

Definition sample_grant : Value :=
  json_object [("resource", vstr "tunnel"); ("owner", vstr "a"); ("token", vstr "token_1")].

Definition sample : system :=
  System (begin ["tunnel"] [sample_grant] sample_acquire (sample_world true)).1.2 [["tunnel"]].

Lemma arbitration_sample_reachable : reachable "resources.json" sample.
Proof.
  unfold reachable. eapply rtc_l.
  { exact (step_command (initial "resources.json") "resource.lease.acquire"
      (json_object [("resource", vstr "tunnel"); ("owner", vstr "a")]) (sample_world true)). }
  eapply rtc_l; [|apply rtc_refl].
  exact (step_begin (System sample_acquire []) ["tunnel"] [sample_grant] (sample_world true)
    ["tunnel"] ltac:(vm_compute; reflexivity)).
Defined.

Lemma outstanding_permits_exclusive_witness :
  is_ok (begin ["tunnel"] [sample_grant] (host_of sample) (sample_world true)).1.1 = false.
Proof.
  apply (outstanding_permits_exclusive "resources.json" sample "tunnel").
  - exact arbitration_sample_reachable.
  - vm_compute. by left.
  - by left.
Defined.

Lemma crash_quarantines_until_recovery_witness :
  "tunnel" ∈ quarantined (open "resources.json" (disk (host_of sample))).
Proof.
  apply (crash_quarantines_until_recovery "resources.json" sample "tunnel").
  - exact arbitration_sample_reachable.
  - vm_compute. by left.
Defined.

Lemma begin_respects_leases_witness :
  exists grant owner token, grant ∈ [sample_grant] /\ names "tunnel" grant = true /\
    string_param grant "owner" = Ok owner /\ string_param grant "token" = Ok token.
Proof.
  destruct (begin_respects_leases ["tunnel"] [sample_grant] sample_acquire (sample_world true)
    ["tunnel"] ltac:(vm_compute; reflexivity)) as (_ & Hl & _).
  destruct (LeaseTable.get "tunnel" (table (state sample_acquire))) as [l|] eqn:Hget;
    [|vm_compute in Hget; discriminate].
  destruct (Hl "tunnel" l) as (grant & owner & token & H1 & H2 & H3 & H4 & _).
  - by left.
  - exact Hget.
  - intros i. vm_compute in Hget. injection Hget as <-. vm_compute. reflexivity.
  - by exists grant, owner, token.
Defined.

(** When the state file cannot be written, [begin] reports the failure but has
    already marked the resources: no permit is left whose drop would free them,
    and every later [begin] finds them busy. *)
Example begin_persist_failure_leaks :
  let h := host_of (initial "resources.json") in
  let r := begin ["tunnel"] [] h (sample_world false) in
  let r' := begin ["tunnel"] [] r.1.2 (sample_world true) in
  r.1.1 = Err (RpcError.new "RESOURCE_STATE_FAILED" "io error") /\
  r'.1.1 = Err (RpcError.new "RESOURCE_BUSY" "operation is still executing on tunnel").
Proof. vm_compute. split; reflexivity. Qed.

End Resources.
