(* ===== verification/Enforcement.v ===== *)
(** * Fenced authority at the executor ([crates/workbench-runtime/src/executor.rs])

    A mutating request carries [_authority]: for each resource it works on, the
    controller that speaks, a fence and an expiry.  [enforce_authority] checks
    that the entries name exactly the resources of the capability's contract and
    that no workspace has been acted on under a later fence, records the fences
    and writes them down before the capability runs.  The same state keeps the
    read grants. *)

From Stdlib Require Import Ascii String.
From S2P Require Import Prelude RustStd Json Protocol Schema Leases Contracts Templates.
From S2P Require Import Catalog Arbitration.

Module FenceRecord.
Record t := mk {
  controller_id : string;
  fence : Z;
}.
End FenceRecord.

Module ExecutorFences.
Record t := mk {
  resources : gmap string FenceRecord.t;
  read_grants : list ReadGrant.t;
}.
Definition default : t := mk ∅ [].
Definition with_resources (r : gmap string FenceRecord.t) (f : t) : t := mk r (read_grants f).
Definition with_read_grants (g : list ReadGrant.t) (f : t) : t := mk (resources f) g.
End ExecutorFences.

Module Fences.
Import Catalog.

(** An executor without a state path ([fences] is [None]) keeps no fences. *)
Record host := Host {
  id : string;
  target : target_os;
  fences : option ExecutorFences.t;
  file : option ExecutorFences.t;
}.
Definition set_fences (f : ExecutorFences.t) (h : host) : host := Host (id h) (target h) (Some f) (file h).
Definition set_file (f : ExecutorFences.t) (h : host) : host := Host (id h) (target h) (fences h) (Some f).

(** What [open_with_grantable] reads: no file, no fences yet. *)
Definition open (id : string) (target : target_os) (file : option ExecutorFences.t) : host :=
  Host id target (Some (default ExecutorFences.default file)) file.

Definition handler := M host RpcError.t.

(** The file is replaced as a whole or not at all. *)
Definition persist_fences : handler unit :=
  h ← get;
  match fences h with
  | None => mret tt
  | Some f =>
      ok ← write_ok;
      if (ok : bool) then put (set_file f h) else throw (RpcError.new "FENCE_STATE_FAILED" "io error")
  end.

Definition on_fences (g : ExecutorFences.t -> ExecutorFences.t) (h : host) : host :=
  Host (id h) (target h) (g <$> fences h) (file h).

(** ** What a request is *)

Definition canonical (action : string) : string :=
  if decide (action = "fs.write") then "filesystem.write"
  else if decide (action = "fs.patch") then "filesystem.patch"
  else if decide (action = "fs.remove") then "filesystem.remove"
  else if decide (action = "fs.restore") then "filesystem.restore"
  else action.

Definition find_contract (os : target_os) (name : string) : option CapabilityDescriptor.t :=
  bfind (fun c => bool_decide (CapabilityDescriptor.name c = name)) (capability_catalog os).

Section enforcement.
Context `{!Text}.
Variable fuel : nat.

Definition lock_names (params : Value) (locks : list LockTemplate.t) : outcome RpcError.t (list string) :=
  collect (fun lock => render_authority_resource fuel (LockTemplate.key lock) params) locks.

Definition expected_resources (executor_id : string) (c : CapabilityDescriptor.t) (params : Value) :
    outcome RpcError.t (list string) :=
  own ← match CapabilityDescriptor.authority c with
        | CapabilityAuthority.None | CapabilityAuthority.DesktopSession => Ok []
        | CapabilityAuthority.WorkspaceDriver =>
            session ← required_str params "_workspaceSessionId"; Ok ["workspace:" +:+ session]
        | CapabilityAuthority.ResourceLease resource =>
            rendered ← render_authority_resource fuel (Str.replace "${executorId}" executor_id resource) params;
            Ok [rendered]
        end;
  locks ← lock_names params (CapabilityDescriptor.locks c);
  Ok (Resources.sort_dedup (own ++ locks)).

Definition required_authority (message : string) : RpcError.t :=
  RpcError.new "EXECUTOR_AUTHORITY_REQUIRED" message.

Definition workspace_key (controller_id resource : string) : string := controller_id +:+ "/" +:+ resource.

Definition stale (key : string) (current : FenceRecord.t) : RpcError.t :=
  RpcError.new "STALE_EXECUTOR_FENCE"
    ("resource " +:+ key +:+ " is fenced at " +:+ pretty (FenceRecord.fence current) +:+
     " by " +:+ FenceRecord.controller_id current).

(** The first loop: one entry against the table. *)
Definition check_authority (table : gmap string FenceRecord.t) (authority : Value) : handler unit :=
  controller_id ← lift (required_str authority "controllerId");
  resource ← lift (required_str authority "resource");
  if negb (Str.starts_with "workspace:" resource) then mret tt
  else
    let key := workspace_key controller_id resource in
    _ ← (match u64_param authority "expiresAt" with
         | Some expiry =>
             n ← now;
             guard (negb (expiry <=? n)) (RpcError.new "DRIVER_LEASE_EXPIRED" "driver expired before execution")
         | None => mret tt
         end);
    fence ← lift (ok_or (RpcError.new "INVALID_AUTHORITY" "fence is required") (u64_param authority "fence"));
    _ ← guard (negb (fence =? 0)) (RpcError.new "INVALID_AUTHORITY" "fence must be positive");
    match table !! key with
    | Some current =>
        guard (negb ((fence <? FenceRecord.fence current) ||
                     ((fence =? FenceRecord.fence current) &&
                      negb (bool_decide (controller_id = FenceRecord.controller_id current)))))
          (stale key current)
    | None => mret tt
    end.

Fixpoint check_authorities (table : gmap string FenceRecord.t) (authorities : list Value) : handler unit :=
  match authorities with
  | [] => mret tt
  | authority :: rest => _ ← check_authority table authority; check_authorities table rest
  end.

(** The second loop. *)
Definition record_authority (authority : Value) : handler unit :=
  controller_id ← lift (required_str authority "controllerId");
  resource ← lift (required_str authority "resource");
  if negb (Str.starts_with "workspace:" resource) then mret tt
  else
    fence ← lift (match as_u64 (vindex authority "fence") with Some fence => Ok fence | None => Panic end);
    modify (on_fences (fun f => ExecutorFences.with_resources
      (<[workspace_key controller_id resource := FenceRecord.mk controller_id fence]>
         (ExecutorFences.resources f)) f)).

Fixpoint record_authorities (authorities : list Value) : handler unit :=
  match authorities with
  | [] => mret tt
  | authority :: rest => _ ← record_authority authority; record_authorities rest
  end.

(** The entries cover the contract's resources, one each. *)
Definition covers (expected supplied : list string) : bool :=
  bool_decide (length expected = length supplied) &&
  forallb (fun resource => bool_decide (resource ∈ supplied)) expected.

Definition enforce_fences (table : ExecutorFences.t) (executor_id name : string)
    (c : CapabilityDescriptor.t) (params : Value) : handler unit :=
  authorities ← lift (ok_or (required_authority
                       ("mutating capability " +:+ name +:+ " requires fenced authority"))
                       (vget params "_authority" ≫= as_array));
  _ ← guard (negb (bool_decide (authorities = [])))
        (required_authority "authority must cover at least one resource");
  expected ← lift (expected_resources executor_id c params);
  supplied ← lift (collect (fun authority => required_str authority "resource") authorities);
  _ ← guard (covers expected supplied)
        (RpcError.new "EXECUTOR_AUTHORITY_MISMATCH" "authority resources do not match capability locks");
  _ ← check_authorities (ExecutorFences.resources table) authorities;
  _ ← record_authorities authorities;
  persist_fences.

(** Tunnel operations arbitrate inside the executor; relay chunks keep the
    reservation of their operation. *)
Definition enforce_lease (name : string) (params : Value) : handler unit :=
  if Str.starts_with "tunnel." name || Str.starts_with "artifact.relay." name then mret tt
  else
    match vget params "_resourceLeases" ≫= as_array with
    | None | Some [] =>
        throw (RpcError.new "RESOURCE_LEASE_REQUIRED" "resource operation requires an Executor-issued grant")
    | Some _ => mret tt
    end.

Definition enforce_authority (action : string) (params : Value) : handler unit :=
  h ← get;
  match fences h with
  | None => mret tt
  | Some table =>
      let name := canonical action in
      match find_contract (target h) name with
      | None => mret tt
      | Some c =>
          match CapabilityDescriptor.authority c with
          | CapabilityAuthority.None => mret tt
          | CapabilityAuthority.ResourceLease _ => enforce_lease name params
          | _ => enforce_fences table (id h) name c params
          end
      end
  end.

(** ** The life of the fences

    Requests are checked one after the other under the mutex; the read-grant
    actions rewrite the grants and write the same file; a restart opens what the
    file holds. *)

Definition rewrite_grants (grants : list ReadGrant.t) : handler unit :=
  _ ← modify (on_fences (ExecutorFences.with_read_grants grants));
  persist_fences.

Inductive step : host -> host -> Prop :=
  | step_enforce h action params w : step h (enforce_authority action params h w).1.2
  | step_grants h grants w : step h (rewrite_grants grants h w).1.2
  | step_restart h : step h (open (id h) (target h) (file h)).

Definition lifetime : host -> host -> Prop := rtc step.
End enforcement.

(** ** What the table says of a workspace *)

Definition table_of (f : option ExecutorFences.t) : gmap string FenceRecord.t :=
  from_option ExecutorFences.resources ∅ f.
Definition fence_of (table : gmap string FenceRecord.t) (key : string) : option Z :=
  FenceRecord.fence <$> table !! key.

(** The fence of [key] is known, and at least [f]. *)
Definition at_least (table : gmap string FenceRecord.t) (key : string) (f : Z) : Prop :=
  exists g, fence_of table key = Some g /\ f <= g.

(** Nothing goes back, and nothing is forgotten. *)
Definition advances (table table' : gmap string FenceRecord.t) : Prop :=
  forall key f, at_least table key f -> at_least table' key f.

#[global] Instance advances_preorder : PreOrder advances.
Proof. split; [by intros t key f|]. intros t1 t2 t3 H12 H23 key f Hf. by apply H23, H12. Qed.

(** An entry for a workspace. *)
Definition speaks (authority : Value) (controller_id resource : string) (fence : Z) : Prop :=
  required_str authority "controllerId" = Ok controller_id /\
  required_str authority "resource" = Ok resource /\
  Str.starts_with "workspace:" resource = true /\
  u64_param authority "fence" = Some fence.

(** ** The two loops *)

(** An entry [check_authority] lets pass. *)
Definition passes (table : gmap string FenceRecord.t) (authority : Value) : Prop :=
  exists controller_id resource,
    required_str authority "controllerId" = Ok controller_id /\
    required_str authority "resource" = Ok resource /\
    (Str.starts_with "workspace:" resource = true ->
     exists fence, u64_param authority "fence" = Some fence /\
       forall g, fence_of table (workspace_key controller_id resource) = Some g -> g <= fence).

Lemma check_authority_Ok table authority h w h' w' :
  check_authority table authority h w = (Ok tt, h', w') -> h' = h /\ passes table authority.
Proof.
  unfold check_authority, passes. intros Hrun. ok_inv Hrun. rename a into cid, a0 into resource.
  destruct (Str.starts_with "workspace:" resource) eqn:Hs; simpl in Hok2; ok_inv Hok2;
    [|split; [done|]; exists cid, resource; split_and!; [done..|congruence]].
  assert (s = h) as ->.
  { destruct (u64_param authority "expiresAt"); ok_inv Hok0; done. }
  apply ok_or_Ok in Hok2. unfold fence_of.
  assert (h' = h /\ forall g, FenceRecord.fence <$> table !! workspace_key cid resource = Some g -> g <= a0)
    as [-> Hmax].
  { destruct (table !! _) as [current|]; ok_inv Hok5; (split; [done|]); intros g; [|done].
    intros [= <-]. apply negb_true_iff, orb_false_iff in Hok5 as [Hlt _]. lia. }
  split; [done|]. exists cid, resource. split_and!; [done..|]. intros _. by exists a0.
Qed.

Lemma check_authorities_Ok table authorities h w h' w' :
  check_authorities table authorities h w = (Ok tt, h', w') -> h' = h /\ Forall (passes table) authorities.
Proof.
  revert h w. induction authorities as [|a rest IH]; intros h w Hrun; simpl in Hrun; ok_inv Hrun; [done|].
  destruct a0. apply check_authority_Ok in Hok as [-> Hp]. apply IH in Hok0 as [-> Hr].
  split; [done|]. by constructor.
Qed.

(** Checking changes nothing. *)
Lemma keeps_check_authorities (I : host -> Prop) table authorities :
  keeps I (check_authorities table authorities).
Proof.
  induction authorities as [|a rest IH]; simpl; [auto with keeps|].
  apply keeps_bind; [|done]. unfold check_authority. keep.
Qed.

(** The record an entry leaves, if it is for a workspace. *)
Definition recorded (authority : Value) : option (string * FenceRecord.t) :=
  match required_str authority "controllerId", required_str authority "resource" with
  | Ok controller_id, Ok resource =>
      if Str.starts_with "workspace:" resource then
        fence ← u64_param authority "fence";
        Some (workspace_key controller_id resource, FenceRecord.mk controller_id fence)
      else None
  | _, _ => None
  end.

Definition record_all (authorities : list Value) (table : gmap string FenceRecord.t) :
    gmap string FenceRecord.t :=
  foldl (fun t kr => <[kr.1 := kr.2]> t) table (omap recorded authorities).

Lemma as_u64_index v k : as_u64 (vindex v k) = u64_param v k.
Proof. unfold u64_param, vindex. by destruct (vget v k). Qed.

Lemma on_fences_comp g1 g2 h : on_fences g2 (on_fences g1 h) = on_fences (g2 ∘ g1) h.
Proof. unfold on_fences. simpl. by destruct (fences h). Qed.

Lemma record_all_cons a rest table :
  record_all (a :: rest) table =
  record_all rest (match recorded a with Some kr => <[kr.1 := kr.2]> table | None => table end).
Proof. unfold record_all. simpl. by destruct (recorded a). Qed.

Lemma record_authority_run table a h w :
  passes table a ->
  record_authority a h w =
  (Ok tt, match recorded a with
          | Some kr => on_fences (fun f => ExecutorFences.with_resources
                         (<[kr.1 := kr.2]> (ExecutorFences.resources f)) f) h
          | None => h
          end, w).
Proof.
  intros (cid & resource & Hc & Hr & Hf). unfold record_authority, recorded. run_handler.
  rewrite Hc, Hr. destruct (Str.starts_with "workspace:" resource); simpl; [|done].
  destruct (Hf eq_refl) as (fence & Hfence & _). by rewrite as_u64_index, Hfence.
Qed.

Lemma record_authorities_run table authorities h w :
  Forall (passes table) authorities ->
  record_authorities authorities h w =
  (Ok tt, on_fences (fun f => ExecutorFences.with_resources
            (record_all authorities (ExecutorFences.resources f)) f) h, w).
Proof.
  intros Hp. revert h. induction Hp as [|a rest Ha _ IH]; intros h.
  { cbn. f_equal. f_equal. unfold on_fences. by destruct h as [? ? [[]|] ?]. }
  cbn [record_authorities]. unfold mbind, M_bind. rewrite (record_authority_run table) by done.
  rewrite IH. do 2 f_equal. unfold on_fences. destruct h as [? ? [[r g]|] ?]; [|by destruct (recorded a)].
  simpl. rewrite record_all_cons. by destruct (recorded a).
Qed.

Lemma record_all_advances table authorities :
  Forall (passes table) authorities -> advances table (record_all authorities table).
Proof.
  intros Hp key f (g & Hg & Hle).
  assert (forall t, at_least t key g -> at_least (record_all authorities t) key g) as Hall.
  2:{ destruct (Hall table) as (g' & ? & ?); [by exists g|]. exists g'. split; [done|lia]. }
  induction Hp as [|a rest (cid & resource & Hc & Hr & Hf) _ IH]; [done|]. intros t Ht.
  rewrite record_all_cons. apply IH. unfold recorded. rewrite Hc, Hr.
  destruct (Str.starts_with "workspace:" resource) eqn:Hs; [|done].
  destruct (Hf eq_refl) as (fence & Hfence & Hmax). rewrite Hfence. simpl.
  destruct (decide (workspace_key cid resource = key)) as [Hk|Hk].
  - exists fence. unfold fence_of. rewrite Hk, lookup_insert_eq. split; [done|].
    apply Hmax. by rewrite Hk.
  - destruct Ht as (g' & Hg' & ?). exists g'. unfold fence_of in *. by rewrite lookup_insert_ne.
Qed.

(** ** Resources and their names *)

Lemma collect_Ok {A B} (f : A -> outcome RpcError.t B) l ys :
  collect f l = Ok ys <-> Forall2 (fun x y => f x = Ok y) l ys.
Proof.
  revert ys. induction l as [|x l IH]; intros ys; simpl.
  - split; [by intros [= <-]|]. by inversion 1.
  - rewrite bind_Ok. split.
    + intros (y & Hy & (ys' & Hys & [= <-])%bind_Ok). constructor; [done|]. by apply IH.
    + inversion 1 as [|? y ? ys' Hy Hys]; subst. exists y. split; [done|]. apply bind_Ok.
      exists ys'. split; [by apply IH|done].
Qed.

Lemma covers_perm expected supplied :
  NoDup expected -> covers expected supplied = true -> expected ≡ₚ supplied.
Proof.
  unfold covers. intros Hnd [Hl%bool_decide_eq_true Hin]%andb_true_iff.
  apply submseteq_length_Permutation; [|lia]. apply NoDup_submseteq; [done|].
  intros r Hr. rewrite forallb_forall in Hin. by apply list_elem_of_In, Hin, bool_decide_eq_true in Hr.
Qed.

(** A loop that starts from literal text keeps it in front. *)
Lemma slot_loop_prefix `{!Text} missing fuel template pre rest params r :
  Str.count_char "$" pre = 0%nat ->
  slot_loop missing fuel template (pre +:+ rest) params = Some (Ok r) -> exists t, r = pre +:+ t.
Proof.
  intros Hpre. revert rest. induction fuel as [|fuel IH]; intros rest; [done|]. simpl.
  destruct (Str.find "${" (pre +:+ rest)) as [i|] eqn:Hf; [|intros [= <-]; by exists rest].
  destruct (Str.find "}" _); [|done]. destruct (vget params _) as [v|]; [|done].
  assert (exists k, i = (String.length pre + k)%nat) as [k ->].
  { clear -Hpre Hf. revert i Hf. induction pre as [|c pre IHp]; intros i Hf; [by exists i|].
    unfold Str.count_char in *. simpl in *. destruct (decide (c = "$"%char)) as [->|Hne]; [done|].
    rewrite decide_False in Hf by congruence.
    change (String.append pre rest) with (pre +:+ rest) in Hf.
    destruct (Str.find "${" (pre +:+ rest)) as [j|]; [|done]. injection Hf as <-.
    destruct (IHp Hpre j eq_refl) as [k ->]. by exists k. }
  assert (Str.take (String.length pre + k) (pre +:+ rest) = pre +:+ Str.take k rest) as ->.
  { clear. induction pre as [|c pre IHp]; [done|]. simpl. rewrite IHp. reflexivity. }
  rewrite Str.app_assoc. apply IH.
Qed.

(** No lock of the catalog can be taken for a workspace: the text in front of its
    first slot already differs from ["workspace:"]. *)
Definition literal_prefix (template : string) : string :=
  match Str.find "$" template with Some i => Str.take i template | None => template end.
Definition private_lock (template : string) : bool :=
  let pre := literal_prefix template in
  bool_decide (Str.count_char "$" pre = 0%nat) &&
  bool_decide (template = pre +:+ Str.drop (String.length pre) template) &&
  negb (Str.starts_with "workspace:" pre) && negb (Str.starts_with pre "workspace:").

Lemma starts_with_apart p q t :
  Str.starts_with p q = false -> Str.starts_with q p = false -> Str.starts_with p (q +:+ t) = false.
Proof.
  revert q. induction p as [|a p IH]; intros [|b q]; try done. simpl. intros Hp Hq.
  destruct (decide (a = b)) as [->|Hne]; [|done].
  rewrite decide_True in Hq by done. change (String.append q t) with (q +:+ t). by apply IH.
Qed.

Lemma private_lock_rendered `{!Text} fuel template params r :
  private_lock template = true -> render_authority_resource fuel template params = Ok r ->
  Str.starts_with "workspace:" r = false.
Proof.
  unfold private_lock. rewrite !andb_true_iff, !bool_decide_eq_true, !negb_true_iff.
  intros [[[Hpre Htemplate] H1] H2] Hr. unfold render_authority_resource in Hr.
  rewrite authority_loop_slots in Hr.
  destruct (slot_loop _ _ _ _ _) as [o|] eqn:Hloop; simpl in Hr; [subst o|done].
  rewrite Htemplate in Hloop. rewrite Htemplate in Hloop at 1.
  apply slot_loop_prefix in Hloop as [t ->]; [|done]. by apply starts_with_apart.
Qed.

Lemma find_contract_elem os name c : find_contract os name = Some c -> c ∈ capability_catalog os.
Proof. by intros [_ ?]%bfind_Some. Qed.

Section results.
Context `{!Text}.
Variable fuel : nat.

Lemma lock_names_private os name c params locks :
  find_contract os name = Some c -> lock_names fuel params (CapabilityDescriptor.locks c) = Ok locks ->
  Forall (fun r => Str.starts_with "workspace:" r = false) locks.
Proof.
  intros Hc%find_contract_elem Hl%collect_Ok.
  pose proof (catalog_forallb (fun c => forallb (fun l => private_lock (LockTemplate.key l))
    (CapabilityDescriptor.locks c)) os c ltac:(vm_compute; done) Hc) as Hp. simpl in Hp.
  rewrite forallb_forall in Hp. apply Forall_forall. intros r Hr.
  apply list_elem_of_lookup_1 in Hr as [i Hi].
  destruct (Forall2_lookup_r _ _ _ _ _ Hl Hi) as (lock & Hlock & Hrender).
  eapply private_lock_rendered; [|exact Hrender]. apply Hp, list_elem_of_In. by eapply list_elem_of_lookup_2.
Qed.

(** What an accepted request of a workspace capability has shown, and what the
    executor has written down. *)
Record accepted (h : host) (c : CapabilityDescriptor.t) (params : Value) (h' : host)
    (table : ExecutorFences.t) (authorities : list Value) (session : string) (locks : list string)
    (supplied : list string) : Prop := {
  acc_authorities : vget params "_authority" = Some (VArray authorities);
  acc_session : required_str params "_workspaceSessionId" = Ok session;
  acc_locks : lock_names fuel params (CapabilityDescriptor.locks c) = Ok locks;
  acc_supplied : collect (fun authority => required_str authority "resource") authorities = Ok supplied;
  acc_covers : supplied ≡ₚ Resources.sort_dedup (("workspace:" +:+ session) :: locks);
  acc_passes : Forall (passes (ExecutorFences.resources table)) authorities;
  acc_host : h' = set_file (ExecutorFences.with_resources
                    (record_all authorities (ExecutorFences.resources table)) table)
                  (on_fences (fun f => ExecutorFences.with_resources
                    (record_all authorities (ExecutorFences.resources f)) f) h);
}.

Lemma enforce_accepted action params h w h' w' table c :
  fences h = Some table -> find_contract (target h) (canonical action) = Some c ->
  CapabilityDescriptor.authority c = CapabilityAuthority.WorkspaceDriver ->
  enforce_authority fuel action params h w = (Ok tt, h', w') ->
  exists authorities session locks supplied,
    accepted h c params h' table authorities session locks supplied.
Proof.
  intros Ht Hc Ha Hrun. unfold enforce_authority in Hrun. ok_inv Hrun. rewrite Ht, Hc, Ha in Hok0.
  unfold enforce_fences in Hok0. ok_inv Hok0. rename a into authorities, a1 into expected, a2 into supplied.
  apply ok_or_Ok, as_array_Some in Hok. destruct a4, a5.
  apply check_authorities_Ok in Hok4 as [-> Hpass].
  rewrite (record_authorities_run (ExecutorFences.resources table)) in Hok5 by done.
  injection Hok5 as <- <-. unfold expected_resources in Hok1. rewrite Ha in Hok1.
  apply bind_Ok in Hok1 as (own & (session & Hsession & [= <-])%bind_Ok & Hlocks).
  apply bind_Ok in Hlocks as (locks & Hlocks & [= <-]).
  exists authorities, session, locks, supplied. split; try done.
  - symmetry. apply covers_perm; [apply Resources.NoDup_sort_dedup|done].
  - unfold persist_fences in Hok7. ok_inv Hok7. simpl in Hok4. rewrite Ht in Hok4. simpl in Hok4.
    ok_inv Hok4. case_match; [|done]. by injection Hok5 as <- _.
Qed.

Lemma recorded_speaks a kr :
  recorded a = Some kr ->
  exists cid r f, speaks a cid r f /\ kr = (workspace_key cid r, FenceRecord.mk cid f).
Proof.
  unfold recorded, speaks. intros Hr.
  destruct (required_str a "controllerId") as [cid|e|], (required_str a "resource") as [r|e'|]; try done.
  destruct (Str.starts_with "workspace:" r) eqn:Hs; [|done].
  destruct (u64_param a "fence") as [f|] eqn:Hf; [|done]. injection Hr as <-. by exists cid, r, f.
Qed.

Lemma speaks_recorded a cid r f :
  speaks a cid r f -> recorded a = Some (workspace_key cid r, FenceRecord.mk cid f).
Proof. intros (Hc & Hr & Hs & Hf). unfold recorded. by rewrite Hc, Hr, Hs, Hf. Qed.

Lemma record_all_lookup key rec l table :
  (forall b kr, b ∈ l -> recorded b = Some kr -> kr.1 = key -> kr.2 = rec) ->
  table !! key = Some rec \/ (exists a, a ∈ l /\ recorded a = Some (key, rec)) ->
  record_all l table !! key = Some rec.
Proof.
  revert table. induction l as [|b l IH]; intros table Hall Hsome.
  { destruct Hsome as [?|(a & Ha & _)]; [done|by apply not_elem_of_nil in Ha]. }
  rewrite record_all_cons. apply IH; [intros; eapply Hall; [by right|done..]|].
  destruct Hsome as [Ht|(a & [->|Ha]%elem_of_cons & Hrec)].
  - left. destruct (recorded b) as [[k v]|] eqn:Hb; [|done]. simpl.
    destruct (decide (k = key)) as [->|Hne]; [|by rewrite lookup_insert_ne].
    rewrite lookup_insert_eq. f_equal. by apply (Hall b (key, v)); [left|..].
  - left. rewrite Hrec. simpl. by rewrite lookup_insert_eq.
  - right. by exists a.
Qed.

(** The workspace entry is the only one, so what it says is what is recorded. *)
Lemma accepted_speaks c h params h' table authorities session locks supplied a cid r f :
  find_contract (target h) (CapabilityDescriptor.name c) = Some c ->
  accepted h c params h' table authorities session locks supplied ->
  a ∈ authorities -> speaks a cid r f ->
  r = "workspace:" +:+ session /\
  fence_of (record_all authorities (ExecutorFences.resources table)) (workspace_key cid r) = Some f.
Proof.
  intros Hc Hacc Hin Hsp.
  pose proof (lock_names_private _ _ _ _ _ Hc (acc_locks _ _ _ _ _ _ _ _ _ Hacc)) as Hpriv.
  pose proof (proj1 (collect_Ok _ _ _) (acc_supplied _ _ _ _ _ _ _ _ _ Hacc)) as Hsup.
  assert (NoDup supplied) as Hnd.
  { rewrite (acc_covers _ _ _ _ _ _ _ _ _ Hacc). apply Resources.NoDup_sort_dedup. }
  assert (forall b i cid' r' f', authorities !! i = Some b -> speaks b cid' r' f' ->
            supplied !! i = Some ("workspace:" +:+ session) /\ r' = "workspace:" +:+ session) as Hone.
  { intros b i cid' r' f' Hi (_ & Hr & Hs & _).
    destruct (Forall2_lookup_l _ _ _ _ _ Hsup Hi) as (x & Hx & Hreq). rewrite Hr in Hreq.
    injection Hreq as <-. assert (r' = "workspace:" +:+ session) as ->; [|done].
    assert (r' ∈ ("workspace:" +:+ session) :: locks) as Hin'.
    { apply Resources.elem_of_sort_dedup. rewrite <- (acc_covers _ _ _ _ _ _ _ _ _ Hacc).
      by eapply list_elem_of_lookup_2. }
    apply elem_of_cons in Hin' as [?|Hl]; [done|].
    rewrite Forall_forall in Hpriv. by rewrite (Hpriv _ Hl) in Hs. }
  apply list_elem_of_lookup_1 in Hin as [i Hi].
  destruct (Hone _ _ _ _ _ Hi Hsp) as [Hxi Hr]. split; [done|]. unfold fence_of.
  rewrite (record_all_lookup _ (FenceRecord.mk cid f)); [done| |].
  - intros b kr Hb Hrec _. apply recorded_speaks in Hrec as (cid' & r' & f' & Hsb & ->).
    apply list_elem_of_lookup_1 in Hb as [j Hj]. destruct (Hone _ _ _ _ _ Hj Hsb) as [Hxj _].
    assert (j = i) as ->; [by eapply NoDup_lookup|]. rewrite Hi in Hj. injection Hj as <-.
    apply speaks_recorded in Hsb, Hsp. simpl. congruence.
  - right. exists a. split; [by eapply list_elem_of_lookup_2|by apply speaks_recorded].
Qed.

Lemma find_contract_name os name c : find_contract os name = Some c -> CapabilityDescriptor.name c = name.
Proof. by intros [?%bool_decide_eq_true _]%bfind_Some. Qed.

(** ** Over a lifetime *)

(** What is in memory is at least as far as the file. *)
Definition sealed (h : host) : Prop :=
  fences h <> None /\ advances (table_of (file h)) (table_of (fences h)).

Definition forward (h h' : host) : Prop :=
  sealed h -> sealed h' /\ advances (table_of (file h)) (table_of (file h')) /\
              id h' = id h /\ target h' = target h.

#[local] Instance forward_preorder : PreOrder forward.
Proof.
  split; [by intros h|]. intros h1 h2 h3 H12 H23 Hs.
  destruct (H12 Hs) as (Hs2 & Ha2 & Hi2 & Ht2). destruct (H23 Hs2) as (Hs3 & Ha3 & Hi3 & Ht3).
  split; [done|]. split; [by etrans|]. split; congruence.
Qed.

Lemma forward_memory h g :
  (forall f, fences h = Some f ->
     advances (ExecutorFences.resources f) (ExecutorFences.resources (g f))) ->
  forward h (on_fences g h).
Proof.
  intros Hg [Hf Ha]. unfold sealed. simpl. destruct (fences h) as [f|] eqn:E; [|done].
  split; [|done]. split; [done|]. simpl in *. etrans; [exact Ha|by apply Hg].
Qed.

Lemma forward_persist h w : forward h (persist_fences h w).1.2.
Proof.
  unfold persist_fences. run_handler. destruct (fences h) as [f|] eqn:Hf; [|done].
  destruct (io_ok w (io_at w)); [|done]. intros [_ Ha]. unfold sealed. simpl in *.
  rewrite Hf in *. simpl in *. split; [|done]. by split.
Qed.

(** Check, record, persist. *)
Lemma forward_settle h table authorities :
  fences h = Some table ->
  from (forward h) h
    (_ ← check_authorities (ExecutorFences.resources table) authorities;
     _ ← record_authorities authorities; persist_fences).
Proof.
  intros Ht w. unfold mbind at 1, M_bind at 1.
  pose proof (keeps_check_authorities (fun s => s = h) (ExecutorFences.resources table) authorities h w eq_refl)
    as Hid.
  destruct (check_authorities _ authorities h w) as [[[[]|e|] h1] w1] eqn:Hrun; simpl in Hid; subst h1; [|done..].
  apply check_authorities_Ok in Hrun as [_ Hpass]. unfold mbind, M_bind.
  rewrite (record_authorities_run (ExecutorFences.resources table)) by done.
  etrans; [|apply forward_persist]. apply forward_memory. intros f Hf.
  assert (f = table) as -> by congruence. simpl. by apply record_all_advances.
Qed.

Lemma forward_enforce action params h w : forward h (enforce_authority fuel action params h w).1.2.
Proof.
  revert w. change (from (forward h) h (enforce_authority fuel action params)).
  unfold enforce_authority. apply from_get_bind.
  destruct (fences h) as [table|] eqn:Ht; [|by apply from_ret].
  destruct (find_contract (target h) (canonical action)) as [c|]; [|by apply from_ret].
  assert (forall name, from (forward h) h (enforce_fences fuel table (id h) name c params)) as Hfences.
  { intros name. unfold enforce_fences.
    apply from_lift_bind; [done|]. intros authorities _. apply from_guard_bind; [done|]. intros _.
    apply from_lift_bind; [done|]. intros expected _. apply from_lift_bind; [done|]. intros supplied _.
    apply from_guard_bind; [done|]. intros _. by apply forward_settle. }
  destruct (CapabilityDescriptor.authority c); [by apply from_ret|apply Hfences..|].
  unfold enforce_lease. by walk.
Qed.

Lemma forward_step h h' : step fuel h h' -> forward h h'.
Proof.
  destruct 1 as [h action params w|h grants w|h].
  - apply forward_enforce.
  - unfold rewrite_grants. unfold mbind, M_bind, modify. etrans; [|apply forward_persist].
    apply forward_memory. by intros f _.
  - intros [Hf Ha]. unfold open, sealed. simpl. by destruct (file h).
Qed.

Lemma lifetime_forward h h' : lifetime fuel h h' -> forward h h'.
Proof. induction 1 as [|h1 h2 h3 Hs _ IH]; [done|]. etrans; [by apply forward_step|exact IH]. Qed.

Lemma sealed_open executor_id os f : sealed (open executor_id os f).
Proof. split; [done|]. by destruct f. Qed.

(** A capability that changes the workspace. *)
Definition fenced (os : target_os) (action : string) : Prop :=
  exists c, find_contract os (canonical action) = Some c /\
            CapabilityDescriptor.authority c = CapabilityAuthority.WorkspaceDriver.

Definition authorities_of (params : Value) : list Value :=
  default [] (vget params "_authority" ≫= as_array).

Lemma enforce_records action params h w h' w' a cid r f :
  fences h <> None -> fenced (target h) action ->
  enforce_authority fuel action params h w = (Ok tt, h', w') ->
  a ∈ authorities_of params -> speaks a cid r f ->
  (forall g, fence_of (table_of (fences h)) (workspace_key cid r) = Some g -> g <= f) /\
  fence_of (table_of (file h')) (workspace_key cid r) = Some f /\ sealed h'.
Proof.
  intros Hf (c & Hc & Ha) Hrun Hin Hsp. destruct (fences h) as [table|] eqn:Ht; [|done].
  destruct (enforce_accepted _ _ _ _ _ _ _ _ Ht Hc Ha Hrun)
    as (authorities & session & locks & supplied & Hacc).
  unfold authorities_of in Hin. rewrite (acc_authorities _ _ _ _ _ _ _ _ _ Hacc) in Hin. simpl in Hin.
  rewrite <- (find_contract_name _ _ _ Hc) in Hc.
  destruct (accepted_speaks _ _ _ _ _ _ _ _ _ _ _ _ _ Hc Hacc Hin Hsp) as [_ Hrec].
  split.
  - pose proof (acc_passes _ _ _ _ _ _ _ _ _ Hacc) as Hp. rewrite Forall_forall in Hp.
    destruct (Hp _ Hin) as (cid' & r' & Hc' & Hr' & Hle). destruct Hsp as (Hc2 & Hr2 & Hs & Hf2).
    rewrite Hc2 in Hc'. rewrite Hr2 in Hr'. simplify_eq. destruct (Hle Hs) as (f' & Hf' & Hmax).
    rewrite Hf2 in Hf'. simplify_eq. exact Hmax.
  - rewrite (acc_host _ _ _ _ _ _ _ _ _ Hacc). split; [exact Hrec|]. unfold sealed. simpl. by rewrite Ht.
Qed.

(** Whoever acts on a workspace later acts under a fence that is not
    older.  When an executor with a state file has accepted a workspace
    capability under a controller's fence, then after any number of further
    requests, read-grant changes, failed writes and restarts it accepts no
    workspace capability under a smaller fence of that controller for that
    workspace. *)
Theorem accepted_fences_never_go_back executor_id os h1 action1 params1 w1 h2 w2 h3
    action2 params2 w3 h4 w4 a1 a2 cid r f1 f2 :
  lifetime fuel (open executor_id os None) h1 ->
  enforce_authority fuel action1 params1 h1 w1 = (Ok tt, h2, w2) -> fenced os action1 ->
  a1 ∈ authorities_of params1 -> speaks a1 cid r f1 ->
  lifetime fuel h2 h3 ->
  enforce_authority fuel action2 params2 h3 w3 = (Ok tt, h4, w4) -> fenced os action2 ->
  a2 ∈ authorities_of params2 -> speaks a2 cid r f2 ->
  f1 <= f2.
Proof.
  intros Hl1 Hrun1 Hf1 Hin1 Hsp1 Hl2 Hrun2 Hf2 Hin2 Hsp2.
  destruct (lifetime_forward _ _ Hl1 (sealed_open _ _ _)) as (Hs1 & _ & _ & Ht1).
  simpl in Ht1. rewrite <- Ht1 in Hf1.
  destruct (enforce_records _ _ _ _ _ _ _ _ _ _ (proj1 Hs1) Hf1 Hrun1 Hin1 Hsp1) as (_ & Hrec & Hs2).
  destruct (lifetime_forward _ _ Hl2 Hs2) as (Hs3 & Hadv & _ & Ht3).
  pose proof (forward_enforce action1 params1 h1 w1) as Hfw. rewrite Hrun1 in Hfw.
  destruct (Hfw Hs1) as (_ & _ & _ & Ht2). simpl in Ht2.
  assert (target h3 = os) as Ht by congruence. rewrite <- Ht in Hf2.
  destruct (enforce_records _ _ _ _ _ _ _ _ _ _ (proj1 Hs3) Hf2 Hrun2 Hin2 Hsp2) as (Hmax & _ & _).
  destruct (proj2 Hs3 (workspace_key cid r) f1) as (g & Hg & Hle).
  { apply Hadv. by exists f1. }
  specialize (Hmax _ Hg). lia.
Qed.

(** An accepted workspace capability comes with authority over exactly its
    contract's resources: the session's workspace and every lock, one entry
    each, in any order; and the file holds the fence of every workspace entry
    before the capability runs. *)
Theorem accepted_authority_covers_the_contract executor_id os h action params w h' w' c :
  lifetime fuel (open executor_id os None) h ->
  find_contract os (canonical action) = Some c ->
  CapabilityDescriptor.authority c = CapabilityAuthority.WorkspaceDriver ->
  enforce_authority fuel action params h w = (Ok tt, h', w') ->
  exists session locks,
    required_str params "_workspaceSessionId" = Ok session /\
    lock_names fuel params (CapabilityDescriptor.locks c) = Ok locks /\
    (Ok <$> Resources.sort_dedup (("workspace:" +:+ session) :: locks)) ≡ₚ
      (fun a => required_str a "resource") <$> authorities_of params /\
    (forall a cid r f, a ∈ authorities_of params -> speaks a cid r f ->
       r = "workspace:" +:+ session /\
       fence_of (table_of (file h')) (workspace_key cid r) = Some f).
Proof.
  intros Hl Hc Ha Hrun.
  destruct (lifetime_forward _ _ Hl (sealed_open _ _ _)) as (Hs & _ & _ & Ht). simpl in Ht.
  rewrite <- Ht in Hc. destruct (fences h) as [table|] eqn:Hf; [|by destruct Hs].
  destruct (enforce_accepted _ _ _ _ _ _ _ _ Hf Hc Ha Hrun)
    as (authorities & session & locks & supplied & Hacc).
  exists session, locks. pose proof Hacc as [Hau Hse Hlo Hsu Hcov _ Hh].
  unfold authorities_of. rewrite Hau. simpl. split_and!; [done..| |].
  - rewrite <- Hcov. apply collect_Ok in Hsu.
    replace ((fun a => required_str a "resource") <$> authorities) with (Ok (E := RpcError.t) <$> supplied);
      [done|]. clear -Hsu. induction Hsu as [|x y xs ys Hx _ IH]; [done|]. by rewrite !fmap_cons, Hx, IH.
  - intros a cid r f Hin Hsp. rewrite <- (find_contract_name _ _ _ Hc) in Hc.
    destruct (accepted_speaks _ _ _ _ _ _ _ _ _ _ _ _ _ Hc Hacc Hin Hsp) as [-> Hrec].
    split; [done|]. by rewrite Hh.
Qed.
End results.

(** ** Witnesses *)

Definition entry (cid resource : string) (fence : Z) : Value :=
  json_object [("controllerId", VString cid); ("resource", VString resource); ("fence", vnat fence);
               ("expiresAt", vnat 2000)].
Definition write_request (fence : Z) : Value :=
  json_object [("path", VString "/srv/a"); ("content", VString "hello");
               ("_workspaceSessionId", VString "s1");
               ("_authority", VArray [entry "c1" "workspace:s1" fence; entry "c1" "filesystem:/srv/a" 1])].
Definition quiet_world : world := World (fun _ => 1000) (fun i => pretty i) (fun _ => true) 0 0 0.

Abbreviation fresh_host := (open "node-a" Linux None).
Abbreviation run_write f h := (enforce_authority (H := plain_text) 4 "fs.write" (write_request f) h quiet_world).

Lemma sample_fenced : fenced Linux "fs.write".
Proof. exists (contract Linux "filesystem.write" Effect.Mutating). by vm_compute. Qed.

Abbreviation host_after := (run_write 5 fresh_host).1.2.
Abbreviation restarted_host := (open "node-a" Linux (file host_after)).

Lemma write_5_accepted : run_write 5 fresh_host = (Ok tt, host_after, (run_write 5 fresh_host).2).
Proof. apply ok_pair. vm_compute. done. Defined.
Lemma write_7_accepted : run_write 7 restarted_host = (Ok tt, (run_write 7 restarted_host).1.2, (run_write 7 restarted_host).2).
Proof. apply ok_pair. vm_compute. done. Defined.

Lemma entry_in_request fence : entry "c1" "workspace:s1" fence ∈ authorities_of (write_request fence).
Proof. left. Qed.
Lemma entry_speaks fence : speaks (entry "c1" "workspace:s1" fence) "c1" "workspace:s1" fence.
Proof. by split_and!. Qed.

Lemma accepted_fences_never_go_back_witness : 5 <= 7.
Proof.
  exact (accepted_fences_never_go_back (H := plain_text) 4 "node-a" Linux fresh_host "fs.write" (write_request 5)
    quiet_world host_after _ restarted_host "fs.write" (write_request 7) quiet_world _ _
    _ _ "c1" "workspace:s1" 5 7
    (rtc_refl _ _) write_5_accepted sample_fenced (entry_in_request 5) (entry_speaks 5)
    (rtc_once _ _ (step_restart (H := plain_text) 4 host_after)) write_7_accepted sample_fenced
    (entry_in_request 7) (entry_speaks 7)).
Defined.

Lemma accepted_authority_covers_the_contract_witness :
  exists session locks,
    required_str (write_request 5) "_workspaceSessionId" = Ok session /\
    lock_names (H := plain_text) 4 (write_request 5) [LockTemplate.mk "filesystem:${path}" LockMode.Exclusive] = Ok locks /\
    fence_of (table_of (file host_after)) "c1/workspace:s1" = Some 5.
Proof.
  destruct (accepted_authority_covers_the_contract (H := plain_text) 4 "node-a" Linux fresh_host "fs.write"
    (write_request 5) quiet_world host_after _ (contract Linux "filesystem.write" Effect.Mutating)
    (rtc_refl _ _) ltac:(by vm_compute) eq_refl write_5_accepted) as (session & locks & Hs & Hl & _ & Hf).
  exists session, locks. split; [exact Hs|]. split; [exact Hl|].
  exact (proj2 (Hf _ _ _ _ (entry_in_request 5) (entry_speaks 5))).
Defined.
End Fences.
