(* ===== verification/Executors.v ===== *)
(** * Requests at an executor ([crates/workbench-runtime/src/executor.rs])

    An executor serves requests concurrently.  Each takes a place in the pool of
    its execution class ([ExecutionCapacity::try_acquire]), then a permit for the
    resources of its contract ([resource_dispatch], [Resources::begin]), then
    shows its authority ([enforce_authority]), and only then runs the capability;
    dropping the permits undoes the first two.  Every method under a mutex is one
    step here, so the steps of different requests interleave freely.  Running the
    capability ([dispatch]) is the platform's affair and not modelled; the
    desktop queue in front of some actions is [Desktop]'s. *)

From Stdlib Require Import Ascii String.
From S2P Require Import Prelude RustStd Json Protocol Schema Leases Contracts Templates.
From S2P Require Import Catalog Arbitration Enforcement.

Module CapacityPool.
Record t := mk {
  maximum : Z;
  active : Z;
}.

Definition new (maximum : Z) : t := mk maximum 0.

Definition busy (maximum : Z) : RpcError.t :=
  {| RpcError.code := "EXECUTOR_BUSY";
     RpcError.message := "executor concurrency limit " +:+ pretty maximum +:+ " reached";
     RpcError.retryable := true; RpcError.details := VNull |}.

Definition try_acquire (p : t) : outcome RpcError.t unit * t :=
  if active p >=? maximum p then (Err (busy (maximum p)), p)
  else (Ok tt, mk (maximum p) (active p + 1)).

(** [ExecutionPermit::drop] *)
Definition release (p : t) : t := mk (maximum p) (saturating_sub (active p) 1).
End CapacityPool.

Module ExecutionCapacity.
Import Catalog.

Record t := mk {
  mutating : CapacityPool.t;
  readonly : CapacityPool.t;
  probes : CapacityPool.t;
}.

(** The digits of [str::parse::<usize>], on a 64-bit target. *)
Fixpoint digits (acc : Z) (s : string) : option Z :=
  match s with
  | EmptyString => Some acc
  | String c s' =>
      if Str.is_digit c then
        let acc := 10 * acc + Z.of_nat (nat_of_ascii c) - 48 in
        if acc <=? u64_max then digits acc s' else None
      else None
  end.
Definition parse_usize (s : string) : option Z :=
  match s with
  | EmptyString => None
  | String "+" EmptyString => None
  | String "+" s' => digits 0 s'
  | _ => digits 0 s
  end.

(** A limit set in the environment, if it is a positive number. *)
Definition configured (env : string -> option string) (key : string) : option Z :=
  value ← env key; limit ← parse_usize value; if 0 <? limit then Some limit else None.

Definition from_environment (env : string -> option string) (parallelism : option Z) : t :=
  let fallback := Z.min (Z.max (default 4 parallelism) 2) 32 in
  mk (CapacityPool.new (default fallback (configured env "WORKBENCH_EXECUTOR_MAX_CONCURRENCY")))
     (CapacityPool.new (default 8 (configured env "WORKBENCH_EXECUTOR_READONLY_CONCURRENCY")))
     (CapacityPool.new (default 4 (configured env "WORKBENCH_EXECUTOR_PROBE_CONCURRENCY"))).

(** The pool of a class; [Control] has none. *)
Definition pool (class : ExecutionClass) (c : t) : option CapacityPool.t :=
  match class with
  | Control => None
  | Probe => Some (probes c)
  | ReadOnly => Some (readonly c)
  | Mutating => Some (mutating c)
  end.
Definition set_pool (class : ExecutionClass) (p : CapacityPool.t) (c : t) : t :=
  match class with
  | Control => c
  | Probe => mk (mutating c) (readonly c) p
  | ReadOnly => mk (mutating c) p (probes c)
  | Mutating => mk p (readonly c) (probes c)
  end.

Definition try_acquire (class : ExecutionClass) (c : t) : outcome RpcError.t unit * t :=
  match pool class c with
  | None => (Ok tt, c)
  | Some p => let '(o, p') := CapacityPool.try_acquire p in (o, set_pool class p' c)
  end.
Definition release (class : ExecutionClass) (c : t) : t :=
  match pool class c with
  | None => c
  | Some p => set_pool class (CapacityPool.release p) c
  end.

(** The same pools, all places free: a new process. *)
Definition restarted (c : t) : t :=
  mk (CapacityPool.new (CapacityPool.maximum (mutating c)))
     (CapacityPool.new (CapacityPool.maximum (readonly c)))
     (CapacityPool.new (CapacityPool.maximum (probes c))).
End ExecutionCapacity.

Module ExecutorRuntime.
Import Catalog.

Record t := mk {
  authority : Fences.host;
  execution : ExecutionCapacity.t;
  resources : Resources.host;
}.
Definition id (e : t) : string := Fences.id (authority e).
Definition set_authority (a : Fences.host) (e : t) : t := mk a (execution e) (resources e).
Definition set_execution (c : ExecutionCapacity.t) (e : t) : t := mk (authority e) c (resources e).
Definition set_resources (r : Resources.host) (e : t) : t := mk (authority e) (execution e) r.

Definition handler := M t RpcError.t.

(** A method of a component, under the executor. *)
Definition on_authority {A} (m : Fences.handler A) : handler A := fun e w =>
  let '(o, a, w') := m (authority e) w in (o, set_authority a e, w').
Definition on_resources {A} (m : Resources.handler A) : handler A := fun e w =>
  let '(o, r, w') := m (resources e) w in (o, set_resources r e, w').

Section operations.
Context `{!Text, !Sha256}.
Variable fuel : nat.

Definition required_port (params : Value) (key : string) : outcome RpcError.t Z :=
  match u64_param params key with
  | Some value =>
      if (1 <=? value) && (value <=? 65535) then Ok value
      else Err (RpcError.new "INVALID_PARAMS" (key +:+ " must be a valid port"))
  | None => Err (RpcError.new "INVALID_PARAMS" (key +:+ " must be a valid port"))
  end.

(** The resources [resource_dispatch] asks a permit for. *)
Definition contract_resources (executor_id name : string) (c : CapabilityDescriptor.t) (params : Value) :
    outcome RpcError.t (list string) :=
  let rendered template :=
    render_authority_resource fuel (Str.replace "${executorId}" executor_id template) params in
  own ← match CapabilityDescriptor.authority c with
        | CapabilityAuthority.ResourceLease resource => r ← rendered resource; Ok [r]
        | _ => Ok []
        end;
  locks ← collect (fun lock => rendered (LockTemplate.key lock)) (CapabilityDescriptor.locks c);
  commands ← (if decide (name = "command.run") then command_resources params else Ok []);
  Ok (own ++ locks ++ commands).

Definition operation_resources (os : target_os) (executor_id action : string) (params : Value) :
    outcome RpcError.t (list string) :=
  let name := Fences.canonical action in
  declared ← match Fences.find_contract os name with
             | Some c => contract_resources executor_id name c params
             | None => Ok []
             end;
  if decide (name = "tunnel.ensure") then
    port ← required_port params "bindPort";
    Ok (declared ++ ["port:" +:+ executor_id +:+ ":" +:+ pretty port])
  else Ok declared.

Definition grants_of (params : Value) : list Value :=
  default [] (vget params "_resourceLeases" ≫= as_array).

Definition begin (action : string) (params : Value) : handler (list string) :=
  e ← get;
  names ← lift (operation_resources (Fences.target (authority e)) (id e) action params);
  on_resources (Resources.begin names (grants_of params)).

Definition enforce (action : string) (params : Value) : handler unit :=
  on_authority (Fences.enforce_authority fuel action params).

Definition drop_permit (permit : list string) (e : t) (w : world) : t :=
  set_resources (Resources.drop_permit permit (resources e) w).1 e.
Definition leave (class : ExecutionClass) (e : t) : t :=
  set_execution (ExecutionCapacity.release class (execution e)) e.

(** The permit is dropped when [m] is over, however it ends. *)
Definition with_permit {A} (permit : list string) (m : handler A) : handler A := fun e w =>
  let '(o, e', w') := m e w in
  (o, drop_permit permit e' w', (Resources.drop_permit permit (resources e') w').2).

(** [resource_dispatch] for one request, with [dispatch] a parameter. *)
Definition resource_dispatch (dispatch : string -> Value -> handler Value) (action : string)
    (params : Value) : handler Value :=
  if Str.starts_with "resource.lease." action then on_resources (Resources.command action params)
  else
    permit ← begin action params;
    with_permit permit (_ ← enforce action params; dispatch action params).
End operations.

(** ** Requests in flight *)

Record op := Op {
  class : ExecutionClass;
  action : string;
  params : Value;
}.
Definition request (action : string) (params : Value) : op :=
  Op (execution_class action params) action params.

(** A request that holds a permit; [running] once its authority was accepted. *)
Record held := Held {
  op_of : op;
  permit : list string;
  running : bool;
}.

Record system := System {
  runtime : t;
  waiting : list op;
  holding : list held;
}.

Section system.
Context `{!Text, !Sha256}.
Variable fuel : nat.

(** A new process on the same state files. *)
Definition reopened (path : string) (e : t) : t :=
  mk (Fences.open (id e) (Fences.target (authority e)) (Fences.file (authority e)))
     (ExecutionCapacity.restarted (execution e))
     (Resources.Host (Resources.open path (Resources.disk (resources e))) (Resources.disk (resources e))).

Definition leases_only (o : op) : bool := Str.starts_with "resource.lease." (action o).

Inductive step : system -> system -> Prop :=
  | step_accept e ws hs action params e' :
      ExecutionCapacity.try_acquire (execution_class action params) (execution e) = (Ok tt, e') ->
      step (System e ws hs) (System (set_execution e' e) (request action params :: ws) hs)
  | step_lease e ws o ws' hs w :
      leases_only o = true ->
      step (System e (ws ++ o :: ws') hs)
           (System (leave (class o) (on_resources (Resources.command (action o) (params o)) e w).1.2)
              (ws ++ ws') hs)
  | step_begin e ws o ws' hs w permit e' w' :
      leases_only o = false -> begin fuel (action o) (params o) e w = (Ok permit, e', w') ->
      step (System e (ws ++ o :: ws') hs) (System e' (ws ++ ws') (Held o permit false :: hs))
  | step_begin_refused e ws o ws' hs w :
      leases_only o = false -> is_ok (begin fuel (action o) (params o) e w).1.1 = false ->
      step (System e (ws ++ o :: ws') hs)
           (System (leave (class o) (begin fuel (action o) (params o) e w).1.2) (ws ++ ws') hs)
  | step_enforce e ws hs o permit hs' w e' w' :
      enforce fuel (action o) (params o) e w = (Ok tt, e', w') ->
      step (System e ws (hs ++ Held o permit false :: hs'))
           (System e' ws (hs ++ Held o permit true :: hs'))
  | step_enforce_refused e ws hs o permit hs' w w' :
      is_ok (enforce fuel (action o) (params o) e w).1.1 = false ->
      step (System e ws (hs ++ Held o permit false :: hs'))
           (System (leave (class o) (drop_permit permit (enforce fuel (action o) (params o) e w).1.2 w'))
              ws (hs ++ hs'))
  | step_finish e ws hs o permit hs' w :
      step (System e ws (hs ++ Held o permit true :: hs'))
           (System (leave (class o) (drop_permit permit e w)) ws (hs ++ hs'))
  | step_grants e ws hs grants w :
      step (System e ws hs)
           (System (set_authority (Fences.rewrite_grants grants (authority e) w).1.2 e) ws hs)
  | step_crash e ws hs path :
      Resources.path (Resources.state (resources e)) = Some path ->
      step (System e ws hs) (System (reopened path e) [] []).

(** A first start: no state files, every place free. *)
Definition initial (executor_id path : string) (os : target_os) (env : string -> option string)
    (parallelism : option Z) : system :=
  System (mk (Fences.open executor_id os None) (ExecutionCapacity.from_environment env parallelism)
             (Resources.host_of (Resources.initial path))) [] [].

Definition reachable (executor_id path : string) (os : target_os) (env : string -> option string)
    (parallelism : option Z) : system -> Prop :=
  rtc step (initial executor_id path os env parallelism).

(** ** The arbitration underneath *)

(** What [Resources] sees of the executor. *)
Definition arbitration (S : system) : Resources.system :=
  Resources.System (resources (runtime S)) (permit <$> holding S).

Lemma begin_resources o e w :
  (exists err, operation_resources fuel (Fences.target (authority e)) (id e) (action o) (params o) = Err err /\
     begin fuel (action o) (params o) e w = (Err err, e, w)) \/
  (operation_resources fuel (Fences.target (authority e)) (id e) (action o) (params o) = Panic /\
     begin fuel (action o) (params o) e w = (Panic, e, w)) \/
  (exists names, operation_resources fuel (Fences.target (authority e)) (id e) (action o) (params o) = Ok names /\
     let r := Resources.begin names (grants_of (params o)) (resources e) w in
     begin fuel (action o) (params o) e w = (r.1.1, set_resources r.1.2 e, r.2)).
Proof.
  unfold begin. run_handler.
  destruct (operation_resources _ _ _ _ _) as [names|err|]; [right; right|left|right; left];
    [exists names|exists err|]; (split; [done|]); [|done..].
  unfold on_resources. by destruct (Resources.begin _ _ _ _) as [[o' h'] w'].
Qed.

Lemma enforce_resources o e w : resources (enforce fuel (action o) (params o) e w).1.2 = resources e.
Proof. unfold enforce, on_authority. by destruct (Fences.enforce_authority _ _ _ _ _) as [[? ?] ?]. Qed.

Lemma step_arbitration S S' : step S S' -> rtc Resources.step (arbitration S) (arbitration S').
Proof.
  unfold arbitration.
  destruct 1 as [| e ws o ws' hs w _ | e ws o ws' hs w permit e' w' _ Hb | e ws o ws' hs w _ Hb
    | e ws hs o permit hs' w e' w' He | e ws hs o permit hs' w w' He | e ws hs o permit hs' w | |
    e ws hs path Hpath]; simpl; rewrite ?fmap_app; simpl.
  - apply rtc_refl.
  - unfold on_resources.
    pose proof (Resources.step_command (Resources.System (resources e) (permit <$> hs)) (action o) (params o) w) as Hc.
    simpl in Hc. destruct (Resources.command _ _ _ _) as [[? ?] ?]. by apply rtc_once.
  - destruct (begin_resources o e w) as [(err & _ & Hr)|[(_ & Hr)|(names & _ & Hr)]];
      rewrite Hr in Hb; [done..|]. injection Hb as Ho <- <-. apply rtc_once.
    exact (Resources.step_begin (Resources.System (resources e) (ExecutorRuntime.permit <$> hs))
             names (grants_of (params o)) w permit Ho).
  - destruct (begin_resources o e w) as [(err & _ & Hr)|[(_ & Hr)|(names & _ & Hr)]];
      rewrite Hr in Hb |- *; [apply rtc_refl..|]. apply rtc_once.
    exact (Resources.step_begin_refused (Resources.System (resources e) (permit <$> hs))
             names (grants_of (params o)) w Hb).
  - pose proof (enforce_resources o e w) as Hr. rewrite He in Hr. simpl in Hr. rewrite Hr. apply rtc_refl.
  - rewrite enforce_resources. apply rtc_once, Resources.step_drop.
  - apply rtc_once, Resources.step_drop.
  - apply rtc_refl.
  - apply rtc_once. exact (Resources.step_crash (Resources.System (resources e) (permit <$> hs)) path Hpath).
Qed.

(** ** Capacity *)

Definition requests (S : system) : list op := waiting S ++ (op_of <$> holding S).
Definition occupied (c : ExecutionClass) (os : list op) : Z :=
  Z.of_nat (length (bfilter (fun o => bool_decide (class o = c)) os)).

Lemma occupied_cons c o os :
  occupied c (o :: os) = occupied c os + (if decide (class o = c) then 1 else 0).
Proof.
  unfold occupied. cbn [bfilter]. case_bool_decide; case_decide; try done; cbn [length]; lia.
Qed.

Lemma occupied_perm c os os' : os ≡ₚ os' -> occupied c os = occupied c os'.
Proof.
  intros Hp. induction Hp as [|o os os' _ IH|o o' os|os1 os2 os3 _ IH1 _ IH2];
    rewrite ?occupied_cons; [done|lia|lia|congruence].
Qed.

Lemma occupied_nonneg c os : 0 <= occupied c os.
Proof. unfold occupied. lia. Qed.

(** The pools count the requests in flight, and none is over its limit. *)
Definition counted (env : string -> option string) (parallelism : option Z) (S : system) : Prop :=
  forall c p, ExecutionCapacity.pool c (execution (runtime S)) = Some p ->
    CapacityPool.active p = occupied c (requests S) /\
    occupied c (requests S) <= CapacityPool.maximum p /\
    exists p0, ExecutionCapacity.pool c (ExecutionCapacity.from_environment env parallelism) = Some p0 /\
      CapacityPool.maximum p0 = CapacityPool.maximum p /\ 0 < CapacityPool.maximum p.

Lemma pool_set_pool c c' p e :
  ExecutionCapacity.pool c (ExecutionCapacity.set_pool c' p e) =
  if decide (c = c') then (fun _ => p) <$> ExecutionCapacity.pool c e else ExecutionCapacity.pool c e.
Proof. by destruct c, c'. Qed.

Lemma counted_accept env par e ws hs action params e' :
  counted env par (System e ws hs) ->
  ExecutionCapacity.try_acquire (execution_class action params) (execution e) = (Ok tt, e') ->
  counted env par (System (set_execution e' e) (request action params :: ws) hs).
Proof.
  intros Hc Hacq c p Hp. simpl in Hp.
  change (requests (System (set_execution e' e) (request action params :: ws) hs))
    with (request action params :: requests (System e ws hs)).
  unfold ExecutionCapacity.try_acquire in Hacq. rewrite occupied_cons. simpl.
  destruct (ExecutionCapacity.pool (execution_class action params) (execution e)) as [q|] eqn:Hq.
  - unfold CapacityPool.try_acquire in Hacq. destruct (CapacityPool.active q >=? _) eqn:Hfull; [done|].
    injection Hacq as <-. rewrite pool_set_pool in Hp.
    destruct (decide (c = execution_class action params)) as [->|Hne].
    + rewrite Hq in Hp. injection Hp as <-. destruct (Hc _ _ Hq) as (Ha & Hle & Hmax). simpl.
      rewrite decide_True by done. split; [lia|]. split; [lia|done].
    + rewrite decide_False by done. destruct (Hc _ _ Hp) as (Ha & Hle & Hmax). split; [lia|]. split; [lia|done].
  - injection Hacq as <-. destruct (Hc _ _ Hp) as (Ha & Hle & Hmax).
    rewrite decide_False by congruence. split; [lia|]. split; [lia|done].
Qed.

(** A request that ends gives its place back. *)
Lemma counted_leave env par e ws hs e' o ws' hs' :
  counted env par (System e ws hs) -> execution e' = execution e ->
  requests (System e ws hs) ≡ₚ o :: requests (System e' ws' hs') ->
  counted env par (System (leave (class o) e') ws' hs').
Proof.
  intros Hc He Hperm c p Hp. simpl in Hp. unfold ExecutionCapacity.release in Hp. rewrite He in Hp.
  change (requests (System (leave (class o) e') ws' hs')) with (requests (System e' ws' hs')).
  assert (forall q, ExecutionCapacity.pool c (execution e) = Some q ->
    CapacityPool.active q = occupied c (o :: requests (System e' ws' hs')) /\
    occupied c (o :: requests (System e' ws' hs')) <= CapacityPool.maximum q /\
    exists p0, ExecutionCapacity.pool c (ExecutionCapacity.from_environment env par) = Some p0 /\
      CapacityPool.maximum p0 = CapacityPool.maximum q /\ 0 < CapacityPool.maximum q) as Hc'.
  { intros q Hq. rewrite <- (occupied_perm c _ _ Hperm). by apply (Hc c q). }
  setoid_rewrite occupied_cons in Hc'. pose proof (occupied_nonneg c (requests (System e' ws' hs'))) as Hnn.
  destruct (ExecutionCapacity.pool (class o) (execution e)) as [q|] eqn:Hq.
  - rewrite pool_set_pool in Hp. destruct (decide (c = class o)) as [->|Hne].
    + rewrite Hq in Hp. injection Hp as <-. destruct (Hc' _ Hq) as (Ha & Hle & Hmax).
      rewrite decide_True in Ha, Hle by done. simpl. unfold saturating_sub. split; [lia|]. split; [lia|done].
    + destruct (Hc' _ Hp) as (Ha & Hle & Hmax). rewrite decide_False in Ha, Hle by done.
      split; [lia|]. split; [lia|done].
  - destruct (Hc' _ Hp) as (Ha & Hle & Hmax).
    rewrite decide_False in Ha, Hle by congruence. split; [lia|]. split; [lia|done].
Qed.

Lemma counted_same env par e ws hs e' ws' hs' :
  counted env par (System e ws hs) -> execution e' = execution e ->
  requests (System e ws hs) ≡ₚ requests (System e' ws' hs') -> counted env par (System e' ws' hs').
Proof.
  intros Hc He Hperm c p Hp. simpl in Hp. rewrite He in Hp. rewrite <- (occupied_perm c _ _ Hperm).
  by apply (Hc c p).
Qed.

Lemma configured_positive env key n : ExecutionCapacity.configured env key = Some n -> 0 < n.
Proof.
  unfold ExecutionCapacity.configured. destruct (env key) as [v|]; [|done]. simpl.
  destruct (ExecutionCapacity.parse_usize v) as [m|]; [|done]. simpl.
  destruct (0 <? m) eqn:Hm; [|done]. intros [= <-]. lia.
Qed.

Lemma from_environment_positive env par c p :
  ExecutionCapacity.pool c (ExecutionCapacity.from_environment env par) = Some p ->
  CapacityPool.active p = 0 /\ 0 < CapacityPool.maximum p.
Proof.
  assert (forall key d, 0 < d -> 0 < default d (ExecutionCapacity.configured env key)) as Hd.
  { intros key d Hd. destruct (ExecutionCapacity.configured env key) eqn:E; [|done].
    by apply configured_positive in E. }
  destruct c; intros [= <-]; (split; [done|]); apply Hd; lia.
Qed.

Lemma begin_execution o e w : execution (begin fuel (action o) (params o) e w).1.2 = execution e.
Proof.
  destruct (begin_resources o e w) as [(err & _ & ->)|[(_ & ->)|(names & _ & Hr)]]; [done..|].
  simpl in Hr. by rewrite Hr.
Qed.
Lemma enforce_execution o e w : execution (enforce fuel (action o) (params o) e w).1.2 = execution e.
Proof. unfold enforce, on_authority. by destruct (Fences.enforce_authority _ _ _ _ _) as [[? ?] ?]. Qed.

Lemma requests_waiting e ws o ws' hs e' :
  requests (System e (ws ++ o :: ws') hs) ≡ₚ o :: requests (System e' (ws ++ ws') hs).
Proof.
  unfold requests. cbn [waiting holding]. rewrite <- !app_assoc. symmetry.
  apply (Permutation_middle ws (ws' ++ (op_of <$> hs)) o).
Qed.
Lemma requests_holding e ws o permit r hs hs' e' :
  requests (System e ws (hs ++ Held o permit r :: hs')) ≡ₚ o :: requests (System e' ws (hs ++ hs')).
Proof.
  unfold requests. cbn [waiting holding]. rewrite !fmap_app, fmap_cons, !app_assoc. symmetry.
  apply (Permutation_middle (ws ++ (op_of <$> hs)) (op_of <$> hs') o).
Qed.

Lemma step_counted env par S S' : step S S' -> counted env par S -> counted env par S'.
Proof.
  intros Hs. destruct Hs as [e ws hs action params e' Ha | e ws o ws' hs w _
    | e ws o ws' hs w permit e' w' _ Hb | e ws o ws' hs w _ _
    | e ws hs o permit hs' w e' w' He | e ws hs o permit hs' w w' He | e ws hs o permit hs' w | e ws hs grants w |
    e ws hs path Hpath]; intros Hc.
  - by apply counted_accept.
  - eapply counted_leave; [exact Hc| |apply requests_waiting].
    unfold on_resources. by destruct (Resources.command _ _ _ _) as [[? ?] ?].
  - eapply counted_same; [exact Hc| |].
    + pose proof (begin_execution o e w) as Hx. by rewrite Hb in Hx.
    + etrans; [apply (requests_waiting e ws o ws' hs e')|]. unfold requests. cbn [waiting holding].
      rewrite fmap_cons. apply (Permutation_middle (ws ++ ws') (op_of <$> hs) o).
  - eapply counted_leave; [exact Hc|apply begin_execution|apply requests_waiting].
  - eapply counted_same; [exact Hc| |].
    + pose proof (enforce_execution o e w) as Hx. by rewrite He in Hx.
    + by rewrite (requests_holding e ws o permit false hs hs' e), (requests_holding e' ws o permit true hs hs' e).
  - eapply counted_leave; [exact Hc|apply enforce_execution|apply requests_holding].
  - eapply counted_leave; [exact Hc|done|apply requests_holding].
  - by eapply counted_same.
  - intros c p Hp.
    assert (exists q, ExecutionCapacity.pool c (execution e) = Some q /\
              p = CapacityPool.new (CapacityPool.maximum q)) as (q & Hq & ->).
    { destruct c; simpl in *; [done|..]; injection Hp as <-; by eexists. }
    destruct (Hc c q Hq) as (_ & _ & p0 & Hp0 & Hm & Hpos). simpl. split; [done|].
    unfold occupied. simpl. split; [lia|]. by exists p0.
Qed.

Lemma initial_counted executor_id path os env par : counted env par (initial executor_id path os env par).
Proof.
  intros c p Hp. destruct (from_environment_positive _ _ _ _ Hp) as [Ha Hm].
  unfold occupied. simpl. split; [done|]. split; [lia|]. by exists p.
Qed.

(** The requests in flight stay within the configured limits: in every
    reachable state a class has as many requests in flight as its pool counts,
    never more than the limit read from the environment, which is positive; and
    a request is refused as busy exactly when all places of its class are taken,
    so a place that is given back can be taken again. *)
Theorem requests_stay_within_capacity executor_id path os env parallelism S c p :
  reachable executor_id path os env parallelism S ->
  ExecutionCapacity.pool c (execution (runtime S)) = Some p ->
  CapacityPool.active p = occupied c (requests S) /\
  occupied c (requests S) <= CapacityPool.maximum p /\
  CapacityPool.maximum <$> ExecutionCapacity.pool c (ExecutionCapacity.from_environment env parallelism)
    = Some (CapacityPool.maximum p) /\
  0 < CapacityPool.maximum p /\
  ((ExecutionCapacity.try_acquire c (execution (runtime S))).1 = Err (CapacityPool.busy (CapacityPool.maximum p)) <->
   occupied c (requests S) = CapacityPool.maximum p).
Proof.
  intros Hr Hp.
  assert (counted env parallelism S) as Hc.
  { assert (forall S1 S2, rtc step S1 S2 -> counted env parallelism S1 -> counted env parallelism S2) as Hall.
    { induction 1 as [|S1 S2 S3 Hs _ IH]; [done|]. intros Hc1. by eapply IH, step_counted. }
    eapply Hall; [exact Hr|apply initial_counted]. }
  destruct (Hc c p Hp) as (Ha & Hle & p0 & Hp0 & Hm & Hpos). split_and!; try done.
  - by rewrite Hp0, <- Hm.
  - unfold ExecutionCapacity.try_acquire. rewrite Hp. unfold CapacityPool.try_acquire.
    destruct (CapacityPool.active p >=? CapacityPool.maximum p) eqn:Hfull; simpl; split; try done; intros; lia.
Qed.

(** ** What running means *)

(** Every permit covers its request's resources; every running request was
    accepted by [enforce_authority] at some time of the fences' life. *)
Definition admitted (executor_id : string) (os : target_os) (a : Fences.host) (x : held) : Prop :=
  (exists names, operation_resources fuel os executor_id (action (op_of x)) (params (op_of x)) = Ok names /\
     permit x = Resources.sort_dedup names) /\
  (running x = true -> exists h h' w w',
     Fences.lifetime fuel (Fences.open executor_id os None) h /\
     Fences.enforce_authority fuel (action (op_of x)) (params (op_of x)) h w = (Ok tt, h', w') /\
     Fences.lifetime fuel h' a).

Definition traced (executor_id : string) (os : target_os) (S : system) : Prop :=
  Fences.lifetime fuel (Fences.open executor_id os None) (authority (runtime S)) /\
  Forall (admitted executor_id os (authority (runtime S))) (holding S).

Lemma admitted_later executor_id os a a' x :
  Fences.lifetime fuel a a' -> admitted executor_id os a x -> admitted executor_id os a' x.
Proof.
  intros Ha [Hn Hr]. split; [done|]. intros Hx. destruct (Hr Hx) as (h & h' & w & w' & H1 & H2 & H3).
  exists h, h', w, w'. split_and!; [done..|]. by etrans.
Qed.

Lemma enforce_life o e w : Fences.lifetime fuel (authority e) (authority (enforce fuel (action o) (params o) e w).1.2).
Proof.
  unfold enforce, on_authority. pose proof (Fences.step_enforce fuel (authority e) (action o) (params o) w) as Hs.
  destruct (Fences.enforce_authority _ _ _ _ _) as [[? ?] ?]. by apply rtc_once.
Qed.

Lemma begin_authority o e w : authority (begin fuel (action o) (params o) e w).1.2 = authority e.
Proof.
  destruct (begin_resources o e w) as [(err & _ & ->)|[(_ & ->)|(names & _ & Hr)]]; [done..|].
  simpl in Hr. by rewrite Hr.
Qed.

Lemma begin_settles executor_id os o e w permit e' w' :
  Fences.lifetime fuel (Fences.open executor_id os None) (authority e) ->
  begin fuel (action o) (params o) e w = (Ok permit, e', w') ->
  admitted executor_id os (authority e') (Held o permit false).
Proof.
  intros Hl Hb. destruct (Fences.lifetime_forward _ _ _ Hl (Fences.sealed_open _ _ _)) as (_ & _ & Hid & Ht).
  simpl in Hid, Ht. unfold id in *.
  destruct (begin_resources o e w) as [(err & _ & Hr)|[(_ & Hr)|(names & Hn & Hr)]];
    [by rewrite Hr in Hb|by rewrite Hr in Hb|]. unfold id in Hn. rewrite Hid, Ht in Hn.
  rewrite Hr in Hb. injection Hb as Hok _ _. split; [|done]. exists names. split; [done|]. simpl.
  destruct (Resources.begin_cases names (grants_of (params o)) (resources e) w)
    as [[Hf _]|(_ & _ & [(H1 & _ & _)|[(w1 & _ & H1)|(w1 & _ & H1 & _)]])].
  - by rewrite Hok in Hf.
  - rewrite H1 in Hok. by injection Hok.
  - rewrite H1 in Hok. by injection Hok.
  - by rewrite Hok in H1.
Qed.

Lemma step_traced executor_id os S S' : step S S' -> traced executor_id os S -> traced executor_id os S'.
Proof.
  intros Hs [Hl Ha]. destruct Hs as [e ws hs action params e' Hx | e ws o ws' hs w _
    | e ws o ws' hs w permit e' w' _ Hb | e ws o ws' hs w _ _
    | e ws hs o permit hs' w e' w' He | e ws hs o permit hs' w w' He | e ws hs o permit hs' w | e ws hs grants w |
    e ws hs path Hpath]; unfold traced in *; cbn [runtime holding] in *.
  - by split.
  - unfold leave, on_resources. by destruct (Resources.command _ _ _ _) as [[? ?] ?].
  - pose proof (begin_authority o e w) as Hau. rewrite Hb in Hau. simpl in Hau. rewrite Hau.
    split; [done|]. constructor; [|done]. rewrite <- Hau. by eapply begin_settles.
  - unfold leave. simpl. by rewrite begin_authority.
  - pose proof (enforce_life o e w) as Hlife. rewrite He in Hlife. simpl in Hlife.
    split; [by etrans|]. apply Forall_app in Ha as [Ha1 [Ha2 Ha3]%Forall_cons].
    apply Forall_app. split; [by eapply Forall_impl; [exact Ha1|]; intros; eapply admitted_later|].
    constructor; [|by eapply Forall_impl; [exact Ha3|]; intros; eapply admitted_later].
    split; [by destruct Ha2|]. intros _. simpl. unfold enforce, on_authority in He.
    destruct (Fences.enforce_authority fuel (action o) (params o) (authority e) w) as [[r h'] w1] eqn:Hrun.
    injection He as -> <- <-. exists (authority e), h', w, w1. split_and!; [done..|apply rtc_refl].
  - pose proof (enforce_life o e w) as Hlife. unfold leave, drop_permit. simpl. split; [by etrans|].
    apply Forall_app in Ha as [Ha1 [_ Ha3]%Forall_cons]. apply Forall_app.
    split; [eapply Forall_impl; [exact Ha1|]|eapply Forall_impl; [exact Ha3|]]; intros; by eapply admitted_later.
  - unfold leave, drop_permit. simpl. split; [done|].
    apply Forall_app in Ha as [Ha1 [_ Ha3]%Forall_cons]. by apply Forall_app.
  - simpl. pose proof (rtc_once _ _ (Fences.step_grants fuel (authority e) grants w)) as Hlife.
    split; [by etrans|]. eapply Forall_impl; [exact Ha|]. intros. by eapply admitted_later.
  - split; [|constructor]. unfold reopened. simpl. etrans; [exact Hl|].
    apply rtc_once. apply Fences.step_restart.
Qed.

Lemma reachable_traced executor_id path os env par S :
  reachable executor_id path os env par S -> traced executor_id os S.
Proof.
  intros Hr. assert (forall S1 S2, rtc step S1 S2 -> traced executor_id os S1 -> traced executor_id os S2) as Hall.
  { induction 1 as [|S1 S2 S3 Hs _ IH]; [done|]. intros Ht. by eapply IH, step_traced. }
  eapply Hall; [exact Hr|]. split; [apply rtc_refl|constructor].
Qed.

Lemma reachable_arbitration executor_id path os env par S :
  reachable executor_id path os env par S -> Resources.reachable path (arbitration S).
Proof.
  unfold reachable, Resources.reachable.
  change (Resources.initial path) with (arbitration (initial executor_id path os env par)).
  induction 1 as [S|S1 S2 S3 Hs _ IH]; [apply rtc_refl|]. etrans; [by apply step_arbitration|exact IH].
Qed.

(** The executor refines its parts: whatever the interleaving of requests,
    what its permits and its resource table go through is a run of the
    arbitration system of [Resources], permit for permit, and what its fences go
    through is a life of [Fences]; what those systems promise holds here. *)
Theorem executor_refines_its_parts executor_id path os env parallelism S :
  reachable executor_id path os env parallelism S ->
  Resources.reachable path (arbitration S) /\
  Fences.lifetime fuel (Fences.open executor_id os None) (authority (runtime S)).
Proof.
  intros Hr. split; [by eapply reachable_arbitration|].
  by destruct (reachable_traced _ _ _ _ _ _ Hr).
Qed.

Lemma concat_disjoint {A} (ls : list (list A)) i j l1 l2 (x : A) :
  NoDup (concat ls) -> i <> j -> ls !! i = Some l1 -> ls !! j = Some l2 -> x ∈ l1 -> x ∉ l2.
Proof.
  revert i j. induction ls as [|l ls IH]; intros i j Hnd Hne Hi Hj Hx1 Hx2; [by destruct i|].
  simpl in Hnd. apply NoDup_app in Hnd as (_ & Hdis & Hnd).
  assert (forall k lk, ls !! k = Some lk -> x ∈ lk -> x ∈ concat ls) as Hin.
  { intros k lk Hk Hx. apply list_elem_of_In, in_concat. exists lk. rewrite <- !list_elem_of_In.
    split; [by eapply list_elem_of_lookup_2|done]. }
  destruct i as [|i], j as [|j]; simpl in Hi, Hj; [done|injection Hi as ->|injection Hj as ->|].
  - by apply (Hdis x Hx1), (Hin j l2).
  - by apply (Hdis x Hx2), (Hin i l1).
  - exact (IH i j Hnd ltac:(congruence) Hi Hj Hx1 Hx2).
Qed.

(** C5. Two requests that hold permits at the same time, running or about to,
    share no resource of their contracts: neither a lease's resource, nor a
    lock, nor a resource a command declared, nor the port of a tunnel. *)
Theorem requests_in_flight_are_exclusive executor_id path os env parallelism S i j a b :
  reachable executor_id path os env parallelism S ->
  holding S !! i = Some a -> holding S !! j = Some b -> i <> j ->
  exists na nb,
    operation_resources fuel os executor_id (action (op_of a)) (params (op_of a)) = Ok na /\
    operation_resources fuel os executor_id (action (op_of b)) (params (op_of b)) = Ok nb /\
    forall r, r ∈ na -> r ∉ nb.
Proof.
  intros Hr Hi Hj Hne. destruct (reachable_traced _ _ _ _ _ _ Hr) as [_ Hall]. rewrite Forall_forall in Hall.
  destruct (Hall a) as [(na & Hna & Hpa) _]; [by eapply list_elem_of_lookup_2|].
  destruct (Hall b) as [(nb & Hnb & Hpb) _]; [by eapply list_elem_of_lookup_2|].
  exists na, nb. split_and!; [done..|]. intros r Hra Hrb.
  apply reachable_arbitration, Resources.arbitration_reachable_inv in Hr as (Hnd & _).
  apply (concat_disjoint _ i j (permit a) (permit b) r Hnd Hne).
  - simpl. by rewrite list_lookup_fmap, Hi.
  - simpl. by rewrite list_lookup_fmap, Hj.
  - rewrite Hpa. by apply Resources.elem_of_sort_dedup.
  - rewrite Hpb. by apply Resources.elem_of_sort_dedup.
Qed.

(** A running workspace capability has shown its authority, and the fence
    file says so for as long as it runs: every workspace its [_authority] names
    is recorded there under a fence that is not older, and a restart at this
    moment would remember it. *)
Theorem running_requests_have_authority executor_id path os env parallelism S x authority_ cid r f :
  reachable executor_id path os env parallelism S ->
  x ∈ holding S -> running x = true -> Fences.fenced os (action (op_of x)) ->
  authority_ ∈ Fences.authorities_of (params (op_of x)) -> Fences.speaks authority_ cid r f ->
  Fences.at_least (Fences.table_of (Fences.file (authority (runtime S)))) (Fences.workspace_key cid r) f.
Proof.
  intros Hr Hx Hrun Hf Hin Hsp. destruct (reachable_traced _ _ _ _ _ _ Hr) as [_ Hall].
  rewrite Forall_forall in Hall. destruct (Hall x Hx) as [_ Hacc].
  destruct (Hacc Hrun) as (h & h' & w & w' & Hl1 & Hok & Hl2).
  destruct (Fences.lifetime_forward _ _ _ Hl1 (Fences.sealed_open _ _ _)) as (Hs & _ & _ & Ht). simpl in Ht.
  rewrite <- Ht in Hf.
  destruct (Fences.enforce_records _ _ _ _ _ _ _ _ _ _ _ (proj1 Hs) Hf Hok Hin Hsp) as (_ & Hrec & Hs').
  destruct (Fences.lifetime_forward _ _ _ Hl2 Hs') as (_ & Hadv & _). apply Hadv. by exists f.
Qed.

End system.

(** ** Witnesses

    Two writes to different files: both are let in and given permits, the first
    one runs. *)

#[local] Instance marked_sha256 : Sha256 := fun s => "#" +:+ s.
#[local] Instance witness_text : Text := plain_text.

Definition write_to (file : string) : op :=
  request "filesystem.write"
    (json_object [("path", VString file); ("content", VString "hello"); ("_workspaceSessionId", VString "s1");
                  ("_authority", VArray [Fences.entry "c1" "workspace:s1" 5;
                                         Fences.entry "c1" ("filesystem:" +:+ file) 1])]).

Abbreviation start := (initial "node-a" "resources.json" Linux (fun _ => None) (Some 8)).
Abbreviation let_in o e :=
  (set_execution (ExecutionCapacity.try_acquire (class o) (execution e)).2 e).
Abbreviation begun o e := (begin 4 (action o) (params o) e Fences.quiet_world).
Abbreviation shown o e := (enforce 4 (action o) (params o) e Fences.quiet_world).

Abbreviation e1 := (let_in (write_to "/srv/a") (runtime start)).
Abbreviation e2 := (let_in (write_to "/srv/b") e1).
Abbreviation e3 := (begun (write_to "/srv/a") e2).1.2.
Abbreviation e4 := (begun (write_to "/srv/b") e3).1.2.
Abbreviation e5 := (shown (write_to "/srv/a") e4).1.2.
Abbreviation both_held r e :=
  (System e [] [Held (write_to "/srv/b") ["filesystem:/srv/b"] false;
                Held (write_to "/srv/a") ["filesystem:/srv/a"] r]).

Lemma begun_a : begun (write_to "/srv/a") e2 = (Ok ["filesystem:/srv/a"], e3, (begun (write_to "/srv/a") e2).2).
Proof. apply ok_pair. vm_compute. done. Defined.
Lemma begun_b : begun (write_to "/srv/b") e3 = (Ok ["filesystem:/srv/b"], e4, (begun (write_to "/srv/b") e3).2).
Proof. apply ok_pair. vm_compute. done. Defined.
Lemma shown_a : shown (write_to "/srv/a") e4 = (Ok tt, e5, (shown (write_to "/srv/a") e4).2).
Proof. apply ok_pair. vm_compute. done. Defined.

Lemma sample_reachable_executor :
  reachable 4 "node-a" "resources.json" Linux (fun _ => None) (Some 8) (both_held true e5).
Proof.
  unfold reachable.
  eapply rtc_l. { refine (step_accept 4 (runtime start) [] [] "filesystem.write" (params (write_to "/srv/a")) _ _). vm_compute. reflexivity. }
  eapply rtc_l. { refine (step_accept 4 e1 [write_to "/srv/a"] [] "filesystem.write" (params (write_to "/srv/b")) _ _). vm_compute. reflexivity. }
  eapply rtc_l. { exact (step_begin 4 e2 [write_to "/srv/b"] (write_to "/srv/a") [] [] Fences.quiet_world _ _ _ eq_refl begun_a). }
  eapply rtc_l. { exact (step_begin 4 e3 [] (write_to "/srv/b") [] _ Fences.quiet_world _ _ _ eq_refl begun_b). }
  apply rtc_once.
  exact (step_enforce 4 e4 [] [Held (write_to "/srv/b") ["filesystem:/srv/b"] false] (write_to "/srv/a")
           ["filesystem:/srv/a"] [] Fences.quiet_world _ _ shown_a).
Defined.

Lemma executor_refines_its_parts_witness :
  Resources.reachable "resources.json" (arbitration (both_held true e5)).
Proof.
  exact (proj1 (executor_refines_its_parts 4 "node-a" "resources.json" Linux (fun _ => None) (Some 8)
                  (both_held true e5) sample_reachable_executor)).
Defined.

Lemma requests_stay_within_capacity_witness :
  occupied Mutating (requests (both_held true e5)) = 2.
Proof.
  destruct (requests_stay_within_capacity 4 "node-a" "resources.json" Linux (fun _ => None) (Some 8)
    (both_held true e5) Mutating (CapacityPool.mk 8 2) sample_reachable_executor ltac:(vm_compute; reflexivity))
    as (Ha & _). symmetry. exact Ha.
Defined.

Lemma requests_in_flight_are_exclusive_witness :
  exists na nb,
    operation_resources 4 Linux "node-a" "filesystem.write" (params (write_to "/srv/b")) = Ok na /\
    operation_resources 4 Linux "node-a" "filesystem.write" (params (write_to "/srv/a")) = Ok nb /\
    forall r, r ∈ na -> r ∉ nb.
Proof.
  exact (requests_in_flight_are_exclusive 4 "node-a" "resources.json" Linux (fun _ => None) (Some 8)
    (both_held true e5) 0 1 (Held (write_to "/srv/b") ["filesystem:/srv/b"] false)
    (Held (write_to "/srv/a") ["filesystem:/srv/a"] true) sample_reachable_executor eq_refl eq_refl ltac:(lia)).
Defined.

Lemma running_requests_have_authority_witness :
  Fences.at_least (Fences.table_of (Fences.file (authority e5))) "c1/workspace:s1" 5.
Proof.
  refine (running_requests_have_authority 4 "node-a" "resources.json" Linux (fun _ => None) (Some 8)
    (both_held true e5) (Held (write_to "/srv/a") ["filesystem:/srv/a"] true)
    (Fences.entry "c1" "workspace:s1" 5) "c1" "workspace:s1" 5 sample_reachable_executor _ eq_refl _ _
    (Fences.entry_speaks 5)).
  - right. left.
  - exists (contract Linux "filesystem.write" Effect.Mutating). by vm_compute.
  - left.
Defined.
End ExecutorRuntime.
