(* ===== verification/Confinement.v ===== *)
(** * Paths and read grants at the executor ([crates/workbench-runtime/src/executor.rs])

    [checked_path] turns a path of a request into the place it names, resolving
    symbolic links, and lets it through when that place is under an allowed
    root, or, for a reading capability, under a root that an approved read grant
    covers.  The grants live in the state of [Enforcement]; [read-grant.approve]
    and [read-grant.revoke] change them and write the file.  Paths are Unix
    paths, lists of components; what exists and where links lead is the file
    system's answer. *)

From Stdlib Require Import Ascii String.
From S2P Require Import Prelude RustStd Json Protocol Schema Leases Contracts Templates.
From S2P Require Import Controller Catalog Arbitration Enforcement.

Module Confinement.
Import FsPath Fences.

Definition path := list component.

(** What the code asks of the file system. *)
Class FileSystem := {
  exists_at : path -> bool;
  canonicalize : path -> option path;
}.

(** [std::fs::canonicalize]: an absolute path without [.] and [..]. *)
Definition canonical_path (p : path) : Prop := exists names, p = RootDir :: (Normal <$> names).
Definition resolves_links (fs : FileSystem) : Prop :=
  forall p q, canonicalize p = Some q -> canonical_path q.

Definition display (p : path) : string :=
  let name c := match c with RootDir => "" | CurDir => "." | ParentDir => ".." | Normal n => n end in
  match p with
  | [RootDir] => "/"
  | _ => String.concat "/" (name <$> p)
  end.

Definition starts_with (base p : path) : bool := bool_decide (base `prefix_of` p).

Definition io_error (code : string) (p : string) : RpcError.t := RpcError.new code (p +:+ ": io error").

(** The executor as far as paths go. *)
Record roots := Roots {
  allowed_roots : list path;
  grantable_read_roots : list path;
}.

Section confinement.
Context `{fs : FileSystem}.
Variable r : roots.

(** The walk up to the nearest ancestor that exists; [above] is the path's
    components from the last one, [missing] what has been passed, in order. *)
Fixpoint climb (above : path) (missing : list string) : outcome RpcError.t (path * list string) :=
  if exists_at (reverse above) then Ok (reverse above, missing)
  else
    match above with
    | Normal name :: above' => climb above' (missing ++ [name])
    | _ => Err (RpcError.new "PATH_INVALID" "path has no existing ancestor")
    end.

(** The place a path names. *)
Definition resolve (raw : string) (must_exist : bool) : outcome RpcError.t path :=
  let p := components raw in
  if must_exist || exists_at p then ok_or (io_error "PATH_INVALID" raw) (canonicalize p)
  else
    '(ancestor, missing) ← climb (reverse p) [];
    resolved ← ok_or (io_error "PATH_INVALID" raw) (canonicalize ancestor);
    Ok (resolved ++ (Normal <$> reverse missing)).

Definition grant_required (message : string) : RpcError.t := RpcError.new "READ_GRANT_REQUIRED" message.

(** [params.get("_workspaceScope").or_else(|| params.get("_workspaceSessionId"))] *)
Definition grant_workspace (params : Value) : option string :=
  match vget params "_workspaceScope" with
  | Some v => as_str v
  | None => str_param params "_workspaceSessionId"
  end.

Definition covered_by (executor_id workspace capability : string) (checked : path) (g : ReadGrant.t) : bool :=
  bool_decide (ReadGrant.state g = ReadGrantState.Approved) &&
  bool_decide (ReadGrant.workspace_session_id g = workspace) &&
  bool_decide (ReadGrant.executor_id g = executor_id) &&
  bool_decide (capability ∈ ReadGrant.capabilities g) &&
  starts_with (components (ReadGrant.real_root g)) checked.

Definition grant_is (id : string) (g : ReadGrant.t) : bool := bool_decide (ReadGrant.id g = id).

Definition validate_read_grant (h : host) (params : Value) (checked : path) (capability : string) :
    outcome RpcError.t unit :=
  workspace ← ok_or (grant_required "workspace-scoped read grant is required") (grant_workspace params);
  grant_id ← ok_or (grant_required ("read grant required for " +:+ display checked))
               (str_param params "_readGrantId");
  table ← ok_or (grant_required "executor has no persistent read-grant state") (fences h);
  grant ← ok_or (grant_required "read grant is unknown to executor")
            (bfind (grant_is grant_id) (ExecutorFences.read_grants table));
  if covered_by (id h) workspace capability checked grant then Ok tt
  else Err (RpcError.new "READ_GRANT_DENIED"
              "read grant does not cover this workspace, executor, capability, and real path").

Definition within (roots : list path) (checked : path) : bool := existsb (fun root => starts_with root checked) roots.

Definition checked_path (h : host) (params : Value) (key : string) (must_exist : bool)
    (read_capability : option string) : outcome RpcError.t path :=
  raw ← ok_or (RpcError.new "INVALID_PARAMS" (key +:+ " is required")) (str_param params key);
  checked ← resolve raw must_exist;
  if within (allowed_roots r) checked then Ok checked
  else
    match read_capability with
    | Some capability => _ ← validate_read_grant h params checked capability; Ok checked
    | None => Err (RpcError.new "PATH_OUTSIDE_ALLOWED_ROOTS" (display checked +:+ " is outside executor roots"))
    end.

(** ** The read-grant actions *)

Definition state_required : RpcError.t :=
  RpcError.new "READ_GRANT_STATE_REQUIRED" "executor persistence is required".

Definition read_grant_resolve (params : Value) : handler Value :=
  raw ← lift (required_str params "requestedRoot");
  resolved ← lift (ok_or (io_error "PATH_INVALID" raw) (canonicalize (components raw)));
  _ ← guard (within (grantable_read_roots r) resolved)
        (RpcError.new "READ_GRANT_ROOT_NOT_ALLOWED"
           (display resolved +:+ " is not under a grantable read root"));
  mret (json_object [("requestedRoot", VString raw); ("realRoot", VString (display resolved))]).

Section grants.
Context `{!Serde ReadGrant.t}.

Definition read_grant_find (params : Value) : handler Value :=
  workspace ← lift (required_str params "workspaceSessionId");
  capability ← lift (required_str params "capability");
  raw ← lift (required_str params "path");
  checked ← lift (ok_or (io_error "PATH_INVALID" raw) (canonicalize (components raw)));
  h ← get;
  table ← lift (ok_or state_required (fences h));
  mret (vopt to_value (bfind (covered_by (id h) workspace capability checked) (ExecutorFences.read_grants table))).

Definition invalid_grant (message : string) : RpcError.t := RpcError.new "INVALID_READ_GRANT" message.

Definition read_grant_approve (params : Value) : handler Value :=
  grant ← lift (map_err invalid_grant (from_value params));
  h ← get;
  _ ← guard (bool_decide (ReadGrant.executor_id grant = id h) &&
             bool_decide (ReadGrant.state grant = ReadGrantState.Approved))
        (invalid_grant "approved grant must target this executor");
  real ← lift (ok_or (invalid_grant "io error") (canonicalize (components (ReadGrant.real_root grant))));
  _ ← guard (within (grantable_read_roots r) real)
        (RpcError.new "READ_GRANT_ROOT_NOT_ALLOWED" "grant root is outside configured grantable roots");
  table ← lift (ok_or state_required (fences h));
  _ ← rewrite_grants (bfilter (fun g => negb (grant_is (ReadGrant.id grant) g))
                        (ExecutorFences.read_grants table) ++ [grant]);
  mret (to_value grant).

Definition revoked (n : Z) (g : ReadGrant.t) : ReadGrant.t :=
  ReadGrant.mk (ReadGrant.id g) (ReadGrant.workspace_session_id g) (ReadGrant.executor_id g)
    (ReadGrant.requested_root g) (ReadGrant.real_root g) (ReadGrant.capabilities g)
    ReadGrantState.Revoked (ReadGrant.requested_by g) (ReadGrant.created_at g) (ReadGrant.approved_at g)
    (Some n) (ReadGrant.approved_by g) (ReadGrant.audit g).

Definition read_grant_revoke (params : Value) : handler Value :=
  grant_id ← lift (required_str params "grantId");
  h ← get;
  table ← lift (ok_or state_required (fences h));
  grant ← lift (ok_or (RpcError.new "READ_GRANT_NOT_FOUND" ("unknown read grant: " +:+ grant_id))
                  (bfind (grant_is grant_id) (ExecutorFences.read_grants table)));
  n ← now;
  _ ← rewrite_grants (update_first (grant_is grant_id) (revoked n) (ExecutorFences.read_grants table));
  mret (to_value (revoked n grant)).
End grants.
End confinement.

(** ** Where a checked path lies *)

Section paths.
Context `{fs : FileSystem}.
Variable r : roots.

Lemma canonical_app p names : canonical_path p -> canonical_path (p ++ (Normal <$> names)).
Proof. intros [ns ->]. exists (ns ++ names). by rewrite fmap_app. Qed.

Lemma resolve_canonical raw must_exist p :
  resolves_links fs -> resolve raw must_exist = Ok p -> canonical_path p.
Proof.
  intros Hfs. unfold resolve. destruct (_ || _); [by intros ?%ok_or_Ok%Hfs|].
  destruct (climb _ _) as [[ancestor missing]|e|]; try done. cbn.
  destruct (canonicalize ancestor) as [q|] eqn:Hq; [|done]. intros [= <-].
  by apply canonical_app, (Hfs ancestor).
Qed.

Lemma within_Some roots p : within roots p = true <-> exists root, root ∈ roots /\ root `prefix_of` p.
Proof.
  unfold within, starts_with. rewrite existsb_exists. split; intros (root & Hin & Hp); exists root.
  - by apply list_elem_of_In in Hin; apply bool_decide_eq_true in Hp.
  - by rewrite <- list_elem_of_In, bool_decide_eq_true.
Qed.

Lemma validate_read_grant_Ok h params checked capability :
  validate_read_grant h params checked capability = Ok tt ->
  exists workspace grant_id table grant,
    grant_workspace params = Some workspace /\ str_param params "_readGrantId" = Some grant_id /\
    fences h = Some table /\ bfind (grant_is grant_id) (ExecutorFences.read_grants table) = Some grant /\
    covered_by (id h) workspace capability checked grant = true.
Proof.
  unfold validate_read_grant. intros (ws & Hws%ok_or_Ok & Hv)%bind_Ok.
  apply bind_Ok in Hv as (gid & Hgid%ok_or_Ok & Hv). apply bind_Ok in Hv as (table & Ht%ok_or_Ok & Hv).
  apply bind_Ok in Hv as (grant & Hg%ok_or_Ok & Hv). destruct (covered_by _ _ _ _ _) eqn:Hc; [|done].
  by exists ws, gid, table, grant.
Qed.

Lemma checked_path_Ok h params key must_exist capability p :
  checked_path r h params key must_exist capability = Ok p ->
  (exists raw, str_param params key = Some raw /\ resolve raw must_exist = Ok p) /\
  (within (allowed_roots r) p = true \/
   exists c, capability = Some c /\ validate_read_grant h params p c = Ok tt).
Proof.
  unfold checked_path. intros (raw & Hraw%ok_or_Ok & Hp)%bind_Ok.
  apply bind_Ok in Hp as (q & Hq & Hp). destruct (within (allowed_roots r) q) eqn:Hw.
  - injection Hp as <-. split; [by exists raw|by left].
  - destruct capability as [c|]; [|done]. apply bind_Ok in Hp as ([] & Hv & [= <-]).
    split; [by exists raw|]. right. by exists c.
Qed.

(** A path the executor works on lies where it may: it is absolute, without
    [.] and [..], the links of the part that exists resolved, and it is under an allowed root, or it is read
    only and lies under the root of an approved grant that names this
    executor, the request's workspace and the capability at hand. *)
Theorem checked_path_is_confined h params key must_exist capability p :
  resolves_links fs ->
  checked_path r h params key must_exist capability = Ok p ->
  canonical_path p /\
  ((exists root, root ∈ allowed_roots r /\ root `prefix_of` p) \/
   exists c table grant,
     capability = Some c /\ fences h = Some table /\ grant ∈ ExecutorFences.read_grants table /\
     ReadGrant.state grant = ReadGrantState.Approved /\ ReadGrant.executor_id grant = id h /\
     grant_workspace params = Some (ReadGrant.workspace_session_id grant) /\
     c ∈ ReadGrant.capabilities grant /\ components (ReadGrant.real_root grant) `prefix_of` p).
Proof.
  intros Hfs [(raw & _ & Hres) Hwhere]%checked_path_Ok. split; [by eapply resolve_canonical|].
  destruct Hwhere as [Hw|(c & -> & Hv)]; [left; by apply within_Some|right].
  apply validate_read_grant_Ok in Hv as (ws & gid & table & grant & Hws & _ & Ht & Hg & Hc).
  unfold covered_by, starts_with in Hc. rewrite !andb_true_iff, !bool_decide_eq_true in Hc.
  destruct Hc as [[[[Hst Hw] He] Hcap] Hpre]. exists c, table, grant. rewrite Hws, Hw.
  split_and!; try done. by apply bfind_Some in Hg as [_ ?].
Qed.
End paths.

(** ** The life of a grant *)

(** [Q] holds of the grants in memory and of those in the file. *)
Definition of_grants (Q : list ReadGrant.t -> Prop) (h : host) : Prop :=
  forall t, fences h = Some t \/ file h = Some t -> Q (ExecutorFences.read_grants t).

Section lives.
Context `{!Text, !Serde ReadGrant.t}.
Variable fuel : nat.
Implicit Types Q : list ReadGrant.t -> Prop.

Lemma of_grants_fences Q g h :
  (forall f, ExecutorFences.read_grants (g f) = ExecutorFences.read_grants f) ->
  of_grants Q h -> of_grants Q (on_fences g h).
Proof.
  intros Hg Hq t [Ht|Ht]; simpl in Ht; [|by apply Hq; right].
  destruct (fences h) as [f|] eqn:Hf; [|done]. injection Ht as <-. rewrite Hg. apply Hq. by left.
Qed.

Lemma keeps_persist_grants Q : keeps (of_grants Q) persist_fences.
Proof.
  intros h w Hq. unfold persist_fences. run_handler. destruct (fences h) as [f|] eqn:Hf; [|done].
  destruct (io_ok w (io_at w)); [|done]. simpl. intros t [Ht|Ht]; simpl in Ht.
  - apply Hq. by left.
  - injection Ht as <-. apply Hq. by left.
Qed.

Lemma keeps_rewrite_grants Q grants : Q grants -> keeps (of_grants Q) (rewrite_grants grants).
Proof.
  intros Hg. unfold rewrite_grants. apply keeps_bind; [|intros; apply keeps_persist_grants].
  apply keeps_modify. intros h Hq t [Ht|Ht]; simpl in Ht; [|by apply Hq; right].
  destruct (fences h); [|done]. by injection Ht as <-.
Qed.

(** An answer means that the file and the memory hold the new grants. *)
Lemma rewrite_grants_Ok Q grants h w h' w' :
  Q grants -> fences h <> None -> rewrite_grants grants h w = (Ok tt, h', w') -> of_grants Q h'.
Proof.
  intros Hq Hf. unfold rewrite_grants, persist_fences. destruct (fences h) as [f|] eqn:Hfences; [|done].
  run_handler. unfold on_fences. simpl. rewrite Hfences. simpl. destruct (io_ok w (io_at w)); [|done]. simpl.
  intros [= <- _] t [Ht|Ht]; simpl in Ht; by injection Ht as <-.
Qed.

Lemma keeps_enforce_grants Q action params : keeps (of_grants Q) (enforce_authority fuel action params).
Proof.
  unfold enforce_authority. apply keeps_bind; [auto with keeps|]. intros h.
  destruct (fences h) as [table|]; [|auto with keeps].
  destruct (find_contract _ _) as [c|]; [|auto with keeps].
  assert (forall name, keeps (of_grants Q) (enforce_fences fuel table (id h) name c params)) as Hf.
  { intros name. unfold enforce_fences. 
    repeat first [apply keeps_check_authorities | apply keeps_persist_grants | apply keeps_bind; [|intros ?]];
      auto with keeps.
    induction a as [|x rest IH]; simpl; [auto with keeps|]. apply keeps_bind; [|done].
    unfold record_authority. keep. intros s. by apply of_grants_fences. }
  destruct (CapabilityDescriptor.authority c); try apply Hf; [auto with keeps|].
  unfold enforce_lease. keep.
Qed.

Context `{fs : FileSystem}.
Variable r : roots.

Lemma keeps_approve Q params :
  (forall grant l, from_value params = Ok grant -> Q l ->
     Q (bfilter (fun g => negb (grant_is (ReadGrant.id grant) g)) l ++ [grant])) ->
  keeps (of_grants Q) (read_grant_approve r params).
Proof.
  intros Happ. unfold read_grant_approve. intros h w Hq.
  revert w. change (from (of_grants Q) h (read_grant_approve r params)).
  unfold read_grant_approve. apply from_lift_bind; [done|]. intros grant Hgrant.
  apply from_get_bind. apply from_guard_bind; [done|]. intros _. apply from_lift_bind; [done|]. intros real _.
  apply from_guard_bind; [done|]. intros _. apply from_lift_bind; [done|]. intros table Ht%ok_or_Ok.
  apply from_keeps; [done|]. apply keeps_bind; [|auto with keeps]. apply keeps_rewrite_grants.
  apply Happ; [|by apply Hq; left]. clear -Hgrant. destruct (from_value params); simpl in Hgrant; congruence.
Qed.

Lemma keeps_revoke Q params :
  (forall id n l, Q l -> Q (update_first (grant_is id) (revoked n) l)) ->
  keeps (of_grants Q) (read_grant_revoke params).
Proof.
  intros Hup h w Hq. revert w. change (from (of_grants Q) h (read_grant_revoke params)).
  unfold read_grant_revoke. apply from_lift_bind; [done|]. intros gid _.
  apply from_get_bind. apply from_lift_bind; [done|]. intros table Ht%ok_or_Ok.
  apply from_lift_bind; [done|]. intros grant _. apply from_now_bind. intros n.
  apply from_keeps; [done|]. apply keeps_bind; [|auto with keeps]. apply keeps_rewrite_grants.
  apply Hup, Hq. by left.
Qed.

(** What happens to the grants of an executor: requests show authority, grants
    are approved and revoked, the process restarts. *)
Inductive grant_step : host -> host -> Prop :=
  | grant_enforce h action params w : grant_step h (enforce_authority fuel action params h w).1.2
  | grant_approve h params w : grant_step h (read_grant_approve r params h w).1.2
  | grant_revoke h params w : grant_step h (read_grant_revoke params h w).1.2
  | grant_restart h : grant_step h (open (id h) (target h) (file h)).

(** The same, but nobody approves a grant of the name [name] again. *)
Inductive without (name : string) : host -> host -> Prop :=
  | without_enforce h action params w : without name h (enforce_authority fuel action params h w).1.2
  | without_approve h params w :
      (forall grant, from_value params = Ok grant -> ReadGrant.id grant <> name) ->
      without name h (read_grant_approve r params h w).1.2
  | without_revoke h params w : without name h (read_grant_revoke params h w).1.2
  | without_restart h : without name h (open (id h) (target h) (file h)).

Definition distinct (l : list ReadGrant.t) : Prop := NoDup (ReadGrant.id <$> l).
Definition spent (name : string) (l : list ReadGrant.t) : Prop :=
  forall g, g ∈ l -> ReadGrant.id g = name -> ReadGrant.state g <> ReadGrantState.Approved.

Lemma update_first_ids name n l :
  ReadGrant.id <$> update_first (grant_is name) (revoked n) l = ReadGrant.id <$> l.
Proof.
  induction l as [|x l IH]; simpl; [done|]. destruct (grant_is name x); [done|].
  rewrite !fmap_cons. by rewrite IH.
Qed.

Lemma distinct_approve grant l :
  distinct l -> distinct (bfilter (fun g => negb (grant_is (ReadGrant.id grant) g)) l ++ [grant]).
Proof.
  unfold distinct. intros Hnd. rewrite fmap_app. apply NoDup_app. split.
  - eapply sublist_NoDup; [exact Hnd|]. apply fmap_sublist, bfilter_sublist.
  - split; [|apply NoDup_singleton]. intros x Hx [->|[]%not_elem_of_nil]%elem_of_cons.
    apply list_elem_of_fmap in Hx as (g & Hid & Hg). apply elem_of_bfilter in Hg as [Hne _].
    unfold grant_is in Hne. by rewrite bool_decide_eq_true_2 in Hne.
Qed.

Lemma spent_revoke name name' n l : spent name l -> spent name (update_first (grant_is name') (revoked n) l).
Proof.
  intros Hs. induction l as [|x l IH]; simpl; [done|].
  assert (spent name l) as Hl by (intros g Hg; apply Hs; by right).
  destruct (grant_is name' x); intros g [->|Hg]%elem_of_cons Hid; [done|by apply Hl| |by apply IH].
  by apply Hs; [left|].
Qed.

(** Revoking the one grant of a name leaves none approved. *)
Lemma revoke_spends name n l : distinct l -> spent name (update_first (grant_is name) (revoked n) l).
Proof.
  unfold distinct. induction l as [|x l IH]; simpl; [by intros _ g ?%not_elem_of_nil|].
  intros [Hnin Hnd]%NoDup_cons. destruct (grant_is name x) eqn:Hx; intros g [->|Hg]%elem_of_cons Hid; [done|..].
  - exfalso. apply Hnin. apply bool_decide_eq_true in Hx. rewrite Hx, <- Hid. by apply list_elem_of_fmap_2.
  - exfalso. apply bool_decide_eq_false in Hx. by apply Hx.
  - by apply IH.
Qed.

Lemma spent_approve name grant l :
  ReadGrant.id grant <> name -> spent name l ->
  spent name (bfilter (fun g => negb (grant_is (ReadGrant.id grant) g)) l ++ [grant]).
Proof.
  intros Hne Hs g [Hg|[->|[]%not_elem_of_nil]%elem_of_cons]%elem_of_app Hid; [|done].
  apply elem_of_bfilter in Hg as [_ Hg]. by apply Hs.
Qed.

Lemma of_grants_restart Q h : Q [] -> of_grants Q h -> of_grants Q (open (id h) (target h) (file h)).
Proof.
  intros Hnil Hq t [Ht|Ht]; simpl in Ht; [|by apply Hq; right].
  destruct (file h) as [f|] eqn:Hf; injection Ht as <-; [by apply Hq; right|done].
Qed.

Lemma grant_step_distinct h h' : grant_step h h' -> of_grants distinct h -> of_grants distinct h'.
Proof.
  destruct 1 as [h action params w|h params w|h params w|h]; intros Hd.
  - by apply keeps_enforce_grants.
  - apply keeps_approve; [|done]. intros grant l _. apply distinct_approve.
  - apply keeps_revoke; [|done]. intros name n l. unfold distinct. by rewrite update_first_ids.
  - apply of_grants_restart; [constructor|done].
Qed.

Lemma without_spent name h h' : without name h h' -> of_grants (spent name) h -> of_grants (spent name) h'.
Proof.
  destruct 1 as [h action params w|h params w Hne|h params w|h]; intros Hd.
  - by apply keeps_enforce_grants.
  - apply keeps_approve; [|done]. intros grant l Hgrant. by apply spent_approve, Hne.
  - apply keeps_revoke; [|done]. intros name' n l. apply spent_revoke.
  - apply of_grants_restart; [by intros g ?%not_elem_of_nil|done].
Qed.

(** C15. A revoked grant opens nothing any more.  When [read-grant.revoke] has
    answered for a grant, then through any further requests, approvals of other
    grants, revocations, failed writes and restarts, a path that is checked
    under that grant's name is let through only if it lies under an allowed root
    anyway. *)
Theorem revoked_grant_opens_nothing executor_id os h params w v h' w' name h'' params' key must_exist c p :
  rtc grant_step (open executor_id os None) h ->
  read_grant_revoke params h w = (Ok v, h', w') -> required_str params "grantId" = Ok name ->
  rtc (without name) h' h'' ->
  str_param params' "_readGrantId" = Some name ->
  checked_path r h'' params' key must_exist (Some c) = Ok p ->
  within (allowed_roots r) p = true.
Proof.
  intros Hl Hrev Hname Hlater Hgid Hpath.
  assert (of_grants distinct h) as Hdist.
  { assert (forall h1 h2, rtc grant_step h1 h2 -> of_grants distinct h1 -> of_grants distinct h2) as Hall.
    { induction 1 as [|h1 h2 h3 Hs _ IH]; [done|]. intros Hd. by eapply IH, grant_step_distinct. }
    eapply Hall; [exact Hl|]. intros t [[= <-]|Ht]; [constructor|done]. }
  assert (of_grants (spent name) h') as Hspent.
  { unfold read_grant_revoke in Hrev. ok_inv Hrev. rewrite Hname in Hok. injection Hok as <-.
    apply ok_or_Ok in Hok0 as Ht.
    destruct a2. eapply rewrite_grants_Ok; [|by rewrite Ht|exact Hok1].
    apply revoke_spends, Hdist. by left. }
  assert (of_grants (spent name) h'') as Hend.
  { clear -Hlater Hspent. induction Hlater as [|h1 h2 h3 Hs _ IH]; [done|]. by eapply IH, without_spent. }
  apply checked_path_Ok in Hpath as [_ [?|(? & [= <-] & Hv)]]; [done|].
  apply validate_read_grant_Ok in Hv as (ws & gid & table & grant & _ & Hgid' & Ht' & Hg & Hc).
  rewrite Hgid in Hgid'. injection Hgid' as <-. apply bfind_Some in Hg as [Hid Hin].
  apply bool_decide_eq_true in Hid. unfold covered_by in Hc. rewrite !andb_true_iff, !bool_decide_eq_true in Hc.
  exfalso. eapply (Hend table); [by left|exact Hin|done|tauto].
Qed.
End lives.

(** ** The theorems at work

    A machine with [/srv/shared], a link [/pub] to it, and [/home]. *)

Definition machine : FileSystem := {|
  exists_at p := bool_decide (p ∈ [[RootDir]; [RootDir; Normal "srv"]; [RootDir; Normal "srv"; Normal "shared"];
                                   [RootDir; Normal "pub"]; [RootDir; Normal "home"]]);
  canonicalize p :=
    if decide (p = [RootDir; Normal "pub"]) then Some [RootDir; Normal "srv"; Normal "shared"]
    else if decide (p ∈ [[RootDir]; [RootDir; Normal "srv"]; [RootDir; Normal "srv"; Normal "shared"];
                         [RootDir; Normal "home"]]) then Some p else None;
|}.

Lemma machine_resolves_links : resolves_links machine.
Proof.
  intros p q. simpl. case_decide; [intros [= <-]; by exists ["srv"; "shared"]|].
  case_decide as Hin; [|done]. intros [= <-].
  repeat (apply elem_of_cons in Hin as [->|Hin]); [by exists []|by exists ["srv"]|by exists ["srv"; "shared"]|
    by exists ["home"]|by apply not_elem_of_nil in Hin].
Qed.

Definition here : roots :=
  Roots [[RootDir; Normal "home"]] [[RootDir; Normal "srv"]].

Definition grant_of (name root : string) : ReadGrant.t :=
  ReadGrant.mk name "w1" "e1" root root ["filesystem.read"] ReadGrantState.Approved "agent" 1 (Some 2) None
    (Some "me") VNull.

#[local] Instance grant_codec : Serde ReadGrant.t := {|
  to_value g := VString (ReadGrant.id g);
  from_value v :=
    match str_param v "id", str_param v "realRoot" with
    | Some name, Some root => Ok (grant_of name root)
    | _, _ => Err "missing field"
    end;
|}.

Abbreviation fresh := (open "e1" Catalog.Linux None).
Definition approval (name root : string) : Value := json_object [("id", VString name); ("realRoot", VString root)].
Definition revocation (name : string) : Value := json_object [("grantId", VString name)].
Definition reading (path : string) : Value :=
  json_object [("path", VString path); ("_workspaceScope", VString "w1"); ("_readGrantId", VString "g1")].
Abbreviation approve_at h root :=
  (read_grant_approve (Serde0 := grant_codec) (fs := machine) here (approval "g1" root) h quiet_world).
Abbreviation revoke_at h := (read_grant_revoke (Serde0 := grant_codec) (revocation "g1") h quiet_world).

Abbreviation granted := (approve_at fresh "/srv/shared").1.2.
Abbreviation withdrawn := (revoke_at granted).1.2.
Abbreviation reopened := (open "e1" Catalog.Linux (file withdrawn)).

(** The link is followed before the grant is looked at. *)
Lemma checked_path_is_confined_witness :
  canonical_path [RootDir; Normal "srv"; Normal "shared"; Normal "new"; Normal "file"].
Proof.
  exact (proj1 (checked_path_is_confined (fs := machine) here granted (reading "/pub/new/file") "path" false
    (Some "filesystem.read") [RootDir; Normal "srv"; Normal "shared"; Normal "new"; Normal "file"]
    machine_resolves_links ltac:(vm_compute; reflexivity))).
Defined.

Lemma approval_taken : grant_step (H := plain_text) (Serde0 := grant_codec) 4 (fs := machine) here fresh granted.
Proof. apply grant_approve. Qed.
Lemma revocation_answered : revoke_at granted = (Ok (VString "g1"), withdrawn, (revoke_at granted).2).
Proof. apply ok_pair. vm_compute. done. Defined.
Lemma restarted_without : without (H := plain_text) (Serde0 := grant_codec) 4 (fs := machine) here "g1" withdrawn reopened.
Proof. apply without_restart. Qed.

Lemma revoked_grant_opens_nothing_witness :
  within (allowed_roots here) [RootDir; Normal "home"; Normal "notes"] = true.
Proof.
  exact (revoked_grant_opens_nothing (H := plain_text) (Serde0 := grant_codec) 4 (fs := machine) here "e1" Catalog.Linux granted (revocation "g1")
    quiet_world _ withdrawn _ "g1" reopened (reading "/home/notes") "path" false "filesystem.read" _
    (rtc_once _ _ approval_taken) revocation_answered eq_refl (rtc_once _ _ restarted_without) eq_refl
    ltac:(vm_compute; reflexivity)).
Defined.

(** Before the revocation the grant opens [/srv/shared], afterwards it does not. *)
Example revocation_bites :
  is_ok (checked_path (fs := machine) here granted (reading "/srv/shared/x") "path" false (Some "filesystem.read")) = true /\
  is_ok (checked_path (fs := machine) here reopened (reading "/srv/shared/x") "path" false (Some "filesystem.read")) = false.
Proof. by vm_compute. Qed.

(** [read-grant.approve] checks where a grant's root leads and keeps the root as
    it was written: a grant of the link [/pub] is approved and opens nothing,
    since the paths it is compared with have their links resolved. *)
Example approved_link_opens_nothing :
  is_ok (approve_at fresh "/pub").1.1 = true /\
  is_ok (checked_path (fs := machine) here (approve_at fresh "/pub").1.2 (reading "/pub/x") "path" false
           (Some "filesystem.read")) = false.
Proof. by vm_compute. Qed.
End Confinement.
