(* ===== verification/Processes.v ===== *)
(** * Supervised processes ([crates/workbench-runtime/src/process.rs])

    [ProcessTable] starts child processes, remembers them across restarts of the
    executor, watches their readiness and stops them.  A record names a process
    by its pid and by its birth identity (boot and start time), because a pid is
    given to another process once its owner is gone.  The machine is part of the
    state: what [/proc] shows, the files, the sockets, and the children that the
    next spawns will give; [Linux] is modelled.  A method is one
    step, during which the machine changes only by what the method does; [start],
    [restart] and [wait_ready] take the [Mutex] several times, and only for
    [wait_ready] the model lets others in between. *)

From Stdlib Require Import Ascii String.
From S2P Require Import Prelude RustStd RustText Json Protocol Contracts.

Module ProcessState.
Inductive t := Running | Stopped | Failed.
#[global] Instance eq_dec : EqDecision t.
Proof. solve_decision. Defined.
End ProcessState.

Module ReadinessState.
Inductive t := Pending | Ready | Failed | NotConfigured.
#[global] Instance eq_dec : EqDecision t.
Proof. solve_decision. Defined.
End ReadinessState.

Module ReadinessStatus.
Record t := mk {
  state : ReadinessState.t;
  attempts : Z;
}.
End ReadinessStatus.

Module ProcessRecord.
Record t := mk {
  id : string;
  pid : Z;
  birth_identity : option string;
  identity_verified : bool;
  observed_at : option Z;
  cwd : string;
  argv : list string;
  env : gmap string string;
  restartable : bool;
  metadata : Value;
  log_path : string;
  log_start_offset : Z;
  state : ProcessState.t;
  readiness : ReadinessStatus.t;
  phase : string;
  last_successful_probe_at : option Z;
  last_log_progress : option Z;
  readiness_spec : option Value;
  readiness_deadline_at : option Z;
  started_at : Z;
  updated_at : Z;
}.

(** The assignments of [refresh], [stop] and [update_metadata]. *)
Definition observe (at_ : Z) (r : t) : t :=
  mk (id r) (pid r) (birth_identity r) false (Some at_) (cwd r) (argv r) (env r) (restartable r)
     (metadata r) (log_path r) (log_start_offset r) (state r) (readiness r) (phase r)
     (last_successful_probe_at r) (last_log_progress r) (readiness_spec r) (readiness_deadline_at r)
     (started_at r) (updated_at r).
Definition verify (r : t) : t :=
  mk (id r) (pid r) (birth_identity r) true (observed_at r) (cwd r) (argv r) (env r) (restartable r)
     (metadata r) (log_path r) (log_start_offset r) (state r) (readiness r) (phase r)
     (last_successful_probe_at r) (last_log_progress r) (readiness_spec r) (readiness_deadline_at r)
     (started_at r) (updated_at r).
Definition end_as (s : ProcessState.t) (phase_ : string) (at_ : Z) (r : t) : t :=
  mk (id r) (pid r) (birth_identity r) (identity_verified r) (observed_at r) (cwd r) (argv r) (env r)
     (restartable r) (metadata r) (log_path r) (log_start_offset r) s (readiness r) phase_
     (last_successful_probe_at r) (last_log_progress r) (readiness_spec r) (readiness_deadline_at r)
     (started_at r) at_.
Definition progress (length : Z) (at_ : Z) (r : t) : t :=
  mk (id r) (pid r) (birth_identity r) (identity_verified r) (observed_at r) (cwd r) (argv r) (env r)
     (restartable r) (metadata r) (log_path r) (log_start_offset r) (state r) (readiness r) "BUILDING"
     (last_successful_probe_at r) (Some length) (readiness_spec r) (readiness_deadline_at r)
     (started_at r) at_.
Definition set_readiness (s : ReadinessStatus.t) (r : t) : t :=
  mk (id r) (pid r) (birth_identity r) (identity_verified r) (observed_at r) (cwd r) (argv r) (env r)
     (restartable r) (metadata r) (log_path r) (log_start_offset r) (state r) s (phase r)
     (last_successful_probe_at r) (last_log_progress r) (readiness_spec r) (readiness_deadline_at r)
     (started_at r) (updated_at r).
Definition be_ready (at_ : Z) (r : t) : t :=
  mk (id r) (pid r) (birth_identity r) (identity_verified r) (observed_at r) (cwd r) (argv r) (env r)
     (restartable r) (metadata r) (log_path r) (log_start_offset r) (state r)
     (ReadinessStatus.mk ReadinessState.Ready (ReadinessStatus.attempts (readiness r))) "READY"
     (Some at_) (last_log_progress r) (readiness_spec r) (readiness_deadline_at r)
     (started_at r) (updated_at r).
Definition touch (at_ : Z) (r : t) : t :=
  mk (id r) (pid r) (birth_identity r) (identity_verified r) (observed_at r) (cwd r) (argv r) (env r)
     (restartable r) (metadata r) (log_path r) (log_start_offset r) (state r) (readiness r) (phase r)
     (last_successful_probe_at r) (last_log_progress r) (readiness_spec r) (readiness_deadline_at r)
     (started_at r) at_.
Definition set_metadata (m : Value) (r : t) : t :=
  mk (id r) (pid r) (birth_identity r) (identity_verified r) (observed_at r) (cwd r) (argv r) (env r)
     (restartable r) m (log_path r) (log_start_offset r) (state r) (readiness r) (phase r)
     (last_successful_probe_at r) (last_log_progress r) (readiness_spec r) (readiness_deadline_at r)
     (started_at r) (updated_at r).

Definition ready_state (r : t) : ReadinessState.t := ReadinessStatus.state (readiness r).
Definition with_state (s : ReadinessState.t) (r : t) : t :=
  set_readiness (ReadinessStatus.mk s (ReadinessStatus.attempts (readiness r))) r.
End ProcessRecord.

(** ** The machine *)

Module Machine.
Record t := mk {
  (** [/proc/sys/kernel/random/boot_id] *)
  boot_id : option string;
  (** The pids that exist, with [/proc/<pid>/stat] where it can be read. *)
  processes : gmap Z (option string);
  (** The process groups that exist, and those that may not be signalled. *)
  groups : gset Z;
  refused : gset Z;
  files : gmap string string;
  directories : gset string;
  (** Whether some address of ["host:port"] takes a connection; [None] if it
      is not an address. *)
  connects : string -> option bool;
  (** What the next spawns give: a pid with its [stat], or a failure. *)
  children : list (option (Z * option string));
}.

Definition exists_ (m : t) (path : string) : bool :=
  bool_decide (path ∈ dom (files m)) || bool_decide (path ∈ directories m).
Definition length_of (m : t) (path : string) : option Z := Str.len <$> files m !! path.

Definition create (path : string) (m : t) : t :=
  mk (boot_id m) (processes m) (groups m) (refused m)
     (<[path := default "" (files m !! path)]> (files m)) (directories m) (connects m) (children m).
Definition born (pid : Z) (stat : option string) (rest : list (option (Z * option string))) (m : t) : t :=
  mk (boot_id m) (<[pid := stat]> (processes m)) ({[pid]} ∪ groups m) (refused m) (files m)
     (directories m) (connects m) rest.
Definition spawn_failed (rest : list (option (Z * option string))) (m : t) : t :=
  mk (boot_id m) (processes m) (groups m) (refused m) (files m) (directories m) (connects m) rest.

(** The words of a [stat] line after the command, which is in parentheses and
    may contain any of them. *)
Definition stat_fields (stat : string) : option (list string) :=
  (fun p => Text8.split_whitespace p.2) <$> Text8.rsplit_once ")" stat.

Definition ended (state : string) : bool := bool_decide (state ∈ ["Z"; "X"]).

(** [fs::read_to_string("/proc/<pid>/stat").ok()] *)
Definition stat_of (m : t) (pid : Z) : option string := default None (processes m !! pid).
(** The state letter, first after the command. *)
Definition run_state (m : t) (pid : Z) : option string :=
  stat ← stat_of m pid; fields ← stat_fields stat; fields !! 0%nat.

Definition process_birth_identity (m : t) (pid : Z) : option string :=
  stat ← stat_of m pid;
  fields ← stat_fields stat;
  state ← fields !! 0%nat;
  if ended state then None
  else
    boot ← boot_id m;
    start ← fields !! 19%nat;
    Some (Str.trim boot +:+ ":" +:+ start).

(** [kill(pid, 0)] finds every pid that exists. *)
Definition process_is_alive (m : t) (pid : Z) : bool :=
  negb (from_option ended false (run_state m pid)) && bool_decide (is_Some (processes m !! pid)).
End Machine.

Module ProcessTable.
Import ProcessRecord Machine.

(** A process the table started, with the identity it read for it. *)
Record child := Child {
  child_pid : Z;
  child_birth : option string;
}.
#[global] Instance child_eq_dec : EqDecision child.
Proof. solve_decision. Defined.

(** The table, its file, and the machine; [started] and [signalled] record what
    the table has done to it. *)
Record host := Host {
  records : gmap string ProcessRecord.t;
  persistent : bool;
  disk : option (gmap string ProcessRecord.t);
  machine : Machine.t;
  started : list child;
  signalled : list child;
}.
Definition set_records (rs : gmap string ProcessRecord.t) (h : host) : host :=
  Host rs (persistent h) (disk h) (machine h) (started h) (signalled h).
Definition set_disk (rs : gmap string ProcessRecord.t) (h : host) : host :=
  Host (records h) (persistent h) (Some rs) (machine h) (started h) (signalled h).
Definition set_machine (m : Machine.t) (h : host) : host :=
  Host (records h) (persistent h) (disk h) m (started h) (signalled h).
Definition add_started (c : child) (h : host) : host :=
  Host (records h) (persistent h) (disk h) (machine h) (started h ++ [c]) (signalled h).
Definition add_signal (c : child) (h : host) : host :=
  Host (records h) (persistent h) (disk h) (machine h) (started h) (signalled h ++ [c]).
Definition insert_record (id : string) (r : ProcessRecord.t) (h : host) : host :=
  set_records (<[id := r]> (records h)) h.

Definition handler := M host RpcError.t.

(** [if let Ok(x) = m]: an error is dropped, its effects stay. *)
Definition ok_of {A} (m : handler A) : handler (option A) := fun h w =>
  match m h w with
  | (Ok a, h', w') => (Ok (Some a), h', w')
  | (Err _, h', w') => (Ok None, h', w')
  | (Panic, h', w') => (Panic, h', w')
  end.

(** A system call that fails with [code]. *)
Definition io_step (code : string) : handler unit :=
  ok ← write_ok;
  guard ok (RpcError.new code "io error").

(** The new file takes the place of the old one as a whole. *)
Definition persist : handler unit :=
  h ← get;
  if persistent h then _ ← io_step "PROCESS_STATE_FAILED"; modify (set_disk (records h))
  else mret tt.

(** ** Readiness *)

Definition invalid_readiness (message : string) : RpcError.t := RpcError.new "INVALID_READINESS" message.

Definition spec_type (spec : Value) : string := default "" (str_param spec "type").

Definition probe_tcp (m : Machine.t) (spec : Value) : outcome RpcError.t bool :=
  let host := default "127.0.0.1" (str_param spec "host") in
  port ← ok_or (invalid_readiness "tcp port is required") (u64_param spec "port");
  ok_or (invalid_readiness "invalid socket address") (connects m (host +:+ ":" +:+ pretty port)).

Definition probe_file (m : Machine.t) (spec : Value) : bool :=
  from_option (exists_ m) false (str_param spec "path").

(** [^line$] is looked for as a whole line, anything else anywhere. *)
Definition log_matches (pattern content : string) : bool :=
  match Str.strip_prefix "^" pattern ≫= Text8.strip_suffix "$" with
  | Some exact => existsb (fun line => bool_decide (line = exact)) (Text8.lines content)
  | None => Str.contains pattern content
  end.

(** What the process has written since it was started. *)
Definition fresh_output (content : string) (log_start_offset : Z) : string :=
  Text8.from_utf8_lossy (Str.drop (Z.to_nat (Z.min log_start_offset (Str.len content))) content).

Definition probe_log (m : Machine.t) (spec : Value) (log_path : string) (log_start_offset : Z) :
    outcome RpcError.t bool :=
  pattern ← ok_or (invalid_readiness "log pattern is required") (str_param spec "pattern");
  Ok (from_option (fun content => log_matches pattern (fresh_output content log_start_offset)) false
        (files m !! log_path)).

(** [for probe in probes { if !f(probe)? { return Ok(false) } } Ok(true)] *)
Definition every (f : Value -> outcome RpcError.t bool) : list Value -> outcome RpcError.t bool :=
  fix go probes :=
    match probes with
    | [] => Ok true
    | probe :: probes' => ready ← f probe; if (ready : bool) then go probes' else Ok false
    end.

Definition probes_required : RpcError.t := invalid_readiness "all probes are required".
Definition probe_all (f : Value -> outcome RpcError.t bool) (probes : Value) : outcome RpcError.t bool :=
  match probes with
  | VArray [] => Err (invalid_readiness "all requires at least one probe")
  | VArray l => every f l
  | _ => Err probes_required
  end.

Fixpoint readiness_once (m : Machine.t) (log_path : string) (log_start_offset : Z) (spec : Value)
    {struct spec} : outcome RpcError.t bool :=
  let kind := spec_type spec in
  if decide (kind = "all") then
    match spec with
    | VObject fields =>
        on_field (probe_all (readiness_once m log_path log_start_offset)) (Err probes_required) "probes" fields
    | _ => Err probes_required
    end
  else if decide (kind = "tcp") then probe_tcp m spec
  else if decide (kind = "file") then Ok (probe_file m spec)
  else if decide (kind = "log") then probe_log m spec log_path log_start_offset
  else Err (invalid_readiness ("unsupported readiness type: " +:+ kind)).

(** ** Looking at a process *)

Definition differs (expected actual : option string) : bool :=
  match expected, actual with Some e, Some a => negb (bool_decide (e = a)) | _, _ => false end.
Definition agrees (expected actual : option string) : bool :=
  match expected, actual with Some e, Some a => bool_decide (e = a) | _, _ => false end.

Definition is_tunnel (metadata : Value) : bool := bool_decide (str_param metadata "kind" = Some "tunnel").

(** Tunnel readiness is probed again every time. *)
Definition reprobe (r : ProcessRecord.t) : ProcessRecord.t :=
  if is_tunnel (metadata r) && bool_decide (is_Some (readiness_spec r)) &&
     negb (bool_decide (ready_state r = ReadinessState.Pending))
  then with_state ReadinessState.Pending r else r.

Definition log_progress (r : ProcessRecord.t) : handler ProcessRecord.t :=
  h ← get;
  match length_of (machine h) (log_path r) with
  | Some length =>
      if length >? default (log_start_offset r) (last_log_progress r)
      then n ← now; mret (progress length n r)
      else mret r
  | None => mret r
  end.

Definition attempted (r : ProcessRecord.t) : ProcessRecord.t :=
  set_readiness (ReadinessStatus.mk (ready_state r)
                   (u64_saturating_add (ReadinessStatus.attempts (readiness r)) 1)) r.

(** [ready] is [Ok(None)] when no probe is configured. *)
Definition probe_result (m : Machine.t) (r : ProcessRecord.t) : outcome RpcError.t (option bool) :=
  match readiness_spec r with
  | None => Ok None
  | Some spec => ready ← readiness_once m (log_path r) (log_start_offset r) spec; Ok (Some ready)
  end.

Definition probe (r : ProcessRecord.t) : handler ProcessRecord.t :=
  h ← get;
  r' ← match probe_result (machine h) r with
       | Ok (Some true) => n ← now; mret (be_ready n r)
       | Ok (Some false) =>
           match readiness_deadline_at r with
           | Some deadline =>
               n ← now; mret (if n >=? deadline then with_state ReadinessState.Failed r else r)
           | None => mret r
           end
       | Ok None => mret r
       | Err _ => mret (with_state ReadinessState.Failed r)
       | Panic => lift Panic
       end;
  n ← now; mret (touch n r').

Definition probe_pending (r : ProcessRecord.t) : handler ProcessRecord.t :=
  if decide (ready_state r = ReadinessState.Pending) then probe (attempted r) else mret r.

Definition refresh (r : ProcessRecord.t) : handler ProcessRecord.t :=
  n ← now;
  h ← get;
  let r := observe n r in
  if negb (bool_decide (state r = ProcessState.Running)) then mret r
  else
    let current := process_birth_identity (machine h) (pid r) in
    if negb (process_is_alive (machine h) (pid r)) || differs (birth_identity r) current
    then n ← now; mret (end_as ProcessState.Failed "FAILED" n r)
    else if negb (agrees (birth_identity r) current) then mret r
    else
      r ← log_progress (reprobe (verify r));
      probe_pending r.

(** ** The methods *)

Definition not_found (id : string) : RpcError.t :=
  RpcError.new "PROCESS_NOT_FOUND" ("unknown process: " +:+ id).

(** [records.get_mut(id)] and [refresh]. *)
Definition look_at (id : string) : handler ProcessRecord.t :=
  h ← get;
  record ← lift (ok_or (not_found id) (records h !! id));
  record ← refresh record;
  _ ← modify (insert_record id record);
  mret record.

Definition get_process (id : string) : handler ProcessRecord.t :=
  record ← look_at id;
  _ ← persist;
  mret record.

(** [for record in records.values_mut() { refresh(record) }] *)
Fixpoint refresh_each (ids : list string) : handler unit :=
  match ids with
  | [] => mret tt
  | id :: ids' => _ ← look_at id; refresh_each ids'
  end.
Definition refresh_records : handler unit := h ← get; refresh_each (BTree.keys (records h)).

Definition list_processes : handler (list ProcessRecord.t) :=
  _ ← refresh_records;
  _ ← ok_of persist;
  h ← get;
  mret (BTree.values (records h)).

Definition refresh_all : handler unit := _ ← refresh_records; persist.

(** [command.spawn()]: the child leads a process group of its own. *)
Definition spawn : handler Z :=
  h ← get;
  match children (machine h) with
  | Some (pid, stat) :: rest => _ ← modify (set_machine (born pid stat rest (machine h))); mret pid
  | None :: rest =>
      _ ← modify (set_machine (spawn_failed rest (machine h)));
      throw (RpcError.new "PROCESS_START_FAILED" "io error")
  | [] => throw (RpcError.new "PROCESS_START_FAILED" "io error")
  end.

Definition readiness_deadline (n : Z) (readiness : option Value) : option Z :=
  (fun spec => u64_saturating_add n (default 180000 (u64_param spec "timeoutMs"))) <$> readiness.

Definition replaceable (id : string) (existing : option ProcessRecord.t) : outcome RpcError.t unit :=
  match existing with
  | Some record =>
      if bool_decide (state record = ProcessState.Running)
      then Err (RpcError.new
                  (if identity_verified record then "PROCESS_ALREADY_RUNNING" else "PROCESS_IDENTITY_UNKNOWN")
                  ("process " +:+ id +:+ " requires reconciliation before replacement"))
      else Ok tt
  | None => Ok tt
  end.

Definition log_failed : string := "LOG_CREATE_FAILED".

(** What [start] builds for the child it has got. *)
Definition launched (id cwd : string) (argv : list string) (env : gmap string string) (log_path : string)
    (readiness : option Value) (restartable : bool) (metadata : Value) (log_start_offset pid n : Z)
    (birth : option string) : ProcessRecord.t :=
  ProcessRecord.mk id pid birth false None cwd argv env restartable metadata log_path log_start_offset
    ProcessState.Running
    (ReadinessStatus.mk (if readiness is Some _ then ReadinessState.Pending else ReadinessState.NotConfigured) 0)
    "STARTING" None (Some log_start_offset) readiness (readiness_deadline n readiness) n n.

(** [start] once nothing stands in its way. *)
Definition launch (id cwd : string) (argv : list string) (env : gmap string string) (log_path : string)
    (readiness : option Value) (restartable : bool) (metadata : Value) : handler ProcessRecord.t :=
  _ ← io_step log_failed;
  h ← get;
  let log_start_offset := default 0 (length_of (machine h) log_path) in
  _ ← io_step log_failed;
  _ ← modify (set_machine (create log_path (machine h)));
  _ ← io_step log_failed;
  pid ← spawn;
  n ← now;
  h ← get;
  let birth := process_birth_identity (machine h) pid in
  let record := launched id cwd argv env log_path readiness restartable metadata log_start_offset pid n birth in
  _ ← modify (fun h => insert_record id record (add_started (Child pid birth) h));
  _ ← persist;
  mret record.

Definition start (id cwd : string) (argv : list string) (env : gmap string string) (log_path : string)
    (readiness : option Value) (restartable : bool) (metadata : Value) : handler ProcessRecord.t :=
  _ ← guard (negb (bool_decide (argv = []))) (RpcError.new "INVALID_PARAMS" "argv must not be empty");
  existing ← ok_of (get_process id);
  _ ← lift (replaceable id existing);
  launch id cwd argv env log_path readiness restartable metadata.

(** [kill(-pid, SIGTERM)]: nothing happens to a group that does not exist. *)
Definition stop_process (pid : Z) : handler unit :=
  h ← get;
  if negb (bool_decide (pid ∈ groups (machine h))) then mret tt
  else if bool_decide (pid ∈ refused (machine h))
  then throw (RpcError.new "PROCESS_STOP_FAILED" "io error")
  else modify (add_signal (Child pid (process_birth_identity (machine h) pid))).

Definition identity_unknown : RpcError.t :=
  RpcError.new "PROCESS_IDENTITY_UNKNOWN" "cannot signal an unverified recorded PID".

(** [stop] after it has looked. *)
Definition halt (id : string) (record : ProcessRecord.t) : handler ProcessRecord.t :=
  if bool_decide (state record = ProcessState.Running) then
    _ ← guard (identity_verified record) identity_unknown;
    _ ← stop_process (pid record);
    n ← now;
    let record := end_as ProcessState.Stopped (phase record) n record in
    _ ← modify (insert_record id record);
    mret record
  else mret record.

Definition stop (id : string) : handler ProcessRecord.t :=
  record ← look_at id;
  record ← halt id record;
  _ ← persist;
  mret record.

Definition update_metadata (id : string) (metadata : Value) : handler ProcessRecord.t :=
  h ← get;
  record ← lift (ok_or (not_found id) (records h !! id));
  n ← now;
  let record := touch n (set_metadata metadata record) in
  _ ← modify (insert_record id record);
  _ ← persist;
  mret record.

Definition restart (id : string) : handler ProcessRecord.t :=
  r ← get_process id;
  _ ← guard (restartable r)
        (RpcError.new "PROCESS_NOT_RESTARTABLE" "process was not started from a declared restart template");
  _ ← stop id;
  start (ProcessRecord.id r) (cwd r) (argv r) (env r) (log_path r) (readiness_spec r) true (metadata r).

(** ** In JSON *)

Definition state_name (s : ProcessState.t) : string :=
  match s with
  | ProcessState.Running => "running"
  | ProcessState.Stopped => "stopped"
  | ProcessState.Failed => "failed"
  end.
Definition readiness_name (s : ReadinessState.t) : string :=
  match s with
  | ReadinessState.Pending => "pending"
  | ReadinessState.Ready => "ready"
  | ReadinessState.Failed => "failed"
  | ReadinessState.NotConfigured => "not-configured"
  end.
Definition readiness_value (s : ReadinessStatus.t) : Value :=
  json_object [("state", VString (readiness_name (ReadinessStatus.state s)));
               ("attempts", vnat (ReadinessStatus.attempts s))].

(** The last [tail] lines of the log. *)
Definition logs (id : string) (tail : Z) : handler Value :=
  record ← get_process id;
  h ← get;
  content ← lift (ok_or (RpcError.new "LOG_READ_FAILED" "io error") (files (machine h) !! log_path record));
  _ ← guard (Text8.valid_utf8 content) (RpcError.new "LOG_READ_FAILED" "stream did not contain valid UTF-8");
  let lines := Text8.lines content in
  let first := (length lines - Z.to_nat tail)%nat in
  mret (json_object [("processId", VString id); ("path", VString (log_path record));
                     ("lines", VArray (VString <$> list.drop first lines))]).

(** ** Waiting for readiness *)

Definition process_error (code : string) (record : ProcessRecord.t) (retryable : bool) : RpcError.t :=
  RpcError.mk code (code +:+ " for process " +:+ ProcessRecord.id record) retryable
    (json_object [("processId", VString (ProcessRecord.id record));
                  ("lastSuccessfulProbeAt", vopt vnat (last_successful_probe_at record));
                  ("lastLogProgress", vopt vnat (last_log_progress record));
                  ("phase", VString (phase record))]).

(** The code of a timeout: whether the log has moved at all. *)
Definition timeout_code (record : ProcessRecord.t) : string :=
  if default (log_start_offset record) (last_log_progress record) <=? log_start_offset record
  then "BUILD_STALLED" else "READINESS_MARKER_MISSING".

(** What is settled by one look; [None] while the process may become ready. *)
Definition verdict (record : ProcessRecord.t) : option (outcome RpcError.t ProcessRecord.t) :=
  if decide (ready_state record = ReadinessState.Ready) then Some (Ok record)
  else if negb (bool_decide (state record = ProcessState.Running))
  then Some (Err (process_error "PROCESS_EXITED" record false))
  else if decide (ready_state record = ReadinessState.Failed)
  then Some (Err (process_error "READINESS_MARKER_MISSING" record true))
  else None.

(** Between two looks the method sleeps for 250 ms, while [others] happens:
    other requests to the table and whatever the machine does. *)
Fixpoint wait_loop (others : nat -> host -> world -> host * world) (fuel : nat) (id : string) (deadline : Z) :
    handler ProcessRecord.t :=
  match fuel with
  | O => lift Panic
  | S fuel' =>
      record ← get_process id;
      match verdict record with
      | Some o => lift o
      | None =>
          n ← now;
          if n >=? deadline then throw (process_error (timeout_code record) record true)
          else fun h w =>
            let '(h', w') := others fuel' h w in
            wait_loop others fuel' id deadline h' w'
      end
  end.

Definition wait_ready (others : nat -> host -> world -> host * world) (fuel : nat) (id : string) (timeout_ms : Z) :
    handler ProcessRecord.t :=
  n ← now;
  wait_loop others fuel id (n + Z.max timeout_ms 1).

(** ** A new executor on the same file *)

Definition reopened (h : host) : host :=
  Host (default ∅ (disk h)) (persistent h) (disk h) (machine h) (started h) (signalled h).
Definition open : handler unit := _ ← modify reopened; refresh_all.

(** ** Probes *)

(** A probe that holds on the machine. *)
Inductive satisfied (m : Machine.t) (log_path : string) (log_start_offset : Z) : Value -> Prop :=
  | satisfied_all spec probes :
      spec_type spec = "all" -> vget spec "probes" = Some (VArray probes) -> probes <> [] ->
      (forall probe, probe ∈ probes -> satisfied m log_path log_start_offset probe) ->
      satisfied m log_path log_start_offset spec
  | satisfied_tcp spec port :
      spec_type spec = "tcp" -> u64_param spec "port" = Some port ->
      connects m (default "127.0.0.1" (str_param spec "host") +:+ ":" +:+ pretty port) = Some true ->
      satisfied m log_path log_start_offset spec
  | satisfied_file spec path :
      spec_type spec = "file" -> str_param spec "path" = Some path -> exists_ m path = true ->
      satisfied m log_path log_start_offset spec
  | satisfied_log spec pattern content :
      spec_type spec = "log" -> str_param spec "pattern" = Some pattern ->
      files m !! log_path = Some content ->
      log_matches pattern (fresh_output content log_start_offset) = true ->
      satisfied m log_path log_start_offset spec.

(** Induction on a specification with the hypothesis on the probes of its fields. *)
Lemma spec_ind (P : Value -> Prop) :
  (forall v, (forall key probes p, vget v key = Some (VArray probes) -> p ∈ probes -> P p) -> P v) ->
  forall v, P v.
Proof.
  intros Hstep v. enough (P v /\ forall probes, v = VArray probes -> Forall P probes) as [? _]; [done|].
  induction v as [|b|n|s|vs IH|o IH] using Value_rect_nested; (split; [apply Hstep|]); try done.
  - intros probes [= <-]. eapply Forall_impl; [exact IH|]. by intros x [? _].
  - intros key probes p Hget Hp. simpl in Hget. assert (Forall P probes) as Hall.
    { clear Hp Hstep. induction IH as [|[k' x] o [_ Hx] _ IHo]; simpl in Hget; [done|].
      case_decide; [injection Hget as ->; by apply Hx|by apply IHo]. }
    by rewrite Forall_forall in Hall; apply Hall.
Qed.

Section readiness.
Variables (m : Machine.t) (log_path : string) (log_start_offset : Z).
Abbreviation probed := (readiness_once m log_path log_start_offset).

Lemma every_true f probes :
  every f probes = Ok true <-> forall probe, probe ∈ probes -> f probe = Ok true.
Proof.
  induction probes as [|p probes IH]; [by split; [intros _ q ?%not_elem_of_nil|]|].
  change (every f (p :: probes)) with (ready ← f p; if (ready : bool) then every f probes else Ok false).
  split.
  - destruct (f p) as [[|]| |] eqn:Hp; try done. cbn [mbind outcome_bind].
    intros Hr q [->|Hq]%elem_of_cons; [done|by apply IH].
  - intros Hall. rewrite (Hall p ltac:(left)). apply IH. intros q Hq. apply Hall. by right.
Qed.

(** The probes of an [all] are fields of it. *)
Lemma spec_type_object spec kind : spec_type spec = kind -> kind <> "" -> exists fields, spec = VObject fields.
Proof. destruct spec; intros <- Hk; try by destruct Hk. by eexists. Qed.

Lemma readiness_all spec :
  spec_type spec = "all" ->
  probed spec = match vget spec "probes" with Some probes => probe_all probed probes | None => Err probes_required end.
Proof.
  intros Hk. destruct (spec_type_object _ _ Hk ltac:(done)) as [fields ->].
  cbn [readiness_once]. rewrite Hk, decide_True by done. by rewrite on_field_get.
Qed.

Lemma readiness_tcp spec : spec_type spec = "tcp" -> probed spec = probe_tcp m spec.
Proof.
  intros Hk. destruct (spec_type_object _ _ Hk ltac:(done)) as [fields ->]. cbn [readiness_once]. by rewrite Hk.
Qed.
Lemma readiness_file spec : spec_type spec = "file" -> probed spec = Ok (probe_file m spec).
Proof.
  intros Hk. destruct (spec_type_object _ _ Hk ltac:(done)) as [fields ->]. cbn [readiness_once]. by rewrite Hk.
Qed.
Lemma readiness_log spec : spec_type spec = "log" -> probed spec = probe_log m spec log_path log_start_offset.
Proof.
  intros Hk. destruct (spec_type_object _ _ Hk ltac:(done)) as [fields ->]. cbn [readiness_once]. by rewrite Hk.
Qed.

Lemma readiness_kind spec b :
  probed spec = Ok b ->
  spec_type spec = "all" \/ spec_type spec = "tcp" \/ spec_type spec = "file" \/ spec_type spec = "log".
Proof. destruct spec; cbn [readiness_once]; repeat case_decide; tauto || done. Qed.

(** A readiness check passes exactly when its specification is satisfied:
    [all] when it has probes and each of them is, nested to any depth, the
    others when the connection, the file or the line of output is there. *)
Theorem readiness_once_iff spec :
  readiness_once m log_path log_start_offset spec = Ok true <-> satisfied m log_path log_start_offset spec.
Proof.
  split.
  - induction spec as [spec IH] using spec_ind. intros Hok.
    destruct (readiness_kind _ _ Hok) as [Hk|[Hk|[Hk|Hk]]].
    + rewrite readiness_all in Hok by done. destruct (vget spec "probes") as [[| | | |probes|]|] eqn:Hp; try done.
      destruct probes as [|p probes]; [done|]. eapply satisfied_all; [done|exact Hp|done|].
      intros q Hq. eapply IH; [exact Hp|done|]. cbn [probe_all] in Hok. by eapply every_true.
    + rewrite readiness_tcp in Hok by done. apply bind_Ok in Hok as (port & Hport%ok_or_Ok & Hc%ok_or_Ok).
      by eapply satisfied_tcp.
    + rewrite readiness_file in Hok by done. injection Hok as Hok. unfold probe_file in Hok.
      destruct (str_param spec "path") as [path|] eqn:Hp; [|done]. by eapply satisfied_file.
    + rewrite readiness_log in Hok by done. apply bind_Ok in Hok as (pattern & Hp%ok_or_Ok & [= Hm]).
      destruct (files m !! log_path) as [content|] eqn:Hf; [|done]. by eapply satisfied_log.
  - induction 1 as [spec probes Hk Hp Hne _ IH|spec port Hk Hp Hc|spec path Hk Hp He|spec pattern content Hk Hp Hf Hl].
    + rewrite readiness_all, Hp by done. destruct probes; [done|]. by apply every_true.
    + rewrite readiness_tcp by done. unfold probe_tcp. rewrite Hp. cbn. by rewrite Hc.
    + rewrite readiness_file by done. unfold probe_file. rewrite Hp. cbn. by rewrite He.
    + rewrite readiness_log by done. unfold probe_log. rewrite Hp, Hf. cbn. by rewrite Hl.
Qed.
End readiness.

(** The same machine with another log. *)
Definition with_file (path content : string) (m : Machine.t) : Machine.t :=
  Machine.mk (boot_id m) (processes m) (groups m) (refused m) (<[path := content]> (files m))
    (directories m) (connects m) (children m).

Lemma every_ext f g probes : (forall p, p ∈ probes -> f p = g p) -> every f probes = every g probes.
Proof.
  induction probes as [|p probes IH]; intros Hfg; [done|].
  change (every f (p :: probes)) with (ready ← f p; if (ready : bool) then every f probes else Ok false).
  change (every g (p :: probes)) with (ready ← g p; if (ready : bool) then every g probes else Ok false).
  rewrite Hfg by left. rewrite IH; [done|]. intros q Hq. apply Hfg. by right.
Qed.

Lemma readiness_ext m log off m' log' off' spec :
  connects m = connects m' -> (forall path, exists_ m path = exists_ m' path) ->
  (forall spec, probe_log m spec log off = probe_log m' spec log' off') ->
  readiness_once m log off spec = readiness_once m' log' off' spec.
Proof.
  intros Hc He Hl. induction spec as [spec IH] using spec_ind.
  destruct (decide (spec_type spec = "all")) as [Hk|Hk].
  - rewrite !readiness_all by done. destruct (vget spec "probes") as [[| | | |probes|]|] eqn:Hp; try done.
    destruct probes as [|p probes]; [done|]. cbn [probe_all]. apply every_ext. intros q Hq. by eapply IH.
  - assert (probe_tcp m spec = probe_tcp m' spec) as Ht by (unfold probe_tcp; by rewrite Hc).
    assert (probe_file m spec = probe_file m' spec) as Hf.
    { unfold probe_file. destruct (str_param spec "path"); [apply He|done]. }
    destruct spec; cbn [readiness_once]; rewrite !(decide_False (P := _ = "all")) by done; by rewrite ?Ht, ?Hf, ?Hl.
Qed.

(** A restarted process is not ready because of what an earlier run wrote:
    when the log is [old] up to the offset the process was started at, every
    specification, however nested, answers as if the log held only [new]. *)
Theorem readiness_ignores_previous_runs m log_path old new spec :
  readiness_once (with_file log_path (old +:+ new) m) log_path (Str.len old) spec =
  readiness_once (with_file log_path new m) log_path 0 spec.
Proof.
  apply readiness_ext; [done| |].
  - intros path. unfold exists_. simpl. by rewrite !dom_insert_L.
  - intros spec'. unfold probe_log. simpl. rewrite !lookup_insert_eq. simpl. unfold fresh_output, Str.len.
    rewrite Str.length_app, Z.min_l, Z.min_l, Nat2Z.id by lia. simpl.
    assert (forall b, Str.drop (String.length old) (old +:+ b) = b) as Hdrop by (intros b; by induction old).
    by rewrite Hdrop.
Qed.
End ProcessTable.
