(* ===== verification/Supervision.v ===== *)
(** * What the process table guarantees

    The life of a [ProcessTable] ([Processes]): whom it signals, which children
    it keeps track of, what its birth identities tell apart, and that waiting
    for readiness ends. *)

From Stdlib Require Import Ascii String.
From S2P Require Import Prelude RustStd RustText Json Protocol Contracts Processes.

Module Supervision.
Import ProcessRecord Machine ProcessTable.

(** ** What a look at a process finds out *)

Definition child_of (r : ProcessRecord.t) : child := Child (pid r) (birth_identity r).

(** The machine shows that the process is not there any more. *)
Definition gone (m : Machine.t) (c : child) : Prop :=
  process_is_alive m (child_pid c) = false \/
  differs (child_birth c) (process_birth_identity m (child_pid c)) = true \/
  child_pid c ∉ groups m.

(** What stays as the process was started. *)
Record same_launch (r r' : ProcessRecord.t) : Prop := {
  same_id : id r' = id r;
  same_child : child_of r' = child_of r;
  same_restartable : restartable r' = restartable r;
  same_metadata : metadata r' = metadata r;
  same_spec : readiness_spec r' = readiness_spec r;
}.
#[global] Instance same_launch_preorder : PreOrder same_launch.
Proof.
  split; [intros r; by split|]. intros r1 r2 r3 [] []. by split; congruence.
Qed.

Definition verified (m : Machine.t) (r : ProcessRecord.t) : Prop :=
  state r = ProcessState.Running /\ process_is_alive m (pid r) = true /\
  exists birth, birth_identity r = Some birth /\ process_birth_identity m (pid r) = Some birth.

(** [r'] is what [refresh] makes of [r]. *)
Record looked (m : Machine.t) (r r' : ProcessRecord.t) : Prop := {
  looked_launch : same_launch r r';
  looked_state : state r' = state r \/
    state r = ProcessState.Running /\ state r' = ProcessState.Failed /\ gone m (child_of r);
  looked_verified : identity_verified r' = true <-> verified m r;
  looked_running : identity_verified r' = true -> state r' = ProcessState.Running;
}.

(** Time goes on, and the disk stays as it is. *)
Record later (w w' : world) : Prop := {
  later_clock : clock w' = clock w;
  later_io : io_ok w' = io_ok w;
  later_at : (clock_at w <= clock_at w')%nat;
}.
#[global] Instance later_preorder : PreOrder later.
Proof. split; [intros w; by split|]. intros w1 w2 w3 [] []. split; [congruence..|lia]. Qed.
Lemma later_tick w : later w (clock_tick w).
Proof. split; [done..|simpl; lia]. Qed.
Lemma later_io_tick w : later w (io_tick w).
Proof. by split. Qed.
#[local] Hint Resolve later_tick later_io_tick : core.
Ltac ticks := repeat (etrans; [|apply later_tick]); reflexivity.

Lemma every_no_panic f probes : (forall p, p ∈ probes -> f p <> Panic) -> every f probes <> Panic.
Proof.
  induction probes as [|p probes IH]; intros Hall; [discriminate|].
  change (every f (p :: probes)) with (ready ← f p; if (ready : bool) then every f probes else Ok false).
  apply and_then_no_panic; [apply Hall; left|]. intros [|]; [|discriminate].
  apply IH. intros q Hq. apply Hall. by right.
Qed.

Lemma readiness_no_panic m log off spec : readiness_once m log off spec <> Panic.
Proof.
  induction spec as [spec IH] using spec_ind.
  destruct (decide (spec_type spec = "all")) as [Hk|Hk].
  - rewrite readiness_all by done. destruct (vget spec "probes") as [[| | | |probes|]|] eqn:Hp; try discriminate.
    destruct probes as [|p probes]; [discriminate|]. apply every_no_panic. intros q Hq. by eapply IH.
  - assert (probe_tcp m spec <> Panic) by (apply and_then_no_panic; intros; apply ok_or_no_panic).
    assert (probe_log m spec log off <> Panic).
    { apply and_then_no_panic; [apply ok_or_no_panic|discriminate]. }
    destruct spec; cbn [readiness_once]; rewrite decide_False by done; repeat (case_decide; [done || discriminate|]);
      discriminate.
Qed.

Lemma log_progress_run r h w :
  exists r' w', log_progress r h w = (Ok r', h, w') /\ later w w' /\ same_launch r r' /\
    state r' = state r /\ identity_verified r' = identity_verified r.
Proof.
  unfold log_progress. run_handler. destruct (length_of _ _); [|by eexists _, _].
  case_match; eexists _, _; (split; [done|]); by split_and!.
Qed.

Lemma probe_run r h w :
  exists r' w', probe r h w = (Ok r', h, w') /\ later w w' /\ same_launch r r' /\
    state r' = state r /\ identity_verified r' = identity_verified r.
Proof.
  unfold probe. run_handler. destruct (probe_result (machine h) r) as [[[|]|]| |] eqn:Hp; simpl.
  5:{ unfold probe_result in Hp. destruct (readiness_spec r) as [spec|]; [|done].
      pose proof (readiness_no_panic (machine h) (log_path r) (log_start_offset r) spec) as Hn.
      by destruct (readiness_once _ _ _ _). }
  2:{ destruct (readiness_deadline_at r) as [d|]; simpl; [case_match|];
        eexists _, _; (split; [done|]); (split; [ticks|]); done. }
  all: eexists _, _; (split; [done|]); (split; [ticks|]); done.
Qed.

Lemma probe_pending_run r h w :
  exists r' w', probe_pending r h w = (Ok r', h, w') /\ later w w' /\ same_launch r r' /\
    state r' = state r /\ identity_verified r' = identity_verified r.
Proof.
  unfold probe_pending. case_decide; [|by eexists _, _].
  destruct (probe_run (attempted r) h w) as (r' & w' & Hrun & Hw & Hl & Hs & Hv).
  eexists _, _. split; [exact Hrun|]. split; [done|]. split; [|done].
  destruct Hl. by split.
Qed.

Lemma agrees_Some b c : agrees b c = true <-> exists birth, b = Some birth /\ c = Some birth.
Proof.
  destruct b as [x|], c as [y|]; simpl; split; try done; try by intros (? & ? & ?).
  - intros ->%bool_decide_eq_true. by exists y.
  - intros (? & [= ->] & [= ->]). by apply bool_decide_eq_true.
Qed.
Lemma agrees_differs b c : agrees b c = true -> differs b c = false.
Proof. intros (x & -> & ->)%agrees_Some. simpl. by rewrite bool_decide_eq_true_2. Qed.

Lemma refresh_run r h w :
  exists r' w', refresh r h w = (Ok r', h, w') /\ later w w' /\ (clock_at w < clock_at w')%nat /\
    looked (machine h) r r'.
Proof.
  unfold refresh. set (m := machine h).
  assert (forall r0 r1, same_launch r0 r1 -> ~ verified m r0 -> identity_verified r1 = false ->
            state r1 = state r0 \/ state r0 = ProcessState.Running /\ state r1 = ProcessState.Failed /\
              gone m (child_of r0) -> looked m r0 r1) as Hnot.
  { intros r0 r1 Hl Hn Hv Hs. split; [done..| |]; rewrite Hv; by split || done. }
  run_handler. cbn [observe state pid birth_identity].
  destruct (bool_decide (state r = ProcessState.Running)) eqn:Hst; simpl.
  2:{ apply bool_decide_eq_false in Hst. eexists _, _. split; [done|]. split; [done|].
      split; [simpl; lia|]. apply Hnot; [done|by intros [? _]|done|by left]. }
  apply bool_decide_eq_true in Hst. fold m.
  destruct (process_is_alive m (pid r)) eqn:Ha; simpl.
  2:{ eexists _, _. split; [done|]. split; [ticks|]. split; [simpl; lia|].
      apply Hnot; [done|by intros (_ & ? & _); congruence|done|right]. by split_and!; [..|left]. }
  destruct (differs (birth_identity r) (process_birth_identity m (pid r))) eqn:Hd; simpl.
  { eexists _, _. split; [done|]. split; [ticks|]. split; [simpl; lia|].
    apply Hnot; [done| |done|right; by split_and!; [..|right; left]].
    intros (_ & _ & Hb). apply agrees_Some, agrees_differs in Hb. congruence. }
  destruct (agrees (birth_identity r) (process_birth_identity m (pid r))) eqn:Hag; simpl.
  2:{ eexists _, _. split; [done|]. split; [done|]. split; [simpl; lia|].
      apply Hnot; [done| |done|by left]. intros (_ & _ & Hb). apply agrees_Some in Hb. congruence. }
  destruct (log_progress_run (reprobe (verify (observe (clock w (clock_at w)) r))) h (clock_tick w)) as (r1 & w1 & -> & Hw1 & Hl1 & Hs1 & Hv1).
  destruct (probe_pending_run r1 h w1) as (r2 & w2 & -> & Hw2 & Hl2 & Hs2 & Hv2).
  assert (same_launch r (reprobe (verify (observe (clock w (clock_at w)) r))) /\ state (reprobe (verify (observe (clock w (clock_at w)) r))) = state r /\
          identity_verified (reprobe (verify (observe (clock w (clock_at w)) r))) = true) as (Hl0 & Hs0 & Hv0).
  { unfold reprobe. by case_match. }
  eexists _, _. split; [done|]. split; [etrans; [apply later_tick|]; by etrans|].
  split; [destruct Hw1, Hw2; simpl in *; lia|]. split.
  - etrans; [exact Hl0|]. by etrans.
  - left. congruence.
  - rewrite Hv2, Hv1, Hv0. split; [intros _|done]. split_and!; [done..|]. by apply agrees_Some.
  - intros _. congruence.
Qed.

Lemma look_at_run id h w :
  match records h !! id with
  | Some r => exists r' w', look_at id h w = (Ok r', insert_record id r' h, w') /\ later w w' /\
      (clock_at w < clock_at w')%nat /\ looked (machine h) r r'
  | None => look_at id h w = (Err (not_found id), h, w)
  end.
Proof.
  unfold look_at. destruct (records h !! id) as [r|] eqn:Hr.
  - destruct (refresh_run r h w) as (r' & w' & Hrun & Hw & Hlt & Hl). exists r', w'.
    run_handler. rewrite Hr. simpl. by rewrite Hrun.
  - run_handler. by rewrite Hr.
Qed.

Lemma persist_run h w :
  (exists w', persist h w = (Ok tt, if persistent h then set_disk (records h) h else h, w') /\ later w w') \/
  (exists e w', persist h w = (Err e, h, w') /\ later w w' /\ persistent h = true /\ io_ok w (io_at w) = false).
Proof.
  unfold persist, io_step. run_handler. destruct (persistent h) eqn:Hp; [|left; by eexists].
  destruct (io_ok w (io_at w)) eqn:Hio; [left|right]; repeat eexists; try done; by apply later_io_tick.
Qed.

(** ** What the table signals *)

Lemma keeps_ok_of {A} I (m : handler A) : keeps I m -> keeps I (ok_of m).
Proof. intros Hm h w Hh. specialize (Hm h w Hh). unfold ok_of. by destruct (m h w) as [[[]?]?]. Qed.
#[export] Hint Resolve keeps_ok_of : keeps.

Lemma keeps_io_step I code : keeps I (io_step code).
Proof. unfold io_step. keep. Qed.
#[export] Hint Resolve keeps_io_step : keeps.

Lemma keeps_look_at (I : host -> Prop) id :
  (forall h r r', I h -> records h !! id = Some r -> looked (machine h) r r' -> I (insert_record id r' h)) ->
  keeps I (look_at id).
Proof.
  intros Hins h w Hh. pose proof (look_at_run id h w) as Hrun. destruct (records h !! id) as [r|] eqn:Hr.
  - destruct Hrun as (r' & w' & -> & _ & _ & Hl). by eapply Hins.
  - by rewrite Hrun.
Qed.

(** Every record names a process the table started, and so does every signal. *)
Definition owned (h : host) : Prop :=
  (forall id r, records h !! id = Some r -> child_of r ∈ started h) /\
  (forall rs id r, disk h = Some rs -> rs !! id = Some r -> child_of r ∈ started h) /\
  (forall c, c ∈ signalled h -> c ∈ started h /\ child_birth c <> None).

Lemma owned_insert id r h : owned h -> child_of r ∈ started h -> owned (insert_record id r h).
Proof.
  intros (Hr & Hd & Hs) Hin. split; [|by split]. intros id' r'. simpl.
  destruct (decide (id = id')) as [->|Hne]; [rewrite lookup_insert_eq; by intros [= <-]|].
  rewrite lookup_insert_ne by done. apply Hr.
Qed.

Lemma looked_child m r r' : looked m r r' -> child_of r' = child_of r.
Proof. by intros [[_ Hc _ _ _] _ _ _]. Qed.

Lemma owned_look_at id : keeps owned (look_at id).
Proof.
  apply keeps_look_at. intros h r r' Ho Hr Hl. apply owned_insert; [done|].
  rewrite (looked_child _ _ _ Hl). by eapply (proj1 Ho).
Qed.

Lemma owned_persist : keeps owned persist.
Proof.
  intros h w Ho. destruct (persist_run h w) as [(w' & -> & _)|(e & w' & -> & _)]; [|done]. simpl.
  destruct (persistent h); [|done]. destruct Ho as (Hr & Hd & Hs). split; [done|]. split; [|done].
  intros rs id r [= <-]. apply Hr.
Qed.
#[local] Hint Resolve owned_look_at owned_persist : keeps.

Lemma owned_get id : keeps owned (get_process id).
Proof. unfold get_process. keep. Qed.
#[local] Hint Resolve owned_get : keeps.

Lemma owned_refresh_each ids : keeps owned (refresh_each ids).
Proof. induction ids as [|id ids IH]; simpl; keep. Qed.
#[local] Hint Resolve owned_refresh_each : keeps.

Lemma owned_machine m h : owned h -> owned (set_machine m h).
Proof. done. Qed.

Lemma owned_spawn : keeps owned spawn.
Proof.
  intros h w Ho. unfold spawn. run_handler. by destruct (children (machine h)) as [|[[pid stat]|] rest].
Qed.
#[local] Hint Resolve owned_spawn : keeps.

Lemma owned_launch id r h : owned h -> owned (insert_record id r (add_started (child_of r) h)).
Proof.
  intros (Hr & Hd & Hs). apply owned_insert; [|apply elem_of_app; right; left]. split_and!.
  - intros id' r' Hin. apply elem_of_app. left. by eapply Hr.
  - intros rs id' r' Hrs Hin. apply elem_of_app. left. by eapply Hd.
  - intros c Hc. destruct (Hs c Hc). split; [|done]. apply elem_of_app. by left.
Qed.

Lemma owned_start id cwd argv env log readiness restartable metadata :
  keeps owned (start id cwd argv env log readiness restartable metadata).
Proof.
  unfold start, launch. keep; [done|]. intros h. apply (owned_launch _ (launched _ _ _ _ _ _ _ _ _ _ _ _)).
Qed.
#[local] Hint Resolve owned_start : keeps.

Definition stopped (n : Z) (r : ProcessRecord.t) : ProcessRecord.t :=
  end_as ProcessState.Stopped (phase r) n r.

(** A signal goes out only for a record whose process has just been found at
    its pid. *)
Inductive halted (id : string) (r : ProcessRecord.t) (h : host) : outcome RpcError.t ProcessRecord.t -> host -> Prop :=
  | halted_ended : state r <> ProcessState.Running -> halted id r h (Ok r) h
  | halted_refused e : state r = ProcessState.Running -> halted id r h (Err e) h
  | halted_gone n :
      state r = ProcessState.Running -> pid r ∉ groups (machine h) ->
      halted id r h (Ok (stopped n r)) (insert_record id (stopped n r) h)
  | halted_signalled n :
      state r = ProcessState.Running ->
      process_birth_identity (machine h) (pid r) = birth_identity r -> birth_identity r <> None ->
      halted id r h (Ok (stopped n r)) (insert_record id (stopped n r) (add_signal (child_of r) h)).

Lemma halt_run id r h w :
  (identity_verified r = true -> verified (machine h) r) ->
  exists o h' w', halt id r h w = (o, h', w') /\ later w w' /\ halted id r h o h'.
Proof.
  intros Hv. unfold halt, stop_process. run_handler.
  destruct (bool_decide (state r = ProcessState.Running)) eqn:Hst.
  2:{ apply bool_decide_eq_false in Hst. eexists _, _, _. by split_and!; [..|constructor]. }
  apply bool_decide_eq_true in Hst. destruct (identity_verified r).
  2:{ eexists _, _, _. by split_and!; [..|constructor]. }
  destruct (Hv eq_refl) as (_ & _ & birth & Hb & Hm).
  simpl. destruct (bool_decide (pid r ∈ groups (machine h))) eqn:Hg; simpl.
  - destruct (bool_decide (pid r ∈ refused (machine h))); eexists _, _, _; (split; [done|]); (split; [done|]);
      [by constructor|]. rewrite Hm, <- Hb. apply halted_signalled; [done|by rewrite Hm|by rewrite Hb].
  - apply bool_decide_eq_false in Hg. eexists _, _, _. split; [done|]. split; [done|]. by constructor.
Qed.

Lemma owned_halted id r h o h' : owned h -> child_of r ∈ started h -> halted id r h o h' -> owned h'.
Proof.
  intros Ho Hin [| |n _ _|n _ _ Hb]; [done|done|by apply owned_insert|].
  apply owned_insert; [|done]. destruct Ho as (Hr & Hd & Hs). split; [done|]. split; [done|].
  intros c [Hc|[->|[]%not_elem_of_nil]%elem_of_cons]%elem_of_app; [by apply Hs|done].
Qed.

(** The three parts of [stop]. *)
Lemma stop_run id h w :
  match records h !! id with
  | None => stop id h w = (Err (not_found id), h, w)
  | Some r =>
      exists r' o h' w',
        looked (machine h) r r' /\ halted id r' (insert_record id r' h) o h' /\ later w w' /\
        stop id h w =
          match o with Ok a => (_ ← persist; mret a) h' w' | Err e => (Err e, h', w') | Panic => (Panic, h', w') end
  end.
Proof.
  pose proof (look_at_run id h w) as Hrun. unfold stop.
  destruct (records h !! id) as [r|] eqn:Hr; [|by apply bind_run_Err].
  destruct Hrun as (r' & w1 & Hrun & Hw & _ & Hl). rewrite (bind_run_Ok _ _ _ _ _ _ _ Hrun).
  destruct (halt_run id r' (insert_record id r' h) w1) as (o & h' & w2 & Hhalt & Hw2 & Hh).
  { intros Hv. apply Hl in Hv as Hver. destruct Hver as (_ & Ha & b & Hb & Hm).
    pose proof (looked_child _ _ _ Hl) as [= Hp Hi]. split; [by apply Hl|]. rewrite Hp, Hi. split; [done|].
    by exists b. }
  exists r', o, h', w2. split; [done|]. split; [done|]. split; [by etrans|]. destruct o as [a|e|].
  - by rewrite (bind_run_Ok _ _ _ _ _ _ _ Hhalt).
  - by rewrite (bind_run_Err _ _ _ _ _ _ _ Hhalt).
  - inversion Hh.
Qed.

Lemma owned_stop id : keeps owned (stop id).
Proof.
  intros h w Ho. pose proof (stop_run id h w) as Hrun. destruct (records h !! id) as [r|] eqn:Hr; [|by rewrite Hrun].
  destruct Hrun as (r' & o & h' & w' & Hl & Hh & _ & ->).
  assert (child_of r' ∈ started h) as Hin by (rewrite (looked_child _ _ _ Hl); exact (proj1 Ho _ _ Hr)).
  assert (owned h') as Ho' by (eapply owned_halted; [..|exact Hh]; [by apply owned_insert|done]).
  destruct o as [a|e|]; [|done|done]. revert h' w' Hh Ho'. intros h' w' _. revert h' w'.
  change (keeps owned (_ ← persist; mret a)). keep.
Qed.
#[local] Hint Resolve owned_stop : keeps.

Lemma owned_update id metadata : keeps owned (update_metadata id metadata).
Proof.
  intros h w Ho. revert w. change (from owned h (update_metadata id metadata)). unfold update_metadata.
  apply from_get_bind. apply from_lift_bind; [done|]. intros r Hr%ok_or_Ok. apply from_now_bind. intros n.
  apply from_modify_bind. apply from_keeps; [|keep]. apply owned_insert; [done|]. exact (proj1 Ho _ _ Hr).
Qed.

Lemma owned_list : keeps owned list_processes.
Proof. unfold list_processes, refresh_records. keep. Qed.

Lemma owned_restart id : keeps owned (restart id).
Proof. unfold restart. keep. Qed.

Lemma owned_open : keeps owned open.
Proof.
  unfold open, refresh_all, refresh_records. keep. intros h (Hr & Hd & Hs). split; [|done].
  intros id r. simpl. destruct (disk h) as [rs|] eqn:Hdisk; simpl; [by apply Hd|by rewrite lookup_empty].
Qed.

(** ** The life of a table

    Its methods in any order, in the worlds that are [allowed], new executors on
    its file, and a machine that changes as it likes in between. *)
Inductive step (allowed : world -> Prop) : host -> host -> Prop :=
  | step_start h id cwd argv env log readiness restartable metadata w :
      allowed w -> step allowed h (start id cwd argv env log readiness restartable metadata h w).1.2
  | step_get h id w : allowed w -> step allowed h (get_process id h w).1.2
  | step_list h w : allowed w -> step allowed h (list_processes h w).1.2
  | step_stop h id w : allowed w -> step allowed h (stop id h w).1.2
  | step_update h id metadata w : allowed w -> step allowed h (update_metadata id metadata h w).1.2
  | step_restart h id w : allowed w -> step allowed h (restart id h w).1.2
  | step_open h w : allowed w -> step allowed h (open h w).1.2
  | step_machine h m : step allowed h (set_machine m h).

Definition new_table (persistent : bool) (m : Machine.t) : host := Host ∅ persistent None m [] [].
Definition lifetime : host -> host -> Prop := rtc (step (fun _ => True)).

Lemma owned_new p m : owned (new_table p m).
Proof. split_and!; [intros id r Hr; by simpl in Hr; rewrite lookup_empty in Hr|done|]. by intros c ?%not_elem_of_nil. Qed.

Lemma owned_step allowed h h' : step allowed h h' -> owned h -> owned h'.
Proof.
  destruct 1; intros Ho; [by apply owned_start|by apply owned_get|by apply owned_list|by apply owned_stop|
    by apply owned_update|by apply owned_restart|by apply owned_open|done].
Qed.

(** C25. The table never signals a process it has not started.  Whatever happens,
    pids given to other processes, restarts of the executor, lost writes, a
    SIGTERM goes only to a process group whose leader has, at that moment, the pid
    and the birth identity of a child that the table itself has started. *)
Theorem signals_reach_own_children p m h c :
  lifetime (new_table p m) h -> c ∈ signalled h -> c ∈ started h /\ child_birth c <> None.
Proof.
  intros Hl Hc. enough (owned h) as (_ & _ & Hs) by (by apply Hs).
  pose proof (owned_new p m) as Ho. revert Ho. clear Hc.
  induction Hl as [|h1 h2 h3 Hs _ IH]; [done|]. intros Ho. by eapply IH, owned_step.
Qed.

(** ** No child is forgotten *)

(** Every child of [st] has a record in [rs], or was told to end, or has been
    seen to be gone; and a record that is not running has one of the last two
    reasons. *)
Section accounts.
Variable past : list Machine.t.

Definition settled (sig : list child) (c : child) : Prop := c ∈ sig \/ exists m, m ∈ past /\ gone m c.

Record accounts (sig st : list child) (rs : gmap string ProcessRecord.t) : Prop := {
  every_child : forall c, c ∈ st -> (exists id r, rs !! id = Some r /\ child_of r = c) \/ settled sig c;
  ended_settled : forall id r, rs !! id = Some r -> state r <> ProcessState.Running -> settled sig (child_of r);
}.

Lemma settled_more sig sig' c : settled sig c -> settled (sig ++ sig') c.
Proof. intros [?|?]; [left; apply elem_of_app; by left|by right]. Qed.

Lemma accounts_signal sig sig' st rs : accounts sig st rs -> accounts (sig ++ sig') st rs.
Proof.
  intros [Hc He]. split.
  - intros c [?|?]%Hc; [by left|right; by apply settled_more].
  - intros id r Hr Hs. by eapply settled_more, He.
Qed.

(** A record changes, its child does not. *)
Lemma accounts_update sig st rs id r r' :
  accounts sig st rs -> rs !! id = Some r -> child_of r' = child_of r ->
  (state r' <> ProcessState.Running -> settled sig (child_of r')) -> accounts sig st (<[id := r']> rs).
Proof.
  intros [Hc He] Hr Hch Hst. split.
  - intros c [(id0 & r0 & Hr0 & Hc0)|?]%Hc; [left|by right].
    destruct (decide (id = id0)) as [<-|Hne].
    + exists id, r'. rewrite lookup_insert_eq. split; [done|]. congruence.
    + exists id0, r0. by rewrite lookup_insert_ne.
  - intros id0 r0. destruct (decide (id = id0)) as [<-|Hne].
    + rewrite lookup_insert_eq. intros [= <-]. apply Hst.
    + rewrite lookup_insert_ne by done. apply He.
Qed.

(** A new child takes the place of a record that is settled. *)
Lemma accounts_launch sig st rs id r :
  accounts sig st rs -> (forall r0, rs !! id = Some r0 -> state r0 <> ProcessState.Running) ->
  state r = ProcessState.Running -> accounts sig (st ++ [child_of r]) (<[id := r]> rs).
Proof.
  intros [Hc He] Hfree Hst. split.
  - intros c [Hin|[->|[]%not_elem_of_nil]%elem_of_cons]%elem_of_app.
    + destruct (Hc c Hin) as [(id0 & r0 & Hr0 & <-)|?]; [|by right].
      destruct (decide (id = id0)) as [<-|Hne]; [right; by eapply He, Hfree|left].
      exists id0, r0. by rewrite lookup_insert_ne.
    + left. exists id, r. by rewrite lookup_insert_eq.
  - intros id0 r0. destruct (decide (id = id0)) as [<-|Hne].
    + rewrite lookup_insert_eq. by intros [= <-].
    + rewrite lookup_insert_ne by done. apply He.
Qed.

(** The table and its file account for the children. *)
Definition accounted (h : host) : Prop :=
  persistent h = true /\ accounts (signalled h) (started h) (records h) /\
  accounts (signalled h) (started h) (default ∅ (disk h)).
Definition current (h : host) : Prop := accounted h /\ machine h ∈ past.

Lemma current_looked id h r r' :
  current h -> records h !! id = Some r -> looked (machine h) r r' -> current (insert_record id r' h).
Proof.
  intros [(Hp & Hr & Hd) Hm] Hin Hl. split; [|done]. split; [done|]. split; [|done].
  eapply accounts_update; [done|exact Hin|by eapply looked_child|].
  rewrite (looked_child _ _ _ Hl). destruct (looked_state _ _ _ Hl) as [->|(_ & _ & Hg)].
  - exact (ended_settled _ _ _ Hr _ _ Hin).
  - intros _. right. by exists (machine h).
Qed.

Lemma current_look_at id : keeps current (look_at id).
Proof. apply keeps_look_at. intros. by eapply current_looked. Qed.

Lemma current_persist : keeps current persist.
Proof.
  intros h w Hc. destruct (persist_run h w) as [(w' & -> & _)|(e & w' & -> & _)]; [|done]. simpl.
  destruct (persistent h) eqn:Hp; [|done]. destruct Hc as [(_ & Hr & Hd) Hm]. by split.
Qed.
#[local] Hint Resolve current_look_at current_persist : keeps.

Lemma current_get id : keeps current (get_process id).
Proof. unfold get_process. keep. Qed.
#[local] Hint Resolve current_get : keeps.
Lemma current_refresh_each ids : keeps current (refresh_each ids).
Proof. induction ids as [|id ids IH]; simpl; keep. Qed.
#[local] Hint Resolve current_refresh_each : keeps.
Lemma current_list : keeps current list_processes.
Proof. unfold list_processes, refresh_records. keep. Qed.

Lemma current_open : keeps current open.
Proof. unfold open, refresh_all, refresh_records. keep. by intros h [(Hp & Hr & Hd) Hm]. Qed.

Lemma current_update id metadata : keeps current (update_metadata id metadata).
Proof.
  intros h w Ho. revert w. change (from current h (update_metadata id metadata)). unfold update_metadata.
  apply from_get_bind. apply from_lift_bind; [done|]. intros r Hr%ok_or_Ok. apply from_now_bind. intros n.
  apply from_modify_bind. apply from_keeps; [|keep]. destruct Ho as [(Hp & Hacc & Hd) Hm].
  split; [|done]. split; [done|]. split; [|done]. eapply accounts_update; [done|exact Hr|done|].
  exact (ended_settled _ _ _ Hacc _ _ Hr).
Qed.

Lemma current_halted id r h o h' :
  current h -> records h !! id = Some r -> halted id r h o h' -> current h'.
Proof.
  intros [(Hp & Hr & Hd) Hm] Hin [| |n _ Hg|n _ _ _]; [done|done|..].
  - split; [|done]. split; [done|]. split; [|done]. eapply accounts_update; [done|exact Hin|done|].
    intros _. right. exists (machine h). split; [done|]. right. by right.
  - split; [|done]. split; [done|]. split; [|by apply accounts_signal].
    eapply accounts_update; [by apply accounts_signal|exact Hin|done|].
    intros _. left. apply elem_of_app. right. by left.
Qed.

Lemma current_stop id : keeps current (stop id).
Proof.
  intros h w Ho. pose proof (stop_run id h w) as Hrun. destruct (records h !! id) as [r|] eqn:Hr; [|by rewrite Hrun].
  destruct Hrun as (r' & o & h' & w' & Hl & Hh & _ & ->).
  assert (current (insert_record id r' h)) as Hcur by (by eapply current_looked).
  eapply current_halted in Hh as Ho'; [|done|simpl; apply lookup_insert_eq].
  destruct o as [a|e|]; [|done|done]. revert h' w' Hh Ho'. intros h' w' _. revert h' w'.
  change (keeps current (_ ← persist; mret a)). keep.
Qed.

Definition writable (w : world) : Prop := forall i, io_ok w i = true.

Lemma writable_later w w' : later w w' -> writable w -> writable w'.
Proof. intros [_ Hio _] Hw i. by rewrite Hio. Qed.

Lemma io_step_run code h w : writable w -> io_step code h w = (Ok tt, h, io_tick w).
Proof. intros Hw. unfold io_step. run_handler. by rewrite Hw. Qed.

Lemma persist_writable h w :
  writable w -> persistent h = true -> exists w', persist h w = (Ok tt, set_disk (records h) h, w') /\ later w w'.
Proof.
  intros Hw Hp. destruct (persist_run h w) as [(w' & Hrun & Hl)|(e & w' & _ & _ & _ & Hio)]; [|by rewrite Hw in Hio].
  rewrite Hp in Hrun. by exists w'.
Qed.

Lemma launch_accounted id cwd argv env log readiness restartable metadata h w :
  writable w -> accounted h -> (forall r, records h !! id = Some r -> state r <> ProcessState.Running) ->
  accounted (launch id cwd argv env log readiness restartable metadata h w).1.2.
Proof.
  intros Hw (Hp & Hr & Hd) Hfree. assert (forall w', later w w' -> writable w') as Hlater.
  { intros w' Hl. by eapply writable_later. }
  unfold launch. rewrite (bind_run_Ok _ _ _ _ _ _ _ (io_step_run _ _ _ Hw)). run_handler.
  rewrite io_step_run by (apply Hlater; by auto). cbn. rewrite io_step_run by (apply Hlater; by repeat (etrans; [|apply later_io_tick])).
  cbn. unfold spawn. run_handler. destruct (children _) as [|[[p stat]|] rest]; cbn; [done| |done].
  match goal with |- accounted (let (_, _) := persist ?h1 ?w1 in _).1.2 =>
    destruct (persist_writable h1 w1) as (w2 & -> & _); [apply Hlater|done|] end.
  { etrans; [|apply later_tick]. by repeat (etrans; [|apply later_io_tick]). }
  cbn. pose proof (accounts_launch _ _ _ id (launched id cwd argv env log readiness restartable metadata
    (default 0 (length_of (machine h) log)) p (clock w (clock_at w))
    (process_birth_identity (born p stat rest (create log (machine h))) p)) Hr Hfree eq_refl) as Ha. by split_and!.
Qed.

Lemma start_accounted id cwd argv env log readiness restartable metadata h w :
  writable w -> current h -> accounted (start id cwd argv env log readiness restartable metadata h w).1.2.
Proof.
  intros Hw Hc. unfold start, guard. destruct (negb _); [|by destruct Hc].
  change (mret tt ≫= ?k) with (k tt). cbn beta.
  pose proof (current_get id h w Hc) as Hc1. pose proof (look_at_run id h w) as Hlook.
  destruct (records h !! id) as [r|] eqn:Hr.
  - destruct Hlook as (r' & w1 & Hlook & Hl1 & _ & Hl). unfold get_process in Hc1.
    rewrite (bind_run_Ok _ _ _ _ _ _ _ Hlook) in Hc1.
    destruct (persist_writable (insert_record id r' h) w1) as (w2 & Hper & Hl2); [by eapply writable_later|by destruct Hc as [(? & _) _]|].
    rewrite (bind_run_Ok _ _ _ _ _ _ _ Hper) in Hc1. simpl in Hc1.
    assert (ok_of (get_process id) h w = (Ok (Some r'), set_disk (<[id:=r']> (records h)) (insert_record id r' h), w2)) as Hget.
    { unfold ok_of, get_process. rewrite (bind_run_Ok _ _ _ _ _ _ _ Hlook). by rewrite (bind_run_Ok _ _ _ _ _ _ _ Hper). }
    rewrite (bind_run_Ok _ _ _ _ _ _ _ Hget). unfold replaceable.
    destruct (bool_decide (state r' = ProcessState.Running)) eqn:Hst; [by destruct Hc1|].
    apply bool_decide_eq_false in Hst. change (lift (Ok tt) ≫= ?k) with (k tt). cbn beta.
    apply launch_accounted; [eapply writable_later; [|done]; by etrans|by destruct Hc1|].
    intros r0. simpl. rewrite lookup_insert_eq. by intros [= <-].
  - assert (ok_of (get_process id) h w = (Ok None, h, w)) as Hget.
    { unfold ok_of, get_process. by rewrite (bind_run_Err _ _ _ _ _ _ _ Hlook). }
    rewrite (bind_run_Ok _ _ _ _ _ _ _ Hget). apply launch_accounted; [done|by destruct Hc|]. by rewrite Hr.
Qed.

Lemma get_process_later id h w : later w (get_process id h w).2 /\ machine (get_process id h w).1.2 = machine h.
Proof.
  unfold get_process. pose proof (look_at_run id h w) as Hlook. destruct (records h !! id) as [r|].
  - destruct Hlook as (r' & w1 & Hlook & Hl1 & _). rewrite (bind_run_Ok _ _ _ _ _ _ _ Hlook).
    destruct (persist_run (insert_record id r' h) w1) as [(w2 & Hp & Hl2)|(e & w2 & Hp & Hl2 & _)].
    + rewrite (bind_run_Ok _ _ _ _ _ _ _ Hp). split; [by etrans|]. by destruct (persistent _).
    + rewrite (bind_run_Err _ _ _ _ _ _ _ Hp). split; [by etrans|done].
  - by rewrite (bind_run_Err _ _ _ _ _ _ _ Hlook).
Qed.

Lemma stop_later id h w : later w (stop id h w).2.
Proof.
  pose proof (stop_run id h w) as Hrun. destruct (records h !! id) as [r|]; [|by rewrite Hrun].
  destruct Hrun as (r' & o & h' & w' & _ & _ & Hl & ->). destruct o as [a|e|]; [|done|done].
  destruct (persist_run h' w') as [(w2 & Hp & Hl2)|(e & w2 & Hp & Hl2 & _)].
  - rewrite (bind_run_Ok _ _ _ _ _ _ _ Hp). by etrans.
  - rewrite (bind_run_Err _ _ _ _ _ _ _ Hp). by etrans.
Qed.

Lemma restart_accounted id h w : writable w -> current h -> accounted (restart id h w).1.2.
Proof.
  intros Hw Hc. unfold restart. pose proof (current_get id h w Hc) as Hc1.
  pose proof (get_process_later id h w) as [Hl1 _]. destruct (get_process id h w) as [[[r|e|] h1] w1] eqn:Hget.
  2:{ rewrite (bind_run_Err _ _ _ _ _ _ _ Hget). by destruct Hc1. }
  2:{ unfold mbind, M_bind. rewrite Hget. by destruct Hc1. }
  rewrite (bind_run_Ok _ _ _ _ _ _ _ Hget). simpl in Hc1, Hl1. unfold guard.
  destruct (restartable r); [|by destruct Hc1]. change (mret tt ≫= ?k) with (k tt). cbn beta.
  pose proof (current_stop id h1 w1 Hc1) as Hc2. pose proof (stop_later id h1 w1) as Hl2.
  destruct (stop id h1 w1) as [[[r2|e|] h2] w2] eqn:Hstop.
  - rewrite (bind_run_Ok _ _ _ _ _ _ _ Hstop). apply start_accounted; [|done]. eapply writable_later; [|done]. by etrans.
  - rewrite (bind_run_Err _ _ _ _ _ _ _ Hstop). by destruct Hc2.
  - unfold mbind, M_bind. rewrite Hstop. by destruct Hc2.
Qed.
End accounts.

(** A life in which every write succeeds, and the machines it has been on. *)
Inductive history : list Machine.t -> host -> Prop :=
  | history_new m : history [m] (new_table true m)
  | history_step past h h' :
      history past h -> step writable h h' -> history (machine h' :: past) h'.

Lemma accounts_past past m sig st rs : accounts past sig st rs -> accounts (m :: past) sig st rs.
Proof.
  assert (forall c, settled past sig c -> settled (m :: past) sig c) as Hs.
  { intros c [?|(m' & ? & ?)]; [by left|right]. exists m'. split; [by right|done]. }
  intros [Hc He]. split.
  - intros c [?|?%Hs]%Hc; [by left|by right].
  - intros id r Hr Hst. by eapply Hs, He.
Qed.

Lemma history_current past h : history past h -> current past h.
Proof.
  induction 1 as [m|past h h' _ [Hacc Hm] Hstep].
  - split; [|left]. split; [done|]. split; (split; [by intros c ?%not_elem_of_nil|]);
      intros id r Hr; simpl in Hr; by rewrite lookup_empty in Hr.
  - assert (current past h) as Hcur by done. split; [|left]. enough (accounted past h') as (Hp & Hr & Hd).
    { split; [done|]. split; by apply accounts_past. }
    destruct Hstep as [h id cwd argv env log readiness restartable metadata w Hw|h id w _|h w _|h id w _|
      h id metadata w _|h id w Hw|h w _|h m].
    + by apply start_accounted.
    + by apply current_get.
    + by apply current_list.
    + by apply current_stop.
    + by apply current_update.
    + by apply restart_accounted.
    + by apply current_open.
    + done.
Qed.

(** No child is forgotten.  As long as the writes succeed, every child the
    table has started is one of its records, or its group was sent SIGTERM, or
    on some machine of the past the child was not to be found any more: a
    running child can always be found, and stopped, by its record. *)
Theorem no_child_is_forgotten past h c :
  history past h -> c ∈ started h ->
  (exists id r, records h !! id = Some r /\ child_of r = c) \/ settled past (signalled h) c.
Proof. intros [(_ & Hacc & _) _]%history_current. apply (every_child _ _ _ _ Hacc). Qed.

(** ** The identity of a process *)

(** A line of [/proc/<pid>/stat]. *)
Definition stat_line (pid : Z) (comm : string) (fields : list string) : string :=
  pretty pid +:+ " (" +:+ comm +:+ String ")" (" " +:+ String.concat " " fields +:+ String "010" EmptyString).
Definition stat_word (w : string) : bool := Text8.plain_word w && Nat.eqb (Str.count_char ")" w) 0.

Lemma count_char_concat c fields :
  c <> " "%char -> (forall w, w ∈ fields -> Str.count_char c w = O) -> Str.count_char c (String.concat " " fields) = O.
Proof.
  intros Hc. induction fields as [|w fields IH]; intros Hw; [done|].
  assert (Str.count_char c (String.concat " " fields) = O) as Hrest by (apply IH; intros; apply Hw; by right).
  destruct fields as [|w' fields]; [apply Hw; left|].
  change (String.concat " " (w :: w' :: fields)) with (w +:+ " " +:+ String.concat " " (w' :: fields)).
  rewrite !Str.count_char_app, Hrest, (Hw w) by left. simpl. by rewrite decide_False.
Qed.

Lemma stat_fields_line pid comm fields :
  forallb stat_word fields = true -> stat_fields (stat_line pid comm fields) = Some fields.
Proof.
  intros Hall. unfold stat_fields, stat_line.
  assert (forall w, w ∈ fields -> Text8.plain_word w = true /\ Str.count_char ")" w = O) as Hw.
  { intros w Hin%list_elem_of_In. rewrite forallb_forall in Hall.
    by destruct (andb_prop _ _ (Hall w Hin)) as [? ?%Nat.eqb_eq]. }
  rewrite <- !Str.app_assoc. rewrite Text8.rsplit_once_app.
  - simpl. f_equal. change (String " " ?s) with (" " +:+ s).
    unfold Text8.split_whitespace. change (Text8.split_white O (" " +:+ ?s)) with ("" :: Text8.split_white O s).
    cbn [bfilter Str.is_empty]. apply Text8.split_whitespace_words. apply forallb_forall.
    intros w Hin%list_elem_of_In. by apply Hw.
  - rewrite !Str.count_char_app. rewrite count_char_concat; [done|done|]. intros w Hin. by apply Hw.
Qed.

(** The birth identity is the boot and the start time that the kernel
    reports, for a running process of any name: parentheses, spaces and digits in
    the name of the program do not move the fields, and a zombie has none. *)
Theorem birth_identity_is_the_start_time m pid_ comm fields boot run start_time :
  stat_of m pid_ = Some (stat_line pid_ comm fields) -> boot_id m = Some boot ->
  forallb stat_word fields = true -> fields !! 0%nat = Some run -> fields !! 19%nat = Some start_time ->
  process_birth_identity m pid_ = if ended run then None else Some (Str.trim boot +:+ ":" +:+ start_time).
Proof.
  intros Hstat Hboot Hall Hrun Hstart. unfold process_birth_identity. rewrite Hstat. cbn.
  rewrite stat_fields_line by done. cbn. rewrite Hrun. cbn. destruct (ended run); [done|].
  by rewrite Hboot, Hstart.
Qed.

(** ** Waiting ends *)

Section waiting.
Variable others : nat -> host -> world -> host * world.

(** During a sleep 250 ms pass: the next reading of the clock is that much later
    than every one before. *)
Definition sleeps (w w' : world) : Prop :=
  later w w' /\ forall i, (i < clock_at w)%nat -> clock w i + 250 <= clock w (clock_at w').

Variable times : nat -> Z.
Hypothesis monotone : forall i j, (i <= j)%nat -> times i <= times j.
Hypothesis others_sleep : forall n h w, clock w = times -> sleeps w (others n h w).2.

Definition wait_codes : list string :=
  ["PROCESS_NOT_FOUND"; "PROCESS_STATE_FAILED"; "PROCESS_EXITED"; "READINESS_MARKER_MISSING"; "BUILD_STALLED"].

(** A record that is ready, or one of the errors. *)
Definition wait_answer (o : outcome RpcError.t ProcessRecord.t) : Prop :=
  match o with
  | Ok r => ready_state r = ReadinessState.Ready
  | Err e => RpcError.code e ∈ wait_codes
  | Panic => False
  end.

Lemma get_process_run id h w :
  match (get_process id h w).1.1 with
  | Ok r => (clock_at w < clock_at (get_process id h w).2)%nat
  | Err e => RpcError.code e ∈ wait_codes
  | Panic => False
  end.
Proof.
  unfold get_process. pose proof (look_at_run id h w) as Hlook. destruct (records h !! id) as [r|].
  - destruct Hlook as (r' & w1 & Hlook & Hl1 & Hlt & _). rewrite (bind_run_Ok _ _ _ _ _ _ _ Hlook).
    unfold persist, io_step. run_handler. destruct (persistent _); [|done].
    destruct (io_ok _ _); simpl; [done|]. by right; left.
  - rewrite (bind_run_Err _ _ _ _ _ _ _ Hlook). left.
Qed.

Lemma verdict_answer r o : verdict r = Some o -> wait_answer o.
Proof.
  unfold verdict. case_decide; [by intros [= <-]|]. destruct (negb _); [intros [= <-]; simpl; by right; right; left|].
  case_decide; [|done]. intros [= <-]. simpl. by right; right; right; left.
Qed.

Lemma wait_loop_answers fuel id deadline h w last_ :
  clock w = times -> last_ <= clock w (clock_at w) -> (0 < fuel)%nat -> deadline - last_ <= 250 * (Z.of_nat fuel - 1) ->
  wait_answer (wait_loop others fuel id deadline h w).1.1.
Proof.
  revert h w last_. induction fuel as [|fuel IH]; intros h w last_ Hck0 Hlast Hfuel Hdl; [lia|].
  cbn [wait_loop]. pose proof (get_process_run id h w) as Hrun. pose proof (get_process_later id h w) as [[Hck _ _] _].
  destruct (get_process id h w) as [[[r|e|] h1] w1] eqn:Hget; simpl in Hrun, Hck; [|by rewrite (bind_run_Err _ _ _ _ _ _ _ Hget)|done].
  rewrite (bind_run_Ok _ _ _ _ _ _ _ Hget). destruct (verdict r) as [o|] eqn:Hv; [by apply verdict_answer in Hv|].
  change ((now ≫= ?k) h1 w1) with (k (clock w1 (clock_at w1)) h1 (clock_tick w1)). cbn beta.
  set (n := clock w1 (clock_at w1)). assert (last_ <= n) as Hn.
  { etrans; [exact Hlast|]. unfold n. rewrite Hck, Hck0. apply monotone. lia. }
  destruct (n >=? deadline) eqn:Hd.
  { simpl. unfold timeout_code. case_match; simpl; [do 4 right; left|do 3 right; left]. }
  pose proof (others_sleep fuel h1 (clock_tick w1) ltac:(simpl; congruence)) as [[Hck2 _ _] Hs].
  destruct (others fuel h1 (clock_tick w1)) as [h2 w2]. simpl in *.
  specialize (Hs (clock_at w1) ltac:(lia)). fold n in Hs.
  apply (IH h2 w2 (n + 250)); [congruence|by rewrite Hck2|lia|lia].
Qed.

(** [readiness.wait] answers: whatever others do to the table and the machine
    during its sleeps, after at most a poll per 250 ms of the timeout, and one more,
    it returns a record that is ready, or says that the process is unknown, has
    exited, has failed its probe or has run out of time. *)
Theorem wait_ready_answers fuel id timeout_ms h w :
  clock w = times -> Z.max timeout_ms 1 <= 250 * (Z.of_nat fuel - 1) ->
  wait_answer (wait_ready others fuel id timeout_ms h w).1.1.
Proof.
  intros Hck Hfuel. unfold wait_ready.
  change ((now ≫= ?k) h w) with (k (clock w (clock_at w)) h (clock_tick w)). cbn beta.
  apply (wait_loop_answers _ _ _ _ _ (clock w (clock_at w))); [done|simpl; rewrite Hck; apply monotone; lia|lia|lia].
Qed.
End waiting.

(** ** The theorems at work *)

Definition sample_fields (start_time : string) : list string := "S" :: replicate 18 "0" ++ [start_time].
(** A shell that calls itself "sh) Z (". *)
Definition sample_stat (pid : Z) : string := stat_line pid "sh) Z (" (sample_fields ("7" +:+ pretty pid)).
Definition sample_machine (children : list Z) : Machine.t :=
  Machine.mk (Some ("b00t" +:+ String "010" EmptyString)) ∅ ∅ ∅ ∅ ∅ (fun _ => None)
    ((fun pid => Some (pid, Some (sample_stat pid))) <$> children).
(** A reading every 250 ms; the writes succeed from the [n]-th on. *)
Definition steady (n : nat) : world := World (fun i => 250 * Z.of_nat i) (fun i => pretty i) (Nat.leb n) 0 0 0.

Abbreviation start_p h w := (start "p" "/srv" ["sh"] ∅ "/srv/p.log" None true VNull h w).
Abbreviation at_first := (new_table true (sample_machine [100; 101])).
Abbreviation with_child := (start_p at_first (steady 0)).1.2.
Abbreviation child_stopped := (stop "p" with_child (steady 0)).1.2.

Lemma steady_writable : writable (steady 0).
Proof. done. Qed.

Lemma started_in_life : lifetime at_first with_child.
Proof. apply rtc_once, step_start. done. Qed.
Lemma stopped_in_life : lifetime at_first child_stopped.
Proof. eapply rtc_r; [apply started_in_life|]. apply step_stop. done. Qed.

Lemma signals_reach_own_children_witness :
  Child 100 (Some "b00t:7100") ∈ started child_stopped /\ child_birth (Child 100 (Some "b00t:7100")) <> None.
Proof.
  apply (signals_reach_own_children true (sample_machine [100; 101]) child_stopped (Child 100 (Some "b00t:7100"))
           stopped_in_life).
  refine (bool_decide_unpack _ _). vm_compute. done.
Defined.

Lemma history_started : history [machine with_child; sample_machine [100; 101]] with_child.
Proof. apply history_step with at_first; [apply history_new|]. apply step_start, steady_writable. Qed.

Lemma no_child_is_forgotten_witness :
  (exists id r, records with_child !! id = Some r /\ child_of r = Child 100 (Some "b00t:7100")) \/
  settled [machine with_child; sample_machine [100; 101]] (signalled with_child) (Child 100 (Some "b00t:7100")).
Proof.
  apply (no_child_is_forgotten _ with_child (Child 100 (Some "b00t:7100")) history_started).
  refine (bool_decide_unpack _ _). vm_compute. done.
Defined.

(** When the state file cannot be written, [start] does not see that the process
    is running, and puts a second child in its place: the first one runs on
    without a record. *)
Example lost_write_forgets_a_child :
  let h := (start_p with_child (steady 1)).1.2 in
  started h = [Child 100 (Some "b00t:7100"); Child 101 (Some "b00t:7101")] /\
  child_of <$> records h !! "p" = Some (Child 101 (Some "b00t:7101")) /\
  signalled h = [] /\ process_birth_identity (machine h) 100 = Some "b00t:7100".
Proof. by vm_compute. Qed.

Lemma birth_identity_is_the_start_time_witness :
  process_birth_identity (machine with_child) 100 =
  (if ended "S" then None else Some (Str.trim ("b00t" +:+ String "010" EmptyString) +:+ ":" +:+ "7100")).
Proof.
  apply (birth_identity_is_the_start_time (machine with_child) 100 "sh) Z (" (sample_fields "7100")
           ("b00t" +:+ String "010" EmptyString) "S" "7100"); vm_compute; reflexivity.
Defined.

Lemma wait_ready_answers_witness :
  wait_answer (wait_ready (fun _ h w => (h, w)) 6 "p" 1000 with_child (steady 0)).1.1.
Proof.
  apply (wait_ready_answers (fun _ h w => (h, w)) (fun i => 250 * Z.of_nat i)); [lia| |done|lia].
  intros n h w Hck. split; [done|]. simpl. rewrite Hck. lia.
Defined.
End Supervision.
