(* ===== verification/Commands.v ===== *)
(** * Commands and process capabilities at the executor
      ([crates/workbench-runtime/src/executor.rs])

    The arms of [dispatch] that start and manage processes, and the check of a
    command line that the controller's approvals are for. *)

From Stdlib Require Import Ascii String.
From S2P Require Import Prelude RustStd RustText Json Protocol Schema Leases Contracts Store Controller.
From S2P Require Import Samples Approvals Drivers Invoke Authority.
From S2P Require Import Catalog Arbitration Enforcement Confinement Processes.

Module Commands.
Import ProcessTable.

Section commands.
Context `{!Text, !Sha256}.
Context `{!Serde (list string), !Serde (gmap string string), !Serde ProcessRecord.t}.

Definition invalid_params (message : string) : RpcError.t := RpcError.new "INVALID_PARAMS" message.

Definition string_array (params : Value) (key : string) : outcome RpcError.t (list string) :=
  match vget params key with
  | None => Err (invalid_params (key +:+ " is required"))
  | Some v =>
      values ← map_err invalid_params (from_value v);
      if bool_decide (values = []) then Err (invalid_params (key +:+ " is required")) else Ok values
  end.

Definition blocked (message : string) : RpcError.t := RpcError.new "COMMAND_BLOCKED" message.

(** The name of the program; [argv] is not empty. *)
Definition executable (argv : list string) : outcome RpcError.t string :=
  program ← index argv 0;
  Ok (default program (FsPath.file_name program)).

Definition interpreters : list string := ["python"; "python3"; "node"; "ruby"; "perl"].

Definition validate_command (argv : list string) (cwd : string) (approval_digest : option string) :
    outcome RpcError.t unit :=
  name ← executable argv;
  let digest := sha256_bytes (json_text (json_object [("cwd", VString cwd); ("argv", VArray (VString <$> argv))])) in
  _ ← (if dangerous name && negb (bool_decide (approval_digest = Some digest))
       then Err (blocked ("high-risk executable requires an exact one-shot approval: " +:+ name))
       else Ok tt);
  if bool_decide (name ∈ interpreters) && existsb (fun value => bool_decide (value ∈ ["-c"; "-e"])) argv
  then Err (blocked "inline interpreter execution is not allowed")
  else Ok tt.

(** [cwd.join(name)] for a relative [name]. *)
Definition join (base name : string) : string :=
  if Str.ends_with "/" base then base +:+ name else base +:+ "/" +:+ name.

Definition process_log (cwd process_id : string) : string := join cwd (".workbench-" +:+ process_id +:+ ".log").

Section paths.
Context `{fs : Confinement.FileSystem}.
Variables (r : Confinement.roots) (auth : Fences.host).

(** [self.path(params, key, must_exist)] as the text of the path. *)
Definition checked (params : Value) (key : string) (must_exist : bool) : outcome RpcError.t string :=
  p ← Confinement.checked_path r auth params key must_exist None; Ok (Confinement.display p).

Definition log_path_of (params : Value) (cwd process_id : string) : outcome RpcError.t string :=
  match str_param params "logPath" with
  | Some path => checked (json_object [("path", VString path)]) "path" false
  | None => Ok (process_log cwd process_id)
  end.

Definition env_of (params : Value) : outcome RpcError.t (gmap string string) :=
  match vget params "env" with
  | Some v => map_err invalid_params (from_value v)
  | None => Ok ∅
  end.

(** What [process.start] and [agent.start] give to the table. *)
Record launch_request := LaunchRequest {
  process_id : string;
  cwd : string;
  argv : list string;
  env : gmap string string;
  log_path : string;
}.

Definition prepare_launch (action : string) (params : Value) : outcome RpcError.t launch_request :=
  cwd_input ← required_str params "cwd";
  cwd ← checked params "cwd" true;
  argv ← string_array params "argv";
  _ ← validate_command argv cwd_input (str_param params "approvalDigest");
  process_id ← required_str params (if bool_decide (action = "agent.start") then "agentId" else "processId");
  log_path ← log_path_of params cwd process_id;
  env ← env_of params;
  Ok (LaunchRequest process_id cwd argv env log_path).

Definition process_start (action : string) (params : Value) : handler Value :=
  q ← lift (prepare_launch action params);
  record ← start (process_id q) (cwd q) (argv q) (env q) (log_path q) (vget params "readiness")
             (default false (vget params "restartable" ≫= as_bool)) VNull;
  mret (to_value record).

Definition process_get (params : Value) : handler Value :=
  id ← lift (required_str params "processId"); record ← get_process id; mret (to_value record).

Definition readiness_wait (others : nat -> host -> world -> host * world) (fuel : nat) (params : Value) :
    handler Value :=
  id ← lift (required_str params "processId");
  record ← wait_ready others fuel id (default 600000 (u64_param params "timeoutMs"));
  mret (to_value record).

Definition process_list : handler Value :=
  records ← list_processes; mret (json_object [("processes", VArray (to_value <$> records))]).

Definition process_stop (action : string) (params : Value) : handler Value :=
  id ← lift (required_str params (if bool_decide (action = "agent.stop") then "agentId" else "processId"));
  record ← stop id; mret (to_value record).

Definition process_restart (params : Value) : handler Value :=
  id ← lift (required_str params "processId"); record ← restart id; mret (to_value record).

Definition process_events (params : Value) : handler Value :=
  id ← lift (required_str params "processId");
  record ← get_process id;
  mret (json_object
    [("processId", VString (ProcessRecord.id record));
     ("events", VArray [json_object
        [("type", VString "process.snapshot"); ("timestamp", vnat (ProcessRecord.updated_at record));
         ("state", VString (state_name (ProcessRecord.state record)));
         ("readiness", readiness_value (ProcessRecord.readiness record))]])]).

Definition logs_read (params : Value) : handler Value :=
  id ← lift (required_str params "processId"); logs id (default 200 (u64_param params "tail")).

(** ** [command.run] *)

(** A child with its pipes: what [try_wait] says at each poll, what [kill]
    answers, whether it has ended at the n-th look after the SIGTERM, and what the
    pipes hold when they are closed; [None] for a pipe that some descendant never
    closes. *)
Record exit_status := ExitStatus {
  success : bool;
  exit_code : option Z;
  status_text : string;
}.
Record child := Child {
  try_wait : nat -> outcome string (option exit_status);
  terminate : outcome RpcError.t unit;
  gone_after : nat -> bool;
  stdout_pipe : option string;
  stderr_pipe : option string;
}.

Definition command_failed (message : string) : RpcError.t := RpcError.new "COMMAND_FAILED" message.

(** The end of the output, 64 KiB of it. *)
Definition output_limit : Z := 64 * 1024.
Definition bounded_output (bytes : string) : string :=
  Text8.from_utf8_lossy (Str.drop (Z.to_nat (saturating_sub (Str.len bytes) output_limit)) bytes).

Definition timed_out (timeout_ms : Z) : RpcError.t :=
  RpcError.mk "COMMAND_TIMED_OUT" ("command exceeded its " +:+ pretty timeout_ms +:+ "ms deadline") true VNull.

Section run.
Variable c : child.

(** [child.wait()] blocks until the child has ended. *)
Fixpoint reap (fuel i : nat) : M unit RpcError.t unit :=
  match fuel with
  | O => lift Panic
  | S fuel' => if gone_after c i then mret tt else reap fuel' (S i)
  end.

(** A poll every 25 ms until the child has ended or the deadline is there. *)
Fixpoint poll (fuel reap_fuel i : nat) (timeout_ms deadline : Z) : M unit RpcError.t exit_status :=
  match fuel with
  | O => lift Panic
  | S fuel' =>
      ended ← lift (map_err command_failed (try_wait c i));
      match ended with
      | Some status => mret status
      | None =>
          n ← now;
          if n >=? deadline then
            _ ← lift (terminate c);
            _ ← reap reap_fuel 0;
            throw (timed_out timeout_ms)
          else poll fuel' reap_fuel (S i) timeout_ms deadline
      end
  end.

Definition read_pipe (pipe : option string) : M unit RpcError.t string :=
  lift (match pipe with Some bytes => Ok bytes | None => Panic end).

Definition finish_command (cwd : string) (argv : list string) (status : exit_status) : M unit RpcError.t Value :=
  stdout_bytes ← read_pipe (stdout_pipe c);
  stderr_bytes ← read_pipe (stderr_pipe c);
  let stdout := bounded_output stdout_bytes in
  let stderr := bounded_output stderr_bytes in
  _ ← guard (success status) (command_failed ("command exited with " +:+ status_text status +:+ ": " +:+ stderr));
  mret (json_object [("cwd", VString cwd); ("argv", VArray (VString <$> argv));
                     ("exitCode", vopt (fun n => VNumber (if n <? 0 then NegInt n else PosInt n)) (exit_code status));
                     ("stdout", VString stdout); ("stderr", VString stderr)]).
End run.

Definition clamp (low high n : Z) : Z := Z.max low (Z.min n high).

(** [spawn] gives the child for a command line, or fails. *)
Definition run_command (spawn : string -> list string -> gmap string string -> option child) (fuel reap_fuel : nat)
    (params : Value) : M unit RpcError.t Value :=
  cwd_input ← lift (required_str params "cwd");
  cwd ← lift (checked params "cwd" true);
  argv ← lift (string_array params "argv");
  _ ← lift (validate_command argv cwd_input (str_param params "approvalDigest"));
  env ← lift (env_of params);
  let timeout_ms := clamp 1 3600000 (default 3600000 (u64_param params "timeoutMs")) in
  c ← lift (ok_or (command_failed "io error") (spawn cwd argv env));
  n ← now;
  status ← poll c fuel reap_fuel 0 timeout_ms (n + timeout_ms);
  finish_command c cwd argv status.
End paths.

(** ** Approvals *)

Lemma file_name_absent program : FsPath.file_name program = None -> ~ dangerous program = true.
Proof.
  unfold dangerous. intros Hf Hd%bool_decide_eq_true.
  repeat (apply elem_of_cons in Hd as [->|Hd]; [by vm_compute in Hf|]). by apply not_elem_of_nil in Hd.
Qed.

(** What the controller holds to need an approval, the executor does too. *)
Lemma requires_approval_dangerous input program rest :
  vget input "argv" = Some (VArray (VString <$> program :: rest)) ->
  command_requires_approval input = dangerous (default program (FsPath.file_name program)).
Proof.
  intros Hargv. unfold command_requires_approval. rewrite Hargv. cbn.
  destruct (FsPath.file_name program) as [name|] eqn:Hf; [done|]. cbn. symmetry.
  by apply not_true_iff_false, file_name_absent.
Qed.

Lemma json_command cwd argv input :
  vget input "cwd" = Some (VString cwd) -> vget input "argv" = Some (VArray (VString <$> argv)) ->
  command_digest input =
    Ok (sha256_bytes (json_text (json_object [("cwd", VString cwd); ("argv", VArray (VString <$> argv))]))).
Proof. intros Hc Ha. unfold command_digest. by rewrite Hc, Ha. Qed.

Definition inline_code (name : string) (argv : list string) : bool :=
  bool_decide (name ∈ interpreters) && existsb (fun value => bool_decide (value ∈ ["-c"; "-e"])) argv.

Lemma validate_command_cons program rest cwd d :
  let name := default program (FsPath.file_name program) in
  let digest := sha256_bytes (json_text (json_object [("cwd", VString cwd);
                  ("argv", VArray (VString <$> program :: rest))])) in
  validate_command (program :: rest) cwd d =
    if dangerous name && negb (bool_decide (d = Some digest))
    then Err (blocked ("high-risk executable requires an exact one-shot approval: " +:+ name))
    else if inline_code name (program :: rest)
    then Err (blocked "inline interpreter execution is not allowed") else Ok tt.
Proof. cbn zeta. unfold validate_command, executable. cbn [index lookup]. cbn. by destruct (dangerous _ && _). Qed.
End commands.

(** ** A command ends *)

(** The first poll comes at once, the others 25 ms apart. *)
Definition polled (w : world) : Prop :=
  clock w (clock_at w) <= clock w (S (clock_at w)) /\
  forall i, (clock_at w < i)%nat -> clock w i + 25 <= clock w (S i).

(** A child that ends within [k] looks when it is told to, and whose pipes are
    closed when it has ended. *)
Record obedient (k : nat) (c : child) : Prop := {
  obeys : exists i, (i < k)%nat /\ gone_after c i = true;
  reads : stdout_pipe c <> None /\ stderr_pipe c <> None;
  told : terminate c <> Panic /\ forall i, try_wait c i <> Panic;
}.

Lemma reap_ends c k w : (exists i, (i < k)%nat /\ gone_after c i = true) -> reap c k 0 tt w = (Ok tt, tt, w).
Proof.
  intros (i & Hi & Hg). assert (0 <= i < 0 + k)%nat as Hrange by lia. clear Hi. revert Hrange. generalize O as j.
  induction k as [|k IH]; intros j Hrange; [lia|]. cbn [reap]. destruct (gone_after c j) eqn:Hj; [done|].
  apply IH. destruct (decide (i = j)) as [->|?]; [congruence|lia].
Qed.

(** The answer is there when the deadline is, and a command that has not ended by
    then has timed out. *)
Lemma poll_answers c k fuel i timeout_ms deadline w :
  obedient k c -> (forall j, (clock_at w <= j)%nat -> clock w j + 25 <= clock w (S j)) ->
  (0 < fuel)%nat -> deadline - clock w (clock_at w) <= 25 * (Z.of_nat fuel - 1) ->
  exists o w', poll c fuel k i timeout_ms deadline tt w = (o, tt, w') /\ o <> Panic.
Proof.
  intros [Ho _ [Ht Hp]]. revert i w. induction fuel as [|fuel IH]; intros i w Hw Hfuel Hd; [lia|]. cbn [poll].
  run_handler. destruct (try_wait c i) as [[s|]|e|] eqn:Htry; simpl; [by eexists _, _| |by eexists _, _|by destruct (Hp i)].
  destruct (clock w (clock_at w) >=? deadline) eqn:Hdl.
  - destruct (terminate c) as [[]|e|]; [|by eexists _, _|done]. rewrite reap_ends by done. by eexists _, _.
  - apply IH; simpl; [intros j Hj; apply Hw; lia|lia|]. pose proof (Hw (clock_at w) ltac:(lia)). lia.
Qed.

Section ends.
Context `{!Text, !Sha256}.
Context `{!Serde (list string), !Serde (gmap string string)}.
Context `{fs : Confinement.FileSystem}.
Variables (r : Confinement.roots) (auth : Fences.host).
Variable spawn : string -> list string -> gmap string string -> option child.

Lemma validate_command_no_panic argv cwd d : argv <> [] -> validate_command argv cwd d <> Panic.
Proof.
  destruct argv as [|program rest]; [done|]. intros _. rewrite validate_command_cons. cbn zeta.
  by repeat case_match.
Qed.

Lemma string_array_Ok params key argv : string_array params key = Ok argv -> argv <> [].
Proof.
  unfold string_array. destruct (vget params key); [|done]. intros (l & _ & Hl)%bind_Ok.
  destruct (bool_decide (l = [])) eqn:Hnil; [done|]. injection Hl as <-. by apply bool_decide_eq_false in Hnil.
Qed.

Lemma required_str_no_panic params key : required_str params key <> Panic.
Proof. unfold required_str. by repeat case_match. Qed.

Lemma climb_no_panic above missing : Confinement.climb above missing <> Panic.
Proof.
  revert missing. induction above as [|[| | |name] above IH]; intros missing; simpl; by case_match.
Qed.

Lemma checked_no_panic params key must_exist : checked r auth params key must_exist <> Panic.
Proof.
  unfold checked, Confinement.checked_path, Confinement.resolve.
  repeat (apply and_then_no_panic; [|intros]); try apply ok_or_no_panic; try done; [|by case_match].
  case_match; [apply ok_or_no_panic|]. apply and_then_no_panic; [apply climb_no_panic|]. intros [ancestor missing].
  apply and_then_no_panic; [apply ok_or_no_panic|done].
Qed.

Hypothesis decodes_array : forall v, (from_value v : outcome string (list string)) <> Panic.
Hypothesis decodes_env : forall v, (from_value v : outcome string (gmap string string)) <> Panic.

(** [command.run] answers by its deadline.  If a child that is told to end does
    so, and closes its pipes, every request gets an answer after at most a poll per
    25 ms of its timeout and two more: the end of the command, the time-out, or what
    was wrong with the request. *)
Theorem command_run_answers k fuel params w :
  (forall cwd argv env c, spawn cwd argv env = Some c -> obedient k c) -> polled w ->
  clamp 1 3600000 (default 3600000 (u64_param params "timeoutMs")) <= 25 * (Z.of_nat fuel - 1) ->
  (run_command r auth spawn fuel k params tt w).1.1 <> Panic.
Proof.
  intros Hspawn [Hw0 Hw] Hfuel. set (timeout_ms := clamp _ _ _) in Hfuel. unfold run_command. fold timeout_ms.
  run_handler.
  pose proof (required_str_no_panic params "cwd") as H1. destruct (required_str params "cwd") as [cwd_input| |]; try done.
  pose proof (checked_no_panic params "cwd" true) as H2. destruct (checked r auth params "cwd" true) as [cwd| |]; try done.
  destruct (string_array params "argv") as [argv| |] eqn:Hargv; [|done|].
  2:{ exfalso. unfold string_array in Hargv. destruct (vget params "argv") as [v|]; [|done].
      pose proof (decodes_array v) as Hd. destruct (from_value v); cbn in Hargv; try done. by case_match. }
  pose proof (validate_command_no_panic argv cwd_input (str_param params "approvalDigest") (string_array_Ok _ _ _ Hargv)) as H3.
  destruct (validate_command _ _ _); try done.
  assert (env_of params <> Panic) as H4.
  { unfold env_of. destruct (vget params "env"); [|done]. apply map_err_no_panic, decodes_env. }
  destruct (env_of params) as [env| |]; try done.
  destruct (spawn cwd argv env) as [c|] eqn:Hc; [|done]. pose proof (Hspawn _ _ _ _ Hc) as Hob. cbn.
  destruct (poll_answers c k fuel 0 timeout_ms (clock w (clock_at w) + timeout_ms) (clock_tick w) Hob)
    as (o & w' & -> & Ho); [intros j Hj; apply Hw; simpl in Hj; lia| |simpl; lia|].
  { assert (1 <= timeout_ms) by (unfold timeout_ms, clamp; lia). lia. }
  destruct o as [status|e|]; [|done|done]. destruct Hob as [_ [Hout Herr] _].
  unfold finish_command, read_pipe. run_handler. destruct (stdout_pipe c); [|done]. destruct (stderr_pipe c); [|done].
  by destruct (success status).
Qed.
End ends.

(** ** Approvals and commands *)

Section approvals.
Import Invoke.
Context `{P : !Platform}.

(** Where a dangerous command is let through, the digest is that of the command. *)
Lemma dangerous_digest program rest cwd d :
  validate_command (program :: rest) cwd d = Ok tt ->
  dangerous (default program (FsPath.file_name program)) = true ->
  d = Some (sha256_bytes (json_text (json_object [("cwd", VString cwd);
              ("argv", VArray (VString <$> program :: rest))]))).
Proof.
  intros Hv Hd. rewrite validate_command_cons in Hv. cbn zeta in Hv. rewrite Hd in Hv.
  destruct (bool_decide (d = Some _)) eqn:Hb in Hv; [by apply bool_decide_eq_true in Hb|done].
Qed.

Lemma consume_approval_digest t params input c w v c' w' :
  runs_command (Invoke.capability t) = true -> command_requires_approval input = true ->
  consume_approval t params input c w = (Ok v, c', w') ->
  exists digest, command_digest input = Ok digest /\ str_param v "approvalDigest" = Some digest.
Proof.
  intros Hruns Hneeds Hrun. unfold consume_approval in Hrun. rewrite Hruns, Hneeds in Hrun. cbn [andb] in Hrun.
  apply bind_Ok_inv in Hrun as (digest & ? & ? & Hd & Hrun). ok_inv Hd. exists digest. split; [done|].
  apply bind_Ok_inv in Hrun as (i & ? & ? & _ & Hrun). apply bind_Ok_inv in Hrun as (c0 & ? & ? & _ & Hrun).
  apply bind_Ok_inv in Hrun as (a & ? & ? & _ & Hrun). apply bind_Ok_inv in Hrun as (b & ? & ? & _ & Hrun).
  apply bind_Ok_inv in Hrun as (? & ? & ? & _ & Hrun). apply bind_Ok_inv in Hrun as (n & ? & ? & _ & Hrun).
  apply bind_Ok_inv in Hrun as (? & ? & ? & _ & Hrun). apply bind_Ok_inv in Hrun as (v' & ? & ? & Hset & Hrun).
  apply Authority.set_field_Ok in Hset as [Hset%vget_vset _]. ok_inv Hrun. unfold str_param. by rewrite Hset.
Qed.

Abbreviation command cwd argv :=
  (json_object [("cwd", VString cwd); ("argv", VArray (VString <$> argv))]).

Lemma command_inj cwd argv cwd' argv' : command cwd argv = command cwd' argv' -> cwd = cwd' /\ argv = argv'.
Proof.
  intros Heq. assert (vget (command cwd argv) "cwd" = vget (command cwd' argv') "cwd") as Hc by (by rewrite Heq).
  assert (vget (command cwd argv) "argv" = vget (command cwd' argv') "argv") as Ha by (by rewrite Heq).
  injection Hc as ->. injection Ha as Ha. split; [done|].
  assert (Inj (=) (=) VString) as Hinj by (by intros x y [= ->]). by apply list_fmap_eq_inj in Ha.
Qed.

(** What was approved is what may run.  When the controller has consumed an
    approval for an invocation, the executor's check lets its command line pass,
    but for inline code; and it lets no other dangerous command pass with the
    digest it was given, unless two commands have the same SHA-256. *)
Theorem approvals_cover_what_runs t params input c w v c' w' cwd program rest :
  runs_command (Invoke.capability t) = true -> command_requires_approval input = true ->
  vget input "cwd" = Some (VString cwd) -> vget input "argv" = Some (VArray (VString <$> program :: rest)) ->
  consume_approval t params input c w = (Ok v, c', w') ->
  let name := default program (FsPath.file_name program) in
  let digest := str_param v "approvalDigest" in
  validate_command (program :: rest) cwd digest =
    (if inline_code name (program :: rest)
     then Err (blocked "inline interpreter execution is not allowed") else Ok tt) /\
  forall cwd' program' rest',
    dangerous (default program' (FsPath.file_name program')) = true ->
    validate_command (program' :: rest') cwd' digest = Ok tt ->
    (sha256_hex (json_text (command cwd (program :: rest))) = sha256_hex (json_text (command cwd' (program' :: rest'))) ->
     command cwd (program :: rest) = command cwd' (program' :: rest')) ->
    cwd' = cwd /\ program' :: rest' = program :: rest.
Proof.
  intros Hruns Hneeds Hc Ha Hrun. cbn zeta.
  destruct (consume_approval_digest _ _ _ _ _ _ _ _ Hruns Hneeds Hrun) as (digest & Hd & ->).
  rewrite (json_command cwd (program :: rest) input Hc Ha) in Hd. injection Hd as <-. split.
  - rewrite validate_command_cons. cbn zeta. rewrite bool_decide_eq_true_2 by done. by rewrite andb_false_r.
  - intros cwd' program' rest' Hdang Hv Hinj. apply dangerous_digest in Hv as [= Hs]; [|done].
    destruct (command_inj _ _ _ _ (Hinj Hs)) as [-> Hargs]. by injection Hargs as -> ->.
Qed.
End approvals.

(** ** Log files *)

Definition no_slash (s : string) : bool := Nat.eqb (Str.count_char "/" s) 0.

Lemma split_no_slash s : no_slash s = true -> Str.split "/" s = [s].
Proof.
  unfold no_slash. induction s as [|a s IH]; [done|]. simpl. case_decide as Ha; [done|].
  intros Hs. by rewrite IH.
Qed.

Lemma split_cons s : exists p ps, Str.split "/" s = p :: ps.
Proof.
  induction s as [|a s (p & ps & IH)]; [by exists "", []|]. simpl. case_decide; [by eexists _, _|].
  rewrite IH. by eexists _, _.
Qed.

Lemma split_slash b name : no_slash name = true -> Str.split "/" (b +:+ "/" +:+ name) = Str.split "/" b ++ [name].
Proof.
  intros Hn. induction b as [|a b IH].
  - change ("" +:+ "/" +:+ name) with (String "/" name). simpl. by rewrite split_no_slash.
  - change (String a b +:+ "/" +:+ name) with (String a (b +:+ "/" +:+ name)). simpl. case_decide; [by rewrite IH|].
    rewrite IH. by destruct (split_cons b) as (p & ps & ->).
Qed.

Lemma ends_with_slash s : Str.ends_with "/" s = true -> exists b, s = b +:+ "/".
Proof.
  induction s as [|a s IH]; [done|]. cbn [Str.ends_with]. intros [Hs%bool_decide_eq_true|Hs]%orb_true_iff.
  - by exists "".
  - destruct (IH Hs) as [b ->]. by exists (String a b).
Qed.

Lemma components_slash b name :
  no_slash name = true -> FsPath.components (b +:+ "/" +:+ name) =
    (if Str.is_empty b then [FsPath.RootDir] else FsPath.components b) ++ FsPath.piece name.
Proof.
  intros Hn. unfold FsPath.components. rewrite split_slash by done. destruct b as [|a b].
  - simpl. by rewrite app_nil_r.
  - change (FsPath.is_absolute (String a b +:+ "/" +:+ name)) with (FsPath.is_absolute (String a b)).
    change (Str.is_empty (String a b)) with false. cbn iota. destruct (FsPath.is_absolute (String a b)).
    + rewrite fmap_app, concat_app. simpl. by rewrite app_nil_r.
    + destruct (split_cons (String a b)) as (first & rest & ->).
      simpl. rewrite fmap_app, concat_app. simpl. by rewrite app_nil_r, app_assoc.
Qed.

(** A name without a slash is joined as one component. *)
Lemma components_join base name :
  base <> "" -> no_slash name = true ->
  FsPath.components (join base name) = FsPath.components base ++ FsPath.piece name.
Proof.
  intros Hb Hn. unfold join. destruct (Str.ends_with "/" base) eqn:He.
  - apply ends_with_slash in He as [b ->]. rewrite Str.app_assoc, components_slash by done.
    pose proof (components_slash b "" eq_refl) as Hbase. change ("/" +:+ "") with "/" in Hbase.
    rewrite Hbase. change (FsPath.piece "") with (@nil FsPath.component). by rewrite app_nil_r.
  - rewrite components_slash by done. unfold Str.is_empty. by rewrite bool_decide_eq_false_2.
Qed.

(** What [..] leaves of a path when the directories on it exist. *)
Fixpoint lexical (acc : list FsPath.component) (p : list FsPath.component) : list FsPath.component :=
  match p with
  | [] => reverse acc
  | FsPath.ParentDir :: p' => lexical (match acc with FsPath.Normal _ :: acc' => acc' | _ => acc end) p'
  | FsPath.CurDir :: p' => lexical acc p'
  | c :: p' => lexical (c :: acc) p'
  end.

(** The id of a process is not checked, and its log file is made of it: with
    enough [..] in the id, [process.start] writes anywhere. *)
Example process_log_escapes :
  lexical [] (FsPath.components (process_log "/srv/app" "x/../../../etc/profile.d/y")) =
    FsPath.RootDir :: (FsPath.Normal <$> ["etc"; "profile.d"; "y.log"]).
Proof. by vm_compute. Qed.

(** ** The theorems at work *)

(** A child that ignores SIGTERM: [command.run] never answers. *)
Definition deaf : child :=
  Child (fun _ => Ok None) (Ok tt) (fun _ => false) (Some "") (Some "").
Definition every_25_ms : world := World (fun i => 25 * Z.of_nat i) (fun i => pretty i) (fun _ => true) 0 0 0.

Lemma deaf_reap fuel i w : reap deaf fuel i tt w = (Panic, tt, w).
Proof. revert i. by induction fuel as [|fuel IH]; intros i; [|apply IH]. Qed.

Example deaf_command_never_answers fuel reap_fuel :
  exists w, poll deaf fuel reap_fuel 0 1000 1000 tt every_25_ms = (Panic, tt, w).
Proof.
  generalize 0%nat as i. generalize every_25_ms as w. induction fuel as [|fuel IH]; intros w i; [by eexists|].
  cbn [poll]. run_handler. simpl. destruct (clock w (clock_at w) >=? 1000); [|apply IH]. rewrite deaf_reap. by eexists.
Qed.

(** It ends at the third look. *)
Definition quick : child :=
  Child (fun i => Ok (if Nat.leb 2 i then Some (ExitStatus true (Some 0) "exit status: 0") else None)) (Ok tt)
    (fun _ => true) (Some "done") (Some "").
Lemma quick_obedient : obedient 1 quick.
Proof. split; [exists O; split; [lia|done]|done|done]. Qed.

Lemma command_run_answers_witness :
  (run_command (H := plain_text) (H0 := fun s => s) (Serde0 := null_serde) (Serde1 := null_serde)
     (fs := Confinement.machine) Confinement.here (Fences.open "e1" Catalog.Linux None) (fun _ _ _ => Some quick) 50 1
     (json_object [("timeoutMs", vnat 1000)]) tt every_25_ms).1.1 <> Panic.
Proof.
  apply command_run_answers; try done.
  - intros cwd argv env c [= <-]. exact quick_obedient.
  - split; [done|]. intros i _. simpl. lia.
Defined.

Lemma approvals_cover_what_runs_witness :
  let v := vset Invoke.rm_input "approvalDigest" (VString "sha256:#?") in
  validate_command (H := platform_text (Platform := sample_platform)) (H0 := platform_sha256 (Platform := sample_platform))
    ["/bin/rm"; "-rf"] "/tmp" (v ≫= fun v => str_param v "approvalDigest") = Ok tt.
Proof.
  intros v. set (run := Invoke.consume_approval (P := sample_platform) Invoke.sample_target Invoke.rm_params Invoke.rm_input
    (sample_controller Invoke.rm_approved) (sample_world (fun _ => true))).
  assert (run = (Ok (default VNull v), run.1.2, run.2)) as Hrun by (apply ok_pair; vm_compute; reflexivity).
  exact (proj1 (approvals_cover_what_runs (P := sample_platform) Invoke.sample_target Invoke.rm_params Invoke.rm_input _ _ _ _ _
    "/tmp" "/bin/rm" ["-rf"] eq_refl eq_refl eq_refl eq_refl Hrun)).
Defined.
End Commands.
