(* ===== verification/Tunnels.v ===== *)
(** * SSH tunnels at the executor ([crates/workbench-runtime/src/executor.rs])

    A tunnel is a supervised [ssh] process whose record carries what it is for.
    [tunnel.ensure] starts it or finds it running, [tunnel.stop] ends it,
    [tunnel.get] and [tunnel.list] report what can be observed now, and
    [reconcile_tunnels] starts again what should run.  The network and [ssh -G]
    are parameters; [Linux] is modelled. *)

From Stdlib Require Import Ascii String.
From S2P Require Import Prelude RustStd RustText Json Protocol Schema Leases Contracts.
From S2P Require Import Controller Catalog Arbitration Enforcement Executors Confinement.
From S2P Require Import Processes Supervision Commands.

Module Tunnels.
Import ProcessRecord ProcessTable.

Record address := Address {
  ip : list Z;
  port : Z;
}.
#[global] Instance address_eq_dec : EqDecision address.
Proof. solve_decision. Defined.

Inductive bind_answer := Available | InUse | BindFailed (error : string).
(** An entry of [/proc/<pid>/fd]. *)
Inductive fd_link := Closed | Unreadable | NotUtf8 | Target (path : string).
Inductive net_table := Table (text : string) | Missing | Hidden.

Class Network := {
  (** [(host, port).to_socket_addrs()] *)
  resolve : string -> Z -> option (list address);
  (** [TcpStream::connect_timeout(address)] *)
  accepts : address -> bool;
  (** [TcpListener::bind((host, port))] *)
  bind : string -> Z -> bind_answer;
  fd_links : Z -> option (list fd_link);
  (** [/proc/<pid>/net/<family>] *)
  proc_net : Z -> string -> net_table;
  (** [ssh -G <host>] *)
  ssh_config : string -> outcome RpcError.t string;
}.

(** ** Who listens *)

Definition hex_digit (c : ascii) : option Z :=
  let n := Z.of_nat (nat_of_ascii c) in
  if (48 <=? n) && (n <=? 57) then Some (n - 48)
  else if (65 <=? n) && (n <=? 70) then Some (n - 55)
  else if (97 <=? n) && (n <=? 102) then Some (n - 87)
  else None.

Fixpoint hex_digits (acc : Z) (s : string) : option Z :=
  match s with
  | EmptyString => Some acc
  | String c s' => d ← hex_digit c; hex_digits (16 * acc + d) s'
  end.

(** [from_str_radix(s, 16)] of an unsigned type with the maximum [limit]. *)
Definition from_hex (limit : Z) (s : string) : option Z :=
  let digits := default s (Str.strip_prefix "+" s) in
  if Str.is_empty digits then None
  else n ← hex_digits 0 digits; if n <=? limit then Some n else None.

(** The address as [/proc] writes it: words of eight digits, each in the byte
    order of the machine.  A rest of fewer digits is out of the slice's range. *)
Fixpoint ip_bytes (fuel : nat) (text : string) : outcome RpcError.t (option (list Z)) :=
  match fuel with
  | O => Ok (Some [])
  | S fuel' =>
      if Str.is_empty text then Ok (Some [])
      else if Nat.ltb (String.length text) 8 then Panic
      else match from_hex (2 ^ 32 - 1) (Str.take 8 text) with
           | None => Ok None
           | Some word =>
               rest ← ip_bytes fuel' (Str.drop 8 text);
               Ok (option_map (fun bytes => Bytes.to_le 4 word ++ bytes) rest)
           end
  end.

(** A look at one line of the table, or at a table. *)
Inductive finding := Next | Found | Unknown.

Definition is_unspecified (ip : list Z) : bool := forallb (Z.eqb 0) ip.
Definition listens_at (ip_ : list Z) (port_ : Z) (a : address) : bool :=
  (port a =? port_) &&
  (bool_decide (ip a = ip_) || (is_unspecified ip_ && Nat.eqb (length (ip a)) (length ip_))).

Definition field (fields : list string) (i : nat) : string := default "" (fields !! i).

Definition inspect_line (sockets : list string) (addresses : list address) (line : string) :
    outcome RpcError.t finding :=
  let fields := Text8.split_whitespace line in
  if Nat.ltb (length fields) 10 || negb (bool_decide (field fields 3 = "0A")) ||
     negb (bool_decide (field fields 9 ∈ sockets))
  then Ok Next
  else
    match Str.split_once ":" (field fields 1) with
    | None => Ok Unknown
    | Some (ip_, port_) =>
        match from_hex 65535 port_ with
        | None => Ok Unknown
        | Some port_ =>
            bytes ← ip_bytes (String.length ip_) ip_;
            match bytes with
            | None => Ok Unknown
            | Some bytes =>
                if Nat.eqb (length bytes) 4 || Nat.eqb (length bytes) 16
                then Ok (if existsb (listens_at bytes port_) addresses then Found else Next)
                else Ok Unknown
            end
        end
    end.

Fixpoint inspect_lines (sockets : list string) (addresses : list address) (ls : list string) :
    outcome RpcError.t finding :=
  match ls with
  | [] => Ok Next
  | line :: ls' =>
      found ← inspect_line sockets addresses line;
      match found with Next => inspect_lines sockets addresses ls' | _ => Ok found end
  end.

(** The inodes of the sockets among the descriptors. *)
Fixpoint socket_inodes (links : list fd_link) : option (list string) :=
  match links with
  | [] => Some []
  | Closed :: links' => socket_inodes links'
  | Target path :: links' =>
      inodes ← socket_inodes links';
      Some (match Str.strip_prefix "socket:[" path ≫= Text8.strip_suffix "]" with
            | Some inode => inode :: inodes
            | None => inodes
            end)
  | _ => None
  end.

Section network.
Context `{N : !Network}.

Definition inspect_family (pid : Z) (sockets : list string) (addresses : list address) (family : string) :
    outcome RpcError.t finding :=
  match proc_net pid family with
  | Table text => inspect_lines sockets addresses (list.drop 1 (Text8.lines text))
  | Missing => Ok (if bool_decide (family = "tcp6") then Next else Unknown)
  | Hidden => Ok Unknown
  end.

(** Whether the process listens on one of the addresses, if that can be told. *)
Definition listener_owned (pid : Z) (addresses : list address) : outcome RpcError.t (option bool) :=
  match fd_links pid ≫= socket_inodes with
  | None => Ok None
  | Some sockets =>
      tcp ← inspect_family pid sockets addresses "tcp";
      match tcp with
      | Found => Ok (Some true)
      | Unknown => Ok None
      | Next =>
          tcp6 ← inspect_family pid sockets addresses "tcp6";
          Ok (match tcp6 with Found => Some true | Unknown => None | Next => Some false end)
      end
  end.

(** ** What a tunnel is for *)

Definition direction (metadata : Value) : Value := vindex metadata "direction".
Definition forwards_local (metadata : Value) : bool := bool_decide (as_str (direction metadata) = Some "local-forward").
Definition source_host (metadata : Value) : option string := as_str (vindex (vindex metadata "source") "host").
Definition source_port (metadata : Value) : option Z := as_u64 (vindex (vindex metadata "source") "port").
Definition u16 (n : Z) : option Z := if n <=? 65535 then Some n else None.

Definition tunnel_listener_owned (record : ProcessRecord.t) : outcome RpcError.t (option bool) :=
  let found :=
    if forwards_local (metadata record) then
      host ← source_host (metadata record);
      port ← source_port (metadata record) ≫= u16;
      resolve host port
    else None in
  match found with
  | None => Ok None
  | Some addresses => listener_owned (pid record) addresses
  end.

Definition state_only (s : string) : Value := json_object [("state", VString s)].
Definition tunnel_bind_observation (metadata : Value) : Value :=
  if negb (forwards_local metadata)
  then json_object [("state", VString "unknown"); ("reason", VString "bind endpoint is remote")]
  else
    match source_host metadata, source_port metadata ≫= u16 with
    | Some host, Some port =>
        match bind host port with
        | Available => state_only "available"
        | InUse => state_only "in-use"
        | BindFailed error => json_object [("state", VString "unknown"); ("reason", VString error)]
        end
    | _, _ => state_only "unknown"
    end.

Definition tunnel_source_is_reachable (metadata : Value) : bool :=
  forwards_local metadata &&
  match source_host metadata, source_port metadata ≫= u16 with
  | Some host, Some port => existsb accepts (default [] (resolve host port))
  | _, _ => false
  end.

(** ** The report *)

Definition OBSERVATION_TTL_MS : Z := 5000.

(** The identity was verified less than five seconds ago. *)
Definition fresh_identity (checked_at : Z) (record : ProcessRecord.t) : bool :=
  identity_verified record &&
  match observed_at record with
  | Some at_ => (at_ <=? checked_at) && (checked_at - at_ <? OBSERVATION_TTL_MS)
  | None => false
  end.

Definition observed_state (record : ProcessRecord.t) (fresh reachable : bool) (owned : option bool) : string :=
  if bool_decide (state record = ProcessState.Stopped) then "stopped"
  else if bool_decide (state record = ProcessState.Failed) then "failed"
  else if negb fresh then "unknown"
  else if bool_decide (as_str (direction (metadata record)) = Some "remote-forward") then "running"
  else if reachable && bool_decide (owned = Some true) then "ready"
  else if reachable && bool_decide (owned = None) then "unknown"
  else if bool_decide (ready_state record = ReadinessState.Pending) then "starting"
  else "degraded".

Definition unverified_warning : string :=
  "recorded process identity is unverified or expired; historical readiness is not current evidence".

Definition tunnel_view (record : ProcessRecord.t) (reused : bool) : handler Value :=
  checked_at ← now;
  let meta := metadata record in
  let fresh := fresh_identity checked_at record in
  let reachable := tunnel_source_is_reachable meta in
  let binding := tunnel_bind_observation meta in
  owned ← lift (if fresh then tunnel_listener_owned record else Ok None);
  let shown key := (key, default VNull (vget meta key)) in
  mret (json_object
    [("id", default VNull (vget meta "tunnelId")); shown "workspaceSessionId"; shown "sessionRef";
     shown "profile"; shown "sshHost"; shown "direction"; shown "source"; shown "destination";
     shown "desiredState";
     ("observedState", VString (observed_state record fresh reachable owned));
     ("state", VString (state_name (state record)));
     ("readiness", readiness_value (readiness record));
     ("processId", VString (id record)); ("startedAt", vnat (started_at record));
     ("updatedAt", vnat (updated_at record)); ("lastProbeAt", vopt vnat (last_successful_probe_at record));
     ("observation", json_object
        [("checkedAt", vnat checked_at);
         ("expiresAt", vnat (u64_saturating_add checked_at OBSERVATION_TTL_MS));
         ("ttlMs", vnat OBSERVATION_TTL_MS); ("identityVerified", VBool fresh);
         ("sourceReachable", VBool reachable); ("listenerOwned", vopt VBool owned); ("binding", binding)]);
     ("warning", if negb fresh && bool_decide (state record = ProcessState.Running)
                 then VString unverified_warning else VNull);
     ("reused", VBool reused)]).

(** ** The requests *)

Definition resource_id_byte (c : ascii) : bool :=
  Str.is_alphanumeric c || bool_decide (c ∈ ["-"; "_"; "."]%char).
Definition validate_resource_id (value : string) : outcome RpcError.t unit :=
  if Str.is_empty value || (Str.len value >? 128) || negb (Str.all resource_id_byte value)
  then Err (Commands.invalid_params "resource id must contain only letters, digits, dot, dash, or underscore")
  else Ok tt.

Definition tunnel_process (tunnel_id : string) : string := "tunnel-" +:+ tunnel_id.

Definition require_tunnel_record (record : ProcessRecord.t) : outcome RpcError.t unit :=
  if is_tunnel (metadata record) then Ok tt
  else Err (RpcError.new "TUNNEL_NOT_FOUND" "process is not a managed tunnel").

Definition definition_keys : list string := ["kind"; "tunnelId"; "sshHost"; "direction"; "source"; "destination"].
Definition same_field (left right : option Value) : bool :=
  match left, right with
  | Some l, Some r => value_eq l r
  | None, None => true
  | _, _ => false
  end.
Definition tunnel_definition_matches (left right : Value) : bool :=
  forallb (fun key => same_field (vget left key) (vget right key)) definition_keys.

Definition desired_running (metadata : Value) : bool := bool_decide (str_param metadata "desiredState" = Some "running").

(** The port is kept for another tunnel that should run, on this machine or on
    the same host at the other end. *)
Definition reserves (tunnel_id : string) (bind_port : Z) (dir ssh_host : string) (meta : Value) : bool :=
  is_tunnel meta &&
  negb (bool_decide (str_param meta "tunnelId" = Some tunnel_id)) &&
  desired_running meta &&
  bool_decide (source_port meta = Some bind_port) &&
  bool_decide (as_str (direction meta) = Some dir) &&
  (bool_decide (dir = "local-forward") || bool_decide (as_str (vindex meta "sshHost") = Some ssh_host)).

Definition endpoint (host : string) (port : Z) : Value := json_object [("host", VString host); ("port", vnat port)].

Definition tunnel_metadata (params : Value) (tunnel_id ssh_host dir bind_host : string) (bind_port : Z)
    (target_host : string) (target_port : Z) : Value :=
  let session := match vget params "_workspaceSessionId" with
                 | Some v => Some v
                 | None => vget params "workspaceSessionId"
                 end in
  json_object
    [("kind", VString "tunnel"); ("tunnelId", VString tunnel_id);
     ("workspaceSessionId", default VNull session);
     ("sessionRef", default VNull (vget params "_sessionRef"));
     ("profile", default VNull (pointer params ["_sessionLabels"; "profile"]));
     ("sshHost", VString ssh_host); ("direction", VString dir);
     ("source", endpoint bind_host bind_port); ("destination", endpoint target_host target_port);
     ("desiredState", VString "running")].

Definition tunnel_ssh_argv (ssh_host config_path dir bind_host : string) (bind_port : Z)
    (target_host : string) (target_port : Z) (options : list string) : list string :=
  ["ssh"; "-F"; config_path; "-N"; "-C"; "-o"; "BatchMode=yes"; "-o"; "PreferredAuthentications=publickey";
   "-o"; "GSSAPIAuthentication=no"; "-o"; "ConnectTimeout=8"; "-o"; "ConnectionAttempts=1";
   if bool_decide (dir = "local-forward") then "-L" else "-R";
   bind_host +:+ ":" +:+ pretty bind_port +:+ ":" +:+ target_host +:+ ":" +:+ pretty target_port;
   "-o"; "ExitOnForwardFailure=yes"; "-o"; "ServerAliveInterval=10"; "-o"; "ServerAliveCountMax=3";
   "-o"; "StrictHostKeyChecking=accept-new"] ++ options ++ [ssh_host].

(** The directives that would open forwards of their own. *)
Definition forward_directives : list string :=
  ["localforward"; "remoteforward"; "dynamicforward"; "clearallforwardings"].
Definition keeps_line (line : string) : bool :=
  match Text8.split_whitespace line with
  | word :: _ => negb (bool_decide (word ∈ forward_directives))
  | [] => true
  end.
Definition line_feed : string := String "010" EmptyString.
Definition sanitize_tunnel_ssh_config (resolved : string) : string :=
  String.concat line_feed (bfilter keeps_line (Text8.lines resolved)) +:+ line_feed.

Definition ssh_config_path (cwd process_id : string) : string :=
  Commands.join cwd (".workbench-" +:+ process_id +:+ ".ssh-config").

Definition write_tunnel_ssh_config (ssh_host path : string) : handler unit :=
  resolved ← lift (ssh_config ssh_host);
  _ ← io_step "SSH_CONFIG_WRITE_FAILED";
  _ ← modify (fun h => set_machine (with_file path (sanitize_tunnel_ssh_config resolved) (machine h)) h);
  io_step "SSH_CONFIG_WRITE_FAILED".

Section requests.
Context `{fs : Confinement.FileSystem}.
Variables (r : Confinement.roots) (auth : Fences.host).

(** A request of [tunnel.ensure] that is well formed. *)
Record wanted := Wanted {
  tunnel_id : string;
  dir : string;
  bind_host : string;
  bind_port : Z;
  target_host : string;
  target_port : Z;
  ssh_host : string;
}.

Definition parse_wanted (params : Value) : outcome RpcError.t wanted :=
  tunnel_id ← required_str params "tunnelId";
  _ ← validate_resource_id tunnel_id;
  dir ← required_str params "direction";
  _ ← (if bool_decide (dir ∈ ["local-forward"; "remote-forward"]) then Ok tt
       else Err (Commands.invalid_params "unsupported tunnel direction"));
  bind_host ← required_str params "bindHost";
  bind_port ← ExecutorRuntime.required_port params "bindPort";
  target_host ← required_str params "targetHost";
  target_port ← ExecutorRuntime.required_port params "targetPort";
  ssh_host ← required_str params "sshHost";
  Ok (Wanted tunnel_id dir bind_host bind_port target_host target_port ssh_host).

Definition metadata_of (params : Value) (q : wanted) : Value :=
  tunnel_metadata params (tunnel_id q) (ssh_host q) (dir q) (bind_host q) (bind_port q)
    (target_host q) (target_port q).

Definition port_reserved (q : wanted) (record : ProcessRecord.t) : RpcError.t :=
  RpcError.new "TUNNEL_PORT_RESERVED"
    ("port " +:+ pretty (bind_port q) +:+ " is reserved by " +:+ id record).

Definition check_reservation (q : wanted) (records : list ProcessRecord.t) : outcome RpcError.t unit :=
  match bfind (fun record => reserves (tunnel_id q) (bind_port q) (dir q) (ssh_host q) (metadata record)) records with
  | Some record => Err (port_reserved q record)
  | None => Ok tt
  end.

Definition with_details (error : RpcError.t) (details : Value) : RpcError.t :=
  RpcError.mk (RpcError.code error) (RpcError.message error) (RpcError.retryable error) details.

Definition unverified_tunnel : RpcError.t :=
  RpcError.new "PROCESS_IDENTITY_UNKNOWN"
    "recorded tunnel PID cannot be verified; port occupancy is not established".
Definition conflict (tunnel_id : string) : RpcError.t :=
  RpcError.new "TUNNEL_CONFLICT"
    ("tunnel " +:+ tunnel_id +:+ " has a verified live process with a different definition; this is not a port occupancy error").

(** What is done about a tunnel that is running under the name. *)
Definition reuse (meta : Value) (q : wanted) (existing : ProcessRecord.t) : handler Value :=
  if negb (identity_verified existing) then
    view ← tunnel_view existing false;
    throw (with_details unverified_tunnel view)
  else if negb (tunnel_definition_matches (metadata existing) meta) then
    view ← tunnel_view existing false;
    details ← lift (expect (vset view "requestedBinding" (tunnel_bind_observation meta)));
    throw (with_details (conflict (tunnel_id q)) details)
  else tunnel_view existing true.

Definition known_hosts_option (params : Value) : outcome RpcError.t (list string) :=
  match str_param params "knownHostsFile" with
  | Some _ => path ← Commands.checked r auth params "knownHostsFile" false;
              Ok ["-o"; "UserKnownHostsFile=" +:+ path]
  | None => Ok []
  end.

Definition tunnel_readiness (q : wanted) : option Value :=
  if bool_decide (dir q = "local-forward") then
    Some (json_object [("type", VString "tcp"); ("host", VString (bind_host q)); ("port", vnat (bind_port q));
                       ("timeoutMs", vnat 8000); ("intervalMs", vnat 250)])
  else None.

Definition start_tunnel (params meta : Value) (q : wanted) : handler Value :=
  let process_id := tunnel_process (tunnel_id q) in
  cwd ← lift (Commands.checked r auth params "cwd" true);
  log_path ← lift (match str_param params "logPath" with
                   | Some _ => Commands.checked r auth params "logPath" false
                   | None => Ok (Commands.process_log cwd process_id)
                   end);
  let config := ssh_config_path cwd process_id in
  _ ← write_tunnel_ssh_config (ssh_host q) config;
  options ← lift (known_hosts_option params);
  let argv := tunnel_ssh_argv (ssh_host q) config (dir q) (bind_host q) (bind_port q)
                (target_host q) (target_port q) options in
  record ← start process_id cwd argv ∅ log_path (tunnel_readiness q) true meta;
  record ← get_process (id record);
  tunnel_view record false.

Definition tunnel_ensure (params : Value) : handler Value :=
  q ← lift (parse_wanted params);
  let process_id := tunnel_process (tunnel_id q) in
  records ← list_processes;
  _ ← lift (check_reservation q records);
  let meta := metadata_of params q in
  existing ← ok_of (get_process process_id);
  match existing with
  | Some existing =>
      if bool_decide (state existing = ProcessState.Running) then reuse meta q existing
      else start_tunnel params meta q
  | None => start_tunnel params meta q
  end.

Definition named_tunnel (params : Value) : outcome RpcError.t string :=
  tunnel_id ← required_str params "tunnelId";
  _ ← validate_resource_id tunnel_id;
  Ok (tunnel_process tunnel_id).

Definition tunnel_get (params : Value) : handler Value :=
  process_id ← lift (named_tunnel params);
  record ← get_process process_id;
  _ ← lift (require_tunnel_record record);
  tunnel_view record false.

Fixpoint views (records : list ProcessRecord.t) : handler (list Value) :=
  match records with
  | [] => mret []
  | record :: records' =>
      view ← tunnel_view record false; rest ← views records'; mret (view :: rest)
  end.
Definition tunnel_list : handler Value :=
  records ← list_processes;
  tunnels ← views (bfilter (fun record => is_tunnel (metadata record)) records);
  mret (json_object [("tunnels", VArray tunnels)]).

Definition remove_file (path : string) (m : Machine.t) : Machine.t :=
  Machine.mk (Machine.boot_id m) (Machine.processes m) (Machine.groups m) (Machine.refused m)
    (delete path (Machine.files m)) (Machine.directories m) (Machine.connects m) (Machine.children m).

(** [fs::remove_file]; a file that is not there is fine. *)
Definition remove_config (path : string) : handler unit :=
  h ← get;
  if bool_decide (is_Some (Machine.files (machine h) !! path)) then
    _ ← io_step "SSH_CONFIG_REMOVE_FAILED";
    modify (set_machine (remove_file path (machine h)))
  else mret tt.

Definition tunnel_stop (params : Value) : handler Value :=
  process_id ← lift (named_tunnel params);
  existing ← get_process process_id;
  _ ← lift (require_tunnel_record existing);
  meta ← lift (expect (vset (metadata existing) "desiredState" (VString "stopped")));
  _ ← update_metadata process_id meta;
  record ← stop process_id;
  _ ← remove_config (ssh_config_path (cwd record) process_id);
  tunnel_view record false.

Definition holds_port (port_ : Z) (record : ProcessRecord.t) : bool :=
  is_tunnel (metadata record) && desired_running (metadata record) &&
  forwards_local (metadata record) && bool_decide (source_port (metadata record) = Some port_).

Definition port_check (params : Value) : handler Value :=
  port_ ← lift (ok_or (Commands.invalid_params "port is required") (u64_param params "port"));
  _ ← guard ((1 <=? port_) && (port_ <=? 65535)) (Commands.invalid_params "invalid port");
  records ← list_processes;
  let reserved := existsb (holds_port port_) records in
  let free := match bind "127.0.0.1" port_ with Available => true | _ => false end in
  mret (json_object [("port", vnat port_); ("available", VBool (negb reserved && free))]).
End requests.
End network.

(** ** Reconciliation

    [reconcile_tunnels] runs before every request but the tunnel requests: it
    lists what should run and does not, and starts each under a permit for its
    resources. *)

Record node := Node {
  table : ProcessTable.host;
  arbiter : Resources.host;
}.
Definition set_table (t : ProcessTable.host) (n : node) : node := Node t (arbiter n).
Definition set_arbiter (a : Resources.host) (n : node) : node := Node (table n) a.
Definition on_table {A} (m : handler A) : M node RpcError.t A := fun n w =>
  let '(o, t, w') := m (table n) w in (o, set_table t n, w').
Definition on_arbiter {A} (m : Resources.handler A) : M node RpcError.t A := fun n w =>
  let '(o, a, w') := m (arbiter n) w in (o, set_arbiter a n, w').

(** [let _ = m]: whatever it answers, its effects stay. *)
Definition ignored {A} (m : M node RpcError.t A) : M node RpcError.t unit := fun n w =>
  let '(o, n', w') := m n w in (match o with Panic => Panic | _ => Ok tt end, n', w').

Definition due (now_ : Z) (record : ProcessRecord.t) : bool :=
  is_tunnel (metadata record) && desired_running (metadata record) &&
  bool_decide (state record ∈ [ProcessState.Failed; ProcessState.Stopped]) &&
  (5000 <=? saturating_sub now_ (default 0 (u64_param (metadata record) "lastReconcileAttemptAt"))).

Definition candidates : M node RpcError.t (Z * list ProcessRecord.t) :=
  now_ ← now;
  records ← on_table list_processes;
  mret (now_, bfilter (due now_) records).

Section reconcile.
Context `{!Text, !Sha256}.
(** Of the executor: its id. *)
Variable executor_id : string.

Definition tunnel_keys (meta : Value) : list string :=
  let tunnel_id := default "" (as_str (vindex meta "tunnelId")) in
  ["tunnel:" +:+ executor_id +:+ ":" +:+ tunnel_id; "tunnel:" +:+ tunnel_id;
   "bind:" +:+ default "" (source_host meta) +:+ ":" +:+ json_text (vindex (vindex meta "source") "port")].

(** One turn of the loop; the permit is dropped at its end. *)
Definition reconcile_one (now_ : Z) (record : ProcessRecord.t) : M node RpcError.t unit := fun n w =>
  match on_arbiter (Resources.begin (tunnel_keys (metadata record)) []) n w with
  | (Ok permit, n1, w1) =>
      let '(o, n2, w2) :=
        (meta ← lift (expect (vset (metadata record) "lastReconcileAttemptAt" (vnat now_)));
         _ ← ignored (on_table (update_metadata (id record) meta));
         ignored (on_table (restart (id record)))) n1 w1 in
      let '(a, w3) := Resources.drop_permit permit (arbiter n2) w2 in
      (o, set_arbiter a n2, w3)
  | (Err _, n1, w1) => (Ok tt, n1, w1)
  | (Panic, n1, w1) => (Panic, n1, w1)
  end.

Fixpoint reconcile_each (now_ : Z) (records : list ProcessRecord.t) : M node RpcError.t unit :=
  match records with
  | [] => mret tt
  | record :: records' => _ ← reconcile_one now_ record; reconcile_each now_ records'
  end.

Definition reconcile_tunnels : M node RpcError.t unit :=
  '(now_, records) ← candidates;
  reconcile_each now_ records.
End reconcile.

(** ** The configuration a tunnel runs with *)

(** The first word of a line of the configuration is its directive. *)
Definition directive (line : string) : option string := Text8.split_whitespace line !! 0%nat.

Lemma keeps_line_iff line :
  keeps_line line = true <-> forall word, directive line = Some word -> word ∉ forward_directives.
Proof.
  unfold keeps_line, directive. destruct (Text8.split_whitespace line) as [|word words]; simpl.
  - by split.
  - rewrite negb_true_iff, bool_decide_eq_false. split; [by intros H w [= <-]|]. intros H. by apply H.
Qed.

Lemma sanitized_lines resolved :
  Str.count_char "013" resolved = O -> bfilter keeps_line (Text8.lines resolved) <> [] ->
  Text8.lines (sanitize_tunnel_ssh_config resolved) = bfilter keeps_line (Text8.lines resolved).
Proof.
  intros Hcr Hne. apply Text8.lines_concat; [done|]. apply forallb_forall.
  intros line Hin%list_elem_of_In. apply elem_of_bfilter in Hin as [_ Hin]. by eapply Text8.lines_one_line.
Qed.

(** The configuration a tunnel's [ssh] runs with opens no forward but the
    tunnel's own: none of its lines is a forwarding directive, and it keeps every
    other line of what [ssh -G] resolved, in order. *)
Theorem sanitized_config_forwards_nothing resolved :
  Str.count_char "013" resolved = O ->
  let sanitized := Text8.lines (sanitize_tunnel_ssh_config resolved) in
  (forall line word, line ∈ sanitized -> directive line = Some word -> word ∉ forward_directives) /\
  (sanitized = bfilter keeps_line (Text8.lines resolved) \/
   sanitized = [""] /\ bfilter keeps_line (Text8.lines resolved) = []).
Proof.
  intros Hcr sanitized. unfold sanitized. destruct (bfilter keeps_line (Text8.lines resolved)) as [|l ls] eqn:Hf.
  - assert (Text8.lines (sanitize_tunnel_ssh_config resolved) = [""]) as ->.
    { unfold sanitize_tunnel_ssh_config. by rewrite Hf. }
    split; [|by right]. intros line word [->|[]%not_elem_of_nil]%elem_of_cons. done.
  - rewrite sanitized_lines, Hf by (done || by rewrite Hf). split; [|by left].
    intros line word Hin. rewrite <- Hf in Hin. apply elem_of_bfilter in Hin as [Hk _].
    by apply keeps_line_iff.
Qed.

(** ** The files of a tunnel *)

Lemma resource_id_no_slash id : validate_resource_id id = Ok tt -> Commands.no_slash id = true.
Proof.
  unfold validate_resource_id. destruct (_ || _) eqn:Hv; [done|]. intros _.
  apply orb_false_iff in Hv as [_ Hv]. apply negb_false_iff in Hv. unfold Commands.no_slash.
  apply Nat.eqb_eq. induction id as [|a id IH]; [done|]. simpl in Hv. apply andb_true_iff in Hv as [Ha Hv].
  simpl. case_decide; [subst a; by vm_compute in Ha|]. by apply IH.
Qed.

Lemma tunnel_file_component base id suffix :
  base <> "" -> validate_resource_id id = Ok tt -> Commands.no_slash suffix = true ->
  let name := ".workbench-" +:+ tunnel_process id +:+ suffix in
  FsPath.components (Commands.join base name) = FsPath.components base ++ [FsPath.Normal name].
Proof.
  intros Hb Hid%resource_id_no_slash Hs name. rewrite Commands.components_join; [done..|].
  unfold Commands.no_slash in *. apply Nat.eqb_eq in Hid, Hs. apply Nat.eqb_eq.
  unfold name, tunnel_process. rewrite !Str.count_char_app, Hid, Hs. done.
Qed.

(** The files of a tunnel stay in place: when [tunnel.ensure] accepts the
    tunnel's name, the log and the [ssh] configuration it makes of it are entries
    of the directory it was given, whatever the name is. *)
Theorem tunnel_files_stay_in_place params q cwd :
  parse_wanted params = Ok q -> cwd <> "" ->
  let process_id := tunnel_process (tunnel_id q) in
  FsPath.components (Commands.process_log cwd process_id) =
    FsPath.components cwd ++ [FsPath.Normal (".workbench-" +:+ process_id +:+ ".log")] /\
  FsPath.components (ssh_config_path cwd process_id) =
    FsPath.components cwd ++ [FsPath.Normal (".workbench-" +:+ process_id +:+ ".ssh-config")].
Proof.
  intros Hq Hcwd process_id. assert (validate_resource_id (tunnel_id q) = Ok tt) as Hid.
  { unfold parse_wanted in Hq. destruct (required_str params "tunnelId") as [id| |]; try done.
    cbn -[validate_resource_id] in Hq. destruct (validate_resource_id id) as [[]| |] eqn:Hv; try done.
    repeat match type of Hq with
           | (?o ≫= _) = _ => destruct o; try done; cbn -[validate_resource_id] in Hq
           | outcome_bind _ ?o = _ => destruct o; try done; cbn -[validate_resource_id] in Hq
           end. by injection Hq as <-. }
  split; by apply tunnel_file_component.
Qed.

(** ** What a report says *)

Section reports.
Context `{N : !Network}.

(** The clock reads [at_] at most 5000 ms before [n], and not after it. *)
Definition recent (n : Z) (at_ : option Z) : Prop :=
  exists t, at_ = Some t /\ t <= n < t + OBSERVATION_TTL_MS.

Lemma fresh_identity_iff n record :
  fresh_identity n record = true <-> identity_verified record = true /\ recent n (observed_at record).
Proof.
  unfold fresh_identity, recent. rewrite andb_true_iff. destruct (observed_at record) as [t|]; split.
  - intros [Hv Ht]. split; [done|]. exists t. split; [done|]. lia.
  - intros [Hv (t' & [= ->] & Ht)]. split; [done|]. lia.
  - by intros [? ?].
  - by intros [_ (? & ? & _)].
Qed.

(** Someone takes connections at the tunnel's end on this machine, and it is the
    tunnel's process that listens there. *)
Definition serves (record : ProcessRecord.t) : Prop :=
  exists host port addresses,
    forwards_local (metadata record) = true /\
    source_host (metadata record) = Some host /\ source_port (metadata record) ≫= u16 = Some port /\
    resolve host port = Some addresses /\ (exists a, a ∈ addresses /\ accepts a = true) /\
    listener_owned (pid record) addresses = Ok (Some true).

Lemma serves_iff record :
  serves record <-> tunnel_source_is_reachable (metadata record) = true /\
                    tunnel_listener_owned record = Ok (Some true).
Proof.
  unfold serves, tunnel_source_is_reachable, tunnel_listener_owned. split.
  - intros (host & port & addresses & -> & -> & Hp & Hr & (a & Ha & Hacc) & Hl).
    cbn [mbind option_bind andb]. rewrite Hp. cbn [mbind option_bind]. rewrite Hr. split; [|done]. apply existsb_exists. exists a. by rewrite <- list_elem_of_In.
  - destruct (forwards_local _) eqn:Hf; [|by intros [? _]]. cbn [andb].
    destruct (source_host _) as [host|]; cbn [mbind option_bind]; [|by intros [? _]].
    destruct (source_port (metadata record) ≫= u16) as [port|] eqn:Hp; cbn [mbind option_bind]; [|by intros [? _]].
    destruct (resolve host port) as [addresses|] eqn:Hr; cbn [default]; [|by intros [? _]].
    intros [(a & Ha & Hacc)%existsb_exists Hl]. exists host, port, addresses. split_and!; try done.
    exists a. by rewrite list_elem_of_In.
Qed.

Lemma observed_ready record fresh reachable owned :
  observed_state record fresh reachable owned = "ready" <->
  state record = ProcessState.Running /\ fresh = true /\
  as_str (direction (metadata record)) <> Some "remote-forward" /\ reachable = true /\ owned = Some true.
Proof.
  unfold observed_state. split.
  - destruct (state record); try done. cbn. destruct fresh; try done. cbn.
    case_bool_decide; [done|]. destruct reachable, owned as [[]|]; cbn; repeat case_bool_decide; intros ?; try done; by split_and!.
  - intros (-> & -> & Hd & -> & ->). cbn. repeat case_bool_decide; done.
Qed.

(** A tunnel is reported ready exactly when it is seen to serve: its process
    runs, its identity was verified in the last five seconds, something takes
    connections at its source, and the listener there belongs to its process.
    Readiness that was once recorded does not count. *)
Theorem ready_tunnels_are_observed record reused h w view h' w' :
  tunnel_view record reused h w = (Ok view, h', w') ->
  vget view "observedState" = Some (VString "ready") <->
  state record = ProcessState.Running /\ identity_verified record = true /\
  recent (clock w (clock_at w)) (observed_at record) /\ serves record.
Proof.
  unfold tunnel_view. intros Hrun.
  change ((now ≫= ?k) h w) with (k (clock w (clock_at w)) h (clock_tick w)) in Hrun. cbn beta in Hrun.
  set (n := clock w (clock_at w)) in *.
  set (o := if fresh_identity n record then tunnel_listener_owned record else Ok None) in *.
  destruct o as [owned| |] eqn:Ho; try done.
  change ((lift (Ok owned) ≫= ?k)) with (k owned) in Hrun. cbn beta zeta in Hrun. injection Hrun as <- <- <-.
  set (s := observed_state record _ _ _).
  match goal with |- vget ?v "observedState" = _ <-> _ => change (vget v "observedState") with (Some (VString s)) end.
  assert (Some (VString s) = Some (VString "ready") <-> s = "ready") as -> by (split; [by intros [= ?]|by intros ->]).
  unfold s. rewrite observed_ready, serves_iff. unfold o in Ho. split.
  - intros (Hst & Hf & _ & Hr & ->). rewrite Hf in Ho. apply fresh_identity_iff in Hf as [Hv Hrec]. done.
  - intros (Hst & Hv & Hrec & Hr & Hl). assert (fresh_identity n record = true) as Hf by by apply fresh_identity_iff.
    rewrite Hf, Hl in Ho. injection Ho as <-. split_and!; try done. unfold tunnel_source_is_reachable in Hr.
    apply andb_true_iff in Hr as [Hd%bool_decide_eq_true _]. by rewrite Hd.
Qed.
End reports.

(** ** The theorems at work *)

Definition resolved_config : string :=
  "hostname db.example.org" +:+ line_feed +:+ "localforward 9000 [localhost]:9000" +:+ line_feed +:+
  "port 22" +:+ line_feed.

Lemma sanitized_config_forwards_nothing_witness :
  let sanitized := Text8.lines (sanitize_tunnel_ssh_config resolved_config) in
  sanitized = bfilter keeps_line (Text8.lines resolved_config) \/
  sanitized = [""] /\ bfilter keeps_line (Text8.lines resolved_config) = [].
Proof. exact (proj2 (sanitized_config_forwards_nothing resolved_config eq_refl)). Defined.

Example resolved_config_sanitized :
  Text8.lines (sanitize_tunnel_ssh_config resolved_config) = ["hostname db.example.org"; "port 22"].
Proof. by vm_compute. Qed.

Definition sample_params (tid : string) : Value :=
  json_object [("tunnelId", VString tid); ("direction", VString "local-forward"); ("bindHost", VString "127.0.0.1");
               ("bindPort", vnat 8080); ("targetHost", VString "db"); ("targetPort", vnat 5432);
               ("sshHost", VString "db.example.org")].
Definition sample_wanted (tid : string) : wanted :=
  Wanted tid "local-forward" "127.0.0.1" 8080 "db" 5432 "db.example.org".

Lemma tunnel_files_stay_in_place_witness :
  FsPath.components (Commands.process_log "/srv" "tunnel-..") =
    FsPath.components "/srv" ++ [FsPath.Normal ".workbench-tunnel-...log"].
Proof.
  exact (proj1 (tunnel_files_stay_in_place (sample_params "..") (sample_wanted "..") "/srv" eq_refl ltac:(done))).
Defined.

(** Process 100 listens at 127.0.0.1:8080. *)
Definition serving : Network := {|
  resolve host port := Some [Address [127; 0; 0; 1] port];
  accepts a := port a =? 8080;
  bind _ port := if port =? 8080 then InUse else Available;
  fd_links pid := if pid =? 100 then Some [Target "/dev/null"; Closed; Target "socket:[4242]"] else None;
  proc_net _ family :=
    if decide (family = "tcp") then
      Table ("sl local_address rem_address st tx_queue rx_queue tr tm->when retrnsmt uid timeout inode" +:+ line_feed +:+
             "0: 0100007F:1F90 00000000:0000 0A 00000000:00000000 00:00000000 00000000 1000 0 4242 1" +:+ line_feed)
    else Missing;
  ssh_config _ := Ok resolved_config;
|}.

Definition serving_record : ProcessRecord.t :=
  verify (observe 1000
    (launched "tunnel-db" "/srv" ["ssh"] ∅ "/srv/.workbench-tunnel-db.log" None true
       (metadata_of VNull (sample_wanted "db")) 0 100 900 (Some "b00t:7"))).
Definition at_3_s : world := World (fun i => 3000 + Z.of_nat i) (fun i => pretty i) (fun _ => true) 0 0 0.

Lemma ready_tunnels_are_observed_witness :
  exists view, vget view "observedState" = Some (VString "ready") /\ serves (N := serving) serving_record.
Proof.
  set (h := Host ∅ false None (Machine.mk None ∅ ∅ ∅ ∅ ∅ (fun _ => None) []) [] []).
  set (run := tunnel_view (N := serving) serving_record false h at_3_s).
  set (view := match run.1.1 with Ok v => v | _ => VNull end).
  assert (run = (Ok view, run.1.2, run.2)) as Hrun by (vm_compute; reflexivity).
  assert (vget view "observedState" = Some (VString "ready")) as Hready by (vm_compute; reflexivity).
  exists view. split; [exact Hready|].
  exact (proj2 (proj2 (proj2 (proj1
    (ready_tunnels_are_observed (N := serving) serving_record false h at_3_s view run.1.2 run.2 Hrun) Hready)))).
Defined.
End Tunnels.
