(* ===== verification/Ports.v ===== *)
(** * Two tunnels never hold one port ([crates/workbench-runtime/src/executor.rs])

    [tunnel.ensure] refuses a port that another tunnel, one that should run, has
    at the same end.  As long as the executor serves one request at a time, the
    refusal is enough: stopping, reconciling, restarting and starting processes
    under the names of tunnels keep the ports apart.  [reconcile_tunnels] writes
    back metadata that it read earlier, so the same is not true when a request is
    served between. *)

From Stdlib Require Import Ascii String.
From S2P Require Import Prelude RustStd RustText Json Protocol Schema Leases Contracts Store.
From S2P Require Import Controller Samples Catalog Arbitration Enforcement Executors Confinement.
From S2P Require Import Processes Supervision Commands Tunnels.

Module Ports.
Import ProcessRecord ProcessTable Tunnels.

(** ** What the records hold *)

Definition wants (meta : Value) : bool := is_tunnel meta && desired_running meta.

(** Two tunnels that should run at the same end of the same machine. *)
Record clash (m1 m2 : Value) : Prop := {
  clash_wants : wants m1 = true /\ wants m2 = true;
  clash_port : exists p, source_port m1 = Some p /\ source_port m2 = Some p;
  clash_end : exists d, as_str (direction m1) = Some d /\ as_str (direction m2) = Some d /\
    (d = "local-forward" \/ exists host, str_param m1 "sshHost" = Some host /\ str_param m2 "sshHost" = Some host);
}.
Lemma clash_sym m1 m2 : clash m1 m2 -> clash m2 m1.
Proof.
  intros [[? ?] (p & ? & ?) (d & ? & ? & Hd)]. split; [done|by exists p|]. exists d. split_and!; [done..|].
  destruct Hd as [?|(host & ? & ?)]; [by left|right; by exists host].
Qed.

(** The metadata of every record, by the record's id. *)
Record ports (ms : gmap string Value) : Prop := {
  named : forall id m, ms !! id = Some m -> is_tunnel m = true ->
    exists tid, str_param m "tunnelId" = Some tid /\ id = tunnel_process tid;
  apart : forall id1 id2 m1 m2, ms !! id1 = Some m1 -> ms !! id2 = Some m2 -> clash m1 m2 -> id1 = id2;
}.

Definition metas (rs : gmap string ProcessRecord.t) : gmap string Value := metadata <$> rs.

Lemma ports_insert id m ms :
  ports ms ->
  (is_tunnel m = true -> exists tid, str_param m "tunnelId" = Some tid /\ id = tunnel_process tid) ->
  (forall id' m', ms !! id' = Some m' -> clash m m' -> id' = id) ->
  ports (<[id := m]> ms).
Proof.
  intros [Hn Ha] Hid Hm. split.
  - intros id' m'. destruct (decide (id' = id)) as [->|Hne].
    + rewrite lookup_insert_eq. by intros [= <-].
    + rewrite lookup_insert_ne by done. apply Hn.
  - intros id1 id2 m1 m2. destruct (decide (id1 = id)) as [->|H1], (decide (id2 = id)) as [->|H2]; [done|..].
    + rewrite lookup_insert_eq, lookup_insert_ne by done. intros [= <-] Hm2 Hc. symmetry. by eapply Hm.
    + rewrite lookup_insert_eq, (lookup_insert_ne _ id id1) by done. intros Hm1 [= <-] Hc%clash_sym. by eapply Hm.
    + rewrite !lookup_insert_ne by done. apply Ha.
Qed.

(** A tunnel's metadata may change as long as it claims no more. *)
Lemma ports_change id m m' ms :
  ports ms -> ms !! id = Some m ->
  (is_tunnel m' = true -> is_tunnel m = true /\ str_param m' "tunnelId" = str_param m "tunnelId") ->
  (forall m2, clash m' m2 -> clash m m2) -> ports (<[id := m']> ms).
Proof.
  intros Hp Hm Hid Hc. apply ports_insert; [done|..].
  - intros [Ht ->]%Hid. by apply (named _ Hp).
  - intros id2 m2 Hm2 H%Hc. symmetry. by eapply (apart _ Hp).
Qed.

Lemma ports_plain id m ms : ports ms -> is_tunnel m = false -> ports (<[id := m]> ms).
Proof.
  intros Hp Hm. apply ports_insert; [done|by rewrite Hm|]. intros id' m' _ [[Hw _] _ _].
  unfold wants in Hw. by rewrite Hm in Hw.
Qed.

(** ** What the table's methods do to it *)

Definition sound (rs : gmap string ProcessRecord.t) : Prop :=
  (forall id r, rs !! id = Some r -> ProcessRecord.id r = id) /\ ports (metas rs).

Lemma sound_empty : sound ∅.
Proof.
  split; [intros id r; by rewrite lookup_empty|]. unfold metas. rewrite fmap_empty.
  split; intros id ?; rewrite lookup_empty; by intros.
Qed.

(** The records are sound, in memory and on disk, and their metadata is as [M]
    says. *)
Definition held (M : gmap string Value -> Prop) (h : host) : Prop :=
  sound (records h) /\ (forall rs, disk h = Some rs -> sound rs) /\ M (metas (records h)).

Lemma held_meta M h id r : held M h -> records h !! id = Some r -> metas (records h) !! id = Some (metadata r).
Proof. intros _ Hr. unfold metas. by rewrite lookup_fmap, Hr. Qed.

(** [M] and the ports allow the metadata [m] under [id]. *)
Definition allows (M : gmap string Value -> Prop) (id : string) (m : Value) : Prop :=
  forall ms, M ms -> ports ms -> M (<[id := m]> ms) /\ ports (<[id := m]> ms).

Lemma held_insert M id r h :
  held M h -> ProcessRecord.id r = id -> allows M id (metadata r) -> held M (insert_record id r h).
Proof.
  intros ((Hid & Hp) & Hd & HM) Hr Ha. destruct (Ha _ HM Hp) as [HM' Hp'].
  assert (metas (<[id := r]> (records h)) = <[id := metadata r]> (metas (records h))) as Heq
    by apply fmap_insert.
  split; [split|split; [done|]]; simpl; [|by rewrite Heq..].
  intros id' r'. destruct (decide (id' = id)) as [->|Hne].
  - rewrite lookup_insert_eq. by intros [= <-].
  - rewrite lookup_insert_ne by done. apply Hid.
Qed.

Lemma held_same M id r r' h :
  held M h -> records h !! id = Some r -> ProcessRecord.id r' = ProcessRecord.id r -> metadata r' = metadata r ->
  held M (insert_record id r' h).
Proof.
  intros Hh Hr Hi Hm. pose proof (held_meta _ _ _ _ Hh Hr) as Hms. pose proof Hh as ((Hid & Hp) & Hd & HM).
  assert (held (eq (metas (records h))) (insert_record id r' h)) as (Hs & Hd' & Heq).
  { apply held_insert; [done|rewrite Hi; by apply Hid|]. intros ms <- Hms'. by rewrite Hm, insert_id. }
  split_and!; [done..|]. by rewrite <- Heq.
Qed.

Lemma held_weaken (M M' : gmap string Value -> Prop) h : held M h -> (forall ms, M ms -> M' ms) -> held M' h.
Proof. intros (? & ? & ?) HM. split_and!; auto. Qed.

Section methods.
Variable M : gmap string Value -> Prop.

Lemma held_look_at id : keeps (held M) (look_at id).
Proof. apply Supervision.keeps_look_at. intros h r r' Hh Hr [[] _ _ _]. by eapply held_same. Qed.

Lemma held_persist : keeps (held M) persist.
Proof.
  intros h w Hh. destruct (Supervision.persist_run h w) as [(w' & -> & _)|(e & w' & -> & _)]; [|done]. simpl.
  destruct (persistent h); [|done]. destruct Hh as (Hs & Hd & HM). split; [done|]. split; [|done].
  by intros rs [= <-].
Qed.
#[local] Hint Resolve held_look_at held_persist Supervision.keeps_ok_of : keeps.

Lemma held_get id : keeps (held M) (get_process id).
Proof. unfold get_process. keep. Qed.

(** The record that [get] answers is the one in the table. *)
Lemma get_gives id : ensures (held M) (get_process id) (fun r h => records h !! id = Some r).
Proof.
  intros h w Hh. split; [by apply held_get|]. intros r. unfold get_process.
  pose proof (Supervision.look_at_run id h w) as Hrun. destruct (records h !! id) as [r0|].
  - destruct Hrun as (r' & w' & Hrun & _). rewrite (bind_run_Ok _ _ _ _ _ _ _ Hrun).
    destruct (Supervision.persist_run (insert_record id r' h) w') as [(w2 & Hp & _)|(e & w2 & Hp & _)].
    + rewrite (bind_run_Ok _ _ _ _ _ _ _ Hp). intros [= <-]. simpl.
      destruct (persistent h); simpl; apply lookup_insert_eq.
    + by rewrite (bind_run_Err _ _ _ _ _ _ _ Hp).
  - by rewrite (bind_run_Err _ _ _ _ _ _ _ Hrun).
Qed.

Lemma held_refresh_each ids : keeps (held M) (refresh_each ids).
Proof. induction ids as [|id ids IH]; simpl; keep. Qed.
#[local] Hint Resolve held_get held_refresh_each : keeps.

Lemma list_gives : ensures (held M) list_processes (fun rs h => rs = BTree.values (records h)).
Proof.
  intros h w Hh. assert (keeps (held M) (_ ← refresh_records; ok_of persist)) as Hk.
  { unfold refresh_records. keep. }
  specialize (Hk h w Hh). unfold list_processes. unfold mbind, M_bind in *.
  destruct (refresh_records h w) as [[[[]|e|] h1] w1]; simpl in *; [|done|done].
  destruct (ok_of persist h1 w1) as [[[o|e|] h2] w2]; simpl in *; [|done|done]. split; [done|].
  by intros rs [= <-].
Qed.
Lemma held_list : keeps (held M) list_processes.
Proof. intros h w Hh. by apply list_gives. Qed.

Lemma held_halted id r h o h' :
  held M h -> records h !! id = Some r -> Supervision.halted id r h o h' -> held M h'.
Proof. intros Hh Hr [| |n _ _|n _ _ _]; [done|done|by eapply held_same|]. by eapply held_same. Qed.

Lemma held_stop id : keeps (held M) (stop id).
Proof.
  intros h w Hh. pose proof (Supervision.stop_run id h w) as Hrun.
  destruct (records h !! id) as [r|] eqn:Hr; [|by rewrite Hrun].
  destruct Hrun as (r' & o & h' & w' & [[] _ _ _] & Hh' & _ & ->).
  assert (held M h') as Ho.
  { eapply held_halted; [..|exact Hh']; [by eapply held_same|]. simpl. apply lookup_insert_eq. }
  destruct o as [a|e|]; [|done|done]. revert Ho. generalize h' w'.
  change (keeps (held M) (_ ← persist; mret a)). keep.
Qed.

Lemma held_machine f : keeps (held M) (modify (fun h => set_machine (f h) h) : handler unit).
Proof. by apply keeps_modify. Qed.

Lemma held_spawn : keeps (held M) spawn.
Proof.
  intros h w Hh. unfold spawn. run_handler.
  by destruct (Machine.children (machine h)) as [|[[pid stat]|] rest].
Qed.
#[local] Hint Resolve held_list held_stop held_machine held_spawn Supervision.keeps_io_step : keeps.

Lemma held_start id cwd argv env log readiness restartable meta :
  allows M id meta -> keeps (held M) (start id cwd argv env log readiness restartable meta).
Proof.
  intros Ha. unfold start, launch. keep; [done|]. intros h Hh. by apply held_insert.
Qed.

Lemma held_update id meta : allows M id meta -> keeps (held M) (update_metadata id meta).
Proof.
  intros Ha h w Hh. revert w. change (from (held M) h (update_metadata id meta)). unfold update_metadata.
  apply from_get_bind. apply from_lift_bind; [done|]. intros r Hr%ok_or_Ok. apply from_now_bind. intros n.
  apply from_modify_bind. apply from_keeps; [|keep]. apply held_insert; [done| |done].
  simpl. by apply (proj1 (proj1 Hh)).
Qed.
End methods.

(** [restart] starts the process again under the id and with the metadata it
    has. *)
Lemma held_restart M id : keeps (held M) (restart id).
Proof.
  enough (forall ms, keeps (held (eq ms)) (restart id)) as Hk.
  { intros h w Hh. pose proof Hh as (_ & _ & HM). eapply held_weaken; [apply (Hk (metas (records h)))|by intros ms <-].
    by destruct Hh as (? & ? & _). }
  intros ms h w Hh. revert w. change (from (held (eq ms)) h (restart id)). unfold restart.
  eapply from_ensures_bind; [done|apply get_gives|]. intros r h1 Hh1 Hr. apply from_guard_bind; [done|]. intros _.
  pose proof (held_meta _ _ _ _ Hh1 Hr) as Hms. pose proof Hh1 as ((Hid & _) & _ & Heq).
  rewrite <- Heq in Hms. rewrite (Hid id r Hr). apply from_keeps; [done|].
  apply keeps_bind; [apply held_stop|]. intros _. apply held_start.
  intros ms' <- Hp. by rewrite insert_id.
Qed.

Lemma held_logs M id tail : keeps (held M) (logs id tail).
Proof. pose proof (held_get M id). unfold logs. keep. Qed.
#[export] Hint Resolve held_get held_list held_stop held_machine held_restart held_logs
  Supervision.keeps_io_step Supervision.keeps_ok_of : keeps.

(** ** The requests *)

Section network.
Context `{N : !Network}.

Lemma keeps_view I record reused : keeps I (tunnel_view record reused : handler Value).
Proof. unfold tunnel_view. keep. Qed.
#[local] Hint Resolve keeps_view : keeps.

(** The metadata that [tunnel.ensure] makes. *)
Lemma metadata_of_fields params q :
  let m := metadata_of params q in
  is_tunnel m = true /\ desired_running m = true /\ str_param m "tunnelId" = Some (tunnel_id q) /\
  source_port m = Some (bind_port q) /\ as_str (direction m) = Some (dir q) /\
  str_param m "sshHost" = Some (ssh_host q).
Proof. done. Qed.

Lemma str_param_vindex v key s : str_param v key = Some s -> as_str (vindex v key) = Some s.
Proof. unfold str_param, vindex. by destruct (vget v key). Qed.

Lemma reservation_apart q params rs :
  sound rs -> check_reservation q (BTree.values rs) = Ok tt ->
  ports (<[tunnel_process (tunnel_id q) := metadata_of params q]> (metas rs)).
Proof.
  intros [_ Hp] Hc. destruct (metadata_of_fields params q) as (_ & _ & Htid & Hport & Hdir & Hhost).
  apply ports_insert; [done|by exists (tunnel_id q)|]. intros id m Hm [[_ Hw] (p & Hp1 & Hp2) (d & Hd1 & Hd2 & Hend)].
  unfold metas in Hm. rewrite lookup_fmap in Hm. destruct (rs !! id) as [r|] eqn:Hr; [|done]. injection Hm as <-.
  unfold check_reservation in Hc. destruct (bfind _ _) eqn:Hf; [done|]. rewrite bfind_None in Hf.
  assert (r ∈ BTree.values rs) as Hin by (apply BTree.elem_of_values; by exists id).
  specialize (Hf r Hin). unfold wants in Hw. apply andb_true_iff in Hw as [Ht Hrun].
  destruct (named _ Hp id (metadata r)) as (tid & Htid' & ->); [|done|].
  { unfold metas. by rewrite lookup_fmap, Hr. }
  destruct (decide (tid = tunnel_id q)) as [->|Hne]; [done|]. exfalso. apply not_true_iff_false in Hf. apply Hf.
  unfold reserves. rewrite Ht, Hrun, Htid'. rewrite (bool_decide_eq_false_2 (Some tid = _)) by congruence.
  rewrite Hport in Hp1. injection Hp1 as <-. rewrite Hdir in Hd1. injection Hd1 as <-.
  rewrite !bool_decide_eq_true_2 by done. simpl. apply orb_true_iff.
  destruct Hend as [->|(host & Hh1 & Hh2)]; [left; by apply bool_decide_eq_true|right].
  apply bool_decide_eq_true. rewrite Hhost in Hh1. injection Hh1 as <-. by apply str_param_vindex.
Qed.

Section files.
Context `{fs : Confinement.FileSystem}.
Variables (rt : Confinement.roots) (auth : Fences.host).

Lemma held_write_config M host path : keeps (held M) (write_tunnel_ssh_config host path).
Proof. unfold write_tunnel_ssh_config. keep. done. Qed.

Lemma held_start_tunnel M params meta q :
  allows M (tunnel_process (tunnel_id q)) meta -> keeps (held M) (start_tunnel rt auth params meta q).
Proof.
  intros Ha. pose proof (held_start M (tunnel_process (tunnel_id q))) as Hs. pose proof held_write_config as Hc.
  unfold start_tunnel. keep.
Qed.

Definition any : gmap string Value -> Prop := fun _ => True.

Lemma held_ensure params : keeps (held any) (tunnel_ensure rt auth params).
Proof.
  intros h w Hh. revert w. change (from (held any) h (tunnel_ensure rt auth params)). unfold tunnel_ensure.
  apply from_lift_bind; [done|]. intros q _.
  eapply from_ensures_bind; [done|apply list_gives|]. intros rs h1 Hh1 ->. apply from_lift_bind; [done|].
  intros [] Hc. destruct Hh1 as (Hs & Hd & _). pose proof (reservation_apart q params _ Hs Hc) as Hp.
  set (id := tunnel_process (tunnel_id q)) in *. set (meta := metadata_of params q) in *.
  set (M := fun ms => ms = metas (records h1) \/ ms = <[id := meta]> (metas (records h1))).
  intros w. apply (held_weaken M); [|done]. revert w.
  apply from_keeps; [by split_and!; [..|left]|].
  assert (allows M id meta) as Ha.
  { intros ms [->| ->] _; [by split; [right|]|]. rewrite insert_insert_eq. by split; [right|]. }
  pose proof (held_start_tunnel M params meta q Ha) as Hstart.
  unfold reuse. keep.
Qed.

Lemma held_tunnel_get M params : keeps (held M) (tunnel_get params).
Proof. unfold tunnel_get. keep. Qed.

Lemma held_tunnel_list M : keeps (held M) tunnel_list.
Proof.
  assert (forall rs, keeps (held M) (views rs)) as Hv by (induction rs as [|r rs IH]; simpl; keep).
  unfold tunnel_list. keep.
Qed.

Lemma vset_is_tunnel v key new v' : vset v key new = Some v' -> key <> "kind" -> is_tunnel v' = is_tunnel v.
Proof. intros Hv Hne. unfold is_tunnel, str_param. by rewrite (vget_vset_ne _ _ "kind" _ _ Hv). Qed.
Lemma vset_str_param v key key' new v' :
  vset v key new = Some v' -> key <> key' -> str_param v' key' = str_param v key'.
Proof. intros Hv Hne. unfold str_param. by rewrite (vget_vset_ne _ _ key' _ _ Hv). Qed.

(** From a table that holds [m] under [id], where [m] may become [m']. *)
Lemma change_allowed M id m m' h :
  held M h -> metas (records h) !! id = Some m ->
  (is_tunnel m' = true -> is_tunnel m = true /\ str_param m' "tunnelId" = str_param m "tunnelId") ->
  (forall m2, clash m' m2 -> clash m m2) ->
  let ms := metas (records h) in
  allows (fun ms' => ms' = ms \/ ms' = <[id := m']> ms) id m'.
Proof.
  intros ((_ & Hp) & _ & _) Hm Hid Hc ms. intros ms' [->| ->] Hp'.
  - split; [by right|]. by eapply ports_change.
  - rewrite insert_insert_eq. by split; [right|].
Qed.

Lemma held_tunnel_stop params : keeps (held any) (tunnel_stop params).
Proof.
  intros h w Hh. revert w. change (from (held any) h (tunnel_stop params)). unfold tunnel_stop.
  apply from_lift_bind; [done|]. intros id _.
  eapply from_ensures_bind; [done|apply get_gives|]. intros r h1 Hh1 Hr. apply from_lift_bind; [done|].
  intros _ _. apply from_lift_bind; [done|]. intros meta Hv%expect_Ok.
  pose proof (held_meta _ _ _ _ Hh1 Hr) as Hms.
  set (M := fun ms => ms = metas (records h1) \/ ms = <[id := meta]> (metas (records h1))).
  assert (allows M id meta) as Ha.
  { eapply change_allowed; [done|done| |].
    - intros Ht. rewrite <- (vset_is_tunnel _ _ _ _ Hv), (vset_str_param _ _ "tunnelId" _ _ Hv); done.
    - intros m2 [[Hw _] _ _]. unfold wants, desired_running, str_param in Hw.
      rewrite (vget_vset _ _ _ _ Hv) in Hw. by rewrite andb_false_r in Hw. }
  intros w. apply (held_weaken M); [|done]. revert w.
  apply from_keeps; [destruct Hh1 as (? & ? & _); by split_and!; [..|left]|].
  pose proof (held_update M id meta Ha) as Hu. unfold remove_config. keep. done.
Qed.
End files.
End network.

(** ** Reconciliation, nothing between *)

Definition held_at (M : gmap string Value -> Prop) (n : node) : Prop := held M (table n).

Lemma keeps_on_table {A} M (m : handler A) : keeps (held M) m -> keeps (held_at M) (on_table m).
Proof. intros Hm n w Hn. specialize (Hm (table n) w Hn). unfold on_table. by destruct (m (table n) w) as [[o t] w']. Qed.
Lemma keeps_ignored {A} I (m : M node RpcError.t A) : keeps I m -> keeps I (ignored m).
Proof. intros Hm n w Hn. specialize (Hm n w Hn). unfold ignored. by destruct (m n w) as [[o n'] w']. Qed.

(** Each of the records is in the table, as it was read. *)
Definition as_read (rs : list ProcessRecord.t) (ms : gmap string Value) : Prop :=
  forall r, r ∈ rs -> ms !! ProcessRecord.id r = Some (metadata r).

Section reconcile.
Context `{!Text, !Sha256}.
Variable executor_id : string.

Lemma keeps_reconcile_one M now_ record :
  (forall meta, vset (metadata record) "lastReconcileAttemptAt" (vnat now_) = Some meta ->
     allows M (ProcessRecord.id record) meta) ->
  keeps (held_at M) (reconcile_one executor_id now_ record).
Proof.
  intros Ha n w Hn. unfold reconcile_one, on_arbiter.
  destruct (Resources.begin _ _ (arbiter n) w) as [[[permit|e|] a] w1]; [|done|done].
  set (body := (_ ≫= _ : Prelude.M node RpcError.t unit)).
  assert (keeps (held_at M) body) as Hk.
  { intros n1 w2 Hn1. revert w2. change (from (held_at M) n1 body). unfold body.
    apply from_lift_bind; [done|]. intros meta Hv%expect_Ok. apply from_keeps; [done|].
    apply keeps_bind; [|intros _]; apply keeps_ignored, keeps_on_table; [by apply held_update, Ha|apply held_restart]. }
  specialize (Hk (set_arbiter a n) w1 Hn). destruct (body _ w1) as [[o n2] w2].
  by destruct (Resources.drop_permit permit (arbiter n2) w2) as [a' w3].
Qed.

(** A turn may happen when the record is as it was read. *)
Lemma from_reconcile_one now_ record rs n :
  held_at (as_read (record :: rs)) n -> ProcessRecord.id record ∉ ProcessRecord.id <$> rs ->
  from (held_at (as_read rs)) n (reconcile_one executor_id now_ record).
Proof.
  intros Hn Hnin. pose proof Hn as (Hs & Hd & Hread). pose proof (Hread record ltac:(left)) as Hms.
  set (ms := metas (records (table n))) in *.
  destruct (vset (metadata record) "lastReconcileAttemptAt" (vnat now_)) as [meta|] eqn:Hv.
  - set (M := fun ms' => ms' = ms \/ ms' = <[ProcessRecord.id record := meta]> ms).
    intros w. apply (held_weaken M); [apply keeps_reconcile_one; [|by split_and!; [..|left]]|].
    + intros meta' Hv'. rewrite Hv in Hv'. injection Hv' as <-. eapply change_allowed; [done|done| |].
      * intros Ht. rewrite <- (vset_is_tunnel _ _ _ _ Hv), (vset_str_param _ _ "tunnelId" _ _ Hv); done.
      * intros m2 [[Hw1 Hw2] Hp He]. unfold wants, desired_running, source_port, direction, vindex in *.
        rewrite (vset_is_tunnel _ _ _ _ Hv), (vset_str_param _ _ "desiredState" _ _ Hv) in Hw1 by done.
        rewrite (vget_vset_ne _ _ "source" _ _ Hv) in Hp by done.
        rewrite (vget_vset_ne _ _ "direction" _ _ Hv), (vset_str_param _ _ "sshHost" _ _ Hv) in He by done.
        by split.
    + intros ms' [->| ->] r Hr; [apply Hread; by right|]. rewrite lookup_insert_ne; [apply Hread; by right|].
      intros Heq. apply Hnin. rewrite Heq. by apply list_elem_of_fmap_2.
  - intros w. apply (held_weaken (eq ms)); [apply keeps_reconcile_one; [by rewrite Hv|by split_and!]|].
    intros ms' <- r Hr. apply Hread. by right.
Qed.

Lemma from_reconcile_each now_ rs n :
  held_at (as_read rs) n -> NoDup (ProcessRecord.id <$> rs) ->
  from (held_at any) n (reconcile_each executor_id now_ rs).
Proof.
  revert n. induction rs as [|r rs IH]; intros n Hn Hnd; [intros w; by eapply held_weaken|].
  apply NoDup_cons in Hnd as [Hnin Hnd]. intros w. pose proof (from_reconcile_one now_ r rs n Hn Hnin w) as Hone.
  cbn [reconcile_each]. unfold mbind, M_bind. destruct (reconcile_one _ _ _ n w) as [[[[]|e|] n1] w1].
  - by apply IH.
  - by eapply held_weaken.
  - by eapply held_weaken.
Qed.

Lemma values_read h :
  held any h -> as_read (BTree.values (records h)) (metas (records h)) /\
  NoDup (ProcessRecord.id <$> BTree.values (records h)).
Proof.
  intros ((Hid & _) & _ & _). split.
  - intros r (id & Hr)%BTree.elem_of_values. rewrite (Hid _ _ Hr). unfold metas. by rewrite lookup_fmap, Hr.
  - rewrite (BTree.keys_values ProcessRecord.id) by done. apply BTree.NoDup_keys.
Qed.

Lemma keeps_reconcile : keeps (held_at any) (reconcile_tunnels executor_id).
Proof.
  intros n w Hn. unfold reconcile_tunnels, candidates, mbind, M_bind, now, on_table.
  pose proof (list_gives any (table n) (clock_tick w) Hn) as [Hl Hrs].
  destruct (list_processes (table n) (clock_tick w)) as [[[rs|e|] t] w1]; simpl in *; [|done|done].
  pose proof (Hrs rs eq_refl) as ->. destruct (values_read t Hl) as [Hread Hnd]. apply from_reconcile_each.
  - destruct Hl as (? & ? & _). split_and!; [done..|]. intros r [_ Hr]%elem_of_bfilter. by apply Hread.
  - eapply sublist_NoDup; [exact Hnd|]. apply fmap_sublist, bfilter_sublist.
Qed.
End reconcile.

(** ** The life of an executor that serves one request at a time *)

Section life.
Context `{!Text, !Sha256}.
Context `{!Serde (list string), !Serde (gmap string string), !Serde ProcessRecord.t}.

(** The capabilities that use the process table, new executors on its file, the
    machine, and what else uses the permits. *)
Inductive request `{Confinement.FileSystem} : node -> node -> Prop :=
  | tunnel_request (N : Network) rt auth params n w (m : handler Value) :
      m ∈ [tunnel_ensure rt auth params; tunnel_stop params; tunnel_get params; tunnel_list; port_check params] ->
      request n (on_table m n w).1.2
  | process_request rt auth action params n w (m : handler Value) :
      m ∈ [Commands.process_start rt auth action params; Commands.process_get params; Commands.process_list;
           Commands.process_stop action params; Commands.process_restart params; Commands.process_events params;
           Commands.logs_read params] ->
      request n (on_table m n w).1.2.

Inductive serves_one : node -> node -> Prop :=
  | one_request (fs : Confinement.FileSystem) n n' : request n n' -> serves_one n n'
  | one_reconcile executor_id n w : serves_one n (reconcile_tunnels executor_id n w).1.2
  | one_restart n w : serves_one n (on_table open n w).1.2
  | one_machine m n : serves_one n (set_table (set_machine m (table n)) n)
  | one_arbiter a n : serves_one n (set_arbiter a n).

Lemma keeps_one_of {A} I (m : handler A) ms : m ∈ ms -> Forall (fun m => keeps I m) ms -> keeps I m.
Proof. rewrite Forall_forall. auto. Qed.

Lemma any_plain id meta : is_tunnel meta = false -> allows any id meta.
Proof. intros Hm ms _ Hp. split; [done|]. by apply ports_plain. Qed.

Lemma held_open : keeps (held any) open.
Proof.
  unfold open, refresh_all, refresh_records. pose proof (held_refresh_each any). pose proof (held_persist any). keep.
  intros h (_ & Hd & _). split; [|done]. simpl. destruct (disk h) as [rs|]; [by apply Hd|].
  apply sound_empty.
Qed.

Lemma held_request `{Confinement.FileSystem} n n' : request n n' -> held_at any n -> held_at any n'.
Proof.
  intros [N rt auth params n0 w m Hm|rt auth action params n0 w m Hm] Hn; (apply keeps_on_table; [|done]);
    (eapply keeps_one_of; [exact Hm|]); repeat apply Forall_cons_2; try apply Forall_nil_2.
  - apply held_ensure.
  - apply held_tunnel_stop.
  - apply held_tunnel_get.
  - apply held_tunnel_list.
  - unfold port_check. keep.
  - unfold Commands.process_start. keep. apply held_start, any_plain. done.
  - unfold Commands.process_get. keep.
  - unfold Commands.process_list. keep.
  - unfold Commands.process_stop. keep.
  - unfold Commands.process_restart. keep.
  - unfold Commands.process_events. keep.
  - unfold Commands.logs_read. keep.
Qed.

Lemma held_served n n' : serves_one n n' -> held_at any n -> held_at any n'.
Proof.
  destruct 1 as [fs n n' Hr|executor_id n w|n w|m n|a n]; intros Hn; [by eapply held_request|by apply keeps_reconcile| |done..].
  apply keeps_on_table; [apply held_open|done].
Qed.

Lemma held_new p m a : held_at any (Node (Supervision.new_table p m) a).
Proof.
  split; [apply sound_empty|done].
Qed.

(** C26. Two tunnels that should run never have the same port at the same end:
    neither of this machine, nor of one [ssh] host, after any requests, restarts
    and reconciliations, served one at a time. *)
Theorem tunnel_ports_are_reserved_once p m a n id1 id2 r1 r2 :
  rtc serves_one (Node (Supervision.new_table p m) a) n ->
  records (table n) !! id1 = Some r1 -> records (table n) !! id2 = Some r2 -> id1 <> id2 ->
  ~ clash (metadata r1) (metadata r2).
Proof.
  intros Hlife H1 H2 Hne Hc. apply Hne.
  assert (held_at any n) as Hn.
  { pose proof (held_new p m a) as Hn. revert Hn. clear -Hlife. induction Hlife as [|n1 n2 n3 Hs _ IH]; [done|].
    intros Hn. by eapply IH, held_served. }
  pose proof Hn as ((_ & Hp) & _). eapply (apart _ Hp); [by eapply held_meta..|done].
Qed.
End life.

(** ** The theorem at work

    A machine on which nothing listens, and [ssh] children from 100 on. *)

Definition quiet_network : Network := {|
  resolve host port := Some [Address [127; 0; 0; 1] port];
  accepts _ := false;
  bind _ _ := Available;
  fd_links _ := None;
  proc_net _ _ := Missing;
  ssh_config _ := Ok ("hostname example.org" +:+ line_feed);
|}.

Definition tunnel_params (tid : string) (port : Z) : Value :=
  json_object [("tunnelId", VString tid); ("direction", VString "local-forward"); ("bindHost", VString "127.0.0.1");
               ("bindPort", vnat port); ("targetHost", VString "db"); ("targetPort", vnat 5432);
               ("sshHost", VString "example.org"); ("cwd", VString "/home")].

Abbreviation auth := (Fences.open "e1" Catalog.Linux None).
Definition first_node : node :=
  Node (Supervision.new_table true (Supervision.sample_machine [100; 101; 102]))
    (Resources.Host (Resources.mk (LeaseTable.mk ∅ ∅) ∅ ∅ None) None).
Definition ensure (tid : string) (port : Z) (n : node) : node :=
  (on_table (tunnel_ensure (N := quiet_network) (fs := Confinement.machine) Confinement.here auth
               (tunnel_params tid port)) n (Supervision.steady 0)).1.2.
Definition end_tunnel (tid : string) (n : node) : node :=
  (on_table (tunnel_stop (N := quiet_network) (tunnel_params tid 0)) n (Supervision.steady 0)).1.2.

Definition two_tunnels : node := ensure "web" 8081 (ensure "db" 8080 first_node).

Definition shown (n : node) : list (string * option string * option Z) :=
  (fun r => (ProcessRecord.id r, str_param (metadata r) "desiredState", source_port (metadata r))) <$>
  BTree.values (records (table n)).

Example two_tunnels_run :
  shown two_tunnels = [("tunnel-db", Some "running", Some 8080); ("tunnel-web", Some "running", Some 8081)].
Proof. by vm_compute. Qed.

Lemma served_ensure tid port n :
  serves_one (H := plain_text) (H0 := fun s => s) (Serde0 := null_serde) (Serde1 := null_serde)
    (Serde2 := null_serde) n (ensure tid port n).
Proof. apply (one_request Confinement.machine). eapply tunnel_request. left. Qed.

(** A record of the table, with another one where there is none. *)
Definition record_at (id : string) (n : node) : ProcessRecord.t :=
  default (launched id "" [] ∅ "" None false VNull 0 0 0 None) (records (table n) !! id).
Definition found_at (id : string) (n : node) : bool := bool_decide (is_Some (records (table n) !! id)).
Lemma record_found id n : found_at id n = true -> records (table n) !! id = Some (record_at id n).
Proof. intros [r Hr]%bool_decide_eq_true. unfold record_at. by rewrite Hr. Qed.

Lemma tunnel_ports_are_reserved_once_witness :
  ~ clash (metadata (record_at "tunnel-db" two_tunnels)) (metadata (record_at "tunnel-web" two_tunnels)).
Proof.
  apply (tunnel_ports_are_reserved_once (H := plain_text) (H0 := fun s => s)
           (Serde0 := null_serde) (Serde1 := null_serde) (Serde2 := null_serde)
           true (Supervision.sample_machine [100; 101; 102]) (arbiter first_node) two_tunnels
           "tunnel-db" "tunnel-web").
  - eapply rtc_l; [apply (served_ensure "db" 8080)|]. apply rtc_once, (served_ensure "web" 8081).
  - apply record_found. by vm_compute.
  - apply record_found. by vm_compute.
  - done.
Defined.

(** The [ssh] of a tunnel has ended.  [reconcile_tunnels] reads that the tunnel
    should run; the tunnel is stopped, and its port given to another one; then
    [reconcile_tunnels] goes on.  The stopped tunnel runs again, and both have the
    port. *)
Definition late : world := World (fun i => 100000 + 250 * Z.of_nat i) (fun i => pretty i) (fun _ => true) 0 0 0.
Definition raced (between : node -> node) : node :=
  let n := ensure "db" 8080 first_node in
  let n := set_table (set_machine (Supervision.sample_machine [101; 102; 103]) (table n)) n in
  match candidates n late with
  | (Ok (now_, rs), n, w) =>
      (reconcile_each (H := plain_text) (H0 := fun s => s) "e1" now_ rs (between n) w).1.2
  | (_, n, _) => n
  end.

Example stopped_tunnel_comes_back :
  shown (raced (end_tunnel "db")) = [("tunnel-db", Some "running", Some 8080)] /\
  shown (raced (fun n => ensure "web" 8080 (end_tunnel "db" n))) =
    [("tunnel-db", Some "running", Some 8080); ("tunnel-web", Some "running", Some 8080)].
Proof. by vm_compute. Qed.

(** A tunnel that could not be ended was told to stop: [tunnel.ensure] finds it
    running and answers with it, but it stays one that should be stopped, so its
    port is given away. *)
Definition protect (m : Machine.t) : Machine.t :=
  Machine.mk (Machine.boot_id m) (Machine.processes m) (Machine.groups m) (Machine.groups m) (Machine.files m)
    (Machine.directories m) (Machine.connects m) (Machine.children m).
Example reused_tunnel_stays_stopped :
  let n := ensure "db" 8080 first_node in
  let n := end_tunnel "db" (set_table (set_machine (protect (machine (table n))) (table n)) n) in
  shown (ensure "web" 8080 (ensure "db" 8080 n)) =
    [("tunnel-db", Some "stopped", Some 8080); ("tunnel-web", Some "running", Some 8080)] /\
  state (record_at "tunnel-db" (ensure "db" 8080 n)) = ProcessState.Running.
Proof. by vm_compute. Qed.
End Ports.
