(* ===== verification/Disk.v ===== *)
(** * The file system under an executor

    A disk is a tree of files, directories, symbolic links and special files
    (which are never opened here), as the system calls of [std::fs] show it on
    Unix; names are UTF-8.  [walk] follows a path through
    the tree, links and all, as the kernel does; [mounted] is the file system of
    [Confinement] for a disk.  A call that changes the disk may be refused by the
    environment ([write_ok]); a call that reads fails when what it reads is not
    there or of another kind. *)

From Stdlib Require Import Ascii String.
From S2P Require Import Prelude RustStd RustText Json Protocol Contracts Confinement.

Module Disk.
Import FsPath Confinement.

#[warnings="-register-all"]
Inductive node :=
  | File (content : string)
  | Dir (entries : list (string * node))
  | Link (target : string)
  | Special.

(** Induction with the hypothesis on the entries of a directory. *)
Lemma node_ind_nested (P : node -> Prop) :
  (forall c, P (File c)) ->
  (forall es, Forall (fun e => P e.2) es -> P (Dir es)) ->
  (forall t, P (Link t)) -> P Special -> forall n, P n.
Proof.
  intros HF HD HL HS. fix IH 1. intros [c|es|t|]; [apply HF| |apply HL|apply HS].
  apply HD. induction es as [|[x n] es IHes]; constructor; [apply IH|apply IHes].
Qed.

Definition is_dir (n : node) : bool := match n with Dir _ => true | _ => false end.
Definition is_file (n : node) : bool := match n with File _ => true | _ => false end.
Definition is_link (n : node) : bool := match n with Link _ => true | _ => false end.

(** ** The tree *)

Fixpoint entry (x : string) (es : list (string * node)) : option node :=
  match es with
  | [] => None
  | (y, n) :: es' => if decide (x = y) then Some n else entry x es'
  end.
Fixpoint set_entry (x : string) (n : node) (es : list (string * node)) : list (string * node) :=
  match es with
  | [] => [(x, n)]
  | (y, m) :: es' => if decide (x = y) then (x, n) :: es' else (y, m) :: set_entry x n es'
  end.
Definition remove_entry (x : string) (es : list (string * node)) : list (string * node) :=
  bfilter (fun e => negb (bool_decide (e.1 = x))) es.

(** The node at a path without links, [.] or [..]. *)
Fixpoint at_ (n : node) (p : list string) : option node :=
  match p with
  | [] => Some n
  | x :: p' => match n with Dir es => m ← entry x es; at_ m p' | _ => None end
  end.

(** [new] takes the place of what is at the path, in a directory that is there. *)
Fixpoint put (p : list string) (new n : node) : option node :=
  match p, n with
  | [], _ => Some new
  | [x], Dir es => Some (Dir (set_entry x new es))
  | x :: p', Dir es => m ← entry x es; m' ← put p' new m; Some (Dir (set_entry x m' es))
  | _, _ => None
  end.

Fixpoint cut (p : list string) (n : node) : option node :=
  match p, n with
  | [x], Dir es => _ ← entry x es; Some (Dir (remove_entry x es))
  | x :: p', Dir es => m ← entry x es; m' ← cut p' m; Some (Dir (set_entry x m' es))
  | _, _ => None
  end.

(** What is seen at a path; two disks with the same views are the same up to
    the order of entries. *)
Inductive item := IsFile (content : string) | IsDir | IsLink (target : string) | IsSpecial.
Definition item_of (n : node) : item :=
  match n with File c => IsFile c | Dir _ => IsDir | Link t => IsLink t | Special => IsSpecial end.
Definition view (n : node) (p : list string) : option item := item_of <$> at_ n p.

(** ** Laws *)

Lemma entry_set_eq x n es : entry x (set_entry x n es) = Some n.
Proof. induction es as [|[y m] es IH]; simpl; [by rewrite decide_True|]. case_decide; simpl; by case_decide. Qed.
Lemma entry_set_ne x y n es : x <> y -> entry y (set_entry x n es) = entry y es.
Proof.
  intros Hne. induction es as [|[z m] es IH]; simpl; [by rewrite decide_False|].
  case_decide as Hz; simpl; [subst z; by rewrite !decide_False|]. by case_decide.
Qed.
Lemma entry_remove_eq x es : entry x (remove_entry x es) = None.
Proof.
  induction es as [|[y m] es IH]; [done|]. unfold remove_entry in *. simpl. case_bool_decide; simpl; [done|].
  by rewrite decide_False.
Qed.
Lemma entry_remove_ne x y es : x <> y -> entry y (remove_entry x es) = entry y es.
Proof.
  intros Hne. induction es as [|[z m] es IH]; [done|]. unfold remove_entry in *. simpl. case_bool_decide; simpl.
  - subst. by rewrite decide_False.
  - by rewrite IH.
Qed.

Lemma at_app n p q : at_ n (p ++ q) = at_ n p ≫= fun m => at_ m q.
Proof.
  revert n. induction p as [|x p IH]; intros n; [done|]. simpl. destruct n; try done.
  destruct (entry x entries) as [m|]; [apply IH|done].
Qed.

(** What a change does to the directory it goes through. *)
Lemma put_inv x p new n n' :
  put (x :: p) new n = Some n' ->
  exists es m', n = Dir es /\ n' = Dir (set_entry x m' es) /\
    match p with [] => m' = new | _ => exists m, entry x es = Some m /\ put p new m = Some m' end.
Proof.
  destruct p as [|y p], n as [|es| |]; try done.
  - intros [= <-]. by exists es, new.
  - intros (m & Hx & (m' & Hm & [= <-])%bind_Some)%bind_Some. exists es, m'. split_and!; [done..|]. by exists m.
Qed.
Lemma cut_inv x p n n' :
  cut (x :: p) n = Some n' ->
  exists es m, n = Dir es /\ entry x es = Some m /\
    match p with
    | [] => n' = Dir (remove_entry x es)
    | _ => exists m', cut p m = Some m' /\ n' = Dir (set_entry x m' es)
    end.
Proof.
  destruct p as [|y p], n as [|es| |]; try done; intros (m & Hx & Hp)%bind_Some; exists es, m.
  - by injection Hp as <-.
  - apply bind_Some in Hp as (m' & Hm & [= <-]). split_and!; [done..|]. by exists m'.
Qed.

Lemma at_put p new n n' : put p new n = Some n' -> at_ n' p = Some new.
Proof.
  revert n n'. induction p as [|x p IH]; intros n n'; [by intros [= <-]|].
  intros (es & m' & -> & -> & Hp)%put_inv. simpl. rewrite entry_set_eq. destruct p as [|y p]; [by rewrite Hp|].
  destruct Hp as (m & _ & Hm). by eapply IH.
Qed.

Lemma at_put_below p q new n n' : put p new n = Some n' -> at_ n' (p ++ q) = at_ new q.
Proof. intros Hp. by rewrite at_app, (at_put _ _ _ _ Hp). Qed.

Lemma at_cut p n n' : cut p n = Some n' -> at_ n' p = None.
Proof.
  revert n n'. induction p as [|x p IH]; intros n n'; [by destruct n|].
  intros (es & m & -> & Hx & Hp)%cut_inv. destruct p as [|y p].
  - subst n'. simpl. by rewrite entry_remove_eq.
  - destruct Hp as (m' & Hm & ->). change (at_ (Dir ?es) (x :: ?q)) with (k ← entry x es; at_ k q).
    rewrite entry_set_eq. by eapply IH.
Qed.

Lemma view_dir es x p : view (Dir es) (x :: p) = entry x es ≫= fun m => view m p.
Proof. unfold view. simpl. by destruct (entry x es). Qed.
Lemma view_root n : view n [] = Some (item_of n).
Proof. done. Qed.

Lemma not_below_cons (x : string) p q : ~ (x :: p) `prefix_of` (x :: q) -> ~ p `prefix_of` q.
Proof. intros H Hp. apply H. by apply prefix_cons. Qed.

(** Elsewhere nothing changes, except that a directory has other entries. *)
Lemma view_put p q new n n' : put p new n = Some n' -> ~ p `prefix_of` q -> view n' q = view n q.
Proof.
  revert n n' q. induction p as [|x p IH]; intros n n' q Hp Hq; [by destruct Hq; exists q|].
  apply put_inv in Hp as (es & m' & -> & -> & Hp). destruct q as [|z q]; [done|]. rewrite !view_dir.
  destruct (decide (x = z)) as [->|Hne]; [|by rewrite entry_set_ne]. apply not_below_cons in Hq.
  rewrite entry_set_eq. destruct p as [|y p]; [by destruct Hq; exists q|].
  destruct Hp as (m & -> & Hm). by eapply IH.
Qed.

Lemma view_cut p q n n' : cut p n = Some n' -> ~ p `prefix_of` q -> view n' q = view n q.
Proof.
  revert n n' q. induction p as [|x p IH]; intros n n' q Hp Hq; [by destruct n|].
  apply cut_inv in Hp as (es & m & -> & Hx & Hp). destruct q as [|z q].
  { destruct p; [by subst|]. by destruct Hp as (m' & _ & ->). }
  destruct (decide (x = z)) as [->|Hne].
  - apply not_below_cons in Hq. destruct p as [|y p]; [by destruct Hq; exists q|].
    destruct Hp as (m' & Hm & ->). rewrite !view_dir, entry_set_eq, Hx. by eapply IH.
  - destruct p as [|y p]; [subst n'|destruct Hp as (m' & _ & ->)]; rewrite !view_dir;
      by rewrite ?entry_remove_ne, ?entry_set_ne.
Qed.

(** ** Paths *)

Section walking.
Variable root : node.

Definition dir_at (p : list string) : bool := from_option is_dir false (at_ root p).

(** The kernel follows a path from the directory [here]; the last name may be
    missing.  After 40 links it gives up. *)
Fixpoint walk (links : nat) : list string -> path -> option (list string) :=
  fix go here rest :=
    match rest with
    | [] => Some here
    | RootDir :: rest' => go [] rest'
    | CurDir :: rest' => if dir_at here then go here rest' else None
    | ParentDir :: rest' => if dir_at here then go (take (length here - 1) here) rest' else None
    | Normal name :: rest' =>
        if dir_at here then
          match at_ root (here ++ [name]) with
          | None => if decide (rest' = []) then Some (here ++ [name]) else None
          | Some (Link target) =>
              match links with
              | O => None
              | S links' => walk links' here (components target ++ rest')
              end
          | Some _ => go (here ++ [name]) rest'
          end
        else None
    end.

Definition max_links : nat := 40.

(** A path of directories that ends in no link. *)
Definition plain (q : list string) : Prop :=
  (forall p x s, q = p ++ x :: s -> dir_at p = true) /\ forall t, at_ root q <> Some (Link t).

Lemma plain_root : is_dir root = true -> plain [].
Proof. intros Hr. split; [by intros p x s; destruct p|]. intros t [= Ht]. by rewrite Ht in Hr. Qed.

Lemma plain_snoc here name :
  (forall p x s, here = p ++ x :: s -> dir_at p = true) -> dir_at here = true ->
  (forall t, at_ root (here ++ [name]) <> Some (Link t)) -> plain (here ++ [name]).
Proof.
  intros Hh Hd Hl. split; [|done]. intros p x s Heq. destruct (decide (s = [])) as [->|(s' & z & ->)%exists_last].
  - by apply app_inj_tail in Heq as [-> _].
  - rewrite app_comm_cons, app_assoc in Heq. apply app_inj_tail in Heq as [-> _]. by eapply Hh.
Qed.

Lemma plain_up here : is_dir root = true -> plain here -> plain (take (length here - 1) here).
Proof.
  intros Hr [Hh Hl]. destruct (decide (here = [])) as [->|(here' & x & ->)%exists_last]; [by apply plain_root|].
  rewrite length_app, Nat.add_sub, take_app_length. split.
  - intros p y s ->. apply (Hh p y (s ++ [x])). by rewrite <- app_assoc.
  - intros t Ht. specialize (Hh here' x [] eq_refl). unfold dir_at in Hh. by rewrite Ht in Hh.
Qed.

(** Where a walk ends there is no link left. *)
Lemma walk_plain links here rest q :
  is_dir root = true -> plain here -> walk links here rest = Some q -> plain q.
Proof.
  intros Hr. revert here rest. induction links as [|links IHl]; intros here rest; revert here;
    induction rest as [|c rest IH]; intros here Hp; (try by intros [= <-]); destruct c as [| | |name]; simpl;
    try (destruct (dir_at here) eqn:Hd; [|done]); try by (apply IH; auto using plain_root, plain_up).
  all: destruct (at_ root (here ++ [name])) as [[c|es|t|]|] eqn:Hn; try done.
  all: try (apply IH, plain_snoc; [apply Hp|done|by rewrite Hn]).
  all: try by (case_decide; [|done]; intros [= <-]; apply plain_snoc; [apply Hp|done|by rewrite Hn]).
  by apply IHl.
Qed.

(** And a path without links leads to itself. *)
Lemma walk_along links here names :
  plain (here ++ names) -> walk links here (Normal <$> names) = Some (here ++ names).
Proof.
  revert here. induction names as [|name names IH]; intros here [Hd Hl].
  { rewrite app_nil_r. by destruct links. }
  assert (dir_at here = true) as Hh by by eapply Hd.
  assert (walk links here (Normal <$> name :: names) =
          match at_ root (here ++ [name]) with
          | None => if decide ((Normal <$> names : path) = []) then Some (here ++ [name]) else None
          | Some (Link target) => match links with O => None | S links' => walk links' here (components target ++ (Normal <$> names)) end
          | Some _ => walk links (here ++ [name]) (Normal <$> names)
          end) as ->.
  { destruct links; cbn; rewrite Hh; reflexivity. }
  rewrite (cons_middle name here names), app_assoc in *. specialize (IH (here ++ [name]) (conj Hd Hl)).
  destruct names as [|z names].
  - rewrite app_nil_r in *. destruct (at_ root (here ++ [name])) as [[c|es|t|]|] eqn:Hn; try done.
    by destruct (Hl t).
  - assert (dir_at (here ++ [name]) = true) as Hz by by eapply Hd.
    unfold dir_at in Hz. destruct (at_ root (here ++ [name])) as [[c|es|t|]|]; try done.
Qed.
End walking.

(** The absolute path of names. *)
Definition absolute (names : list string) : path := RootDir :: (Normal <$> names).
Definition names_of (p : path) : list string := omap (fun c => match c with Normal n => Some n | _ => None end) p.

Lemma names_absolute names : names_of (absolute names) = names.
Proof.
  unfold names_of, absolute. simpl. induction names as [|n names IH]; [done|]. simpl. f_equal. exact IH.
Qed.

(** [path.parent()], [path.file_name()], [path.join(name)] *)
Definition parent (p : path) : option path :=
  match reverse p with
  | Normal _ :: above | CurDir :: above | ParentDir :: above => Some (reverse above)
  | _ => None
  end.
Definition file_name (p : path) : option string :=
  match last p with Some (Normal name) => Some name | _ => None end.
Definition join (p : path) (name : string) : path := p ++ [Normal name].

(** The name without its last extension; a leading dot begins none. *)
Definition file_stem (name : string) : string :=
  match Text8.rsplit_once "." name with
  | Some (stem, _) => if Str.is_empty stem then name else stem
  | None => name
  end.
(** [path.with_extension(extension)] for a non-empty extension. *)
Definition with_extension (p : path) (extension : string) : path :=
  match reverse p with
  | Normal name :: above => reverse above ++ [Normal (file_stem name +:+ "." +:+ extension)]
  | _ => p
  end.

(** The calls of a process whose working directory is [cwd]. *)
Section calls.
Variable cwd : list string.

Definition place (root : node) (p : path) : option (list string) := walk root max_links cwd p.
(** [fs::metadata]: the node at the end of the links. *)
Definition metadata (root : node) (p : path) : option node := place root p ≫= at_ root.

(** The place of a path whose last name is not followed. *)
Definition lplace (root : node) (p : path) : option (list string) :=
  match reverse p with
  | Normal name :: above =>
      here ← place root (reverse above); if dir_at root here then Some (here ++ [name]) else None
  | _ => place root p
  end.
(** [fs::symlink_metadata] *)
Definition symlink_metadata (root : node) (p : path) : option node := lplace root p ≫= at_ root.

(** The file system that [checked_path] asks. *)
Definition mounted (root : node) : FileSystem := {|
  canonicalize p := q ← place root p; _ ← at_ root q; Some (absolute q);
  exists_at p := bool_decide (is_Some (metadata root p));
|}.

Lemma mounted_resolves_links root : resolves_links (mounted root).
Proof. intros p q Hq. apply bind_Some in Hq as (names & _ & (n & _ & [= <-])%bind_Some). by exists names. Qed.

(** ** System calls: the disk after the call, if it is not refused *)

Definition mkdir (p : path) (root : node) : option node :=
  q ← lplace root p; match at_ root q with None => put q (Dir []) root | Some _ => None end.

(** [open] with [O_CREAT] and [O_TRUNC], which follows links. *)
Definition create (p : path) (root : node) : option node :=
  q ← place root p;
  match at_ root q with
  | None | Some (File _) => put q (File "") root
  | _ => None
  end.

(** [bytes] at [offset]; a gap is filled with zeros. *)
Definition overlay (content : string) (offset : nat) (bytes : string) : string :=
  Str.take offset content +:+ Str.of_codes (replicate (offset - String.length content) O) +:+ bytes +:+
  Str.drop (offset + String.length bytes) content.
Definition write_at (p : path) (offset : nat) (bytes : string) (root : node) : option node :=
  q ← place root p;
  match at_ root q with
  | Some (File content) => put q (File (overlay content offset bytes)) root
  | _ => None
  end.

Definition strictly_below (p q : list string) : bool := bool_decide (p `prefix_of` q) && negb (bool_decide (p = q)).

(** [rename] follows no last name; a directory takes the place of an empty one
    only, anything else not of a directory. *)
Definition rename (source target : path) (root : node) : option node :=
  p ← lplace root source;
  q ← lplace root target;
  n ← at_ root p;
  if bool_decide (p = q) then Some root
  else if strictly_below p q then None
  else
    let fits := match at_ root q with
                | None => true
                | Some (Dir es) => is_dir n && bool_decide (length es = 0%nat)
                | Some _ => negb (is_dir n)
                end in
    if fits then cut p root ≫= put q n else None.

Definition unlink (p : path) (root : node) : option node :=
  q ← lplace root p; n ← at_ root q; if is_dir n then None else cut q root.
Definition rmdir (p : path) (root : node) : option node :=
  q ← lplace root p;
  match at_ root q with Some (Dir []) => cut q root | _ => None end.

(** ** What the code calls *)

Definition handler := M node RpcError.t.

(** A call that the environment may refuse too. *)
Definition attempt (op : node -> option node) : handler bool :=
  ok ← write_ok;
  root ← get;
  match (if (ok : bool) then op root else None) with
  | Some root' => _ ← Prelude.put root'; mret true
  | None => mret false
  end.
Definition call (code : string) (p : path) (op : node -> option node) : handler unit :=
  ok ← attempt op; guard ok (io_error code (display p)).

(** [fs::create_dir_all]; [above] is the path from its last name. *)
Fixpoint create_dirs (code : string) (whole above : path) : handler unit :=
  root ← get;
  if from_option is_dir false (metadata root (reverse above)) then mret tt
  else
    match above with
    | Normal name :: above' =>
        _ ← create_dirs code whole above'; call code whole (mkdir (reverse above))
    | _ => throw (io_error code (display whole))
    end.
Definition create_dir_all (code : string) (p : path) : handler unit := create_dirs code p (reverse p).

(** [fs::write] *)
Definition write_file (code : string) (p : path) (bytes : string) : handler unit :=
  _ ← call code p (create p);
  if Str.is_empty bytes then mret tt else call code p (write_at p 0 bytes).

(** The entries of a tree in the order [fs::remove_dir_all] removes them. *)
Fixpoint removal (q : list string) (n : node) : list (list string) :=
  match n with
  | Dir es => concat ((fun e => removal (q ++ [e.1]) e.2) <$> es) ++ [q]
  | _ => [q]
  end.
Definition remove_one (q : list string) (root : node) : option node :=
  match at_ root q with
  | Some (Dir _) => rmdir (absolute q) root
  | Some _ => unlink (absolute q) root
  | None => None
  end.
Fixpoint remove_each (code : string) (p : path) (qs : list (list string)) : handler unit :=
  match qs with
  | [] => mret tt
  | q :: qs' => _ ← call code p (remove_one q); remove_each code p qs'
  end.
(** A link is removed itself, anything but a directory is refused. *)
Definition remove_dir_all (code : string) (p : path) : handler unit :=
  root ← get;
  match (q ← lplace root p; n ← at_ root q; Some (q, n)) with
  | Some (q, Link t) => call code p (unlink p)
  | Some (q, Dir es) => remove_each code p (removal q (Dir es))
  | _ => throw (io_error code (display p))
  end.

(** ** What a call does, on a path without links *)

Definition linkless (root : node) (ns : list string) : Prop :=
  forall p t, p `prefix_of` ns -> view root p <> Some (IsLink t).

Lemma linkless_at root ns p t : linkless root ns -> p `prefix_of` ns -> at_ root p <> Some (Link t).
Proof. intros Hl Hp Ha. apply (Hl p t Hp). unfold view. by rewrite Ha. Qed.
Lemma linkless_prefix root ns p : linkless root ns -> p `prefix_of` ns -> linkless root p.
Proof. intros Hl Hp q t Hq. apply Hl. by etrans. Qed.

(** [linkless], decided. *)
Definition no_links (root : node) (ns : list string) : bool :=
  forallb (fun k => negb (from_option is_link false (at_ root (take k ns)))) (seq 0 (S (length ns))).
Lemma no_links_linkless root ns : no_links root ns = true -> linkless root ns.
Proof.
  unfold no_links. rewrite forallb_forall. intros Hall p t [s ->].
  specialize (Hall (length p)). rewrite take_app_length in Hall. unfold view. intros Hv.
  destruct (at_ root p) as [n|]; [|done]. injection Hv as Hv. destruct n; try done.
  assert (negb true = true); [|done]. apply Hall, in_seq. rewrite length_app. lia.
Qed.

Lemma walk_linkless root links here names q :
  linkless root (here ++ names) -> walk root links here (Normal <$> names) = Some q -> q = here ++ names.
Proof.
  intros Hl. revert here Hl. induction names as [|name names IH]; intros here Hl.
  { rewrite app_nil_r. destruct links; by intros [= <-]. }
  assert (walk root links here (Normal <$> name :: names) =
          if dir_at root here then
            match at_ root (here ++ [name]) with
            | None => if decide ((Normal <$> names : path) = []) then Some (here ++ [name]) else None
            | Some (Link target) => match links with O => None | S links' => walk root links' here (components target ++ (Normal <$> names)) end
            | Some _ => walk root links (here ++ [name]) (Normal <$> names)
            end
          else None) as -> by by destruct links.
  destruct (dir_at root here); [|done]. rewrite (cons_middle name here names), app_assoc in *.
  destruct (at_ root (here ++ [name])) as [[c|es|t|]|] eqn:Hn; try by apply IH.
  - exfalso. apply (linkless_at _ _ (here ++ [name]) t Hl); [by eexists|done].
  - case_decide as Hd; [|done]. destruct names; [|done]. rewrite app_nil_r. by intros [= <-].
Qed.

Lemma place_linkless root ns q : linkless root ns -> place root (absolute ns) = Some q -> q = ns.
Proof. intros Hl Hp. by apply (walk_linkless root max_links [] ns q). Qed.

Lemma reverse_absolute ns x : reverse (absolute (ns ++ [x])) = Normal x :: reverse (absolute ns).
Proof. unfold absolute. by rewrite fmap_app, app_comm_cons, reverse_app. Qed.

Lemma lplace_linkless root ns x q :
  linkless root ns -> lplace root (absolute (ns ++ [x])) = Some q -> q = ns ++ [x].
Proof.
  intros Hl. unfold lplace. rewrite reverse_absolute, reverse_involutive.
  intros (here & Hh & Hq)%bind_Some. apply place_linkless in Hh as ->; [|done].
  destruct (dir_at root ns); [|done]. by injection Hq as <-.
Qed.

Lemma mkdir_at root root' ns x :
  linkless root ns -> mkdir (absolute (ns ++ [x])) root = Some root' ->
  at_ root (ns ++ [x]) = None /\ put (ns ++ [x]) (Dir []) root = Some root'.
Proof.
  intros Hl (q & ->%lplace_linkless & Hm)%bind_Some; [|done]. by destruct (at_ root (ns ++ [x])) as [n|].
Qed.
Lemma create_at root root' ns :
  linkless root ns -> create (absolute ns) root = Some root' ->
  dir_at root ns = false /\ put ns (File "") root = Some root'.
Proof.
  intros Hl (q & ->%place_linkless & Hm)%bind_Some; [|done]. unfold dir_at.
  by destruct (at_ root ns) as [[c|es|t|]|].
Qed.
Lemma write_at_at root root' ns offset bytes :
  linkless root ns -> write_at (absolute ns) offset bytes root = Some root' ->
  exists content, at_ root ns = Some (File content) /\ put ns (File (overlay content offset bytes)) root = Some root'.
Proof.
  intros Hl (q & ->%place_linkless & Hm)%bind_Some; [|done].
  destruct (at_ root ns) as [[c|es|t|]|]; try done. by exists c.
Qed.
Lemma rename_at root root' ns x ms y :
  linkless root ns -> linkless root ms ->
  rename (absolute (ns ++ [x])) (absolute (ms ++ [y])) root = Some root' ->
  exists n, at_ root (ns ++ [x]) = Some n /\
    (ns ++ [x] = ms ++ [y] /\ root' = root \/
     ~ (ns ++ [x]) `prefix_of` (ms ++ [y]) /\
     exists root1, cut (ns ++ [x]) root = Some root1 /\ put (ms ++ [y]) n root1 = Some root').
Proof.
  intros Hn Hm (p & ->%lplace_linkless & Hr)%bind_Some; [|done].
  apply bind_Some in Hr as (q & ->%lplace_linkless & Hr); [|done]. apply bind_Some in Hr as (n & Ha & Hr).
  exists n. split; [done|]. case_bool_decide as Heq; [by left; injection Hr as <-|right].
  unfold strictly_below in Hr. case_bool_decide as Hpre.
  { rewrite bool_decide_eq_false_2 in Hr by done. done. }
  split; [done|]. simpl in Hr. destruct (match at_ root (ms ++ [y]) with Some _ => _ | None => _ end); [|done].
  by apply bind_Some in Hr.
Qed.

Lemma dir_view root p : dir_at root p = true <-> view root p = Some IsDir.
Proof. unfold dir_at, view. by destruct (at_ root p) as [[]|]. Qed.
Lemma dir_prefix root p s : dir_at root (p ++ s) = true -> dir_at root p = true.
Proof. unfold dir_at. rewrite at_app. destruct (at_ root p) as [[]|]; [by destruct s| |by destruct s..]; done. Qed.

(** [root'] is [root] but for what is below one of the places. *)
Definition agrees_outside (places : list (list string)) (root root' : node) : Prop :=
  forall q, (forall p, p ∈ places -> ~ p `prefix_of` q) -> view root' q = view root q.
#[export] Instance agrees_outside_preorder places : PreOrder (agrees_outside places).
Proof. split; [by intros root q|]. intros r1 r2 r3 H1 H2 q Hq. by rewrite H2, H1. Qed.

Lemma put_agrees places p s new root root' :
  p ∈ places -> put (p ++ s) new root = Some root' -> agrees_outside places root root'.
Proof. intros Hp Hput q Hq. eapply view_put; [exact Hput|]. intros [z ->]. apply (Hq p Hp). exists (s ++ z). by rewrite app_assoc. Qed.
Lemma cut_agrees places p s root root' :
  p ∈ places -> cut (p ++ s) root = Some root' -> agrees_outside places root root'.
Proof. intros Hp Hcut q Hq. eapply view_cut; [exact Hcut|]. intros [z ->]. apply (Hq p Hp). exists (s ++ z). by rewrite app_assoc. Qed.

Lemma view_app root p s n : at_ root p = Some n -> view root (p ++ s) = view n s.
Proof. intros Ha. unfold view. by rewrite at_app, Ha. Qed.

Lemma linkless_put root root' ns p new :
  linkless root ns -> put p new root = Some root' -> (forall s t, view new s <> Some (IsLink t)) -> linkless root' ns.
Proof.
  intros Hl Hp Hnew q t Hq. destruct (decide (p `prefix_of` q)) as [[s ->]|Hn].
  - rewrite (view_app _ _ _ _ (at_put _ _ _ _ Hp)). apply Hnew.
  - rewrite (view_put _ _ _ _ _ Hp Hn). by apply Hl.
Qed.
Lemma linkless_cut root root' ns p : linkless root ns -> cut p root = Some root' -> linkless root' ns.
Proof.
  intros Hl Hp q t Hq. destruct (decide (p `prefix_of` q)) as [[s ->]|Hn].
  - unfold view. by rewrite at_app, (at_cut _ _ _ Hp).
  - rewrite (view_cut _ _ _ _ Hp Hn). by apply Hl.
Qed.
End calls.

Lemma parent_absolute ns x : parent (absolute (ns ++ [x])) = Some (absolute ns).
Proof. unfold parent. by rewrite reverse_absolute, reverse_involutive. Qed.
Lemma join_absolute ns x : join (absolute ns) x = absolute (ns ++ [x]).
Proof. unfold join, absolute. by rewrite fmap_app. Qed.
Lemma with_extension_absolute ns x e :
  with_extension (absolute (ns ++ [x])) e = absolute (ns ++ [file_stem x +:+ "." +:+ e]).
Proof. unfold with_extension. rewrite reverse_absolute, reverse_involutive. apply join_absolute. Qed.

Lemma overlay_new bytes : overlay "" 0 bytes = bytes.
Proof.
  unfold overlay. change (Str.take 0 "") with "". change (Str.of_codes (replicate (0 - String.length "") O)) with "".
  change ("" +:+ "" +:+ ?s) with s. assert (forall n, Str.drop n "" = "") as -> by by intros []. apply Str.app_nil_r.
Qed.

(** A chunk that is written where the content ends. *)
Lemma overlay_append content bytes : overlay content (String.length content) bytes = content +:+ bytes.
Proof.
  unfold overlay. rewrite Str.take_long, Nat.sub_diag, (Str.drop_long (_ + _)) by lia.
  change (Str.of_codes (replicate 0 O)) with "". by rewrite Str.app_nil_r.
Qed.

Lemma attempt_run op root w :
  attempt op root w = (Ok (bool_decide (is_Some (if io_ok w (io_at w) then op root else None))),
                       default root (if io_ok w (io_at w) then op root else None), io_tick w).
Proof.
  unfold attempt. run_handler. destruct (io_ok w (io_at w)); [|done]. by destruct (op root).
Qed.
Lemma keeps_call I code p op :
  (forall root root', I root -> op root = Some root' -> I root') -> keeps I (call code p op).
Proof.
  intros Hop root w Hr. unfold call, mbind, M_bind. rewrite attempt_run. simpl.
  destruct (io_ok w (io_at w)); simpl; [|done]. destruct (op root) as [root'|] eqn:Ho; simpl; [|done].
  by eapply Hop.
Qed.
Lemma call_run code p op root w :
  match (call code p op root w).1.1 with
  | Ok tt => exists root', op root = Some root' /\ (call code p op root w).1.2 = root'
  | Err _ => (call code p op root w).1.2 = root
  | Panic => False
  end.
Proof.
  unfold call, mbind, M_bind. rewrite attempt_run. simpl. destruct (io_ok w (io_at w)); simpl; [|done].
  destruct (op root) as [root'|]; simpl; [|done]. by exists root'.
Qed.

(** ** What runs leave behind *)

Definition no_new_links (root root' : node) : Prop :=
  forall q t, view root' q = Some (IsLink t) -> view root q = Some (IsLink t).
#[export] Instance no_new_links_preorder : PreOrder no_new_links.
Proof. split; [by intros root q|]. intros r1 r2 r3 H1 H2 q t Hq. by apply H1, H2. Qed.
Lemma linkless_kept root root' ns : no_new_links root root' -> linkless root ns -> linkless root' ns.
Proof. intros Hn Hl p t Hp Hv. by apply (Hl p t Hp), Hn. Qed.

Lemma put_no_links p new root root' :
  put p new root = Some root' -> (forall s t, view new s <> Some (IsLink t)) -> no_new_links root root'.
Proof.
  intros Hp Hnew q t Hq. destruct (decide (p `prefix_of` q)) as [[s ->]|Hn].
  - rewrite (view_app _ _ _ _ (at_put _ _ _ _ Hp)) in Hq. by apply Hnew in Hq.
  - by rewrite (view_put _ _ _ _ _ Hp Hn) in Hq.
Qed.
Lemma no_links_below_dir s t : view (Dir []) s <> Some (IsLink t).
Proof. by destruct s. Qed.
Lemma no_links_below_file c s t : view (File c) s <> Some (IsLink t).
Proof. by destruct s. Qed.

(** What is put somewhere stands in a directory. *)
Lemma put_above p x s new root root' : put (p ++ x :: s) new root = Some root' -> dir_at root' p = true.
Proof.
  revert root root'. induction p as [|y p IH]; intros root root'.
  - by intros (es & m' & -> & -> & _)%put_inv.
  - intros (es & m' & -> & -> & Hp)%put_inv. unfold dir_at. simpl. rewrite entry_set_eq.
    assert (exists m, put (p ++ x :: s) new m = Some m') as [m Hm]; [|by eapply IH].
    by destruct p; destruct Hp as (m & _ & Hm); exists m.
Qed.
Lemma put_plain p new root root' : put p new root = Some root' -> is_link new = false -> plain root' p.
Proof.
  intros Hp Hnew. split; [intros q x s ->; by eapply put_above|].
  intros t Ht. rewrite (at_put _ _ _ _ Hp) in Ht. injection Ht as ->. done.
Qed.
Lemma metadata_plain cwd root ns : plain root ns -> metadata cwd root (absolute ns) = at_ root ns.
Proof.
  intros Hp. unfold metadata, place, absolute.
  assert (walk root max_links cwd (RootDir :: (Normal <$> ns)) = walk root max_links [] (Normal <$> ns)) as -> by done.
  by rewrite (walk_along root max_links [] ns Hp).
Qed.
Lemma metadata_linkless cwd root ns n : linkless root ns -> metadata cwd root (absolute ns) = Some n -> at_ root ns = Some n.
Proof. intros Hl (q & Hq & Hn)%bind_Some. by apply place_linkless in Hq as ->. Qed.

(** *** When a call goes through *)

Lemma prefix_snoc_inv (l k : list string) x : l `prefix_of` k ++ [x] -> l = k ++ [x] \/ l `prefix_of` k.
Proof.
  intros [s Hs]. destruct (decide (s = [])) as [->|(s' & z & ->)%exists_last]; [left; by rewrite app_nil_r in Hs|].
  rewrite app_assoc in Hs. apply app_inj_tail in Hs as [-> _]. right. by exists s'.
Qed.

Lemma dir_plain root p : dir_at root p = true -> plain root p.
Proof.
  intros Hd. split; [intros q x s ->; by eapply dir_prefix|]. intros t Ht. unfold dir_at in Hd. by rewrite Ht in Hd.
Qed.
Lemma at_above root p x n : at_ root (p ++ [x]) = Some n -> dir_at root p = true.
Proof. rewrite at_app. unfold dir_at. intros (m & -> & Hm)%bind_Some. by destruct m. Qed.
Lemma put_total root p x new : dir_at root p = true -> exists root', put (p ++ [x]) new root = Some root'.
Proof.
  revert root. induction p as [|y p IH]; intros root Hd.
  - destruct root as [|es| |]; try done. by eexists.
  - destruct root as [|es| |]; try done. unfold dir_at in Hd. simpl in Hd.
    destruct (entry y es) as [m|] eqn:Hm; [|done]. destruct (IH m Hd) as [m' Hput].
    exists (Dir (set_entry y m' es)). simpl. rewrite Hm. destruct (p ++ [x]) eqn:Hp; [by destruct p|]. simpl in *. by rewrite Hput.
Qed.
Lemma cut_total root p x n : at_ root (p ++ [x]) = Some n -> exists root', cut (p ++ [x]) root = Some root'.
Proof.
  revert root. induction p as [|y p IH]; intros root Ha.
  - destruct root as [|es| |]; try done. simpl in *. destruct (entry x es); [by eexists|done].
  - destruct root as [|es| |]; try done. simpl in Ha. apply bind_Some in Ha as (m & Hm & Ha).
    destruct (IH m Ha) as [m' Hcut]. exists (Dir (set_entry y m' es)). simpl.
    rewrite Hm. destruct (p ++ [x]); [by destruct p|]. simpl in *. by rewrite Hcut.
Qed.
Lemma place_plain cwd root ns : plain root ns -> place cwd root (absolute ns) = Some ns.
Proof. apply (walk_along root max_links []). Qed.
Lemma lplace_in cwd root ns x : dir_at root ns = true -> lplace cwd root (absolute (ns ++ [x])) = Some (ns ++ [x]).
Proof.
  intros Hd. unfold lplace. rewrite reverse_absolute, reverse_involutive, place_plain by by apply dir_plain.
  simpl. by rewrite Hd.
Qed.
(** A rename between two directories, to a name that is free. *)
Lemma rename_free cwd root ns x ms y n :
  at_ root (ns ++ [x]) = Some n -> dir_at root ms = true -> at_ root (ms ++ [y]) = None ->
  ~ (ns ++ [x]) `prefix_of` (ms ++ [y]) ->
  exists root1 root', cut (ns ++ [x]) root = Some root1 /\ put (ms ++ [y]) n root1 = Some root' /\
    rename cwd (absolute (ns ++ [x])) (absolute (ms ++ [y])) root = Some root'.
Proof.
  intros Ha Hd Hnone Hpre. destruct (cut_total _ _ _ _ Ha) as [root1 Hcut].
  assert (dir_at root1 ms = true) as Hd1.
  { apply dir_view. rewrite (view_cut _ _ _ _ Hcut); [by apply dir_view|]. intros [s Hs]. apply Hpre.
    exists (s ++ [y]). by rewrite app_assoc, <- Hs. }
  destruct (put_total root1 ms y n Hd1) as [root' Hput]. exists root1, root'. split_and!; [done..|].
  unfold rename. rewrite !lplace_in by (done || by eapply at_above). simpl. rewrite Ha. simpl.
  rewrite bool_decide_eq_false_2 by (intros Heq; apply Hpre; by rewrite Heq).
  unfold strictly_below. rewrite bool_decide_eq_false_2 by done. simpl. rewrite Hnone. by rewrite Hcut.
Qed.

Lemma plain_at root p n : at_ root p = Some n -> is_link n = false -> plain root p.
Proof.
  intros Ha Hn. split; [|intros t Ht; rewrite Ht in Ha; by injection Ha as <-].
  intros q x s ->. rewrite at_app in Ha. apply bind_Some in Ha as (m & Hm & Ha). unfold dir_at. rewrite Hm. by destruct m.
Qed.
Lemma metadata_at cwd root ns : linkless root ns -> metadata cwd root (absolute ns) = at_ root ns.
Proof.
  intros Hl. destruct (at_ root ns) as [n|] eqn:Hn.
  - rewrite <- Hn. eapply metadata_plain, plain_at; [exact Hn|]. destruct n; try done. by eapply linkless_at in Hn.
  - destruct (metadata cwd root (absolute ns)) eqn:Hm; [|done]. apply metadata_linkless in Hm; [congruence|done].
Qed.

(** Nodes apart from a change are the same. *)
Lemma at_put_apart p q new n n' : put p new n = Some n' -> ~ p `prefix_of` q -> ~ q `prefix_of` p -> at_ n' q = at_ n q.
Proof.
  revert n n' q. induction p as [|x p IH]; intros n n' q Hp Hq Hq'; [by destruct Hq; exists q|].
  apply put_inv in Hp as (es & m' & -> & -> & Hp). destruct q as [|z q]; [by destruct Hq'; exists (x :: p)|]. simpl.
  destruct (decide (x = z)) as [->|Hne]; [|by rewrite entry_set_ne]. apply not_below_cons in Hq, Hq'.
  rewrite entry_set_eq. destruct p as [|y p]; [by destruct Hq; exists q|].
  destruct Hp as (m & -> & Hm). by eapply IH.
Qed.
Lemma at_cut_apart p q n n' : cut p n = Some n' -> ~ p `prefix_of` q -> ~ q `prefix_of` p -> at_ n' q = at_ n q.
Proof.
  revert n n' q. induction p as [|x p IH]; intros n n' q Hp Hq Hq'; [by destruct n|].
  apply cut_inv in Hp as (es & m & -> & Hx & Hp). destruct q as [|z q]; [by destruct Hq'; exists (x :: p)|].
  destruct (decide (x = z)) as [->|Hne].
  - apply not_below_cons in Hq, Hq'. destruct p as [|y p]; [by destruct Hq; exists q|].
    destruct Hp as (m' & Hm & ->). cbn [at_]. rewrite entry_set_eq, Hx. by eapply IH.
  - destruct p as [|y p]; [subst n'|destruct Hp as (m' & _ & ->)]; cbn [at_];
      by rewrite ?entry_remove_ne, ?entry_set_ne.
Qed.

(** What a rename to another place moves. *)
Record moved (p q : list string) (root root' : node) : Prop := {
  moved_node : at_ root' q = at_ root p;
  moved_apart : forall c, ~ p `prefix_of` c -> ~ c `prefix_of` p -> ~ q `prefix_of` c -> ~ c `prefix_of` q ->
                at_ root' c = at_ root c;
  moved_there : forall z, view root' (q ++ z) = view root (p ++ z);
  moved_away : forall z, ~ q `prefix_of` (p ++ z) -> view root' (p ++ z) = None;
  moved_rest : forall c, ~ p `prefix_of` c -> ~ q `prefix_of` c -> view root' c = view root c;
}.
Lemma rename_moves cwd root root' ns x ms y :
  linkless root ns -> linkless root ms -> ns ++ [x] <> ms ++ [y] ->
  rename cwd (absolute (ns ++ [x])) (absolute (ms ++ [y])) root = Some root' ->
  moved (ns ++ [x]) (ms ++ [y]) root root'.
Proof.
  intros Hn Hm Hne Hr. apply rename_at in Hr as (n & Ha & [[? _]|(Hpre & root1 & Hcut & Hput)]); [done| |done..]. split.
  - by rewrite (at_put _ _ _ _ Hput).
  - intros c Hc1 Hc2 Hc3 Hc4. by rewrite (at_put_apart _ _ _ _ _ Hput), (at_cut_apart _ _ _ _ Hcut).
  - intros z. by rewrite (view_app _ _ _ _ (at_put _ _ _ _ Hput)), (view_app _ _ _ _ Ha).
  - intros z Hz. rewrite (view_put _ _ _ _ _ Hput) by done. unfold view. by rewrite at_app, (at_cut _ _ _ Hcut).
  - intros c Hc1 Hc2. by rewrite (view_put _ _ _ _ _ Hput), (view_cut _ _ _ _ Hcut).
Qed.
(** Links are not moved into the way of a path that is not inside of what moves. *)
Lemma linkless_moved p q root root' c :
  moved p q root root' -> linkless root p -> linkless root c -> (q `prefix_of` c -> c = q) -> linkless root' c.
Proof.
  intros [_ _ Ht Ha Hr] Hp Hc Hqc d t Hd. destruct (decide (q `prefix_of` d)) as [Hq|Hq].
  - assert (c = q) as -> by (apply Hqc; by etrans). assert (d = q) as -> by (by apply (anti_symm prefix)).
    rewrite <- (app_nil_r q), Ht, app_nil_r. by apply Hp.
  - destruct (decide (p `prefix_of` d)) as [[z ->]|Hpd]; [by rewrite Ha|]. rewrite Hr by done. by apply Hc.
Qed.

(** ** Removing a tree *)

(** The names in a directory are distinct. *)
Fixpoint tidy (n : node) : Prop :=
  match n with
  | Dir es => NoDup es.*1 /\ foldr (fun e P => tidy e.2 /\ P) True es
  | _ => True
  end.
Lemma tidy_dir es : tidy (Dir es) <-> NoDup es.*1 /\ Forall (fun e => tidy e.2) es.
Proof. simpl. f_equiv. induction es as [|e es IH]; simpl; [by split|]. by rewrite Forall_cons, IH. Qed.
Lemma entry_elem es x n : NoDup es.*1 -> (x, n) ∈ es -> entry x es = Some n.
Proof.
  induction es as [|[y m] es IH]; intros Hnd Hin; [by apply not_elem_of_nil in Hin|]. simpl.
  apply NoDup_cons in Hnd as [Hy Hnd]. apply elem_of_cons in Hin as [[= -> ->]|Hin]; [by rewrite decide_True|].
  rewrite decide_False; [by apply IH|]. intros ->. apply Hy. apply list_elem_of_fmap. by exists (y, n).
Qed.

(** What is removed is below the base, and on the way to it there are directories. *)
Lemma removal_below base n q :
  tidy n -> q ∈ removal base n ->
  exists z, q = base ++ z /\ forall z1 x z2, z = z1 ++ x :: z2 -> from_option is_dir false (at_ n z1) = true.
Proof.
  revert base q. induction n as [c|es IH|t|] using node_ind_nested; intros base q Ht Hq.
  1,3,4: apply list_elem_of_singleton in Hq as ->; exists []; rewrite app_nil_r; split; [done|]; intros z1 x z2 Hz;
    by destruct z1.
  apply tidy_dir in Ht as [Hnd Ht]. cbn [removal] in Hq. apply elem_of_app in Hq as [Hq|Hq].
  - apply list_elem_of_In, in_concat in Hq as (l & Hl & Hq).
    apply list_elem_of_In, list_elem_of_fmap in Hl as (e & -> & He). rewrite Forall_forall in IH, Ht.
    apply list_elem_of_In in Hq. destruct (IH e He _ _ (Ht e He) Hq) as (z & -> & Hz). exists (e.1 :: z).
    rewrite <- app_assoc. split; [done|]. intros [|y z1] x z2 Heq; [done|]. injection Heq as <- Heq. simpl.
    rewrite (entry_elem es e.1 e.2 Hnd) by by destruct e. simpl. by eapply Hz.
  - apply list_elem_of_singleton in Hq as ->. exists []. rewrite app_nil_r. split; [done|]. intros z1 x z2 Hz. by destruct z1.
Qed.

Lemma cut_no_links p root root' : cut p root = Some root' -> no_new_links root root'.
Proof.
  intros Hp q t Hq. destruct (decide (p `prefix_of` q)) as [[s ->]|Hn].
  - unfold view in Hq. by rewrite at_app, (at_cut _ _ _ Hp) in Hq.
  - by rewrite (view_cut _ _ _ _ Hp Hn) in Hq.
Qed.
Lemma lplace_root cwd root : lplace cwd root (absolute []) = Some [].
Proof. done. Qed.

(** ** Nothing happens apart from a place *)

(** What is neither above nor below [q] is the same node. *)
Definition stays (q : list string) (root root' : node) : Prop :=
  forall c, ~ q `prefix_of` c -> ~ c `prefix_of` q -> at_ root' c = at_ root c.
#[export] Instance stays_preorder q : PreOrder (stays q).
Proof. split; [by intros root c|]. intros r1 r2 r3 H1 H2 c Hc Hc'. by rewrite H2, H1. Qed.

Lemma stays_below q z root root' : stays (q ++ z) root root' -> stays q root root'.
Proof.
  intros Hs c Hc Hc'. apply Hs; intros Hp.
  - apply Hc. etrans; [by exists z|done].
  - destruct (prefix_weak_total c q (q ++ z)) as [|]; [done|by eexists|done|done].
Qed.
Lemma put_stays q z new root root' : put (q ++ z) new root = Some root' -> stays q root root'.
Proof.
  intros Hput. apply (stays_below q z). intros c Hc Hc'. by eapply at_put_apart.
Qed.
Lemma mkdir_stays q p root root' :
  p `prefix_of` q -> at_ root p = None -> put p (Dir []) root = Some root' -> stays q root root'.
Proof.
  intros Hpq Hnone Hput c Hc Hc'. destruct (decide (p `prefix_of` c)) as [[s ->]|Hpc].
  - rewrite (at_put_below _ _ _ _ _ Hput), at_app, Hnone. destruct s; [by rewrite app_nil_r in Hc'|done].
  - eapply at_put_apart; [done|done|]. intros Hcp. apply Hc'. by etrans.
Qed.
Lemma linkless_snoc root ns x : linkless root ns -> (forall t, at_ root (ns ++ [x]) <> Some (Link t)) -> linkless root (ns ++ [x]).
Proof.
  intros Hl Hx p t Hp Hv. apply prefix_snoc_inv in Hp as [->|Hp]; [|by apply (Hl p t)].
  unfold view in Hv. destruct (at_ root (ns ++ [x])) as [[]|] eqn:Ha; try done. by apply (Hx target).
Qed.

Section runs.
Variable cwd : list string.

Lemma wp_call code p op root (Q : outcome RpcError.t unit -> node -> Prop) :
  (forall root', op root = Some root' -> Q (Ok tt) root') -> Q (Err (io_error code (display p))) root ->
  wp (call code p op) root Q.
Proof.
  intros HOk HErr w. unfold call, mbind, M_bind. rewrite attempt_run. simpl.
  destruct (io_ok w (io_at w)); simpl; [|done]. destruct (op root) as [root'|]; simpl; [by apply HOk|done].
Qed.

Lemma wp_attempt op root (Q : outcome RpcError.t bool -> node -> Prop) :
  (forall root', op root = Some root' -> Q (Ok true) root') -> Q (Ok false) root -> wp (attempt op) root Q.
Proof.
  intros HOk HNo w. rewrite attempt_run. simpl. destruct (io_ok w (io_at w)); simpl; [|done].
  destruct (op root) as [root'|]; simpl; [by apply HOk|done].
Qed.

(** Directories are made on the way; [I] is any property that making one keeps. *)
Lemma wp_create_dirs (I : node -> Prop) code whole ns root :
  I root -> linkless root ns ->
  (forall p x r1 r2, p ++ [x] `prefix_of` ns -> I r1 -> at_ r1 (p ++ [x]) = None -> put (p ++ [x]) (Dir []) r1 = Some r2 -> I r2) ->
  wp (create_dirs cwd code whole (reverse (absolute ns))) root
    (fun o root' => (I root' /\ no_new_links root root') /\ o <> Panic /\ (o = Ok tt -> dir_at root' ns = true)).
Proof.
  intros Hr Hl Hput. induction ns as [|x ns IH] using rev_ind.
  { change (reverse (absolute [])) with [RootDir]. cbn [create_dirs]. wp_step.
    destruct (from_option is_dir false (metadata cwd root (reverse [RootDir]))) eqn:Hd; wp_step; [|done].
    split_and!; [done..|]. intros _. by apply Hd. }
  rewrite reverse_absolute. cbn [create_dirs]. wp_step. rewrite <- reverse_absolute, reverse_involutive.
  destruct (from_option is_dir false (metadata cwd root (absolute (ns ++ [x])))) eqn:Hd.
  { wp_step. split_and!; [done..|]. intros _. unfold dir_at.
    destruct (metadata cwd root (absolute (ns ++ [x]))) as [n|] eqn:Hm; [|done].
    by rewrite (metadata_linkless _ _ _ _ Hl Hm). }
  assert (ns `prefix_of` ns ++ [x]) as Hpre by by exists [x].
  eapply wp_seq; [apply IH| |intros e s' (HI & Hp & _); simpl; done|by intros s' (_ & [] & _)].
  - by eapply linkless_prefix.
  - intros p y r1 r2 Hpy. apply Hput. by etrans.
  - intros [] root1 ([HI1 Hn1] & _ & _). apply wp_call; [|done]. intros root2 Hmk.
    assert (linkless root1 ns) as Hl1 by (eapply linkless_kept; [done|]; by eapply linkless_prefix).
    destruct (mkdir_at _ _ _ _ _ Hl1 Hmk) as [Hnone Hp2]. split_and!; [| |done|].
    + by eapply (Hput ns x root1 root2).
    + etrans; [exact Hn1|]. eapply put_no_links; [exact Hp2|apply no_links_below_dir].
    + intros _. unfold dir_at. by rewrite (at_put _ _ _ _ Hp2).
Qed.
Lemma wp_create_dir_all (I : node -> Prop) code ns root :
  I root -> linkless root ns ->
  (forall p x r1 r2, p ++ [x] `prefix_of` ns -> I r1 -> at_ r1 (p ++ [x]) = None -> put (p ++ [x]) (Dir []) r1 = Some r2 -> I r2) ->
  wp (create_dir_all cwd code (absolute ns)) root
    (fun o root' => (I root' /\ no_new_links root root') /\ o <> Panic /\ (o = Ok tt -> dir_at root' ns = true)).
Proof. apply wp_create_dirs. Qed.

Lemma wp_write_file code ns bytes root :
  linkless root ns ->
  wp (write_file cwd code (absolute ns) bytes) root
    (fun o root' => (agrees_outside [ns] root root' /\ no_new_links root root') /\ o <> Panic /\
                    (o = Ok tt -> at_ root' ns = Some (File bytes))).
Proof.
  intros Hl. unfold write_file.
  assert (forall r1 r2 c, put ns (File c) r1 = Some r2 -> agrees_outside [ns] r1 r2 /\ no_new_links r1 r2) as Hput.
  { intros r1 r2 c Hp. split; [|eapply put_no_links; [exact Hp|apply no_links_below_file]].
    eapply (put_agrees [ns] ns []); [by left|by rewrite app_nil_r]. }
  eapply (wp_seq _ _ _ (fun o r1 => match o with
    | Ok _ => put ns (File "") root = Some r1 | Err _ => r1 = root | Panic => False end)).
  - apply wp_call; [|done]. intros r1 Hc. by apply create_at in Hc as [_ Hc].
  - intros [] r1 Hp. destruct (Hput _ _ _ Hp) as [Ha Hn]. destruct (Str.is_empty bytes) eqn:Hb.
    + apply wp_ret. split_and!; [done..|]. intros _. rewrite (at_put _ _ _ _ Hp). by destruct bytes.
    + apply wp_call; [|done]. intros r2 Hw. apply write_at_at in Hw as (c & Hc & Hp2); [|by eapply linkless_kept].
      destruct (Hput _ _ _ Hp2) as [Ha2 Hn2]. split_and!; [by etrans..|done|]. intros _.
      rewrite (at_put _ _ _ _ Hp) in Hc. injection Hc as <-. rewrite (at_put _ _ _ _ Hp2). by rewrite overlay_new.
  - by intros e r1 ->.
  - done.
Qed.

Lemma calm_call code p op : calm (call code p op).
Proof.
  intros root w. unfold call, mbind, M_bind. rewrite attempt_run. simpl. unfold guard. by case_bool_decide.
Qed.
Lemma calm_remove_dir_all code p : calm (remove_dir_all cwd code p).
Proof.
  unfold remove_dir_all. apply calm_bind; [apply calm_get|]. intros root.
  repeat case_match; simplify_eq; try apply calm_throw; try apply calm_call.
  match goal with |- calm (remove_each _ _ _ ?l) => generalize l end. intros qs. induction qs as [|q qs IH]; [done|]. cbn [remove_each].
  apply calm_bind; [apply calm_call|by intros _].
Qed.

(** Unlinking or removing an empty directory, on a path whose way is free. *)
Lemma remove_one_cuts root root' ns x :
  linkless root ns -> remove_one cwd (ns ++ [x]) root = Some root' -> cut (ns ++ [x]) root = Some root'.
Proof.
  intros Hl. unfold remove_one. destruct (at_ root (ns ++ [x])) as [n|] eqn:Hn; [|done].
  assert ((q ← lplace cwd root (absolute (ns ++ [x])); Some q) = Some (ns ++ [x])) as Hp.
  { rewrite (lplace_in cwd); [done|by eapply at_above]. }
  destruct n; unfold unlink, rmdir; rewrite (lplace_in cwd) by (by eapply at_above); simpl; rewrite Hn; simpl; try done.
  by destruct entries.
Qed.

Lemma keeps_remove_each code p base qs root0 :
  Forall (fun q => base `prefix_of` q /\ exists c x, q = c ++ [x] /\ linkless root0 c) qs ->
  keeps (fun root => agrees_outside [base] root0 root /\ no_new_links root0 root) (remove_each cwd code p qs).
Proof.
  intros Hqs. induction Hqs as [|q qs (Hb & c & x & -> & Hl) _ IH]; cbn [remove_each]; [keep|].
  apply keeps_bind; [|done]. apply keeps_call. intros root root' [Ha Hn] Hr.
  apply remove_one_cuts in Hr; [|by eapply linkless_kept]. split; [etrans; [exact Ha|]|etrans; [exact Hn|by eapply cut_no_links]].
  destruct Hb as [s Hs]. rewrite Hs in Hr. eapply (cut_agrees [base] base); [by left|exact Hr].
Qed.

Lemma linkless_down root base n z x :
  linkless root (base ++ [x]) -> at_ root (base ++ [x]) = Some n ->
  (forall z1 y z2, z = z1 ++ y :: z2 -> from_option is_dir false (at_ n z1) = true) ->
  forall y z', z = z' ++ [y] -> linkless root ((base ++ [x]) ++ z').
Proof.
  intros Hl Hn Hz y z' -> d t Hd. destruct (decide (d `prefix_of` base ++ [x])) as [|Hnd]; [by apply Hl|].
  destruct (prefix_weak_total (base ++ [x]) d ((base ++ [x]) ++ z')) as [[s ->]|]; [by eexists|done| |done].
  apply prefix_app_inv in Hd as [s' ->]. rewrite (view_app _ _ _ _ Hn).
  assert (from_option is_dir false (at_ n s) = true) as Hdir.
  { destruct s' as [|v s']; [apply (Hz s y []); by rewrite app_nil_r|apply (Hz s v (s' ++ [y])); by rewrite <- app_assoc]. }
  unfold view. by destruct (at_ n s) as [[]|].
Qed.

(** A tree is removed from below its base only. *)
Lemma from_remove_dir_all code ns x root :
  linkless root (ns ++ [x]) -> (forall n, at_ root (ns ++ [x]) = Some n -> tidy n) ->
  from (agrees_outside [ns ++ [x]] root) root (remove_dir_all cwd code (absolute (ns ++ [x]))).
Proof.
  intros Hl Ht. unfold remove_dir_all. apply from_get_bind.
  destruct (lplace cwd root (absolute (ns ++ [x]))) as [q|] eqn:Hq; [|by apply from_throw].
  apply lplace_linkless in Hq as ->; [|by eapply linkless_prefix; [|by eexists]]. simpl.
  destruct (at_ root (ns ++ [x])) as [[c|es|t|]|] eqn:Hn; simpl; try by apply from_throw.
  - intros w. apply (keeps_remove_each code (absolute (ns ++ [x])) (ns ++ [x])); [|by split].
    apply Forall_forall. intros q Hq. change (q ∈ removal (ns ++ [x]) (Dir es)) in Hq.
    apply removal_below in Hq as (z & -> & Hz); [|by apply Ht]. split; [by eexists|].
    destruct (decide (z = [])) as [->|(z' & y & ->)%exists_last].
    + exists ns, x. rewrite app_nil_r. split; [done|]. by eapply linkless_prefix; [|by eexists].
    + exists ((ns ++ [x]) ++ z'), y. rewrite app_assoc. split; [done|]. by eapply linkless_down.
  - by eapply linkless_at in Hn.
Qed.
Lemma from_unlink code ns x root :
  linkless root (ns ++ [x]) ->
  from (agrees_outside [ns ++ [x]] root) root (call code (absolute (ns ++ [x])) (unlink cwd (absolute (ns ++ [x])))).
Proof.
  intros Hl. apply (wp_call code _ _ root (fun _ => agrees_outside [ns ++ [x]] root)); [|done].
  intros root' (q & Hq & (n & Hn & Hu)%bind_Some)%bind_Some.
  apply lplace_linkless in Hq as ->; [|by eapply linkless_prefix; [|by eexists]].
  destruct (is_dir n); [done|]. apply (cut_agrees _ (ns ++ [x]) []); [by left|by rewrite app_nil_r].
Qed.
End runs.
End Disk.
