(* ===== verification/Copies.v ===== *)
(** * Copying on a disk

    What the code builds on [fs::copy], [symlink] and its own recursion: the copy
    of a file, the tree that stands at a place when the entries of a directory
    have been copied one by one, and results that are caught or ignored. *)

From Stdlib Require Import Ascii String.
From S2P Require Import Prelude RustStd RustText Json Protocol Contracts Confinement Disk.

Module Copies.
Import FsPath Confinement Disk.

(** A result that is ignored. *)
Definition ignored (m : handler unit) : handler unit := fun root w =>
  match m root w with (Err _, root', w') => (Ok tt, root', w') | result => result end.

(** A result that is looked at. *)
Definition caught {A} (m : handler A) : handler (RpcError.t + A) := fun root w =>
  match m root w with
  | (Ok a, root', w') => (Ok (inr a), root', w')
  | (Err e, root', w') => (Ok (inl e), root', w')
  | (Panic, root', w') => (Panic, root', w')
  end.

(** [result.map_err(..)] to an error that does not look at the first one. *)
Definition or_error {A} (e : RpcError.t) (m : handler A) : handler A := fun root w =>
  match m root w with (Err _, root', w') => (Err e, root', w') | result => result end.
Lemma wp_or_error {A} e (m : handler A) root Q :
  wp m root (fun o root' => match o with Err _ => Q (Err e) root' | _ => Q o root' end) -> wp (or_error e m) root Q.
Proof. intros Hm w. specialize (Hm w). unfold or_error. by destruct (m root w) as [[[a|e'|] root'] w']. Qed.

Lemma ignored_calm m : calm m -> calm (ignored m).
Proof. intros Hm root w. specialize (Hm root w). unfold ignored. by destruct (m root w) as [[[[]|e|] root'] w']. Qed.

Section copies.
Variable cwd : list string.

(** [path.exists()], [path.is_dir()] *)
Definition exists_on (root : node) (p : path) : bool := bool_decide (is_Some (metadata cwd root p)).
Definition dir_on (root : node) (p : path) : bool := from_option is_dir false (metadata cwd root p).

Lemma exists_on_linkless root ns : linkless root ns -> exists_on root (absolute ns) = bool_decide (is_Some (view root ns)).
Proof. intros Hl. unfold exists_on, view. rewrite metadata_at by done. by destruct (at_ root ns). Qed.


(** [fs::copy], with the path that an error shows: the target is created before
    the source is read. *)
Definition fs_copy (code : string) (shown source target : path) : handler unit :=
  root ← get;
  match metadata cwd root source with
  | Some (File _) =>
      _ ← call code shown (create cwd target);
      root ← get;
      match metadata cwd root source with
      | Some (File content) =>
          if Str.is_empty content then mret tt else call code shown (write_at cwd target 0 content)
      | _ => throw (io_error code (display shown))
      end
  | _ => throw (io_error code (display shown))
  end.

(** [symlink(2)] and [clonefile(2)]: nothing may stand at the target; a clone
    follows links to a file. *)
Definition symlink (text : string) (target : path) (root : node) : option node :=
  q ← lplace cwd root target;
  match at_ root q with
  | None => if Str.is_empty text then None else put q (Link text) root
  | Some _ => None
  end.
Definition clonefile (source target : path) (root : node) : option node :=
  n ← metadata cwd root source;
  q ← lplace cwd root target;
  match n, at_ root q with
  | File content, None => put q (File content) root
  | _, _ => None
  end.

(** ** A copy is the source *)

(** The same tree up to the order of entries. *)
Definition alike (n n' : node) : Prop := forall z, view n z = view n' z.
#[export] Instance alike_refl : Reflexive alike.
Proof. by intros n z. Qed.

(** What happens at a place only: elsewhere the views are the same, and so are the
    nodes that are not above it. *)
Definition touches (q : list string) (root root' : node) : Prop := stays q root root' /\ agrees_outside [q] root root'.
#[export] Instance touches_preorder q : PreOrder (touches q).
Proof.
  split; [intros root; by split|]. intros r1 r2 r3 [H1 H2] [H3 H4]. split; by etrans.
Qed.
Lemma put_touches q new root root' : put q new root = Some root' -> touches q root root'.
Proof.
  intros Hp. rewrite <- (app_nil_r q) in Hp. split; [by eapply put_stays|].
  eapply (put_agrees [q] q []); [by left|exact Hp].
Qed.
Lemma touches_below q z root root' : touches (q ++ z) root root' -> touches q root root'.
Proof.
  intros [Hs Ha]. split; [by eapply stays_below|]. intros c Hc. apply Ha. intros p ->%list_elem_of_singleton Hp.
  apply (Hc q); [by left|]. etrans; [by eexists|exact Hp].
Qed.
Lemma touches_dir q root root' p : touches q root root' -> ~ q `prefix_of` p -> dir_at root p = true -> dir_at root' p = true.
Proof. intros [_ Ha] Hp. rewrite !dir_view. intros <-. apply Ha. by intros ? ->%list_elem_of_singleton. Qed.

(** The file at [src] is copied to [dst], where nothing is. *)
Lemma wp_fs_copy code shown src dst root content :
  at_ root src = Some (File content) -> linkless root src -> linkless root dst ->
  ~ dst `prefix_of` src -> ~ src `prefix_of` dst ->
  wp (fs_copy code shown (absolute src) (absolute dst)) root (fun o root' =>
    (touches dst root root' /\ no_new_links root root') /\ o <> Panic /\
    (o = Ok tt -> at_ root' dst = Some (File content))).
Proof.
  intros Hsrc Hls Hld Hds Hsd. unfold fs_copy. wp_step. rewrite metadata_at, Hsrc by done.
  assert (forall r1 r2 c, put dst (File c) r1 = Some r2 -> touches dst r1 r2 /\ no_new_links r1 r2) as Hput.
  { intros r1 r2 c Hp. split; [by eapply put_touches|].
    eapply put_no_links; [exact Hp|apply no_links_below_file]. }
  eapply (wp_seq _ _ _ (fun o r1 => match o with
    | Ok _ => put dst (File "") root = Some r1 | Err _ => r1 = root | Panic => False end));
    [apply wp_call; [intros r1 Hc; by apply create_at in Hc as [_ ?]|done]| |by intros e r1 ->|done].
  intros [] r1 Hp. destruct (Hput _ _ _ Hp) as [Hs Hn]. wp_step.
  rewrite metadata_at, (proj1 Hs), Hsrc by (done || by eapply linkless_kept).
  destruct (Str.is_empty content) eqn:Hb.
  - apply wp_ret. split_and!; [done..|]. intros _. rewrite (at_put _ _ _ _ Hp). by destruct content.
  - apply wp_call; [|done]. intros r2 Hw. apply write_at_at in Hw as (c & Hc & Hp2); [|by eapply linkless_kept].
    destruct (Hput _ _ _ Hp2) as [Hs2 Hn2]. split_and!; [by etrans..|done|]. intros _.
    rewrite (at_put _ _ _ _ Hp) in Hc. injection Hc as <-. by rewrite (at_put _ _ _ _ Hp2), overlay_new.
Qed.

(** Making a directory where nothing is. *)
Lemma wp_fresh_dir code dst root :
  linkless root dst -> at_ root dst = None ->
  wp (create_dir_all cwd code (absolute dst)) root (fun o root' =>
    (stays dst root root' /\ no_new_links root root') /\ o <> Panic /\ (o = Ok tt -> at_ root' dst = Some (Dir []))).
Proof.
  intros Hl Hnone.
  eapply wp_mono; [apply (wp_create_dir_all cwd (fun r1 => stays dst root r1 /\ (at_ r1 dst = None \/ at_ r1 dst = Some (Dir []))));
    [split; [done|by left]|done|]|].
  - intros p x r1 r2 Hp [Hs Hd] Hno Hput. split; [etrans; [exact Hs|by eapply mkdir_stays]|].
    destruct Hp as [s Hs']. rewrite Hs', (at_put_below _ _ _ _ _ Hput). destruct s; [by right|by left].
  - intros o r1 [[[Hs Hd] Hn] [HP HO]]. split_and!; [done..|]. intros Ho. specialize (HO Ho).
    destruct Hd as [Hd|Hd]; [|done]. unfold dir_at in HO. by rewrite Hd in HO.
Qed.

(** A directory that is there. *)
Lemma create_dirs_there code whole ns root w :
  dir_at root ns = true -> create_dirs cwd code whole (reverse (absolute ns)) root w = (Ok tt, root, w).
Proof.
  intros Hd. destruct (reverse (absolute ns)) as [|c above] eqn:Hrev.
  - apply (f_equal reverse) in Hrev. by rewrite reverse_involutive in Hrev.
  - cbn [create_dirs]. rewrite <- Hrev, reverse_involutive. unfold handler.
    rewrite (bind_run_Ok get _ _ _ _ _ _ eq_refl), metadata_plain by by apply dir_plain.
    unfold dir_at in Hd. by rewrite Hd.
Qed.
Lemma create_dir_all_there code ns root w :
  dir_at root ns = true -> create_dir_all cwd code (absolute ns) root w = (Ok tt, root, w).
Proof. apply create_dirs_there. Qed.
Lemma wp_there_bind {A} code ns (k : unit -> handler A) root Q :
  dir_at root ns = true -> wp (k tt) root Q -> wp (create_dir_all cwd code (absolute ns) ≫= k) root Q.
Proof.
  intros Hd Hk w. unfold handler. rewrite (bind_run_Ok _ _ _ _ _ _ _ (create_dir_all_there code ns root w Hd)). apply Hk.
Qed.

(** Making one where its parent is. *)
Lemma wp_make_dir code ms y root :
  dir_at root ms = true -> at_ root (ms ++ [y]) = None ->
  wp (create_dir_all cwd code (absolute (ms ++ [y]))) root (fun o root' =>
    match o with Ok _ => put (ms ++ [y]) (Dir []) root = Some root' | Err _ => root' = root | Panic => False end).
Proof.
  intros Hd Hnone. assert (linkless root (ms ++ [y])) as Hl.
  { apply linkless_snoc; [|by rewrite Hnone]. intros p t [s ->] Hv. apply dir_prefix, dir_view in Hd. congruence. }
  unfold create_dir_all. rewrite reverse_absolute. cbn [create_dirs]. wp_step.
  rewrite <- reverse_absolute, reverse_involutive, metadata_at, Hnone by done. cbn iota beta delta [from_option].
  apply wp_bind. intros w. rewrite create_dirs_there by done. cbn [fst snd after]. apply wp_call; [|done].
  intros root' Hmk. apply mkdir_at in Hmk as [_ Hput]; [done|]. eapply linkless_prefix; [exact Hl|by eexists].
Qed.

(** What has been copied when the names of [done] are through. *)
Record copying (dst : list string) (es : list (string * node)) (finished : list string) (root : node) : Prop := {
  copying_dir : dir_at root dst = true;
  copying_done : forall x n, x ∈ finished -> entry x es = Some n -> exists n', at_ root (dst ++ [x]) = Some n' /\ alike n' n;
  copying_rest : forall x, x ∉ finished -> at_ root (dst ++ [x]) = None;
}.

Lemma copying_all dst es root :
  copying dst es es.*1 root -> exists n', at_ root dst = Some n' /\ alike n' (Dir es).
Proof.
  intros [Hd Hdone Hrest]. unfold dir_at in Hd. destruct (at_ root dst) as [[|ds| |]|] eqn:Hat; try done.
  exists (Dir ds). split; [done|]. intros [|x z]; [done|].
  assert (forall y, at_ root (dst ++ [y]) = entry y ds) as Hy.
  { intros y. rewrite at_app, Hat. simpl. by destruct (entry y ds). }
  rewrite !view_dir, <- Hy. destruct (entry x es) as [n|] eqn:Hx.
  - destruct (Hdone x n) as (n' & -> & Hn); [|done|apply Hn]. clear -Hx. induction es as [|[y m] es IH]; [done|].
    simpl in *. case_decide; [subst; left|right; by apply IH].
  - rewrite Hrest; [done|]. intros Hin. clear -Hx Hin. induction es as [|[y m] es IH]; [by apply not_elem_of_nil in Hin|].
    simpl in *. case_decide; [done|]. apply elem_of_cons in Hin as [|]; [done|by apply IH].
Qed.

Lemma copying_next dst es finished x n n' root root' :
  copying dst es finished root -> stays (dst ++ [x]) root root' -> entry x es = Some n ->
  at_ root' (dst ++ [x]) = Some n' -> alike n' n -> copying dst es (finished ++ [x]) root'.
Proof.
  intros [_ Hdone Hrest] Hs Hx Hat Hal.
  assert (forall y, y <> x -> at_ root' (dst ++ [y]) = at_ root (dst ++ [y])) as Hother.
  { intros y Hy. apply Hs; intros [s Heq]; rewrite <- app_assoc in Heq; apply app_inv_head in Heq; by injection Heq. }
  split; [by eapply at_above| |].
  - intros y m Hy Hm. destruct (decide (y = x)) as [->|Hne]; [exists n'; by simplify_eq|].
    rewrite Hother by done. apply Hdone; [|done]. by apply elem_of_app in Hy as [Hy|Hy%list_elem_of_singleton].
  - intros y Hy. rewrite elem_of_app, list_elem_of_singleton in Hy. rewrite Hother by tauto. apply Hrest. tauto.
Qed.

End copies.
End Copies.
