(* ===== verification/Files.v ===== *)
(** * Files at the executor ([crates/workbench-runtime/src/executor.rs])

    The [filesystem.*] arms of [dispatch], over a [Disk]: every path is checked
    by [checked_path] against the disk as it is.  A handler is one run on the
    disk; the parts of [filesystem.write] that other requests may come between
    are definitions of their own. *)

From Stdlib Require Import Ascii String.
From S2P Require Import Prelude RustStd RustText Json Protocol Schema Leases Contracts.
From S2P Require Import Controller Catalog Samples Arbitration Enforcement Confinement Commands Disk.

Module Files.
Import FsPath Confinement Commands Disk.

(** The [base64] crate. *)
Class Base64 := {
  encode : string -> string;
  decode : string -> option string;
}.

(** ** Text *)

(** [content.matches(pattern).count()]: an empty pattern matches at the border of
    every character and at the end. *)
Fixpoint char_count (s : string) : nat :=
  match s with
  | EmptyString => O
  | String c s' => (if Text8.between 128 191 (nat_of_ascii c) then O else 1%nat) + char_count s'
  end.
Fixpoint matches_from (skip : nat) (pattern s : string) : nat :=
  match s with
  | EmptyString => O
  | String _ s' =>
      match skip with
      | S skip' => matches_from skip' pattern s'
      | O => if Str.starts_with pattern s then S (matches_from (String.length pattern - 1) pattern s')
             else matches_from 0 pattern s'
      end
  end.
Definition count_matches (pattern s : string) : nat :=
  if Str.is_empty pattern then S (char_count s) else matches_from 0 pattern s.
(** [content.replacen(pattern, new, 1)] *)
Definition replace_first (pattern new s : string) : string :=
  match Str.find pattern s with
  | Some i => Str.take i s +:+ new +:+ Str.drop (i + String.length pattern) s
  | None => s
  end.

(** [children.sort_by_key(|entry| entry.file_name())] *)
Definition name_le {A} (a b : string * A) : Prop := String.le a.1 b.1.
#[global] Instance name_le_dec {A} : RelDecision (@name_le A).
Proof. intros a b. unfold name_le. apply _. Defined.
Definition by_name {A} (es : list (string * A)) : list (string * A) := merge_sort name_le es.

(** [slice.sort_by] with a comparison of options of strings. *)
Definition key_leb (a b : option string) : bool :=
  match a, b with
  | None, _ => true
  | Some _, None => false
  | Some x, Some y => String.leb x y
  end.
Fixpoint insert_sorted {A} (key : A -> option string) (x : A) (l : list A) : list A :=
  match l with
  | [] => [x]
  | y :: l' => if key_leb (key x) (key y) then x :: y :: l' else y :: insert_sorted key x l'
  end.
Definition sort_by_key {A} (key : A -> option string) (l : list A) : list A := foldr (insert_sorted key) [] l.

(** Sorting goes by what is compared only. *)
Section sorting.
Context {A B : Type} (R : relation A) (S : relation B) `{!RelDecision R, !RelDecision S} (f : A -> B).
Hypothesis same : forall x y, R x y <-> S (f x) (f y).

Lemma list_merge_fmap l1 l2 : list_merge S (f <$> l1) (f <$> l2) = f <$> list_merge R l1 l2.
Proof.
  revert l2. induction l1 as [|x l1 IH1]; intros l2; [by destruct l2|].
  induction l2 as [|y l2 IH2]; [done|]. simpl. unfold decide_rel.
  destruct (decide (R x y)) as [Hr|Hr]; [rewrite decide_True by by apply same|rewrite decide_False by by rewrite <- same].
  - simpl. f_equal. apply (IH1 (y :: l2)).
  - simpl. f_equal. exact IH2.
Qed.
Definition on_stack (st : list (option (list A))) : list (option (list B)) := option_map (map f) <$> st.
Lemma merge_list_to_stack_fmap (st : list (option (list A))) (l : list A) :
  merge_list_to_stack S (on_stack st) (f <$> l) = on_stack (merge_list_to_stack R st l).
Proof.
  revert l. induction st as [|[l'|] st IH]; intros l; [done| |done]. simpl. f_equal.
  rewrite <- IH. f_equal. apply list_merge_fmap.
Qed.
Lemma merge_stack_fmap (st : list (option (list A))) : merge_stack S (on_stack st) = f <$> merge_stack R st.
Proof. induction st as [|[l|] st IH]; [done| |done]. simpl. by rewrite <- list_merge_fmap, <- IH. Qed.
Lemma merge_sort_fmap l : merge_sort S (f <$> l) = f <$> merge_sort R l.
Proof.
  unfold merge_sort. enough (forall st : list (option (list A)), merge_sort_aux S (on_stack st) (f <$> l) = f <$> merge_sort_aux R st l) as H
    by apply (H []).
  induction l as [|x l IH]; intros st; [apply merge_stack_fmap|]. simpl. rewrite <- IH. f_equal.
  apply (merge_list_to_stack_fmap st [x]).
Qed.
End sorting.

Section files.
Context `{!Sha256, !Base64}.
Variables (r : roots) (auth : Fences.host) (cwd : list string).
(** [std::process::id()], and [metadata.len()] of what is not a file. *)
Variables (process_id : Z) (other_len : node -> Z).

Definition len (n : node) : Z := match n with File content => Str.len content | _ => other_len n end.
Definition kind (n : node) : string := if is_dir n then "directory" else if is_file n then "file" else "other".
Definition path_value (p : path) : Value := VString (display p).

Definition path_param (params : Value) (key : string) (must_exist : bool) : handler path :=
  root ← get; lift (checked_path (fs := mounted cwd root) r auth params key must_exist None).
Definition read_path (params : Value) (key : string) (must_exist : bool) (capability : string) : handler path :=
  root ← get; lift (checked_path (fs := mounted cwd root) r auth params key must_exist (Some capability)).

Definition digest_file (root : node) (p : path) : outcome RpcError.t string :=
  match metadata cwd root p with
  | Some (File content) => Ok (sha256_bytes content)
  | _ => Err (io_error "FS_READ_FAILED" (display p))
  end.
Definition file_digest (p : path) : handler string := root ← get; lift (digest_file root p).

(** The paths below a directory, with what they show: files and links. *)
Fixpoint collect (rel : list string) (n : node) : list (list string * node) :=
  match n with
  | Dir es => concat ((fun e => collect (rel ++ [e.1]) e.2) <$> es)
  | File _ | Link _ => [(rel, n)]
  | Special => []
  end.
Definition portable (rel : list string) : string := String.concat "/" rel.
Definition NUL : string := String "000" EmptyString.
Definition shown (n : node) : string := match n with File content => content | Link target => target | _ => "" end.
(** What [digest_tree] feeds to the hash. *)
Definition tree_entries (n : node) : list (string * node) :=
  match n with Dir es => by_name ((fun e => (portable e.1, e.2)) <$> collect [] n) | _ => [] end.
Definition tree_text (n : node) : string :=
  String.concat "" ((fun e => e.1 +:+ NUL +:+ shown e.2 +:+ NUL) <$> tree_entries n).
Definition tree_size (n : node) : Z :=
  foldl (fun size e => match e.2 with File content => u64_saturating_add size (Str.len content) | _ => size end)
    0 (tree_entries n).
Definition digest_node (n : node) : string * Z * Z :=
  (sha256_bytes (tree_text n), tree_size n, Z.of_nat (length (tree_entries n))).
Definition digest_tree (root : node) (p : path) : outcome RpcError.t (string * Z * Z) :=
  match metadata cwd root p with
  | Some (Dir es) => Ok (digest_node (Dir es))
  | _ => Err (io_error "ARTIFACT_READ_FAILED" (display p))
  end.

(** ** Reading *)

Definition fs_stat (params : Value) : handler Value :=
  p ← read_path params "path" false "filesystem.stat";
  root ← get;
  n ← lift (ok_or (io_error "FS_STAT_FAILED" (display p)) (symlink_metadata cwd root p));
  digest ← (if is_file n then d ← file_digest p; mret (VString d) else mret VNull);
  mret (json_object [("path", path_value p); ("exists", VBool true); ("kind", VString (kind n));
                     ("size", vnat (len n)); ("digest", digest)]).

Definition fs_resolve (params : Value) : handler Value :=
  p ← read_path params "path" false "filesystem.resolve";
  root ← get;
  mret (json_object [("path", path_value p); ("exists", VBool (bool_decide (is_Some (metadata cwd root p))))]).

Definition read_limit : Z := 1024 * 1024.
(** [seek(SeekFrom::Start(offset))]: an offset is a signed number to the kernel. *)
Definition read_chunk (content : string) (offset limit : Z) : option string :=
  if offset <=? 2 ^ 63 - 1
  then Some (Str.take (Z.to_nat limit) (Str.drop (Z.to_nat (Z.min offset (Str.len content))) content))
  else None.

Definition fs_read (params : Value) : handler Value :=
  p ← read_path params "path" true "filesystem.read";
  let offset := default 0 (u64_param params "offset") in
  root ← get;
  let failed := io_error "FS_READ_FAILED" (display p) in
  n ← lift (ok_or failed (metadata cwd root p));
  bytes ← lift (ok_or failed
    (match n, u64_param params "limit" with
     | File content, Some limit => read_chunk content offset (Z.min limit read_limit)
     | File content, None => Some content
     | _, _ => None
     end));
  mret (json_object [("path", path_value p); ("content", VString (Text8.from_utf8_lossy bytes));
                     ("digest", VString (sha256_bytes bytes)); ("size", vnat (len n)); ("offset", vnat offset);
                     ("bytes", vnat (Str.len bytes));
                     ("eof", VBool (len n <=? u64_saturating_add offset (Str.len bytes)))]).

(** An [OsString] in JSON. *)
Definition os_string (name : string) : Value :=
  json_object [("Unix", VArray (map (fun c => vnat (Z.of_nat (nat_of_ascii c))) (list_ascii_of_string name)))].
Definition list_entry (p : path) (e : string * node) : Value :=
  json_object [("name", os_string e.1); ("path", path_value (join p e.1)); ("kind", VString (kind e.2));
               ("size", vnat (len e.2))].
Definition fs_list (params : Value) : handler Value :=
  p ← read_path params "path" true "filesystem.list";
  root ← get;
  match metadata cwd root p with
  | Some (Dir es) =>
      let entries := sort_by_key (fun e => as_str (vindex e "name")) (list_entry p <$> es) in
      mret (json_object [("path", path_value p); ("entries", VArray entries)])
  | _ => throw (io_error "FS_LIST_FAILED" (display p))
  end.

Definition search_limit : Z := 16 * 1024 * 1024.
Record found := Found { found_in : path; found_line : Z; found_text : string }.
Definition found_value (m : found) : Value :=
  json_object [("path", path_value (found_in m)); ("line", vnat (found_line m)); ("text", VString (found_text m))].

(** The lines from the [i]-th on, up to [max] matches. *)
Fixpoint search_lines (p : path) (query : string) (max : nat) (i : Z) (lines : list string) (matches : list found) :
    list found :=
  match lines with
  | [] => matches
  | line :: lines' =>
      let matches := if Str.contains query line then matches ++ [Found p (i + 1) line] else matches in
      if Str.contains query line && Nat.leb max (length matches) then matches
      else search_lines p query max (i + 1) lines' matches
  end.

(** [fuel] bounds the depth of the tree. *)
Fixpoint search_tree (fuel : nat) (query : string) (max : nat) (p : path) (n : node) (matches : list found) :
    outcome RpcError.t (list found) :=
  if Nat.leb max (length matches) then Ok matches
  else
    match n, fuel with
    | Dir es, S fuel' =>
        (fix go es matches :=
           match es with
           | [] => Ok matches
           | e :: es' =>
               matches ← search_tree fuel' query max (join p e.1) e.2 matches;
               if Nat.leb max (length matches) then Ok matches else go es' matches
           end) (by_name es) matches
    | Dir _, O => Panic
    | File content, _ =>
        Ok (if Str.len content <=? search_limit
            then search_lines p query max 0 (Text8.lines (Text8.from_utf8_lossy content)) matches else matches)
    | _, _ => Ok matches
    end.

Definition fs_search (fuel : nat) (params : Value) : handler Value :=
  p ← read_path params "path" true "filesystem.search";
  query ← lift (required_str params "query");
  let max := Z.to_nat (default 200 (u64_param params "maxResults")) in
  root ← get;
  n ← lift (ok_or (io_error "FS_SEARCH_FAILED" (display p)) (symlink_metadata cwd root p));
  matches ← lift (search_tree fuel query max p n []);
  mret (json_object [("path", path_value p); ("query", VString query); ("matches", VArray (found_value <$> matches));
                     ("truncated", VBool (Nat.leb max (length matches)))]).

(** ** Writing *)

Definition content_bytes (params : Value) : outcome RpcError.t string :=
  content ← ok_or (invalid_params "content is required") (str_param params "content");
  let encoding := default "utf-8" (str_param params "encoding") in
  if decide (encoding = "utf-8") then Ok content
  else if decide (encoding = "base64") then ok_or (invalid_params "content is not valid base64") (decode content)
  else Err (invalid_params ("unsupported filesystem.write encoding: " +:+ encoding)).

Definition digest_conflict (expected actual : string) : RpcError.t :=
  RpcError.new "DIGEST_CONFLICT" ("expected " +:+ expected +:+ ", got " +:+ actual).

(** A digest that was named is the one of the file, which is there. *)
Definition check_digest (params : Value) (p : path) : handler unit :=
  match str_param params "expectedDigest" with
  | None => mret tt
  | Some expected =>
      root ← get;
      actual ← (if bool_decide (is_Some (metadata cwd root p)) then d ← file_digest p; mret (Some d) else mret None);
      guard (bool_decide (actual = Some expected)) (digest_conflict expected (default "<missing>" actual))
  end.

Definition temporary (p : path) : path := with_extension p ("workbench." +:+ pretty process_id +:+ ".tmp").

(** The two halves of a write: the new content is put beside the file, and
    takes its place. *)
Definition stage (code : string) (p : path) (bytes : string) : handler unit :=
  _ ← match parent p with Some above => create_dir_all cwd code above | None => mret tt end;
  write_file cwd code (temporary p) bytes.
Definition publish (code : string) (p : path) : handler Value :=
  _ ← call code p (rename cwd (temporary p) p);
  d ← file_digest p;
  mret (json_object [("path", path_value p); ("digest", VString d)]).

Definition fs_write (params : Value) : handler Value :=
  p ← path_param params "path" false;
  bytes ← lift (content_bytes params);
  _ ← check_digest params p;
  _ ← stage "FS_WRITE_FAILED" p bytes;
  publish "FS_WRITE_FAILED" p.

Definition patch_mismatch (n : nat) : RpcError.t :=
  RpcError.new "PATCH_CONTEXT_MISMATCH" ("patch context matched " +:+ pretty n +:+ " times").

Definition fs_patch (params : Value) : handler Value :=
  p ← path_param params "path" true;
  expected ← lift (required_str params "expectedDigest");
  actual ← file_digest p;
  _ ← guard (bool_decide (actual = expected)) (digest_conflict expected actual);
  before ← lift (required_str params "before");
  after ← lift (required_str params "after");
  root ← get;
  content ← lift (match metadata cwd root p with
                  | Some (File content) => if Text8.valid_utf8 content then Ok content
                                           else Err (io_error "FS_PATCH_FAILED" (display p))
                  | _ => Err (io_error "FS_PATCH_FAILED" (display p))
                  end);
  let occurrences := count_matches before content in
  _ ← guard (Nat.eqb occurrences 1) (patch_mismatch occurrences);
  _ ← write_file cwd "FS_PATCH_FAILED" (temporary p) (replace_first before after content);
  publish "FS_PATCH_FAILED" p.

Definition trash_name : string := ".workbench-trash".
Definition no_parent : RpcError.t := RpcError.new "PATH_INVALID" "path has no parent".

Definition fs_remove (params : Value) : handler Value :=
  p ← path_param params "path" true;
  expected ← lift (required_str params "expectedDigest");
  root ← get;
  actual ← lift (if from_option is_dir false (metadata cwd root p)
                 then d ← digest_tree root p; Ok d.1.1 else digest_file root p);
  _ ← guard (bool_decide (actual = expected)) (digest_conflict expected actual);
  above ← lift (ok_or no_parent (parent p));
  let trash := join above trash_name in
  _ ← create_dir_all cwd "FS_REMOVE_FAILED" trash;
  n ← now;
  uuid ← fresh_uuid;
  let destination := join trash (pretty n +:+ "_" +:+ uuid) in
  _ ← call "FS_REMOVE_FAILED" p (rename cwd p destination);
  mret (json_object [("path", path_value p); ("removed", VBool true); ("restoreToken", path_value destination)]).

Definition fs_restore (params : Value) : handler Value :=
  destination ← path_param params "path" false;
  token ← path_param params "restoreToken" true;
  _ ← guard (bool_decide (parent token ≫= file_name = Some trash_name))
        (RpcError.new "INVALID_RESTORE_TOKEN" "restore token is not managed by workbench");
  root ← get;
  _ ← guard (negb (bool_decide (is_Some (metadata cwd root destination))))
        (RpcError.new "RESTORE_CONFLICT" "restore destination already exists");
  _ ← call "FS_RESTORE_FAILED" destination (rename cwd token destination);
  mret (json_object [("path", path_value destination); ("restored", VBool true)]).

Definition fs_mkdir (params : Value) : handler Value :=
  p ← path_param params "path" false;
  _ ← create_dir_all cwd "FS_MKDIR_FAILED" p;
  mret (json_object [("path", path_value p); ("created", VBool true)]).

(** ** Changes stay where they may be *)

Section confined.
Variables (places nss : list (list string)) (root0 : node).

(** What the calls of a handler keep, while it has not moved anything. *)
Record kept (root : node) : Prop := {
  kept_outside : agrees_outside places root0 root;
  kept_places : forall p, p ∈ places -> dir_at root p = true;
  kept_links : forall ns, ns ∈ nss -> linkless root ns;
}.

Lemma kept_put root root' p s new :
  kept root -> p ∈ places -> dir_at root (p ++ s) = false -> (forall s t, view new s <> Some (IsLink t)) ->
  put (p ++ s) new root = Some root' -> kept root'.
Proof.
  intros [Ho Hp Hl] Hin Hd Hnew Hput. split.
  - etrans; [exact Ho|by eapply put_agrees].
  - intros q Hq. specialize (Hp q Hq). apply dir_view. rewrite (view_put _ _ _ _ _ Hput).
    + by apply dir_view.
    + intros [z ->]. rewrite (dir_prefix _ _ _ Hp) in Hd. done.
  - intros ns Hns. eapply linkless_put; [by apply Hl|done..].
Qed.

(** Directories are made on the way from a place to a path below it. *)
Lemma keeps_create_dirs code whole ns full p :
  full ∈ nss -> p ∈ places -> p `prefix_of` full -> ns `prefix_of` full ->
  keeps kept (create_dirs cwd code whole (reverse (absolute ns))).
Proof.
  intros Hfull Hp Hpf. induction ns as [|x ns IH] using rev_ind; intros Hns.
  { change (reverse (absolute [])) with [RootDir]. cbn [create_dirs]. keep. }
  assert (ns `prefix_of` full) as Hns' by (etrans; [by exists [x]|done]).
  rewrite reverse_absolute. cbn [create_dirs].
  apply keeps_bind; [apply keeps_get|]. intros root1. apply keeps_if; [apply keeps_ret|].
  apply keeps_bind; [by apply IH|]. intros _. apply keeps_call. intros root root' Hk.
  rewrite <- reverse_absolute, reverse_involutive. intros [Hnone Hput]%mkdir_at.
  2:{ eapply linkless_prefix; [by apply Hk|done]. }
  destruct (prefix_weak_total p (ns ++ [x]) full Hpf Hns) as [[s Hs]|[s Hs]].
  - rewrite Hs in Hput, Hnone. eapply kept_put; [done|exact Hp| |apply no_links_below_dir|exact Hput].
    unfold dir_at. by rewrite Hnone.
  - exfalso. pose proof (kept_places _ Hk p Hp) as Hd. rewrite Hs in Hd. apply dir_prefix in Hd.
    unfold dir_at in Hd. by rewrite Hnone in Hd.
Qed.

Lemma keeps_write_file code ns bytes p s :
  ns ∈ nss -> p ∈ places -> ns = p ++ s -> keeps kept (write_file cwd code (absolute ns) bytes).
Proof.
  intros Hns Hp ->. unfold write_file. apply keeps_bind; [|intros _; apply keeps_if; [apply keeps_ret|]].
  - apply keeps_call. intros root root' Hk [Hd Hput]%create_at; [|by apply Hk].
    eapply kept_put; [done..|apply no_links_below_file|done].
  - apply keeps_call. intros root root' Hk (c & Hc & Hput)%write_at_at; [|by apply Hk].
    eapply kept_put; [done..| |apply no_links_below_file|done]. unfold dir_at. by rewrite Hc.
Qed.

Lemma rename_agrees root root' ns x p ms y q :
  linkless root ns -> linkless root ms -> p ∈ places -> p `prefix_of` ns -> q ∈ places -> q `prefix_of` ms ->
  rename cwd (absolute (ns ++ [x])) (absolute (ms ++ [y])) root = Some root' -> agrees_outside places root root'.
Proof.
  intros Hn Hm Hp [s ->] Hq [z ->] Hren. apply rename_at in Hren as (n & _ & [[_ ->]|(_ & root1 & Hcut & Hput)]);
    [done| |done..].
  rewrite <- app_assoc in Hcut, Hput.
  etrans; [by eapply (cut_agrees places p)|by eapply (put_agrees places q)].
Qed.
End confined.

(** The way to a path, to its temporary file and to the trash beside it has no
    link, dangling ones included. *)
Record free_way (root : node) (p : path) : Prop := {
  way_path : linkless root (names_of p);
  way_temporary : linkless root (names_of (temporary p));
  way_trash : forall above, parent p = Some above -> linkless root (names_of (join above trash_name));
}.

Definition places : list (list string) := names_of <$> allowed_roots r.

Lemma absolute_prefix R names : absolute R `prefix_of` absolute names -> R `prefix_of` names.
Proof.
  intros [s Hs]. injection Hs as Hs. apply fmap_app_inv in Hs as (R' & t & HR & _ & ->).
  assert (Inj eq eq Normal) by (intros a b [=]; done). apply list_fmap_eq_inj in HR as ->; [|apply _]. by exists t.
Qed.

(** A path that is let through, and is no allowed root itself, is below one. *)
Lemma checked_below root params key must_exist p :
  Forall canonical_path (allowed_roots r) ->
  checked_path (fs := mounted cwd root) r auth params key must_exist None = Ok p -> p ∉ allowed_roots r ->
  exists R ns x, R ∈ places /\ R `prefix_of` ns /\ p = absolute (ns ++ [x]).
Proof.
  intros Hroots Hc Hp.
  apply checked_path_is_confined in Hc as [[names ->] [(root0 & Hin & Hpre)|(c & ? & ? & [=] & _)]];
    [|apply mounted_resolves_links].
  rewrite Forall_forall in Hroots. destruct (Hroots root0 Hin) as [R ->]. apply absolute_prefix in Hpre as [s ->].
  destruct (decide (s = [])) as [->|(s' & x & ->)%exists_last]; [by rewrite app_nil_r in Hp|].
  exists R, (R ++ s'), x. split_and!.
  - apply list_elem_of_fmap. exists (absolute R). by rewrite names_absolute.
  - by exists s'.
  - by rewrite <- app_assoc.
Qed.

Lemma from_path_param {A} I root params key must_exist (k : path -> handler A) :
  I root ->
  (forall p, checked_path (fs := mounted cwd root) r auth params key must_exist None = Ok p -> from I root (k p)) ->
  from I root (path_param params key must_exist ≫= k).
Proof. intros Hr Hk. apply from_bind_assoc, from_get_bind, from_lift_bind; [done|]. exact Hk. Qed.

Lemma from_call_bind {A} (J : node -> Prop) root code p op (k : unit -> handler A) :
  J root -> (forall root', op root = Some root' -> J root') -> (forall root', J root' -> from J root' (k tt)) ->
  from J root (call code p op ≫= k).
Proof.
  intros Hr Hop Hk w. pose proof (call_run code p op root w) as Hrun. unfold mbind, M_bind.
  destruct (call code p op root w) as [[[[]|e|] root1] w1]; simpl in *; [|by subst|done].
  destruct Hrun as (root' & Ho & ->). by apply Hk, Hop.
Qed.

Lemma keeps_file_digest I p : keeps I (file_digest p).
Proof. unfold file_digest. keep. Qed.
Lemma keeps_check_digest I params p : keeps I (check_digest params p).
Proof. pose proof (keeps_file_digest I p). unfold check_digest. keep. Qed.
#[local] Hint Resolve keeps_file_digest keeps_check_digest : keeps.

Section stay.
Variables (root : node) (nss : list (list string)).
Abbreviation J := (agrees_outside places root).
Abbreviation I := (kept places nss root).

Lemma kept_J root1 : I root1 -> J root1.
Proof. by intros []. Qed.

Lemma from_publish code R ns x root1 :
  I root1 -> R ∈ places -> R `prefix_of` ns -> ns ++ [x] ∈ nss -> from J root1 (publish code (absolute (ns ++ [x]))).
Proof.
  intros Hk HR Hpre Hin. unfold publish. apply from_call_bind; [by apply kept_J| |].
  - intros root' Hren. etrans; [by apply kept_J|]. unfold temporary in Hren. rewrite with_extension_absolute in Hren.
    assert (linkless root1 ns) by (eapply linkless_prefix; [by apply (kept_links _ _ _ _ Hk), Hin|by exists [x]]).
    by eapply (rename_agrees places _ _ ns _ R ns _ R).
  - intros root' Hj. apply from_keeps; [done|keep].
Qed.

Lemma keeps_temporary code R ns x bytes :
  R ∈ places -> R `prefix_of` ns -> names_of (temporary (absolute (ns ++ [x]))) ∈ nss ->
  keeps I (write_file cwd code (temporary (absolute (ns ++ [x]))) bytes).
Proof.
  intros HR [s ->] Htmp. unfold temporary in *. rewrite with_extension_absolute, names_absolute in *.
  eapply keeps_write_file; [done|exact HR|by rewrite <- app_assoc].
Qed.

Lemma keeps_stage code R ns x bytes :
  R ∈ places -> R `prefix_of` ns -> ns ++ [x] ∈ nss -> names_of (temporary (absolute (ns ++ [x]))) ∈ nss ->
  keeps I (stage code (absolute (ns ++ [x])) bytes).
Proof.
  intros HR Hpre Hin Htmp. unfold stage. rewrite parent_absolute. apply keeps_bind; [|intros _].
  - unfold create_dir_all. eapply keeps_create_dirs; [exact Hin|exact HR|etrans; [exact Hpre|]|]; by exists [x].
  - by eapply keeps_temporary.
Qed.
End stay.

Section requests.
Variables (params : Value) (root : node).
Hypothesis roots_canonical : Forall canonical_path (allowed_roots r).
Hypothesis roots_are_dirs : forall R, R ∈ allowed_roots r -> dir_at root (names_of R) = true.
Hypothesis ways_free : forall key must_exist p, key ∈ ["path"; "restoreToken"] ->
  checked_path (fs := mounted cwd root) r auth params key must_exist None = Ok p ->
  (p ∉ allowed_roots r) /\ free_way root p.
Abbreviation J := (agrees_outside places root).

Lemma kept_start nss : Forall (linkless root) nss -> kept places nss root root.
Proof.
  intros Hnss. split; [done| |by rewrite Forall_forall in Hnss].
  intros R (R' & -> & HR)%list_elem_of_fmap. by apply roots_are_dirs.
Qed.

(** What is known of a path of the request. *)
Lemma path_of_request key must_exist p :
  key ∈ ["path"; "restoreToken"] -> checked_path (fs := mounted cwd root) r auth params key must_exist None = Ok p ->
  exists R ns x, R ∈ places /\ R `prefix_of` ns /\ p = absolute (ns ++ [x]) /\ linkless root (ns ++ [x]) /\
    linkless root (names_of (temporary (absolute (ns ++ [x])))) /\ linkless root (ns ++ [trash_name]).
Proof.
  intros Hkey Hc. destruct (ways_free _ _ _ Hkey Hc) as [Hnot [H1 H2 H3]].
  destruct (checked_below _ _ _ _ _ roots_canonical Hc Hnot) as (R & ns & x & HR & Hpre & ->). exists R, ns, x.
  specialize (H3 _ (parent_absolute ns x)). rewrite join_absolute, names_absolute in H3. by rewrite names_absolute in H1.
Qed.

Lemma stay_write : from J root (fs_write params).
Proof.
  unfold fs_write. apply from_path_param; [done|]. intros p (R & ns & x & HR & Hpre & -> & H1 & H2 & _)%path_of_request; [|compute_done].
  apply from_lift_bind; [done|]. intros bytes _.
  set (nss := [ns ++ [x]; names_of (temporary (absolute (ns ++ [x])))]).
  apply (from_phase_bind (kept places nss root)); [by intros s []|by apply kept_start; repeat constructor|keep|].
  intros _ root1 Hk1. apply (from_phase_bind (kept places nss root)); [by intros s []|done| |].
  - by eapply keeps_stage; [done..|left|right; left].
  - intros _ root2 Hk2. by eapply from_publish; [done..|left].
Qed.

Lemma stay_patch : from J root (fs_patch params).
Proof.
  unfold fs_patch. apply from_path_param; [done|]. intros p (R & ns & x & HR & Hpre & -> & H1 & H2 & _)%path_of_request; [|compute_done].
  apply from_lift_bind; [done|]. intros expected _.
  set (nss := [ns ++ [x]; names_of (temporary (absolute (ns ++ [x])))]).
  apply (from_phase_bind (kept places nss root)); [by intros s []|by apply kept_start; repeat constructor|keep|].
  intros actual root1 Hk1. apply from_guard_bind; [by destruct Hk1|]. intros _.
  do 2 (apply from_lift_bind; [by destruct Hk1|]; intros ? _). apply from_get_bind.
  apply from_lift_bind; [by destruct Hk1|]. intros content _. apply from_guard_bind; [by destruct Hk1|]. intros _.
  apply (from_phase_bind (kept places nss root)); [by intros s []|done| |].
  - by eapply keeps_temporary; [done..|right; left].
  - intros _ root2 Hk2. by eapply from_publish; [done..|left].
Qed.

Lemma stay_remove : from J root (fs_remove params).
Proof.
  unfold fs_remove. apply from_path_param; [done|]. intros p (R & ns & x & HR & Hpre & -> & H1 & _ & H3)%path_of_request; [|compute_done].
  do 1 (apply from_lift_bind; [done|]; intros ? _). apply from_get_bind.
  apply from_lift_bind; [done|]. intros actual _. apply from_guard_bind; [done|]. intros _.
  rewrite parent_absolute. apply from_lift_bind; [done|]. intros above [= <-]. cbn zeta. rewrite join_absolute.
  set (nss := [ns ++ [x]; ns ++ [trash_name]]).
  apply (from_phase_bind (kept places nss root)); [by intros s []|by apply kept_start; repeat constructor| |].
  - unfold create_dir_all. eapply keeps_create_dirs; [by right; left|exact HR|etrans; [exact Hpre|by eexists]|done].
  - intros _ root1 Hk1. apply from_now_bind. intros n. apply from_uuid_bind. intros u. rewrite join_absolute.
    apply from_call_bind; [by destruct Hk1| |].
    + intros root' Hren. etrans; [by destruct Hk1|]. pose proof (kept_links _ _ _ _ Hk1) as Hl.
      eapply (rename_agrees places _ _ ns _ R (ns ++ [trash_name]) _ R); [| |done|done|done| |exact Hren].
      * eapply linkless_prefix; [apply (Hl (ns ++ [x])); left|by eexists].
      * apply Hl. by right; left.
      * etrans; [exact Hpre|by eexists].
    + intros root' Hj. apply from_keeps; [done|keep].
Qed.

Lemma stay_restore : from J root (fs_restore params).
Proof.
  unfold fs_restore. apply from_path_param; [done|]. intros p (R & ns & x & HR & Hpre & -> & H1 & _)%path_of_request; [|compute_done].
  apply from_path_param; [done|]. intros token (R' & ms & y & HR' & Hpre' & -> & H1' & _)%path_of_request; [|compute_done].
  apply from_guard_bind; [done|]. intros _. apply from_get_bind. apply from_guard_bind; [done|]. intros _.
  apply from_call_bind; [done| |].
  - intros root' Hren. eapply (rename_agrees places _ _ ms _ R' ns _ R);
      [eapply linkless_prefix; [exact H1'|by eexists]|eapply linkless_prefix; [exact H1|by eexists]|done..|exact Hren].
  - intros root' Hj. apply from_keeps; [done|keep].
Qed.

Lemma stay_mkdir : from J root (fs_mkdir params).
Proof.
  unfold fs_mkdir. apply from_path_param; [done|]. intros p (R & ns & x & HR & Hpre & -> & H1 & _)%path_of_request; [|compute_done].
  apply (from_phase_bind (kept places [ns ++ [x]] root)); [by intros s []|by apply kept_start; repeat constructor| |].
  - unfold create_dir_all. eapply keeps_create_dirs; [by left|exact HR|etrans; [exact Hpre|by eexists]|done].
  - intros _ root1 Hk1. apply from_keeps; [by destruct Hk1|keep].
Qed.

End requests.

(** ** A write is all or nothing *)

Lemma temporary_name x e : Str.count_char "." e <> 0%nat -> file_stem x +:+ "." +:+ e <> x.
Proof.
  intros He. unfold file_stem. destruct (Text8.rsplit_once "." x) as [[stem ext]|] eqn:Hx.
  - apply Text8.rsplit_once_Some in Hx as [Hx Hc]. intros Heq.
    destruct (Str.is_empty stem); [by apply (f_equal String.length) in Heq; rewrite !Str.length_app in Heq; simpl in Heq; lia|].
    rewrite Hx in Heq. apply (f_equal (Str.drop (String.length stem))) in Heq.
    rewrite !Str.drop_app_length in Heq. injection Heq as Heq. change ("" +:+ e) with e in Heq. by subst.
  - intros Heq%(f_equal String.length). rewrite !Str.length_app in Heq. simpl in Heq. lia.
Qed.

Lemma temporary_absolute ns x :
  exists y, temporary (absolute (ns ++ [x])) = absolute (ns ++ [y]) /\ y <> x.
Proof.
  unfold temporary. rewrite with_extension_absolute. eexists. split; [done|].
  apply temporary_name. rewrite !Str.count_char_app. change (Str.count_char "." "workbench.") with 1%nat. lia.
Qed.

Ltac digest_run := match goal with H : digest_file _ _ = _ |- _ => revert H end; unfold digest_file.

Section whole.
Variables (ns : list string) (x y : string) (root : node).
Hypothesis temporary_is : temporary (absolute (ns ++ [x])) = absolute (ns ++ [y]).
Hypothesis apart : y <> x.
Hypothesis way : linkless root (ns ++ [x]).
Hypothesis temporary_way : linkless root (ns ++ [y]).

(** What is seen at the path is what was there. *)
Definition untouched (root1 : node) : Prop :=
  view root1 (ns ++ [x]) = view root (ns ++ [x]) /\ no_new_links root root1.

Lemma beside : ~ (ns ++ [y]) `prefix_of` (ns ++ [x]).
Proof. intros [s Hs]. rewrite <- app_assoc in Hs. apply app_inv_head in Hs. by injection Hs as ->. Qed.

Lemma untouched_mkdir p z r1 r2 :
  p ++ [z] `prefix_of` ns -> untouched r1 -> at_ r1 (p ++ [z]) = None -> put (p ++ [z]) (Dir []) r1 = Some r2 -> untouched r2.
Proof.
  intros [s Hs] [Hv Hn] Hnone Hput. split; [|etrans; [exact Hn|eapply put_no_links; [exact Hput|apply no_links_below_dir]]].
  rewrite <- Hv, Hs, <- !(app_assoc _ s). unfold view at 1. rewrite (at_put_below _ _ _ _ _ Hput).
  unfold view. rewrite (at_app r1), Hnone. by destruct s.
Qed.

Lemma wp_stage code bytes root0 :
  untouched root0 ->
  wp (stage code (absolute (ns ++ [x])) bytes) root0
    (fun o root1 => untouched root1 /\ (o <> Panic) /\ (o = Ok tt -> at_ root1 (ns ++ [y]) = Some (File bytes))).
Proof.
  intros Hstart. unfold stage. rewrite parent_absolute, temporary_is.
  eapply wp_seq; [apply (wp_create_dir_all cwd untouched)| |by intros e s' ([? _] & _ & _)|by intros s' (_ & [] & _)].
  - done.
  - eapply linkless_kept; [apply Hstart|]. eapply linkless_prefix; [exact way|by eexists].
  - apply untouched_mkdir.
  - intros [] root1 ([[Hv Hn] _] & _ & _). eapply wp_mono; [apply wp_write_file; by eapply linkless_kept|].
    intros o root2 ([Ha Hn2] & HP & HO). split_and!; [split|done..].
    + rewrite <- Hv. apply Ha. intros p ->%list_elem_of_singleton. apply beside.
    + by etrans.
Qed.

Lemma wp_publish code bytes root1 :
  untouched root1 -> at_ root1 (ns ++ [y]) = Some (File bytes) ->
  wp (publish code (absolute (ns ++ [x]))) root1
    (fun o root2 => match o with
     | Ok v => view root2 (ns ++ [x]) = Some (IsFile bytes) /\
               v = json_object [("path", path_value (absolute (ns ++ [x]))); ("digest", VString (sha256_bytes bytes))]
     | Err _ => view root2 (ns ++ [x]) = view root (ns ++ [x])
     | Panic => False
     end).
Proof.
  intros [Hv Hn] Hat. unfold publish. rewrite temporary_is.
  eapply (wp_seq _ _ _ (fun o root2 => match o with
     | Ok _ => plain root2 (ns ++ [x]) /\ at_ root2 (ns ++ [x]) = Some (File bytes)
     | Err _ => root2 = root1 | Panic => False end)); [|intros [] root2 [Hpl H2]|by intros e root2 ->|done].
  - apply wp_call; [|done]. intros root2 Hren.
    assert (linkless root1 ns) as Hl.
    { eapply linkless_kept; [exact Hn|]. eapply linkless_prefix; [exact way|by eexists]. }
    apply (rename_at _ _ _ _ _ _ _ Hl Hl) in Hren as (n & Hy & [[Heq _]|(_ & rest & _ & Hput)]).
    { apply app_inv_head in Heq. by injection Heq as ->. }
    rewrite Hat in Hy. injection Hy as <-. split; [by eapply put_plain|by eapply at_put].
  - unfold file_digest. repeat wp_step.
    + split; [unfold view; by rewrite H2|].
      digest_run. rewrite metadata_plain by done. rewrite H2. by intros [= <-].
    + digest_run. rewrite metadata_plain by done. by rewrite H2.
    + digest_run. rewrite metadata_plain by done. by rewrite H2.
Qed.
End whole.

Lemma wp_check_digest params ns root :
  linkless root ns ->
  wp (check_digest params (absolute ns)) root
    (fun o root' => root' = root /\ (o <> Panic) /\
       (o = Ok tt -> forall d, str_param params "expectedDigest" = Some d ->
          exists old, view root ns = Some (IsFile old) /\ sha256_bytes old = d)).
Proof.
  intros Hl. unfold check_digest. destruct (str_param params "expectedDigest") as [d|]; [|by apply wp_ret].
  wp_step. case_bool_decide as Hm; [|intros w; by split_and!].
  unfold file_digest. do 3 wp_step. wp_step; [|done|].
  - digest_run. destruct (metadata cwd root (absolute ns)) as [[content| | |]|] eqn:Hmeta; try done.
    intros [= <-]. unfold guard. wp_step. case_bool_decide as Hd; [|intros w; by split_and!].
    apply wp_ret. split_and!; [done..|]. intros _ d' [= <-]. injection Hd as Hd.
    exists content. split; [|done]. unfold view. by rewrite (metadata_linkless _ _ _ _ Hl Hmeta).
  - digest_run. by destruct (metadata cwd root (absolute ns)) as [[| | |]|].
Qed.

(** A write is all or nothing.  When it succeeds the file holds exactly the
    decoded content, the answer carries its digest, and a digest the request
    expected was the one of the file before.  When it fails, at any call, what
    stands at the path is what stood there. *)
Theorem write_is_atomic params root p :
  Forall canonical_path (allowed_roots r) ->
  checked_path (fs := mounted cwd root) r auth params "path" false None = Ok p -> p ∉ allowed_roots r ->
  free_way root p ->
  wp (fs_write params) root (fun o root' =>
    match o with
    | Ok v => exists bytes, content_bytes params = Ok bytes /\ view root' (names_of p) = Some (IsFile bytes) /\
        v = json_object [("path", path_value p); ("digest", VString (sha256_bytes bytes))] /\
        (forall d, str_param params "expectedDigest" = Some d ->
           exists old, view root (names_of p) = Some (IsFile old) /\ sha256_bytes old = d)
    | Err _ => view root' (names_of p) = view root (names_of p)
    | Panic => False
    end).
Proof.
  intros Hroots Hc Hnot Hway.
  destruct (checked_below _ _ _ _ _ Hroots Hc Hnot) as (R & ns & x & _ & _ & ->). rewrite names_absolute.
  destruct (temporary_absolute ns x) as (y & Hy & Hne). destruct Hway as [H1 H2 _].
  rewrite Hy, names_absolute in H2. rewrite names_absolute in H1.
  unfold fs_write, path_param. do 2 wp_step. rewrite Hc.
  apply wp_lift_bind; [intros ? [= <-]|done|done]. apply wp_lift_bind; [intros bytes Hbytes|done|].
  2:{ unfold content_bytes. destruct (str_param params "content") as [c|]; [|done]. cbn.
      do 2 (case_decide; [try done|]); [|done]. by destruct (decode c). }
  eapply wp_seq; [by apply wp_check_digest| |by intros e s' [-> _]|by intros s' (_ & [] & _)].
  intros [] root1 (-> & _ & Hexp).
  eapply wp_seq; [eapply (wp_stage ns x y root); try done| |by intros e s' [[? _] _]|by intros s' (_ & [] & _)].
  intros [] root2 (Hun & _ & Hat). specialize (Hat eq_refl).
  eapply wp_mono; [by eapply (wp_publish ns x y root)|]. intros [v|e|] root3; [|done|done].
  intros [Hv ->]. exists bytes. split_and!; [done..|]. by apply Hexp.
Qed.

(** ** What is removed can be restored *)

Section removing.
Variables (ns : list string) (x : string) (root : node).
Hypothesis way : linkless root (ns ++ [x]).
Hypothesis trash_way : linkless root (ns ++ [trash_name]).

Record trashed (token : string) (root1 : node) : Prop := {
  trashed_was : is_Some (at_ root (ns ++ [x]));
  trashed_gone : view root1 (ns ++ [x]) = None;
  trashed_kept : forall s, view root1 (ns ++ [trash_name; token] ++ s) = view root (ns ++ [x] ++ s);
  trashed_rest : forall q, ~ (ns ++ [x]) `prefix_of` q -> ~ (ns ++ [trash_name]) `prefix_of` q ->
                 view root1 q = view root q;
}.

Lemma siblings_apart (y z : string) (s t : list string) : y <> z -> ns ++ y :: s <> ns ++ z :: t.
Proof. intros Hne Heq. apply app_inv_head in Heq. by injection Heq. Qed.

Lemma trashed_by_rename token root1 root2 root3 m :
  is_Some (at_ root (ns ++ [x])) ->
  agrees_outside [ns ++ [trash_name]] root root1 -> at_ root1 (ns ++ [x]) = Some m ->
  ~ (ns ++ [x]) `prefix_of` (ns ++ [trash_name; token]) ->
  cut (ns ++ [x]) root1 = Some root3 -> put (ns ++ [trash_name; token]) m root3 = Some root2 -> trashed token root2.
Proof.
  intros Hwas Ha Hm Hpre Hcut Hput.
  assert (x <> trash_name) as Hx by (intros ->; apply Hpre; exists [token]; by rewrite <- app_assoc).
  assert (forall q, ~ (ns ++ [trash_name]) `prefix_of` q -> view root1 q = view root q) as Hview.
  { intros q Hq. apply Ha. by intros p ->%list_elem_of_singleton. }
  assert (forall q, ~ (ns ++ [trash_name]) `prefix_of` q -> ~ (ns ++ [trash_name; token]) `prefix_of` q) as Hbelow.
  { intros q Hq [s ->]. apply Hq. exists (token :: s). by rewrite <- !app_assoc. }
  assert (forall s, ~ (ns ++ [trash_name]) `prefix_of` (ns ++ x :: s)) as Hapart.
  { intros s [t Ht]. rewrite <- app_assoc in Ht. by apply siblings_apart in Ht. }
  split; [done| | |].
  - rewrite (view_put _ _ _ _ _ Hput) by by apply Hbelow, Hapart. unfold view. by rewrite (at_cut _ _ _ Hcut).
  - intros s. change (ns ++ [trash_name; token] ++ s) with (ns ++ [trash_name; token] ++ s).
    rewrite app_assoc, (view_app _ _ _ _ (at_put _ _ _ _ Hput)). simpl. rewrite <- Hview by apply Hapart.
    change (ns ++ x :: s) with (ns ++ [x] ++ s). by rewrite app_assoc, (view_app _ _ _ _ Hm).
  - intros q Hq1 Hq2. by rewrite (view_put _ _ _ _ _ Hput), (view_cut _ _ _ _ Hcut), Hview by auto.
Qed.

Lemma wp_remove params :
  checked_path (fs := mounted cwd root) r auth params "path" true None = Ok (absolute (ns ++ [x])) ->
  wp (fs_remove params) root (fun o root1 =>
    match o with
    | Ok v => exists token, trashed token root1 /\
        vindex v "restoreToken" = path_value (absolute (ns ++ [trash_name; token]))
    | _ => True
    end).
Proof.
  intros Hc. unfold fs_remove, path_param. do 2 wp_step. rewrite Hc.
  apply wp_lift_bind; [intros ? [= <-]|done|done]. apply wp_lift_bind; [intros expected _|done|done].
  wp_step. apply wp_lift_bind; [intros actual Hactual|done|done]. wp_step; [|done].
  rewrite parent_absolute. apply wp_lift_bind; [intros ? [= <-]|done|done]. cbn zeta. rewrite join_absolute.
  assert (exists n, at_ root (ns ++ [x]) = Some n) as [n Hn].
  { revert Hactual. unfold digest_tree, digest_file.
    destruct (metadata cwd root (absolute (ns ++ [x]))) as [n|] eqn:Hm; [|done].
    intros _. exists n. by eapply metadata_linkless. }
  pose proof (at_above _ _ _ _ Hn) as Hdir.
  eapply wp_seq; [apply (wp_create_dir_all cwd (fun r1 => agrees_outside [ns ++ [trash_name]] root r1 /\ dir_at r1 ns = true))
    | |done|done]; [done|done| |].
  - intros p z r1 r2 Hp [Ha Hd] Hnone Hput. destruct (decide (p ++ [z] `prefix_of` ns)) as [[s Hs]|Hnp].
    { exfalso. rewrite Hs in Hd. apply dir_prefix in Hd. unfold dir_at in Hd. by rewrite Hnone in Hd. }
    apply prefix_snoc_inv in Hp as [Heq|]; [|done].
    split.
    + etrans; [exact Ha|]. apply (put_agrees _ (ns ++ [trash_name]) [] (Dir [])); [by left|]. by rewrite app_nil_r, <- Heq.
    + apply dir_view. rewrite (view_put _ _ _ _ _ Hput) by done. by apply dir_view.
  - intros [] root1 ([[Ha Hd] Hl] & _ & _). do 2 wp_step. rewrite join_absolute.
    set (token := pretty _ +:+ "_" +:+ _).
    eapply (wp_seq _ _ _ (fun o root2 => match o with Ok _ => trashed token root2 | Err _ => True | Panic => False end));
      [|intros [] root2 Ht; apply wp_ret; exists token; split; [exact Ht|]|done|done].
    + apply wp_call; [|done]. intros root2 Hren.
      assert (linkless root1 (ns ++ [trash_name])) as Hl1 by by eapply linkless_kept.
      assert (linkless root1 ns) as Hl2 by (eapply linkless_prefix; [exact Hl1|by eexists]).
      apply (rename_at _ _ _ _ _ _ _ Hl2 Hl1) in Hren as (m & Hm & [[Heq _]|(Hpre & root3 & Hcut & Hput)]).
      { apply (f_equal length) in Heq. rewrite !length_app in Heq. simpl in Heq. lia. }
      rewrite <- app_assoc in Hput, Hpre. eapply trashed_by_rename; [|done..]. by eexists.
    + cbn. by rewrite <- app_assoc.
Qed.

Lemma restore_run params token root1 w :
  trashed token root1 ->
  checked_path (fs := mounted cwd root1) r auth params "path" false None = Ok (absolute (ns ++ [x])) ->
  checked_path (fs := mounted cwd root1) r auth params "restoreToken" true None = Ok (absolute (ns ++ [trash_name; token])) ->
  io_ok w (io_at w) = true ->
  exists root2,
    fs_restore params root1 w =
      (Ok (json_object [("path", path_value (absolute (ns ++ [x]))); ("restored", VBool true)]), root2, io_tick w) /\
    forall q, ~ (ns ++ [trash_name]) `prefix_of` q -> view root2 q = view root q.
Proof.
  intros [[n Hwas] Hgone Hkept Hrest] Hp Ht Hio.
  assert (view root1 ns = view root ns) as Hns.
  { apply Hrest; intros [s Hs]; apply (f_equal length) in Hs; rewrite !length_app in Hs; simpl in Hs; lia. }
  assert (dir_at root1 ns = true) as Hdir by (apply dir_view; rewrite Hns; apply dir_view; by eapply at_above).
  assert (at_ root1 (ns ++ [x]) = None) as Hnone by (unfold view in Hgone; by destruct (at_ root1 (ns ++ [x]))).
  assert (exists m, at_ root1 ((ns ++ [trash_name]) ++ [token]) = Some m) as [m Hm].
  { specialize (Hkept []). rewrite !app_nil_r in Hkept. rewrite <- app_assoc. simpl. unfold view in Hkept.
    rewrite Hwas in Hkept. destruct (at_ root1 _) as [m|]; [by exists m|done]. }
  destruct (rename_free cwd root1 (ns ++ [trash_name]) token ns x m Hm Hdir Hnone) as (root3 & root2 & Hcut & Hput & Hren).
  { intros [s Hs]. apply (f_equal length) in Hs. rewrite !length_app in Hs. simpl in Hs. lia. }
  exists root2. split.
  - unfold fs_restore, path_param, mbind, M_bind, get, lift. rewrite Hp, Ht.
    rewrite <- (app_assoc ns [trash_name] [token]) in Hren. change (ns ++ [trash_name] ++ [token]) with (ns ++ [trash_name; token]) in Hren.
    unfold guard. rewrite bool_decide_eq_true_2.
    2:{ change [trash_name; token] with ([trash_name] ++ [token]). rewrite app_assoc, parent_absolute. simpl.
        unfold file_name, absolute. rewrite fmap_app. simpl. by rewrite app_comm_cons, last_snoc. }
    simpl. rewrite metadata_plain, Hnone by (apply plain_snoc; [intros p y s ->; by eapply dir_prefix|done|by rewrite Hnone]).
    rewrite bool_decide_eq_false_2 by by intros [? ?]. simpl. unfold call, mbind, M_bind.
    rewrite attempt_run, Hio, Hren. done.
  - intros q Hq. destruct (decide ((ns ++ [x]) `prefix_of` q)) as [[s ->]|Hnq].
    + rewrite (view_app _ _ _ _ (at_put _ _ _ _ Hput)). rewrite <- (view_app _ _ _ _ Hm), <- !app_assoc.
      apply (Hkept s).
    + rewrite (view_put _ _ _ _ _ Hput), (view_cut _ _ _ _ Hcut) by
        (done || (intros [s ->]; apply Hq; exists ([token] ++ s); by rewrite !app_assoc)).
      by apply Hrest.
Qed.
End removing.

(** What was removed can be put back.  A removal that succeeds answers with a
    token; the path is then free and all that was below it is below the token.  A
    restore with this token, whose own calls go through, leaves a disk that differs
    from the one before the removal in the trash directory only. *)
Theorem remove_then_restore params root w v root1 w1 p above :
  Forall canonical_path (allowed_roots r) ->
  checked_path (fs := mounted cwd root) r auth params "path" true None = Ok p -> p ∉ allowed_roots r ->
  free_way root p -> parent p = Some above ->
  fs_remove params root w = (Ok v, root1, w1) ->
  exists name, let token := join (join above trash_name) name in
    vindex v "restoreToken" = path_value token /\ view root1 (names_of p) = None /\
    (forall s, view root1 (names_of token ++ s) = view root (names_of p ++ s)) /\
    forall params' w',
      checked_path (fs := mounted cwd root1) r auth params' "path" false None = Ok p ->
      checked_path (fs := mounted cwd root1) r auth params' "restoreToken" true None = Ok token ->
      io_ok w' (io_at w') = true ->
      is_ok (fs_restore params' root1 w').1.1 = true /\
      forall q, ~ names_of (join above trash_name) `prefix_of` q ->
        view (fs_restore params' root1 w').1.2 q = view root q.
Proof.
  intros Hroots Hc Hnot Hway Habove Hrun.
  destruct (checked_below _ _ _ _ _ Hroots Hc Hnot) as (R & ns & x & _ & _ & ->).
  rewrite parent_absolute in Habove. injection Habove as <-. destruct Hway as [H1 _ H3].
  specialize (H3 _ (parent_absolute ns x)). rewrite join_absolute, names_absolute in *.
  pose proof (wp_remove ns x root H1 H3 params Hc w) as Hw. rewrite Hrun in Hw. cbn [fst snd] in Hw.
  destruct Hw as (token & Htr & Hv).
  exists token. cbn zeta. rewrite join_absolute, <- app_assoc, names_absolute. split_and!; [done|apply Htr| |].
  - intros s. rewrite <- !app_assoc. apply Htr.
  - intros params' w' Hp' Ht' Hio.
    destruct (restore_run _ _ _ H1 H3 params' _ _ w' Htr Hp' Ht' Hio) as (root2 & -> & Hq).
    rewrite names_absolute. by split.
Qed.


(** ** A search finds the first matches *)

Section searching.
Variables (query : string) (max : nat).

(** All matches in the order of the search. *)
Fixpoint lines_found (p : path) (i : Z) (lines : list string) : list found :=
  match lines with
  | [] => []
  | line :: lines' =>
      (if Str.contains query line then [Found p (i + 1) line] else []) ++ lines_found p (i + 1) lines'
  end.
Fixpoint hits (p : path) (n : node) : list found :=
  match n with
  | Dir es => concat (snd <$> by_name ((fun e => (e.1, hits (join p e.1) e.2)) <$> es))
  | File content =>
      if Str.len content <=? search_limit then lines_found p 0 (Text8.lines (Text8.from_utf8_lossy content)) else []
  | _ => []
  end.
Fixpoint depth (n : node) : nat :=
  match n with Dir es => S (max_list ((fun e => depth e.2) <$> es)) | _ => O end.

Lemma elem_of_by_name {A} (es : list (string * A)) e : e ∈ by_name es <-> e ∈ es.
Proof. unfold by_name. by rewrite merge_sort_Permutation. Qed.
Lemma depth_children es fuel : (depth (Dir es) <= S fuel)%nat -> Forall (fun e => depth e.2 <= fuel)%nat (by_name es).
Proof.
  change (S (max_list ((fun e => depth e.2) <$> es)) <= S fuel -> Forall (fun e => depth e.2 <= fuel) (by_name es))%nat.
  intros Hd. apply Forall_forall. intros e He. rewrite elem_of_by_name in He.
  apply (list_elem_of_fmap_2 (fun e => depth e.2)), max_list_elem_of_le in He. lia.
Qed.
Lemma by_name_fmap {A B} (g : string * A -> B) es :
  by_name ((fun e => (e.1, g e)) <$> es) = (fun e => (e.1, g e)) <$> by_name es.
Proof. unfold by_name. apply merge_sort_fmap. intros [] []. done. Qed.
Lemma hits_dir p es : hits p (Dir es) = concat ((fun e => hits (join p e.1) e.2) <$> by_name es).
Proof. cbn [hits]. by rewrite (by_name_fmap (fun e => hits (join p e.1) e.2)), <- list_fmap_compose. Qed.

Lemma take_full {A} (l k : list A) : length l = max -> take max (l ++ k) = l.
Proof. intros <-. apply take_app_length. Qed.

Lemma leb_take {A} k (l : list A) : Nat.leb k (length (take k l)) = Nat.leb k (length l).
Proof. rewrite length_take. apply eq_true_iff_eq. rewrite !Nat.leb_le. lia. Qed.

Lemma search_lines_spec p i lines matches :
  (length matches < max)%nat ->
  search_lines p query max i lines matches = take max (matches ++ lines_found p i lines).
Proof.
  revert i matches. induction lines as [|line lines IH]; intros i matches Hlt; simpl.
  { rewrite app_nil_r, take_ge; [done|lia]. }
  destruct (Str.contains query line); simpl; [|by apply IH].
  rewrite length_app, (cons_middle _ matches (lines_found p (i + 1) lines)), app_assoc. simpl.
  destruct (Nat.leb_spec max (length matches + 1)).
  - rewrite take_full; [done|]. rewrite length_app. simpl. lia.
  - apply IH. rewrite length_app. simpl. lia.
Qed.

Lemma search_tree_spec fuel p n matches :
  (depth n <= fuel)%nat -> (length matches <= max)%nat ->
  search_tree fuel query max p n matches = Ok (take max (matches ++ hits p n)).
Proof.
  revert p n matches. induction fuel as [|fuel IH]; intros p n matches Hd Hlen; destruct n as [c|es|t|];
    cbn [search_tree]; (destruct (Nat.leb_spec max (length matches)) as [Hge|Hlt];
      [rewrite take_full; [done|lia]|]); try (by simpl in Hd; lia);
    try (simpl; case_match; [by rewrite search_lines_spec|rewrite app_nil_r, take_ge; [done|lia]]);
    try (simpl; rewrite app_nil_r, take_ge; [done|lia]).
  clear Hlt. rewrite hits_dir. pose proof (depth_children _ _ Hd) as Hes.
  clear Hd. revert matches Hlen. induction (by_name es) as [|e l IHl]; intros matches Hlen.
  { simpl. rewrite app_nil_r, take_ge; [done|lia]. }
  apply Forall_cons in Hes as [He Hl]. rewrite (IH _ _ _ He Hlen). simpl. rewrite length_take.
  destruct (Nat.leb_spec max (max `min` length (matches ++ hits (join p e.1) e.2))) as [Hge|Hlt].
  - rewrite app_assoc, (take_app_le (matches ++ hits (join p e.1) e.2)); [done|lia].
  - rewrite (take_ge (matches ++ hits (join p e.1) e.2)) by lia. rewrite IHl, <- app_assoc; [done|done|lia].
Qed.
End searching.

(** C27. On a disk where nobody has planted links, a write, patch, removal,
    restore or new directory changes nothing outside the allowed roots, whether it
    succeeds or fails at any call.  That is: the roots are directories, the paths
    that the request names are no roots themselves (one that is let through is
    then below a root), and no link, dangling ones included, stands at such a
    path, at its temporary file, at the trash beside it, or on the way to one of
    them.  Without the second or the third of these it does not hold
    ([removing_a_root_leaves_the_roots], [planted_link_redirects_a_write]). *)
Theorem changes_stay_in_roots m params root w :
  m ∈ [fs_write; fs_patch; fs_remove; fs_restore; fs_mkdir] ->
  Forall canonical_path (allowed_roots r) ->
  (forall R, R ∈ allowed_roots r -> dir_at root (names_of R) = true) ->
  (forall key must_exist p,
     key ∈ ["path"; "restoreToken"] -> checked_path (fs := mounted cwd root) r auth params key must_exist None = Ok p ->
     (p ∉ allowed_roots r) /\ free_way root p) ->
  agrees_outside places root (m params root w).1.2.
Proof.
  intros Hm Hroots Hdirs Hways. revert w. change (from (agrees_outside places root) root (m params)).
  repeat (apply elem_of_cons in Hm as [->|Hm]); [by apply stay_write|by apply stay_patch|by apply stay_remove|
    by apply stay_restore|by apply stay_mkdir|by apply not_elem_of_nil in Hm].
Qed.

(** A search answers with the first matches.  For a tree that is not deeper
    than the fuel the answer lists, in the order of the tree with the entries of a
    directory sorted by name, the first [maxResults] lines that hold the query,
    none left out and none twice, and says whether there may be more; the disk is
    as it was. *)
Theorem search_finds_the_first_matches fuel params root w p query n :
  checked_path (fs := mounted cwd root) r auth params "path" true (Some "filesystem.search") = Ok p ->
  required_str params "query" = Ok query -> symlink_metadata cwd root p = Some n -> (depth n <= fuel)%nat ->
  let max := Z.to_nat (default 200 (u64_param params "maxResults")) in
  fs_search fuel params root w =
    (Ok (json_object [("path", path_value p); ("query", VString query);
                      ("matches", VArray (found_value <$> take max (hits query p n)));
                      ("truncated", VBool (Nat.leb max (length (hits query p n))))]), root, w).
Proof.
  intros Hc Hq Hn Hd max. unfold fs_search, read_path, mbind, M_bind, get, lift. cbn beta iota.
  rewrite Hc, Hq. cbn beta iota. rewrite Hn. cbn [ok_or]. fold max.
  rewrite search_tree_spec by (done || simpl; lia). cbn [app]. unfold mret, M_ret. do 2 f_equal.
  by rewrite leb_take.
Qed.

(** ** Answers and contracts *)

Definition file_capabilities (fuel : nat) : list (string * (Value -> handler Value)) := [
  ("filesystem.stat", fs_stat); ("filesystem.resolve", fs_resolve); ("filesystem.read", fs_read);
  ("filesystem.list", fs_list); ("filesystem.search", fs_search fuel); ("filesystem.write", fs_write);
  ("filesystem.patch", fs_patch); ("filesystem.remove", fs_remove); ("filesystem.restore", fs_restore);
  ("filesystem.mkdir", fs_mkdir)].

Lemma integer_matches n : value_matches_type (VNumber (PosInt n)) "integer" = true.
Proof.
  change (match as_i64 (VNumber (PosInt n)) with
          | Some _ => true
          | None => match as_u64 (VNumber (PosInt n)) with Some _ => true | None => false end
          end = true).
  by case_match.
Qed.

(** The check looks at the kind of each field only. *)
Ltac abstract_fields :=
  unfold path_value, vnat;
  repeat match goal with
         | |- context [VString ?s] => first [is_var s; fail 1|generalize s; intros ?]
         | |- context [VNumber (PosInt ?n)] => first [is_var n; fail 1|generalize n; intros ?]
         | |- context [VBool ?b] => first [is_var b; fail 1|is_constructor b; fail 1|generalize b; intros ?]
         | |- context [VArray ?l] => first [is_var l; fail 1|generalize l; intros ?]
         end.
Ltac conforms os := abstract_fields; destruct os; lazy -[value_matches_type]; rewrite ?integer_matches; vm_compute; done.

(** C28. What a file capability answers has the type its contract declares: on
    every platform the answer passes the check of the output schema in the
    catalog. *)
Theorem answers_match_contracts `{!Text} os fuel name m params root w v path :
  (name, m) ∈ file_capabilities fuel -> (m params root w).1.1 = Ok v ->
  validate_schema (Catalog.output_schema os name) v path = Ok tt.
Proof.
  intros Hin. revert root w v.
  change (answers (fun v => validate_schema (Catalog.output_schema os name) v path = Ok tt) (m params)).
  repeat (apply elem_of_cons in Hin as [[= -> ->]|Hin]); [..|by apply not_elem_of_nil in Hin].
  2-10: unfold fs_resolve, fs_read, fs_list, fs_search, fs_write, fs_patch, fs_remove, fs_restore, fs_mkdir, publish;
    repeat answer_step; conforms os.
  unfold fs_stat. do 3 (apply answers_bind; intros ?).
  eapply (answers_bind_with (fun d => d = VNull \/ exists s, d = VString s)).
  - repeat answer_step; [right; by eexists|by left].
  - intros d [->|[s ->]]; repeat answer_step; conforms os.
Qed.
End files.

(** ** A small disk *)

#[local] Instance plain_hash : Sha256 := fun s => s.
#[local] Instance no_base64 : Base64 := {| encode s := s; decode _ := None |}.

Definition small_disk : node :=
  Dir [("work", Dir [("a.txt", File "old"); ("b", Dir [("c.txt", File ("one needle" +:+ Str.of_codes [10%nat] +:+ "two"))])]);
       ("etc", Dir [("passwd", File "root")])].
Definition work_only : roots := Roots [absolute ["work"]] [].
Definition nobody : Fences.host := Fences.open "e" Catalog.Linux None.
Definition on_path (fields : list (string * Value)) (p : string) : Value := json_object (("path", VString p) :: fields).
Definition no_len (n : node) : Z := 0.
Definition free_wayb (root : node) (p : path) : bool :=
  no_links root (names_of p) && no_links root (names_of (temporary 7 p)) &&
  match parent p with Some above => no_links root (names_of (join above trash_name)) | None => true end.

Lemma free_wayb_free root p : free_wayb root p = true -> free_way 7 root p.
Proof.
  intros [[H1 H2]%andb_true_iff H3]%andb_true_iff. split; [by apply no_links_linkless..|].
  intros above Ha. rewrite Ha in H3. by apply no_links_linkless.
Qed.
Lemma work_canonical : Forall canonical_path (allowed_roots work_only).
Proof. repeat constructor. by exists ["work"]. Qed.

Definition write_a (fields : list (string * Value)) : Value := on_path (("content", VString "new") :: fields) "/work/a.txt".
Definition run_write (root : node) (params : Value) : outcome RpcError.t Value * node :=
  (fs_write work_only nobody [] 7 params root (sample_world (fun _ => true))).1.

Example write_replaces :
  (run_write small_disk (write_a [("expectedDigest", VString "sha256:old")])).2 =
    Dir [("work", Dir [("a.txt", File "new"); ("b", Dir [("c.txt", File ("one needle" +:+ Str.of_codes [10%nat] +:+ "two"))])]);
         ("etc", Dir [("passwd", File "root")])].
Proof. vm_compute. reflexivity. Qed.

(** What the request of a sample checks, for any field and either kind of check. *)
Lemma write_a_checked key must_exist p :
  checked_path (fs := mounted [] small_disk) work_only nobody (write_a []) key must_exist None = Ok p ->
  p = absolute ["work"; "a.txt"].
Proof.
  unfold checked_path. destruct (str_param (write_a []) key) as [raw|] eqn:Hkey; [|done].
  assert (raw = "new" \/ raw = "/work/a.txt") as [-> | ->].
  { revert Hkey. unfold str_param, vget, write_a, on_path, json_object. simpl.
    repeat case_decide; intros [= <-]; auto. }
  - destruct must_exist; vm_compute; congruence.
  - destruct must_exist; vm_compute; congruence.
Qed.

Example empty_patterns_match_at_borders :
  count_matches "" "" = 1%nat /\ count_matches "" "ab" = 3%nat /\ count_matches "aa" "aaaaa" = 2%nat.
Proof. done. Qed.

Lemma changes_stay_in_roots_witness :
  agrees_outside (places work_only) small_disk (run_write small_disk (write_a [])).2.
Proof.
  apply (changes_stay_in_roots work_only nobody [] 7 (fs_write work_only nobody [] 7) (write_a []) small_disk
           (sample_world (fun _ => true))); [left|exact work_canonical| |].
  - intros R [->|[]%not_elem_of_nil]%elem_of_cons. reflexivity.
  - intros key must_exist p _ ->%write_a_checked. split; [vm_compute; intros Hp|apply free_wayb_free; vm_compute; reflexivity].
    by apply elem_of_cons in Hp as [Hp|[]%not_elem_of_nil].
Defined.

Lemma write_is_atomic_witness :
  view (run_write small_disk (write_a [])).2 ["work"; "a.txt"] = Some (IsFile "new").
Proof.
  pose proof (write_is_atomic work_only nobody [] 7 (write_a []) small_disk (absolute ["work"; "a.txt"])
    work_canonical ltac:(vm_compute; reflexivity) ltac:(by intros [|[]%not_elem_of_nil]%elem_of_cons)
    ltac:(apply free_wayb_free; vm_compute; reflexivity) (sample_world (fun _ => true))) as H.
  destruct (is_ok (run_write small_disk (write_a [])).1) eqn:Hok; [|vm_compute in Hok; done].
  unfold run_write in *. destruct ((fs_write work_only nobody [] 7 (write_a []) small_disk (sample_world (fun _ => true))).1.1); [|done..].
  destruct H as (bytes & Hb & Hv & _). injection Hb as <-. exact Hv.
Defined.

Definition remove_b : Value :=
  on_path [("expectedDigest", VString (digest_node (Dir [("c.txt", File ("one needle" +:+ Str.of_codes [10%nat] +:+ "two"))])).1.1)] "/work/b".
Definition removed := fs_remove work_only nobody [] remove_b small_disk (sample_world (fun _ => true)).
Definition restore_b : Value :=
  on_path [("restoreToken", VString "/work/.workbench-trash/1000_u0")] "/work/b".
Definition restored := fs_restore work_only nobody [] restore_b removed.1.2 (sample_world (fun _ => true)).

Lemma remove_then_restore_witness :
  view restored.1.2 ["work"; "b"; "c.txt"] = view small_disk ["work"; "b"; "c.txt"].
Proof.
  destruct (remove_then_restore work_only nobody [] 7 remove_b small_disk (sample_world (fun _ => true))
    (default VNull (match removed.1.1 with Ok v => Some v | _ => None end)) removed.1.2 removed.2
    (absolute ["work"; "b"]) (absolute ["work"]) work_canonical ltac:(vm_compute; reflexivity)
    ltac:(by intros [|[]%not_elem_of_nil]%elem_of_cons) ltac:(apply free_wayb_free; vm_compute; reflexivity)
    ltac:(reflexivity) ltac:(vm_compute; reflexivity)) as (name & Htoken & _ & _ & Hrestore).
  vm_compute in Htoken. injection Htoken as <-.
  refine (proj2 (Hrestore restore_b (sample_world (fun _ => true)) ltac:(vm_compute; reflexivity) ltac:(vm_compute; reflexivity)
    ltac:(reflexivity)) ["work"; "b"; "c.txt"] _).
  by intros [s Hs].
Defined.

Definition search_need : Value := on_path [("query", VString "need"); ("maxResults", vnat 5)] "/work".
Lemma search_finds_the_first_matches_witness :
  fs_search work_only nobody [] 3 search_need small_disk
    (sample_world (fun _ => true)) =
  (Ok (json_object [("path", VString "/work"); ("query", VString "need");
        ("matches", VArray [json_object [("path", VString "/work/b/c.txt"); ("line", vnat 1); ("text", VString "one needle")]]);
        ("truncated", VBool false)]), small_disk, sample_world (fun _ => true)).
Proof.
  exact (search_finds_the_first_matches work_only nobody [] 3 search_need small_disk (sample_world (fun _ => true))
    (absolute ["work"]) "need" (default Special (at_ small_disk ["work"])) ltac:(vm_compute; reflexivity) ltac:(reflexivity) ltac:(vm_compute; reflexivity)
    ltac:(vm_compute; repeat constructor)).
Defined.

Lemma answers_match_contracts_witness :
  validate_schema (H := plain_text) (Catalog.output_schema Catalog.Linux "filesystem.mkdir")
    (json_object [("path", VString "/work/d"); ("created", VBool true)]) "output" = Ok tt.
Proof.
  apply (answers_match_contracts (H1 := plain_text) work_only nobody [] 7 no_len Catalog.Linux 3 "filesystem.mkdir"
    (fs_mkdir work_only nobody []) (on_path [] "/work/d") small_disk (sample_world (fun _ => true))).
  - repeat (left; reflexivity) || right. 
  - vm_compute. reflexivity.
Defined.

(** ** Where the code is weak *)

(** [filesystem.remove] of an allowed root moves it to a trash outside the roots. *)
Example removing_a_root_leaves_the_roots :
  let after := (fs_remove work_only nobody []
    (on_path [("expectedDigest", VString (default "" ((fun n => (digest_node n).1.1) <$> at_ small_disk ["work"])))] "/work")
    small_disk (sample_world (fun _ => true))).1.2 in
  view small_disk [".workbench-trash"] = None /\ view after [".workbench-trash"] = Some IsDir /\
  is_Some (view after [".workbench-trash"; "1000_u0"; "a.txt"]).
Proof. vm_compute. split_and!; [done..|by eexists]. Qed.

(** A link at the predictable temporary name takes a write out of the roots. *)
Definition planted_disk : node :=
  Dir [("work", Dir [("a.txt", File "old"); ("a.workbench.7.tmp", Link "/etc/passwd")]); ("etc", Dir [("passwd", File "root")])].
Example planted_link_redirects_a_write :
  view (run_write planted_disk (write_a [])).2 ["etc"; "passwd"] = Some (IsFile "new").
Proof. vm_compute. reflexivity. Qed.

(** Two writes to names that differ in their extension only share the temporary
    file: one answers with the content of the other, which fails. *)
Definition two_writes : handler Value :=
  let a := absolute ["work"; "a.txt"] in
  let b := absolute ["work"; "a.md"] in
  _ ← stage [] 7 "FS_WRITE_FAILED" a "for a"; _ ← stage [] 7 "FS_WRITE_FAILED" b "for b";
  _ ← publish [] 7 "FS_WRITE_FAILED" a; publish [] 7 "FS_WRITE_FAILED" b.
Example shared_temporary_mixes_writes :
  is_ok (two_writes small_disk (sample_world (fun _ => true))).1.1 = false /\
  view (two_writes small_disk (sample_world (fun _ => true))).1.2 ["work"; "a.txt"] = Some (IsFile "for b").
Proof. by vm_compute. Qed.

(** The digest of a tree joins names and contents without escaping. *)
Example tree_digest_is_ambiguous :
  digest_node (Dir [("a", File ("X" +:+ NUL +:+ "b" +:+ NUL +:+ "Y"))]) <> digest_node (Dir [("a", File "X"); ("b", File "Y")]) /\
  (digest_node (Dir [("a", File ("X" +:+ NUL +:+ "b" +:+ NUL +:+ "Y"))])).1.1 =
  (digest_node (Dir [("a", File "X"); ("b", File "Y")])).1.1.
Proof. split; [vm_compute; congruence|by vm_compute]. Qed.

(** Without a limit [filesystem.read] answers with the whole file, whatever the
    offset it reports. *)
Example read_ignores_a_bare_offset :
  match (fs_read work_only nobody [] no_len (on_path [("offset", vnat 2)] "/work/a.txt") small_disk
           (sample_world (fun _ => true))).1.1 with
  | Ok v => vget v "content" = Some (VString "old") /\ vget v "offset" = Some (vnat 2)
  | _ => False
  end.
Proof. by vm_compute. Qed.

(** The names [filesystem.list] answers with are no strings, so its sort by
    [as_str] leaves the order of the directory. *)
Example list_does_not_sort :
  match (fs_list work_only nobody [] no_len (on_path [] "/work")
           (Dir [("work", Dir [("b", File ""); ("a", File "")])]) (sample_world (fun _ => true))).1.1 with
  | Ok v => (fun e => vindex e "path") <$> default [] (vget v "entries" ≫= as_array) = [VString "/work/b"; VString "/work/a"]
  | _ => False
  end.
Proof. by vm_compute. Qed.

End Files.
