(* ===== verification/Artifacts.v ===== *)
(** * Artifacts at the executor ([crates/workbench-runtime/src/executor.rs])

    The [artifact.describe] and [artifact.relay.*] arms of [dispatch] over a
    [Disk]: an artifact is described, copied on one machine, or packed into an
    archive that travels in chunks and is unpacked and put in place at its
    destination. *)

From Stdlib Require Import Ascii String.
From S2P Require Import Prelude RustStd RustText Json Protocol Schema Leases Contracts.
From S2P Require Import Controller Catalog Samples Arbitration Enforcement Confinement Commands Disk Copies Files.

Module Artifacts.
Import FsPath Confinement Commands Disk Copies Files.

(** The [tar] and [flate2] crates: the archive of some entries, what reading an
    archive yields (an entry or an error, in order), and [Entry::unpack_in], which
    answers whether it has unpacked the entry. *)
Inductive entry_kind := RegularEntry | DirectoryEntry | OtherEntry.
#[global] Instance entry_kind_eq_dec : EqDecision entry_kind.
Proof. solve_decision. Defined.
Record archive_entry := ArchiveEntry {
  entry_kind_of : entry_kind;
  entry_path : string;
  entry_size : Z;
  entry_content : string;
}.
Class Archive := {
  archived : list archive_entry -> string;
  entries_of : string -> list (option archive_entry);
  unpack_in : archive_entry -> path -> M node unit bool;
}.

Definition TRANSFER_FAILED : string := "ARTIFACT_TRANSFER_FAILED".
Definition READ_FAILED : string := "ARTIFACT_READ_FAILED".
Definition invalid_artifact (message : string) : RpcError.t := RpcError.new "INVALID_ARTIFACT" message.
Definition digest_mismatch (message : string) : RpcError.t := RpcError.new "ARTIFACT_DIGEST_MISMATCH" message.

(** [safe_relative]: a path of names only. *)
Definition safe_relative (value : string) : outcome RpcError.t path :=
  if Str.is_empty value || FsPath.is_absolute value || negb (forallb is_normal (components value))
  then Err (RpcError.new "INVALID_ARTIFACT_PATH" ("unsafe relative path: " +:+ value))
  else Ok (components value).

Definition is_hex_digit (c : ascii) : bool :=
  let n := nat_of_ascii c in Text8.between 48 57 n || Text8.between 65 70 n || Text8.between 97 102 n.
Definition relay_archive_path (root : path) (token : string) : outcome RpcError.t path :=
  if negb (Str.len token =? 32) || negb (Str.all is_hex_digit token)
  then Err (RpcError.new "INVALID_ARTIFACT_TOKEN" "archive relay token must be 32 hexadecimal characters")
  else Ok (join root (token +:+ ".tar.gz")).

Section artifacts.
Context `{!Sha256, !Base64, !Archive}.
Variables (r : roots) (auth : Fences.host) (cwd : list string) (process_id : Z) (other_len : node -> Z).
(** The executor's [id] and [relay_root]. *)
Variables (id : string) (relay_root : path).

Abbreviation path_param := (path_param r auth cwd).
Abbreviation digest_file := (digest_file cwd).
Abbreviation digest_tree := (digest_tree cwd).
Abbreviation exists_on := (exists_on cwd).
Abbreviation dir_on := (dir_on cwd).

(** ** Describing *)

Definition measure_file (root : node) (p : path) : outcome RpcError.t (string * Z * Z) :=
  d ← digest_file root p;
  n ← ok_or (io_error READ_FAILED (display p)) (metadata cwd root p);
  Ok (d, len other_len n, 1).

Definition artifact_describe (params : Value) : handler Value :=
  p ← path_param params "path" true;
  root ← get;
  n ← lift (ok_or (io_error READ_FAILED (display p)) (metadata cwd root p));
  measured ← lift
    (if is_file n then m ← measure_file root p; Ok (m, "file")
     else if is_dir n then m ← digest_tree root p; Ok (m, "directory")
     else Err (invalid_artifact "artifact must be a file or directory"));
  let '((digest, size, files), kind) := measured in
  mret (json_object [("digest", VString digest); ("size", vnat size); ("files", vnat files); ("kind", VString kind);
                     ("path", path_value p); ("executorId", VString id)]).

(** What [relay_manifest] lists below a directory: directories and files, the
    entries of each in the order of their names. *)
Definition manifest_entry (rel : list string) (n : node) : Value :=
  match n with
  | Dir _ => json_object [("path", VString (portable rel)); ("kind", VString "directory")]
  | _ => json_object [("path", VString (portable rel)); ("kind", VString "file"); ("size", vnat (len other_len n))]
  end.
Definition unsupported (word : string) (p : path) : RpcError.t :=
  invalid_artifact (word +:+ " does not support symlinks or special files: " +:+ display p).
Fixpoint manifest (source : path) (rel : list string) (n : node) : outcome RpcError.t (list (list string * node)) :=
  match n with
  | Dir es =>
      foldr (fun child rest => l ← child; l' ← rest; Ok (l ++ l')) (Ok [])
        (snd <$> by_name ((fun e =>
           (e.1, match e.2 with
                 | Dir _ => l ← manifest source (rel ++ [e.1]) e.2; Ok ((rel ++ [e.1], e.2) :: l)
                 | File _ => Ok [(rel ++ [e.1], e.2)]
                 | _ => Err (unsupported "relay" (source ++ (Normal <$> (rel ++ [e.1]))))
                 end)) <$> es))
  | _ => Ok []
  end.
Definition relay_manifest_of (root : node) (source : path) : outcome RpcError.t (list (list string * node)) :=
  match metadata cwd root source with
  | Some (Dir es) => manifest source [] (Dir es)
  | _ => Err (io_error READ_FAILED (display source))
  end.

Definition relay_manifest (params : Value) : handler Value :=
  source ← path_param params "path" true;
  root ← get;
  entries ← lift (relay_manifest_of root source);
  measured ← lift (digest_tree root source);
  let '(digest, size, files) := measured in
  mret (json_object [("path", path_value source); ("entries", VArray ((fun e => manifest_entry e.1 e.2) <$> entries));
                     ("digest", VString digest); ("size", vnat size); ("files", vnat files)]).

(** ** Files that the relay opens *)

(** [fs::remove_dir_all] or [fs::remove_file], by what is there. *)
Definition remove_any (p : path) : handler unit :=
  root ← get;
  if dir_on root p then remove_dir_all cwd TRANSFER_FAILED p else call TRANSFER_FAILED p (unlink cwd p).

Definition copy_file (source target : path) : handler unit := fs_copy cwd TRANSFER_FAILED source source target.

(** [open], [seek] and one [read]. *)
Definition read_at (root : node) (p : path) (offset limit : Z) : outcome RpcError.t string :=
  ok_or (io_error READ_FAILED (display p))
    (match metadata cwd root p with Some (File content) => read_chunk content offset limit | _ => None end).
(** [open] for writing, [seek] and [write_all]. *)
Definition write_chunk (p : path) (offset : Z) (bytes : string) : handler unit :=
  root ← get;
  _ ← guard (from_option is_file false (metadata cwd root p) && (offset <=? 2 ^ 63 - 1)) (io_error TRANSFER_FAILED (display p));
  if Str.is_empty bytes then mret tt else call TRANSFER_FAILED p (write_at cwd p (Z.to_nat offset) bytes).

Definition required_u64 (params : Value) (key : string) : outcome RpcError.t Z :=
  ok_or (invalid_params (key +:+ " is required")) (u64_param params key).
Definition chunk_data (params : Value) : outcome RpcError.t string :=
  data ← required_str params "data"; ok_or (invalid_params "invalid base64") (decode data).

(** ** Moving an artifact into place *)

Definition backup_path (destination : path) (uuid : string) : path :=
  with_extension destination ("workbench-backup-" +:+ uuid).

(** The way both commits go, with what removes the backup. *)
Definition swap_in (remove_backup : path -> handler unit) (destination staging : path) : handler unit :=
  uuid ← fresh_uuid;
  let backup := backup_path destination uuid in
  root ← get;
  _ ← (if exists_on root destination then call TRANSFER_FAILED destination (rename cwd destination backup) else mret tt);
  moved ← attempt (rename cwd staging destination);
  if (moved : bool) then
    root ← get; if exists_on root backup then remove_backup backup else mret tt
  else
    root ← get;
    _ ← (if exists_on root backup then _ ← attempt (rename cwd backup destination); mret tt else mret tt);
    throw (io_error TRANSFER_FAILED (display destination)).

Definition commit_relay_staging (destination staging : path) : handler unit := swap_in remove_any destination staging.

(** The loop over the children; [deeper] copies a directory. *)
Fixpoint copy_children (deeper : path -> path -> handler unit) (source staging : path) (children : list (string * node)) :
    handler unit :=
  match children with
  | [] => mret tt
  | e :: children' =>
      let source_child := join source e.1 in
      let destination_child := join staging e.1 in
      root ← get;
      n ← lift (ok_or (io_error READ_FAILED (display source_child)) (symlink_metadata cwd root source_child));
      _ ← match n with
          | Dir _ => deeper source_child destination_child
          | File _ => copy_file source_child destination_child
          | _ => throw (unsupported "local copy" source_child)
          end;
      copy_children deeper source staging children'
  end.
(** [fuel] bounds the depth of the source. *)
Fixpoint copy_relay_tree (fuel : nat) (source staging : path) : handler unit :=
  _ ← create_dir_all cwd TRANSFER_FAILED staging;
  root ← get;
  children ← match metadata cwd root source with
             | Some (Dir es) => mret (by_name es)
             | _ => throw (io_error READ_FAILED (display source))
             end;
  copy_children (match fuel with S fuel' => copy_relay_tree fuel' | O => fun _ _ => lift Panic end) source staging children.

Definition measure (kind : string) (root : node) (p : path) : outcome RpcError.t (string * Z * Z) :=
  if decide (kind = "file") then measure_file root p else digest_tree root p.

(** What one path is copied to another by. *)
Definition copy_artifact (fuel : nat) (kind : string) (source staging : path) : handler unit :=
  if decide (kind = "file") then
    _ ← match parent staging with Some above => create_dir_all cwd TRANSFER_FAILED above | None => mret tt end;
    copy_file source staging
  else copy_relay_tree fuel source staging.

Definition relay_local_copy (fuel : nat) (params : Value) : handler Value :=
  source ← path_param params "source" true;
  destination ← path_param params "destination" false;
  staging ← path_param params "staging" false;
  _ ← guard (negb (bool_decide (source = destination) || bool_decide (source `prefix_of` destination)))
        (RpcError.new "INVALID_ARTIFACT_PATH" "local artifact destination must be outside the source");
  root ← get;
  n ← lift (ok_or (io_error READ_FAILED (display source)) (symlink_metadata cwd root source));
  kind ← lift (if is_file n then Ok "file" else if is_dir n then Ok "directory"
               else Err (invalid_artifact "local artifact copy supports only regular files and directories"));
  expected ← lift (measure kind root source);
  _ ← (if exists_on root staging then remove_any staging else mret tt);
  _ ← copy_artifact fuel kind source staging;
  root ← get;
  copied ← lift (measure kind root staging);
  if decide (expected = copied) then
    _ ← commit_relay_staging destination staging;
    let '(digest, size, files) := copied in
    mret (json_object [("destination", path_value destination); ("digest", VString digest); ("size", vnat size);
                       ("files", vnat files); ("kind", VString kind); ("transport", VString "local")])
  else
    _ ← ignored (remove_any staging);
    throw (digest_mismatch "source changed during local copy").

(** ** Archives *)

(** An entry of the manifest as the builder appends it: what is there when it is
    appended. *)
Definition append_entry (source : path) (root : node) (rel : list string) (n : node) : outcome RpcError.t archive_entry :=
  let p := source ++ (Normal <$> rel) in
  found ← ok_or (io_error TRANSFER_FAILED (display p)) (metadata cwd root p);
  match n, found with
  | Dir _, _ => Ok (ArchiveEntry DirectoryEntry (portable rel) 0 "")
  | _, File content => Ok (ArchiveEntry RegularEntry (portable rel) (Str.len content) content)
  | _, _ => Err (io_error TRANSFER_FAILED (display p))
  end.
Definition payload_entry (source : path) (root : node) : outcome RpcError.t archive_entry :=
  match metadata cwd root source with
  | Some (File content) => Ok (ArchiveEntry RegularEntry "payload" (Str.len content) content)
  | _ => Err (io_error TRANSFER_FAILED (display source))
  end.

(** The encoder writes the archive out when it is finished. *)
Definition archive_create (params : Value) : handler Value :=
  source ← path_param params "path" true;
  root ← get;
  n ← lift (ok_or (io_error READ_FAILED (display source)) (metadata cwd root source));
  _ ← guard (is_dir n || is_file n) (invalid_artifact "archive relay requires a regular file or directory artifact");
  let kind := if is_file n then "file" else "directory" in
  measured ← lift (measure kind root source);
  _ ← create_dir_all cwd TRANSFER_FAILED relay_root;
  token ← fresh_uuid;
  archive_path ← lift (relay_archive_path relay_root token);
  _ ← call TRANSFER_FAILED archive_path (create cwd archive_path);
  root ← get;
  entries ← lift
    (if is_file n then e ← payload_entry source root; Ok [e]
     else l ← relay_manifest_of root source; Contracts.collect (fun e => append_entry source root e.1 e.2) l);
  let bytes := archived entries in
  _ ← (if Str.is_empty bytes then mret tt else call TRANSFER_FAILED archive_path (write_at cwd archive_path 0 bytes));
  root ← get;
  stored ← lift (ok_or (io_error TRANSFER_FAILED (display archive_path)) (metadata cwd root archive_path));
  let '(digest, size, files) := measured in
  mret (json_object [("token", VString token); ("compression", VString "gzip"); ("archiveSize", vnat (len other_len stored));
                     ("digest", VString digest); ("size", vnat size); ("files", vnat files); ("kind", VString kind)]).

Definition chunk_answer (fields : list (string * Value)) (offset limit : Z) (bytes : string) : Value :=
  json_object (fields ++ [("offset", vnat offset); ("data", VString (encode bytes)); ("bytes", vnat (Str.len bytes));
                          ("eof", VBool (Str.len bytes <? limit))]).

Definition archive_read (params : Value) : handler Value :=
  token ← lift (required_str params "token");
  archive_path ← lift (relay_archive_path relay_root token);
  let offset := default 0 (u64_param params "offset") in
  let limit := Z.min (default (8 * 1024 * 1024) (u64_param params "limit")) (16 * 1024 * 1024) in
  root ← get;
  bytes ← lift (read_at root archive_path offset limit);
  mret (chunk_answer [("token", VString token)] offset limit bytes).

Definition archive_remove (params : Value) : handler Value :=
  token ← lift (required_str params "token");
  archive_path ← lift (relay_archive_path relay_root token);
  root ← get;
  match symlink_metadata cwd root archive_path with
  | None => mret (json_object [("token", VString token); ("removed", VBool false)])
  | Some _ =>
      _ ← call TRANSFER_FAILED archive_path (unlink cwd archive_path);
      mret (json_object [("token", VString token); ("removed", VBool true)])
  end.

Definition payload_name : string := "payload.tar.gz".

Definition archive_prepare (params : Value) : handler Value :=
  staging ← path_param params "staging" false;
  root ← get;
  _ ← (if exists_on root staging then remove_dir_all cwd TRANSFER_FAILED staging else mret tt);
  _ ← create_dir_all cwd TRANSFER_FAILED staging;
  let archive_path := join staging payload_name in
  _ ← call TRANSFER_FAILED archive_path (create cwd archive_path);
  mret (json_object [("staging", path_value staging)]).

Definition archive_write (params : Value) : handler Value :=
  staging ← path_param params "staging" true;
  offset ← lift (required_u64 params "offset");
  bytes ← lift (chunk_data params);
  _ ← write_chunk (join staging payload_name) offset bytes;
  mret (json_object [("offset", vnat offset); ("bytes", vnat (Str.len bytes))]).

(** What has been unpacked of an archive, in files and bytes. *)
Definition safe_entry_path (p : string) : bool :=
  forallb (fun c => match c with CurDir | Normal _ => true | _ => false end) (components p).
Definition limit_exceeded : RpcError.t :=
  RpcError.new "ARTIFACT_ARCHIVE_LIMIT_EXCEEDED" "archive contents exceed the declared artifact limits".
Definition count_entry (e : archive_entry) (size files : Z) : Z * Z :=
  match entry_kind_of e with
  | RegularEntry => (u64_saturating_add size (entry_size e), u64_saturating_add files 1)
  | _ => (size, files)
  end.
Definition supported_entry (e : archive_entry) : bool :=
  match entry_kind_of e with OtherEntry => false | _ => true end.
Definition unpack_entry (e : archive_entry) (destination : path) : handler bool := fun root w =>
  match unpack_in e destination root w with
  | (Ok b, root', w') => (Ok b, root', w')
  | (Err _, root', w') => (Err (io_error TRANSFER_FAILED (display destination)), root', w')
  | (Panic, root', w') => (Panic, root', w')
  end.

Fixpoint extract_entries (archive_path destination : path) (expected_size expected_files : Z)
    (entries : list (option archive_entry)) (size files : Z) : handler (Z * Z) :=
  match entries with
  | [] => mret (size, files)
  | None :: _ => throw (io_error TRANSFER_FAILED (display archive_path))
  | Some e :: entries' =>
      _ ← guard (supported_entry e) (invalid_artifact "archive relay supports only regular files and directories");
      _ ← guard (safe_entry_path (entry_path e)) (RpcError.new "INVALID_ARTIFACT_PATH" ("unsafe archive path: " +:+ entry_path e));
      let '(size, files) := count_entry e size files in
      _ ← guard (negb (bool_decide (entry_kind_of e = RegularEntry) && ((expected_files <? files) || (expected_size <? size))))
            limit_exceeded;
      unpacked ← unpack_entry e destination;
      _ ← guard unpacked (RpcError.new "INVALID_ARTIFACT_PATH" ("archive path escapes destination: " +:+ entry_path e));
      extract_entries archive_path destination expected_size expected_files entries' size files
  end.
Definition extract_relay_archive (archive_path destination : path) (expected_size expected_files : Z) : handler unit :=
  root ← get;
  entries ← lift (match metadata cwd root archive_path with
                  | Some (File bytes) => Ok (entries_of bytes)
                  | _ => Err (io_error TRANSFER_FAILED (display archive_path))
                  end);
  found ← extract_entries archive_path destination expected_size expected_files entries 0 0;
  let '(size, files) := found in
  guard ((files =? expected_files) && (size =? expected_size))
    (RpcError.new "ARTIFACT_ARCHIVE_CONTENT_MISMATCH"
       ("expected " +:+ pretty expected_files +:+ " files/" +:+ pretty expected_size +:+ " bytes, got " +:+
        pretty files +:+ " files/" +:+ pretty size +:+ " bytes")).

Definition archive_commit (params : Value) : handler Value :=
  destination ← path_param params "destination" false;
  staging ← path_param params "staging" true;
  expected ← lift (required_str params "expectedDigest");
  expected_archive_size ← lift (required_u64 params "archiveSize");
  expected_size ← lift (required_u64 params "size");
  expected_files ← lift (required_u64 params "files");
  let kind := default "directory" (str_param params "kind") in
  let archive_path := join staging payload_name in
  root ← get;
  stored ← lift (ok_or (io_error TRANSFER_FAILED (display archive_path)) (metadata cwd root archive_path));
  _ ← guard (len other_len stored =? expected_archive_size)
        (RpcError.new "ARTIFACT_ARCHIVE_SIZE_MISMATCH" ("expected " +:+ pretty expected_archive_size +:+
           " archive bytes, got " +:+ pretty (len other_len stored)));
  let extracted := join staging "extracted" in
  _ ← call TRANSFER_FAILED extracted (mkdir cwd extracted);
  _ ← extract_relay_archive archive_path extracted expected_size expected_files;
  let payload := if decide (kind = "file") then join extracted "payload" else extracted in
  root ← get;
  measured ← lift (measure kind root payload);
  let '(digest, size, files) := measured in
  _ ← guard (bool_decide (digest = expected)) (digest_mismatch ("expected " +:+ expected +:+ ", got " +:+ digest));
  _ ← commit_relay_staging destination payload;
  _ ← ignored (remove_dir_all cwd TRANSFER_FAILED staging);
  mret (json_object [("destination", path_value destination); ("digest", VString digest); ("size", vnat size);
                     ("files", vnat files)]).

(** ** File by file *)

Definition relay_read (params : Value) : handler Value :=
  source ← path_param params "path" true;
  relative_text ← lift (required_str params "relativePath");
  relative ← lift (safe_relative relative_text);
  let offset := default 0 (u64_param params "offset") in
  let limit := Z.min (default (1024 * 1024) (u64_param params "limit")) (4 * 1024 * 1024) in
  root ← get;
  bytes ← lift (read_at root (source ++ relative) offset limit);
  mret (chunk_answer [("relativePath", VString relative_text)] offset limit bytes).

(** One entry of the manifest the destination prepares. *)
Definition prepare_entry (staging : path) (entry : Value) : handler unit :=
  relative_text ← lift (required_str entry "path");
  relative ← lift (safe_relative relative_text);
  let p := staging ++ relative in
  kind ← lift (required_str entry "kind");
  if decide (kind = "directory") then create_dir_all cwd TRANSFER_FAILED p
  else if decide (kind = "file") then
    _ ← match parent p with Some above => create_dir_all cwd TRANSFER_FAILED above | None => mret tt end;
    call TRANSFER_FAILED p (create cwd p)
  else throw (invalid_artifact "relay supports files and directories only").
Fixpoint prepare_entries (staging : path) (entries : list Value) : handler unit :=
  match entries with
  | [] => mret tt
  | entry :: entries' => _ ← prepare_entry staging entry; prepare_entries staging entries'
  end.

Definition relay_prepare (params : Value) : handler Value :=
  destination ← path_param params "destination" false;
  staging ← path_param params "staging" false;
  root ← get;
  _ ← (if exists_on root staging then remove_dir_all cwd TRANSFER_FAILED staging else mret tt);
  _ ← create_dir_all cwd TRANSFER_FAILED staging;
  entries ← lift (ok_or (invalid_params "entries are required") (vget params "entries" ≫= as_array));
  _ ← prepare_entries staging entries;
  mret (json_object [("destination", path_value destination); ("staging", path_value staging)]).

Definition relay_write (params : Value) : handler Value :=
  staging ← path_param params "staging" true;
  relative_text ← lift (required_str params "relativePath");
  relative ← lift (safe_relative relative_text);
  offset ← lift (required_u64 params "offset");
  bytes ← lift (chunk_data params);
  _ ← write_chunk (staging ++ relative) offset bytes;
  mret (json_object [("relativePath", VString relative_text); ("offset", vnat offset); ("bytes", vnat (Str.len bytes))]).

(** This commit removes the backup as a directory, whatever it is. *)
Definition relay_commit (params : Value) : handler Value :=
  destination ← path_param params "destination" false;
  staging ← path_param params "staging" true;
  expected ← lift (required_str params "expectedDigest");
  root ← get;
  measured ← lift (digest_tree root staging);
  let '(digest, size, files) := measured in
  _ ← guard (bool_decide (digest = expected)) (digest_mismatch ("expected " +:+ expected +:+ ", got " +:+ digest));
  _ ← swap_in (remove_dir_all cwd TRANSFER_FAILED) destination staging;
  mret (json_object [("destination", path_value destination); ("digest", VString digest); ("size", vnat size);
                     ("files", vnat files)]).

(** ** What a commit does at each refused call *)

(** What has been removed to the end is gone. *)
Lemma remove_each_clears code p ns x l root0 root :
  linkless root0 ns -> Forall (fun q => exists c y, q = c ++ [y] /\ linkless root0 c) l -> no_new_links root0 root ->
  wp (remove_each cwd code p (l ++ [ns ++ [x]])) root (fun o root' => is_ok o = true -> at_ root' (ns ++ [x]) = None).
Proof.
  intros Hl Hall. revert root. induction Hall as [|q l (c & y & -> & Hc) _ IH]; intros root Hn; cbn [app remove_each].
  - apply wp_bind, wp_call; [|done]. intros root' Hr. apply wp_ret. intros _.
    apply remove_one_cuts in Hr; [by eapply at_cut|by eapply linkless_kept].
  - apply wp_bind, wp_call; [|done]. intros root' Hr. apply IH.
    apply remove_one_cuts in Hr; [|by eapply linkless_kept]. etrans; [exact Hn|by eapply cut_no_links].
Qed.
Lemma remove_dir_all_clears code ns x root :
  linkless root (ns ++ [x]) -> (forall n, at_ root (ns ++ [x]) = Some n -> tidy n) ->
  wp (remove_dir_all cwd code (absolute (ns ++ [x]))) root (fun o root' => is_ok o = true -> view root' (ns ++ [x]) = None).
Proof.
  intros Hl Ht. assert (linkless root ns) as Hns by (by eapply linkless_prefix; [|by eexists]).
  unfold remove_dir_all. apply wp_get_bind.
  destruct (lplace cwd root (absolute (ns ++ [x]))) as [q|] eqn:Hq; [|by apply wp_throw].
  apply lplace_linkless in Hq as ->; [|done]. simpl.
  destruct (at_ root (ns ++ [x])) as [[c|es|t|]|] eqn:Hn; simpl; try by apply wp_throw.
  - eapply wp_mono; [apply (remove_each_clears code _ ns x _ root); [done| |done]|].
    + apply Forall_forall. intros q Hq.
      assert (q ∈ removal (ns ++ [x]) (Dir es)) as Hin by (cbn [removal]; apply elem_of_app; by left).
      apply removal_below in Hin as (z & -> & Hz); [|by apply Ht].
      destruct (decide (z = [])) as [->|(z' & y & ->)%exists_last].
      * exists ns, x. by rewrite app_nil_r.
      * exists ((ns ++ [x]) ++ z'), y. rewrite app_assoc. split; [done|]. by eapply linkless_down.
    + intros o root' Hgone Hok. unfold view. by rewrite Hgone.
  - exfalso. by apply (linkless_at root _ _ t Hl) in Hn.
Qed.

(** What a commit asks of the call that removes its backup. *)
Definition clears (remove : path -> handler unit) (p : list string) : Prop :=
  forall root, linkless root p -> (forall n, at_ root p = Some n -> tidy n) ->
  wp (remove (absolute p)) root (fun o root' =>
    agrees_outside [p] root root' /\ o <> Panic /\ (is_ok o = true -> view root' p = None)).
Lemma clears_from (remove : path -> handler unit) p :
  (forall q, calm (remove q)) ->
  (forall root, linkless root p -> (forall n, at_ root p = Some n -> tidy n) ->
     from (agrees_outside [p] root) root (remove (absolute p)) /\
     wp (remove (absolute p)) root (fun o root' => is_ok o = true -> view root' p = None)) ->
  clears remove p.
Proof. intros Hc Hall root Hl Ht w. destruct (Hall root Hl Ht) as [Hf Hw]. split_and!; [apply Hf|apply Hc|apply Hw]. Qed.

Lemma calm_remove_any p : calm (remove_any p).
Proof.
  unfold remove_any. apply calm_bind; [apply calm_get|]. intros root1.
  destruct (dir_on _ _); [apply calm_remove_dir_all|apply calm_call].
Qed.
Lemma remove_dir_all_clears_it ns x : clears (remove_dir_all cwd TRANSFER_FAILED) (ns ++ [x]).
Proof.
  apply clears_from; [intros; apply calm_remove_dir_all|]. intros root Hl Ht.
  split; [by apply from_remove_dir_all|by apply remove_dir_all_clears].
Qed.
Lemma unlink_clears code ns x root :
  linkless root (ns ++ [x]) ->
  wp (call code (absolute (ns ++ [x])) (unlink cwd (absolute (ns ++ [x])))) root
    (fun o root' => is_ok o = true -> view root' (ns ++ [x]) = None).
Proof.
  intros Hl. apply wp_call; [|done]. intros root' (q & Hq & (n & Hn & Hu)%bind_Some)%bind_Some _.
  apply lplace_linkless in Hq as ->; [|by eapply linkless_prefix; [|by eexists]].
  destruct (is_dir n); [done|]. unfold view. by rewrite (at_cut _ _ _ Hu).
Qed.
Lemma remove_any_clears_it ns x : clears remove_any (ns ++ [x]).
Proof.
  apply clears_from; [apply calm_remove_any|]. intros root Hl Ht. unfold remove_any. split.
  - apply from_get_bind. destruct (dir_on _ _); [by apply from_remove_dir_all|by apply from_unlink].
  - apply wp_get_bind. destruct (dir_on _ _); [by apply remove_dir_all_clears|by apply unlink_clears].
Qed.

Section swapping.
Variables (remove_backup : path -> handler unit).
Variables (ns : list string) (x b : string) (ms : list string) (y : string) (root : node).
Abbreviation destination := (ns ++ [x]).
Abbreviation backup := (ns ++ [b]).
Abbreviation staging := (ms ++ [y]).

(** The tree at [q] in [root'] is the tree that was at [p]. *)
Definition holds (root' : node) (q p : list string) : Prop := forall z, view root' (q ++ z) = view root (p ++ z).

(** The system answers the [k]th call of the commit, counting from 0: the old
    artifact to the backup, the new one to the destination, and what follows. *)
Definition granted (w : world) (k : nat) : bool := io_ok w (io_at w + k)%nat.

(** What a commit in the world [w] has answered and left behind.  Without an old
    artifact it puts the new one in place by one call or does nothing.  With one,
    a refusal of the first call changes nothing; a refusal of the second leaves
    the new artifact whole in the staging place and brings the old one back, or,
    when that is refused too, keeps it whole in the backup; and after the second
    call the new artifact is in place, whatever becomes of the backup, which a
    success has removed.  Nothing changes elsewhere. *)
Definition committed {A} (w : world) (o : outcome RpcError.t A) (root' : node) : Prop :=
  o <> Panic /\ agrees_outside [destination; backup; staging] root root' /\
  match view root destination with
  | None =>
      if granted w 0 && dir_at root ns then is_ok o = true /\ holds root' destination staging
      else is_ok o = false /\ root' = root
  | Some _ =>
      if negb (granted w 0) then is_ok o = false /\ root' = root
      else if granted w 1 then holds root' destination staging /\ (is_ok o = true -> view root' backup = None)
      else is_ok o = false /\ holds root' staging staging /\
        if granted w 2 then holds root' destination destination /\ view root' backup = None
        else holds root' backup destination /\ view root' destination = None
  end.

Hypothesis removes : clears remove_backup backup.
Hypothesis ways : linkless root destination /\ linkless root backup /\ linkless root staging.
Hypothesis names_apart : x <> b.
Hypothesis backup_is_new : view root backup = None.
Hypothesis staging_is_there : view root staging <> None.
Hypothesis destination_tidy : forall n, at_ root destination = Some n -> tidy n.
Hypothesis places_apart : (~ destination `prefix_of` staging) /\ (~ staging `prefix_of` destination).

Lemma siblings (a c : string) : a <> c -> ~ (ns ++ [a]) `prefix_of` (ns ++ [c]).
Proof. intros Hne [s Hs]. rewrite <- app_assoc in Hs. apply app_inv_head in Hs. by injection Hs. Qed.
Lemma disjoint_below (p q z : list string) : ~ p `prefix_of` q -> ~ q `prefix_of` p -> ~ p `prefix_of` q ++ z.
Proof. intros Hp Hq Hpre. destruct (prefix_weak_total p q (q ++ z)) as [|]; [done|by eexists|done|done]. Qed.
Lemma backup_staging : (~ backup `prefix_of` staging) /\ ~ staging `prefix_of` backup.
Proof.
  split.
  - intros [s Hs]. apply staging_is_there. rewrite Hs. unfold view in *. rewrite at_app.
    by destruct (at_ root backup).
  - intros [Heq|Hpre]%prefix_snoc_inv; [by apply staging_is_there; rewrite Heq|].
    apply places_apart. etrans; [exact Hpre|by eexists].
Qed.
Lemma seen_at (root1 : node) p : view root1 p <> None -> exists n, at_ root1 p = Some n.
Proof. unfold view. destruct (at_ root1 p); [by eexists|done]. Qed.
Lemma unseen_at (root1 : node) p : view root1 p = None -> at_ root1 p = None.
Proof. unfold view. by destruct (at_ root1 p). Qed.
Lemma move_agrees p q root1 root2 :
  moved p q root1 root2 -> p ∈ [destination; backup; staging] -> q ∈ [destination; backup; staging] ->
  agrees_outside [destination; backup; staging] root1 root2.
Proof. intros Hm Hp Hq c Hc. by apply (moved_rest _ _ _ _ Hm); apply Hc. Qed.

(** What follows the first call. *)
Definition put_in_place : handler unit :=
  moved ← attempt (rename cwd (absolute staging) (absolute destination));
  if (moved : bool) then
    root ← get; if exists_on root (absolute backup) then remove_backup (absolute backup) else mret tt
  else
    root ← get;
    _ ← (if exists_on root (absolute backup)
         then _ ← attempt (rename cwd (absolute backup) (absolute destination)); mret tt else mret tt);
    throw (io_error TRANSFER_FAILED (display (absolute destination))).

(** The state in which the new artifact is about to be put in place. *)
Record cleared (root1 : node) : Prop := {
  cleared_ways : linkless root1 destination /\ linkless root1 backup /\ linkless root1 staging;
  cleared_staging : holds root1 staging staging;
  cleared_free : view root1 destination = None;
  cleared_tidy : forall n, at_ root1 backup = Some n -> tidy n;
  cleared_elsewhere : agrees_outside [destination; backup; staging] root root1;
}.
Lemma cleared_there root1 : cleared root1 -> exists n, at_ root1 staging = Some n.
Proof.
  intros [_ Hs _ _ _]. apply seen_at. specialize (Hs []). rewrite app_nil_r in Hs. by rewrite Hs.
Qed.
Lemma cleared_start : view root destination = None -> cleared root.
Proof.
  intros Hnone. split; [done|by intros z|done| |done]. intros n Hn. unfold view in backup_is_new. by rewrite Hn in backup_is_new.
Qed.

(** The first call, when there is an old artifact. *)
Lemma first_move n :
  at_ root destination = Some n ->
  exists root1, rename cwd (absolute destination) (absolute backup) root = Some root1 /\ cleared root1 /\
    holds root1 backup destination /\ dir_at root1 ns = true.
Proof.
  intros Hn. destruct ways as (Hd & Hb & Hs). destruct places_apart as [Hds Hsd]. destruct backup_staging as [Hbs Hsb].
  assert (linkless root ns) as Hl by by (eapply linkless_prefix; [exact Hd|by eexists]).
  destruct (rename_free cwd root ns x ns b n) as (cut1 & root1 & Hcut & Hput & Hren); [done|by eapply at_above|by apply unseen_at|by apply siblings|].
  exists root1. split; [done|]. apply rename_moves in Hren as Hm; [|done|done|by intros [? [= ?]]%app_inj_tail]. split_and!.
  - split.
    + split_and!; eapply linkless_moved; try done. intros Hp. by apply siblings in Hp.
    + intros z. apply (moved_rest _ _ _ _ Hm); by apply disjoint_below.
    + rewrite <- (app_nil_r destination). apply Hm. rewrite app_nil_r. by apply siblings.
    + rewrite (moved_node _ _ _ _ Hm). exact destination_tidy.
    + by eapply move_agrees; [exact Hm|left|right; left].
  - intros z. apply Hm.
  - eapply put_above. exact Hput.
Qed.

(** The second call goes through. *)
Lemma place_new root1 w1 :
  cleared root1 -> dir_at root1 ns = true -> io_ok w1 (io_at w1) = true ->
  (put_in_place root1 w1).1.1 <> Panic /\ agrees_outside [destination; backup; staging] root (put_in_place root1 w1).1.2 /\
  holds (put_in_place root1 w1).1.2 destination staging /\
  (is_ok (put_in_place root1 w1).1.1 = true -> view (put_in_place root1 w1).1.2 backup = None) /\
  (view root1 backup = None -> is_ok (put_in_place root1 w1).1.1 = true).
Proof.
  intros Hcl Hdir Hok. destruct (cleared_there root1 Hcl) as [n Hn]. destruct Hcl as [(Hd & Hb & Hs) Hst Hfree Ht Helse].
  destruct places_apart as [Hds Hsd]. destruct backup_staging as [Hbs Hsb].
  destruct (rename_free cwd root1 ms y ns x n) as (cut1 & root2 & _ & _ & Hren); [done|done|by apply unseen_at|done|].
  apply rename_moves in Hren as Hm; [|by eapply linkless_prefix; [|by eexists]..|intros Heq; apply Hsd; by rewrite Heq].
  unfold put_in_place, mbind, M_bind. rewrite attempt_run, Hok, Hren. cbn [fst snd default from_option Datatypes.id].
  rewrite bool_decide_eq_true_2 by by eexists. unfold get.
  assert (linkless root2 backup) as Hb2 by (eapply linkless_moved; try done; by intros Hp%siblings).
  assert (holds root2 destination staging) as Hnew by (intros z; by rewrite (moved_there _ _ _ _ Hm), Hst).
  assert (view root2 backup = view root1 backup) as Hsame.
  { apply (moved_rest _ _ _ _ Hm); [done|by apply siblings]. }
  assert (agrees_outside [destination; backup; staging] root root2) as Helse2.
  { etrans; [exact Helse|]. eapply move_agrees; [exact Hm|right; right; by left|by left]. }
  rewrite exists_on_linkless by done. rewrite Hsame. case_bool_decide as Hex; cbn [fst snd].
  - destruct (removes root2 Hb2) with (w := io_tick w1) as (Ha & HP & Hgone).
    { rewrite (moved_apart _ _ _ _ Hm); [exact Ht|done|done|by apply siblings|by apply siblings]. }
    split_and!; [done| | |exact Hgone|intros Hnone; rewrite Hnone in Hex; by destruct Hex].
    + etrans; [exact Helse2|]. intros q Hq. apply Ha. intros p ->%list_elem_of_singleton. apply Hq. right. by left.
    + intros z. rewrite Ha; [apply Hnew|]. intros p ->%list_elem_of_singleton. apply disjoint_below; by apply siblings.
  - split_and!; try done. intros _. change (view root2 backup = None). rewrite Hsame. destruct (view root1 backup); [by destruct Hex; eexists|done].
Qed.

(** The second call is refused, with nothing in the backup or the old artifact. *)
Lemma place_refused root1 w1 :
  cleared root1 -> (if io_ok w1 (io_at w1) then dir_at root1 ns else false) = false -> view root1 backup = None ->
  is_ok (put_in_place root1 w1).1.1 = false /\ (put_in_place root1 w1).1.1 <> Panic /\ (put_in_place root1 w1).1.2 = root1.
Proof.
  intros [(Hd & Hb & Hs) _ _ _ _] Hno Hnone.
  assert ((if io_ok w1 (io_at w1) then rename cwd (absolute staging) (absolute destination) root1 else None) = None) as Hr.
  { destruct (io_ok w1 (io_at w1)); [|done]. destruct (rename _ _ _ root1) as [root2|] eqn:Hren; [|done]. exfalso.
    assert (linkless root1 ms /\ linkless root1 ns) as [? ?] by (split; by eapply linkless_prefix; [|by eexists]).
    apply rename_at in Hren as (n & Hn & [[Heq _]|(_ & cut1 & Hcut & Hput)]); [|  |done|done].
    - destruct places_apart as [_ Hsd]. apply Hsd. by rewrite Heq.
    - pose proof (put_above _ _ _ _ _ _ Hput) as Hdir. apply dir_view in Hdir.
      rewrite (view_put _ _ _ _ _ Hput), (view_cut _ _ _ _ Hcut) in Hdir.
      + apply dir_view in Hdir. by rewrite Hdir in Hno.
      + intros Hp. destruct places_apart as [_ Hsd]. apply Hsd. etrans; [exact Hp|by eexists].
      + intros [z Hz]. apply (f_equal length) in Hz. rewrite !length_app in Hz. simpl in Hz. lia. }
  unfold put_in_place, mbind, M_bind. rewrite attempt_run, Hr. cbn [fst snd default from_option Datatypes.id].
  rewrite bool_decide_eq_false_2 by by intros [? ?]. unfold get.
  rewrite exists_on_linkless by done. rewrite Hnone. by rewrite bool_decide_eq_false_2 by by intros [? ?].
Qed.
Lemma place_restored root1 w1 :
  cleared root1 -> dir_at root1 ns = true -> holds root1 backup destination -> view root destination <> None ->
  io_ok w1 (io_at w1) = false ->
  is_ok (put_in_place root1 w1).1.1 = false /\ (put_in_place root1 w1).1.1 <> Panic /\
  agrees_outside [destination; backup; staging] root (put_in_place root1 w1).1.2 /\
  holds (put_in_place root1 w1).1.2 staging staging /\
  (if io_ok w1 (S (io_at w1))
   then holds (put_in_place root1 w1).1.2 destination destination /\ view (put_in_place root1 w1).1.2 backup = None
   else holds (put_in_place root1 w1).1.2 backup destination /\ view (put_in_place root1 w1).1.2 destination = None).
Proof.
  intros [(Hd & Hb & Hs) Hst Hfree Ht Helse] Hdir Hold Hthere Hno.
  destruct places_apart as [Hds Hsd]. destruct backup_staging as [Hbs Hsb].
  assert (view root1 backup <> None) as Hseen by (specialize (Hold []); rewrite !app_nil_r in Hold; by rewrite Hold).
  destruct (seen_at root1 backup Hseen) as [n Hn].
  destruct (rename_free cwd root1 ns b ns x n) as (cut1 & root2 & _ & _ & Hren); [done|done|by apply unseen_at|by apply siblings|].
  apply rename_moves in Hren as Hm; [|by eapply linkless_prefix; [|by eexists]..|by intros [_ [= ?]]%app_inj_tail].
  unfold put_in_place, mbind, M_bind. rewrite attempt_run, Hno. cbn [fst snd default from_option Datatypes.id].
  rewrite bool_decide_eq_false_2 by by intros [? ?]. unfold get. rewrite exists_on_linkless by done.
  rewrite bool_decide_eq_true_2 by by apply not_eq_None_Some. rewrite attempt_run. cbn [io_ok io_at io_tick].
  destruct (io_ok w1 (S (io_at w1))); cbn [fst snd default from_option Datatypes.id].
  - rewrite Hren. cbn [fst snd default from_option Datatypes.id]. split_and!; try done.
    + etrans; [exact Helse|]. by eapply move_agrees; [exact Hm|right; left|left].
    + intros z. rewrite (moved_rest _ _ _ _ Hm), Hst; [done|by apply disjoint_below..].
    + intros z. by rewrite (moved_there _ _ _ _ Hm), Hold.
    + rewrite <- (app_nil_r backup). apply Hm. rewrite app_nil_r. by apply siblings.
  - by split_and!.
Qed.

Lemma swap_in_run w :
  backup_path (absolute destination) (uuids w (uuid_at w)) = absolute backup ->
  swap_in remove_backup (absolute destination) (absolute staging) root w =
  (_ ← (if bool_decide (is_Some (view root destination))
        then call TRANSFER_FAILED (absolute destination) (rename cwd (absolute destination) (absolute backup)) else mret tt);
   put_in_place) root (uuid_tick w).
Proof.
  intros Hb. unfold swap_in, put_in_place. unfold mbind at 1. unfold M_bind at 1. unfold fresh_uuid. cbn [fst snd]. rewrite Hb.
  unfold mbind at 1. unfold M_bind at 1. unfold get at 1. by rewrite exists_on_linkless by apply ways.
Qed.
Lemma swap_in_commits w :
  backup_path (absolute destination) (uuids w (uuid_at w)) = absolute backup ->
  committed w (swap_in remove_backup (absolute destination) (absolute staging) root w).1.1
              (swap_in remove_backup (absolute destination) (absolute staging) root w).1.2.
Proof.
  intros Hb. rewrite swap_in_run by done. unfold committed, granted. rewrite Nat.add_0_r, Nat.add_1_r.
  destruct (view root destination) as [v|] eqn:Hold.
  - destruct (seen_at root destination) as [n Hn]; [by rewrite Hold|].
    destruct (first_move n Hn) as (root1 & Hren & Hcl & Hkept & Hdir).
    rewrite bool_decide_eq_true_2 by by eexists. unfold call, guard, mbind, M_bind. rewrite attempt_run. cbn [io_ok io_at uuid_tick].
    destruct (io_ok w (io_at w)) eqn:Hfirst; cbn [negb fst snd].
    + rewrite Hren. cbn [default from_option Datatypes.id]. rewrite bool_decide_eq_true_2 by by eexists. cbn [fst snd].
      destruct (io_ok w (S (io_at w))) eqn:Hsecond.
      * destruct (place_new root1 (io_tick (uuid_tick w)) Hcl Hdir Hsecond) as (? & ? & ? & ? & _). by split_and!.
      * destruct (place_restored root1 (io_tick (uuid_tick w)) Hcl Hdir Hkept) as (? & ? & ? & ? & Hlast); [by rewrite Hold|done|].
        replace (io_at w + 2)%nat with (S (S (io_at w))) by lia. by split_and!.
    + rewrite bool_decide_eq_false_2 by by intros [? ?]. cbn [fst snd]. by split_and!.
  - rewrite bool_decide_eq_false_2 by by intros [? ?]. unfold mbind, M_bind, mret, M_ret.
    pose proof (cleared_start Hold) as Hcl. destruct (io_ok w (io_at w) && dir_at root ns) eqn:Hgo.
    + apply andb_true_iff in Hgo as [Hfirst Hdir].
      destruct (place_new root (uuid_tick w) Hcl Hdir Hfirst) as (? & ? & ? & _ & Hok). split_and!; try done. by apply Hok.
    + destruct (place_refused root (uuid_tick w) Hcl) as (? & ? & Heq); [exact Hgo|done|].
      rewrite Heq. by split_and!.
Qed.
End swapping.

Lemma committed_ok {A} ns x b ms y root w (a : A) root' :
  committed ns x b ms y root w (Ok a : outcome RpcError.t A) root' -> holds root root' (ns ++ [x]) (ms ++ [y]).
Proof.
  intros (_ & _ & Hc). destruct (view root (ns ++ [x])).
  - destruct (granted w 0); simpl in Hc; [|by destruct Hc]. destruct (granted w 1); [apply Hc|by destruct Hc].
  - destruct (granted w 0 && dir_at root ns); [apply Hc|by destruct Hc].
Qed.
Lemma committed_answer {A B} ns x b ms y root w (o : outcome RpcError.t A) (o' : outcome RpcError.t B) root' :
  is_ok o = is_ok o' -> o' <> Panic -> committed ns x b ms y root w o root' -> committed ns x b ms y root w o' root'.
Proof. unfold committed. intros <- HP (_ & Hc). by split. Qed.
Lemma committed_then {A} ns x b ms y root w (m : handler unit) (a : A) :
  committed ns x b ms y root w (m root w).1.1 (m root w).1.2 ->
  committed ns x b ms y root w ((_ ← m; mret a) root w : _ * world).1.1 ((_ ← m; mret a) root w).1.2.
Proof.
  unfold mbind, M_bind. destruct (m root w) as [[[[]|e|] root'] w']; cbn; [by apply committed_answer..|by intros [[] _]].
Qed.

Lemma relay_commit_run params destination staging root w :
  checked_path (fs := mounted cwd root) r auth params "destination" false None = Ok destination ->
  checked_path (fs := mounted cwd root) r auth params "staging" true None = Ok staging ->
  relay_commit params root w =
  match required_str params "expectedDigest", digest_tree root staging with
  | Ok expected, Ok (digest, size, files) =>
      if decide (digest = expected) then
        (_ ← swap_in (remove_dir_all cwd TRANSFER_FAILED) destination staging;
         mret (json_object [("destination", path_value destination); ("digest", VString digest); ("size", vnat size);
                            ("files", vnat files)])) root w
      else (Err (digest_mismatch ("expected " +:+ expected +:+ ", got " +:+ digest)), root, w)
  | Ok _, Err e => (Err e, root, w)
  | Ok _, Panic => (Panic, root, w)
  | Err e, _ => (Err e, root, w)
  | Panic, _ => (Panic, root, w)
  end.
Proof.
  intros Hd Hs. unfold relay_commit, path_param, mbind, M_bind, get, lift. cbn beta iota. rewrite Hd. cbn beta iota. rewrite Hs.
  cbn beta iota. destruct (required_str params "expectedDigest"); [|done..].
  destruct (digest_tree root staging) as [[[digest size] files]|e|]; [|done..]. unfold guard.
  case_decide; [by rewrite bool_decide_eq_true_2 by done|by rewrite bool_decide_eq_false_2 by done].
Qed.

(** C29. What every refused call of a commit leaves behind.  Both commits, the one
    of [artifact.relay.commit] once the digest of the staging place is the
    expected one and the one of archives and local copies, first move the old
    artifact to a backup beside it.  When that is refused, nothing changes.  When
    moving the new artifact to the destination is refused, the new one is whole in
    the staging place and the old one is whole at the destination again, or, only
    when bringing it back is refused as well, whole in the backup.  Once the new
    one has been moved it is whole at the destination: a refusal while the backup
    is removed makes the answer an error and leaves of the old artifact what was
    not removed yet, a success leaves no backup.  Without an old artifact the new
    one is in place or nothing changes.  Nothing changes outside of the three
    places.  These are apart and have no links on their ways, the backup is new,
    and the names in each directory of the old artifact are distinct. *)
Theorem commit_loses_nothing ns x b ms y root w :
  backup_path (absolute (ns ++ [x])) (uuids w (uuid_at w)) = absolute (ns ++ [b]) -> x <> b ->
  linkless root (ns ++ [x]) /\ linkless root (ns ++ [b]) /\ linkless root (ms ++ [y]) ->
  view root (ns ++ [b]) = None -> view root (ms ++ [y]) <> None ->
  (forall n, at_ root (ns ++ [x]) = Some n -> tidy n) ->
  (~ (ns ++ [x]) `prefix_of` (ms ++ [y])) /\ (~ (ms ++ [y]) `prefix_of` (ns ++ [x])) ->
  (let run := commit_relay_staging (absolute (ns ++ [x])) (absolute (ms ++ [y])) root w in
   committed ns x b ms y root w run.1.1 run.1.2) /\
  forall params,
    checked_path (fs := mounted cwd root) r auth params "destination" false None = Ok (absolute (ns ++ [x])) ->
    checked_path (fs := mounted cwd root) r auth params "staging" true None = Ok (absolute (ms ++ [y])) ->
    let run := relay_commit params root w in
    match required_str params "expectedDigest", digest_tree root (absolute (ms ++ [y])) with
    | Ok expected, Ok (digest, _, _) =>
        if decide (digest = expected) then committed ns x b ms y root w run.1.1 run.1.2
        else is_ok run.1.1 = false /\ run.1.2 = root
    | _, _ => is_ok run.1.1 = false /\ run.1.2 = root
    end.
Proof.
  intros Hb Hne Hways Hnew Hthere Htidy Hapart. split; [by apply swap_in_commits; [apply remove_any_clears_it|..]|].
  intros params Hd Hs. cbn zeta.
  rewrite (relay_commit_run _ _ _ _ _ Hd Hs).
  destruct (required_str params "expectedDigest") as [expected|e|]; [|done..].
  destruct (digest_tree root (absolute (ms ++ [y]))) as [[[digest size] files]|e|]; [|done..].
  case_decide; [|done]. by apply committed_then, swap_in_commits; [apply remove_dir_all_clears_it|..].
Qed.

(** ** Unpacking stays within what was announced *)

Section extraction.
Variables (I : list archive_entry -> node -> Prop) (archive_path destination : path).
Variables (expected_size expected_files : Z).
Hypothesis unpacks : forall es e root w, I es root -> I (es ++ [e]) (unpack_in e destination root w).1.2.
Hypothesis sizes : 0 <= expected_size < u64_max /\ 0 <= expected_files < u64_max.

Definition regular (e : archive_entry) : bool := bool_decide (entry_kind_of e = RegularEntry).
Definition bytes_of (es : list archive_entry) : Z := zsum entry_size (bfilter regular es).
Definition files_of (es : list archive_entry) : Z := Z.of_nat (length (bfilter regular es)).

(** What holds of the entries that were unpacked. *)
Record within (es : list archive_entry) : Prop := {
  within_size : bytes_of es <= expected_size;
  within_files : files_of es <= expected_files;
  within_safe : Forall (fun e => supported_entry e = true /\ safe_entry_path (entry_path e) = true) es;
}.

Lemma count_entry_next es e :
  within es -> 0 <= entry_size e -> 0 <= bytes_of es ->
  let '(size, files) := count_entry e (bytes_of es) (files_of es) in
  negb (bool_decide (entry_kind_of e = RegularEntry) && ((expected_files <? files) || (expected_size <? size))) = true ->
  size = bytes_of (es ++ [e]) /\ files = files_of (es ++ [e]) /\
  bytes_of (es ++ [e]) <= expected_size /\ files_of (es ++ [e]) <= expected_files.
Proof.
  intros [Hs Hf _] He Hb. unfold count_entry, bytes_of, files_of in *. rewrite bfilter_app, zsum_app, length_app.
  assert (bfilter regular [e] = if regular e then [e] else []) as -> by done. unfold regular.
  destruct (entry_kind_of e); simpl; [|rewrite Z.add_0_r, Nat.add_0_r; done..].
  rewrite negb_true_iff, orb_false_iff, !Z.ltb_ge. unfold u64_saturating_add. intros [Hf' Hs'].
  rewrite Nat2Z.inj_add, Z.add_0_r. simpl. unfold u64_max in *. lia.
Qed.

Lemma bytes_snoc es e : 0 <= bytes_of es -> 0 <= entry_size e -> 0 <= bytes_of (es ++ [e]).
Proof.
  unfold bytes_of. rewrite bfilter_app, zsum_app. simpl. destruct (regular e); simpl; lia.
Qed.
Lemma stopped es e root w (entries : list (option archive_entry)) :
  I es root -> within es ->
  exists es', I (es ++ es') ((Err e, root, w) : outcome RpcError.t (Z * Z) * node * world).1.2 /\ within (es ++ es') /\
    (Some <$> es') `prefix_of` entries /\
    forall size files, ((Err e, root, w) : outcome RpcError.t (Z * Z) * node * world).1.1 = Ok (size, files) ->
      entries = Some <$> es' /\ size = bytes_of (es ++ es') /\ files = files_of (es ++ es').
Proof. intros HI Hw. exists []. rewrite app_nil_r. split_and!; [done..|apply prefix_nil|done]. Qed.

Lemma extract_within entries es root w :
  (forall e, Some e ∈ entries -> 0 <= entry_size e) -> 0 <= bytes_of es ->
  I es root -> within es ->
  exists es', I (es ++ es') (extract_entries archive_path destination expected_size expected_files entries
                              (bytes_of es) (files_of es) root w).1.2 /\
    within (es ++ es') /\ (Some <$> es') `prefix_of` entries /\
    forall size files, (extract_entries archive_path destination expected_size expected_files entries
                          (bytes_of es) (files_of es) root w).1.1 = Ok (size, files) ->
      entries = Some <$> es' /\ size = bytes_of (es ++ es') /\ files = files_of (es ++ es').
Proof.
  revert es root w. induction entries as [|[e|] entries IH]; intros es root w Hpos Hb HI Hw.
  - exists []. rewrite app_nil_r. split_and!; [done..|]. by intros size files [= <- <-].
  - assert (0 <= entry_size e) as He by (apply Hpos; by left).
    pose proof (count_entry_next es e Hw He Hb) as Hcount. cbn [extract_entries]. unfold handler. rewrite guard_run.
    destruct (supported_entry e) eqn:Hsup; [|by apply stopped]. rewrite guard_run.
    destruct (safe_entry_path (entry_path e)) eqn:Hsafe; [|by apply stopped].
    destruct (count_entry e (bytes_of es) (files_of es)) as [size files]. rewrite guard_run.
    destruct (negb _); [|by apply stopped]. destruct (Hcount eq_refl) as (-> & -> & Hs & Hf).
    assert (within (es ++ [e])) as Hw'.
    { split; [done..|]. apply Forall_app. split; [apply Hw|by repeat constructor]. }
    specialize (unpacks es e root w HI).
    destruct (unpack_entry e destination root w) as [[[ok|err|] root1] w1] eqn:Hrun;
      (assert (I (es ++ [e]) root1) as HI'
         by (unfold unpack_entry in Hrun; by destruct (unpack_in e destination root w) as [[[]]]; simplify_eq)).
    + rewrite (bind_run_Ok _ _ _ _ _ _ _ Hrun), guard_run.
      destruct ok; [|exists [e]; by split_and!; [..|exists entries|]].
      destruct (IH (es ++ [e]) root1 w1) as (es' & HI'' & Hw'' & Hpre & HO); [|by apply bytes_snoc|done..|].
      { intros e' He'. apply Hpos. by right. }
      rewrite <- app_assoc in HI'', Hw''. exists (e :: es'). split_and!; [done..|by apply prefix_cons|].
      intros size files Hrest. rewrite <- app_assoc in HO. by destruct (HO _ _ Hrest) as (-> & ? & ?).
    + rewrite (bind_run_Err _ _ _ _ _ _ _ Hrun). exists [e]. by split_and!; [..|exists entries|].
    + rewrite (bind_run_Panic _ _ _ _ _ _ Hrun). exists [e]. by split_and!; [..|exists entries|].
  - exists []. rewrite app_nil_r. split_and!; [done..|apply prefix_nil|done].
Qed.
End extraction.

(** C30. An archive never unpacks more than was announced.  Whatever the archive
    holds, what is handed to [unpack_in] is a prefix of its entries, regular files
    and directories at relative paths without [..], whose sizes add up to at most the
    announced size and whose files are at most the announced number; the extraction
    succeeds only if every entry was unpacked and both numbers are met.  [I] is
    any record of what was unpacked that [unpack_in] keeps. *)
Theorem extraction_stays_within_limits I archive_path destination expected_size expected_files root w bytes :
  metadata cwd root archive_path = Some (File bytes) ->
  (forall e, Some e ∈ entries_of bytes -> 0 <= entry_size e) ->
  0 <= expected_size < u64_max -> 0 <= expected_files < u64_max ->
  I [] root ->
  (forall es e root w, I es root -> I (es ++ [e]) (unpack_in e destination root w).1.2) ->
  let run := extract_relay_archive archive_path destination expected_size expected_files root w in
  exists es, I es run.1.2 /\ within expected_size expected_files es /\ (Some <$> es) `prefix_of` entries_of bytes /\
    (run.1.1 = Ok tt -> entries_of bytes = Some <$> es /\ bytes_of es = expected_size /\ files_of es = expected_files).
Proof.
  intros Hmeta Hpos Hs Hf HI Hunpack. cbn zeta. unfold extract_relay_archive, mbind, M_bind, get, lift. rewrite Hmeta.
  destruct (extract_within I archive_path destination expected_size expected_files Hunpack (conj Hs Hf)
    (entries_of bytes) [] root w Hpos) as (es & HI' & Hw & Hpre & HO); [done|done|by split; [apply Hs|apply Hf|constructor]|].
  exists es. change (bytes_of []) with 0 in *. change (files_of []) with 0 in *.
  destruct (extract_entries _ _ _ _ _ 0 0 root w) as [[[[size files]|e|] root1] w1]; simpl in *; [|by split_and!..].
  destruct (HO _ _ eq_refl) as (-> & -> & ->). unfold guard.
  destruct ((files_of es =? expected_files) && (bytes_of es =? expected_size)) eqn:Heq; simpl; [|by split_and!].
  apply andb_true_iff in Heq as [Hf' Hs']. split_and!; try done; intros _; split_and!; [done|lia..].
Qed.
(** ** Chunks *)

(** What one read of an archive answers. *)
Lemma archive_read_run params root w v root' w' :
  archive_read params root w = (Ok v, root', w') ->
  exists token archive_path content bytes,
    required_str params "token" = Ok token /\ relay_archive_path relay_root token = Ok archive_path /\
    metadata cwd root archive_path = Some (File content) /\
    let offset := default 0 (u64_param params "offset") in
    let limit := Z.min (default (8 * 1024 * 1024) (u64_param params "limit")) (16 * 1024 * 1024) in
    read_chunk content offset limit = Some bytes /\ v = chunk_answer [("token", VString token)] offset limit bytes.
Proof.
  unfold archive_read, mbind, M_bind, get, lift.
  destruct (required_str params "token") as [token|e|]; [|done..].
  destruct (relay_archive_path relay_root token) as [archive_path|e|] eqn:Hp; [|done..]. cbn beta iota zeta.
  unfold read_at. destruct (metadata cwd root archive_path) as [[content| | |]|] eqn:Hm; try done.
  destruct (read_chunk content _ _) as [bytes|] eqn:Hc; [|done]. intros [= <- _ _].
  by exists token, archive_path, content, bytes.
Qed.

Lemma write_chunk_run ns offset bytes root w root' w' content :
  linkless root ns -> at_ root ns = Some (File content) -> 0 <= offset -> Z.to_nat offset = String.length content ->
  write_chunk (absolute ns) offset bytes root w = (Ok tt, root', w') -> at_ root' ns = Some (File (content +:+ bytes)).
Proof.
  intros Hl Hat Hoff Hlen. unfold write_chunk, handler. rewrite (bind_run_Ok get _ _ _ _ _ _ eq_refl), guard_run.
  destruct (_ && _); [|done]. destruct (Str.is_empty bytes) eqn:Hb.
  - intros [= <- _]. unfold Str.is_empty in Hb. apply bool_decide_eq_true in Hb as ->. by rewrite Str.app_nil_r.
  - intros Hrun. pose proof (call_run TRANSFER_FAILED (absolute ns) (write_at cwd (absolute ns) (Z.to_nat offset) bytes) root w) as Hc.
    rewrite Hrun in Hc. destruct Hc as (root1 & Hw & Heq). simpl in Heq. subst root1.
    apply write_at_at in Hw as (c & Hc & Hput); [|done]. rewrite Hat in Hc. injection Hc as <-.
    by rewrite (at_put _ _ _ _ Hput), Hlen, overlay_append.
Qed.

Lemma read_chunk_next content offset limit bytes :
  0 <= offset <= Str.len content -> read_chunk content offset limit = Some bytes ->
  Str.take (Z.to_nat offset) content +:+ bytes = Str.take (Z.to_nat offset + String.length bytes) content /\
  (0 < limit -> offset < Str.len content -> bytes <> "") /\
  (Str.len bytes < limit -> offset + Str.len bytes = Str.len content).
Proof.
  unfold read_chunk, Str.len. intros Hoff. destruct (offset <=? _); [|done]. rewrite Z.min_l by lia.
  intros [= <-]. rewrite <- Str.take_add, Str.length_take, Str.length_drop. split_and!.
  - destruct (Nat.min_spec (Z.to_nat limit) (String.length content - Z.to_nat offset)) as [[_ ->]|[Hle ->]]; [done|].
    by rewrite !Str.take_long by lia.
  - intros Hlim Hlt Heq%(f_equal String.length). rewrite Str.length_take, Str.length_drop in Heq. simpl in Heq. lia.
  - lia.
Qed.

(** A chunk arrives.  When the destination holds the first [k] bytes of an
    archive, and the source is asked for a chunk at [k] whose data is then written
    at [k], the destination holds the first [k + n] bytes, where [n] is the number
    the source answered with.  A chunk is empty only at the end, and a source that
    answers with [eof] has given the last one. *)
Theorem chunks_arrive params1 root1 w1 v root1' w1' token archive_path content
    params2 root2 w2 v2 root2' w2' ns k :
  (forall s, decode (encode s) = Some s) ->
  required_str params1 "token" = Ok token -> relay_archive_path relay_root token = Ok archive_path ->
  metadata cwd root1 archive_path = Some (File content) ->
  default 0 (u64_param params1 "offset") = k -> 0 <= k <= Str.len content ->
  archive_read params1 root1 w1 = (Ok v, root1', w1') ->
  checked_path (fs := mounted cwd root2) r auth params2 "staging" true None = Ok (absolute ns) ->
  linkless root2 (ns ++ [payload_name]) ->
  at_ root2 (ns ++ [payload_name]) = Some (File (Str.take (Z.to_nat k) content)) ->
  u64_param params2 "offset" = Some k -> vget params2 "data" = vget v "data" ->
  archive_write params2 root2 w2 = (Ok v2, root2', w2') ->
  exists n, vget v "bytes" = Some (vnat n) /\
    at_ root2' (ns ++ [payload_name]) = Some (File (Str.take (Z.to_nat (k + n)) content)) /\
    (0 < default (8 * 1024 * 1024) (u64_param params1 "limit") -> k < Str.len content -> 0 < n) /\
    (vget v "eof" = Some (VBool true) -> k + n = Str.len content).
Proof.
  intros Hlaw Htoken Hp Hm Hoff Hk Hread Hstaging Hway Hat Hoff2 Hdata Hwrite.
  apply archive_read_run in Hread as (t & ap & c & bytes & Ht & Hap & Hc & Hchunk & ->).
  rewrite Htoken in Ht. injection Ht as <-. rewrite Hp in Hap. injection Hap as <-.
  rewrite Hm in Hc. injection Hc as <-. rewrite Hoff in *.
  destruct (read_chunk_next _ _ _ _ Hk Hchunk) as (Hnext & Hprogress & Hlast).
  assert (vget params2 "data" = Some (VString (encode bytes))) as Hd by exact Hdata.
  exists (Str.len bytes). split_and!.
  - done.
  - revert Hwrite. unfold archive_write, path_param, mbind, M_bind, get, lift. rewrite Hstaging. unfold required_u64.
    rewrite Hoff2. unfold chunk_data, required_str. rewrite Hd. unfold mbind, option_bind, outcome_bind. cbn [ok_or as_str].
    destruct (Str.is_empty (encode bytes)); [done|]. rewrite Hlaw. cbn [ok_or].
    rewrite join_absolute. destruct (write_chunk _ _ _ _ _) as [[[[]|e|] root3] w3] eqn:Hrun; [|done..].
    intros [= _ <- _]. apply (write_chunk_run (ns ++ [payload_name]) _ _ _ _ _ _ (Str.take (Z.to_nat k) content)) in Hrun;
      [|done..|lia|rewrite Str.length_take; unfold Str.len in Hk; lia].
    rewrite Hrun, Hnext. unfold Str.len. by rewrite Z2Nat.inj_add, Nat2Z.id by lia.
  - intros Hlim Hlt. destruct bytes; [by destruct Hprogress; [lia|done|]|unfold Str.len; simpl; lia].
  - intros Heof. apply Hlast. change (Some (VBool (Str.len bytes <? Z.min (default (8 * 1024 * 1024) (u64_param params1 "limit")) (16 * 1024 * 1024))) = Some (VBool true)) in Heof.
    injection Heof as Heof. lia.
Qed.
(** ** A copy is the source *)

(** What copying a node from [src] to [dst] is to do. *)
Definition copies (copy : handler unit) (src dst : list string) (n : node) (root : node) : Prop :=
  wp copy root (fun o root' => (stays dst root root' /\ no_new_links root root') /\ o <> Panic /\
    (o = Ok tt -> exists n', at_ root' dst = Some n' /\ alike n' n)).

Lemma wp_copy_children deeper src dst es children finished root :
  (forall e, e ∈ children -> is_dir e.2 = true -> forall root1,
     at_ root1 (src ++ [e.1]) = Some e.2 -> linkless root1 (src ++ [e.1]) -> linkless root1 (dst ++ [e.1]) ->
     at_ root1 (dst ++ [e.1]) = None ->
     copies (deeper (absolute (src ++ [e.1])) (absolute (dst ++ [e.1]))) (src ++ [e.1]) (dst ++ [e.1]) e.2 root1) ->
  ~ dst `prefix_of` src -> ~ src `prefix_of` dst ->
  at_ root src = Some (Dir es) -> linkless root src -> linkless root dst -> NoDup es.*1 ->
  (forall e, e ∈ children -> e ∈ es) -> NoDup (finished ++ children.*1) -> copying dst es finished root ->
  wp (copy_children deeper (absolute src) (absolute dst) children) root (fun o root' =>
    (stays dst root root' /\ no_new_links root root') /\ o <> Panic /\ (o = Ok tt -> copying dst es (finished ++ children.*1) root')).
Proof.
  intros Hdeep Hds Hsd. revert finished root. induction children as [|e children IH]; intros finished root Hsrc Hls Hld Hnd Hin Hfin Hc.
  { cbn [copy_children]. apply wp_ret. split_and!; [done..|]. intros _. simpl. by rewrite app_nil_r. }
  assert (entry e.1 es = Some e.2) as He by (apply entry_elem; [done|]; destruct e; apply Hin; by left).
  assert (at_ root (src ++ [e.1]) = Some e.2) as Hat by (rewrite at_app, Hsrc; simpl; by rewrite He).
  assert (dir_at root src = true) as Hdir by by eapply at_above.
  apply NoDup_app in Hfin as (Hf1 & Hf2 & Hf3). simpl in Hf2, Hf3. apply NoDup_cons in Hf3 as [Hf3 Hf4].
  assert (at_ root (dst ++ [e.1]) = None) as Hnone.
  { apply (copying_rest _ _ _ _ Hc). intros Hx. apply (Hf2 _ Hx). by left. }
  assert (linkless root (dst ++ [e.1])) as Hld1 by (apply linkless_snoc; [done|]; intros t; by rewrite Hnone).
  assert (~ dst ++ [e.1] `prefix_of` src ++ [e.1]) as Hp1.
  { intros [Heq|Hp]%prefix_snoc_inv; [apply app_inj_tail in Heq as [Heq _]; apply Hds; by rewrite Heq|]. apply Hds. etrans; [by eexists|exact Hp]. }
  assert (~ src ++ [e.1] `prefix_of` dst ++ [e.1]) as Hp2.
  { intros [Heq|Hp]%prefix_snoc_inv; [apply app_inj_tail in Heq as [Heq _]; apply Hds; by rewrite Heq|]. apply Hsd. etrans; [by eexists|exact Hp]. }
  cbn [copy_children]. wp_step. rewrite join_absolute. unfold symlink_metadata. rewrite lplace_in by done.
  change (Some (src ++ [e.1]) ≫= at_ root) with (at_ root (src ++ [e.1])). rewrite Hat. cbn [ok_or].
  apply wp_lift_bind; [intros ? [= <-]|done|done]. rewrite join_absolute.
  eapply (wp_seq _ _ _ (fun o root1 => (stays (dst ++ [e.1]) root root1 /\ no_new_links root root1) /\ o <> Panic /\
    (o = Ok tt -> exists n', at_ root1 (dst ++ [e.1]) = Some n' /\ alike n' e.2))).
  - destruct e as [x n]. simpl in *. destruct n as [c|ds|t|].
    + eapply wp_mono; [apply (wp_fs_copy cwd _ _ _ _ _ c); try done|].
      { apply linkless_snoc; [done|]. intros t. by rewrite Hat. }
      intros o root1 ([[? _] ?] & ? & HO). split_and!; [done..|]. intros Ho. exists (File c). split; [by apply HO|done].
    + apply (Hdeep (x, Dir ds)); try done; [by left|]. apply linkless_snoc; [done|]. intros t. simpl. by rewrite Hat.
    + by apply wp_throw.
    + by apply wp_throw.
  - intros [] root1 ([Hs Hn] & _ & HO). destruct (HO eq_refl) as (n' & Hn' & Hal). apply stays_below in Hs as Hs'.
    rewrite fmap_cons, cons_middle, app_assoc.
    eapply wp_mono; [apply (IH ltac:(intros e' He'; apply Hdeep; by right) (finished ++ [e.1]) root1)|].
    + by rewrite Hs'.
    + by eapply linkless_kept.
    + by eapply linkless_kept.
    + done.
    + intros e' He'. apply Hin. by right.
    + rewrite <- app_assoc. simpl. apply NoDup_app. split_and!; [done..|]. by apply NoDup_cons.
    + by eapply copying_next.
    + intros o root2 ([Hs2 Hn2] & HP & HO2). split_and!; [by etrans..|done|done].
  - intros err root1 ([Hs Hn] & _ & _). split_and!; [by eapply stays_below|done..].
  - by intros root1 (_ & [] & _).
Qed.

(** One level of a tree, given what copies the directories in it. *)
Lemma wp_copy_level deeper src dst es root :
  (forall e, e ∈ es -> is_dir e.2 = true -> forall root1,
     at_ root1 (src ++ [e.1]) = Some e.2 -> linkless root1 (src ++ [e.1]) -> linkless root1 (dst ++ [e.1]) ->
     at_ root1 (dst ++ [e.1]) = None ->
     copies (deeper (absolute (src ++ [e.1])) (absolute (dst ++ [e.1]))) (src ++ [e.1]) (dst ++ [e.1]) e.2 root1) ->
  NoDup es.*1 -> at_ root src = Some (Dir es) -> linkless root src -> linkless root dst -> at_ root dst = None ->
  ~ dst `prefix_of` src -> ~ src `prefix_of` dst ->
  copies (_ ← create_dir_all cwd TRANSFER_FAILED (absolute dst);
          root ← get;
          children ← match metadata cwd root (absolute src) with
                     | Some (Dir es) => mret (by_name es)
                     | _ => throw (io_error READ_FAILED (display (absolute src)))
                     end;
          copy_children deeper (absolute src) (absolute dst) children) src dst (Dir es) root.
Proof.
  intros Hdeep Hnd Hsrc Hls Hld Hnone Hds Hsd.
  eapply wp_seq; [by apply wp_fresh_dir| |intros err root1 ([Hs Hn] & _ & _); by split_and!|by intros root1 (_ & [] & _)].
  intros [] root1 ([Hs Hn] & _ & HO). specialize (HO eq_refl). wp_step.
  rewrite metadata_at, Hs, Hsrc by (done || by eapply linkless_kept). apply wp_ret_bind.
  assert (Permutation (by_name es) es) as Hperm by apply merge_sort_Permutation.
  eapply wp_mono; [apply (wp_copy_children deeper src dst es (by_name es) [])|]; try done.
  - intros e He. rewrite elem_of_by_name in He. by apply Hdeep.
  - by rewrite Hs.
  - by eapply linkless_kept.
  - by eapply linkless_kept.
  - intros e He. by rewrite elem_of_by_name in He.
  - simpl. by rewrite Hperm.
  - split; [unfold dir_at; by rewrite HO|intros x n Hx; by apply not_elem_of_nil in Hx|]. intros x _. by rewrite at_app, HO.
  - intros o root2 ([Hs2 Hn2] & HP & HO2). split_and!; [by etrans..|done|]. intros Ho.
    specialize (HO2 Ho). apply copying_all. destruct HO2 as [H2 H3 H4]. simpl in *. split; [done|..].
    + intros x n Hx Hm. apply H3; [by rewrite Hperm|done].
    + intros x Hx. apply H4. by rewrite Hperm.
Qed.

Lemma wp_copy_relay_tree fuel src dst n root :
  (depth n <= S fuel)%nat -> tidy n -> is_dir n = true -> at_ root src = Some n ->
  linkless root src -> linkless root dst -> at_ root dst = None ->
  ~ dst `prefix_of` src -> ~ src `prefix_of` dst ->
  copies (copy_relay_tree fuel (absolute src) (absolute dst)) src dst n root.
Proof.
  revert src dst n root. induction fuel as [|fuel IH]; intros src dst n root Hdepth Htidy Hdir Hsrc Hls Hld Hnone Hds Hsd;
    destruct n as [|es| |]; try done; apply depth_children in Hdepth; rewrite Forall_forall in Hdepth;
    apply tidy_dir in Htidy as [Hnd Htidy]; rewrite Forall_forall in Htidy; apply wp_copy_level; try done;
    intros e He Hde root1 Hat Hl1 Hl2 Hnone1.
  - exfalso. specialize (Hdepth e). rewrite elem_of_by_name in Hdepth. specialize (Hdepth He).
    destruct e.2; [done|simpl in Hdepth; lia|done..].
  - apply IH; try done.
    + apply Hdepth. by rewrite elem_of_by_name.
    + by apply Htidy.
    + intros [Heq|Hp]%prefix_snoc_inv; [apply app_inj_tail in Heq as [Heq _]; apply Hds; by rewrite Heq|]. apply Hds. etrans; [by eexists|exact Hp].
    + intros [Heq|Hp]%prefix_snoc_inv; [apply app_inj_tail in Heq as [Heq _]; apply Hds; by rewrite Heq|]. apply Hsd. etrans; [by eexists|exact Hp].
Qed.

Definition kind_of (n : node) : string := if is_file n then "file" else "directory".

Lemma wp_copy_artifact fuel src ms y n root :
  (depth n <= S fuel)%nat -> tidy n -> is_file n || is_dir n = true -> at_ root src = Some n ->
  linkless root src -> linkless root (ms ++ [y]) -> at_ root (ms ++ [y]) = None ->
  ~ (ms ++ [y]) `prefix_of` src -> ~ src `prefix_of` (ms ++ [y]) ->
  copies (copy_artifact fuel (kind_of n) (absolute src) (absolute (ms ++ [y]))) src (ms ++ [y]) n root.
Proof.
  intros Hdepth Htidy Hn Hsrc Hls Hld Hnone Hds Hsd. unfold copy_artifact, kind_of.
  destruct n as [content|es| |]; try done; simpl.
  - rewrite parent_absolute. eapply wp_seq; [apply (wp_create_dir_all cwd (fun r1 => stays (ms ++ [y]) root r1 /\ at_ r1 (ms ++ [y]) = None)); [by split| |]
      | |intros e s' ([[Hs _] Hl] & _ & _); by split_and!|by intros s' (_ & [] & _)].
    + eapply linkless_prefix; [exact Hld|by eexists].
    + intros p x r1 r2 Hp [Hs Hno] Hno' Hput.
      assert (p ++ [x] `prefix_of` ms ++ [y]) as Hpre by (etrans; [exact Hp|by eexists]).
      split; [etrans; [exact Hs|by eapply mkdir_stays]|]. destruct Hp as [s ->].
      rewrite <- app_assoc, (at_put_below _ _ _ _ _ Hput). by destruct s.
    + intros [] root1 ([[Hs Hno] Hl] & _ & _).
      eapply wp_mono; [apply (wp_fs_copy cwd _ _ _ _ _ content); try done; [by rewrite Hs|by eapply linkless_kept..]|].
      intros o root2 ([[Hs2 _] Hl2] & HP & HO). split_and!; [by etrans..|done|]. intros Ho. exists (File content). split; [by apply HO|done].
  - by apply wp_copy_relay_tree.
Qed.

Lemma measure_calm kind root p : measure kind root p <> Panic.
Proof.
  unfold measure, measure_file, Files.digest_file, Files.digest_tree.
  by case_decide; destruct (metadata cwd root p) as [[| | |]|].
Qed.
Lemma backup_absolute ns x u : exists b, backup_path (absolute (ns ++ [x])) u = absolute (ns ++ [b]).
Proof. unfold backup_path. rewrite with_extension_absolute. by eexists. Qed.

(** Three places, none in another. *)
Definition three_places (p q s : list string) : Prop :=
  (~ p `prefix_of` q) /\ (~ q `prefix_of` p) /\ (~ p `prefix_of` s) /\ (~ s `prefix_of` p) /\ (~ q `prefix_of` s) /\ ~ s `prefix_of` q.

(** A local copy installs the source.  When it succeeds the destination holds
    the tree that the source was, file by file; a tree that is not deeper than the
    fuel is always copied through.  Source, staging place and destination are
    apart, on ways without links; staging place and backups are new. *)
Theorem local_copy_installs_the_source fuel params root ks k ns x ms y n :
  checked_path (fs := mounted cwd root) r auth params "source" true None = Ok (absolute (ks ++ [k])) ->
  checked_path (fs := mounted cwd root) r auth params "destination" false None = Ok (absolute (ns ++ [x])) ->
  checked_path (fs := mounted cwd root) r auth params "staging" false None = Ok (absolute (ms ++ [y])) ->
  at_ root (ks ++ [k]) = Some n -> (depth n <= S fuel)%nat -> tidy n ->
  (forall old, at_ root (ns ++ [x]) = Some old -> tidy old) ->
  linkless root (ks ++ [k]) /\ linkless root (ns ++ [x]) /\ linkless root (ms ++ [y]) ->
  at_ root (ms ++ [y]) = None ->
  (forall u b, backup_path (absolute (ns ++ [x])) u = absolute (ns ++ [b]) ->
     at_ root (ns ++ [b]) = None /\ b <> x /\ ~ (ns ++ [b]) `prefix_of` (ms ++ [y])) ->
  three_places (ks ++ [k]) (ns ++ [x]) (ms ++ [y]) ->
  wp (relay_local_copy fuel params) root (fun o root' =>
    match o with
    | Ok _ => forall z, view root' ((ns ++ [x]) ++ z) = view root ((ks ++ [k]) ++ z)
    | Err _ => True
    | Panic => False
    end).
Proof.
  intros Hsource Hdest Hstaging Hsrc Hdepth Htidy Hold (Hl1 & Hl2 & Hl3) Hnone Hbackup (Hsd & Hds & Hst & Hts & Hdt & Htd).
  unfold relay_local_copy, path_param. do 2 wp_step. rewrite Hsource. apply wp_lift_bind; [intros ? [= <-]|done|done].
  do 2 wp_step. rewrite Hdest. apply wp_lift_bind; [intros ? [= <-]|done|done].
  do 2 wp_step. rewrite Hstaging. apply wp_lift_bind; [intros ? [= <-]|done|done].
  apply wp_guard_bind; [intros _|done]. wp_step.
  unfold symlink_metadata. rewrite lplace_in by (by eapply at_above).
  change (Some (ks ++ [k]) ≫= at_ root) with (at_ root (ks ++ [k])). rewrite Hsrc.
  apply wp_lift_bind; [intros ? [= <-]|done|done].
  apply wp_lift_bind; [intros kind Hkind|done|by destruct (is_file n), (is_dir n)].
  assert (kind = kind_of n /\ is_file n || is_dir n = true) as [-> Hn] by (destruct n; simpl in Hkind; by inversion Hkind).
  apply wp_lift_bind; [intros expected _|done|by intros ?%measure_calm].
  rewrite exists_on_linkless by done.
  rewrite bool_decide_eq_false_2 by (unfold view; rewrite Hnone; by intros [? ?]). apply wp_ret_bind.
  eapply wp_seq; [by apply wp_copy_artifact| |done|by intros s (_ & [] & _)].
  intros [] root1 ([Hs Hnl] & _ & HO). destruct (HO eq_refl) as (n1 & Hn1 & Halike). wp_step.
  apply wp_lift_bind; [intros copied _|done|by intros ?%measure_calm]. case_decide as Heq.
  - destruct copied as [[digest size] files].
    eapply (wp_seq _ _ _ (fun o root2 => match o with
      | Ok _ => holds root1 root2 (ns ++ [x]) (ms ++ [y]) | Err _ => True | Panic => False end));
      [|intros [] root2 Hc; apply wp_ret|done|done].
    + intros w. destruct (backup_absolute ns x (uuids w (uuid_at w))) as [b Hb].
      destruct (Hbackup _ _ Hb) as (Hnb & Hbx & Hbt).
      assert (~ (ms ++ [y]) `prefix_of` (ns ++ [b])) as Htb.
      { intros [Hp|Hp]%prefix_snoc_inv; [by rewrite Hp in Hbt|]. apply Htd. etrans; [exact Hp|by eexists]. }
      assert (linkless root (ns ++ [b])) as Hlb.
      { apply linkless_snoc; [eapply linkless_prefix; [exact Hl2|by eexists]|]. intros t. by rewrite Hnb. }
      assert (committed ns x b ms y root1 w (commit_relay_staging (absolute (ns ++ [x])) (absolute (ms ++ [y])) root1 w).1.1
        (commit_relay_staging (absolute (ns ++ [x])) (absolute (ms ++ [y])) root1 w).1.2) as Hc.
      { apply swap_in_commits; try done; [apply remove_any_clears_it|split_and!; by eapply linkless_kept| | |by rewrite Hs].
        - unfold view. by rewrite Hs, Hnb.
        - unfold view. by rewrite Hn1. }
      destruct (commit_relay_staging _ _ root1 w) as [[[[]|e|] root2] w2]; cbn in Hc |- *; [|done|by destruct Hc].
      by eapply committed_ok.
    + intros z. rewrite Hc. rewrite (view_app _ _ _ _ Hn1), Halike. by rewrite (view_app _ _ _ _ Hsrc).
  - apply (wp_seq _ _ _ (fun o _ => o <> Panic)); [|intros [] root2 _; by apply wp_throw|done|done].
    intros w. apply ignored_calm, calm_remove_any.
Qed.
End artifacts.

(** ** A small disk *)

#[local] Instance same_base64 : Base64 := {| encode s := s; decode s := Some s |}.
#[local] Instance hash_as_is : Sha256 := fun s => s.

(** An archive that is its first file's content, unpacked by putting the file in place. *)
Definition unpacked_at (destination : path) (root : node) (e : archive_entry) : node :=
  default root (Disk.put (names_of destination ++ [entry_path e]) (File (entry_content e)) root).
#[local] Instance one_file : Archive := {|
  archived es := match es with e :: _ => entry_content e | [] => "" end;
  entries_of s := [Some (ArchiveEntry RegularEntry "payload" (Str.len s) s)];
  unpack_in e destination root w := (Ok true, unpacked_at destination root e, w);
|}.

Definition token32 : string := "0123456789abcdef0123456789abcdef".
Definition artifact_disk : node :=
  Dir [("work", Dir [("src", Dir [("f", File "new"); ("d", Dir [])]); ("out", Dir [("f", File "old")]);
                     ("st", Dir [("payload.tar.gz", File "ab"); ("extracted", Dir [])])]);
       ("relay", Dir [(token32 +:+ ".tar.gz", File "abcdef")])].
Definition work_roots : roots := Roots [absolute ["work"]] [].
Definition calm_world : world := sample_world (fun _ => true).
(** The second call is refused, so the third brings the old artifact back. *)
Definition second_refused : world := sample_world (fun k => negb (k =? 1)%nat).
Definition staged_tree : node := Dir [("payload.tar.gz", File "ab"); ("extracted", Dir [])].
Definition commit_out : Value :=
  json_object [("destination", VString "/work/out"); ("staging", VString "/work/st");
               ("expectedDigest", VString (digest_node staged_tree).1.1)].
Definition committing := relay_commit work_roots nobody [] commit_out artifact_disk second_refused.

Lemma commit_loses_nothing_witness :
  is_ok committing.1.1 = false /\ view committing.1.2 ["work"; "st"; "payload.tar.gz"] = Some (IsFile "ab") /\
  view committing.1.2 ["work"; "out"; "f"] = Some (IsFile "old") /\
  view committing.1.2 ["work"; "out.workbench-backup-u0"] = None.
Proof.
  destruct (commit_loses_nothing work_roots nobody [] ["work"] "out" "out.workbench-backup-u0" ["work"] "st"
    artifact_disk second_refused) as [_ Hc].
  - reflexivity.
  - done.
  - split_and!; apply no_links_linkless; vm_compute; reflexivity.
  - vm_compute. reflexivity.
  - vm_compute. done.
  - intros n. vm_compute. intros [= <-]. split_and!; try done; repeat constructor; by intros ?%not_elem_of_nil.
  - split; intros [s Hs]; by vm_compute in Hs.
  - destruct (Hc commit_out ltac:(vm_compute; reflexivity) ltac:(vm_compute; reflexivity)) as (_ & _ & Hno & Hst & Hback & Hgone).
    split_and!; [exact Hno|exact (Hst ["payload.tar.gz"])|exact (Hback ["f"])|exact Hgone].
Defined.

Definition unpacking := extract_relay_archive [] (absolute ["relay"; token32 +:+ ".tar.gz"]) (absolute ["work"; "st"; "extracted"]) 6 1
  artifact_disk calm_world.
Lemma extraction_stays_within_limits_witness :
  unpacking.1.1 = Ok tt /\ bytes_of [ArchiveEntry RegularEntry "payload" 6 "abcdef"] = 6 /\
  view unpacking.1.2 ["work"; "st"; "extracted"; "payload"] = Some (IsFile "abcdef").
Proof.
  destruct (extraction_stays_within_limits []
    (fun es root => root = foldl (unpacked_at (absolute ["work"; "st"; "extracted"])) artifact_disk es)
    (absolute ["relay"; token32 +:+ ".tar.gz"]) (absolute ["work"; "st"; "extracted"]) 6 1 artifact_disk calm_world "abcdef")
    as (es & Hes & _ & _ & HO).
  - vm_compute. reflexivity.
  - intros e He. apply list_elem_of_singleton in He. injection He as ->. vm_compute. done.
  - done.
  - done.
  - done.
  - intros es e root w ->. by rewrite foldl_snoc.
  - destruct HO as (Hentries & Hbytes & _); [vm_compute; reflexivity|].
    destruct es as [|e [|]]; [done| |done]. injection Hentries as <-. split_and!; [vm_compute; reflexivity|exact Hbytes|].
    unfold unpacking. rewrite Hes. vm_compute. reflexivity.
Defined.

Definition read_chunk_2 : Value := json_object [("token", VString token32); ("offset", vnat 2); ("limit", vnat 3)].
Definition write_chunk_2 : Value := json_object [("staging", VString "/work/st"); ("offset", vnat 2); ("data", VString "cde")].
Definition reading_2 := archive_read [] (absolute ["relay"]) read_chunk_2 artifact_disk calm_world.
Definition writing_2 := archive_write work_roots nobody [] write_chunk_2 artifact_disk calm_world.
Definition answered (o : outcome RpcError.t Value) : Value := match o with Ok v => v | _ => VNull end.

Lemma chunks_arrive_witness :
  at_ writing_2.1.2 ["work"; "st"; "payload.tar.gz"] = Some (File "abcde").
Proof.
  destruct (chunks_arrive work_roots nobody [] (absolute ["relay"]) read_chunk_2 artifact_disk calm_world
    (answered reading_2.1.1) reading_2.1.2 reading_2.2 token32 (absolute ["relay"; token32 +:+ ".tar.gz"]) "abcdef"
    write_chunk_2 artifact_disk calm_world (answered writing_2.1.1) writing_2.1.2 writing_2.2 ["work"; "st"] 2)
    as (n & Hn & Hat & _).
  1-3: try (intros; reflexivity); vm_compute; reflexivity.
  1-2: vm_compute; reflexivity.
  - vm_compute. split; discriminate.
  - vm_compute. reflexivity.
  - vm_compute. reflexivity.
  - apply no_links_linkless. vm_compute. reflexivity.
  - vm_compute. reflexivity.
  - reflexivity.
  - vm_compute. reflexivity.
  - vm_compute. reflexivity.
  - vm_compute in Hn. injection Hn as <-. exact Hat.
Defined.

Definition copy_out : Value := json_object [("source", VString "/work/src"); ("destination", VString "/work/out");
                                            ("staging", VString "/work/tmp")].
Definition copied := relay_local_copy work_roots nobody [] no_len 1 copy_out artifact_disk calm_world.

Lemma copy_out_backup u b :
  backup_path (absolute ["work"; "out"]) u = absolute (["work"] ++ [b]) -> b = "out.workbench-backup-" +:+ u.
Proof. intros Heq. vm_compute in Heq. injection Heq as <-. reflexivity. Qed.

Lemma local_copy_installs_the_source_witness :
  view copied.1.2 ["work"; "out"; "f"] = Some (IsFile "new").
Proof.
  pose proof (local_copy_installs_the_source work_roots nobody [] no_len 1 copy_out artifact_disk ["work"] "src" ["work"] "out"
    ["work"] "tmp" (Dir [("f", File "new"); ("d", Dir [])])) as Hcopy.
  do 3 (specialize (Hcopy ltac:(vm_compute; reflexivity))).
  specialize (Hcopy ltac:(vm_compute; reflexivity) ltac:(vm_compute; lia)).
  assert (tidy (Dir [("f", File "new"); ("d", Dir [])])) as Ht.
  { split_and!; try done; repeat constructor; rewrite ?list_elem_of_singleton; try done; by intros ?%not_elem_of_nil. }
  specialize (Hcopy Ht).
  assert (forall old, at_ artifact_disk (["work"] ++ ["out"]) = Some old -> tidy old) as Hold.
  { intros old. vm_compute. intros [= <-]. split_and!; try done; repeat constructor; by intros ?%not_elem_of_nil. }
  specialize (Hcopy Hold ltac:(split_and!; apply no_links_linkless; vm_compute; reflexivity) ltac:(reflexivity)).
  assert (three_places (["work"] ++ ["src"]) (["work"] ++ ["out"]) (["work"] ++ ["tmp"])) as Hplaces.
  { split_and!; by intros [s Hs]. }
  specialize (Hcopy ltac:(intros u b ->%copy_out_backup; split_and!; [reflexivity|done|by intros [s Hs]]) Hplaces calm_world).
  fold copied in Hcopy. destruct (is_ok copied.1.1) eqn:Hok; [|vm_compute in Hok; done].
  destruct copied as [[[v|e|] root'] w']; [|done..]. exact (Hcopy ["f"]).
Defined.

(** ** Where the code is weak *)

(** [safe_relative] looks at the text only: a link inside the source leads a
    [artifact.relay.read] out of the allowed roots, and one inside the staging
    place an [artifact.relay.write]. *)
Definition linked_disk : node :=
  Dir [("work", Dir [("src", Dir [("l", Link "/etc/passwd")])]); ("etc", Dir [("passwd", File "root")])].
Example relay_read_follows_links :
  match (relay_read work_roots nobody [] (json_object [("path", VString "/work/src"); ("relativePath", VString "l")])
           linked_disk calm_world).1.1 with
  | Ok v => vget v "data" = Some (VString "root")
  | _ => False
  end.
Proof. by vm_compute. Qed.
Example relay_write_follows_links :
  view (relay_write work_roots nobody []
    (json_object [("staging", VString "/work/src"); ("relativePath", VString "l"); ("offset", vnat 0); ("data", VString "evil")])
    linked_disk calm_world).1.2 ["etc"; "passwd"] = Some (IsFile "evil").
Proof. by vm_compute. Qed.

(** [artifact.relay.commit] removes the old artifact as a directory: when it was a
    file the answer is an error, with the new artifact in place and the old one in
    a backup nobody names. *)
Definition file_disk : node := Dir [("work", Dir [("out", File "old"); ("st", Dir [("f", File "new")])])].
Definition commit_st : Value :=
  json_object [("destination", VString "/work/out"); ("staging", VString "/work/st");
               ("expectedDigest", VString (digest_node (Dir [("f", File "new")])).1.1)].
Example commit_over_a_file_reports_failure :
  let run := relay_commit work_roots nobody [] commit_st file_disk calm_world in
  is_ok run.1.1 = false /\ view run.1.2 ["work"; "out"; "f"] = Some (IsFile "new") /\
  view run.1.2 ["work"; "out.workbench-backup-u0"] = Some (IsFile "old").
Proof. by vm_compute. Qed.

(** [artifact.relay.local-copy] rejects a destination in the source but not a
    staging place in it, which it then copies into itself, level by level. *)
Definition copy_inside : Value := json_object [("source", VString "/work/src"); ("destination", VString "/work/out");
                                               ("staging", VString "/work/src/d/tmp")].
Example staging_in_the_source_never_ends :
  (relay_local_copy work_roots nobody [] no_len 20 copy_inside artifact_disk calm_world).1.1 = Panic.
Proof. by vm_compute. Qed.
End Artifacts.
