(* ===== verification/Fencing.v ===== *)
(** * Controller and executor agree on authority
      ([crates/workbench-runtime/src/controller.rs], [crates/workbench-runtime/src/executor.rs])

    What the controller puts into [_authority] ([prepare_input] of [Invoke])
    meets what the executor asks of it ([enforce_authority] of [Enforcement]):
    an invocation it prepares always covers the executor's expectation, and the
    fences it computes make executors keep the order of dispatch. *)

From Stdlib Require Import Ascii String.
From S2P Require Import Prelude RustStd Json Protocol Schema Store Leases Contracts Templates.
From S2P Require Import Controller Samples Drivers Invoke Authority Catalog Arbitration Enforcement.

Module Fencing.
Import Catalog Fences.

(** ** The order of dispatch *)

(** An entry written at [n1] under a lease with the fence [f1] comes before one written at [n2] under [f2]: at an
    earlier millisecond or, within one, under an earlier lease (a fence counts up to [65535]). *)
Definition earlier (n1 f1 n2 f2 : Z) : Prop := n1 < n2 \/ (n1 = n2 /\ f1 < f2 /\ f1 < 65535).

(** It has the smaller fence; the product stays below [2 ^ 64] until the year 10889. *)
Lemma execution_fence_lt n1 f1 n2 f2 :
  earlier n1 f1 n2 f2 -> 0 <= n1 -> n2 < 2 ^ 48 -> 0 <= f1 -> 0 <= f2 ->
  executor_execution_fence n1 f1 < executor_execution_fence n2 f2.
Proof.
  unfold earlier, executor_execution_fence, u64_saturating_add, u64_saturating_mul, u64_max. lia.
Qed.

Lemma authority_entry_speaks cid n l :
  cid <> "" -> Str.starts_with "workspace:" (Lease.resource l) = true ->
  speaks (Invoke.authority_entry cid n l) cid (Lease.resource l)
    (executor_execution_fence n (Lease.fence l)).
Proof.
  intros Hc Hr. unfold speaks, required_str, u64_param, Str.is_empty.
  assert (Lease.resource l <> "") as Hne by (intros He; by rewrite He in Hr).
  set (v := Invoke.authority_entry cid n l).
  change (vget v "controllerId") with (Some (VString cid)).
  change (vget v "resource") with (Some (VString (Lease.resource l))).
  change (vget v "fence") with (Some (vnat (executor_execution_fence n (Lease.fence l)))).
  cbn. by rewrite !bool_decide_eq_false_2.
Qed.

(** The request carries the entry a controller wrote at [n] under the lease [l]. *)
Definition carries (cid : string) (n : Z) (l : Lease.t) (params : Value) : Prop :=
  Invoke.authority_entry cid n l ∈ authorities_of params.

(** The request shows one entry for each of [supplied], in this order. *)
Definition presents (params : Value) (supplied : list string) : Prop :=
  exists authorities,
    vget params "_authority" = Some (VArray authorities) /\
    collect (fun a => required_str a "resource") authorities = Ok supplied.

Section order.
Context `{!Text}.
Variable fuel : nat.

(** An executor that has accepted the later of two entries refuses the earlier one ever after, across failed
    writes and restarts. *)
Lemma overtaken_is_refused executor_id os cid n1 l1 n2 l2 h1 action2 params2 w1 h2 w2 h3
    action1 params1 w3 :
  earlier n1 (Lease.fence l1) n2 (Lease.fence l2) -> 0 <= n1 -> n2 < 2 ^ 48 ->
  0 <= Lease.fence l1 -> 0 <= Lease.fence l2 ->
  cid <> "" -> Lease.resource l1 = Lease.resource l2 ->
  Str.starts_with "workspace:" (Lease.resource l2) = true ->
  lifetime fuel (open executor_id os None) h1 ->
  enforce_authority fuel action2 params2 h1 w1 = (Ok tt, h2, w2) -> fenced os action2 ->
  carries cid n2 l2 params2 ->
  lifetime fuel h2 h3 ->
  fenced os action1 -> carries cid n1 l1 params1 ->
  (enforce_authority fuel action1 params1 h3 w3).1.1 <> Ok tt.
Proof.
  intros Hn Hn1 Hmax Hf1 Hf2 Hcid Hr Hw Hl1 Hrun2 Hfen2 Hin2 Hl2 Hfen1 Hin1 Hok. apply ok_pair in Hok.
  pose proof (authority_entry_speaks cid n2 l2 Hcid Hw) as Hsp2.
  assert (Str.starts_with "workspace:" (Lease.resource l1) = true) as Hw1 by (by rewrite Hr).
  pose proof (authority_entry_speaks cid n1 l1 Hcid Hw1) as Hsp1. rewrite Hr in Hsp1.
  destruct (lifetime_forward fuel _ _ Hl1 (sealed_open _ _ _)) as (Hs1 & _ & _ & Ht1). simpl in Ht1.
  rewrite <- Ht1 in Hfen2.
  destruct (enforce_records fuel _ _ _ _ _ _ _ _ _ _ (proj1 Hs1) Hfen2 Hrun2 Hin2 Hsp2) as (_ & Hrec & Hs2).
  destruct (lifetime_forward fuel _ _ Hl2 Hs2) as (Hs3 & Hadv & _ & Ht3).
  pose proof (forward_enforce fuel action2 params2 h1 w1) as Hfw. rewrite Hrun2 in Hfw.
  destruct (Hfw Hs1) as (_ & _ & _ & Ht2). simpl in Ht2.
  assert (target h3 = os) as Ht by congruence. rewrite <- Ht in Hfen1.
  destruct (enforce_records fuel _ _ _ _ _ _ _ _ _ _ (proj1 Hs3) Hfen1 Hok Hin1 Hsp1) as (Hle & _ & _).
  destruct (proj2 Hs3 (workspace_key cid (Lease.resource l2))
    (executor_execution_fence n2 (Lease.fence l2))) as (g & Hg & Hge).
  { apply Hadv. by eexists. }
  specialize (Hle _ Hg). pose proof (execution_fence_lt n1 (Lease.fence l1) n2 (Lease.fence l2) Hn Hn1 Hmax Hf1 Hf2). lia.
Qed.
End order.

(** ** What the controller prepares covers what the executor expects *)

Lemma Forall2_refine {A B} (Q R : A -> B -> Prop) l l' :
  Forall2 Q l l' -> (forall x y, x ∈ l -> Q x y -> R x y) -> Forall2 R l l'.
Proof.
  induction 1 as [|x y l l' Hxy _ IH]; intros Hr; constructor; [by apply Hr; [left|]|].
  apply IH. intros x' y' Hx'. apply Hr. by right.
Qed.

Lemma Forall2_second {A B} (Q : A -> B -> Prop) (R : B -> Prop) l l' :
  Forall2 Q l l' -> (forall x y, Q x y -> R y) -> Forall R l'.
Proof. intros Hf Hr. induction Hf; constructor; eauto. Qed.

Lemma collect_length {A B} (f : A -> outcome RpcError.t B) l ys :
  collect f l = Ok ys -> length l = length ys.
Proof. intros Hl%collect_Ok. by eapply Forall2_length. Qed.

(** The entries name the leases' resources, in order. *)
Lemma authority_entries_resources cid ls c w es c' w' :
  Forall (fun l => Lease.resource l <> "") ls ->
  Invoke.authority_entries cid ls c w = (Ok es, c', w') ->
  collect (fun a => required_str a "resource") es = Ok (Lease.resource <$> ls) /\ c' = c.
Proof.
  intros Hne. revert c w es c' w'. induction Hne as [|l ls Hl _ IH]; intros c w es c' w' Hrun; cbn in Hrun.
  { by apply ret_Ok_inv in Hrun as (-> & -> & _). }
  apply bind_Ok_inv in Hrun as (n & ? & ? & Hn & Hrun). ok_inv Hn.
  apply bind_Ok_inv in Hrun as (rest & ? & ? & Hrest & Hrun). apply IH in Hrest as [Hrest ->].
  apply ret_Ok_inv in Hrun as (-> & -> & _). split; [|done]. cbn [collect].
  assert (forall n, required_str (Invoke.authority_entry cid n l) "resource" = Ok (Lease.resource l)) as ->.
  { intros n. unfold required_str, Str.is_empty. set (v := Invoke.authority_entry cid n l).
    change (vget v "resource") with (Some (VString (Lease.resource l))). cbn.
    by rewrite bool_decide_eq_false_2. }
  cbn. by rewrite Hrest.
Qed.

Lemma prepare_input_fields t lease acquired input c w v c' w' :
  Invoke.readonly t = false ->
  Forall (fun l => Lease.resource l <> "")
    (lease :: take (length (CapabilityDescriptor.locks (Invoke.contract t))) acquired) ->
  Invoke.prepare_input t (Some lease) acquired input c w = (Ok v, c', w') ->
  (forall key, key ∉ Authority.prepared_fields -> vget v key = vget input key) /\
  vget v "_workspaceSessionId" = Some (VString (Invoke.workspace t)) /\
  exists es, vget v "_authority" = Some (VArray es) /\
    collect (fun a => required_str a "resource") es =
    Ok (Lease.resource <$>
          lease :: take (length (CapabilityDescriptor.locks (Invoke.contract t))) acquired).
Proof.
  unfold Invoke.prepare_input. intros -> Hne Hrun.
  apply bind_Ok_inv in Hrun as (? & ? & ? & Hg & Hrun). ok_inv Hg.
  apply bind_Ok_inv in Hrun as (v1 & c1 & w1 & Hin & Hrun).
  apply bind_Ok_inv in Hin as (v0 & ? & ? & [H0 ->]%Authority.set_field_Ok & Hin).
  apply bind_Ok_inv in Hin as (es & ? & ? & Hes & Hin).
  apply authority_entries_resources in Hes as [Hes ->]; [|done].
  apply Authority.set_field_Ok in Hin as [H1 ->].
  apply bind_Ok_inv in Hrun as (v2 & ? & ? & [H2 ->]%Authority.set_field_Ok & [H3 _]%Authority.set_field_Ok).
  split.
  - unfold Authority.prepared_fields. intros key Hkey. rewrite !not_elem_of_cons in Hkey.
    destruct Hkey as (? & ? & ? & ? & _).
    rewrite (vget_vset_ne _ _ _ _ _ H3), (vget_vset_ne _ _ _ _ _ H2), (vget_vset_ne _ _ _ _ _ H1),
      (vget_vset_ne _ _ _ _ _ H0); congruence.
  - split.
    + rewrite (vget_vset_ne _ _ _ _ _ H3), (vget_vset_ne _ _ _ _ _ H2), (vget_vset_ne _ _ _ _ _ H1) by done.
      by eapply vget_vset.
    + exists es. split; [|exact Hes].
      rewrite (vget_vset_ne _ _ _ _ _ H3), (vget_vset_ne _ _ _ _ _ H2) by done. by eapply vget_vset.
Qed.

(** What the catalog says of a workspace capability's locks: they read as text
    followed by slots, the slots are required fields and none of those the
    controller adds, and there is at most one lock. *)
Definition opens_with_text (template : string) : bool :=
  match pieces template with Lit text :: _ => negb (bool_decide (text = "")) | _ => false end.

Definition driver_contract_ok (c : CapabilityDescriptor.t) : bool :=
  match CapabilityDescriptor.authority c with
  | CapabilityAuthority.WorkspaceDriver =>
      declares_object c && Nat.leb (length (CapabilityDescriptor.locks c)) 1 &&
      forallb (fun l => template_ok (schema_required c) (LockTemplate.key l) &&
                        private_lock (LockTemplate.key l) && opens_with_text (LockTemplate.key l) &&
                        forallb (fun key => negb (bool_decide (key ∈ Authority.prepared_fields)))
                          (slots (pieces (LockTemplate.key l))))
        (CapabilityDescriptor.locks c)
  | _ => true
  end.

Lemma sort_dedup_perm rs : NoDup rs -> Resources.sort_dedup rs ≡ₚ rs.
Proof.
  intros Hnd. apply NoDup_Permutation; [apply Resources.NoDup_sort_dedup|done|].
  intros r. apply Resources.elem_of_sort_dedup.
Qed.

Section coverage.
Context {P : Platform}.

Lemma fill_agree ps input v :
  (forall key, key ∈ slots ps -> vget v key = vget input key) -> fill ps v = fill ps input.
Proof.
  induction ps as [|[text|key] ps IH]; intros Hs; [done| |]; cbn [fill].
  - by rewrite IH.
  - rewrite (Hs key) by left. destruct (vget input key); [|done]. rewrite IH; [done|].
    intros k Hk. apply Hs. by right.
Qed.

Lemma driver_lock_agrees os c lock fuel input v :
  c ∈ capability_catalog os -> CapabilityDescriptor.authority c = CapabilityAuthority.WorkspaceDriver ->
  lock ∈ CapabilityDescriptor.locks c -> (4 <= fuel)%nat ->
  validate_schema (CapabilityDescriptor.input_schema c) input "input" = Ok tt -> fields_plain input ->
  (forall key, key ∉ Authority.prepared_fields -> vget v key = vget input key) ->
  exists r, render_lock fuel (LockTemplate.key lock) input = Ok r /\
            render_authority_resource fuel (LockTemplate.key lock) v = Ok r /\
            r <> "" /\ Str.starts_with "workspace:" r = false.
Proof.
  intros Hc Ha Hlock Hf Hschema Hplain Hv.
  pose proof (catalog_forallb driver_contract_ok os c ltac:(vm_compute; done) Hc) as Hok.
  unfold driver_contract_ok in Hok. rewrite Ha, !andb_true_iff in Hok. destruct Hok as [[Hobj _] Hlocks].
  rewrite forallb_forall in Hlocks. apply list_elem_of_In, Hlocks in Hlock.
  rewrite !andb_true_iff in Hlock. destruct Hlock as [[[Ht Hpriv] Hopen] Hprep].
  apply template_ok_inv in Ht as (Hsp & Hps & Hlen & Hreq).
  assert (forall key, key ∈ slots (pieces (LockTemplate.key lock)) -> vget v key = vget input key) as Hagree.
  { intros key Hk. apply Hv. rewrite forallb_forall in Hprep.
    apply list_elem_of_In, Hprep, negb_true_iff, bool_decide_eq_false in Hk. done. }
  destruct (fill_Ok (pieces (LockTemplate.key lock)) input) as [r Hr].
  { intros key Hk. eapply accepted_required; [done|exact Hschema|]. by apply Hreq. }
  assert (render_authority_resource fuel (LockTemplate.key lock) v = Ok r) as Hexec.
  { rewrite <- Hsp at 1. rewrite render_authority_fill; [|done| |lia].
    - by rewrite (fill_agree _ input v Hagree), Hr.
    - intros key x Hk Hx. rewrite Hagree in Hx by done. by eapply Hplain. }
  exists r. split.
  { rewrite <- Hsp at 1. rewrite render_lock_fill; [by rewrite Hr|done|by apply fields_plain_at|lia]. }
  split; [done|]. split; [|by eapply private_lock_rendered].
  unfold opens_with_text in Hopen. destruct (pieces (LockTemplate.key lock)) as [|[text|key] ps]; try done.
  apply negb_true_iff, bool_decide_eq_false in Hopen. cbn [fill] in Hr.
  destruct (fill ps input) as [rest|e|]; try done. injection Hr as <-. by destruct text.
Qed.

(** The locks of a contract, on both sides. *)
Lemma driver_locks_agree os c fuel input v locks :
  c ∈ capability_catalog os -> CapabilityDescriptor.authority c = CapabilityAuthority.WorkspaceDriver ->
  (4 <= fuel)%nat ->
  validate_schema (CapabilityDescriptor.input_schema c) input "input" = Ok tt -> fields_plain input ->
  (forall key, key ∉ Authority.prepared_fields -> vget v key = vget input key) ->
  collect (fun lock => render_lock fuel (LockTemplate.key lock) input) (CapabilityDescriptor.locks c) = Ok locks ->
  lock_names fuel v (CapabilityDescriptor.locks c) = Ok locks /\
  Forall (fun r => r <> "" /\ Str.starts_with "workspace:" r = false) locks /\ NoDup locks.
Proof.
  intros Hc Ha Hf Hschema Hplain Hv Hl%collect_Ok.
  assert (Forall2 (fun lock r => render_authority_resource fuel (LockTemplate.key lock) v = Ok r /\
            r <> "" /\ Str.starts_with "workspace:" r = false) (CapabilityDescriptor.locks c) locks) as Hboth.
  { eapply Forall2_refine; [exact Hl|]. intros lock r Hlock Hr.
    destruct (driver_lock_agrees os c lock fuel input v Hc Ha Hlock Hf Hschema Hplain Hv)
      as (r' & Hr' & Hrest). rewrite Hr in Hr'. by injection Hr' as <-. }
  split_and!.
  - apply collect_Ok. eapply Forall2_impl; [exact Hboth|]. by intros lock r [? _].
  - eapply Forall2_second; [exact Hboth|]. by intros lock r [_ ?].
  - pose proof (catalog_forallb driver_contract_ok os c ltac:(vm_compute; done) Hc) as Hok.
    unfold driver_contract_ok in Hok. rewrite Ha, !andb_true_iff, Nat.leb_le in Hok.
    destruct Hok as [[_ Hlen] _]. apply Forall2_length in Hl.
    destruct locks as [|r1 [|r2 rest]]; simpl in Hl; [constructor|apply NoDup_singleton|lia].
Qed.

Lemma set_field_world v k new c w v' c' w' : Controller.set_field v k new c w = (Ok v', c', w') -> w' = w.
Proof. unfold Controller.set_field. intros Hrun. by ok_inv Hrun. Qed.

(** The first entry is the driver lease's, with the clock as it stood. *)
Lemma prepare_input_carries t lease acquired input c w v c' w' :
  Invoke.readonly t = false ->
  Invoke.prepare_input t (Some lease) acquired input c w = (Ok v, c', w') ->
  carries (Controller.id c) (clock w (clock_at w)) lease v.
Proof.
  unfold Invoke.prepare_input. intros -> Hrun.
  apply bind_Ok_inv in Hrun as (? & ? & ? & Hg & Hrun). ok_inv Hg.
  apply bind_Ok_inv in Hrun as (v1 & c1 & w1 & Hin & Hrun).
  apply bind_Ok_inv in Hin as (v0 & ? & ? & H0 & Hin).
  pose proof (set_field_world _ _ _ _ _ _ _ _ H0) as ->. apply Authority.set_field_Ok in H0 as [_ ->].
  apply bind_Ok_inv in Hin as (es & ? & ? & Hes & Hin).
  apply bind_Ok_inv in Hes as (n & ? & ? & Hn & Hes). ok_inv Hn.
  apply bind_Ok_inv in Hes as (rest & ? & ? & _ & [-> _]%ret_Ok_inv).
  apply Authority.set_field_Ok in Hin as [H1 ->].
  apply bind_Ok_inv in Hrun as (v2 & ? & ? & [H2 ->]%Authority.set_field_Ok & [H3 _]%Authority.set_field_Ok).
  unfold carries, authorities_of.
  rewrite (vget_vset_ne _ _ _ _ _ H3), (vget_vset_ne _ _ _ _ _ H2), (vget_vset _ _ _ _ H1) by done. by left.
Qed.


(** C14. The executor never refuses for coverage what a controller has prepared.
    For a workspace capability of the catalog, an input its schema accepts, a
    driver lease of the session's workspace and leases on the locks the
    controller rendered, the prepared input carries one [_authority] entry per
    resource the executor will expect, and no other. *)
Theorem prepared_authority_is_covered os executor_id fuel t lease acquired resources input c w v c' w' :
  find_contract os (Invoke.capability t) = Some (Invoke.contract t) ->
  CapabilityDescriptor.authority (Invoke.contract t) = CapabilityAuthority.WorkspaceDriver ->
  Invoke.workspace t <> "" -> Lease.resource lease = Drivers.workspace_resource (Invoke.workspace t) ->
  (4 <= fuel)%nat ->
  validate_schema (CapabilityDescriptor.input_schema (Invoke.contract t)) input "input" = Ok tt ->
  fields_plain input ->
  Invoke.lock_resources fuel t input = Ok resources -> Lease.resource <$> acquired = resources ->
  Invoke.prepare_input t (Some lease) acquired input c w = (Ok v, c', w') ->
  exists expected supplied,
    expected_resources fuel executor_id (Invoke.contract t) v = Ok expected /\
    presents v supplied /\ covers expected supplied = true.
Proof.
  intros Hc%find_contract_elem Ha Hws Hlease Hf Hschema Hplain Hlocks Hacq Hprep.
  assert (Invoke.readonly t = false) as Hro by (unfold Invoke.readonly; by rewrite Ha).
  apply bind_Ok in Hlocks as (locks & Hlocks & Hres).
  assert (take (length (CapabilityDescriptor.locks (Invoke.contract t))) resources = locks) as Htake.
  { rewrite (collect_length _ _ _ Hlocks). destruct (_ && _) in Hres; [|injection Hres as <-].
    - apply bind_Ok in Hres as (extra & _ & [= <-]). by rewrite take_app_length.
    - by rewrite take_ge. }
  assert (forall v', (forall key, key ∉ Authority.prepared_fields -> vget v' key = vget input key) ->
    lock_names fuel v' (CapabilityDescriptor.locks (Invoke.contract t)) = Ok locks /\
    Forall (fun r => r <> "" /\ Str.starts_with "workspace:" r = false) locks /\ NoDup locks) as Hagree.
  { intros v' Hv'. by eapply driver_locks_agree. }
  destruct (Hagree input ltac:(done)) as (_ & Hpriv & Hnd).
  assert (Lease.resource <$> take (length (CapabilityDescriptor.locks (Invoke.contract t))) acquired = locks)
    as Hacq' by (by rewrite fmap_take, Hacq).
  apply prepare_input_fields in Hprep as (Hfields & Hsession & es & Hes & Hsup); [|done|].
  2:{ constructor; [by rewrite Hlease|]. apply Forall_forall. intros l Hl. rewrite Forall_forall in Hpriv.
      apply (Hpriv (Lease.resource l)). rewrite <- Hacq'. by apply list_elem_of_fmap_2. }
  destruct (Hagree v Hfields) as (Hnames & _ & _).
  exists (Resources.sort_dedup (("workspace:" +:+ Invoke.workspace t) :: locks)).
  eexists. split_and!; [|by exists es; split; [exact Hes|exact Hsup]|].
  - unfold expected_resources. rewrite Ha. unfold required_str. rewrite Hsession. cbn.
    unfold Str.is_empty. rewrite bool_decide_eq_false_2 by done. cbn. by rewrite Hnames.
  - rewrite fmap_cons, Hlease, Hacq'. unfold Drivers.workspace_resource.
    set (own := "workspace:" +:+ Invoke.workspace t).
    assert (NoDup (own :: locks)) as Hall.
    { apply NoDup_cons. split; [|done]. intros Hin. rewrite Forall_forall in Hpriv.
      destruct (Hpriv _ Hin) as [_ Hs]. unfold own in Hs. by rewrite Str.starts_with_app in Hs. }
    unfold covers. apply andb_true_iff. split.
    + apply bool_decide_eq_true. apply Permutation_length. by apply sort_dedup_perm.
    + apply forallb_forall. intros r Hr%list_elem_of_In. apply bool_decide_eq_true.
      by apply Resources.elem_of_sort_dedup.
Qed.
End coverage.

(** ** Witnesses *)

Definition sample_driver_lease (fence : Z) : Lease.t :=
  Lease.mk "lease_1" LeaseKind.Resource "workspace:s1" "a1" "token_1" fence 10 10 2000 None.
Definition sample_lock_lease : Lease.t :=
  Lease.mk "lease_2" LeaseKind.Resource "filesystem:/srv/a" "a1" "token_2" 1 10 10 2000 None.

Definition sample_target : Invoke.target :=
  Invoke.Target "node-a" "filesystem.write" "s1" "a1" "key-1" Invoke.sample_executor
    (contract Linux "filesystem.write" Effect.Mutating).
Definition sample_input : Value :=
  json_object [("path", VString "/srv/a"); ("content", VString "hello")].

(** Two writes as the controller dispatched them, at 999 under the first lease and at 1000 under the second; the
    executor gets the second one first. *)
Definition world_at (n : Z) : world := World (fun _ => n) (fun i => pretty i) (fun _ => true) 0 0 0.
Definition dispatch_at (n fence : Z) :=
  Invoke.prepare_input sample_target (Some (sample_driver_lease fence)) [sample_lock_lease]
    sample_input (sample_controller WorkbenchState.default) (world_at n).
Definition sent_at (n fence : Z) : Value :=
  match (dispatch_at n fence).1.1 with Ok v => v | _ => VNull end.
Abbreviation accept params h := (enforce_authority (H := platform_text (Platform := sample_platform)) 4
  "filesystem.write" params h quiet_world).
Abbreviation host_reached := (accept (sent_at 1000 2) fresh_host).1.2.

Lemma sample_fenced_write : fenced Linux "filesystem.write".
Proof. exists (contract Linux "filesystem.write" Effect.Mutating). by vm_compute. Qed.


Abbreviation prepared :=
  (Invoke.prepare_input sample_target (Some (sample_driver_lease 2)) [sample_lock_lease]
     sample_input (sample_controller WorkbenchState.default) quiet_world).

Lemma prepared_authority_is_covered_witness :
  exists v, prepared.1.1 = Ok v /\
  exists expected supplied,
    expected_resources (H := platform_text (Platform := sample_platform)) 4 "node-a"
      (Invoke.contract sample_target) v = Ok expected /\
    presents v supplied /\ covers expected supplied = true.
Proof.
  destruct (ok_run _ _ _ (ltac:(vm_compute; done) : is_ok prepared.1.1 = true)) as [v Hv].
  exists v. split; [by rewrite Hv|].
  refine (prepared_authority_is_covered (P := sample_platform) Linux "node-a" 4 sample_target
    (sample_driver_lease 2) [sample_lock_lease] ["filesystem:/srv/a"] sample_input _ _ v _ _
    _ eq_refl _ eq_refl _ eq_refl _ _ eq_refl Hv); [by vm_compute|done|lia| |by vm_compute].
  intros key x Hx.
  change (obj_get [("content", VString "hello"); ("path", VString "/srv/a")] key = Some x) in Hx.
  simpl in Hx. repeat case_decide; by simplify_eq.
Defined.
End Fencing.
