(* ===== verification/Desktop.v ===== *)
(** * The desktop queue ([crates/workbench-runtime/src/desktop.rs])

    One durable FIFO of sessions per interactive desktop.  At most one session
    holds the desktop; an action is written down before it is dispatched, so a
    crash in the middle of it blocks the desktop until an operator resets it.
    [host] pairs the queue with its state file; a write may fail at any time.
    The last section composes the queue with the execution gate of
    [crates/workbench-runtime/src/executor.rs]. *)

From Stdlib Require Import String.
From S2P Require Import Prelude RustStd Json Protocol.

Module DesktopQueue.

Module Job.
Record t := mk {
  id : string;
  owner : string;
  request_key : string;
  token : string;
  state : string;
  epoch : Z;
  ttl_ms : Z;
  submitted_at : Z;
  expires_at : Z;
}.

Definition with_state (s : string) (j : t) : t :=
  mk (id j) (owner j) (request_key j) (token j) s (epoch j) (ttl_ms j) (submitted_at j)
    (expires_at j).
Definition with_expires_at (e : Z) (j : t) : t :=
  mk (id j) (owner j) (request_key j) (token j) (state j) (epoch j) (ttl_ms j)
    (submitted_at j) e.
Definition with_epoch (e : Z) (j : t) : t :=
  mk (id j) (owner j) (request_key j) (token j) (state j) e (ttl_ms j) (submitted_at j)
    (expires_at j).

(** The derived serializer, field by field. *)
Definition fields (j : t) : list (string * Value) :=
  [("id", vstr (id j)); ("owner", vstr (owner j)); ("requestKey", vstr (request_key j));
   ("token", vstr (token j)); ("state", vstr (state j)); ("epoch", vnat (epoch j));
   ("ttlMs", vnat (ttl_ms j)); ("submittedAt", vnat (submitted_at j));
   ("expiresAt", vnat (expires_at j))].
Definition to_value (j : t) : Value := json_object (fields j).
End Job.

Record t := mk {
  path : option string;
  epoch : Z;
  jobs : list Job.t;
  in_flight : bool;
  blocked : bool;
  maintenance_owner : option string;
}.

Definition default_queue : t := mk None 0 [] false false None.

(** The file holds the queue without its path ([serde(skip)]). *)
Record host := Host {
  queue : t;
  disk : option t;
}.

Definition set_path (p : option string) (q : t) : t :=
  mk p (epoch q) (jobs q) (in_flight q) (blocked q) (maintenance_owner q).
Definition set_epoch (e : Z) (q : t) : t :=
  mk (path q) e (jobs q) (in_flight q) (blocked q) (maintenance_owner q).
Definition set_jobs (js : list Job.t) (q : t) : t :=
  mk (path q) (epoch q) js (in_flight q) (blocked q) (maintenance_owner q).
Definition set_in_flight (b : bool) (q : t) : t :=
  mk (path q) (epoch q) (jobs q) b (blocked q) (maintenance_owner q).
Definition set_blocked (b : bool) (q : t) : t :=
  mk (path q) (epoch q) (jobs q) (in_flight q) b (maintenance_owner q).
Definition set_maintenance_owner (o : option string) (q : t) : t :=
  mk (path q) (epoch q) (jobs q) (in_flight q) (blocked q) o.

Definition on_queue (f : t -> t) (h : host) : host := Host (f (queue h)) (disk h).
(** [self.jobs[i] = f(self.jobs[i])] *)
Definition on_job (i : nat) (f : Job.t -> Job.t) (q : t) : t := set_jobs (alter f i (jobs q)) q.

Definition handler := M host RpcError.t.

(** ** Operations *)

Definition field (v : Value) (name : string) : outcome RpcError.t string :=
  match as_str (vindex v name) with
  | Some s =>
      if negb (Str.is_empty s) && (Str.len s <=? 256) then Ok s
      else Err (RpcError.new "INVALID_PARAMS" (name +:+ " must be 1..256 bytes"))
  | None => Err (RpcError.new "INVALID_PARAMS" (name +:+ " must be 1..256 bytes"))
  end.

Definition protected (action : string) : bool :=
  bool_decide (action = "computer-use.call")
  || bool_decide (action = "computer-use.tools")
  || Str.starts_with "application." action
  || Str.starts_with "ui." action
  || bool_decide (action = "clipboard.write").

(** The sync'ed temporary file replaces the state file as a whole. *)
Definition save : handler unit :=
  h ← get;
  match path (queue h) with
  | None => mret tt
  | Some _ =>
      _ ← fresh_uuid; ok ← write_ok;
      if (ok : bool) then put (Host (queue h) (Some (set_path None (queue h))))
      else throw (RpcError.new "DESKTOP_STATE_FAILED" "io error")
  end.

Definition holding (j : Job.t) : bool :=
  bool_decide (Job.state j = "active") || bool_decide (Job.state j = "draining").

Definition active (q : t) : option nat := position holding (jobs q).

(** What [open] makes of the file before it saves. *)
Definition reopen (p : string) (file : option t) : t :=
  let q := set_path (Some p) (default default_queue file) in
  if in_flight q || existsb holding (jobs q)
  then set_in_flight false (set_blocked true q) else q.

Definition open (p : string) (file : option t) (w : world) : outcome RpcError.t unit * host * world :=
  save (Host (reopen p file) file) w.

Definition needs_cleanup : handler bool :=
  h ← get;
  let q := queue h in
  if blocked q || in_flight q then mret false
  else match active q with
  | None => mret false
  | Some i =>
      job ← lift (index (jobs q) i);
      n ← now;
      if Job.expires_at job <=? n then
        _ ← modify (on_queue (on_job i (Job.with_state "draining"))); mret true
      else mret (bool_decide (Job.state job = "draining"))
  end.

Definition promote : handler unit :=
  h ← get;
  let q := queue h in
  if bool_decide (maintenance_owner q = None) && negb (blocked q) && negb (in_flight q)
     && bool_decide (active q = None)
  then match position (fun j => bool_decide (Job.state j = "queued")) (jobs q) with
  | None => mret tt
  | Some i =>
      let e := u64_add (epoch q) 1 in
      n ← now;
      _ ← modify (on_queue (fun q =>
            on_job i (fun j => Job.with_expires_at (u64_saturating_add n (Job.ttl_ms j))
                                 (Job.with_state "active" (Job.with_epoch e j)))
              (set_epoch e q)));
      save
  end
  else mret tt.

Definition cleanup_done (success : bool) : handler unit :=
  h ← get;
  _ ← (if success then
         match active (queue h) with
         | None => mret tt
         | Some i =>
             job ← lift (index (jobs (queue h)) i);
             n ← now;
             modify (on_queue (on_job i (Job.with_state
               (if Job.expires_at job <=? n then "expired" else "completed"))))
         end
       else modify (on_queue (set_blocked true)) : handler unit);
  _ ← save;
  promote.

(** ["desktop.list"]: the sessions without their tokens. *)
Definition public (j : Job.t) : Value :=
  match Job.to_value j with
  | VObject o => VObject (obj_remove o "token")
  | v => v
  end.

Definition list_queue (q : t) : Value :=
  json_object
    [("jobs", VArray (public <$> jobs q));
     ("blocked", VBool (blocked q)); ("inFlight", VBool (in_flight q));
     ("maintenanceOwner", vopt vstr (maintenance_owner q));
     ("safePoint", VBool (bool_decide (is_Some (maintenance_owner q)) && negb (blocked q)
                          && negb (in_flight q) && bool_decide (active q = None)))].

Definition maintenance (params : Value) : handler Value :=
  owner ← lift (field params "owner");
  enabled ← lift (ok_or (RpcError.new "INVALID_PARAMS" "enabled is required")
                    (as_bool (vindex params "enabled")));
  h ← get;
  _ ← guard (match maintenance_owner (queue h) with
             | Some current => bool_decide (current = owner) | None => true end)
        (RpcError.new "MAINTENANCE_OWNED" "another operator owns desktop maintenance");
  _ ← modify (on_queue (set_maintenance_owner (if (enabled : bool) then Some owner else None)));
  _ ← save;
  _ ← promote;
  h' ← get;
  mret (list_queue (queue h')).

Definition same_key (owner key : string) (j : Job.t) : bool :=
  bool_decide (Job.owner j = owner) && bool_decide (Job.request_key j = key).

Definition submit (params : Value) : handler Value :=
  owner ← lift (field params "owner");
  key ← lift (field params "requestKey");
  h ← get;
  match bfind (same_key owner key) (jobs (queue h)) with
  | Some job => mret (Job.to_value job)
  | None =>
      _ ← guard (negb (10000 <=? Z.of_nat (length (jobs (queue h)))))
            (RpcError.new "DESKTOP_QUEUE_FULL" "archive completed sessions before submitting more");
      let ttl := default 900000 (as_u64 (vindex params "ttlMs")) in
      _ ← guard ((1000 <=? ttl) && (ttl <=? 3600000))
            (RpcError.new "INVALID_PARAMS" "ttlMs must be 1000..3600000");
      id ← fresh_uuid; token ← fresh_uuid; n ← now;
      _ ← modify (on_queue (fun q => set_jobs (jobs q ++
            [Job.mk id owner key token "queued" 0 ttl n 0]) q));
      _ ← save;
      _ ← promote;
      h' ← get;
      job ← lift (expect (last (jobs (queue h'))));
      mret (Job.to_value job)
  end.

(** The shared arm of ["desktop.get"], ["renew"], ["finish"] and ["cancel"]. *)
Definition with_credentials (action : string) (params : Value) : handler Value :=
  token ← lift (field params "token");
  owner ← lift (field params "owner");
  h ← get;
  let q := queue h in
  i ← lift (ok_or (RpcError.new "DESKTOP_SESSION_INVALID" "unknown session credentials")
              (position (fun j => bool_decide (Job.token j = token)
                                  && bool_decide (Job.owner j = owner)) (jobs q)));
  job ← lift (index (jobs q) i);
  _ ← (if decide (action = "desktop.renew") then
         n1 ← now;
         _ ← guard (negb (negb (bool_decide (Job.state job = "active"))
                          || (Job.expires_at job <=? n1) || blocked q))
               (RpcError.new "DESKTOP_SESSION_INACTIVE" "only a live active session can renew");
         n2 ← now;
         modify (on_queue (on_job i
           (Job.with_expires_at (u64_saturating_add n2 (Job.ttl_ms job)))))
       else if decide (action = "desktop.finish" \/ action = "desktop.cancel") then
         if decide (Job.state job = "queued")
         then modify (on_queue (on_job i (Job.with_state "cancelled")))
         else if decide (Job.state job = "active")
         then modify (on_queue (on_job i (Job.with_state "draining")))
         else mret tt
       else mret tt : handler unit);
  h' ← get;
  job' ← lift (index (jobs (queue h')) i);
  let value := Job.to_value job' in
  _ ← save;
  mret value.

Definition recover (params : Value) : handler Value :=
  h ← get;
  _ ← guard (negb (negb (blocked (queue h)) || in_flight (queue h)
                   || negb (bool_decide (as_bool (vindex params "confirmDesktopReset") = Some true))))
        (RpcError.new "DESKTOP_RECOVERY_REQUIRED"
           "reset native helpers/desktop first, then confirmDesktopReset");
  _ ← modify (on_queue (fun q =>
        let q' := match active q with
                  | Some i => on_job i (Job.with_state "interrupted") q | None => q end in
        set_blocked false q'));
  _ ← save;
  _ ← promote;
  mret (json_object [("recovered", VBool true)]).

Definition command (action : string) (params : Value) : handler Value :=
  if decide (action = "desktop.maintenance") then maintenance params
  else if decide (action = "desktop.submit") then submit params
  else if decide (action = "desktop.list") then h ← get; mret (list_queue (queue h))
  else if decide (action ∈ ["desktop.get"; "desktop.renew"; "desktop.finish"; "desktop.cancel"])
  then with_credentials action params
  else if decide (action = "desktop.recover") then recover params
  else throw (RpcError.new "UNKNOWN_ACTION" action).

(** [params["_desktop"][k] == s] *)
Definition credential (params : Value) (k s : string) : bool :=
  bool_decide (as_str (vindex (vindex params "_desktop") k) = Some s).

(** [begin] hands back the parameters it has completed. *)
Definition begin (action : string) (params : Value) : handler Value :=
  h ← get;
  let q := queue h in
  _ ← guard (negb (blocked q)) (RpcError.new "DESKTOP_RECOVERY_REQUIRED"
        "desktop outcome is uncertain; explicit reset required");
  _ ← guard (negb (in_flight q)) (RpcError.new "DESKTOP_BUSY" "desktop action is already in flight");
  params' ← (match active q with
    | Some i =>
        job ← lift (index (jobs q) i);
        n ← now;
        _ ← guard (negb (negb (bool_decide (Job.state job = "active")) || (Job.expires_at job <=? n)))
              (RpcError.new "DESKTOP_DRAINING" "previous session is draining");
        _ ← guard (credential params "token" (Job.token job) && credential params "owner" (Job.owner job))
              (RpcError.new "DESKTOP_BUSY" "desktop belongs to another acceptance session");
        if decide (action = "computer-use.call")
        then lift (expect (vset params "sessionId"
                     (vstr (Job.id job +:+ ":" +:+ pretty (Job.epoch job)))))
        else mret params
    | None =>
        _ ← guard (bool_decide (maintenance_owner q = None))
              (RpcError.new "DESKTOP_MAINTENANCE" "desktop admission is paused for maintenance");
        _ ← guard (negb (bool_decide (action = "computer-use.call")
                         || bool_decide (is_Some (vget params "_desktop"))))
              (RpcError.new "DESKTOP_SESSION_REQUIRED" "submit and await a desktop session first");
        mret params
    end : handler Value);
  _ ← modify (on_queue (set_in_flight true));
  _ ← save;
  mret params'.

Definition end_action (uncertain : bool) : handler unit :=
  _ ← modify (on_queue (fun q => set_blocked (blocked q || uncertain) (set_in_flight false q)));
  save.

(** ** The execution gate of the executor ([executor.rs]) *)

(** [reconcile_desktop], with the gate free; [closed] is whether the helpers
    shut down when they are asked to. *)
Definition reconcile_desktop (closed : outcome RpcError.t unit) : handler unit :=
  needed ← needs_cleanup;
  _ ← (if (needed : bool) then _ ← cleanup_done (is_ok closed); lift closed else mret tt : handler unit);
  promote.

(** When [desktop_dispatch] holds an outcome to be uncertain. *)
Definition uncertain_outcome (result : outcome RpcError.t Value) : bool :=
  match result with
  | Err e =>
      let message := Str.to_ascii_lowercase (RpcError.message e) in
      bool_decide (RpcError.code e = "COMPUTER_USE_UNAVAILABLE")
      || Str.contains "TIMEOUT" (RpcError.code e)
      || (bool_decide (RpcError.code e = "COMPUTER_USE_TOOL_FAILED")
          && (Str.contains "timeout" message || Str.contains "timed out" message
              || Str.contains "abort" message))
  | _ => false
  end.

(** ** The queue invariant *)

(** The epochs granted so far, in the order of the queue. *)
Definition grants (q : t) : list Z := bfilter (fun e => negb (e =? 0)) (Job.epoch <$> jobs q).

Definition owner_key (j : Job.t) : string * string := (Job.owner j, Job.request_key j).

(** Epochs were given out as 1, 2, 3, ... in queue order; nothing behind a queued
    session was ever granted; whoever holds the desktop holds the latest grant;
    and an owner has one session per request key. *)
Record wf (q : t) : Prop := {
  wf_grants : grants q = seqZ 1 (epoch q);
  wf_epoch : 0 <= epoch q;
  wf_length : Z.of_nat (length (jobs q)) <= 10000;
  wf_fifo : forall i j ji jj, jobs q !! i = Some ji -> jobs q !! j = Some jj -> (i <= j)%nat ->
    Job.state ji = "queued" -> Job.epoch jj = 0;
  wf_holding : forall i ji, jobs q !! i = Some ji -> holding ji = true ->
    Job.epoch ji = epoch q /\ epoch q <> 0;
  wf_keys : NoDup (owner_key <$> jobs q);
}.

Lemma wf_ext q q' : jobs q' = jobs q -> epoch q' = epoch q -> wf q -> wf q'.
Proof. intros Hj He []. constructor; unfold grants in *; rewrite ?Hj, ?He; done. Qed.

Lemma wf_default : wf default_queue.
Proof.
  constructor; try done. constructor.
Qed.

(** A session may change its state or its deadline, as long as it does not
    become queued or take the desktop. *)
Definition demotes (f : Job.t -> Job.t) (j : Job.t) : Prop :=
  Job.epoch (f j) = Job.epoch j /\ owner_key (f j) = owner_key j /\
  (holding (f j) = true -> holding j = true) /\
  (Job.state (f j) = "queued" -> Job.state j = "queued").

Lemma on_job_lookup i f q k jk' :
  jobs (on_job i f q) !! k = Some jk' ->
  exists jk, jobs q !! k = Some jk /\ (jk' = if decide (i = k) then f jk else jk).
Proof.
  simpl. rewrite list_lookup_alter. case_decide.
  - subst. intros (j & ? & ->)%fmap_Some. by exists j.
  - intros ?. by exists jk'.
Qed.

Lemma wf_on_job i f q :
  wf q -> (forall job, jobs q !! i = Some job -> demotes f job) -> wf (on_job i f q).
Proof.
  intros [Hg He Hl Hf Hh Hk] Hd.
  assert (Hback : forall k jk', jobs (on_job i f q) !! k = Some jk' ->
    exists jk, jobs q !! k = Some jk /\ Job.epoch jk' = Job.epoch jk /\
      (holding jk' = true -> holding jk = true) /\
      (Job.state jk' = "queued" -> Job.state jk = "queued")).
  { intros k jk' (jk & Hj & ->)%on_job_lookup. exists jk. split; [done|].
    case_decide; [subst|done]. by destruct (Hd jk Hj) as (? & _ & ? & ?). }
  constructor.
  - unfold grants, on_job. cbn [jobs set_jobs].
    rewrite (fmap_alter_same Job.epoch) by (intros x Hx; by destruct (Hd x Hx)). exact Hg.
  - exact He.
  - simpl. by rewrite length_alter.
  - intros k1 k2 j1 j2 (j1' & H1 & _ & _ & Hq1)%Hback (j2' & H2 & -> & _)%Hback Hle Hq.
    apply (Hf k1 k2 j1'); auto.
  - intros k jk (j' & Hj & -> & Hh' & _)%Hback Hhold. by eapply Hh; [|apply Hh'].
  - unfold on_job. cbn [jobs set_jobs].
    rewrite (fmap_alter_same owner_key) by (intros x Hx; by destruct (Hd x Hx) as (_ & ? & _)). exact Hk.
Qed.

Lemma active_Some q i :
  active q = Some i -> exists job, jobs q !! i = Some job /\ holding job = true.
Proof. intros (job & ? & ? & _)%position_Some. eauto. Qed.

Lemma active_None q : active q = None <-> forall i job, jobs q !! i = Some job -> holding job = false.
Proof.
  unfold active. rewrite position_None. split.
  - intros Hn i job Hi. apply Hn. by eapply list_elem_of_lookup_2.
  - intros Hn job [i Hi]%list_elem_of_lookup_1. by eapply Hn.
Qed.

(** The number of grants is bounded by the number of sessions: the epoch
    counter cannot wrap. *)
Lemma epoch_bound q : wf q -> epoch q <= 10000.
Proof.
  intros [Hg He Hl _ _ _]. unfold grants in Hg.
  pose proof (sublist_length _ _ (bfilter_sublist (fun e => negb (e =? 0)) (Job.epoch <$> jobs q))) as Hs.
  rewrite Hg, length_seqZ, length_fmap in Hs. lia.
Qed.

(** What [promote] does to the queue when it finds a session to serve. *)
Definition grant_job (n : Z) (i : nat) (q : t) : t :=
  on_job i (fun j => Job.with_expires_at (u64_saturating_add n (Job.ttl_ms j))
                       (Job.with_state "active" (Job.with_epoch (u64_add (epoch q) 1) j)))
    (set_epoch (u64_add (epoch q) 1) q).

Lemma wf_grant_job n i q job :
  wf q -> active q = None ->
  position (fun j => bool_decide (Job.state j = "queued")) (jobs q) = Some i ->
  jobs q !! i = Some job -> wf (grant_job n i q).
Proof.
  intros Hwf Hnone Hpos Hi. pose proof (epoch_bound q Hwf) as Hb. destruct Hwf as [Hg He Hl Hf Hh Hk].
  apply position_Some in Hpos as (job' & Hi' & Hq & Hbefore). rewrite Hi in Hi'. injection Hi' as <-.
  apply bool_decide_eq_true in Hq. unfold grant_job.
  assert (u64_add (epoch q) 1 = epoch q + 1) as -> by (apply u64_add_small; unfold u64_max; lia).
  set (f := fun j : Job.t => _). rewrite active_None in Hnone.
  assert (Hz : bfilter (fun e => negb (e =? 0)) (Job.epoch <$> drop (S i) (jobs q)) = []).
  { apply bfilter_nil. intros e (j & -> & [k Hj]%list_elem_of_lookup_1)%list_elem_of_fmap.
    rewrite lookup_drop in Hj. rewrite (Hf i (S i + k)%nat job j) by (done || lia). done. }
  assert (Hz0 : Job.epoch job = 0) by (by eapply (Hf i i)).
  constructor.
  - unfold grants, on_job in *. cbn [jobs set_jobs set_epoch epoch]. rewrite (alter_middle f _ i job) by done.
    rewrite fmap_app, fmap_cons, bfilter_app. cbn [bfilter Job.epoch f Job.with_expires_at Job.with_state Job.with_epoch].
    rewrite Hz. rewrite <- (take_drop_middle _ _ _ Hi), fmap_app, fmap_cons, bfilter_app in Hg.
    cbn [bfilter] in Hg. rewrite Hz0, Hz in Hg. simpl in Hg. rewrite app_nil_r in Hg. rewrite Hg.
    destruct (epoch q + 1 =? 0) eqn:Hx; [lia|]. simpl. rewrite seqZ_app by lia.
    f_equal. rewrite (seqZ_cons (1 + epoch q) 1) by lia. simpl. f_equal. lia.
  - simpl. lia.
  - simpl. by rewrite length_alter.
  - intros k1 k2 j1 j2 H1 H2 Hle Hq'.
    apply on_job_lookup in H1 as (j1' & H1 & ->), H2 as (j2' & H2 & ->). simpl in H1, H2.
    destruct (decide (i = k1)); [done|]. destruct (decide (i = k2)) as [<-|]; [|by eapply (Hf k1 k2)].
    exfalso. specialize (Hbefore k1 j1' ltac:(lia) H1). simpl in Hbefore.
    by apply bool_decide_eq_false in Hbefore.
  - intros k jk Hj Hh'. apply on_job_lookup in Hj as (j' & Hj & ->). simpl in Hj.
    case_decide; [simpl; lia|]. by rewrite (Hnone _ _ Hj) in Hh'.
  - unfold on_job. cbn [jobs set_jobs set_epoch].
    rewrite (fmap_alter_same owner_key) by done. exact Hk.
Qed.

Lemma wf_push q job :
  wf q -> Job.epoch job = 0 -> holding job = false ->
  owner_key job ∉ owner_key <$> jobs q -> Z.of_nat (length (jobs q)) < 10000 ->
  wf (set_jobs (jobs q ++ [job]) q).
Proof.
  intros [Hg He Hl Hf Hh Hk] Hj0 Hjh Hnew Hlen. constructor; cbn [jobs set_jobs epoch].
  - unfold grants in *. cbn [jobs set_jobs]. rewrite fmap_app, bfilter_app. simpl. rewrite Hj0. simpl.
    by rewrite app_nil_r.
  - done.
  - rewrite length_app. simpl. lia.
  - intros i k ji jk Hi Hk' Hle Hq.
    apply lookup_app_Some in Hk' as [Hk'|[Hkl Hk']].
    + apply lookup_app_Some in Hi as [Hi|[Hil Hi]]; [by apply (Hf i k ji)|].
      apply lookup_lt_Some in Hk'. lia.
    + apply list_lookup_singleton_Some in Hk' as [_ <-]. done.
  - intros i ji [Hi|[Hil Hi]]%lookup_app_Some Hhold; [by eapply Hh|].
    apply list_lookup_singleton_Some in Hi as [_ <-]. congruence.
  - rewrite fmap_app. apply NoDup_app. split_and!; [done| |apply NoDup_singleton].
    intros x Hx Hx'%list_elem_of_singleton. rewrite Hx' in Hx. by apply Hnew.
Qed.

(** *** Every handler keeps the queue well formed *)

Definition wfh (h : host) : Prop := wf (queue h) /\ forall d, disk h = Some d -> wf d.

Lemma wfh_on_queue f h : wfh h -> wf (f (queue h)) -> wfh (on_queue f h).
Proof. by intros [_ ?]. Qed.

(** Flags do not matter to the invariant. *)
Lemma wfh_flag f h :
  wfh h -> (forall q, jobs (f q) = jobs q /\ epoch (f q) = epoch q) -> wfh (on_queue f h).
Proof.
  intros Hh Hf. apply wfh_on_queue; [done|]. destruct (Hf (queue h)) as [H1 H2].
  destruct Hh as [Hq _]. by apply (wf_ext (queue h)).
Qed.

Lemma save_queue h w : queue (save h w).1.2 = queue h.
Proof.
  unfold save. run_handler. destruct (path (queue h)); [|done]. by destruct (io_ok _ _).
Qed.

Lemma save_wfh : keeps wfh save.
Proof.
  intros h w [Hq Hd]. unfold wfh. rewrite save_queue. split; [done|].
  unfold save. run_handler. destruct (path (queue h)); [|done]. destruct (io_ok _ _); [|done].
  intros d [= <-]. by apply (wf_ext (queue h)).
Qed.
#[local] Hint Resolve save_wfh : keeps.

Lemma promote_wfh : keeps wfh promote.
Proof.
  apply keeps_from. intros h Hh. unfold promote. walk; try done.
  match goal with H : _ && _ = true |- _ => rewrite !andb_true_iff in H; destruct H as (_ & Ha) end.
  apply bool_decide_eq_true in Ha.
  match goal with H : position _ _ = Some ?i |- _ => pose proof H as (job & Hi & _)%position_Some end.
  apply wfh_on_queue; [done|]. by eapply (wf_grant_job _ _ (queue h)); [exact (proj1 Hh)|..].
Qed.
#[local] Hint Resolve promote_wfh : keeps.

Lemma demotes_state s j :
  holding j = true \/ s <> "active" /\ s <> "draining" -> s <> "queued" ->
  demotes (Job.with_state s) j.
Proof.
  intros Hs Hq. split_and!; try done. intros Hh. destruct Hs as [?|[H1 H2]]; [done|].
  apply orb_true_iff in Hh as [Hh%bool_decide_eq_true|Hh%bool_decide_eq_true]; simpl in Hh; done.
Qed.

Lemma demotes_expires e j : demotes (Job.with_expires_at e) j.
Proof. by split_and!. Qed.

Lemma holding_active j : Job.state j = "active" -> holding j = true.
Proof. intros Hs. unfold holding. by rewrite Hs. Qed.

Lemma wf_active_job h i job s :
  wfh h -> active (queue h) = Some i -> index (E := RpcError.t) (jobs (queue h)) i = Ok job ->
  s <> "queued" -> wfh (on_queue (on_job i (Job.with_state s)) h).
Proof.
  intros Hh (job' & Hi' & Hhold)%active_Some Hi%index_Ok Hs.
  apply wfh_on_queue; [done|]. apply wf_on_job; [exact (proj1 Hh)|].
  intros j Hj. apply demotes_state; [left; congruence|done].
Qed.

Lemma needs_cleanup_wfh : keeps wfh needs_cleanup.
Proof.
  apply keeps_from. intros h Hh. unfold needs_cleanup. walk; try done. by eapply wf_active_job.
Qed.
#[local] Hint Resolve needs_cleanup_wfh : keeps.

Lemma cleanup_done_wfh success : keeps wfh (cleanup_done success).
Proof.
  apply keeps_from. intros h Hh. unfold cleanup_done. walk; try done.
  - eapply wf_active_job; try done. by destruct (_ <=? _).
  - by apply wfh_flag.
Qed.
#[local] Hint Resolve cleanup_done_wfh : keeps.

Lemma maintenance_wfh params : keeps wfh (maintenance params).
Proof. apply keeps_from. intros h Hh. unfold maintenance. walk; try done; by apply wfh_flag. Qed.


Lemma bfind_no_key owner key js :
  bfind (same_key owner key) js = None ->
  (owner, key) ∉ owner_key <$> js.
Proof.
  rewrite bfind_None. intros Hn (j & Hk & Hj)%list_elem_of_fmap. injection Hk as -> ->.
  specialize (Hn j Hj). unfold same_key in Hn. by rewrite !bool_decide_eq_true_2 in Hn.
Qed.

Lemma submit_wfh params : keeps wfh (submit params).
Proof.
  apply keeps_from. intros h Hh. unfold submit. walk; try done.
  apply wfh_on_queue; [done|]. apply wf_push; try done; [exact (proj1 Hh)|by apply bfind_no_key|].
  match goal with H : negb (10000 <=? _) = true |- _ => apply negb_true_iff in H end. lia.
Qed.

Lemma with_credentials_wfh action params : keeps wfh (with_credentials action params).
Proof.
  apply keeps_from. intros h Hh. unfold with_credentials. walk; try done;
    apply wfh_on_queue; try done; apply wf_on_job; try exact (proj1 Hh); intros j Hj;
    first [apply demotes_expires|apply demotes_state; [|done]].
  all: first [by right|left; apply holding_active].
  all: repeat match goal with H : index _ _ = Ok _ |- _ => apply index_Ok in H end; congruence.
Qed.

Lemma recover_wfh params : keeps wfh (recover params).
Proof.
  apply keeps_from. intros h Hh. unfold recover. walk; try done.
  apply wfh_on_queue; [done|].
  destruct (active (queue h)) as [i|] eqn:Ha; [|by apply (wf_ext (queue h)); [..|exact (proj1 Hh)]].
  pose proof Ha as (job & Hi & _)%active_Some.
  apply (wf_ext (on_job i (Job.with_state "interrupted") (queue h))); try done.
  apply (wf_active_job h i job); try done. by apply index_Ok.
Qed.

#[local] Hint Resolve maintenance_wfh submit_wfh with_credentials_wfh recover_wfh : keeps.

Lemma command_wfh action params : keeps wfh (command action params).
Proof. unfold command. keep. Qed.

Lemma begin_wfh action params : keeps wfh (begin action params).
Proof.
  apply keeps_from. intros h Hh. unfold begin. walk; try done; by apply wfh_flag.
Qed.

Lemma end_action_wfh uncertain : keeps wfh (end_action uncertain).
Proof.
  apply keeps_from. intros h Hh. unfold end_action. walk; try done; by apply wfh_flag.
Qed.

Lemma reconcile_wfh closed : keeps wfh (reconcile_desktop closed).
Proof. unfold reconcile_desktop. keep. Qed.

(** *** Handlers that leave a flag of the queue alone *)

(** The actions under way, in memory and on the disk. *)
Definition flying (h : host) : Prop :=
  in_flight (queue h) = true /\ exists d, disk h = Some d /\ in_flight d = true.

Definition at_path (p : string) (h : host) : Prop := path (queue h) = Some p.

Lemma save_at_path p : keeps (at_path p) save.
Proof. intros h w Hp. unfold at_path. by rewrite save_queue. Qed.

Lemma save_flying : keeps flying save.
Proof.
  intros h w [Hf Hd]. unfold flying. rewrite save_queue. split; [done|].
  unfold save. run_handler. destruct (path (queue h)); [|done]. destruct (io_ok _ _); [|done].
  eexists. split; [reflexivity|done].
Qed.
#[local] Hint Resolve save_at_path save_flying : keeps.

Ltac stays := apply keeps_from; intros ? ?; walk; try done.

Lemma promote_at_path p : keeps (at_path p) promote.
Proof. unfold promote. stays. Qed.
Lemma promote_flying : keeps flying promote.
Proof. unfold promote. stays. Qed.
#[local] Hint Resolve promote_at_path promote_flying : keeps.

Lemma needs_cleanup_at_path p : keeps (at_path p) needs_cleanup.
Proof. unfold needs_cleanup. stays. Qed.
Lemma cleanup_done_at_path p success : keeps (at_path p) (cleanup_done success).
Proof. unfold cleanup_done. stays. Qed.
#[local] Hint Resolve needs_cleanup_at_path cleanup_done_at_path : keeps.
Lemma reconcile_at_path p closed : keeps (at_path p) (reconcile_desktop closed).
Proof. unfold reconcile_desktop. keep. Qed.

Lemma recover_flag (I : host -> Prop) params :
  (forall h q, I h -> path q = path (queue h) -> in_flight q = in_flight (queue h) ->
     I (Host q (disk h))) ->
  keeps I save -> keeps I promote -> keeps I (recover params).
Proof.
  intros HI Hs Hp. apply keeps_from. intros h Hh. unfold recover. walk; try done.
  apply (HI h); [done|..]; by destruct (active (queue h)).
Qed.

Lemma command_at_path p action params : keeps (at_path p) (command action params).
Proof.
  unfold command, maintenance, submit, with_credentials.
  repeat case_decide; try (stays; fail).
  apply recover_flag; auto with keeps. unfold at_path. simpl. congruence.
Qed.

Lemma command_flying action params : keeps flying (command action params).
Proof.
  unfold command, maintenance, submit, with_credentials.
  repeat case_decide; try (stays; fail).
  apply recover_flag; auto with keeps. unfold flying. simpl. intros h q [Hf Hd] _ ->. done.
Qed.

Lemma begin_at_path p action params : keeps (at_path p) (begin action params).
Proof. unfold begin. stays. Qed.
Lemma end_action_at_path p uncertain : keeps (at_path p) (end_action uncertain).
Proof. unfold end_action. stays. Qed.

(** ** The desktop system

    The host and whether the execution gate is held by a dispatched action. *)

Record system := System {
  host_of : host;
  running : bool;
}.

Inductive step : system -> system -> Prop :=
  | step_command S action params w :
      step S (System (command action params (host_of S) w).1.2 (running S))
  | step_reconcile h closed w :
      step (System h false) (System (reconcile_desktop closed h w).1.2 false)
  | step_begin h action params w :
      step (System h false)
           (System (begin action params h w).1.2 (is_ok (begin action params h w).1.1))
  | step_end h uncertain w :
      step (System h true) (System (end_action uncertain h w).1.2 false)
  | step_crash S p w h :
      path (queue (host_of S)) = Some p ->
      (open p (disk (host_of S)) w).1 = (Ok tt, h) -> step S (System h false).

Definition start (p : string) : system :=
  System (Host (set_path (Some p) default_queue) (Some default_queue)) false.

Definition reachable (p : string) : system -> Prop := rtc step (start p).

(** While an action is dispatched the disk says so. *)
Definition inv (S : system) : Prop :=
  wfh (host_of S) /\ (exists p, at_path p (host_of S)) /\
  (running S = true -> flying (host_of S)).

(** Cases of [save]. *)
Lemma save_cases h w :
  (save h w).1 = (Ok tt, match path (queue h) with
                         | Some _ => Host (queue h) (Some (set_path None (queue h)))
                         | None => h end) \/
  ((save h w).1 = (Err (RpcError.new "DESKTOP_STATE_FAILED" "io error"), h) /\
   path (queue h) <> None).
Proof.
  unfold save. run_handler. destruct (path (queue h)); [|by left].
  destruct (io_ok _ _); [by left|by right].
Qed.

(** What an admitted action had to bring, and what it leaves behind. *)
Lemma begin_Ok action params h w params' h' w' :
  begin action params h w = (Ok params', h', w') ->
  blocked (queue h) = false /\ in_flight (queue h) = false /\
  queue h' = set_in_flight true (queue h) /\
  (path (queue h) <> None -> disk h' = Some (set_path None (set_in_flight true (queue h)))) /\
  match active (queue h) with
  | Some i => exists job, jobs (queue h) !! i = Some job /\ Job.state job = "active" /\
      (exists k, clock w k < Job.expires_at job) /\
      credential params "token" (Job.token job) = true /\
      credential params "owner" (Job.owner job) = true /\
      if decide (action = "computer-use.call")
      then vset params "sessionId" (vstr (Job.id job +:+ ":" +:+ pretty (Job.epoch job))) = Some params'
      else params' = params
  | None => maintenance_owner (queue h) = None /\ action <> "computer-use.call" /\
      vget params "_desktop" = None /\ params' = params
  end.
Proof.
  unfold begin. intros Hok. ok_inv Hok.
  apply negb_true_iff in Hok, Hok1. split; [done|]. split; [done|].
  assert (Hadm : s = h /\ match active (queue h) with
    | Some i => exists job, jobs (queue h) !! i = Some job /\ Job.state job = "active" /\
        (exists k, clock w k < Job.expires_at job) /\
        credential params "token" (Job.token job) = true /\
        credential params "owner" (Job.owner job) = true /\
        if decide (action = "computer-use.call")
        then vset params "sessionId" (vstr (Job.id job +:+ ":" +:+ pretty (Job.epoch job))) = Some a1
        else a1 = params
    | None => maintenance_owner (queue h) = None /\ action <> "computer-use.call" /\
        vget params "_desktop" = None /\ a1 = params
    end).
  { destruct (active (queue h)) as [i|]; ok_inv Hok0.
    - apply index_Ok in Hok3. rewrite negb_true_iff, orb_false_iff, negb_false_iff in Hok0.
      destruct Hok0 as [Hst%bool_decide_eq_true Hx]. apply andb_true_iff in Hok5 as [Ht Ho].
      rename a4 into job. case_decide; ok_inv Hok6; (split; [done|]); exists job.
      + split_and!; try done; [exists (clock_at w); lia|]. by apply expect_Ok in Hok6.
      + split_and!; try done. exists (clock_at w). lia.
    - apply bool_decide_eq_true in Hok3.
      rewrite negb_true_iff, orb_false_iff, !bool_decide_eq_false in Hok0.
      destruct Hok0 as [? Hn]. apply eq_None_not_Some in Hn. done. }
  destruct Hadm as [-> Hadm]. split; [|split; [|exact Hadm]].
  - pose proof (save_queue (on_queue (set_in_flight true) h) w0) as Hs. by rewrite Hok2 in Hs.
  - intros Hp. destruct (save_cases (on_queue (set_in_flight true) h) w0) as [Hs|[Hs _]];
      rewrite Hok2 in Hs; [|done]. simpl in Hs. injection Hs as _ ->. by destruct (path (queue h)).
Qed.

Lemma begin_flying p action params h w :
  at_path p h -> is_ok (begin action params h w).1.1 = true -> flying (begin action params h w).1.2.
Proof.
  intros Hp Hok. destruct ((begin action params h w).1.1) as [params'|e|] eqn:Ho; [|done..].
  apply ok_pair, begin_Ok in Ho as (_ & _ & Hq & Hd & _).
  split; [by rewrite Hq|]. rewrite Hd; [|by rewrite Hp]. by eexists.
Qed.

Lemma reopen_blocked p file :
  in_flight (reopen p file) = false /\
  (forall d, file = Some d -> in_flight d = true \/ (exists i, active d = Some i) ->
     blocked (reopen p file) = true).
Proof.
  unfold reopen. split.
  - destruct (_ || _) eqn:Ho; [done|]. by apply orb_false_iff in Ho as [-> _].
  - intros d -> Hd. simpl. destruct (in_flight d) eqn:Hf; [done|]. simpl.
    destruct Hd as [|[i (j & Hj & Hh)%active_Some]]; [done|].
    assert (existsb holding (jobs d) = true) as ->; [|done].
    apply existsb_exists. exists j. split; [|done]. apply list_elem_of_In.
    by eapply list_elem_of_lookup_2.
Qed.

Lemma wf_reopen p file : (forall d, file = Some d -> wf d) -> wf (reopen p file).
Proof.
  intros Hd. assert (Hw : wf (default default_queue file)).
  { destruct file; [by apply Hd|apply wf_default]. }
  unfold reopen. destruct (_ || _); by apply (wf_ext (default default_queue file)).
Qed.

Lemma desktop_step_inv S S' : step S S' -> inv S -> inv S'.
Proof.
  intros Hstep (Hw & (p & Hp) & Hf).
  destruct Hstep as [S action params w|h closed w|h action params w|h uncertain w|S p' w h Hp' Ho];
    unfold inv; cbn [host_of running] in *.
  - split; [by apply command_wfh|]. split; [exists p; by apply command_at_path|].
    intros Hr. apply command_flying. by apply Hf.
  - split; [by apply reconcile_wfh|]. split; [exists p; by apply reconcile_at_path|done].
  - split; [by apply begin_wfh|]. split; [exists p; by apply begin_at_path|].
    by apply (begin_flying p).
  - split; [by apply end_action_wfh|]. split; [exists p; by apply end_action_at_path|done].
  - unfold open in Ho. set (h0 := Host (reopen p' _) _) in Ho.
    assert (Hw0 : wfh h0) by (split; [apply wf_reopen; apply Hw|apply Hw]).
    pose proof (save_wfh h0 w Hw0) as Hw1. pose proof (save_at_path p' h0 w) as Hp1.
    rewrite Ho in Hw1, Hp1. split; [done|]. split; [|done]. exists p'. apply Hp1.
    unfold at_path. simpl. unfold reopen. by destruct (_ || _).
Qed.

Lemma desktop_reachable_inv p S : reachable p S -> inv S.
Proof.
  unfold reachable. intros Hr. assert (Hi : inv (start p)).
  { split; [|split; [by exists p|done]]. split.
    - apply (wf_ext default_queue); try done. apply wf_default.
    - intros d [= <-]. apply wf_default. }
  induction Hr as [|S1 S2 S3 Hs _ IH]; [done|]. apply IH. by eapply desktop_step_inv.
Qed.

(** ** Consequences of the invariant *)

Lemma seqZ_filter_increasing (l : list Z) m n i j a b :
  bfilter (fun e => negb (e =? 0)) l = seqZ m n -> 0 <= n ->
  (i < j)%nat -> l !! i = Some a -> l !! j = Some b -> a <> 0 -> b <> 0 -> a < b.
Proof.
  revert m n i j. induction l as [|x l IH]; intros m n i j Hl Hn Hij Hi Hj Ha Hb; [done|].
  destruct j as [|j]; [lia|]. simpl in Hj. cbn [bfilter] in Hl.
  destruct (x =? 0) eqn:Hx; simpl in Hl.
  - destruct i as [|i]; simpl in Hi; [injection Hi as ->; lia|].
    eapply (IH m n i j); try done. lia.
  - destruct (decide (n = 0)) as [->|Hn0]; [by rewrite seqZ_nil in Hl|].
    rewrite seqZ_cons in Hl by lia. injection Hl as -> Hl.
    destruct i as [|i]; simpl in Hi.
    + injection Hi as <-.
      assert (Hb' : b ∈ bfilter (fun e => negb (e =? 0)) l).
      { apply elem_of_bfilter. split; [apply negb_true_iff; lia|]. by eapply list_elem_of_lookup_2. }
      rewrite Hl in Hb'. apply elem_of_seqZ in Hb'. lia.
    + eapply (IH (Z.succ m) (Z.pred n) i j); try done; lia.
Qed.

Lemma wf_epochs_increase q i j ji jj :
  wf q -> (i < j)%nat -> jobs q !! i = Some ji -> jobs q !! j = Some jj ->
  Job.epoch ji <> 0 -> Job.epoch jj <> 0 -> Job.epoch ji < Job.epoch jj.
Proof.
  intros [Hg He _ _ _ _] Hij Hi Hj Hi0 Hj0.
  eapply (seqZ_filter_increasing (Job.epoch <$> jobs q)); try done.
  - by rewrite list_lookup_fmap, Hi.
  - by rewrite list_lookup_fmap, Hj.
Qed.

Lemma wf_one_holder q i j ji jj :
  wf q -> jobs q !! i = Some ji -> jobs q !! j = Some jj ->
  holding ji = true -> holding jj = true -> i = j.
Proof.
  intros Hwf Hi Hj Hhi Hhj. destruct (wf_holding q Hwf i ji Hi Hhi) as [Ei E0].
  destruct (wf_holding q Hwf j jj Hj Hhj) as [Ej _].
  destruct (lt_eq_lt_dec i j) as [[Hlt|]|Hlt]; [|done|].
  - pose proof (wf_epochs_increase q i j ji jj Hwf Hlt Hi Hj). lia.
  - pose proof (wf_epochs_increase q j i jj ji Hwf Hlt Hj Hi). lia.
Qed.

Lemma begin_blocked action params h w :
  blocked (queue h) = true -> is_ok (begin action params h w).1.1 = false /\
    (begin action params h w).1.2 = h.
Proof. intros Hb. unfold begin. run_handler. by rewrite Hb. Qed.

(** *** What can unblock the desktop *)

Definition stuck (h : host) : Prop := blocked (queue h) = true.

Lemma save_stuck : keeps stuck save.
Proof. intros h w Hb. unfold stuck. by rewrite save_queue. Qed.
#[local] Hint Resolve save_stuck : keeps.
Lemma promote_stuck : keeps stuck promote.
Proof. unfold promote. stays. Qed.
#[local] Hint Resolve promote_stuck : keeps.
Lemma needs_cleanup_stuck : keeps stuck needs_cleanup.
Proof. unfold needs_cleanup. stays. Qed.
Lemma cleanup_done_stuck success : keeps stuck (cleanup_done success).
Proof. unfold cleanup_done. stays. Qed.
#[local] Hint Resolve needs_cleanup_stuck cleanup_done_stuck : keeps.
Lemma reconcile_stuck closed : keeps stuck (reconcile_desktop closed).
Proof. unfold reconcile_desktop. keep. Qed.
Lemma begin_stuck action params : keeps stuck (begin action params).
Proof. unfold begin. stays. Qed.
Lemma end_action_stuck uncertain : keeps stuck (end_action uncertain).
Proof.
  unfold end_action. apply keeps_from. intros h Hb. walk; try done; unfold stuck in *; simpl;
    by rewrite Hb.
Qed.

Definition reset_confirmed (params : Value) : Prop :=
  as_bool (vindex params "confirmDesktopReset") = Some true.

Lemma command_stuck action params h w :
  stuck h -> blocked (queue (command action params h w).1.2) = false ->
  action = "desktop.recover" /\ reset_confirmed params.
Proof.
  intros Hb Hout. destruct (decide (action = "desktop.recover")) as [->|Hne].
  - split; [done|]. unfold command, recover in Hout. run_handler. simpl in Hout.
    unfold stuck in Hb. rewrite Hb in Hout. unfold reset_confirmed.
    destruct (bool_decide (as_bool (vindex params "confirmDesktopReset") = Some true)) eqn:Hc.
    + by apply bool_decide_eq_true in Hc.
    + rewrite orb_true_r in Hout. simpl in Hout. congruence.
  - exfalso. enough (Hk : keeps stuck (command action params)).
    { specialize (Hk h w Hb). unfold stuck in Hk. congruence. }
    unfold command, maintenance, submit, with_credentials.
    repeat case_decide; stays.
Qed.

(** *** Granting the next session *)

Definition writable (w : world) : Prop := forall i, io_ok w i = true.

(** [promote] on an idle desktop whose writes go through. *)
Lemma promote_idle h w :
  maintenance_owner (queue h) = None -> blocked (queue h) = false ->
  in_flight (queue h) = false -> active (queue h) = None -> writable w ->
  match position (fun j => bool_decide (Job.state j = "queued")) (jobs (queue h)) with
  | None => (promote h w).1 = (Ok tt, h)
  | Some i => exists n, (promote h w).1.1 = Ok tt /\ queue (promote h w).1.2 = grant_job n i (queue h)
  end.
Proof.
  intros Hm Hb Hf Ha Hw. unfold promote. run_handler. rewrite Hm, Hb, Hf, Ha. simpl.
  destruct (position _ _) as [i|]; [|done]. exists (clock w (clock_at w)).
  match goal with |- context [save ?h0 ?w0] =>
    pose proof (save_queue h0 w0) as Hq; destruct (save_cases h0 w0) as [Hs|[Hs _]] end.
  - split; [by rewrite Hs|exact Hq].
  - exfalso. revert Hs. unfold save. run_handler. destruct (path _); [|done].
    cbn [io_ok clock_tick uuid_tick]. by rewrite Hw.
Qed.

(** *** Sessions by owner and key *)

Definition keyed (K : list (string * string)) (h : host) : Prop := owner_key <$> jobs (queue h) = K.

Lemma save_keyed K : keeps (keyed K) save.
Proof. intros h w Hk. unfold keyed. by rewrite save_queue. Qed.
#[local] Hint Resolve save_keyed : keeps.
Lemma promote_keyed K : keeps (keyed K) promote.
Proof.
  unfold promote. stays. unfold keyed. simpl. by rewrite (fmap_alter_same owner_key).
Qed.

Lemma submit_found params owner key h w job :
  field params "owner" = Ok owner -> field params "requestKey" = Ok key ->
  bfind (same_key owner key) (jobs (queue h)) = Some job ->
  submit params h w = (Ok (Job.to_value job), h, w).
Proof.
  intros Ho Hk Hf. unfold submit. run_handler. rewrite Ho, Hk. by rewrite Hf.
Qed.

(** A session appended under a new key is the one the search finds. *)
Lemma bfind_last owner key js js' job :
  bfind (same_key owner key) js = None -> owner_key job = (owner, key) ->
  owner_key <$> js' = owner_key <$> (js ++ [job]) ->
  exists job', last js' = Some job' /\ bfind (same_key owner key) js' = Some job'.
Proof.
  intros Hn Hkey Hjs. rewrite fmap_app in Hjs. apply fmap_app_inv in Hjs as (l1 & l2 & H1 & H2 & ->).
  symmetry in H2. apply fmap_cons_inv in H2 as (job' & l3 & H2 & H3 & ->).
  symmetry in H3. apply fmap_nil_inv in H3 as ->.
  exists job'. split; [by rewrite last_snoc|]. rewrite Hkey in H2.
  assert (Hl1 : bfind (same_key owner key) l1 = None).
  { apply bfind_None. intros j Hj. apply not_true_iff_false. intros Hs.
    apply bfind_no_key in Hn. apply Hn. rewrite H1. apply list_elem_of_fmap. exists j.
    split; [|done]. by apply andb_true_iff in Hs as [<-%bool_decide_eq_true <-%bool_decide_eq_true]. }
  rewrite bfind_app, Hl1. simpl. injection H2 as -> ->. unfold same_key.
  by rewrite !bool_decide_eq_true_2.
Qed.

(** ** What the queue promises *)

(** C11. One session at a time, first come first served.  In every reachable state
    (any commands, reconciliations, actions, failing writes and crashes) at most
    one session is active or draining; the epochs granted are 1, 2, 3, ... in
    submission order; no session behind a queued one has ever been granted; a
    session that holds the desktop holds the latest epoch; and an owner has at
    most one session per request key. *)
Theorem reachable_queue_fifo p S :
  reachable p S ->
  let q := queue (host_of S) in
  wf q /\
  (forall i j ji jj, jobs q !! i = Some ji -> jobs q !! j = Some jj ->
     holding ji = true -> holding jj = true -> i = j) /\
  (forall i j ji jj, (i < j)%nat -> jobs q !! i = Some ji -> jobs q !! j = Some jj ->
     Job.epoch ji <> 0 -> Job.epoch jj <> 0 -> Job.epoch ji < Job.epoch jj).
Proof.
  intros ((Hwf & _) & _)%desktop_reachable_inv q. split; [done|]. split.
  - intros i j ji jj. by apply wf_one_holder.
  - intros i j ji jj Hij. by apply wf_epochs_increase.
Qed.

(** Admission.  [begin] lets an action through only when the desktop is not
    blocked and nothing is in flight; with a session holding the desktop the
    session must be active and unexpired and the request must carry its token
    and its owner, and a computer-use call is bound to that session and epoch;
    without one, only an action that is not a computer-use call and names no
    session passes, and only outside maintenance.  By then the action is marked
    in flight, in memory and in the state file. *)
Theorem begin_admits action params h w params' :
  (begin action params h w).1.1 = Ok params' ->
  let h' := (begin action params h w).1.2 in
  blocked (queue h) = false /\ in_flight (queue h) = false /\
  in_flight (queue h') = true /\
  (path (queue h) <> None -> exists d, disk h' = Some d /\ in_flight d = true) /\
  match active (queue h) with
  | Some i => exists job, jobs (queue h) !! i = Some job /\ Job.state job = "active" /\
      (exists k, clock w k < Job.expires_at job) /\
      credential params "token" (Job.token job) = true /\
      credential params "owner" (Job.owner job) = true /\
      (action = "computer-use.call" ->
         vget params' "sessionId" = Some (vstr (Job.id job +:+ ":" +:+ pretty (Job.epoch job))))
  | None => maintenance_owner (queue h) = None /\ action <> "computer-use.call" /\
      vget params "_desktop" = None
  end.
Proof.
  intros Hok%ok_pair h'. fold h' in Hok. apply begin_Ok in Hok as (Hb & Hf & Hq & Hd & Ha).
  split_and!; try done; [by rewrite Hq| |].
  { intros Hp. rewrite (Hd Hp). by eexists. }
  destruct (active (queue h)) as [i|]; [|by destruct Ha as (? & ? & ? & _)].
  destruct Ha as (job & Hi & Hs & Hk & Ht & Ho & Hset). exists job. split_and!; try done.
  intros ->. rewrite decide_True in Hset by done. by eapply vget_vset.
Qed.

(** Crashes and uncertain outcomes fail closed.  If the process dies while an
    action is dispatched, the desktop is blocked and idle after the restart; an
    uncertain outcome blocks it even if that cannot be written down; a blocked
    desktop admits no action; and short of a restart the only step that
    unblocks it is a [recover] command that confirms the reset. *)
Theorem desktop_fails_closed p S :
  reachable p S ->
  (running S = true ->
   (forall p' w h, (open p' (disk (host_of S)) w).1 = (Ok tt, h) ->
      blocked (queue h) = true /\ in_flight (queue h) = false) /\
   (forall w, blocked (queue (end_action true (host_of S) w).1.2) = true)) /\
  (blocked (queue (host_of S)) = true ->
   (forall action params w, is_ok (begin action params (host_of S) w).1.1 = false) /\
   forall S', step S S' -> blocked (queue (host_of S')) = false ->
     (exists action params w, action = "desktop.recover" /\ reset_confirmed params /\
        host_of S' = (command action params (host_of S) w).1.2) \/
     (exists p' w, (open p' (disk (host_of S)) w).1 = (Ok tt, host_of S'))).
Proof.
  intros Hinv%desktop_reachable_inv. split.
  - intros Hr. destruct Hinv as (_ & _ & Hfly). destruct (Hfly Hr) as (_ & d & Hd & Hdf). split.
    + intros p' w h Ho. unfold open in Ho. set (h0 := Host _ _) in Ho.
      assert (Hq : queue h = reopen p' (disk (host_of S))).
      { pose proof (save_queue h0 w) as Hs. by rewrite Ho in Hs. }
      rewrite Hq. destruct (reopen_blocked p' (disk (host_of S))) as [Hnf Hbl].
      split; [|done]. by apply (Hbl d); [|left].
    + intros w. unfold end_action. run_handler.
      match goal with |- context [save ?h0 ?w0] => pose proof (save_queue h0 w0) as Hq end.
      rewrite Hq. simpl. by rewrite orb_true_r.
  - intros Hb. split; [intros action params w; by apply begin_blocked|].
    intros S' Hstep Hout.
    destruct Hstep as [S action params w|h closed w|h action params w|h uncertain w|S p' w h Hp' Ho];
      cbn [host_of] in *.
    + left. destruct (command_stuck _ _ _ _ Hb Hout) as [Ha Hc]. by exists action, params, w.
    + pose proof (reconcile_stuck closed h w Hb). unfold stuck in *. congruence.
    + pose proof (begin_stuck action params h w Hb). unfold stuck in *. congruence.
    + pose proof (end_action_stuck uncertain h w Hb). unfold stuck in *. congruence.
    + right. by exists p', w.
Qed.

(** The queue moves.  When nobody holds an unblocked desktop, nothing is in
    flight, there is no maintenance and writes go through, [promote] grants
    the desktop to the first queued session, or there is none. *)
Theorem promote_serves_the_next p S w :
  reachable p S ->
  let h := host_of S in
  maintenance_owner (queue h) = None -> blocked (queue h) = false ->
  in_flight (queue h) = false -> active (queue h) = None -> writable w ->
  let q' := queue (promote h w).1.2 in
  (promote h w).1.1 = Ok tt /\
  ((forall j, j ∈ jobs (queue h) -> Job.state j <> "queued") \/
   exists i job job', jobs (queue h) !! i = Some job /\ Job.state job = "queued" /\
     (forall k j, (k < i)%nat -> jobs (queue h) !! k = Some j -> Job.state j <> "queued") /\
     jobs q' !! i = Some job' /\ Job.state job' = "active" /\ Job.id job' = Job.id job /\
     Job.epoch job' = epoch (queue h) + 1).
Proof.
  intros ((Hwf & _) & _)%desktop_reachable_inv h Hm Hb Hf Ha Hw q'.
  pose proof (promote_idle h w Hm Hb Hf Ha Hw) as Hp.
  destruct (position _ _) as [i|] eqn:Hpos.
  - destruct Hp as (n & Hok & Hq). split; [done|]. right.
    apply position_Some in Hpos as (job & Hi & Hs%bool_decide_eq_true & Hbefore).
    eexists i, job, _. split; [done|]. split; [done|]. split.
    { intros k j Hk Hj. by apply (bool_decide_eq_false (Job.state j = "queued")), (Hbefore k). }
    unfold q'. rewrite Hq. split.
    { unfold grant_job, on_job. simpl. rewrite list_lookup_alter_eq.
      change (jobs (queue (host_of S)) !! i) with (jobs (queue h) !! i). by rewrite Hi. }
    split_and!; try done. fold h in Hwf. pose proof (epoch_bound _ Hwf).
    pose proof (wf_epoch _ Hwf). simpl. apply u64_add_small; unfold u64_max; lia.
  - rewrite Hp. split; [done|]. left. intros j Hj.
    by apply (bool_decide_eq_false (Job.state j = "queued")), (proj1 (position_None _ _) Hpos).
Qed.

(** Submission is idempotent.  A successful [submit] answers with a session of
    the queue that carries the submitted owner and key; submitting the same
    owner and key again, whatever else the request says, answers with that very
    session and changes nothing. *)
Theorem submit_once params owner key h w v :
  field params "owner" = Ok owner -> field params "requestKey" = Ok key ->
  (submit params h w).1.1 = Ok v ->
  let h' := (submit params h w).1.2 in
  exists job, job ∈ jobs (queue h') /\ owner_key job = (owner, key) /\ v = Job.to_value job /\
    forall params' w', field params' "owner" = Ok owner -> field params' "requestKey" = Ok key ->
      submit params' h' w' = (Ok (Job.to_value job), h', w').
Proof.
  intros Ho Hk Hok%ok_pair h'. fold h' in Hok. generalize dependent (submit params h w).2.
  clearbody h'. intros w' Hok.
  enough (Hfind : exists job, bfind (same_key owner key) (jobs (queue h')) = Some job /\
                              v = Job.to_value job).
  { destruct Hfind as (job & Hf & ->). pose proof Hf as [Hsame Hin]%bfind_Some. exists job.
    split_and!; try done.
    - apply andb_true_iff in Hsame as [<-%bool_decide_eq_true <-%bool_decide_eq_true]. done.
    - intros params' w1 Ho' Hk'. by apply (submit_found _ owner key). }
  unfold submit in Hok. ok_inv Hok. rewrite Ho in Hok0. injection Hok0 as <-.
  rewrite Hk in Hok. injection Hok as <-.
  destruct (bfind (same_key owner key) (jobs (queue h))) as [job|] eqn:Hf.
  - ok_inv Hok3. eauto.
  - ok_inv Hok3. apply expect_Ok in Hok3.
    match type of Hok0 with context [jobs _ ++ [?j]] => set (new := j) in Hok0 end.
    assert (Hkeys : keyed (owner_key <$> (jobs (queue h) ++ [new])) s0).
    { eapply (keeps_run _ _ _ _ _ _ _ (promote_keyed _) Hok2).
      eapply (keeps_run _ _ _ _ _ _ _ (save_keyed _) Hok0). done. }
    destruct (bfind_last owner key (jobs (queue h)) (jobs (queue s0)) new Hf eq_refl Hkeys)
      as (job' & Hl & Hfind). exists job'. split; [done|]. congruence.
Qed.

(** ** Witnesses *)

Definition steady (n : Z) : world := World (fun _ => n) (fun i => pretty i) (fun _ => true) 0 0 0.

Definition request (owner : string) : Value :=
  json_object [("owner", vstr owner); ("requestKey", vstr "k"); ("ttlMs", vnat 5000)].

Definition after {A} (m : handler A) (S : system) (r : bool) : system :=
  System (m (host_of S) (steady 1000)).1.2 r.

(** Two sessions; the first one runs an action. *)
Definition two_sessions : system :=
  after (command "desktop.submit" (request "b"))
    (after (command "desktop.submit" (request "a")) (start "q.json") false) false.

Definition action_params : Value :=
  json_object [("_desktop", json_object [("owner", vstr "a"); ("token", vstr "1")])].

Definition dispatched : system := after (begin "computer-use.call" action_params) two_sessions true.

Lemma two_sessions_reachable : reachable "q.json" two_sessions.
Proof.
  eapply rtc_l; [exact (step_command (start "q.json") "desktop.submit" (request "a") (steady 1000))|].
  eapply rtc_l; [|apply rtc_refl]. exact (step_command _ "desktop.submit" (request "b") (steady 1000)).
Defined.

Lemma dispatched_reachable : reachable "q.json" dispatched.
Proof.
  eapply rtc_r; [exact two_sessions_reachable|].
  exact (step_begin (host_of two_sessions) "computer-use.call" action_params (steady 1000)).
Defined.

Lemma reachable_queue_fifo_witness :
  wf (queue (host_of two_sessions)) /\ Job.state <$> jobs (queue (host_of two_sessions)) = ["active"; "queued"].
Proof.
  split; [|vm_compute; reflexivity].
  apply (reachable_queue_fifo "q.json" two_sessions two_sessions_reachable).
Defined.

Lemma begin_admits_witness :
  in_flight (queue (begin "computer-use.call" action_params (host_of two_sessions) (steady 1000)).1.2) = true.
Proof.
  refine (proj1 (proj2 (proj2 (begin_admits "computer-use.call" action_params (host_of two_sessions)
    (steady 1000) (json_object [("_desktop", json_object [("owner", vstr "a"); ("token", vstr "1")]);
                                ("sessionId", vstr "0:1")]) _)))).
  vm_compute. reflexivity.
Defined.

Lemma desktop_fails_closed_witness :
  blocked (queue (open "q.json" (disk (host_of dispatched)) (steady 2000)).1.2) = true.
Proof.
  refine (proj1 (proj1 (proj1 (desktop_fails_closed "q.json" dispatched dispatched_reachable)
    _) "q.json" (steady 2000) _ _)); vm_compute; reflexivity.
Defined.

(** A session submitted while a legacy action was in flight waits for it. *)
Definition legacy : system := after (begin "clipboard.write" VNull) (start "q.json") true.
Definition waiting : system :=
  after (end_action false) (after (command "desktop.submit" (request "a")) legacy true) false.

Lemma waiting_reachable : reachable "q.json" waiting.
Proof.
  eapply rtc_l; [exact (step_begin (host_of (start "q.json")) "clipboard.write" VNull (steady 1000))|].
  eapply rtc_l; [exact (step_command legacy "desktop.submit" (request "a") (steady 1000))|].
  eapply rtc_l; [|apply rtc_refl].
  exact (step_end (host_of (after (command "desktop.submit" (request "a")) legacy true)) false (steady 1000)).
Defined.

Lemma promote_serves_the_next_witness :
  Job.state <$> jobs (queue (host_of waiting)) = ["queued"] /\
  (promote (host_of waiting) (steady 1000)).1.1 = Ok tt.
Proof.
  split; [vm_compute; reflexivity|].
  apply (promote_serves_the_next "q.json" waiting (steady 1000) waiting_reachable);
    try (vm_compute; reflexivity).
Defined.

Lemma submit_once_witness :
  exists job, Job.owner job = "a" /\ Job.id job = "0".
Proof.
  destruct (submit_once (request "a") "a" "k" (host_of (start "q.json")) (steady 1000)
    (Job.to_value (Job.mk "0" "a" "k" "1" "active" 1 5000 1000 6000))) as (job & _ & Hk & Hv & _);
    [reflexivity|reflexivity|vm_compute; reflexivity|].
  exists job. split; [by injection Hk|].
  assert (Hi : vget (Job.to_value job) "id" = Some (vstr "0")) by (by rewrite <- Hv).
  vm_compute in Hi. by injection Hi.
Defined.

(** When the state file cannot be written, [begin] reports the failure but leaves
    the action marked in flight: nothing will end it, every later action finds
    the desktop busy, and [recover] does not apply because nothing is blocked. *)
Example begin_save_failure_sticks :
  let failing := World (fun _ => 1000) (fun i => pretty i) (fun _ => false) 0 0 0 in
  let h := (begin "clipboard.write" VNull (host_of (start "q.json")) failing).1.2 in
  (begin "clipboard.write" VNull h (steady 2000)).1.1 =
    Err (RpcError.new "DESKTOP_BUSY" "desktop action is already in flight") /\
  is_ok (command "desktop.recover" (json_object [("confirmDesktopReset", VBool true)]) h
           (steady 2000)).1.1 = false.
Proof. vm_compute. split; reflexivity. Qed.

End DesktopQueue.
