(* ===== verification/ComputerUse.v ===== *)
(** * The computer-use host ([crates/workbench-runtime/src/computer_use.rs])

    The executor runs one extension host, a child process it talks to over a
    loopback connection: a request is a line, the answer is a line with the
    request's id.  The service starts a host for a session, hands the requests of
    that session to it, and drops it when another session comes, when it is
    closed, or when an outcome is unknown.  What leaves the service (hosts
    started and dropped, requests written) is kept as a log.  Unix only: on
    Windows the child is started without a handle, so dropping it only closes the
    connection. *)

From Stdlib Require Import Ascii String.
From S2P Require Import Prelude RustStd Json Protocol Schema Contracts Commands.

Module ComputerUse.

Definition MAX_RESPONSE : Z := 16 * 1024 * 1024.

(** ** What the service asks of the machine *)

Inductive file_read := Contents (text : string) | NotFound | Unreadable (message : string).
(** The bytes a reader will be given, and how they end: with the end of the stream, or with an error. *)
Record arrival := Arrival { arriving : string; broken : option string }.
(** What [accept] finds: nobody, an error, or a connection; its settings may be refused before and after its
    first bytes are read. *)
Inductive caller :=
  | Nobody
  | Refused (message : string)
  | Connected (settings : option string) (hello : arrival) (more_settings : option string).

(** Answers of the machine, by turn: each question the service asks is asked at a turn of its own. *)
Class Machine := {
  root_variable : option string;
  executable_root : option string;
  read_to_string : nat -> string -> file_read;
  is_file : nat -> string -> bool;
  refuses : nat -> string -> option string;
  accepts : nat -> caller;
  exited : nat -> bool;
  refuses_bytes : nat -> string -> option string;
  answers_with : nat -> string -> arrival;
}.

(** [serde_json::from_slice] *)
Class FrameText := parse_frame : string -> string + Value.

(** ** State *)

Module Host.
Record t := mk {
  number : nat;
  session : string;
  identity : Value;
  unread : string;
}.
End Host.

(** [Asked n session request]: the request was written, or begun to be written, to host [n]; [session] is the
    one it was for, unless the tools were listed.  [Restarted]: the executor was, and its connection with it. *)
Inductive event :=
  | Started (n : nat) (session : string) (token : string)
  | Asked (n : nat) (session : option string) (request : Value)
  | Dropped (n : nat)
  | Restarted.

Record t := mk {
  slot : option Host.t;
  turn : nat;
  handshakes : list string;
  log : list event;
}.
Definition new : t := mk None 0 [] [].
Definition set_slot (h : option Host.t) (s : t) : t := mk h (turn s) (handshakes s) (log s).
Definition next_turn (s : t) : t := mk (slot s) (S (turn s)) (handshakes s) (log s).
Definition set_handshakes (f : list string -> list string) (s : t) : t := mk (slot s) (turn s) (f (handshakes s)) (log s).
(** A new process of the executor. *)
Definition restart (s : t) : t := mk None (turn s) (handshakes s) (log s ++ [Restarted]).
Definition record (e : event) (s : t) : t := mk (slot s) (turn s) (handshakes s) (log s ++ [e]).

Definition handler := M t RpcError.t.

Definition tick : handler nat := s ← get; _ ← modify next_turn; mret (turn s).

Definition failed (error : string) : RpcError.t := RpcError.new "COMPUTER_USE_UNAVAILABLE" error.
Definition invalid_params (message : string) : RpcError.t := RpcError.new "INVALID_PARAMS" message.

(** ** Frames *)

(** [reader.take(limit).read_until(b'\n', ..)]: what was read, and what is left. *)
Fixpoint read_until (limit : Z) (s : string) : string * string :=
  match s with
  | EmptyString => (EmptyString, EmptyString)
  | String c s' =>
      if limit <=? 0 then (EmptyString, s)
      else if Ascii.eqb c "010" then (String c EmptyString, s')
      else let '(line, rest) := read_until (limit - 1) s' in (String c line, rest)
  end.
Definition feed : string := String "010" EmptyString.

Section frames.
Context `{!FrameText}.

Definition closed : string := "host closed or response exceeded 16 MiB; operation outcome may be unknown".

(** The bytes not read yet come before the ones that arrive.  A read that fails is reported when neither a
    line nor the limit comes before it. *)
Definition read_frame (unread : string) (a : arrival) : outcome RpcError.t Value * string :=
  let '(bytes, rest) := read_until (MAX_RESPONSE + 1) (unread +:+ arriving a) in
  let judged :=
    if Str.is_empty bytes || (MAX_RESPONSE <? Str.len bytes) || negb (Str.ends_with feed bytes)
    then Err (failed closed)
    else match parse_frame bytes with inl error => Err (failed error) | inr v => Ok v end in
  if Str.ends_with feed bytes || (MAX_RESPONSE <? Str.len bytes) then (judged, rest)
  else (match broken a with Some error => Err (failed error) | None => judged end, rest).
End frames.

(** ** Starting a host *)

Section service.
Context `{!Machine, !FrameText, !Text}.

Abbreviation join := Commands.Commands.join.

(** A system call that may be refused. *)
Definition call_system (what : string) : handler unit :=
  n ← tick;
  match refuses n what with Some error => throw (failed error) | None => mret tt end.

(** The selection of a root file: its text, which must be absolute, or what stands in for a missing file. *)
Definition selected (file fallback message : string) : handler string :=
  n ← tick;
  match read_to_string n file with
  | Contents value =>
      let selected := Str.trim value in
      _ ← guard (FsPath.is_absolute selected) (failed message);
      mret selected
  | NotFound => mret fallback
  | Unreadable error => throw (failed error)
  end.
Definition node_executable (root : string) : handler string :=
  selected (join root "node-path") (join root "node") "computer-use node-path must be absolute".
Definition host_root (state_root root : string) : handler string :=
  selected (join state_root "host-root") root "computer-use host-root must be absolute".

Definition runtime_root (state_root : string) : handler string :=
  match root_variable with
  | Some root => mret root
  | None =>
      n ← tick;
      match read_to_string n (join state_root "runtime-root") with
      | Contents value => mret (Str.trim value)
      | _ => lift (ok_or (failed "cannot locate computer-use package") executable_root)
      end
  end.

Definition file_exists (path : string) : handler bool := n ← tick; mret (is_file n path).

Definition missing : string :=
  "managed pi-computer-use runtime is missing; run scripts/install-computer-use.mjs for this release".
Definition not_connected : string :=
  "computer-use host did not connect; check Node installation and interactive desktop session".

(** The handshake file holds the token that the host has to present. *)
Definition write_handshake (handshake : string) : handler unit :=
  _ ← call_system "open handshake";
  _ ← modify (set_handshakes (fun files => files ++ [handshake]));
  call_system "write handshake".
Definition remove_handshake (handshake : string) : handler unit :=
  n ← tick;
  match refuses n "remove handshake" with
  | Some _ => mret tt
  | None => modify (set_handshakes (bfilter (fun file => negb (bool_decide (file = handshake)))))
  end.

(** [read_frame(&mut reader).is_ok_and(|hello| hello["token"] == token)] *)
Definition presents (token : string) (frame : outcome RpcError.t Value) : bool :=
  match frame with Ok hello => bool_decide (as_str (vindex hello "token") = Some token) | _ => false end.

(** One look at the listener: what a host that shows the token has sent beyond its first line. *)
Definition look (token : string) : handler (option string) :=
  n ← tick;
  match accepts n with
  | Nobody => mret None
  | Refused error => throw (failed error)
  | Connected (Some error) _ _ => throw (failed error)
  | Connected None hello more =>
      let '(frame, rest) := read_frame EmptyString hello in
      if presents token frame then
        match more with Some error => throw (failed error) | None => mret (Some rest) end
      else mret None
  end.

(** The loop over [accept], every 25 ms until the deadline. *)
Fixpoint accept_host (fuel : nat) (token : string) (deadline : Z) : handler string :=
  match fuel with
  | O => lift Panic
  | S fuel' =>
      found ← look token;
      match found with
      | Some rest => mret rest
      | None =>
          at_time ← now;
          gone ← (if deadline <=? at_time then mret true else n ← tick; mret (exited n) : handler bool);
          if (gone : bool) then throw (failed not_connected) else accept_host fuel' token deadline
      end
  end.
(** 30 s by 25 ms. *)
Definition turns : nat := 1200.

(** What has to be there before a process is started. *)
Definition prepare (state_root : string) : handler unit :=
  root ← runtime_root state_root;
  node ← node_executable root;
  host_root ← host_root state_root root;
  has_node ← file_exists node;
  has_script ← (if (has_node : bool) then file_exists (join host_root "host.mjs") else mret false : handler bool);
  has_package ← (if (has_script : bool) then file_exists (join root "node_modules/@injaneity/pi-computer-use/package.json")
                 else mret false : handler bool);
  _ ← guard has_package (failed missing);
  _ ← call_system "create state root";
  _ ← call_system "protect state root";
  _ ← call_system "listen";
  call_system "set_nonblocking".

(** The child process and its first connection. *)
Definition launch (session token handshake : string) : handler Host.t :=
  number ← tick;
  match refuses number "spawn" with
  | Some error => _ ← remove_handshake handshake; throw (failed error)
  | None =>
      _ ← modify (record (Started number session token));
      started ← now;
      result ← settled (accept_host turns token (started + 30000));
      _ ← remove_handshake handshake;
      match result with
      | Ok rest => mret (Host.mk number session VNull rest)
      | Err error => _ ← modify (record (Dropped number)); throw error
      | Panic => lift Panic
      end
  end.

Definition start (state_root session : string) : handler Host.t :=
  _ ← prepare state_root;
  token ← fresh_uuid;
  name ← fresh_uuid;
  let handshake := join state_root ("handshake-" +:+ name +:+ ".json") in
  _ ← write_handshake handshake;
  _ ← call_system "local_addr";
  launch session token handshake.

(** ** Calls *)

(** [*guard = None]: the host is dropped, which kills its process. *)
Definition drop_host : handler unit :=
  s ← get;
  match slot s with
  | Some host => modify (fun s => set_slot None (record (Dropped (Host.number host)) s))
  | None => mret tt
  end.

Definition on_host (f : Host.t -> Host.t) : handler unit := modify (fun s => set_slot (f <$> slot s) s).
Definition with_identity (identity : Value) (h : Host.t) : Host.t :=
  Host.mk (Host.number h) (Host.session h) identity (Host.unread h).
Definition with_unread (unread : string) (h : Host.t) : Host.t :=
  Host.mk (Host.number h) (Host.session h) (Host.identity h) unread.

Definition request_of (id method : string) (params : Value) : Value :=
  json_object [("id", VString id); ("method", VString method);
               ("args", default (json_object []) (vget params "arguments"))].

(** What is made of an answer. *)
Definition judge (id method : string) (tools_only : bool) (identity response : Value) : outcome RpcError.t Value :=
  if negb (bool_decide (as_str (vindex response "id") = Some id)) then
    Err (failed (default "host response ID mismatch" (as_str (vindex response "error"))))
  else if negb (bool_decide (as_bool (vindex response "ok") = Some true)) then
    Err (RpcError.new "COMPUTER_USE_TOOL_FAILED"
           (default "extension tool failed" (as_str (vindex response "error"))))
  else Ok (if tools_only then json_object [("tools", vindex response "result"); ("hostIdentity", identity)]
           else if decide (method = "close") then json_object [("closed", VBool true)]
           else vindex response "result").

Definition exchange (session : string) (tools_only : bool) (id method : string) (params : Value) (host : Host.t) :
    handler Value :=
  let request := request_of id method params in
  let bytes := json_text request in
  _ ← guard (Str.len bytes <=? 1024 * 1024) (invalid_params "request exceeds 1 MiB");
  n ← tick;
  _ ← modify (record (Asked (Host.number host) (if tools_only then None else Some session) request));
  _ ← (match refuses_bytes n (bytes +:+ feed) with Some error => throw (failed error) | None => mret tt end : handler unit);
  let '(frame, rest) := read_frame (Host.unread host) (answers_with n (bytes +:+ feed)) in
  _ ← on_host (with_unread rest);
  response ← lift frame;
  let identity := default (Host.identity host) (vget response "identity") in
  _ ← on_host (with_identity identity);
  lift (judge id method tools_only identity response).

Definition unavailable (result : outcome RpcError.t Value) : bool :=
  match result with Err e => bool_decide (RpcError.code e = "COMPUTER_USE_UNAVAILABLE") | _ => false end.

(** The host for a session: the one that runs, unless it runs for another session and is not only asked for its
    tools. *)
Definition host_for (state_root session : string) (tools_only : bool) : handler Host.t :=
  s ← get;
  _ ← (match slot s with
       | Some host => if negb tools_only && negb (bool_decide (Host.session host = session)) then drop_host else mret tt
       | None => mret tt
       end : handler unit);
  s ← get;
  match slot s with
  | Some host => mret host
  | None => host ← start state_root session; _ ← modify (set_slot (Some host)); mret host
  end.

Definition session_of (params : Value) : string := default "discovery" (as_str (vindex params "sessionId")).

Definition call (state_root : string) (params : Value) (tools_only : bool) : handler Value :=
  let session := session_of params in
  _ ← guard (negb (Str.is_empty session || (256 <? Str.len session))) (invalid_params "sessionId must be 1..256 bytes");
  method ← lift (if tools_only then Ok "tools"
                 else ok_or (invalid_params "tool is required") (as_str (vindex params "tool")));
  host ← host_for state_root session tools_only;
  id ← fresh_uuid;
  result ← settled (exchange session tools_only id method params host);
  _ ← (if bool_decide (method = "close") || unavailable result then drop_host else mret tt : handler unit);
  lift result.

Definition close_existing (state_root : string) : handler unit :=
  s ← get;
  match slot s with
  | Some host =>
      _ ← call state_root (json_object [("sessionId", VString (Host.session host)); ("tool", VString "close")]) false;
      mret tt
  | None => mret tt
  end.

(** [busy]: a call holds the lock. *)
Definition status (state_root : string) (busy : bool) : handler Value :=
  n ← tick;
  s ← get;
  let digest := match read_to_string n (join state_root "host-root") with
                | Contents value => FsPath.file_name (Str.trim value)
                | _ => None
                end in
  let fields :=
    if busy then [("busy", VBool true)]
    else match slot s with
         | Some host => [("running", VBool true); ("sessionId", VString (Host.session host)); ("identity", Host.identity host)]
         | None => [("running", VBool false)]
         end in
  mret (json_object (("selectedArtifactDigest", vopt vstr digest) :: fields)).

End service.

(** ** The start of a host *)

Section starting.
Context `{!Machine, !FrameText, !Text}.

(** What a step that only asks the machine leaves alone. *)
Record apart (s : t) (w : world) (s' : t) (w' : world) : Prop := {
  same_log : log s' = log s;
  same_slot : slot s' = slot s;
  later : (turn s <= turn s')%nat;
  same_clock : clock w' = clock w;
  clock_on : (clock_at w <= clock_at w')%nat;
  same_uuids : uuids w' = uuids w;
}.
Lemma host_apart_refl s w : apart s w s w.
Proof. by split. Qed.
Lemma host_apart_trans s w s1 w1 s2 w2 : apart s w s1 w1 -> apart s1 w1 s2 w2 -> apart s w s2 w2.
Proof. intros [] []. split; try congruence; lia. Qed.

Definition is_unavailable (e : RpcError.t) : Prop := RpcError.code e = "COMPUTER_USE_UNAVAILABLE".

(** [m] only asks, and fails with one code. *)
Definition asks {A} (m : handler A) : Prop := forall s w,
  apart s w (m s w).1.2 (m s w).2 /\
  match (m s w).1.1 with Ok _ => True | Err e => is_unavailable e | Panic => False end.

Lemma machine_bind {A B} (m : handler A) (k : A -> handler B) : asks m -> (forall a, asks (k a)) -> asks (m ≫= k).
Proof.
  intros Hm Hk s w. destruct (Hm s w) as [Ha Ho]. unfold mbind, M_bind.
  destruct (m s w) as [[[a|e|] s1] w1]; [|done|done]. destruct (Hk a s1 w1) as [Ha' Ho'].
  split; [by eapply host_apart_trans|done].
Qed.
Lemma machine_ret {A} (a : A) : asks (mret a).
Proof. intros s w. by split; [apply host_apart_refl|]. Qed.
Lemma machine_failed {A} error : asks (throw (failed error) : handler A).
Proof. intros s w. by split; [apply host_apart_refl|]. Qed.
Lemma machine_guard b error : asks (guard b (failed error)).
Proof. destruct b; [apply machine_ret|apply machine_failed]. Qed.
Lemma machine_tick : asks tick.
Proof. intros s w. split; [|done]. split; try done. simpl. unfold modify, get. simpl. lia. Qed.
Lemma machine_uuid : asks fresh_uuid.
Proof. intros s w. by split. Qed.
Lemma machine_files f : asks (modify (set_handshakes f)).
Proof. intros s w. by split. Qed.
Lemma machine_found error o : asks (lift (ok_or (failed error) o) : handler string).
Proof. intros s w. destruct o; by split; [apply host_apart_refl|]. Qed.
Create HintDb asks.
#[local] Hint Resolve machine_ret machine_failed machine_guard machine_tick machine_uuid machine_files machine_found : asks.
Ltac ask := repeat first [solve [auto with asks] | apply machine_bind; [|intros ?] | case_match].

Lemma machine_call what : asks (call_system what).
Proof. unfold call_system. ask. Qed.
#[local] Hint Resolve machine_call : asks.
Lemma asks_selected file fallback message : asks (selected file fallback message).
Proof. unfold selected. ask. Qed.
Lemma asks_root state_root : asks (runtime_root state_root).
Proof. unfold runtime_root. ask. Qed.
Lemma asks_exists path : asks (file_exists path).
Proof. unfold file_exists. ask. Qed.
Lemma asks_write handshake : asks (write_handshake handshake).
Proof. unfold write_handshake. ask. Qed.
Lemma asks_remove handshake : asks (remove_handshake handshake).
Proof. unfold remove_handshake. ask. Qed.
#[local] Hint Resolve asks_selected asks_root asks_exists asks_write asks_remove : asks.

(** The connection that is taken has shown the token in its first line. *)
Definition took (token : string) (from : nat) : Prop := exists k hello,
  (from <= k)%nat /\ accepts k = Connected None hello None /\ presents token (read_frame EmptyString hello).1 = true.

(** One look at the listener. *)
Lemma asks_look token : asks (look token).
Proof. unfold look. ask. Qed.
Lemma look_took token s w rest : (look token s w).1.1 = Ok (Some rest) -> took token (turn s).
Proof.
  unfold look, tick. run_handler. destruct (accepts (turn s)) as [|e|[e|] hello more] eqn:Ha; try done.
  destruct (read_frame EmptyString hello) as [frame rest'] eqn:Hf. destruct (presents token frame) eqn:Hp; [|done].
  destruct more; [done|]. intros _. exists (turn s), hello. rewrite Hf. by split; [lia|].
Qed.

Definition advancing (w : world) : Prop := forall i, clock w i + 25 <= clock w (S i).

Lemma asks_gone (b : bool) : asks ((if b then mret true else n ← tick; mret (exited n)) : handler bool).
Proof. ask. Qed.
#[local] Hint Resolve asks_look asks_gone : asks.


Lemma advancing_le w i j : advancing w -> (i <= j)%nat -> clock w i + 25 * Z.of_nat (j - i) <= clock w j.
Proof.
  intros Hw Hij. induction Hij as [|j Hij IH]; [rewrite Nat.sub_diag; lia|].
  specialize (Hw j). replace (S j - i)%nat with (S (j - i)) by lia. lia.
Qed.

Lemma advancing_apart s w s1 w1 : apart s w s1 w1 -> advancing w -> advancing w1.
Proof. intros Ha Hw i. rewrite (same_clock _ _ _ _ Ha). apply Hw. Qed.

Section waits.
Context (late : Prop).

(** What a wait for the host has come to; it runs out of turns only if [late]. *)
Definition accepted (token : string) (s : t) (w : world) (r : outcome RpcError.t string * t * world) : Prop :=
  apart s w r.1.2 r.2 /\
  match r.1.1 with Ok _ => took token (turn s) | Err e => is_unavailable e | Panic => late end.

Lemma accepted_later token s w s1 w1 r : apart s w s1 w1 -> accepted token s1 w1 r -> accepted token s w r.
Proof.
  intros Ha [Ha' Ho]. split; [by eapply host_apart_trans|]. destruct (r.1.1); [|done|done].
  destruct Ho as (k & hello & Hk & Hrest). exists k, hello. split; [|done]. destruct Ha. lia.
Qed.

Lemma accept_ends fuel token deadline s w :
  late \/ advancing w /\ (0 < fuel)%nat /\ deadline <= clock w (clock_at w) + 25 * (Z.of_nat fuel - 1) ->
  accepted token s w (accept_host fuel token deadline s w).
Proof.
  revert s w. induction fuel as [|fuel IH]; intros s w Hf.
  { split; [apply host_apart_refl|]. destruct Hf as [|(_ & ? & _)]; [done|lia]. }
  cbn [accept_host].
  destruct (asks_look token s w) as [Ha Ho]. pose proof (look_took token s w) as Ht.
  destruct (look token s w) as [[[found|e|] s1] w1] eqn:Hl; cbn in Ha, Ho, Ht; [|by rewrite (bind_run_Err _ _ _ _ _ _ _ Hl); split|done].
  rewrite (bind_run_Ok _ _ _ _ _ _ _ Hl). destruct found as [rest|]; [split; [exact Ha|by apply (Ht rest)]|].
  apply (accepted_later token s w s1 w1); [exact Ha|]. clear Ho Ht Hl.
  set (n := clock w1 (clock_at w1)). destruct (asks_gone (deadline <=? n) s1 (clock_tick w1)) as [Hb Hg].
  rewrite (bind_run_Ok now _ s1 w1 n s1 (clock_tick w1)) by done.
  destruct ((if deadline <=? n then mret true else n0 ← tick; mret (exited n0)) s1 (clock_tick w1)) as [[[gone|e|] s2] w2] eqn:Hrun;
    cbn in Hb, Hg; [|by destruct (_ <=? _); [|rewrite (bind_run_Err _ _ _ _ _ _ _ Hrun)]|done].
  rewrite (bind_run_Ok _ _ _ _ _ _ _ Hrun).
  assert (Hc : apart s1 w1 s2 w2) by (destruct Hb; split; try done; cbn in *; lia).
  apply (accepted_later token s1 w1 s2 w2); [exact Hc|]. destruct gone; [by split; [apply host_apart_refl|]|].
  apply IH. destruct Hf as [|(Hw & _ & Hd)]; [by left|right]. split; [by eapply advancing_apart, advancing_apart|].
  assert (Hn : n < deadline) by (destruct (deadline <=? n) eqn:He; [by injection Hrun|lia]).
  pose proof (advancing_le w (clock_at w) (clock_at w1) Hw ltac:(by destruct Ha)) as Hn1.
  pose proof (advancing_le w (clock_at w1) (clock_at w2) Hw ltac:(by destruct Hc)) as Hn2.
  assert (Hlt : (clock_at w1 < clock_at w2)%nat) by (destruct Hb; cbn in *; lia).
  subst n. rewrite (same_clock _ _ _ _ Ha) in Hn. split.
  - destruct fuel; lia.
  - rewrite (same_clock _ _ _ _ Hc), (same_clock _ _ _ _ Ha). lia.
Qed.

(** What a start has come to: a host that is alone new in the log and has shown a token drawn for it, or
    none that still runs. *)
Definition begun (session : string) (s : t) (w : world) (r : outcome RpcError.t Host.t * t * world) : Prop :=
  slot r.1.2 = slot s /\ (turn s <= turn r.1.2)%nat /\
  match r.1.1 with
  | Ok h => exists i from, log r.1.2 = log s ++ [Started (Host.number h) session (uuids w i)] /\ Host.session h = session /\
      (turn s <= Host.number h < from)%nat /\ (Host.number h < turn r.1.2)%nat /\ took (uuids w i) from
  | Err e => is_unavailable e /\ (log r.1.2 = log s \/
      exists n token, log r.1.2 = log s ++ [Started n session token; Dropped n] /\ (turn s <= n < turn r.1.2)%nat)
  | Panic => late /\ exists n token, log r.1.2 = log s ++ [Started n session token] /\ (turn s <= n < turn r.1.2)%nat
  end.

Lemma begun_later session s w s1 w1 r : apart s w s1 w1 -> begun session s1 w1 r -> begun session s w r.
Proof.
  intros [Hl Hs Ht _ _ Hu] (Hs' & Ht' & Ho). split; [congruence|]. split; [lia|]. rewrite Hl, Hu in Ho.
  destruct (r.1.1).
  - destruct Ho as (i & from & ? & ? & ? & ? & ?). exists i, from. split_and!; try done; lia.
  - destruct Ho as (He & Ho). split; [exact He|]. destruct Ho as [Ho|(n & token & ? & ?)]; [by left|right].
    exists n, token. split; [done|lia].
  - destruct Ho as (? & n & token & ? & ?). split; [done|]. exists n, token. split; [done|lia].
Qed.

Lemma begun_asks {A} session (m : handler A) k s w :
  asks m -> late \/ advancing w ->
  (forall a s1 w1, m s w = (Ok a, s1, w1) -> late \/ advancing w1 -> uuids w1 = uuids w -> begun session s1 w1 (k a s1 w1)) ->
  begun session s w ((m ≫= k) s w).
Proof.
  intros Hm Hw Hk. destruct (Hm s w) as [Ha Ho]. destruct (m s w) as [[[a|e|] s1] w1] eqn:Hr; cbn in Ha, Ho; [|..|done].
  - rewrite (bind_run_Ok _ _ _ _ _ _ _ Hr). apply (begun_later session s w s1 w1); [done|].
    apply Hk; [done| |by destruct Ha]. destruct Hw; [by left|right]. by eapply advancing_apart.
  - rewrite (bind_run_Err _ _ _ _ _ _ _ Hr). destruct Ha. by split_and!; [..|split; [|left]].
Qed.

Lemma asks_prepare state_root : asks (prepare state_root).
Proof. unfold prepare, node_executable, host_root. ask. Qed.

Lemma remove_runs handshake s w : exists s',
  remove_handshake handshake s w = (Ok tt, s', w) /\ log s' = log s /\ slot s' = slot s /\ turn s' = S (turn s).
Proof. unfold remove_handshake, tick. run_handler. destruct (refuses _ _); by eexists. Qed.

Lemma launch_begun session i handshake s w :
  late \/ advancing w -> begun session s w (launch session (uuids w i) handshake s w).
Proof.
  intros Hw. unfold launch. set (token := uuids w i). rewrite (bind_run_Ok tick _ s w (turn s) (next_turn s) w) by done.
  destruct (refuses (turn s) "spawn") as [error|].
  { apply (begun_later session s w (next_turn s) w); [by split; try done; cbn; lia|].
    apply begun_asks; [apply asks_remove|done|]. intros _ s1 w1 _ _ _. by split_and!; [..|split; [|left]]. }
  set (s1 := record (Started (turn s) session token) (next_turn s)). set (n := clock w (clock_at w)).
  rewrite (bind_run_Ok (modify _) _ _ w tt s1 w) by done. rewrite (bind_run_Ok now _ s1 w n s1 (clock_tick w)) by done.
  assert (Hd : late \/ advancing (clock_tick w) /\ (0 < turns)%nat /\
            n + 30000 <= clock w (S (clock_at w)) + 25 * (Z.of_nat turns - 1)).
  { destruct Hw as [|Hw]; [by left|right]. split; [done|]. specialize (Hw (clock_at w)). unfold n, turns. lia. }
  destruct (accept_ends turns token (n + 30000) s1 (clock_tick w) Hd) as [Ha Ho].
  destruct (accept_host turns token (n + 30000) s1 (clock_tick w)) as [[[rest|e|] s2] w2] eqn:Hr; cbn in Ha, Ho.
  - rewrite (bind_run_Ok (settled _) _ _ _ (Ok rest) s2 w2) by (by apply settled_run).
    destruct (remove_runs handshake s2 w2) as (s3 & Hr3 & Hl & Hs & Ht). rewrite (bind_run_Ok _ _ _ _ _ _ _ Hr3).
    destruct Ha. cbn in *. split; [cbn; congruence|]. split; [cbn; lia|]. exists i, (S (turn s)). cbn.
    split_and!; try done; [by rewrite Hl, same_log0|lia..].
  - rewrite (bind_run_Ok (settled _) _ _ _ (Err e) s2 w2) by (by apply settled_run).
    destruct (remove_runs handshake s2 w2) as (s3 & Hr3 & Hl & Hs & Ht). rewrite (bind_run_Ok _ _ _ _ _ _ _ Hr3).
    rewrite (bind_run_Ok (modify _) _ _ _ tt (record (Dropped (turn s)) s3) w2) by done. destruct Ha. cbn in *. split; [cbn; congruence|]. split; [cbn; lia|]. split; [done|]. right. exists (turn s), token.
    cbn. rewrite Hl, same_log0, <- app_assoc. split; [done|lia].
  - rewrite (bind_run_Panic (settled _) _ _ _ s2 w2) by (by apply settled_run_Panic). destruct Ha. cbn in *.
    split; [done|]. split; [cbn; lia|]. split; [done|]. exists (turn s), token. split; [done|cbn; lia].
Qed.

Lemma start_begun state_root session s w :
  late \/ advancing w -> begun session s w (start state_root session s w).
Proof.
  intros Hw. unfold start. apply begun_asks; [apply asks_prepare|done|]. clear Hw. intros _ s1 w1 _ Hw1 _.
  apply begun_asks; [apply machine_uuid|done|]. intros token s2 w2 [= <- <- <-] _ _.
  change (uuids w1 (uuid_at w1)) with (uuids (uuid_tick w1) (uuid_at w1)).
  apply begun_asks; [apply machine_uuid|done|]. intros name s3 w3 _ Hw3 <-. cbv zeta.
  apply begun_asks; [apply asks_write|done|]. intros _ s4 w4 _ Hw4 <-.
  apply begun_asks; [apply machine_call|done|]. intros _ s5 w5 _ Hw5 <-. by apply launch_begun.
Qed.
End waits.
End starting.

(** ** Hosts and sessions *)

(** The hosts that run. *)
Definition alive (l : list event) : list nat :=
  foldl (fun running e => match e with
                          | Started n _ _ => n :: running
                          | Dropped n => bfilter (fun m => negb (Nat.eqb m n)) running
                          | Restarted => []
                          | Asked _ _ _ => running
                          end) [] l.

#[local] Arguments alive : simpl never.

Record sound (s : t) : Prop := {
  slot_started : forall h, slot s = Some h -> exists token, Started (Host.number h) (Host.session h) token ∈ log s;
  numbers_below : forall n x token, Started n x token ∈ log s -> (n < turn s)%nat;
  started_once : forall n x token x' token', Started n x token ∈ log s -> Started n x' token' ∈ log s -> x = x';
  asked_of_own : forall n x q, Asked n (Some x) q ∈ log s -> exists token, Started n x token ∈ log s;
}.
(** The host in the slot is the one that runs. *)
Definition tidy (s : t) : Prop := alive (log s) = option_list (Host.number <$> slot s).

Lemma alive_snoc l e : alive (l ++ [e]) = match e with
  | Started n _ _ => n :: alive l | Dropped n => bfilter (fun m => negb (Nat.eqb m n)) (alive l)
  | Restarted => [] | Asked _ _ _ => alive l end.
Proof. unfold alive. by rewrite foldl_app. Qed.

Lemma sound_apart s s' :
  sound s -> log s' = log s -> (turn s <= turn s')%nat ->
  (forall h, slot s' = Some h -> exists h0, slot s = Some h0 /\ Host.number h = Host.number h0 /\ Host.session h = Host.session h0) ->
  sound s'.
Proof.
  intros [H1 H2 H3 H4] Hl Ht Hs. split; rewrite Hl; [|..|done|done].
  - intros h Hh. destruct (Hs h Hh) as (h0 & Hh0 & -> & ->). by apply H1.
  - intros n x token Hin. specialize (H2 n x token Hin). lia.
Qed.

Lemma sound_record e s :
  sound s -> match e with
             | Started n _ _ => False
             | Asked n (Some x) _ => exists token, Started n x token ∈ log s
             | _ => True end -> sound (record e s).
Proof.
  intros [H1 H2 H3 H4] He.
  assert (Hold : forall n x token, Started n x token ∈ log s ++ [e] <-> Started n x token ∈ log s).
  { intros n x token. rewrite elem_of_app, list_elem_of_singleton. split; [|by left]. by intros [|<-]. }
  split; cbn.
  - intros h Hh. destruct (H1 h Hh) as (token & Hin). exists token. by apply Hold.
  - intros n x token. rewrite Hold. apply H2.
  - intros n x token x' token'. rewrite !Hold. apply H3.
  - intros n x q [Hin|<-%list_elem_of_singleton]%elem_of_app.
    + destruct (H4 n x q Hin) as (token & Hs). exists token. by apply Hold.
    + destruct He as (token & Hs). exists token. by apply Hold.
Qed.

Lemma sound_started n session token h s :
  sound s -> (turn s <= n)%nat -> forall s', log s' = log s ++ [Started n session token] -> (n < turn s')%nat ->
  slot s' = h -> (h = None \/ exists x, h = Some x /\ Host.number x = n /\ Host.session x = session) -> sound s'.
Proof.
  intros [H1 H2 H3 H4] Hn s' Hl Ht Hs Hh.
  assert (Hnew : forall m x token', Started m x token' ∈ log s' -> Started m x token' ∈ log s \/ m = n /\ x = session).
  { intros m x token'. rewrite Hl, elem_of_app, list_elem_of_singleton. intros [|[= -> -> _]]; [by left|by right]. }
  assert (Hold : forall e, e ∈ log s -> e ∈ log s') by (intros e He; rewrite Hl; apply elem_of_app; by left).
  split.
  - intros x Hx. destruct Hh as [->|(y & -> & <- & <-)]; [congruence|]. rewrite Hs in Hx. injection Hx as ->.
    exists token. rewrite Hl. apply elem_of_app. right. by apply list_elem_of_singleton.
  - intros m x token' [Hin|[-> _]]%Hnew; [|done]. specialize (H2 m x token' Hin). lia.
  - intros m x t1 x' t2 [Hin|[-> ->]]%Hnew [Hin'|[Hm ->]]%Hnew; [by eapply H3| | |done].
    + specialize (H2 _ _ _ Hin). lia.
    + specialize (H2 _ _ _ Hin'). lia.
  - intros m x q Hin. rewrite Hl in Hin. apply elem_of_app in Hin as [Hin|Hin]; [|by apply list_elem_of_singleton in Hin].
    destruct (H4 m x q Hin) as (token' & Hs'). exists token'. by apply Hold.
Qed.

Section calls.
Context `{!Machine, !FrameText, !Text}.
Variables (state_root session method : string) (tools_only : bool).

(** What one call may write: its own request. *)
Definition own (e : event) : Prop :=
  match e with
  | Asked _ x q => x = (if tools_only then None else Some session) /\ vget q "method" = Some (VString method)
  | Restarted => False
  | _ => True
  end.
Definition grown (s s' : t) : Prop := exists l, log s' = log s ++ l /\ Forall own l.
Definition post {A} (s : t) (o : outcome RpcError.t A) (s' : t) : Prop :=
  grown s s' /\ sound s' /\ match o with Panic => (length (alive (log s')) <= 1)%nat | _ => tidy s' end.

Lemma grown_refl s s' : log s' = log s -> grown s s'.
Proof. intros Hl. exists []. by rewrite Hl, app_nil_r. Qed.
Lemma grown_trans s1 s2 s3 : grown s1 s2 -> grown s2 s3 -> grown s1 s3.
Proof.
  intros (l & Hl & Hf) (l' & Hl' & Hf'). exists (l ++ l'). rewrite Hl', Hl, app_assoc. split; [done|]. by apply Forall_app.
Qed.
Lemma post_after {A} s s1 (o : outcome RpcError.t A) s' : grown s s1 -> post s1 o s' -> post s o s'.
Proof. intros Hg (Hg' & H'). split; [by eapply grown_trans|done]. Qed.
Lemma post_still {A} s (o : outcome RpcError.t A) : sound s -> tidy s -> o <> Panic -> post s o s.
Proof. intros Hs Ht Ho. split; [by apply grown_refl|]. split; [done|]. by destruct o. Qed.

Lemma bfilter_single n : bfilter (fun m => negb (Nat.eqb m n)) [n] = [].
Proof. cbn. by rewrite Nat.eqb_refl. Qed.

Lemma drop_host_post s :
  sound s -> tidy s -> wp drop_host s (fun o s' => o = Ok tt /\ post s o s' /\ slot s' = None).
Proof.
  intros Hs Ht. unfold drop_host. apply wp_get_bind. destruct (slot s) as [h|] eqn:Hh.
  - intros w. cbn. split; [done|]. split; [|done]. split; [exists [Dropped (Host.number h)]; split; [done|by repeat constructor]|].
    pose proof (sound_record (Dropped (Host.number h)) s Hs I) as Hr. split.
    + by apply (sound_apart (record (Dropped (Host.number h)) s)).
    + unfold tidy in *. cbn. rewrite alive_snoc, Ht, Hh. apply bfilter_single.
  - apply wp_ret. split; [done|]. split; [by apply post_still|done].
Qed.

Lemma start_post s :
  sound s -> tidy s -> slot s = None ->
  wp (host ← start state_root session; _ ← modify (set_slot (Some host)); mret host) s
     (fun o s' => post s o s' /\ forall h, o = Ok h -> slot s' = Some h /\ Host.session h = session).
Proof.
  intros Hs Ht Hn. apply (wp_seq _ _ _ (fun o s' => exists w r, r.1.1 = o /\ r.1.2 = s' /\ begun True session s w r)).
  { intros w. exists w, (start state_root session s w). split_and!; [done..|]. by apply start_begun; left. }
  - intros h s1 (w & r & Ho & Hr & Hsl & _ & Hb) w1. rewrite Ho, Hr in *. run_handler.
    destruct Hb as (i & from & Hl & Hx & Hn1 & Hn2 & _). split; [|by intros ? [= <-]]. split; [|split].
    + exists [Started (Host.number h) session (uuids w i)]. split; [exact Hl|by repeat constructor].
    + apply (sound_started (Host.number h) session (uuids w i) (Some h) s Hs); [lia|done..|]. right. by exists h.
    + unfold tidy in *. simpl. by rewrite Hl, alive_snoc, Ht, Hn.
  - intros e s1 (w & r & Ho & Hr & Hsl & Htu & Hb). rewrite Ho, Hr in *. split; [|done]. destruct Hb as [_ [Hl|(n & token & Hl & Hn')]].
    + split; [by apply grown_refl|]. split; [|unfold tidy in *; congruence].
      apply (sound_apart s); [done..|]. intros x Hx. exists x. by rewrite <- Hsl.
    + split; [exists [Started n session token; Dropped n]; split; [done|by repeat constructor]|]. split.
      * pose (m := mk None (turn s1) [] (log s ++ [Started n session token])).
        assert (Hm : sound m) by (apply (sound_started n session token None s Hs); [lia|done|cbn; lia|done|by left]).
        apply (sound_apart (record (Dropped n) m)); [by apply sound_record| |done|].
        -- rewrite Hl. cbn. by rewrite <- app_assoc.
        -- intros x. rewrite Hsl, Hn. done.
      * unfold tidy in *. rewrite Hl, Hsl, Hn. change [Started n session token; Dropped n] with ([Started n session token] ++ [Dropped n]).
        rewrite app_assoc, !alive_snoc, Ht, Hn. apply bfilter_single.
  - intros s1 (w & r & Ho & Hr & Hsl & Htu & Hb). rewrite Ho, Hr in *. destruct Hb as (_ & n & token & Hl & Hn'). split; [|done].
    split; [exists [Started n session token]; split; [done|by repeat constructor]|]. split.
    + apply (sound_started n session token None s Hs); [lia|done|lia|congruence|by left].
    + rewrite Hl, alive_snoc, Ht, Hn. cbn. lia.
Qed.

Lemma host_for_post s :
  sound s -> tidy s ->
  wp (host_for state_root session tools_only) s (fun o s' => post s o s' /\
    forall h, o = Ok h -> slot s' = Some h /\ (tools_only = false -> Host.session h = session)).
Proof.
  intros Hs Ht. unfold host_for. apply wp_get_bind.
  apply (wp_seq _ _ _ (fun o s' => o = Ok tt /\ post s o s' /\
    forall h, slot s' = Some h -> tools_only = false -> Host.session h = session)); [|intros u s1 (_ & Hp & Hx)|by intros ? ? [? _]|by intros ? [? _]].
  - destruct (slot s) as [h|] eqn:Hh; [destruct (negb tools_only && _) eqn:Hb|].
    + eapply wp_mono; [by apply drop_host_post|]. intros o s' (-> & Hp & Hn). split; [done|]. split; [done|]. by rewrite Hn.
    + apply wp_ret. split; [done|]. split; [by apply post_still|]. intros h' Hh'. rewrite Hh in Hh'. injection Hh' as <-. intros ->.
      by apply negb_false_iff, bool_decide_eq_true in Hb.
    + apply wp_ret. split; [done|]. split; [by apply post_still|]. by rewrite Hh.
  - destruct Hp as (Hg & Hs1 & Ht1). apply wp_get_bind. destruct (slot s1) as [h|] eqn:Hh.
    + apply wp_ret. split; [apply (post_after s s1); [done|by apply post_still]|]. intros h' [= <-]. split; [done|]. by apply Hx.
    + eapply wp_mono; [by apply start_post|]. intros o s' (Hp & Ho). split; [by apply (post_after s s1)|].
      intros h Hok. destruct (Ho h Hok). by split.
Qed.

Lemma post_ext {A B} s (o : outcome RpcError.t A) (o' : outcome RpcError.t B) s' :
  post s o s' -> o <> Panic -> o' <> Panic -> post s o' s'.
Proof. intros (Hg & Hs & Ht) Ho Ho'. split; [done|]. split; [done|]. by destruct o, o'. Qed.

(** The host of an exchange stays in the slot until it is over. *)
Definition talking (s0 : t) (host : Host.t) (s : t) : Prop :=
  grown s0 s /\ sound s /\ tidy s /\
  exists h, slot s = Some h /\ Host.number h = Host.number host /\ Host.session h = Host.session host.

Lemma talking_on_host s0 host f s :
  (forall h, Host.number (f h) = Host.number h /\ Host.session (f h) = Host.session h) ->
  talking s0 host s -> talking s0 host (set_slot (f <$> slot s) s).
Proof.
  intros Hf (Hg & Hs & Ht & h & Hh & Hn & Hx). destruct (Hf h) as [Hn' Hx'].
  split; [exact Hg|]. unfold tidy in *. cbn. rewrite Ht, Hh. cbn. split; [|split; [by rewrite Hn'|exists (f h); by rewrite Hn', Hx']].
  apply (sound_apart s); [done..|]. rewrite Hh. intros h' [= <-]. by exists h.
Qed.

Lemma read_frame_calm unread a : (read_frame unread a).1 <> Panic.
Proof. unfold read_frame. destruct (read_until _ _) as [bytes rest]. by repeat case_match. Qed.

Lemma exchange_post id params host s :
  sound s -> tidy s -> slot s = Some host -> (tools_only = false -> Host.session host = session) ->
  wp (exchange session tools_only id method params host) s (fun o s' => post s o s' /\ o <> Panic).
Proof.
  intros Hs Ht Hh Hx. unfold exchange. cbv zeta.
  assert (Hend : forall (o : outcome RpcError.t Value) s', talking s host s' -> o <> Panic -> post s o s' /\ o <> Panic)
    by (intros o s' (Hg & Hs' & Ht' & _) Ho; split; [split; [done|split; [done|by destruct o]]|done]).
  apply wp_guard_bind; intros _; [|split; [by apply post_still|done]].
  set (q := request_of id method params). set (e := Asked (Host.number host) (if tools_only then None else Some session) q).
  enough (Hk : talking s host (record e (next_turn s))).
  - unfold tick. apply wp_bind_assoc, wp_get_bind, wp_bind_assoc. intros w. run_handler. revert w.
    destruct (refuses_bytes _ _) as [error|]; [intros w; by apply Hend|].
    match goal with |- context [read_frame ?u ?a] => pose proof (read_frame_calm u a) as Hcalm end.
    destruct (read_frame _ _) as [frame rest]. cbn in Hcalm. intros w. cbn. apply (talking_on_host _ _ (with_unread rest)) in Hk; [|done].
    destruct frame as [response|e'|]; [|by apply Hend|done]. cbn.
    apply (talking_on_host _ _ (with_identity (default (Host.identity host) (vget response "identity")))) in Hk; [|done].
    apply Hend; [done|]. unfold judge. repeat case_match; done.
  - split; [|split; [|split]].
    + exists [e]. split; [done|]. repeat constructor.
    + apply sound_record.
      * apply (sound_apart s); [done..|cbn; lia|]. intros h Hh'. by exists h.
      * unfold e. destruct tools_only; [done|]. rewrite <- (Hx eq_refl). by apply (slot_started s Hs).
    + unfold tidy. cbn. rewrite alive_snoc. cbn. exact Ht.
    + by exists host.
Qed.
End calls.

Section whole.
Context `{!Machine, !FrameText, !Text}.

(** What a call leaves: it writes at most its own request, for its own session. *)
Lemma call_post state_root params tools_only s :
  sound s -> tidy s ->
  wp (call state_root params tools_only) s (fun o s' => exists method,
    post (session_of params) method tools_only s o s' /\
    (tools_only = false -> log s' = log s \/ as_str (vindex params "tool") = Some method)).
Proof.
  intros Hs Ht. unfold call. cbv zeta. set (session := session_of params).
  assert (Hstill : forall (o : outcome RpcError.t Value), o <> Panic ->
            exists method, post session method tools_only s o s /\
              (tools_only = false -> log s = log s \/ as_str (vindex params "tool") = Some method))
    by (intros o Ho; exists EmptyString; split; [by apply post_still|by left]).
  apply wp_guard_bind; intros _; [|by apply Hstill].
  apply wp_lift_bind; [intros method Hm|intros e _; by apply Hstill|by destruct tools_only; [|intros ?%ok_or_no_panic]].
  assert (Htool : tools_only = false -> as_str (vindex params "tool") = Some method)
    by (intros ->; by apply ok_or_Ok in Hm).
  eapply wp_mono; [|intros o s' H'; exists method; split; [exact H'|by right; apply Htool]].
  apply (wp_seq _ _ _ _ _ (host_for_post state_root session method tools_only s Hs Ht)); [|by intros e s' [? _]|by intros s' [? _]].
  intros host s1 ((Hg & Hs1 & Ht1) & Hh). destruct (Hh host eq_refl) as [Hsl Hx]. apply wp_uuid_bind. intros id.
  apply (wp_seq _ _ _ _ _ (wp_settled _ _ _ (exchange_post session method tools_only id params host s1 Hs1 Ht1 Hsl Hx)));
    [|by intros e s' (o & [=] & _)|by intros s' (o & [=] & _)].
  intros result s2 (o & [= <-] & (Hg2 & Hs2 & Ht2) & Ho).
  assert (Ht2' : tidy s2) by (by destruct result). clear Ht2.
  apply (wp_seq _ _ _ (fun u s' => u = Ok tt /\ post session method tools_only s u s')); [|intros u s3 (_ & Hp)|by intros ? ? [? _]|by intros ? [? _]].
  - destruct (_ || _).
    + eapply wp_mono; [by apply drop_host_post|]. intros u s3 (-> & Hp & _). split; [done|].
      by eapply post_after, post_after.
    + apply wp_ret. split; [done|]. eapply post_after; [exact Hg|]. eapply post_after; [exact Hg2|]. by apply post_still.
  - apply wp_lift. by apply (post_ext _ _ _ _ (Ok u)).
Qed.

(** The service closes the host by the call that anyone may make. *)
Lemma close_existing_post state_root s :
  sound s -> tidy s ->
  wp (close_existing state_root) s (fun o s' => exists session, post session "close" false s o s').
Proof.
  intros Hs Ht. unfold close_existing. apply wp_get_bind.
  destruct (slot s) as [h|] eqn:Hh; [|apply wp_ret; exists EmptyString; by apply post_still].
  set (params := json_object _).
  assert (Hc : wp (call state_root params false) s (fun o s' => post (session_of params) "close" false s o s')).
  { eapply wp_mono; [by apply call_post|]. intros o s' (method & Hp & Hm).
    destruct (Hm eq_refl) as [Hl|Htool]; [|injection Htool as ->; exact Hp].
    destruct Hp as [_ Hp]. split; [by apply grown_refl|exact Hp]. }
  eapply wp_seq; [exact Hc|..].
  - intros v s1 Hp. apply wp_ret. exists (session_of params). by apply (post_ext _ _ _ _ (Ok v)).
  - intros e s1 Hp. exists (session_of params). by apply (post_ext _ _ _ _ (Err e : outcome RpcError.t Value)).
  - intros s1 (Hg & Hp). exists (session_of params). by split.
Qed.

Lemma presents_token token frame :
  presents token frame = true -> exists v, frame = Ok v /\ vget v "token" = Some (VString token).
Proof.
  destruct frame as [v|e|]; [|done..]. cbn. intros Ht%bool_decide_eq_true. exists v. split; [done|]. unfold vindex in Ht.
  destruct (vget v "token") as [[]|]; cbn in Ht; try done. by injection Ht as ->.
Qed.

(** C37. A host has shown its token.  A start ends, since the clock moves by the pause of the loop at least: with
    a host that is the only thing new, whose connection, taken after the process was started, has shown in
    its first line the token drawn for it; or with one error, after which no process that was started runs. *)
Theorem a_host_shows_its_token state_root session s w :
  advancing w ->
  let '(o, s', _) := start state_root session s w in
  slot s' = slot s /\
  match o with
  | Ok h => Host.session h = session /\ exists i k hello,
      log s' = log s ++ [Started (Host.number h) session (uuids w i)] /\ (Host.number h < k)%nat /\
      accepts k = Connected None hello None /\
      exists v, (read_frame EmptyString hello).1 = Ok v /\ vget v "token" = Some (VString (uuids w i))
  | Err e => is_unavailable e /\
      (log s' = log s \/ exists n token, log s' = log s ++ [Started n session token; Dropped n])
  | Panic => False
  end.
Proof.
  intros Hw. pose proof (start_begun False state_root session s w (or_intror Hw)) as (Hs & _ & Ho).
  destruct (start state_root session s w) as [[o s'] w']. cbn in *. split; [exact Hs|]. destruct o as [h|e|]; [|..|by destruct Ho].
  - destruct Ho as (i & from & Hl & Hx & Hn & _ & k & hello & Hk & Hrest). split; [exact Hx|]. exists i, k, hello.
    split; [exact Hl|]. split; [lia|]. destruct Hrest as [Hacc Hp]. split; [exact Hacc|by apply presents_token].
  - destruct Ho as (He & [Hl|(n & token & Hl & _)]); (split; [exact He|]); [by left|right; by exists n, token].
Qed.
End whole.

(** ** A machine *)

(** The connection comes at the fifteenth turn, after a stranger. *)
#[local] Instance line_frame : FrameText := fun line => inr (json_object [("token", VString (Str.remove_chars ["010"%char] line))]).
#[local] Instance no_text : Text := {| json_text _ := EmptyString; f64_text _ := EmptyString |}.
#[local] Instance slow_machine : Machine := {|
  root_variable := None;
  executable_root := Some "/opt/cu";
  read_to_string _ _ := NotFound;
  is_file _ _ := true;
  refuses _ _ := None;
  accepts n := if Nat.eqb n 14 then Connected None (Arrival ("7" +:+ feed) None) None
               else Connected None (Arrival ("stranger" +:+ feed) None) None;
  exited _ := false;
  refuses_bytes _ _ := None;
  answers_with _ _ := Arrival EmptyString None;
|}.
Definition ticking : world := World (fun i => 25 * Z.of_nat i) (fun _ => "7") (fun _ => true) 0 0 0.

Lemma a_host_shows_its_token_witness :
  let '(o, s', _) := start "/state" "s:1" new ticking in
  (exists h, o = Ok h /\ exists i k hello, log s' = [Started (Host.number h) "s:1" (uuids ticking i)] /\
     (Host.number h < k)%nat /\ accepts k = Connected None hello None /\
     exists v, (read_frame EmptyString hello).1 = Ok v /\ vget v "token" = Some (VString (uuids ticking i))) /\
  handshakes s' = [].
Proof.
  assert (Hw : advancing ticking) by (intros i; cbn; lia).
  pose proof (a_host_shows_its_token "/state" "s:1" new ticking Hw) as Ht.
  destruct (start "/state" "s:1" new ticking) as [[o s'] w'] eqn:Hrun. destruct Ht as [_ Ht]. revert Hrun.
  destruct o as [h|e|]; [|vm_compute; done..]. intros Hrun. destruct Ht as (_ & i & k & hello & Hl & Hrest).
  split; [exists h; split; [done|]; by exists i, k, hello|]. revert Hrun. clear. vm_compute. by intros [= _ <- _].
Defined.
End ComputerUse.
