(* ===== verification/Sessions.v ===== *)
(** * Desktop sessions at work ([desktop_dispatch] in [crates/workbench-runtime/src/executor.rs])

    The executor puts the desktop queue ([Desktop]), the resource permits
    ([Executors]) and the computer-use host ([ComputerUse]) together.  An action
    on the desktop is admitted by the queue, runs behind the execution gate, and
    is ended in the queue; sessions that are over are cleaned up by closing the
    host.  First the handler as it is, then its parts as steps between which
    other requests, restarts and the reaper come. *)

From Stdlib Require Import Ascii String.
From S2P Require Import Prelude RustStd Json Protocol Schema Contracts.
From S2P Require Import Catalog Arbitration Enforcement Executors Desktop ComputerUse.

Module Sessions.

Record t := mk {
  desktop : DesktopQueue.host;
  service : ComputerUse.t;
  runtime : ExecutorRuntime.t;
}.
Definition set_desktop (h : DesktopQueue.host) (e : t) : t := mk h (service e) (runtime e).
Definition set_service (s : ComputerUse.t) (e : t) : t := mk (desktop e) s (runtime e).
Definition set_runtime (r : ExecutorRuntime.t) (e : t) : t := mk (desktop e) (service e) r.

Definition handler := M t RpcError.t.

(** A method of a component, under the executor. *)
Definition on_desktop {A} (m : DesktopQueue.handler A) : handler A := fun e w =>
  let '(o, h, w') := m (desktop e) w in (o, set_desktop h e, w').
Definition on_service {A} (m : ComputerUse.handler A) : handler A := fun e w =>
  let '(o, s, w') := m (service e) w in (o, set_service s e, w').
Definition on_runtime {A} (m : ExecutorRuntime.handler A) : handler A := fun e w =>
  let '(o, r, w') := m (runtime e) w in (o, set_runtime r e, w').

Section executor.
Context `{!Text, !Sha256, mc : ComputerUse.Machine, !ComputerUse.FrameText}.
Variable fuel : nat.
Variable state_root : string.
(** What the platform makes of any other action. *)
Variable others : string -> Value -> world -> outcome RpcError.t Value * world.

(** The arm of [dispatch] for the extension, and the rest. *)
Definition dispatch (action : string) (params : Value) : handler Value :=
  if bool_decide (action = "computer-use.tools" \/ action = "computer-use.call")
  then on_service (ComputerUse.call state_root params (bool_decide (action = "computer-use.tools")))
  else fun e w => let '(o, w') := others action params w in (o, e, w').

Definition with_permit {A} (permit : list string) (m : handler A) : handler A := fun e w =>
  let '(o, e', w') := m e w in
  (o, set_runtime (ExecutorRuntime.drop_permit permit (runtime e') w') e',
   (Resources.drop_permit permit (ExecutorRuntime.resources (runtime e')) w').2).

Definition resource_dispatch (action : string) (params : Value) : handler Value :=
  if Str.starts_with "resource.lease." action
  then on_runtime (ExecutorRuntime.on_resources (Resources.command action params))
  else
    permit ← on_runtime (ExecutorRuntime.begin fuel action params);
    with_permit permit (_ ← on_runtime (ExecutorRuntime.enforce fuel action params); dispatch action params).

(** [reconcile_desktop]; nothing when the gate is taken. *)
Definition reconcile_desktop (gate_free : bool) : handler unit :=
  if gate_free then
    needed ← on_desktop DesktopQueue.needs_cleanup;
    _ ← (if (needed : bool) then
           result ← settled (on_service (ComputerUse.close_existing state_root));
           _ ← on_desktop (DesktopQueue.cleanup_done (is_ok result));
           lift result
         else mret tt : handler unit);
    on_desktop DesktopQueue.promote
  else mret tt.

(** What runs between the admission of an action and its end. *)
Definition run_action (action : string) (params : Value) : handler Value :=
  if bool_decide (action = "computer-use.call") then dispatch action params else resource_dispatch action params.

Definition desktop_dispatch (action : string) (params : Value) : handler Value :=
  if Str.starts_with "desktop." action then
    _ ← reconcile_desktop true;
    result ← on_desktop (DesktopQueue.command action params);
    _ ← reconcile_desktop true;
    if bool_decide (action = "desktop.finish" \/ action = "desktop.cancel")
    then on_desktop (DesktopQueue.command "desktop.get" params)
    else mret result
  else if negb (DesktopQueue.protected action) then resource_dispatch action params
  else
    _ ← reconcile_desktop true;
    params ← on_desktop (DesktopQueue.begin action params);
    result ← settled (run_action action params);
    _ ← on_desktop (DesktopQueue.end_action (DesktopQueue.uncertain_outcome result));
    _ ← reconcile_desktop true;
    lift result.

(** ** Interleavings *)

(** The gate: free; taken by an action under way, or by one that has its result; or poisoned by a
    panic. *)
Inductive phase :=
  | Idle
  | UnderWay (action : string) (params : Value)
  | Answered (result : outcome RpcError.t Value)
  | Poisoned.

Record system := System {
  executor : t;
  gate : phase;
}.

(** What [m] leaves, and the gate when it does not panic. *)
Definition run {A} (m : handler A) (e : t) (w : world) (next : outcome RpcError.t A -> phase) : system :=
  let '(o, e', _) := m e w in System e' (match o with Panic => Poisoned | _ => next o end).

(** A step is labelled by the desktop command it serves, if any. *)
Inductive step : option (string * Value) -> system -> system -> Prop :=
  | step_command e g action params w :
      step (Some (action, params)) (System e g) (System (on_desktop (DesktopQueue.command action params) e w).1.2 g)
  | step_reconcile e w : step None (System e Idle) (run (reconcile_desktop true) e w (fun _ => Idle))
  | step_begin e action params w :
      DesktopQueue.protected action = true ->
      step None (System e Idle) (run (on_desktop (DesktopQueue.begin action params)) e w
                                   (fun o => match o with Ok params' => UnderWay action params' | _ => Idle end))
  | step_run e action params w :
      step None (System e (UnderWay action params)) (run (run_action action params) e w Answered)
  | step_end e result w :
      step None (System e (Answered result))
           (run (on_desktop (DesktopQueue.end_action (DesktopQueue.uncertain_outcome result))) e w (fun _ => Idle))
  | step_status e g busy w :
      step None (System e g) (System (on_service (ComputerUse.status state_root busy) e w).1.2 g)
  | step_request e g r : step None (System e g) (System (set_runtime r e) g)
  | step_restart e g p w h r :
      DesktopQueue.path (DesktopQueue.queue (desktop e)) = Some p ->
      (DesktopQueue.open p (DesktopQueue.disk (desktop e)) w).1 = (Ok tt, h) ->
      step None (System e g) (System (mk h (ComputerUse.restart (service e)) r) Idle).

Definition stepping (S S' : system) : Prop := exists l, step l S S'.

Definition start (p : string) (r : ExecutorRuntime.t) : system :=
  System (mk (DesktopQueue.host_of (DesktopQueue.start p)) ComputerUse.new r) Idle.

Definition reachable (p : string) (r : ExecutorRuntime.t) : system -> Prop := rtc stepping (start p r).
End executor.

(** ** What the parts of an action leave alone *)

Section parts.
Context `{!Text, !Sha256, mc : ComputerUse.Machine, !ComputerUse.FrameText}.
Variables (fuel : nat) (state_root : string).
Variable others : string -> Value -> world -> outcome RpcError.t Value * world.

Definition on_queue_of (I : DesktopQueue.host -> Prop) (e : t) : Prop := I (desktop e).

Lemma keeps_desktop {A} I (m : DesktopQueue.handler A) : keeps I m -> keeps (on_queue_of I) (on_desktop m).
Proof.
  intros Hm e w He. specialize (Hm (desktop e) w He). unfold on_desktop, on_queue_of.
  by destruct (m (desktop e) w) as [[o h] w'].
Qed.
Lemma keeps_service {A} I (m : ComputerUse.handler A) : keeps (on_queue_of I) (on_service m).
Proof. intros e w He. unfold on_service. by destruct (m (service e) w) as [[o s] w']. Qed.
Lemma reconcile_keeps I free :
  keeps I DesktopQueue.needs_cleanup -> (forall b, keeps I (DesktopQueue.cleanup_done b)) -> keeps I DesktopQueue.promote ->
  keeps (on_queue_of I) (reconcile_desktop state_root free).
Proof.
  intros Hn Hc Hp. destruct free; [|apply keeps_ret]. unfold reconcile_desktop.
  apply keeps_bind; [by apply keeps_desktop|]. intros needed. apply keeps_bind; [|intros _; by apply keeps_desktop].
  destruct needed; [|apply keeps_ret]. apply keeps_bind; [apply keeps_settled, keeps_service|]. intros result.
  apply keeps_bind; [by apply keeps_desktop|]. intros _. apply keeps_lift.
Qed.

(** The service is left alone by what runs under the queue and under the permits. *)
Lemma wp_on_desktop {A} (m : DesktopQueue.handler A) e (Q : outcome RpcError.t A -> t -> Prop) :
  (forall o h, Q o (set_desktop h e)) -> wp (on_desktop m) e Q.
Proof. intros HQ w. unfold on_desktop. destruct (m (desktop e) w) as [[o h] w']. apply HQ. Qed.
Lemma wp_on_runtime {A} (m : ExecutorRuntime.handler A) e (Q : outcome RpcError.t A -> t -> Prop) :
  (forall o r, Q o (set_runtime r e)) -> wp (on_runtime m) e Q.
Proof. intros HQ w. unfold on_runtime. destruct (m (runtime e) w) as [[o r] w']. apply HQ. Qed.
Lemma wp_on_service {A} (m : ComputerUse.handler A) e (Q : outcome RpcError.t A -> t -> Prop) :
  wp m (service e) (fun o s => Q o (set_service s e)) -> wp (on_service m) e Q.
Proof. intros HQ w. specialize (HQ w). unfold on_service. by destruct (m (service e) w) as [[o s] w']. Qed.
Lemma wp_with_permit {A} permit (m : handler A) e (Q : outcome RpcError.t A -> t -> Prop) :
  wp m e (fun o e' => forall r, Q o (set_runtime r e')) -> wp (with_permit permit m) e Q.
Proof. intros HQ w. specialize (HQ w). unfold with_permit. destruct (m e w) as [[o e'] w']. apply HQ. Qed.

Lemma tidy_alive s : ComputerUse.tidy s -> (length (ComputerUse.alive (ComputerUse.log s)) <= 1)%nat.
Proof. unfold ComputerUse.tidy. intros ->. destruct (ComputerUse.slot s); simpl; lia. Qed.

(** A handler that leaves the log and the slot of the service alone. *)
Lemma post_idle {A} session method tools_only s (o : outcome RpcError.t A) :
  ComputerUse.sound s -> ComputerUse.tidy s -> ComputerUse.post session method tools_only s o s.
Proof.
  intros Hs Ht. destruct o as [a|e|]; [by apply ComputerUse.post_still..|].
  split; [by apply ComputerUse.grown_refl|]. split; [done|]. by apply tidy_alive.
Qed.

(** What an action does to the service: it writes at most its own request, and only a call writes for a
    session. *)
Definition action_post (action : string) (params : Value) (e : t) (o : outcome RpcError.t Value) (e' : t) : Prop :=
  desktop e' = desktop e /\
  exists method, ComputerUse.post (ComputerUse.session_of params) method (negb (bool_decide (action = "computer-use.call")))
                   (service e) o (service e').

Lemma dispatch_post action params e :
  ComputerUse.sound (service e) -> ComputerUse.tidy (service e) ->
  wp (dispatch state_root others action params) e (action_post action params e).
Proof.
  intros Hs Ht. unfold dispatch. destruct (bool_decide (_ \/ _)) eqn:Ha.
  - apply wp_on_service. eapply wp_mono; [by apply ComputerUse.call_post|]. intros o s (method & Hp & _). split; [done|].
    exists method. cbn. enough (Heq : bool_decide (action = "computer-use.tools") = negb (bool_decide (action = "computer-use.call")))
      by (by rewrite <- Heq).
    by apply bool_decide_eq_true in Ha as [->| ->].
  - intros w. destruct (others action params w) as [o w']. split; [done|]. exists EmptyString. by apply post_idle.
Qed.

Lemma run_action_post action params e :
  ComputerUse.sound (service e) -> ComputerUse.tidy (service e) ->
  wp (run_action fuel state_root others action params) e (action_post action params e).
Proof.
  intros Hs Ht. unfold run_action. destruct (bool_decide _); [by apply dispatch_post|]. unfold resource_dispatch.
  assert (Hidle : forall o r, action_post action params e o (set_runtime r e))
    by (intros o r; split; [done|exists EmptyString; by apply post_idle]).
  destruct (Str.starts_with _ _); [by apply wp_on_runtime|]. apply wp_bind, wp_on_runtime.
  intros [permit|err|] r; cbn; [|by apply Hidle..]. apply wp_with_permit, wp_bind, wp_on_runtime.
  intros [u|err|] r'; cbn; [|by intros; apply Hidle..].
  eapply wp_mono; [by apply (dispatch_post action params (set_runtime r' (set_runtime r e)))|].
  intros o e' (Hd & method & Hp) r''. split; [exact Hd|]. by exists method.
Qed.

Lemma reconcile_post free e :
  ComputerUse.sound (service e) -> ComputerUse.tidy (service e) ->
  wp (reconcile_desktop state_root free) e (fun o e' => exists session,
    ComputerUse.post session "close" false (service e) o (service e')).
Proof.
  intros Hs Ht. destruct free; [|apply wp_ret; exists EmptyString; by apply post_idle]. unfold reconcile_desktop.
  apply wp_bind, wp_on_desktop. intros [needed|err|] h; cbn; [|exists EmptyString; by apply post_idle..].
  assert (Hpromote : forall e' session, ComputerUse.post session "close" false (service e) (Ok tt) (service e') ->
            wp (on_desktop DesktopQueue.promote) e' (fun o e' => exists session, ComputerUse.post session "close" false (service e) o (service e'))).
  { intros e' session Hp. apply wp_on_desktop. intros o h'. exists session. destruct Hp as (Hg & Hs' & Ht').
    split; [done|]. split; [done|]. destruct o; try done. by apply tidy_alive. }
  destruct needed; [|apply wp_ret_bind, (Hpromote _ EmptyString); by apply post_idle].
  apply wp_bind_assoc. set (e1 := set_desktop h e).
  apply (wp_seq _ _ _ (fun r e' => (exists o session, ComputerUse.post session "close" false (service e) (o : outcome RpcError.t unit) (service e') /\
           match r with Ok o' => o' = o /\ o <> Panic | Err _ => False | Panic => o = Panic end))).
  - intros w. pose proof (wp_on_service (ComputerUse.close_existing state_root) e1
      (fun o e' => exists session, ComputerUse.post session "close" false (service e) o (service e'))) as Hc.
    specialize (Hc (ComputerUse.close_existing_post state_root (service e) Hs Ht) w). unfold settled.
    destruct (on_service _ e1 w) as [[o e'] w']. destruct Hc as (session & Hc). destruct o; cbn in *; eexists _, session; split; try exact Hc; done.
  - intros result e2 (o & session & Hp & <- & Ho). apply wp_bind_assoc, wp_bind, wp_on_desktop.
    assert (Hkeep : forall A (o' : outcome RpcError.t A), ComputerUse.post session "close" false (service e) o' (service e2)).
    { intros A o'. destruct Hp as (Hg & Hs' & Ht'). split; [done|]. split; [done|].
      destruct o' as [| |]; [by destruct result..|]. apply tidy_alive. by destruct result. }
    intros [u|err|] h2; cbn; [|by exists session..]. apply wp_lift_bind; intros; [|by exists session..].
    by apply (Hpromote _ session).
  - by intros err e2 (o & session & _ & []).
  - intros e2 (o & session & Hp & ->). by exists session.
Qed.
End parts.

(** ** What commands do while an action runs, and while the desktop is shut *)

Section queue.
Import DesktopQueue.

Lemma position_alter {A} (p : A -> bool) f k l :
  (forall x, l !! k = Some x -> p (f x) = p x) -> position p (alter f k l) = position p l.
Proof.
  revert k. induction l as [|y l IH]; intros [|k] Hf; [done|done|cbn; by rewrite (Hf y eq_refl)|].
  cbn. destruct (p y); [done|]. cbn in IH. by rewrite (IH k).
Qed.
Lemma position_snoc {A} (p : A -> bool) x l i : position p l = Some i -> position p (l ++ [x]) = Some i.
Proof.
  revert i. induction l as [|y l IH]; intros i; [done|]. cbn. destruct (p y); [done|].
  destruct (position p l) as [j|]; [|done]. intros [= <-]. by rewrite (IH j).
Qed.

(** An action is in flight, and session [n] of epoch [e] has the desktop. *)
Definition held (n : string) (e : Z) (h : host) : Prop :=
  in_flight (queue h) = true /\
  exists i job, active (queue h) = Some i /\ jobs (queue h) !! i = Some job /\ Job.id job = n /\ Job.epoch job = e.

Lemma held_on_job n e k f h :
  (forall job, jobs (queue h) !! k = Some job -> holding (f job) = holding job) ->
  (forall job, Job.id (f job) = Job.id job /\ Job.epoch (f job) = Job.epoch job) ->
  held n e h -> held n e (on_queue (on_job k f) h).
Proof.
  intros Hf Hid (Hfl & i & job & Ha & Hi & Hn & He). split; [done|].
  destruct (decide (i = k)) as [->|Hne].
  - exists k, (f job). split; [unfold active in *; simpl; by rewrite (position_alter _ _ _ _ Hf)|]. simpl. rewrite list_lookup_alter_eq, Hi.
    destruct (Hid job) as [-> ->]. done.
  - exists i, job. split; [unfold active in *; simpl; by rewrite (position_alter _ _ _ _ Hf)|]. simpl. by rewrite list_lookup_alter_ne.
Qed.

Lemma save_held n e : keeps (held n e) save.
Proof. intros h w Hh. unfold held. by rewrite save_queue. Qed.
#[local] Hint Resolve save_held : keeps.
Lemma promote_held n e : keeps (held n e) promote.
Proof.
  apply keeps_from. intros h Hh. unfold promote. walk; try done. exfalso. destruct Hh as [Hf _].
  match goal with H : _ && _ = true |- _ => rewrite Hf in H; by rewrite andb_false_r in H end.
Qed.
#[local] Hint Resolve promote_held : keeps.

Lemma held_push n e j h : held n e h -> held n e (on_queue (fun q => set_jobs (jobs q ++ [j]) q) h).
Proof.
  intros (Hfl & i & job & Ha & Hi & Hn & He). split; [done|]. exists i, job. split_and!; [|by apply lookup_app_l_Some|done..].
  unfold active in *. simpl. by apply position_snoc.
Qed.

(** A command changes the state of a session that holds the desktop only into one that holds it. *)
Lemma with_credentials_held n e action params : keeps (held n e) (with_credentials action params).
Proof.
  unfold with_credentials. apply keeps_from. intros h Hh. walk; try done; apply held_on_job; try done; intros job Hj.
  all: repeat match goal with H : index _ _ = Ok _ |- _ => apply index_Ok in H end.
  all: match goal with H : Job.state ?j = _ |- _ =>
         assert (job = j) as -> by congruence; unfold holding; cbn; by rewrite H end.
Qed.
Lemma recover_held n e params : keeps (held n e) (recover params).
Proof.
  apply keeps_from. intros h Hh. unfold recover. walk_step. apply from_guard_bind; [done|]. intros Hg. exfalso.
  destruct Hh as [Hf _]. by rewrite Hf, orb_true_r in Hg.
Qed.
Lemma command_held n e action params : keeps (held n e) (command action params).
Proof.
  unfold command, maintenance, submit. repeat case_decide; try (stays; fail); [|apply with_credentials_held|apply recover_held].
  apply keeps_from. intros h Hh. walk; try done. by apply held_push.
Qed.

(** ** The desktop shut *)

(** Blocked in memory, and the state file says why: it is blocked, or an action is in flight, or a session has
    the desktop, so that a new process starts blocked. *)
Definition shut (h : host) : Prop :=
  blocked (queue h) = true /\
  exists d, disk h = Some d /\ (blocked d = true \/ in_flight d = true \/ exists i, active d = Some i).

Lemma save_shut p h w : at_path p h -> blocked (queue h) = true -> (save h w).1.1 = Ok tt -> shut (save h w).1.2.
Proof.
  intros Hp Hb Hok. destruct (save_cases h w) as [Hs|[Hs _]]; rewrite Hs in *; [|done]. cbn. rewrite Hp. split; [done|].
  eexists. split; [done|]. by left.
Qed.
Lemma save_shut_keeps : keeps shut save.
Proof.
  intros h w [Hb Hd]. unfold shut. rewrite save_queue. split; [done|]. unfold save. run_handler.
  destruct (path (queue h)); [|done]. destruct (io_ok _ _); [|done]. eexists. split; [done|]. by left.
Qed.
#[local] Hint Resolve save_shut_keeps : keeps.
Lemma promote_shut : keeps shut promote.
Proof. unfold promote. stays. Qed.
#[local] Hint Resolve promote_shut : keeps.

Lemma command_shut action params :
  (action = "desktop.recover" -> ~ reset_confirmed params) -> keeps shut (command action params).
Proof.
  intros Hq. unfold command, maintenance, submit, with_credentials. repeat case_decide; try (stays; fail).
  subst action. apply keeps_from. intros h Hh. unfold recover. walk_step. apply from_guard_bind; [done|]. intros Hg. exfalso.
  apply negb_true_iff, orb_false_iff in Hg as [_ Hg]. apply negb_false_iff, bool_decide_eq_true in Hg. by apply Hq.
Qed.

(** Ending an action with an uncertain outcome shuts the desktop, even if that cannot be written. *)
Lemma end_action_shut p h : at_path p h -> flying h -> wp (end_action true) h (fun o h' => o <> Panic /\ shut h').
Proof.
  intros Hp (Hf & d & Hd & Hfd) w. unfold end_action. run_handler.
  set (h1 := on_queue _ h). assert (Hb : blocked (queue h1) = true) by (cbn; apply orb_true_r).
  destruct (save_cases h1 w) as [Hs|[Hs _]].
  - assert (Hok : (save h1 w).1.1 = Ok tt) by (by rewrite Hs). split; [by rewrite Hok|by apply (save_shut p)].
  - rewrite Hs. split; [done|]. split; [done|]. exists d. split; [done|]. by right; left.
Qed.

(** A desktop that is shut, or on which an action is in flight, is shut in a new process. *)
Lemma open_shut p h w h' :
  shut h \/ flying h -> (open p (disk h) w).1 = (Ok tt, h') -> shut h'.
Proof.
  intros Hh Ho. unfold open in Ho. set (h0 := Host (reopen p (disk h)) (disk h)) in Ho.
  assert (Hb : blocked (queue h0) = true).
  { cbn. destruct Hh as [(_ & d & Hd & [Hb|Hb])|(_ & d & Hd & Hb)]; [|eapply reopen_blocked; [done|naive_solver]..].
    rewrite Hd. unfold reopen. cbn. by destruct (_ || _). }
  assert (Hp : at_path p h0) by (unfold at_path; cbn; unfold reopen; by destruct (_ || _)).
  pose proof (save_shut p h0 w Hp Hb) as Hs. rewrite Ho in Hs. by apply Hs.
Qed.

Lemma needs_cleanup_shut h w : shut h -> needs_cleanup h w = (Ok false, h, w).
Proof. intros [Hb _]. unfold needs_cleanup. run_handler. by rewrite Hb. Qed.
Lemma promote_runs_shut h w : shut h -> promote h w = (Ok tt, h, w).
Proof. intros [Hb _]. unfold promote. run_handler. by rewrite Hb, andb_false_r. Qed.
Lemma begin_shut action params h w : shut h -> exists e, begin action params h w = (Err e, h, w).
Proof. intros [Hb _]. unfold begin. run_handler. rewrite Hb. by eexists. Qed.
End queue.

(** ** The executor's invariant *)

Section sessions.
Context `{!Text, !Sha256, mc : ComputerUse.Machine, !ComputerUse.FrameText}.
Variables (fuel : nat) (state_root : string).
Variable others : string -> Value -> world -> outcome RpcError.t Value * world.

Abbreviation step := (step fuel state_root others).
Abbreviation stepping := (stepping fuel state_root others).
Abbreviation reachable := (reachable fuel state_root others).

(** The name a session goes by at the host: its id and the epoch of its grant. *)
Definition session_name (j : DesktopQueue.Job.t) : string := DesktopQueue.Job.id j +:+ ":" +:+ pretty (DesktopQueue.Job.epoch j).

(** The session of an admitted call has the desktop. *)
Definition bound (params : Value) (h : DesktopQueue.host) : Prop :=
  exists job, held (DesktopQueue.Job.id job) (DesktopQueue.Job.epoch job) h /\
    ComputerUse.session_of params = session_name job.

Definition ready (p : string) (h : DesktopQueue.host) : Prop := DesktopQueue.wfh h /\ DesktopQueue.at_path p h.

Definition inv (p : string) (S : system) : Prop :=
  let h := desktop (executor S) in let s := service (executor S) in
  ready p h /\ ComputerUse.sound s /\
  match gate S with
  | Idle => ComputerUse.tidy s
  | UnderWay action params => ComputerUse.tidy s /\ DesktopQueue.flying h /\ (action = "computer-use.call" -> bound params h)
  | Answered _ => ComputerUse.tidy s /\ DesktopQueue.flying h
  | Poisoned => (length (ComputerUse.alive (ComputerUse.log s)) <= 1)%nat
  end.

Lemma ready_keeps p {A} (m : DesktopQueue.handler A) :
  keeps DesktopQueue.wfh m -> keeps (DesktopQueue.at_path p) m -> keeps (ready p) m.
Proof. intros Hm Hm' h w [Hw Hp]. split; [by apply Hm|by apply Hm']. Qed.

(** What the invariant says about the service when the gate is not poisoned. *)
Lemma inv_service p e g : inv p (System e g) -> g <> Poisoned -> ComputerUse.sound (service e) /\ ComputerUse.tidy (service e).
Proof. intros (_ & Hs & Hg) Hne. split; [done|]. cbn in Hg. by destruct g as [|a q|r|]; [|destruct Hg as (? & _)..|]. Qed.

Lemma run_cases {A} (m : handler A) e w next (Q : system -> Prop) :
  (forall o e', (m e w).1 = (o, e') -> Q (System e' (match o with Panic => Poisoned | _ => next o end))) -> Q (run m e w next).
Proof.
  intros HQ. specialize (HQ (m e w).1.1 (m e w).1.2). unfold run. destruct (m e w) as [[o e'] w']. by apply HQ.
Qed.

Lemma wp_run {A} (m : handler A) e w o e' (Q : outcome RpcError.t A -> t -> Prop) : (m e w).1 = (o, e') -> wp m e Q -> Q o e'.
Proof. intros Hm HQ. specialize (HQ w). by rewrite Hm in HQ. Qed.

Lemma command_inv p e g action params w :
  inv p (System e g) -> inv p (System (on_desktop (DesktopQueue.command action params) e w).1.2 g).
Proof.
  intros (Hr & Hs & Hg). pose proof (ready_keeps p _ (DesktopQueue.command_wfh action params) (DesktopQueue.command_at_path p action params) (desktop e) w Hr) as Hr'.
  pose proof (DesktopQueue.command_flying action params (desktop e) w) as Hf.
  pose proof (fun n x => command_held n x action params (desktop e) w) as Hh. unfold on_desktop, inv in *.
  destruct (DesktopQueue.command action params (desktop e) w) as [[o h] w']. cbn in *. split; [done|]. split; [done|].
  destruct g as [|a q|r|]; [done|..|done].
  - destruct Hg as (Ht & Hfl & Hb). split; [done|]. split; [by apply Hf|]. intros Ha. destruct (Hb Ha) as (job & Hheld & Hn).
    exists job. split; [by apply Hh|done].
  - destruct Hg as (Ht & Hfl). split; [done|by apply Hf].
Qed.

(** The reconciliation keeps the queue in order. *)
Lemma reconcile_ready p e w o e' : ready p (desktop e) -> (reconcile_desktop state_root true e w).1 = (o, e') -> ready p (desktop e').
Proof.
  intros Hr Hm. assert (Hk : keeps (on_queue_of (ready p)) (reconcile_desktop state_root true)).
  { apply reconcile_keeps; [|intros b|]; apply ready_keeps; auto using DesktopQueue.needs_cleanup_wfh,
      DesktopQueue.needs_cleanup_at_path, DesktopQueue.cleanup_done_wfh, DesktopQueue.cleanup_done_at_path,
      DesktopQueue.promote_wfh, DesktopQueue.promote_at_path. }
  specialize (Hk e w Hr). by rewrite Hm in Hk.
Qed.

Lemma post_service p e' (o : outcome RpcError.t unit) session method tools_only s :
  ready p (desktop e') -> ComputerUse.post session method tools_only s o (service e') ->
  inv p (System e' (match o with Panic => Poisoned | _ => Idle end)).
Proof. intros Hr (_ & Hs & Ht). split; [done|]. split; [done|]. by destruct o. Qed.

(** An admitted action is in flight, and a call is bound to the session that has the desktop. *)
Lemma begin_admitted p action params h w params' h' w' :
  ready p h -> DesktopQueue.begin action params h w = (Ok params', h', w') ->
  DesktopQueue.flying h' /\ (action = "computer-use.call" -> bound params' h').
Proof.
  intros [_ Hp] Hb. split.
  { pose proof (DesktopQueue.begin_flying p action params h w Hp) as Hf. rewrite Hb in Hf. by apply Hf. }
  intros ->. apply DesktopQueue.begin_Ok in Hb as (_ & _ & Hq & _ & Hj). destruct (DesktopQueue.active (DesktopQueue.queue h)) as [i|] eqn:Ha;
    [|by destruct Hj as (_ & ? & _)].
  destruct Hj as (job & Hi & _ & _ & _ & _ & Hset). rewrite decide_True in Hset by done. exists job. split.
  - split; [by rewrite Hq|]. exists i, job. rewrite Hq. by split_and!.
  - apply vget_vset in Hset. unfold ComputerUse.session_of, vindex. by rewrite Hset.
Qed.

Lemma begin_inv p e action params w :
  inv p (System e Idle) -> inv p (run (on_desktop (DesktopQueue.begin action params)) e w
                                   (fun o => match o with Ok params' => UnderWay action params' | _ => Idle end)).
Proof.
  intros (Hr & Hs & Ht). pose proof (ready_keeps p _ (DesktopQueue.begin_wfh action params) (DesktopQueue.begin_at_path p action params) (desktop e) w Hr) as Hr'.
  pose proof (begin_admitted p action params (desktop e) w) as Hb. unfold run, on_desktop, inv in *.
  destruct (DesktopQueue.begin action params (desktop e) w) as [[o h] w'] eqn:Hm. cbn in *. split; [done|]. split; [done|].
  destruct o as [params'|err|]; [|done|by apply tidy_alive]. destruct (Hb params' h w' Hr eq_refl). by split_and!.
Qed.

Lemma end_inv p e result w :
  inv p (System e (Answered result)) ->
  inv p (run (on_desktop (DesktopQueue.end_action (DesktopQueue.uncertain_outcome result))) e w (fun _ => Idle)).
Proof.
  intros (Hr & Hs & Ht & _). set (b := DesktopQueue.uncertain_outcome result).
  pose proof (ready_keeps p _ (DesktopQueue.end_action_wfh b) (DesktopQueue.end_action_at_path p b) (desktop e) w Hr) as Hr'.
  unfold run, on_desktop, inv in *. destruct (DesktopQueue.end_action b (desktop e) w) as [[o h] w']. cbn in *.
  split; [done|]. split; [done|]. destruct o; [done|done|by apply tidy_alive].
Qed.

Lemma restart_inv p e g p' w h r :
  inv p (System e g) -> DesktopQueue.path (DesktopQueue.queue (desktop e)) = Some p' ->
  (DesktopQueue.open p' (DesktopQueue.disk (desktop e)) w).1 = (Ok tt, h) ->
  inv p (System (mk h (ComputerUse.restart (service e)) r) Idle).
Proof.
  intros (Hr & Hs & _) Hp Ho. split; [|split].
  - destruct Hr as [[Hw Hd] Hp0]. unfold DesktopQueue.at_path in Hp0. cbn in *. assert (p' = p) as -> by congruence.
    unfold DesktopQueue.open in Ho. set (h0 := DesktopQueue.Host _ _) in Ho. cbn.
    assert (Hr0 : ready p h0).
    { split; [split; [by apply DesktopQueue.wf_reopen|done]|]. unfold DesktopQueue.at_path. cbn.
      unfold DesktopQueue.reopen. by destruct (_ || _). }
    pose proof (ready_keeps p _ DesktopQueue.save_wfh (DesktopQueue.save_at_path p) h0 w Hr0) as Hk. by rewrite Ho in Hk.
  - apply (ComputerUse.sound_apart (ComputerUse.record ComputerUse.Restarted (service e))); try done.
    by apply ComputerUse.sound_record.
  - unfold ComputerUse.tidy. cbn. by rewrite ComputerUse.alive_snoc.
Qed.

Lemma on_desktop_service {A} (m : DesktopQueue.handler A) e w {B} (f : ComputerUse.t -> B) :
  f (service (on_desktop m e w).1.2) = f (service e).
Proof. unfold on_desktop. by destruct (m (desktop e) w) as [[o h] w']. Qed.
Lemma run_desktop_service {A} (m : DesktopQueue.handler A) e w next {B} (f : ComputerUse.t -> B) :
  f (service (executor (run (on_desktop m) e w next))) = f (service e).
Proof. unfold run, on_desktop. by destruct (m (desktop e) w) as [[o h] w']. Qed.
Lemma status_service e busy w :
  (on_service (ComputerUse.status state_root busy) e w).1.2 = set_service (ComputerUse.next_turn (service e)) e.
Proof. reflexivity. Qed.

Lemma sessions_step_inv p S S' : stepping S S' -> inv p S -> inv p S'.
Proof.
  intros [l Hstep] Hi. destruct Hstep as [e g action params w|e w|e action params w _|e action params w|e result w|e g busy w|e g r|e g p' w h r Hp Ho].
  - by apply command_inv.
  - destruct (inv_service p e Idle Hi ltac:(done)) as [Hs Ht]. destruct Hi as (Hr & _). apply run_cases. intros o e' Hm.
    destruct (wp_run _ _ _ _ _ _ Hm (reconcile_post state_root true e Hs Ht)) as [session Hp].
    eapply post_service; [by eapply reconcile_ready|exact Hp].
  - by apply begin_inv.
  - destruct (inv_service p e _ Hi ltac:(done)) as [Hs Ht]. destruct Hi as (Hr & _ & _ & Hf & _). apply run_cases. intros o e' Hm.
    destruct (wp_run _ _ _ _ _ _ Hm (run_action_post fuel state_root others action params e Hs Ht)) as (Hd & method & Hg & Hs' & Ht').
    unfold inv. cbn in *. rewrite Hd. split; [done|]. split; [done|]. by destruct o.
  - by apply end_inv.
  - rewrite status_service. destruct Hi as (Hr & Hs & Hg). split; [exact Hr|]. split; [|exact Hg].
    apply (ComputerUse.sound_apart (service e)); [done..|cbn; lia|]. intros h Hh. by exists h.
  - exact Hi.
  - by eapply restart_inv.
Qed.

Lemma sessions_inv p r S : reachable p r S -> inv p S.
Proof.
  intros Hr. assert (Hi : inv p (start p r)).
  { split; [|split; [|done]].
    - destruct (DesktopQueue.desktop_reachable_inv p (DesktopQueue.start p)) as (Hw & _); [apply rtc_refl|]. by split.
    - split; [done|..]; by intros * ?%not_elem_of_nil. }
  induction Hr as [|S1 S2 S3 Hs _ IH]; [done|]. apply IH. by eapply sessions_step_inv.
Qed.

(** ** What sessions are promised *)

(** C8. Tool calls run under the session that has the desktop.  Through any interleaving of commands,
    reconciliations, actions, other requests and restarts: a host is asked on behalf of one session only, the
    one it was started for; no two hosts run at a time; and whatever a step writes for a session is either the
    request that closes the host, while no action runs, or the call of an action that was admitted, is in
    flight in memory and on the disk, and whose session has the desktop. *)
Theorem calls_run_under_their_session p r S :
  reachable p r S ->
  let log S := ComputerUse.log (service (executor S)) in
  (forall n x q, ComputerUse.Asked n (Some x) q ∈ log S -> exists token, ComputerUse.Started n x token ∈ log S) /\
  (forall n x token x' token', ComputerUse.Started n x token ∈ log S -> ComputerUse.Started n x' token' ∈ log S -> x = x') /\
  (length (ComputerUse.alive (log S)) <= 1)%nat /\
  forall S', stepping S S' -> exists l, log S' = log S ++ l /\
    forall n x q, ComputerUse.Asked n (Some x) q ∈ l ->
      (gate S = Idle /\ vget q "method" = Some (VString "close")) \/
      exists params i job, gate S = UnderWay "computer-use.call" params /\
        let h := desktop (executor S) in
        DesktopQueue.flying h /\ DesktopQueue.active (DesktopQueue.queue h) = Some i /\
        DesktopQueue.jobs (DesktopQueue.queue h) !! i = Some job /\ x = session_name job.
Proof.
  intros Hi%sessions_inv log. pose proof Hi as (_ & Hs & Hg). split; [apply Hs|]. split; [apply Hs|]. split.
  { destruct (gate S); [by apply tidy_alive|apply tidy_alive, Hg..|done]. }
  intros S' [l Hstep]. subst log. cbv beta. revert Hi. clear Hs Hg.
  destruct Hstep as [e g action params w|e w|e action params w _|e action params w|e result w|e g busy w|e g r'|e g p' w h r' Hp Ho]; intros Hi.
  1, 3, 5: exists []; rewrite app_nil_r; split; [first [apply on_desktop_service|apply run_desktop_service]|by intros n x q ?%not_elem_of_nil].
  - destruct (inv_service p e Idle Hi ltac:(done)) as [Hs Ht]. apply run_cases. intros o e' Hm.
    destruct (wp_run _ _ _ _ _ _ Hm (reconcile_post state_root true e Hs Ht)) as (session & (l & Hl & Hf) & _).
    exists l. split; [exact Hl|]. intros n x q Hq. left. split; [done|]. rewrite Forall_forall in Hf. by apply (Hf _ Hq).
  - destruct (inv_service p e _ Hi ltac:(done)) as [Hs Ht]. destruct Hi as (_ & _ & _ & Hfl & Hb). apply run_cases. intros o e' Hm.
    destruct (wp_run _ _ _ _ _ _ Hm (run_action_post fuel state_root others action params e Hs Ht)) as (_ & method & (l & Hl & Hf) & _).
    exists l. split; [exact Hl|]. intros n x q Hq. right. rewrite Forall_forall in Hf. destruct (Hf _ Hq) as [Hx _].
    destruct (bool_decide (action = "computer-use.call")) eqn:Ha; [|done]. apply bool_decide_eq_true in Ha. subst action.
    destruct (Hb eq_refl) as (job & (_ & i & job' & Hact & Hi & Hid & Hep) & Hn). exists params, i, job'. split; [done|].
    split_and!; try done. injection Hx as ->. rewrite Hn. unfold session_name. by rewrite Hid, Hep.
  - rewrite status_service. exists []. split; [by rewrite app_nil_r|by intros n x q ?%not_elem_of_nil].
  - exists []. split; [by rewrite app_nil_r|by intros n x q ?%not_elem_of_nil].
  - exists [ComputerUse.Restarted]. split; [done|]. by intros n x q ?%list_elem_of_singleton.
Qed.

(** What was written to hosts. *)
Definition asked (S : system) : list ComputerUse.event :=
  bfilter (fun e => match e with ComputerUse.Asked _ _ _ => true | _ => false end) (ComputerUse.log (service (executor S))).

(** Steps that are no [recover] command that confirms the reset. *)
Definition unconfirmed (S S' : system) : Prop :=
  exists l, step l S S' /\ forall params, l = Some ("desktop.recover", params) -> ~ DesktopQueue.reset_confirmed params.

(** The outcome of an action is uncertain, and it is not ended yet or the desktop is shut. *)
Definition halted (p : string) (S : system) : Prop :=
  let h := desktop (executor S) in
  DesktopQueue.at_path p h /\
  ((exists result, gate S = Answered result /\ DesktopQueue.uncertain_outcome result = true /\ DesktopQueue.flying h) \/
   gate S = Idle /\ shut h).

Lemma halted_log S S' : ComputerUse.log (service (executor S')) = ComputerUse.log (service (executor S)) -> asked S' = asked S.
Proof. unfold asked. by intros ->. Qed.

Lemma reconcile_shut e w : shut (desktop e) -> exists h, reconcile_desktop state_root true e w = (Ok tt, set_desktop h e, w) /\ h = desktop e.
Proof.
  intros Hs. exists (desktop e). split; [|done]. unfold reconcile_desktop. unfold on_desktop, mbind, M_bind, mret, M_ret.
  rewrite (needs_cleanup_shut _ w Hs). cbn. by rewrite (promote_runs_shut _ w Hs).
Qed.

Lemma halted_end p e result w :
  DesktopQueue.at_path p (desktop e) -> DesktopQueue.flying (desktop e) -> DesktopQueue.uncertain_outcome result = true ->
  halted p (run (on_desktop (DesktopQueue.end_action (DesktopQueue.uncertain_outcome result))) e w (fun _ => Idle)).
Proof.
  intros Hp Hf ->. pose proof (DesktopQueue.end_action_at_path p true (desktop e) w Hp) as Hp'.
  destruct (end_action_shut p (desktop e) Hp Hf w) as [Ho Hs]. unfold run, on_desktop.
  destruct (DesktopQueue.end_action true (desktop e) w) as [[o h] w']. cbn in *. split; [exact Hp'|]. right. split; [by destruct o|done].
Qed.

Lemma halted_command p e g action params w :
  (action = "desktop.recover" -> ~ DesktopQueue.reset_confirmed params) -> halted p (System e g) ->
  halted p (System (on_desktop (DesktopQueue.command action params) e w).1.2 g).
Proof.
  intros Hq [Hp Hh]. pose proof (DesktopQueue.command_at_path p action params (desktop e) w Hp) as Hp'.
  pose proof (DesktopQueue.command_flying action params (desktop e) w) as Hf.
  pose proof (command_shut action params Hq (desktop e) w) as Hs. unfold on_desktop, halted in *. cbn in *.
  destruct (DesktopQueue.command action params (desktop e) w) as [[o h] w']. cbn in *. split; [exact Hp'|].
  destruct Hh as [(result & ? & ? & Hfl)|[? Hsh]]; [left; exists result|right]; auto.
Qed.

Lemma halted_step p S S' : unconfirmed S S' -> halted p S -> halted p S' /\ asked S' = asked S.
Proof.
  intros (l & Hstep & Hq) Hh. pose proof Hh as [Hp Hc]. cbn in Hp, Hc.
  destruct Hstep as [e g action params w|e w|e action params w _|e action params w|e result w|e g busy w|e g r'|e g p' w h r' Hp' Ho]; cbn in Hp, Hc.
  - split; [|apply halted_log, on_desktop_service]. apply halted_command; [|done]. intros ->. by apply Hq.
  - destruct Hc as [(? & [=] & _)|[_ Hs]]. destruct (reconcile_shut e w Hs) as (h & Hr & ->). unfold run. rewrite Hr. by destruct e.
  - destruct Hc as [(? & [=] & _)|[_ Hs]]. destruct (begin_shut action params (desktop e) w Hs) as [err Hb].
    unfold run, on_desktop. rewrite Hb. by destruct e.
  - by destruct Hc as [(? & [=] & _)|[[=] _]].
  - split; [|apply halted_log, run_desktop_service]. destruct Hc as [(result' & [= <-] & Hu & Hf)|[[=] _]]. by apply halted_end.
  - rewrite status_service. split; [exact Hh|done].
  - split; [exact Hh|done].
  - split; [|unfold asked; cbn; rewrite bfilter_app; apply app_nil_r]. unfold DesktopQueue.at_path in Hp. assert (p' = p) as -> by congruence.
    assert (Hs : shut h) by (eapply open_shut; [|exact Ho]; destruct Hc as [(? & _ & _ & ?)|[_ ?]]; [by right|by left]).
    split; [|by right]. cbn. unfold DesktopQueue.open in Ho.
    pose proof (DesktopQueue.save_at_path p (DesktopQueue.Host (DesktopQueue.reopen p (DesktopQueue.disk (desktop e))) (DesktopQueue.disk (desktop e))) w) as Hk.
    rewrite Ho in Hk. apply Hk. unfold DesktopQueue.at_path. cbn. unfold DesktopQueue.reopen. by destruct (_ || _).
Qed.

(** C9. An uncertain outcome stops the desktop.  Once an action ends with a lost connection, a timeout or an
    aborted tool, nothing more is written to any host, neither for a session nor to list the tools nor to
    close, whatever commands, actions and reconciliations follow, whether or not the state can be written,
    and through any number of restarts, until a [recover] command confirms that the desktop was reset. *)
Theorem uncertain_outcomes_stop_the_desktop p r S S' result :
  reachable p r S -> gate S = Answered result -> DesktopQueue.uncertain_outcome result = true ->
  rtc unconfirmed S S' -> asked S' = asked S.
Proof.
  intros ([_ Hp] & _ & Hg)%sessions_inv Hgate Hu Hsteps. rewrite Hgate in Hg.
  assert (Hh : halted p S) by (split; [done|left; exists result; destruct Hg; by split_and!]). clear Hp Hg Hgate Hu.
  induction Hsteps as [|S1 S2 S3 Hs _ IH]; [done|]. destruct (halted_step p S1 S2 Hs Hh) as [Hh' <-]. by apply IH.
Qed.

(** ** The handler is its steps *)

(** A handler that, alone at the executor and without a panic, does what some steps do. *)
Definition stepwise {A} (m : handler A) : Prop := forall e w,
  (m e w).1.1 <> Panic -> rtc stepping (System e Idle) (System (m e w).1.2 Idle).

Lemma stepwise_bind {A B} (m : handler A) (k : A -> handler B) : stepwise m -> (forall a, stepwise (k a)) -> stepwise (m ≫= k).
Proof.
  intros Hm Hk e w. specialize (Hm e w). unfold mbind, M_bind. destruct (m e w) as [[[a|err|] e1] w1]; cbn in *; [|auto|done].
  intros Hp. etrans; [by apply Hm|by apply Hk].
Qed.
Lemma stepwise_lift {A} (o : outcome RpcError.t A) : stepwise (lift o).
Proof. intros e w _. apply rtc_refl. Qed.
Lemma stepwise_command action params : stepwise (on_desktop (DesktopQueue.command action params)).
Proof. intros e w _. apply rtc_once. eexists. apply step_command. Qed.
Lemma stepwise_run {A} (m : handler A) : (forall e w, stepping (System e Idle) (run m e w (fun _ => Idle))) -> stepwise m.
Proof.
  intros Hm e w Hp. apply rtc_once. specialize (Hm e w). unfold run in Hm. destruct (m e w) as [[o e'] w']. by destruct o.
Qed.
Lemma stepwise_reconcile : stepwise (reconcile_desktop state_root true).
Proof. apply stepwise_run. intros e w. eexists. apply step_reconcile. Qed.

Lemma stepwise_end {B} result (k : handler B) e w :
  let m := _ ← on_desktop (DesktopQueue.end_action (DesktopQueue.uncertain_outcome result)); k in
  stepwise k -> (m e w).1.1 <> Panic -> rtc stepping (System e (Answered result)) (System (m e w).1.2 Idle).
Proof.
  intros m Hk. subst m. pose proof (step_end fuel state_root others e result w) as He. unfold run in He.
  destruct (on_desktop (DesktopQueue.end_action _) e w) as [[[u|err|] e1] w1] eqn:Hend.
  - rewrite (bind_run_Ok _ _ _ _ _ _ _ Hend). intros Hp. eapply rtc_l; [by eexists|]. by apply Hk.
  - rewrite (bind_run_Err _ _ _ _ _ _ _ Hend). intros _. eapply rtc_l; [by eexists|]. apply rtc_refl.
  - by rewrite (bind_run_Panic _ _ _ _ _ _ Hend).
Qed.

Lemma stepwise_action {B} action params (k : outcome RpcError.t Value -> handler B) :
  DesktopQueue.protected action = true -> (forall result, stepwise (k result)) ->
  stepwise (params ← on_desktop (DesktopQueue.begin action params);
            result ← settled (run_action fuel state_root others action params);
            _ ← on_desktop (DesktopQueue.end_action (DesktopQueue.uncertain_outcome result));
            k result).
Proof.
  intros Ha Hk e w. pose proof (step_begin fuel state_root others e action params w Ha) as Hb. unfold run in Hb.
  destruct (on_desktop (DesktopQueue.begin action params) e w) as [[[params'|err|] e1] w1] eqn:Hbe.
  - rewrite (bind_run_Ok _ _ _ _ _ _ _ Hbe). intros Hp. eapply rtc_l; [by eexists|].
    pose proof (step_run fuel state_root others e1 action params' w1) as Hr. unfold run in Hr. revert Hp.
    destruct (run_action fuel state_root others action params' e1 w1) as [[[v|err|] e2] w2] eqn:Hre.
    1, 2: rewrite (bind_run_Ok _ _ _ _ _ _ _ (settled_run _ _ _ _ _ _ Hre ltac:(done))); intros Hp;
      (eapply rtc_l; [by eexists|]); by apply stepwise_end.
    by rewrite (bind_run_Panic _ _ _ _ _ _ (settled_run_Panic _ _ _ _ _ Hre)).
  - rewrite (bind_run_Err _ _ _ _ _ _ _ Hbe). intros _. eapply rtc_l; [by eexists|]. apply rtc_refl.
  - by rewrite (bind_run_Panic _ _ _ _ _ _ Hbe).
Qed.

(** C10. What the executor does for a request to the desktop, with nobody else there, is what the steps of
    [calls_run_under_their_session] allow: the handler is a sequence of them, from a free gate to a free
    gate, on every path that does not panic. *)
Theorem desktop_dispatch_refines_steps action params e w :
  Str.starts_with "desktop." action = true \/ DesktopQueue.protected action = true ->
  (desktop_dispatch fuel state_root others action params e w).1.1 <> Panic ->
  rtc stepping (System e Idle) (System (desktop_dispatch fuel state_root others action params e w).1.2 Idle).
Proof.
  intros Ha. enough (stepwise (desktop_dispatch fuel state_root others action params)) by auto. unfold desktop_dispatch.
  destruct (Str.starts_with "desktop." action).
  - apply stepwise_bind; [apply stepwise_reconcile|intros _]. apply stepwise_bind; [apply stepwise_command|intros v].
    apply stepwise_bind; [apply stepwise_reconcile|intros _]. case_match; [apply stepwise_command|apply stepwise_lift].
  - destruct Ha as [[=]|Ha]. rewrite Ha. apply stepwise_bind; [apply stepwise_reconcile|intros _].
    apply stepwise_action; [done|]. intros result. apply stepwise_bind; [apply stepwise_reconcile|intros _]. apply stepwise_lift.
Qed.
End sessions.

(** ** A machine for the witnesses *)

(** Requests are written as their id, answers are read as the id they carry. *)
#[local] Instance id_text : Text := {| json_text q := default EmptyString (vget q "id" ≫= as_str); f64_text _ := EmptyString |}.
#[local] Instance plain : Sha256 := fun s => s.
Definition without_feed (line : string) : string := Str.remove_chars ["010"%char] line.
#[local] Instance id_frame : ComputerUse.FrameText := fun line => inr (json_object
  [("token", VString (without_feed line)); ("id", VString (without_feed line)); ("ok", VBool true); ("result", VString "done")]).
Definition machine (reply : string -> ComputerUse.arrival) : ComputerUse.Machine := {|
  ComputerUse.root_variable := Some "/opt/cu";
  ComputerUse.executable_root := None;
  ComputerUse.read_to_string _ _ := ComputerUse.NotFound;
  ComputerUse.is_file _ _ := true;
  ComputerUse.refuses _ _ := None;
  ComputerUse.accepts _ := ComputerUse.Connected None (ComputerUse.Arrival ("u" +:+ ComputerUse.feed) None) None;
  ComputerUse.exited _ := false;
  ComputerUse.refuses_bytes _ _ := None;
  ComputerUse.answers_with _ := reply;
|}.
Definition echo : ComputerUse.Machine := machine (fun bytes => ComputerUse.Arrival bytes None).
Definition silent : ComputerUse.Machine := machine (fun _ => ComputerUse.Arrival EmptyString None).
Definition no_others : string -> Value -> world -> outcome RpcError.t Value * world := fun _ _ w => (Ok VNull, w).
Definition weather : world := World (fun i => 1000 + 25 * Z.of_nat i) (fun _ => "u") (fun _ => true) 0 0 0.
Definition a_runtime : ExecutorRuntime.t :=
  ExecutorRuntime.runtime (ExecutorRuntime.initial "node-a" "resources.json" Catalog.Linux (fun _ => None) (Some 8)).

Definition root : string := "/state".

(** A session is submitted, calls a tool, and the answer comes or does not. *)
Section samples.
Context (m : ComputerUse.Machine).


Definition call_params : Value :=
  json_object [("_desktop", json_object [("owner", VString "a"); ("token", VString "u")]); ("tool", VString "click")].
Definition submitted : system :=
  System (on_desktop (DesktopQueue.command "desktop.submit" (DesktopQueue.request "a")) (executor (start "q.json" a_runtime)) weather).1.2 Idle.
Definition admitted : system :=
  run (on_desktop (DesktopQueue.begin "computer-use.call" call_params)) (executor submitted) weather
      (fun o => match o with Ok params' => UnderWay "computer-use.call" params' | _ => Idle end).
Definition admitted_params : Value := json_object
  [("_desktop", json_object [("owner", VString "a"); ("token", VString "u")]); ("tool", VString "click"); ("sessionId", VString "u:1")].
Definition answered : system :=
  run (run_action 4 root no_others "computer-use.call" admitted_params) (executor admitted) weather Answered.

Lemma answered_step : stepping 4 root no_others admitted answered.
Proof.
  assert (Ha : admitted = System (executor admitted) (UnderWay "computer-use.call" admitted_params)) by (vm_compute; reflexivity).
  rewrite Ha at 1. eexists. apply step_run.
Defined.
Lemma admitted_reachable : reachable 4 root no_others "q.json" a_runtime admitted.
Proof.
  eapply rtc_l; [eexists; exact (step_command 4 root no_others (executor (start "q.json" a_runtime)) Idle "desktop.submit" (DesktopQueue.request "a") weather)|].
  eapply rtc_l; [|apply rtc_refl]. eexists. exact (step_begin 4 root no_others (executor submitted) "computer-use.call" call_params weather eq_refl).
Defined.
Lemma answered_reachable : reachable 4 root no_others "q.json" a_runtime answered.
Proof. eapply rtc_r; [apply admitted_reachable|apply answered_step]. Defined.
End samples.

Lemma calls_run_under_their_session_witness :
  let log S := ComputerUse.log (service (executor S)) in
  length (log (answered echo)) = 2%nat /\ (length (ComputerUse.alive (log (answered echo))) <= 1)%nat /\
  exists l, log (answered echo) = log admitted ++ l /\
    forall n x q, ComputerUse.Asked n (Some x) q ∈ l ->
      (gate admitted = Idle /\ vget q "method" = Some (VString "close")) \/
      exists params i job, gate admitted = UnderWay "computer-use.call" params /\
        let h := desktop (executor admitted) in
        DesktopQueue.flying h /\ DesktopQueue.active (DesktopQueue.queue h) = Some i /\
        DesktopQueue.jobs (DesktopQueue.queue h) !! i = Some job /\ x = session_name job.
Proof.
  intros log. split; [vm_compute; reflexivity|]. split.
  - apply (calls_run_under_their_session (mc := echo) 4 root no_others "q.json" a_runtime (answered echo) (answered_reachable echo)).
  - apply (calls_run_under_their_session (mc := echo) 4 root no_others "q.json" a_runtime admitted (admitted_reachable echo)).
    apply (answered_step echo).
Defined.

(** The host does not answer; a second session and a restart change nothing. *)
Definition lost : outcome RpcError.t Value := Err (ComputerUse.failed ComputerUse.closed).
Definition ended : system :=
  run (on_desktop (DesktopQueue.end_action (DesktopQueue.uncertain_outcome lost))) (executor (answered silent)) weather (fun _ => Idle).
Definition restarted_host : DesktopQueue.host :=
  (DesktopQueue.open "q.json" (DesktopQueue.disk (desktop (executor ended))) weather).1.2.
Definition restarted : system := System (mk restarted_host (ComputerUse.restart (service (executor ended))) a_runtime) Idle.

Lemma uncertain_outcomes_stop_the_desktop_witness :
  length (asked (answered silent)) = 1%nat /\ asked restarted = asked (answered silent).
Proof.
  split; [vm_compute; reflexivity|].
  apply (uncertain_outcomes_stop_the_desktop (mc := silent) 4 root no_others "q.json" a_runtime (answered silent) restarted lost (answered_reachable silent)).
  - vm_compute. reflexivity.
  - vm_compute. reflexivity.
  - assert (Ha : answered silent = System (executor (answered silent)) (Answered lost)) by (vm_compute; reflexivity).
    assert (He : ended = System (executor ended) Idle) by (vm_compute; reflexivity).
    apply (rtc_l _ _ ended).
    { exists None. split; [rewrite Ha at 1; exact (step_end (mc := silent) 4 root no_others (executor (answered silent)) lost weather)|done]. }
    apply (rtc_l _ _ restarted); [|apply rtc_refl].
    exists None. split; [rewrite He at 1|done].
    apply (step_restart (mc := silent) 4 root no_others (executor ended) Idle "q.json" weather restarted_host a_runtime); vm_compute; reflexivity.
Defined.

Lemma desktop_dispatch_refines_steps_witness :
  let e := executor (start "q.json" a_runtime) in
  rtc (stepping (mc := echo) 4 root no_others) (System e Idle)
      (System (desktop_dispatch (mc := echo) 4 root no_others "desktop.submit" (DesktopQueue.request "a") e weather).1.2 Idle).
Proof.
  intros e. apply (desktop_dispatch_refines_steps (mc := echo)); [by left|]. vm_compute. discriminate.
Defined.

(** A whole session: submitted, one call, finished; the host is started once, asked twice and dropped. *)
Definition serve (action : string) (params : Value) (e : t) : t :=
  (desktop_dispatch (mc := echo) 4 root no_others action params e weather).1.2.
Definition credentials : list (string * Value) := [("owner", VString "a"); ("token", VString "u")].
Example a_session_from_submission_to_close :
  let e := serve "desktop.finish" (json_object credentials)
             (serve "computer-use.call" call_params
               (serve "desktop.submit" (DesktopQueue.request "a") (executor (start "q.json" a_runtime)))) in
  match ComputerUse.log (service e) with
  | [ComputerUse.Started n "u:1" _; ComputerUse.Asked a (Some "u:1") call; ComputerUse.Asked b (Some "u:1") close; ComputerUse.Dropped d] =>
      a = n /\ b = n /\ d = n /\ vget call "method" = Some (VString "click") /\ vget close "method" = Some (VString "close")
  | _ => False
  end /\
  DesktopQueue.Job.state <$> DesktopQueue.jobs (DesktopQueue.queue (desktop e)) = ["completed"].
Proof. vm_compute. split_and!; reflexivity. Qed.
End Sessions.
