(* ===== verification/Clipboard.v ===== *)
(** * The image clipboard ([clipboard.rs] of [workbench-runtime], [clipboard_cli.rs] of [workbench-cli])

    An image is read from the clipboard of one node and written to that of
    another.  [Clipboard] is the service of a node, over the native clipboard;
    [ClipboardCli] finds the target, takes a lease, sends the image once and
    reports.  The native clipboard, [base64], the controller in between and what
    the network loses are parameters. *)

From Stdlib Require Import Ascii String.
From S2P Require Import Prelude RustStd Sequences Json Protocol Schema Contracts Disk Files.

Module Clipboard.

Definition DEFAULT_MAX_BYTES : Z := 16 * 1024 * 1024.

Record Image := { width : Z; height : Z; pixels : string }.
(** What stands on the desktop's clipboard: an image, or something that is none. *)
Inductive content := AnImage (i : Image) | NoImage.

(** The native clipboard ([arboard]): whether it can be opened, read and written at a turn, and what a write
    that fails leaves. *)
Class Native := {
  refuses_open : nat -> option string;
  refuses_get : nat -> option string;
  refuses_set : nat -> option string;
  left_by_failure : nat -> content -> content;
  display : option string;
}.

Record t := mk {
  opened : bool;
  on_desktop : content;
  turn : nat;
}.
Definition set_opened (b : bool) (s : t) : t := mk b (on_desktop s) (turn s).
Definition set_desktop (c : content) (s : t) : t := mk (opened s) c (turn s).
Definition next_turn (s : t) : t := mk (opened s) (on_desktop s) (S (turn s)).

Definition handler := M t RpcError.t.
Definition tick : handler nat := s ← get; _ ← modify next_turn; mret (turn s).

Definition invalid_params (message : string) : RpcError.t := RpcError.new "INVALID_PARAMS" message.
Definition unavailable (error : string) : RpcError.t :=
  {| RpcError.code := "CLIPBOARD_UNAVAILABLE"; RpcError.message := "native clipboard unavailable: " +:+ error;
     RpcError.retryable := true; RpcError.details := VNull |}.

Definition check_size (size maximum : Z) : outcome RpcError.t unit :=
  if (size =? 0) || (Z.min maximum DEFAULT_MAX_BYTES <? size)
  then Err (RpcError.new "CLIPBOARD_TOO_LARGE" "image exceeds the clipboard pixel limit (16 MiB maximum)")
  else Ok tt.

Section service.
Context `{native : Native, !Sha256, !Files.Base64}.

(** The connection is opened when it is needed, and given up when the display is gone. *)
Definition with_clipboard {A} (operation : handler A) : handler A :=
  s ← get;
  _ ← (if opened s then mret tt
       else n ← tick;
            match refuses_open n with
            | Some error => throw (unavailable error)
            | None => modify (set_opened true)
            end : handler unit);
  result ← settled operation;
  _ ← (match result with
       | Err e => if bool_decide (RpcError.code e = "CLIPBOARD_UNAVAILABLE") then modify (set_opened false) else mret tt
       | _ => mret tt
       end : handler unit);
  lift result.

Definition status : handler Value :=
  with_clipboard (mret (json_object
    [("ready", VBool true); ("imageOnly", VBool true); ("maxBytes", vnat DEFAULT_MAX_BYTES); ("display", vopt vstr display)])).

Definition nul : string := String "000" EmptyString.
Definition image_digest (w h : Z) (bytes : string) : string :=
  sha256_hex ("image/rgba" +:+ nul +:+ pretty w +:+ "x" +:+ pretty h +:+ nul +:+ bytes).

Definition read (max_bytes : Z) : handler Value :=
  with_clipboard (
    n ← tick; s ← get;
    image ← (match refuses_get n with
             | Some error => throw (unavailable error)
             | None => match on_desktop s with
                       | AnImage i => mret i
                       | NoImage => throw (RpcError.new "NO_IMAGE" "clipboard contains no image")
                       end
             end : handler Image);
    let size := Str.len (pixels image) in
    _ ← lift (check_size size max_bytes);
    mret (json_object
      [("semanticDigest", VString (image_digest (width image) (height image) (pixels image))); ("size", vnat size);
       ("content", json_object
          [("kind", VString "image"); ("width", vnat (width image)); ("height", vnat (height image));
           ("rgbaBase64", VString (Files.encode (pixels image)))])])).

(** [ImageContent], with unknown fields denied. *)
Definition image_fields : list string := ["kind"; "width"; "height"; "rgbaBase64"].
Definition image_content (raw : Value) : option (Z * Z * string) :=
  o ← as_object raw;
  if forallb (fun kv => bool_decide (kv.1 ∈ image_fields)) o then
    _ ← obj_get o "kind" ≫= as_str;
    w ← obj_get o "width" ≫= as_u64;
    h ← obj_get o "height" ≫= as_u64;
    rgba ← obj_get o "rgbaBase64" ≫= as_str;
    Some (w, h, rgba)
  else None.

(** [a.checked_mul(b)] *)
Definition checked_mul (a b : Z) : option Z := if a * b <=? u64_max then Some (a * b) else None.
Definition image_size (w h : Z) : option Z :=
  n ← checked_mul w h; size ← checked_mul n 4; if 0 <? size then Some size else None.

Definition decode_image (params : Value) (maximum : Z) : outcome RpcError.t (Image * string) :=
  raw ← ok_or (invalid_params "content is required") (vget params "content");
  _ ← (if bool_decide ((vget raw "kind" ≫= as_str) = Some "image") then Ok tt
       else Err (RpcError.new "NO_IMAGE" "only images can be synchronized"));
  image ← ok_or (invalid_params "invalid image content") (image_content raw);
  let '(w, h, rgba) := image in
  size ← ok_or (invalid_params "invalid image dimensions") (image_size w h);
  _ ← check_size size maximum;
  _ ← (if (size + 2) / 3 * 4 <? Str.len rgba then Err (invalid_params "encoded data exceeds image dimensions") else Ok tt);
  bytes ← ok_or (invalid_params "invalid image encoding") (Files.decode rgba);
  _ ← (if negb (Str.len bytes =? size) then Err (invalid_params "RGBA size does not match image dimensions") else Ok tt);
  let digest := image_digest w h bytes in
  if bool_decide ((vget params "semanticDigest" ≫= as_str) = Some digest)
  then Ok ({| width := w; height := h; pixels := bytes |}, digest)
  else Err (RpcError.new "CLIPBOARD_DIGEST_MISMATCH" "image digest mismatch").

(** The image is checked before the clipboard is touched. *)
Definition write (params : Value) (max_bytes : Z) : handler Value :=
  decoded ← lift (decode_image params max_bytes);
  let '(image, digest) := decoded in
  with_clipboard (
    _ ← (match u64_param params "expiresAtMs" with
         | Some deadline =>
             n ← now;
             guard (negb (deadline <=? n))
               (RpcError.new "CLIPBOARD_EXPIRED" "image transfer expired before it could be applied")
         | None => mret tt
         end : handler unit);
    n ← tick;
    match refuses_set n with
    | Some error => _ ← modify (fun s => set_desktop (left_by_failure n (on_desktop s)) s); throw (unavailable error)
    | None =>
        _ ← modify (set_desktop (AnImage image));
        mret (json_object [("applied", VBool true); ("semanticDigest", VString digest); ("width", vnat (width image));
                           ("height", vnat (height image))])
    end).

(** The arms of the executor's [dispatch]. *)
Definition limit_of (params : Value) : Z := Z.min (default DEFAULT_MAX_BYTES (u64_param params "maxBytes")) DEFAULT_MAX_BYTES.
Definition clipboard_read (params : Value) : handler Value := read (limit_of params).
Definition clipboard_write (params : Value) : handler Value := write params (limit_of params).
End service.

(** [clipboard_unsupported.rs] *)
Definition unsupported {A} : handler A :=
  throw (RpcError.new "CLIPBOARD_UNSUPPORTED" "native image clipboard is unavailable on this platform").

(** ** Lemmas on the service *)

Section service.
Context `{native : Native, !Sha256, !Files.Base64}.

(** What a failing clipboard call leaves on the desktop. *)
Definition untouched (s s' : t) : Prop :=
  on_desktop s' = on_desktop s \/ exists n, on_desktop s' = left_by_failure n (on_desktop s).

Lemma wp_with_clipboard {A} (m : handler A) s (Q : outcome RpcError.t A -> content -> Prop) :
  (forall s1, on_desktop s1 = on_desktop s -> wp m s1 (fun o s' => Q o (on_desktop s') /\ o <> Panic)) ->
  (forall e, RpcError.code e = "CLIPBOARD_UNAVAILABLE" -> Q (Err e) (on_desktop s)) ->
  wp (with_clipboard m) s (fun o s' => Q o (on_desktop s')).
Proof.
  intros Hm He. unfold with_clipboard. apply wp_get_bind.
  apply (wp_seq _ _ _ (fun o s' => on_desktop s' = on_desktop s /\ match o with Err e => RpcError.code e = "CLIPBOARD_UNAVAILABLE" | Ok _ => True | Panic => False end)).
  - destruct (opened s); [by apply wp_ret|]. unfold tick. apply wp_bind_assoc, wp_get_bind. intros w. run_handler. by destruct (refuses_open _).
  - intros u s1 [Hs1 _]. eapply wp_seq; [apply wp_settled, (Hm s1 Hs1)|..]; [|by intros e s2 (o & [=] & _)|by intros s2 (o & [=] & _)].
    intros result s2 (o & [= <-] & HQ & Ho). apply (wp_seq _ _ _ (fun r s3 => r = Ok tt /\ on_desktop s3 = on_desktop s2)); [|intros v s3 [_ Hs3]|by intros ? ? [? _]|by intros ? [? _]].
    + destruct result as [a|e|]; [by apply wp_ret| |done]. destruct (bool_decide _); [by intros w|by apply wp_ret].
    + apply wp_lift. by rewrite Hs3.
  - intros e s1 [-> Hcode]. by apply He.
  - by intros s1 [_ []].
Qed.

(** What [decode_image] accepts. *)
Definition accepts_image (params : Value) (maximum : Z) (i : Image) (digest : string) : Prop :=
  exists raw rgba, vget params "content" = Some raw /\ (vget raw "kind" ≫= as_str) = Some "image" /\
    image_content raw = Some (width i, height i, rgba) /\ Files.decode rgba = Some (pixels i) /\
    0 < 4 * (width i * height i) <= Z.min maximum DEFAULT_MAX_BYTES /\ Str.len (pixels i) = 4 * (width i * height i) /\
    digest = image_digest (width i) (height i) (pixels i) /\ (vget params "semanticDigest" ≫= as_str) = Some digest.

Lemma image_size_Some w h size : image_size w h = Some size -> size = 4 * (w * h) /\ 0 < size.
Proof.
  unfold image_size, checked_mul. destruct (w * h <=? u64_max); [|done]. cbn. destruct (_ <=? _); [|done]. cbn.
  destruct (0 <? _) eqn:Hp; [|done]. intros [= <-]. lia.
Qed.
Lemma check_size_spec size maximum :
  match check_size size maximum with
  | Ok _ => 0 <> size /\ size <= Z.min maximum DEFAULT_MAX_BYTES
  | Err e => RpcError.code e = "CLIPBOARD_TOO_LARGE"
  | Panic => False
  end.
Proof.
  unfold check_size. destruct (_ || _) eqn:Ho; [done|]. apply orb_false_iff in Ho as [Hz%Z.eqb_neq Hm%Z.ltb_ge]. lia.
Qed.

Definition rejections : list string :=
  ["INVALID_PARAMS"; "NO_IMAGE"; "CLIPBOARD_TOO_LARGE"; "CLIPBOARD_DIGEST_MISMATCH"; "CLIPBOARD_EXPIRED"].

Lemma decode_image_spec params maximum :
  match decode_image params maximum with
  | Ok (i, digest) => accepts_image params maximum i digest
  | Err e => RpcError.code e ∈ rejections
  | Panic => False
  end.
Proof.
  assert (Hin : "INVALID_PARAMS" ∈ rejections) by by left.
  unfold decode_image. destruct (vget params "content") as [raw|] eqn:Hraw; cbn; [|exact Hin].
  destruct (bool_decide ((vget raw "kind" ≫= as_str) = _)) eqn:Hkind; cbn; [|by right; left]. apply bool_decide_eq_true in Hkind.
  destruct (image_content raw) as [[[w h] rgba]|] eqn:Hc; cbn; [|exact Hin].
  destruct (image_size w h) as [size|] eqn:Hsize; cbn; [|exact Hin]. apply image_size_Some in Hsize as [-> Hpos].
  pose proof (check_size_spec (4 * (w * h)) maximum) as Hcheck. destruct (check_size _ _) as [u|e|]; cbn; [| |done].
  2: { rewrite Hcheck. by right; right; left. }
  destruct (_ <? Str.len rgba); cbn; [exact Hin|]. destruct (Files.decode rgba) as [bytes|] eqn:Hd; cbn; [|exact Hin].
  destruct (Str.len bytes =? 4 * (w * h)) eqn:Hlen; cbn; [|exact Hin]. apply Z.eqb_eq in Hlen.
  destruct (bool_decide _) eqn:Hdig; [|by right; right; right; left]. apply bool_decide_eq_true in Hdig.
  exists raw, rgba. cbn. destruct Hcheck. split_and!; first [done|lia].
Qed.

(** A write puts the image it was sent on the clipboard, or leaves what stands there.  A success has set
    exactly the decoded pixels: as many as width and height say, within both limits, with the digest of the
    request, which it repeats; what is rejected leaves the clipboard alone, and so does everything but a
    native write that fails. *)
Theorem write_sets_the_image_or_nothing params max_bytes s w :
  let '(o, s', _) := write params max_bytes s w in
  match o with
  | Ok v => exists i digest, accepts_image params max_bytes i digest /\ on_desktop s' = AnImage i /\
      vget v "applied" = Some (VBool true) /\ vget v "semanticDigest" = Some (VString digest)
  | Err e => RpcError.code e ∈ rejections /\ on_desktop s' = on_desktop s \/
      RpcError.code e = "CLIPBOARD_UNAVAILABLE" /\ untouched s s'
  | Panic => False
  end.
Proof.
  enough (Hw : wp (write params max_bytes) s (fun o s' => match o with
    | Ok v => exists i digest, accepts_image params max_bytes i digest /\ on_desktop s' = AnImage i /\
        vget v "applied" = Some (VBool true) /\ vget v "semanticDigest" = Some (VString digest)
    | Err e => RpcError.code e ∈ rejections /\ on_desktop s' = on_desktop s \/ RpcError.code e = "CLIPBOARD_UNAVAILABLE" /\ untouched s s'
    | Panic => False end)) by (specialize (Hw w); by destruct (write _ _ s w) as [[o s'] w']).
  unfold write. pose proof (decode_image_spec params max_bytes) as Hd.
  apply wp_lift_bind; [intros [i digest] Hi|intros e He|intros Hp]; rewrite ?Hi, ?He, ?Hp in Hd; [|by left|done].
  apply (wp_with_clipboard _ s (fun o c => match o with
    | Ok v => exists i digest, accepts_image params max_bytes i digest /\ c = AnImage i /\
        vget v "applied" = Some (VBool true) /\ vget v "semanticDigest" = Some (VString digest)
    | Err e => RpcError.code e ∈ rejections /\ c = on_desktop s \/
        RpcError.code e = "CLIPBOARD_UNAVAILABLE" /\ (c = on_desktop s \/ exists n, c = left_by_failure n (on_desktop s))
    | Panic => False end)); [|by right; split; [|left]].
  intros s1 Hs1 w1. unfold tick. run_handler. destruct (u64_param params "expiresAtMs") as [deadline|].
  - destruct (deadline <=? _); cbn; [by split; [left; split; [right; right; right; right; left|]|]|].
    destruct (refuses_set (turn s1)); cbn; (split; [|done]).
    + right. split; [done|]. right. exists (turn s1). by rewrite Hs1.
    + by exists i, digest.
  - cbn. destruct (refuses_set (turn s1)); cbn; (split; [|done]).
    + right. split; [done|]. right. exists (turn s1). by rewrite Hs1.
    + by exists i, digest.
Qed.
End service.
End Clipboard.

(** * Sending an image ([clipboard_cli.rs]) *)

Module ClipboardCli.
Import Clipboard.

Module Target.
Record t := mk {
  node_id : string;
  executor_id : option string;
  ready : bool;
  reason : option string;
  display : option string;
}.
End Target.

(** How a request can fail on its way: no answer in time, a socket that breaks, or a controller that refuses. *)
Inductive failure := NoReply | Broken (error : string) | Refused (error : option RpcError.t).
(** A request to write the clipboard of an executor is lost, or carried there; then its answer may be lost. *)
Inductive carriage := LostRequest (f : failure) | Carried (answer_lost : option failure).

(** The nodes and what is between them.  [passed_on] is what the executor is given of the parameters it was
    called with: the controller adds fields. *)
Class Network := {
  native_of : string -> Native;
  answer : nat -> string -> Value -> failure + Value;
  carries : nat -> carriage;
  passed_on : nat -> Value -> Value;
}.

Record t := mk {
  here : Clipboard.t;
  far : gmap string Clipboard.t;
  step_no : nat;
  sent : list (string * Value);
}.
Definition set_here (c : Clipboard.t) (s : t) : t := mk c (far s) (step_no s) (sent s).
Definition set_far (f : gmap string Clipboard.t) (s : t) : t := mk (here s) f (step_no s) (sent s).
Definition ask (action : string) (params : Value) (s : t) : t := mk (here s) (far s) (S (step_no s)) (sent s ++ [(action, params)]).

(** [anyhow::Error], by its text. *)
Definition handler := M t string.

Definition error_text (e : RpcError.t) : string := RpcError.code e +:+ ": " +:+ RpcError.message e.
Definition failure_text (f : failure) : string :=
  match f with
  | NoReply => "RPC_TIMEOUT: no response; operation outcome is unknown"
  | Broken error => error
  | Refused None => "RPC_FAILED: missing error"
  | Refused (Some e) => error_text e
  end.

Section cli.
Context `{!Sha256, !Files.Base64, local : Native, net : Network}.

(** A method of the clipboard of this node, or of the one of an executor. *)
Definition on_here {A} (m : Clipboard.handler A) : handler A := fun s w =>
  let '(o, c, w') := m (here s) w in (map_err error_text o, set_here c s, w').
Definition at_executor {A} (id : string) (m : Native -> Clipboard.handler A) : handler A := fun s w =>
  match far s !! id with
  | None => (Err "EXECUTOR_NOT_FOUND: executor is not registered", s, w)
  | Some c =>
      let '(o, c', w') := m (native_of id) c w in
      (match o with Ok a => Ok a | Err e => Err (error_text e) | Panic => Err (failure_text NoReply) end, set_far (<[id := c']> (far s)) s, w')
  end.

Definition rpc (action : string) (params : Value) : handler Value :=
  s ← get;
  _ ← modify (ask action params);
  match answer (step_no s) action params with
  | inl f => throw (failure_text f)
  | inr v => mret v
  end.

(** ["executor.call"] of ["clipboard.write"]: the one request that changes another clipboard. *)
Definition call_write (id : string) (call : Value) : handler Value :=
  s ← get;
  let n := step_no s in
  _ ← modify (ask "executor.call" call);
  match carries n with
  | LostRequest f => throw (failure_text f)
  | Carried lost =>
      v ← at_executor id (fun native => clipboard_write (native := native) (passed_on n (vindex call "params")));
      match lost with Some f => throw (failure_text f) | None => mret v end
  end.

Definition executor_call (id action : string) (params : Value) : handler Value :=
  rpc "executor.call" (json_object [("executorId", VString id); ("action", VString action); ("params", params)]).

(** ** Targets *)

Definition is_str (v : Value) (s : string) : bool := bool_decide (as_str v = Some s).

Definition same_peer (controller executor : Value) : bool :=
  if negb (is_str (vindex controller "transport") "local") || negb (is_str (vindex executor "transport") "local") then false
  else match as_str (vindex controller "socket"), as_str (vindex executor "socket") with
       | Some a, Some b => bool_decide (Disk.parent (FsPath.components a) = Disk.parent (FsPath.components b))
       | _, _ => false
       end.

Definition id_of (v : Value) : option string :=
  match as_str (vindex v "id") with Some id => Some id | None => as_str (vindex (vindex v "metadata") "id") end.

Definition elements (v : Value) : list Value := default [] (as_array v).

Definition candidate (snapshot controller : Value) : option Target.t :=
  if negb (is_str (vindex controller "health") "ready") then None
  else
    node_id ← id_of controller;
    let executors := bfilter (fun e => is_str (vindex e "health") "ready" && same_peer (vindex controller "endpoint") (vindex e "endpoint"))
                       (elements (vindex snapshot "executors")) in
    Some (Target.mk node_id (match executors with [e] => id_of e | _ => None end) false
            (Some (if (1 <? Z.of_nat (length executors)) then "AMBIGUOUS_EXECUTOR" else "EXECUTOR_UNAVAILABLE")) None).

Definition candidates (snapshot : Value) : list Target.t :=
  Slice.sort_by (fun a b => bool_decide (String.le (Target.node_id a) (Target.node_id b)))
    (omap (candidate snapshot) (elements (vindex snapshot "controllers"))).

Definition named (requested : string) (target : Target.t) : bool :=
  bool_decide (Target.node_id target = requested) || bool_decide (Target.executor_id target = Some requested).

Definition has_capability (capabilities : Value) (name : string) : bool :=
  match as_array capabilities with Some l => existsb (fun c => is_str (vindex c "name") name) l | None => false end.

(** Only what the node says of itself is read, never its clipboard. *)
Definition probe (id : string) : handler Value :=
  capabilities ← executor_call id "capability.list" (json_object []);
  _ ← guard (has_capability capabilities "clipboard.status" && has_capability capabilities "clipboard.write")
        "CLIPBOARD_UNSUPPORTED: install image clipboard support on this node";
  executor_call id "clipboard.status" (json_object []).
Definition probed (target : Target.t) (result : outcome string Value) : Target.t :=
  match result with
  | Ok status =>
      if bool_decide (as_bool (vindex status "ready") = Some true)
      then Target.mk (Target.node_id target) (Target.executor_id target) true None (as_str (vindex status "display"))
      else Target.mk (Target.node_id target) (Target.executor_id target) (Target.ready target) (Some "CLIPBOARD_UNAVAILABLE") (Target.display target)
  | Err error => Target.mk (Target.node_id target) (Target.executor_id target) (Target.ready target) (Some error) (Target.display target)
  | Panic => target
  end.
Definition probe_target (target : Target.t) : handler Target.t :=
  match Target.executor_id target with
  | Some id => result ← settled (probe id); mret (probed target result)
  | None => mret target
  end.

(** One target is probed after the other; the code asks them at once. *)
Fixpoint probe_all (targets : list Target.t) : handler (list Target.t) :=
  match targets with
  | [] => mret []
  | target :: targets => t ← probe_target target; ts ← probe_all targets; mret (t :: ts)
  end.

Definition discover_for (requested : option string) : handler (list Target.t) :=
  snapshot ← rpc "status" (json_object []);
  probe_all (bfilter (fun target => match requested with Some id => named id target | None => true end) (candidates snapshot)).

Definition resolve (targets : list Target.t) (requested : string) : outcome string Target.t :=
  match bfilter (named requested) targets with
  | [target] =>
      if Target.ready target then Ok target else Err (default "CLIPBOARD_UNAVAILABLE" (Target.reason target))
  | _ => Err ("TARGET_UNAVAILABLE: target is not uniquely connected: " +:+ requested)
  end.

(** ** The transfer *)

Definition preflight_error (error : string) : string :=
  if Str.contains "RPC_TIMEOUT" error then "TARGET_CHECK_TIMEOUT: target check timed out; image was not sent" else error.
Definition preflight {A} (m : handler A) : handler A := fun s w =>
  let '(o, s', w') := m s w in (map_err preflight_error o, s', w').

Definition write_params (image : Value) (expires : Z) : Value :=
  json_object [("content", vindex image "content"); ("semanticDigest", vindex image "semanticDigest");
               ("maxBytes", vnat DEFAULT_MAX_BYTES); ("expiresAtMs", vnat expires)].

Definition transfer (target : Target.t) (image : Value) (send : string -> Value -> handler Value) : handler Value :=
  _ ← guard (is_str (vindex (vindex image "content") "kind") "image") "NO_IMAGE: clipboard contains no image";
  n ← now;
  id ← lift (ok_or "EXECUTOR_UNAVAILABLE" (Target.executor_id target));
  response ← send id (write_params image (u64_add n 30000));
  _ ← guard (bool_decide (as_bool (vindex response "applied") = Some true) &&
             value_eq (vindex response "semanticDigest") (vindex image "semanticDigest"))
        "CLIPBOARD_UNCONFIRMED: destination did not confirm the image write";
  mret (json_object
    [("target", VString (Target.node_id target)); ("executorId", vopt vstr (Target.executor_id target));
     ("width", vindex (vindex image "content") "width"); ("height", vindex (vindex image "content") "height");
     ("bytes", vindex image "size"); ("applied", VBool true); ("display", vopt vstr (Target.display target))]).

Definition lease_params (resource owner : string) (token : Value) : Value :=
  json_object [("resource", VString resource); ("owner", VString owner); ("token", token)].

Definition send_write (resource owner : string) (token : Value) (id : string) (params : Value) : handler Value :=
  call_write id (json_object [("executorId", VString id); ("action", VString "clipboard.write"); ("params", params);
                              ("leaseResource", VString resource); ("owner", VString owner); ("token", token)]).

Definition push_image (requested : string) : handler Value :=
  image ← on_here (Clipboard.read DEFAULT_MAX_BYTES);
  targets ← preflight (discover_for (Some requested));
  target ← preflight (lift (resolve targets requested));
  id ← lift (ok_or "EXECUTOR_UNAVAILABLE" (Target.executor_id target));
  unique ← fresh_uuid;
  let resource := "clipboard:" +:+ id in
  let owner := "clipboard-" +:+ unique in
  lease ← rpc "lease.acquire" (json_object [("resource", VString resource); ("owner", VString owner); ("ttlMs", vnat 45000)]);
  result ← settled (transfer target image (send_write resource owner (vindex lease "token")));
  _ ← settled (rpc "lease.release" (lease_params resource owner (vindex lease "token")));
  lift result.

(** ** What is printed *)

Definition error_code (message : string) : string :=
  match Str.split_once ":" message with
  | Some (code, _) =>
      if Str.all (fun c => let n := nat_of_ascii c in (Nat.leb 65 n && Nat.leb n 90) || Nat.eqb n 95) code then code else "CLIPBOARD_FAILED"
  | None => "CLIPBOARD_FAILED"
  end.
(** What is printed on the standard output, and how the command ends. *)
Definition report (result : outcome string Value) (as_json : bool) : option Value * outcome string unit :=
  match result with
  | Ok value => (Some (if as_json then json_object [("ok", VBool true); ("result", value)] else value), Ok tt)
  | Err message =>
      (if as_json then Some (json_object [("ok", VBool false);
         ("error", json_object [("code", VString (error_code message)); ("message", VString message)])]) else None, Err message)
  | Panic => (None, Panic)
  end.
Definition targets_value (targets : list Target.t) : Value :=
  json_object [("targets", VArray ((fun target => json_object
    [("nodeId", VString (Target.node_id target)); ("executorId", vopt vstr (Target.executor_id target));
     ("ready", VBool (Target.ready target)); ("reason", vopt vstr (Target.reason target));
     ("display", vopt vstr (Target.display target))]) <$> targets))].
Definition discover : handler (list Target.t) := discover_for None.
Definition targets (as_json : bool) : handler (option Value * outcome string unit) :=
  result ← settled (targets ← discover; mret (targets_value targets)); mret (report result as_json).
Definition push (requested : string) (as_json : bool) : handler (option Value * outcome string unit) :=
  result ← settled (push_image requested); mret (report result as_json).
End cli.

(** ** What a push does *)

Section pushing.
Context `{!Sha256, !Files.Base64, local : Native, net : Network}.
Hypothesis base64_reads_back : forall b, Files.decode (Files.encode b) = Some b.
Hypothesis fields_passed_on : forall n params k,
  k ∈ ["content"; "semanticDigest"; "maxBytes"; "expiresAtMs"] -> vget (passed_on n params) k = vget params k.

(** The requests to write a clipboard. *)
Definition writes (s : t) : list (string * Value) :=
  bfilter (fun r => is_str (vindex r.2 "action") "clipboard.write") (sent s).

Record apart (s s' : t) : Prop := {
  same_here : on_desktop (here s') = on_desktop (here s);
  same_far : far s' = far s;
  same_writes : writes s' = writes s;
}.
Lemma still_refl s : apart s s.
Proof. by split. Qed.
Lemma still_trans s s1 s2 : apart s s1 -> apart s1 s2 -> apart s s2.
Proof. intros [] []. split; congruence. Qed.

(** [m] changes no clipboard and does not panic. *)
Definition asks {A} (m : handler A) : Prop := forall s, wp m s (fun o s' => apart s s' /\ o <> Panic).

Lemma asking_bind {A B} (m : handler A) (k : A -> handler B) : asks m -> (forall a, asks (k a)) -> asks (m ≫= k).
Proof.
  intros Hm Hk s. apply (wp_seq _ _ _ _ _ (Hm s)); [|by intros e s' [? _]|by intros s' [_ ?]].
  intros a s1 [Ha _]. eapply wp_mono; [apply Hk|]. intros o s2 [Hb Ho]. split; [by eapply still_trans|done].
Qed.
Lemma asking_ret {A} (a : A) : asks (mret a).
Proof. intros s. apply wp_ret. by split; [apply still_refl|]. Qed.
Lemma asking_throw {A} e : asks (throw e : handler A).
Proof. intros s. apply wp_throw. by split; [apply still_refl|]. Qed.
Lemma asking_guard b e : asks (guard b e).
Proof. destruct b; [apply asking_ret|apply asking_throw]. Qed.
Lemma asking_settled {A} (m : handler A) : asks m -> asks (settled m).
Proof.
  intros Hm s. eapply wp_mono; [apply wp_settled, Hm|]. by intros o s' (r & -> & Ha & _).
Qed.
Lemma asking_rpc action params : is_str (vindex params "action") "clipboard.write" = false -> asks (rpc action params).
Proof.
  intros Ha s w. unfold rpc. run_handler.
  assert (Hs : apart s (ask action params s)).
  { split; [done..|]. unfold writes. cbn. rewrite bfilter_app. cbn. rewrite Ha. apply app_nil_r. }
  by destruct (answer _ _ _).
Qed.
Lemma asking_call id action params : action <> "clipboard.write" -> asks (executor_call id action params).
Proof.
  intros Ha. apply asking_rpc. unfold is_str. apply bool_decide_eq_false. cbn. by intros [= ->].
Qed.
Lemma asking_probe id : asks (probe id).
Proof.
  apply asking_bind; [by apply asking_call|intros c]. apply asking_bind; [apply asking_guard|intros _]. by apply asking_call.
Qed.
Lemma asking_probe_all targets : asks (probe_all targets).
Proof.
  induction targets as [|target targets IH]; [apply asking_ret|]. cbn. apply asking_bind.
  - unfold probe_target. destruct (Target.executor_id target); [|apply asking_ret].
    apply asking_bind; [apply asking_settled, asking_probe|intros result; apply asking_ret].
  - intros target'. apply asking_bind; [exact IH|]. intros rest. apply asking_ret.
Qed.
Lemma asking_preflight {A} (m : handler A) : asks m -> asks (preflight m).
Proof.
  intros Hm s w. specialize (Hm s w). unfold preflight. destruct (m s w) as [[o s'] w']. destruct Hm. split; [done|]. by destruct o.
Qed.
Lemma asking_discover requested : asks (discover_for requested).
Proof. apply asking_bind; [by apply asking_rpc|]. intros snapshot. apply asking_probe_all. Qed.
Lemma asking_lift {A} (o : outcome string A) : o <> Panic -> asks (lift o).
Proof. intros Ho s. apply wp_lift. by split; [apply still_refl|]. Qed.
Lemma asking_uuid : asks fresh_uuid.
Proof. intros s w. by split; [apply still_refl|]. Qed.

(** The image as it is read. *)
Definition image_value (i : Image) : Value := json_object
  [("semanticDigest", VString (image_digest (width i) (height i) (pixels i))); ("size", vnat (Str.len (pixels i)));
   ("content", json_object
      [("kind", VString "image"); ("width", vnat (width i)); ("height", vnat (height i));
       ("rgbaBase64", VString (Files.encode (pixels i)))])].

Lemma read_image s :
  wp (on_here (Clipboard.read DEFAULT_MAX_BYTES)) s (fun o s' => apart s s' /\ match o with
    | Ok v => exists i, on_desktop (here s) = AnImage i /\ v = image_value i
    | Err _ => True
    | Panic => False
    end).
Proof.
  assert (Hr : wp (Clipboard.read DEFAULT_MAX_BYTES) (here s) (fun o c => on_desktop c = on_desktop (here s) /\ match o with
    | Ok v => exists i, on_desktop (here s) = AnImage i /\ v = image_value i
    | Err _ => True
    | Panic => False
    end)).
  { apply (wp_with_clipboard _ (here s) (fun o c => c = on_desktop (here s) /\ match o with
      | Ok v => exists i, on_desktop (here s) = AnImage i /\ v = image_value i | Err _ => True | Panic => False end)); [|done].
    intros c Hc w. unfold Clipboard.tick. run_handler. rewrite <- Hc. destruct (refuses_get (turn c)); [done|]. cbn.
    destruct (on_desktop c) as [i|] eqn:Hi; cbn; rewrite ?Hi; [|done].
    pose proof (check_size_spec (Str.len (pixels i)) DEFAULT_MAX_BYTES) as Hs. destruct (check_size _ _); [|done|done].
    cbn. rewrite ?Hi. split; [split; [done|]|done]. by exists i. }
  intros w. specialize (Hr w). unfold on_here. destruct (Clipboard.read _ (here s) w) as [[o c] w']. cbn in *.
  destruct Hr as [Hc Ho]. split; [by split|]. by destruct o.
Qed.

(** What the clipboard of the target can come to hold. *)
Definition received (i : Image) (id : string) (s s' : t) : Prop :=
  (forall id', id' <> id -> far s' !! id' = far s !! id') /\
  match far s !! id, far s' !! id with
  | Some c, Some c' => on_desktop c' = on_desktop c \/ on_desktop c' = AnImage i \/
      exists n, on_desktop c' = left_by_failure (Native := native_of id) n (on_desktop c)
  | None, None => True
  | _, _ => False
  end.
Lemma received_nothing i id s s' : far s' = far s -> received i id s s'.
Proof. intros Hf. split; [by rewrite Hf|]. rewrite Hf. destruct (far s !! id); [by left|done]. Qed.
Lemma received_apart i id s s1 s2 s' : apart s s1 -> received i id s1 s2 -> apart s2 s' -> received i id s s'.
Proof. intros [_ Hf _] Hr [_ Hf' _]. unfold received in *. by rewrite Hf', <- Hf. Qed.

(** The executor that accepts what was sent has read the image that was sent. *)
Lemma accepts_what_was_sent n i expires maximum i' digest :
  accepts_image (passed_on n (write_params (image_value i) expires)) maximum i' digest -> i' = i.
Proof.
  intros (raw & rgba & Hraw & _ & Hc & Hd & _). rewrite fields_passed_on in Hraw by by left.
  assert (Hv : vget (write_params (image_value i) expires) "content" = Some (vindex (image_value i) "content")) by reflexivity.
  rewrite Hv in Hraw. injection Hraw as <-.
  assert (Hi : image_content (vindex (image_value i) "content") = Some (width i, height i, Files.encode (pixels i))) by reflexivity.
  rewrite Hi in Hc. injection Hc as Hw Hh <-. rewrite base64_reads_back in Hd. injection Hd as Hp.
  destruct i, i'. cbn in *. congruence.
Qed.

Lemma call_write_image i id resource owner token expires s :
  wp (send_write resource owner token id (write_params (image_value i) expires)) s (fun o s' =>
    on_desktop (here s') = on_desktop (here s) /\ (exists r, writes s' = writes s ++ [r]) /\ received i id s s' /\
    match o with
    | Ok _ => exists c, far s' !! id = Some c /\ on_desktop c = AnImage i
    | Err _ => True
    | Panic => False
    end).
Proof.
  unfold send_write. set (call := json_object _). intros w. unfold call_write. run_handler.
  set (s1 := ask "executor.call" call s).
  assert (Hw : writes s1 = writes s ++ [("executor.call", call)]) by (unfold writes; cbn [sent s1 ask]; by rewrite bfilter_app).
  change (vindex call "params") with (write_params (image_value i) expires).
  destruct (carries (step_no s)) as [f|lost]; cbn.
  { split; [done|]. split; [by eexists|]. split; [by apply received_nothing|done]. }
  unfold at_executor. cbn [far s1 ask]. destruct (far s !! id) as [c|] eqn:Hc; cbn.
  2: { split; [done|]. split; [by eexists|]. split; [by apply received_nothing|done]. }
  set (p := passed_on (step_no s) _).
  pose proof (write_sets_the_image_or_nothing (native := native_of id) p (limit_of p) c w) as Hwrite. unfold clipboard_write.
  destruct (write (native := native_of id) p (limit_of p) c w) as [[o c'] w'] eqn:Hrun.
  assert (Hrec : forall s', far s' = <[id := c']> (far s) ->
            (on_desktop c' = on_desktop c \/ on_desktop c' = AnImage i \/ exists n, on_desktop c' = left_by_failure (Native := native_of id) n (on_desktop c)) ->
            received i id s s').
  { intros s' Hf Hcase. split; [intros id' Hne; by rewrite Hf, lookup_insert_ne|]. by rewrite Hc, Hf, lookup_insert_eq. }
  destruct o as [v|e|]; cbn in Hwrite |- *; [|..|done].
  - destruct Hwrite as (i' & digest & Hi & Hd & _). apply accepts_what_was_sent in Hi. subst i'.
    destruct lost; cbn; (split; [done|]); (split; [by eexists|]); (split; [by apply Hrec; [|right; left]|]); [done|].
    exists c'. by rewrite lookup_insert_eq.
  - split; [done|]. split; [by eexists|]. split; [|done]. apply Hrec; [done|].
    destruct Hwrite as [[_ Hd]|[_ [Hd|[n Hd]]]]; [by left|by left|right; right; by exists n].
Qed.

(** The transfer sends the image at most once. *)
Lemma transfer_image target i resource owner token s id :
  Target.executor_id target = Some id ->
  wp (transfer target (image_value i) (send_write resource owner token)) s (fun o s' =>
    on_desktop (here s') = on_desktop (here s) /\ (exists l, writes s' = writes s ++ l /\ (length l <= 1)%nat) /\ received i id s s' /\
    match o with
    | Ok v => vget v "executorId" = Some (VString id) /\ exists c, far s' !! id = Some c /\ on_desktop c = AnImage i
    | Err _ => True
    | Panic => False
    end).
Proof.
  intros Hid. unfold transfer. apply wp_guard_bind; [intros _|done]. apply wp_now_bind. intros n.
  rewrite Hid. apply wp_lift_bind; [intros id' [= <-]|done..].
  apply (wp_seq _ _ _ _ _ (call_write_image i id resource owner token (u64_add n 30000) s)).
  - intros v s1 (Hh & [r Hw] & Hr & Hc). assert (Hl : exists l, writes s1 = writes s ++ l /\ (length l <= 1)%nat) by by exists [r].
    apply wp_guard_bind; intros _; [|done]. apply wp_ret. by split_and!.
  - intros e s1 (Hh & [r Hw] & Hr & _). split_and!; try done. by exists [r].
  - by intros s1 (_ & _ & _ & []).
Qed.

Definition pushed (s : t) (o : outcome string Value) (s' : t) : Prop :=
  on_desktop (here s') = on_desktop (here s) /\ (exists l, writes s' = writes s ++ l /\ (length l <= 1)%nat) /\
  match o with
  | Ok v => exists i id c, on_desktop (here s) = AnImage i /\ vget v "executorId" = Some (VString id) /\
      far s' !! id = Some c /\ on_desktop c = AnImage i /\ received i id s s'
  | Err _ => far s' = far s \/ exists i id, on_desktop (here s) = AnImage i /\ received i id s s'
  | Panic => False
  end.

Lemma pushed_nothing s e s' : apart s s' -> pushed s (Err e) s'.
Proof. intros [Hh Hf Hw]. split; [done|]. split; [exists []; rewrite app_nil_r; split; [done|cbn; lia]|by left]. Qed.

Lemma pushed_asks {A} (m : handler A) (k : A -> handler Value) s s1 :
  asks m -> apart s s1 -> (forall a s2, apart s s2 -> wp (k a) s2 (pushed s)) -> wp (m ≫= k) s1 (pushed s).
Proof.
  intros Hm Ha Hk. apply (wp_seq _ _ _ _ _ (Hm s1)); [|intros e s2 [Hb _]|by intros s2 [_ ?]].
  - intros a s2 [Hb _]. apply Hk. by eapply still_trans.
  - apply pushed_nothing. by eapply still_trans.
Qed.

(** The part of a push that has a target and a lease. *)
Lemma pushed_transfer target i resource owner token s s1 id :
  on_desktop (here s) = AnImage i -> Target.executor_id target = Some id -> apart s s1 ->
  wp (result ← settled (transfer target (image_value i) (send_write resource owner token));
      _ ← settled (rpc "lease.release" (lease_params resource owner token)); lift result) s1 (pushed s).
Proof.
  intros Hi Hid Ha. eapply wp_seq; [apply wp_settled; eapply wp_mono; [by apply transfer_image|]| | |].
  - intros o s2 (Hh & Hl & Hr & Ho). split; [exact (conj Hh (conj Hl (conj Hr Ho)))|]. by intros ->.
  - intros result s2 (o & [= <-] & (Hh & (l & Hl & Hlen) & Hr & Ho) & _).
    assert (Hrel : wp (settled (rpc "lease.release" (lease_params resource owner token))) s2 (fun o s3 => exists r, o = Ok r /\ apart s2 s3)).
    { eapply wp_mono; [apply wp_settled, (asking_rpc "lease.release" (lease_params resource owner token) eq_refl)|]. intros o s3 (r & -> & Hb & _). by exists r. }
    apply (wp_seq _ _ _ _ _ Hrel); [|by intros e s3 (r & [=] & _)|by intros s3 (r & [=] & _)].
    intros u s3 (_ & _ & Hb). apply wp_lift.
    assert (Hr' : received i id s s3) by (by eapply received_apart).
    pose proof Ha as [Hh1 Hf1 Hw1]. pose proof Hb as [Hh3 Hf3 Hw3].
    split; [congruence|]. split; [exists l; split; [congruence|done]|]. destruct result as [v|e|]; [| |done].
    + destruct Ho as (Hv & c & Hc & Hd). exists i, id, c. by rewrite Hf3.
    + right. by exists i, id.
  - by intros e s2 (o & [=] & _).
  - by intros s2 (o & [=] & _).
Qed.

(** C36. A push delivers the image.  Whatever is lost on the way, and whatever the clipboards do, at most one
    request to write is sent, the clipboard of this node stays as it is, and no clipboard but that of one
    target changes, which then holds the image, what it held, or what a native write that failed left.  A
    success names the target, whose clipboard holds exactly the image that stood here when the push began. *)
Theorem push_delivers_the_image requested s w :
  let '(o, s', _) := push_image requested s w in
  on_desktop (here s') = on_desktop (here s) /\ (exists l, writes s' = writes s ++ l /\ (length l <= 1)%nat) /\
  match o with
  | Ok v => exists i id c, on_desktop (here s) = AnImage i /\ vget v "executorId" = Some (VString id) /\
      far s' !! id = Some c /\ on_desktop c = AnImage i /\ received i id s s'
  | Err _ => far s' = far s \/ exists i id, on_desktop (here s) = AnImage i /\ received i id s s'
  | Panic => False
  end.
Proof.
  enough (Hp : wp (push_image requested) s (pushed s)) by (specialize (Hp w); by destruct (push_image requested s w) as [[o s'] w']).
  unfold push_image. apply (wp_seq _ _ _ _ _ (read_image s)); [|intros e s1 [Ha _]; by apply pushed_nothing|by intros s1 [_ ?]].
  intros image s1 [Ha (i & Hi & ->)].
  apply pushed_asks; [apply asking_preflight, asking_discover|exact Ha|]. clear Ha. intros targets s2 Ha2.
  apply pushed_asks; [apply asking_preflight, asking_lift|exact Ha2|].
  { unfold resolve. by repeat case_match. }
  clear Ha2. intros target s3 Ha3. destruct (Target.executor_id target) as [id|] eqn:Hid; [|by apply wp_throw, pushed_nothing].
  apply wp_lift_bind; [intros id' [= <-]|done..].
  apply pushed_asks; [apply asking_uuid|exact Ha3|]. clear Ha3. intros unique s4 Ha4. cbv zeta.
  apply pushed_asks; [by apply asking_rpc|exact Ha4|]. clear Ha4. intros lease s5 Ha5. by eapply pushed_transfer.
Qed.
End pushing.

(** ** Two nodes *)

#[local] Instance plain : Sha256 := fun s => s.
#[local] Instance same_base64 : Files.Base64 := {| Files.encode s := s; Files.decode s := Some s |}.
Definition works : Native := {| refuses_open _ := None; refuses_get _ := None; refuses_set _ := None; left_by_failure _ c := c; display := Some ":0" |}.

Definition endpoint (socket : string) : Value := json_object [("transport", VString "local"); ("socket", VString socket)].
Definition snapshot : Value := json_object
  [("controllers", VArray [json_object [("id", VString "peer"); ("health", VString "ready"); ("endpoint", endpoint "/run/peer/controller.sock")]]);
   ("executors", VArray [json_object [("id", VString "peer-rust"); ("health", VString "ready"); ("endpoint", endpoint "/run/peer/executor.sock")];
                         json_object [("id", VString "other"); ("health", VString "ready"); ("endpoint", endpoint "/run/other/executor.sock")]])].
Definition answers_of (action : string) (params : Value) : failure + Value :=
  if decide (action = "status") then inr snapshot
  else if decide (action = "lease.acquire") then inr (json_object [("token", VString "t")])
  else if is_str (vindex params "action") "capability.list"
  then inr (VArray [json_object [("name", VString "clipboard.status")]; json_object [("name", VString "clipboard.write")]])
  else inr (json_object [("ready", VBool true)]).
#[local] Instance network : Network := {|
  native_of _ := works;
  answer _ := answers_of;
  carries _ := Carried None;
  passed_on _ params := default params (vset params "_resourceLeases" (VArray []));
|}.

Definition dot : Image := {| width := 1; height := 1; pixels := "RGBA" |}.
Definition two_nodes : t :=
  mk (Clipboard.mk false (AnImage dot) 0) (<["peer-rust" := Clipboard.mk false NoImage 0]> ∅) 0 [].
Definition noon : world := World (fun _ => 1000) (fun _ => "u") (fun _ => true) 0 0 0.

Lemma fields_pass (n : nat) params k :
  k ∈ ["content"; "semanticDigest"; "maxBytes"; "expiresAtMs"] -> vget (passed_on n params) k = vget params k.
Proof.
  intros Hk. assert (Hne : k <> "_resourceLeases") by (intros ->; rewrite !elem_of_cons in Hk; by destruct Hk as [?|[?|[?|[?|?%not_elem_of_nil]]]]).
  unfold passed_on. cbn. destruct (vset params "_resourceLeases" (VArray [])) as [v|] eqn:Hv; [|done].
  cbn. by eapply vget_vset_ne.
Defined.

Lemma push_delivers_the_image_witness :
  let '(o, s', _) := push_image (local := works) "peer" two_nodes noon in
  is_ok o = true /\ exists i id c, on_desktop (here two_nodes) = AnImage i /\ far s' !! id = Some c /\ on_desktop c = AnImage i.
Proof.
  pose proof (push_delivers_the_image (local := works) (fun b => eq_refl) fields_pass "peer" two_nodes noon) as Hp.
  destruct (push_image "peer" two_nodes noon) as [[o s'] w'] eqn:Hrun. destruct Hp as (_ & _ & Hp).
  assert (Ho : is_ok o = true) by (revert Hrun; vm_compute; by intros [= <- _ _]).
  split; [exact Ho|]. destruct o as [v|e|]; [|done..]. destruct Hp as (i & id & c & Hi & _ & Hc & Hd & _). by exists i, id, c.
Defined.

(** An answer that is lost leaves the image at the target and the sender with an error. *)
Example a_lost_answer_has_delivered :
  let lossy := {| native_of := native_of; answer := answer; carries _ := Carried (Some NoReply); passed_on := passed_on |} in
  let '(o, s', _) := push_image (local := works) (net := lossy) "peer" two_nodes noon in
  o = Err "RPC_TIMEOUT: no response; operation outcome is unknown" /\ (on_desktop <$> far s' !! "peer-rust") = Some (AnImage dot).
Proof. vm_compute. split; reflexivity. Qed.
End ClipboardCli.
