(* ===== verification/Packs.v ===== *)
(** * Indexed resource packs ([crates/workbench-runtime/src/generation.rs])

    [pack_chromium_datapack] writes a version-5 DataPack: a 12-byte header, an
    index of 16-bit ids and 32-bit offsets, a JSON manifest as resource 1 and the
    resources in path order.  An incremental pack copies the entries outside the
    changed prefixes from a base pack, which [parse_datapack_entries] reads.

    A directory is a value, read once: the code reads every file several times
    and relies on it not changing meanwhile.  The JSON text ([serde_json]) and
    the digest ([sha2]) are parameters. *)

From Stdlib Require Import Ascii String.
From S2P Require Import Prelude RustStd Json Protocol.

Abbreviation bytes := (list Z).

(** [serde_json::to_vec] and [serde_json::from_slice]. *)
Class JsonCodec := {
  to_vec : Value -> bytes;
  from_slice : bytes -> option Value;
}.

(** The hexadecimal digest of a byte sequence. *)
Class Digest := digest_hex : bytes -> string.

Module DataPack.

(** What a directory holds; a link is neither a file nor a directory to
    [DirEntry::metadata]. *)
#[warnings="-register-all"]
Inductive tree : Type :=
  | File (content : bytes)
  | Dir (entries : list (string * tree))
  | Link.

Module ResourceTree.
Record t := mk {
  root_relative : string;
  prefix : string;
  exclude_source_maps : bool;
  exclude_root_files : list string;
}.
End ResourceTree.

(** A packed path and the contents of its file. *)
Abbreviation resource := (string * bytes)%type.

Definition err {A} (code message : string) : outcome RpcError.t A := Err (RpcError.new code message).

(** ** Collecting the resources *)

Definition validate_relative (path : string) : outcome RpcError.t unit :=
  if FsPath.is_absolute path || negb (forallb FsPath.is_normal (FsPath.components path))
  then err "INVALID_OVERLAY_PATH" ("overlay target must be a safe relative path: " +:+ path)
  else Ok tt.

(** [root.join(path)] followed through directories. *)
Fixpoint descend_tree (t : tree) (path : list FsPath.component) : option tree :=
  match path with
  | [] => Some t
  | FsPath.Normal name :: path' =>
      match t with
      | Dir entries =>
          match bfind (fun e => bool_decide (e.1 = name)) entries with
          | Some e => descend_tree e.2 path'
          | None => None
          end
      | _ => None
      end
  | _ => None
  end.

Definition name_le {A} (p q : string * A) : Prop := String.le p.1 q.1.
#[global] Instance name_le_dec {A} : RelDecision (@name_le A).
Proof. intros p q. unfold name_le. apply _. Defined.

(** Files come out with their path relative to the walk's root. *)
Definition keep_file (exclude_source_maps : bool) (exclude_root_files : list string)
    (relative : string) : bool :=
  negb ((negb (Str.contains "/" relative) && bool_decide (relative ∈ exclude_root_files))
        || (exclude_source_maps && Str.ends_with ".map" relative)).

Definition packed_path (prefix relative : string) : string :=
  if Str.is_empty prefix then relative else prefix +:+ "/" +:+ relative.

(** The entries of one directory are visited in name order. *)
Fixpoint collect_pack_tree (prefix : string) (maps : bool) (excluded : list string)
    (here : string) (t : tree) : list resource :=
  match t with
  | File content =>
      let relative := Str.replace_char "\"%char "/"%char here in
      if keep_file maps excluded relative then [(packed_path prefix relative, content)] else []
  | Dir entries =>
      concat (merge_sort name_le
        ((fix go (es : list (string * tree)) : list (string * list resource) :=
            match es with
            | [] => []
            | (name, t') :: es' =>
                (name, collect_pack_tree prefix maps excluded
                         (if Str.is_empty here then name else here +:+ "/" +:+ name) t') :: go es'
            end) entries)).*2
  | Link => []
  end.

Definition safe_prefix (prefix : string) : bool :=
  Str.is_empty prefix ||
  negb (Str.starts_with "/" prefix || Str.contains "\" prefix
        || existsb (fun part => bool_decide (part ∈ [""; "."; ".."])) (Str.split "/"%char prefix)).

(** The loop over the resource trees. *)
Fixpoint collect_all (root : tree) (trees : list ResourceTree.t) : outcome RpcError.t (list resource) :=
  match trees with
  | [] => Ok []
  | rt :: trees' =>
      _ ← validate_relative (ResourceTree.root_relative rt);
      if negb (safe_prefix (ResourceTree.prefix rt))
      then err "DATAPACK_PREFIX_INVALID"
             ("DataPack prefix is not a safe resource path: " +:+ ResourceTree.prefix rt)
      else
      match descend_tree root (FsPath.components (ResourceTree.root_relative rt)) with
      | Some (Dir entries) =>
          rest ← collect_all root trees';
          Ok (collect_pack_tree (ResourceTree.prefix rt) (ResourceTree.exclude_source_maps rt)
                (ResourceTree.exclude_root_files rt) "" (Dir entries) ++ rest)
      | _ => err "DATAPACK_INPUT_MISSING"
               ("DataPack resource root is missing: " +:+ ResourceTree.root_relative rt)
      end
  end.

(** [resources.windows(2)]: the first path that equals its successor. *)
Fixpoint duplicate_path (rs : list resource) : option string :=
  match rs with
  | r1 :: (r2 :: _) as rs' => if decide (r1.1 = r2.1) then Some r1.1 else duplicate_path rs'
  | _ => None
  end.

Definition path_matches_prefix (path : string) (prefixes : list string) : bool :=
  existsb (fun prefix =>
    bool_decide (path = prefix)
    || match Str.strip_prefix prefix path with
       | Some rest => Str.starts_with "/" rest
       | None => false
       end) prefixes.

(** ** Reading a pack *)

Section codec.
Context `{!JsonCodec} `{!Digest}.

Definition invalid {A} (message : string) : outcome RpcError.t A := err "BASE_DATAPACK_INVALID" message.

(** [read_exact] of [n] bytes at [offset]. *)
Definition read_exact (offset n : Z) (file : bytes) : outcome RpcError.t bytes :=
  let s := Bytes.slice offset n file in
  if Bytes.len s =? n then Ok s else invalid "failed to fill whole buffer".

Definition index_offset (index : bytes) (position : nat) : Z :=
  Bytes.of_le (Bytes.slice (Z.of_nat position * 6 + 2) 4 index).

Fixpoint monotonic (offsets : list Z) : bool :=
  match offsets with
  | a :: (b :: _) as rest => (a <=? b) && monotonic rest
  | _ => true
  end.

(** The last loop: the entry at position [p] spans offsets [p + 1] and [p + 2]. *)
Fixpoint read_entries (offsets : list Z) (position : nat) (entries : list Value)
    (result : gmap string (Z * Z)) : outcome RpcError.t (gmap string (Z * Z)) :=
  match entries with
  | [] => Ok result
  | entry :: entries' =>
      name ← ok_or (RpcError.new "BASE_DATAPACK_INVALID" "base pak entry has no path")
               (vget entry "path" ≫= as_str);
      from ← index offsets (position + 1);
      to ← index offsets (position + 2);
      read_entries offsets (S position) entries' (<[name := (from, to - from)]> result)
  end.

Definition parse_datapack_entries (file : bytes) : outcome RpcError.t (gmap string (Z * Z)) :=
  header ← read_exact 0 12 file;
  if negb (Bytes.of_le (Bytes.slice 0 4 header) =? 5)
  then invalid "base pak is not DataPack version 5" else
  let count := Bytes.of_le (Bytes.slice 8 2 header) in
  if count <? 1 then invalid "base pak has no manifest entry" else
  idx ← read_exact 12 ((count + 1) * 6) file;
  let offsets := index_offset idx <$> seq 0 (Z.to_nat count + 1) in
  if negb (monotonic offsets) then invalid "base pak offsets are not monotonic" else
  if default 0 (last offsets) >? Bytes.len file then invalid "base pak offsets exceed file size" else
  o0 ← index offsets 0;
  o1 ← index offsets 1;
  manifest ← read_exact o0 (o1 - o0) file;
  v ← ok_or (RpcError.new "BASE_DATAPACK_INVALID" "invalid JSON") (from_slice manifest);
  entries ← ok_or (RpcError.new "BASE_DATAPACK_INVALID" "base pak manifest has no entries")
              (vget v "entries" ≫= as_array);
  if negb (Z.of_nat (length entries) + 1 =? count)
  then invalid "base pak manifest/index entry counts differ"
  else read_entries offsets 0 entries ∅.

(** ** Writing a pack *)

(** A base pack: its bytes and the entries found in it. *)
Definition base_pack : Type := bytes * gmap string (Z * Z).

Definition open_base (base : option bytes) (digest : option string) :
    outcome RpcError.t (option base_pack) :=
  match base with
  | None => Ok None
  | Some file =>
      expected ← ok_or (RpcError.new "BASE_DATAPACK_DIGEST_REQUIRED"
                          "incremental DataPack requires the base pak digest") digest;
      let actual := "sha256:" +:+ digest_hex file in
      if decide (actual = expected) then
        entries ← parse_datapack_entries file; Ok (Some (file, entries))
      else err "BASE_DATAPACK_DRIFT"
             ("base DataPack digest changed: expected " +:+ expected +:+ ", got " +:+ actual)
  end.

(** Where the contents of a resource come from, and how long they are: its own
    file, or the base pack when it lies outside the changed prefixes. *)
Definition source_bytes (base : option base_pack) (changed : list string) (r : resource) :
    outcome RpcError.t (bytes * Z) :=
  match base with
  | Some (file, entries) =>
      if path_matches_prefix r.1 changed then Ok (r.2, Bytes.len r.2)
      else
        span ← ok_or (RpcError.new "BASE_DATAPACK_ENTRY_MISSING"
                        ("unchanged entry is absent from base pak: " +:+ r.1)) (entries !! r.1);
        let copied := Bytes.slice span.1 span.2 file in
        if Bytes.len copied =? span.2 then Ok (copied, span.2)
        else invalid "base pak entry is truncated"
  | None => Ok (r.2, Bytes.len r.2)
  end.

Fixpoint sources (base : option base_pack) (changed : list string) (rs : list resource) :
    outcome RpcError.t (list (bytes * Z)) :=
  match rs with
  | [] => Ok []
  | r :: rs' => s ← source_bytes base changed r; ss ← sources base changed rs'; Ok (s :: ss)
  end.

(** What the content digest runs over. *)
Definition content_stream (rs : list resource) (contents : list bytes) : bytes :=
  concat (zip_with (fun r c => Str.bytes r.1 ++ [0] ++ c) rs contents).

Definition manifest_entries (rs : list resource) : Value :=
  VArray (imap (fun i r => json_object [("id", vnat (Z.of_nat i + 2)); ("path", vstr r.1)]) rs).

Definition manifest_value (metadata : list (string * Value)) (content_hash : string)
    (rs : list resource) : Value :=
  VObject (obj_insert (obj_insert metadata "content_hash" (vstr content_hash))
             "entries" (manifest_entries rs)).

(** [offsets]: each entry starts where the one before it ends. *)
Fixpoint accumulate (start : Z) (sizes : list Z) : list Z :=
  match sizes with
  | [] => [start]
  | size :: sizes' => start :: accumulate (start + size) sizes'
  end.

Definition index_entry (id offset : Z) : bytes := Bytes.to_le 2 id ++ Bytes.to_le 4 offset.

(** Header and index. *)
Definition preamble (resource_count : Z) (offsets : list Z) : bytes :=
  Bytes.to_le 4 5 ++ [0; 0; 0; 0] ++ Bytes.to_le 2 resource_count ++ Bytes.to_le 2 0 ++
  concat (imap (fun i offset => index_entry (Z.of_nat i + 1) offset)
            (take (Z.to_nat resource_count) offsets)) ++
  index_entry 0 (default 0 (offsets !! Z.to_nat resource_count)).

Record packed := Packed {
  output : bytes;
  resource_total : Z;
  entry_total : Z;
  content_hash : string;
  incremental : bool;
}.

(** The part of [pack_chromium_datapack] after the resources are collected. *)
Definition pack_resources (resources : list resource) (metadata : Value)
    (base : option base_pack) (changed : list string) : outcome RpcError.t packed :=
  if bool_decide (is_Some base) && bool_decide (changed = [])
  then err "DATAPACK_CHANGED_PREFIX_REQUIRED"
         "incremental DataPack requires at least one changed prefix" else
  let resource_count := Z.of_nat (length resources) + 1 in
  if resource_count >? 65535
  then err "DATAPACK_RESOURCE_LIMIT" ("DataPack resource limit exceeded: " +:+ pretty resource_count)
  else
  srcs ← sources base changed resources;
  let hash := digest_hex (content_stream resources srcs.*1) in
  fields ← ok_or (RpcError.new "INVALID_PARAMS" "manifestMetadata must be an object")
             (as_object metadata);
  let manifest := to_vec (manifest_value fields hash resources) in
  let offsets := accumulate (12 + (resource_count + 1) * 6) (Bytes.len manifest :: srcs.*2) in
  if default 0 (last offsets) >? 2 ^ 32 - 1
  then err "DATAPACK_SIZE_LIMIT"
         ("DataPack exceeds 4 GiB offset limit: " +:+ pretty (default 0 (last offsets)))
  else
  Ok (Packed (preamble resource_count offsets ++ manifest ++ concat srcs.*1)
        resource_count (Z.of_nat (length resources)) hash (bool_decide (is_Some base))).

Definition pack_chromium_datapack (root : tree) (trees : list ResourceTree.t)
    (output_relative : string) (metadata : Value) (base : option bytes)
    (base_digest : option string) (changed : list string) : outcome RpcError.t packed :=
  _ ← validate_relative output_relative;
  collected ← collect_all root trees;
  let resources := merge_sort name_le collected in
  match duplicate_path resources with
  | Some p => err "DATAPACK_DUPLICATE_PATH" ("duplicate packed resource path: " +:+ p)
  | None =>
      if decide (resources = []) then err "DATAPACK_EMPTY" "no resources to pack" else
      b ← open_base base base_digest;
      pack_resources resources metadata b changed
  end.
End codec.

(** ** Offsets *)

Lemma accumulate_length start sizes : length (accumulate start sizes) = S (length sizes).
Proof. revert start. induction sizes as [|n sizes IH]; intros start; simpl; [done|]. by rewrite IH. Qed.

Lemma accumulate_lookup start sizes p :
  (p <= length sizes)%nat ->
  accumulate start sizes !! p = Some (start + zsum id (take p sizes)).
Proof.
  revert start p. induction sizes as [|n sizes IH]; intros start [|p] Hp; simpl in *; try lia.
  - f_equal. unfold zsum. simpl. lia.
  - f_equal. unfold zsum. simpl. lia.
  - rewrite IH by lia. f_equal. unfold zsum. simpl. unfold id. lia.
Qed.

Lemma accumulate_last start sizes : last (accumulate start sizes) = Some (start + zsum id sizes).
Proof.
  rewrite last_lookup, accumulate_length. simpl. rewrite accumulate_lookup by lia.
  by rewrite take_ge by lia.
Qed.

Lemma accumulate_monotonic start sizes :
  Forall (fun n => 0 <= n) sizes -> monotonic (accumulate start sizes) = true.
Proof.
  intros Hs. revert start. induction Hs as [|n sizes Hn _ IH]; intros start; [done|].
  specialize (IH (start + n)). cbn [accumulate]. destruct sizes as [|m sizes]; simpl in *.
  - apply andb_true_iff. split; [lia|done].
  - apply andb_true_iff. split; [lia|done].
Qed.

Lemma zsum_take_le sizes p : Forall (fun n => 0 <= n) sizes -> 0 <= zsum id (take p sizes) <= zsum id sizes.
Proof.
  intros Hs. rewrite <- (take_drop p sizes) at 3. rewrite zsum_app.
  assert (forall l, Forall (fun n => 0 <= n) l -> 0 <= zsum id l) as Hpos.
  { intros l Hl. unfold zsum. induction Hl; simpl; unfold id in *; lia. }
  pose proof (Hpos _ (Forall_take _ p _ Hs)). pose proof (Hpos _ (Forall_drop _ p _ Hs)). lia.
Qed.

Lemma accumulate_bounds start sizes o :
  Forall (fun n => 0 <= n) sizes -> o ∈ accumulate start sizes ->
  start <= o <= start + zsum id sizes.
Proof.
  intros Hs [p Hp]%list_elem_of_lookup_1. pose proof (lookup_lt_Some _ _ _ Hp) as Hlt.
  rewrite accumulate_length in Hlt. rewrite accumulate_lookup in Hp by lia. injection Hp as <-.
  pose proof (zsum_take_le sizes p Hs). lia.
Qed.

(** ** The index, written and read *)

(** Fixed-size blocks: the [p]-th one starts at [k * p]. *)
Lemma slice_block (k : nat) (blocks : list bytes) p b o n :
  Forall (fun x => length x = k) blocks -> blocks !! p = Some b ->
  0 <= o -> 0 <= n -> (Z.to_nat o + Z.to_nat n <= k)%nat ->
  Bytes.slice (Z.of_nat p * Z.of_nat k + o) n (concat blocks) = Bytes.slice o n b.
Proof.
  intros Hk. revert p. induction Hk as [|x blocks Hx _ IH]; intros [|p] Hp Ho Hn Hle; try done.
  - injection Hp as ->. cbn [concat]. unfold Bytes.slice.
    replace (Z.of_nat 0 * Z.of_nat k + o) with o by lia.
    rewrite drop_app_le by lia. rewrite take_app_le; [done|]. rewrite length_drop. lia.
  - cbn [concat]. simpl in Hp. rewrite <- (IH p Hp Ho Hn Hle). unfold Bytes.slice.
    rewrite drop_app_ge by lia. do 2 f_equal. lia.
Qed.

Definition index_blocks (count : nat) (offsets : list Z) : list bytes :=
  imap (fun i offset => index_entry (if decide (i = count) then 0 else Z.of_nat i + 1) offset) offsets.

Lemma index_blocks_length count offsets : Forall (fun b => length b = 6%nat) (index_blocks count offsets).
Proof.
  apply Forall_lookup. intros i b Hb. unfold index_blocks in Hb. rewrite list_lookup_imap in Hb.
  apply fmap_Some in Hb as (o & _ & ->). unfold index_entry.
  by rewrite length_app, !Bytes.length_to_le.
Qed.

(** The index of [preamble] is made of those blocks. *)
Lemma preamble_index count offsets :
  length offsets = S count ->
  concat (imap (fun i offset => index_entry (Z.of_nat i + 1) offset) (take count offsets)) ++
    index_entry 0 (default 0 (offsets !! count)) =
  concat (index_blocks count offsets).
Proof.
  intros Hlen. destruct (lookup_lt_is_Some_2 offsets count ltac:(lia)) as [o Ho].
  rewrite Ho. unfold index_blocks.
  rewrite <- (take_drop_middle _ _ _ Ho) at 2. rewrite imap_app, concat_app. cbn [imap concat].
  rewrite length_take, Nat.min_l by lia. rewrite decide_True by lia.
  rewrite (drop_ge offsets) by lia. cbn [imap concat]. rewrite app_nil_r. f_equal.
  f_equal. apply imap_ext. intros i x Hi. apply lookup_lt_Some in Hi. rewrite length_take in Hi.
  by rewrite decide_False by lia.
Qed.

Lemma index_offset_read count offsets p o :
  offsets !! p = Some o -> 0 <= o < 2 ^ 32 ->
  index_offset (concat (index_blocks count offsets)) p = o.
Proof.
  intros Hp Ho. unfold index_offset.
  assert (Hb : index_blocks count offsets !! p =
    Some (index_entry (if decide (p = count) then 0 else Z.of_nat p + 1) o)).
  { unfold index_blocks. by rewrite list_lookup_imap, Hp. }
  change 6 with (Z.of_nat 6).
  rewrite (slice_block 6 _ p _ 2 4 (index_blocks_length _ _) Hb) by (simpl; lia).
  unfold index_entry.
  change (Bytes.slice 2 4 (Bytes.to_le 2 _ ++ Bytes.to_le 4 o)) with (Bytes.to_le 4 o).
  apply Bytes.of_to_le. simpl. lia.
Qed.

(** ** Reading back what was written *)

Section roundtrip.
Context `{!JsonCodec} `{!Digest}.

Lemma read_entries_spec offsets es names pos acc :
  Forall2 (fun e n => (vget e "path" ≫= as_str) = Some n) es names -> NoDup names ->
  (pos + length names + 1 < length offsets)%nat ->
  exists m, read_entries offsets pos es acc = Ok m /\
    (forall i n a b, names !! i = Some n -> offsets !! (pos + i + 1)%nat = Some a ->
       offsets !! (pos + i + 2)%nat = Some b -> m !! n = Some (a, b - a)) /\
    (forall n, n ∉ names -> m !! n = acc !! n).
Proof.
  intros Hes. revert pos acc. induction Hes as [|e n es names Hen Hes IH]; intros pos acc Hnd Hlen.
  { exists acc. split; [done|]. split; [|done]. intros i n a b Hi. by rewrite lookup_nil in Hi. }
  apply NoDup_cons in Hnd as [Hnin Hnd]. cbn [length] in Hlen.
  destruct (lookup_lt_is_Some_2 offsets (pos + 1)%nat ltac:(lia)) as [a Ha].
  destruct (lookup_lt_is_Some_2 offsets (pos + 2)%nat ltac:(lia)) as [b Hb].
  destruct (IH (S pos) (<[n := (a, b - a)]> acc) Hnd ltac:(lia)) as (m & Hm & Hin & Hout).
  exists m. split; [|split].
  - cbn [read_entries]. rewrite Hen. cbn [ok_or]. unfold mbind, outcome_bind, index.
    rewrite Ha, Hb. exact Hm.
  - intros [|i] n' a' b' Hi Ha' Hb'; simpl in Hi.
    + injection Hi as <-. rewrite Nat.add_0_r in Ha', Hb'. rewrite (Hout n Hnin), lookup_insert_eq.
      congruence.
    + apply (Hin i n' a' b' Hi); [rewrite <- Ha'|rewrite <- Hb']; f_equal; lia.
  - intros n' Hn'. apply not_elem_of_cons in Hn' as [Hne Hn']. rewrite (Hout n' Hn').
    by rewrite lookup_insert_ne.
Qed.

(** The file a pack consists of. *)
Definition file_offsets (manifest : bytes) (contents : list bytes) : list Z :=
  accumulate (12 + (Z.of_nat (length contents) + 2) * 6) (Bytes.len manifest :: (Bytes.len <$> contents)).

Definition pack_file (manifest : bytes) (contents : list bytes) : bytes :=
  preamble (Z.of_nat (length contents) + 1) (file_offsets manifest contents) ++
  manifest ++ concat contents.

Lemma sizes_nonneg (l : list bytes) : Forall (fun n => 0 <= n) (Bytes.len <$> l).
Proof. apply Forall_fmap, Forall_true. intros x. apply Bytes.len_nonneg. Qed.

Lemma file_offsets_length manifest contents :
  length (file_offsets manifest contents) = S (S (length contents)).
Proof. unfold file_offsets. rewrite accumulate_length. simpl. by rewrite length_fmap. Qed.

Lemma length_concat_blocks (k : nat) (blocks : list bytes) :
  Forall (fun b => length b = k) blocks -> length (concat blocks) = (length blocks * k)%nat.
Proof. induction 1 as [|b blocks Hb _ IH]; [done|]. cbn [concat length]. rewrite length_app. lia. Qed.

(** Header, then the blocks of the index. *)
Lemma preamble_shape count offsets :
  length offsets = S count ->
  preamble (Z.of_nat count) offsets =
  (Bytes.to_le 4 5 ++ [0; 0; 0; 0] ++ Bytes.to_le 2 (Z.of_nat count) ++ Bytes.to_le 2 0) ++
  concat (index_blocks count offsets).
Proof.
  intros Hlen. rewrite <- (preamble_index count offsets Hlen). unfold preamble.
  rewrite Nat2Z.id. rewrite <- !app_assoc. done.
Qed.

Lemma preamble_len count offsets :
  length offsets = S count -> Bytes.len (preamble (Z.of_nat count) offsets) = 12 + (Z.of_nat count + 1) * 6.
Proof.
  intros Hlen. rewrite (preamble_shape count offsets Hlen). unfold Bytes.len.
  rewrite length_app, (length_concat_blocks 6) by apply index_blocks_length.
  unfold index_blocks. rewrite length_imap, Hlen, !length_app, !Bytes.length_to_le. simpl length. lia.
Qed.

Lemma len_concat (l : list bytes) : Bytes.len (concat l) = zsum id (Bytes.len <$> l).
Proof.
  induction l as [|x l IH]; [done|]. cbn [concat]. rewrite Bytes.len_app, IH. done.
Qed.

Lemma pack_file_len manifest contents :
  Some (Bytes.len (pack_file manifest contents)) = last (file_offsets manifest contents).
Proof.
  unfold pack_file, file_offsets. rewrite accumulate_last. f_equal.
  replace (Z.of_nat (length contents) + 1) with (Z.of_nat (S (length contents))) by lia.
  rewrite !Bytes.len_app, preamble_len, len_concat.
  - unfold zsum. simpl. unfold id. lia.
  - rewrite accumulate_length. simpl. by rewrite length_fmap.
Qed.

(** The [p]-th resource sits at its offset. *)
Lemma pack_file_slice manifest contents p c :
  contents !! p = Some c ->
  exists a b, file_offsets manifest contents !! (p + 1)%nat = Some a /\
    file_offsets manifest contents !! (p + 2)%nat = Some b /\ b - a = Bytes.len c /\
    Bytes.slice a (b - a) (pack_file manifest contents) = c.
Proof.
  intros Hp. pose proof (lookup_lt_Some _ _ _ Hp) as Hlt. unfold file_offsets.
  rewrite !accumulate_lookup by (simpl; rewrite length_fmap; lia).
  do 2 eexists. split; [reflexivity|]. split; [reflexivity|].
  replace (p + 1)%nat with (S p) by lia. replace (p + 2)%nat with (S (S p)) by lia. cbn [take].
  rewrite (take_S_r _ p (Bytes.len c)) by (by rewrite list_lookup_fmap, Hp).
  rewrite <- fmap_take. set (pre := take p contents).
  assert (Hz : forall l : list Z, zsum id (Bytes.len manifest :: l) = Bytes.len manifest + zsum id l) by done.
  rewrite !Hz, zsum_app. replace (zsum id [Bytes.len c]) with (Bytes.len c) by (unfold zsum; simpl; unfold id; lia).
  split; [lia|].
  assert (Hf : pack_file manifest contents =
    (preamble (Z.of_nat (length contents) + 1) (file_offsets manifest contents) ++ manifest ++ concat pre) ++
    c ++ concat (drop (S p) contents)).
  { unfold pack_file. rewrite <- (take_drop_middle _ _ _ Hp) at 3. fold pre.
    rewrite concat_app. cbn [concat]. by rewrite <- !app_assoc. }
  rewrite Hf. match goal with |- Bytes.slice ?o ?n (?x ++ _) = _ =>
    replace n with (Bytes.len c) by lia;
    replace o with (Bytes.len x); [apply Bytes.slice_middle|] end.
  replace (Z.of_nat (length contents) + 1) with (Z.of_nat (S (length contents))) by lia.
  rewrite !Bytes.len_app, preamble_len by apply file_offsets_length.
  unfold pre. rewrite len_concat. lia.
Qed.

(** *** Each step of the parser on such a file *)

Section parse.
Context (manifest : bytes) (contents : list bytes).
Let count : nat := S (length contents).
Let offs : list Z := file_offsets manifest contents.
Let file : bytes := pack_file manifest contents.
Hypothesis Hcount : Z.of_nat count <= 65535.
Hypothesis Hlimit : default 0 (last offs) <= 2 ^ 32 - 1.

Let header : bytes := Bytes.to_le 4 5 ++ [0; 0; 0; 0] ++ Bytes.to_le 2 (Z.of_nat count) ++ Bytes.to_le 2 0.
Let idx : bytes := concat (index_blocks count offs).

Lemma offs_length : length offs = S count.
Proof. apply file_offsets_length. Qed.

Lemma file_shape : file = header ++ idx ++ manifest ++ concat contents.
Proof.
  unfold file, pack_file. replace (Z.of_nat (length contents) + 1) with (Z.of_nat count) by (unfold count; lia).
  rewrite preamble_shape by apply offs_length. by rewrite <- !app_assoc.
Qed.

Lemma idx_len : Bytes.len idx = (Z.of_nat count + 1) * 6.
Proof.
  unfold idx, Bytes.len. rewrite (length_concat_blocks 6) by apply index_blocks_length.
  unfold index_blocks. rewrite length_imap, offs_length. lia.
Qed.

Lemma offs_bounds o : o ∈ offs -> 0 <= o < 2 ^ 32.
Proof.
  intros Ho. unfold offs, file_offsets in Ho.
  assert (Hn : Forall (fun n => 0 <= n) (Bytes.len manifest :: (Bytes.len <$> contents))).
  { constructor; [apply Bytes.len_nonneg|apply sizes_nonneg]. }
  apply accumulate_bounds in Ho; [|done]. unfold offs, file_offsets in Hlimit.
  rewrite accumulate_last in Hlimit. cbn [default from_option] in Hlimit.
  unfold id in Hlimit at 1. lia.
Qed.

Lemma read_header : read_exact 0 12 file = Ok header.
Proof.
  unfold read_exact. rewrite file_shape.
  pose proof (Bytes.slice_middle [] header (idx ++ manifest ++ concat contents)) as Hs.
  change (Bytes.len []) with 0 in Hs. change (Bytes.len header) with 12 in Hs.
  change ([] ++ header ++ idx ++ manifest ++ concat contents)
    with (header ++ idx ++ manifest ++ concat contents) in Hs.
  by rewrite Hs.
Qed.

Lemma header_count : Bytes.of_le (Bytes.slice 8 2 header) = Z.of_nat count.
Proof.
  change (Bytes.slice 8 2 header) with (Bytes.to_le 2 (Z.of_nat count)).
  apply Bytes.of_to_le. simpl. lia.
Qed.

Lemma read_index : read_exact 12 ((Z.of_nat count + 1) * 6) file = Ok idx.
Proof.
  unfold read_exact. rewrite file_shape.
  pose proof (Bytes.slice_middle header idx (manifest ++ concat contents)) as Hs.
  change (Bytes.len header) with 12 in Hs. rewrite idx_len in Hs. rewrite Hs, idx_len.
  by rewrite Z.eqb_refl.
Qed.

Lemma read_offsets : index_offset idx <$> seq 0 (Z.to_nat (Z.of_nat count) + 1) = offs.
Proof.
  rewrite Nat2Z.id, Nat.add_1_r. apply list_eq_same_length with (S count).
  - by rewrite offs_length.
  - by rewrite length_fmap, length_seq.
  - intros i x y Hi Hx Hy. rewrite list_lookup_fmap, lookup_seq_lt in Hx by done. simpl in Hx.
    injection Hx as <-. apply index_offset_read; [done|].
    apply offs_bounds. by eapply list_elem_of_lookup_2.
Qed.

Lemma read_manifest :
  exists o0 o1, offs !! 0%nat = Some o0 /\ offs !! 1%nat = Some o1 /\
    read_exact o0 (o1 - o0) file = Ok manifest.
Proof.
  unfold offs, file_offsets. do 2 eexists. split; [reflexivity|].
  split; [by rewrite accumulate_lookup by (simpl; lia)|]. unfold read_exact. rewrite file_shape.
  pose proof (Bytes.slice_middle (header ++ idx) manifest (concat contents)) as Hs.
  rewrite Bytes.len_app, idx_len in Hs. change (Bytes.len header) with 12 in Hs.
  rewrite <- app_assoc in Hs.
  match goal with |- context [Bytes.slice ?o ?n _] =>
    replace n with (Bytes.len manifest) by (unfold zsum; simpl; unfold id; lia);
    replace o with (12 + (Z.of_nat count + 1) * 6) by (unfold count; lia) end.
  by rewrite Hs, Z.eqb_refl.
Qed.

Lemma parse_pack_file v es :
  from_slice manifest = Some v -> vget v "entries" = Some (VArray es) -> length es = length contents ->
  parse_datapack_entries file = read_entries offs 0 es ∅.
Proof.
  intros Hv Hes Hlen. unfold parse_datapack_entries. rewrite read_header.
  unfold mbind, outcome_bind. change (Bytes.of_le (Bytes.slice 0 4 header) =? 5) with true.
  cbn [negb]. rewrite header_count. rewrite (proj2 (Z.ltb_ge _ 1)) by (unfold count; lia).
  rewrite read_index, read_offsets.
  assert (monotonic offs = true) as ->.
  { apply accumulate_monotonic. constructor; [apply Bytes.len_nonneg|apply sizes_nonneg]. }
  cbn [negb]. unfold offs at 1, file. rewrite <- pack_file_len. cbn [default].
  rewrite Z.gtb_ltb, Z.ltb_irrefl. fold file.
  destruct read_manifest as (o0 & o1 & H0' & H1' & Hm). unfold RustStd.index. rewrite H0', H1', Hm, Hv.
  cbn [ok_or]. rewrite Hes. cbn. rewrite Hlen.
  assert ((Z.of_nat (length contents) + 1 =? Z.of_nat count) = true) as -> by (apply Z.eqb_eq; unfold count; lia).
  done.
Qed.
End parse.

(** *** From the inputs to the file *)

(** The contents a resource is packed with. *)
Definition resolved (base : option base_pack) (changed : list string) (r : resource) (c : bytes) : Prop :=
  match base with
  | Some (file, entries) =>
      if path_matches_prefix r.1 changed then c = r.2
      else exists span, entries !! r.1 = Some span /\ c = Bytes.slice span.1 span.2 file /\
             Bytes.len c = span.2
  | None => c = r.2
  end.

Lemma source_bytes_Ok base changed r c n :
  source_bytes base changed r = Ok (c, n) -> n = Bytes.len c /\ resolved base changed r c.
Proof.
  unfold source_bytes, resolved. destruct base as [[file entries]|]; [|by intros [= <- <-]].
  destruct (path_matches_prefix r.1 changed); [by intros [= <- <-]|].
  destruct (entries !! r.1) as [span|]; [|done]. unfold mbind, outcome_bind. cbn [ok_or].
  destruct (_ =? _) eqn:Hn; [|done]. intros [= <- <-]. apply Z.eqb_eq in Hn. eauto.
Qed.

Lemma sources_Ok base changed rs srcs :
  sources base changed rs = Ok srcs ->
  srcs.*2 = Bytes.len <$> srcs.*1 /\ Forall2 (resolved base changed) rs srcs.*1.
Proof.
  revert srcs. induction rs as [|r rs IH]; intros srcs; cbn [sources].
  { intros [= <-]. split; [done|constructor]. }
  unfold mbind, outcome_bind. destruct (source_bytes base changed r) as [[c n]|e|] eqn:Hs; [|done..].
  destruct (sources base changed rs) as [ss|e|]; [|done..]. intros [= <-].
  destruct (IH ss eq_refl) as [IH1 IH2]. apply source_bytes_Ok in Hs as [-> Hr].
  split; [simpl; by f_equal|by constructor].
Qed.

Definition manifest_of (metadata : Value) (p : packed) (resources : list resource) : Value :=
  manifest_value (default [] (as_object metadata)) (content_hash p) resources.

Lemma pack_resources_Ok resources metadata base changed p :
  pack_resources resources metadata base changed = Ok p ->
  exists contents,
    Forall2 (resolved base changed) resources contents /\
    content_hash p = digest_hex (content_stream resources contents) /\
    output p = pack_file (to_vec (manifest_of metadata p resources)) contents /\
    Z.of_nat (S (length contents)) <= 65535 /\
    default 0 (last (file_offsets (to_vec (manifest_of metadata p resources)) contents)) <= 2 ^ 32 - 1.
Proof.
  unfold pack_resources. destruct (_ && _); [done|].
  destruct (_ >? 65535) eqn:Hcount; [done|]. unfold mbind, outcome_bind.
  destruct (sources base changed resources) as [srcs|e|] eqn:Hs; [|done..].
  apply sources_Ok in Hs as [Hsizes Hres]. pose proof (Forall2_length _ _ _ Hres) as Hlen.
  destruct (as_object metadata) as [fields|] eqn:Hmd; [|done]. cbn [ok_or].
  rewrite Hsizes. destruct (_ >? 2 ^ 32 - 1) eqn:Hlimit; [done|]. intros <-%(inj Ok).
  assert (Hshape : forall m, accumulate (12 + (Z.of_nat (length resources) + 1 + 1) * 6)
      (Bytes.len m :: (Bytes.len <$> srcs.*1)) = file_offsets m srcs.*1).
  { intros m. unfold file_offsets. rewrite Hlen. f_equal. lia. }
  rewrite Hshape in Hlimit. exists srcs.*1. unfold manifest_of. rewrite Hmd.
  cbn [content_hash output default from_option]. rewrite Hshape.
  split; [done|]. split; [done|]. split.
  - unfold pack_file. by rewrite Hlen.
  - split; [lia|]. rewrite Z.gtb_ltb in Hlimit. apply Z.ltb_ge in Hlimit. exact Hlimit.
Qed.

Lemma manifest_entries_paths rs :
  exists es, manifest_entries rs = VArray es /\
    Forall2 (fun e n => (vget e "path" ≫= as_str) = Some n) es rs.*1.
Proof.
  eexists. split; [reflexivity|]. apply Forall2_same_length_lookup_2.
  { by rewrite length_imap, length_fmap. }
  intros i e n He Hn. rewrite list_lookup_imap in He. rewrite list_lookup_fmap in Hn.
  destruct (rs !! i) as [r|]; simpl in He, Hn; [|done]. injection He as <-. injection Hn as <-.
  reflexivity.
Qed.

Lemma manifest_of_entries metadata p rs :
  vget (manifest_of metadata p rs) "entries" = Some (manifest_entries rs).
Proof. apply vget_insert_eq. Qed.

(** Packing and parsing, for resources with distinct paths. *)
Lemma pack_resources_parse resources metadata base changed p :
  pack_resources resources metadata base changed = Ok p -> NoDup resources.*1 ->
  from_slice (to_vec (manifest_of metadata p resources)) = Some (manifest_of metadata p resources) ->
  exists entries, parse_datapack_entries (output p) = Ok entries /\
    (forall r, r ∈ resources -> exists c span, resolved base changed r c /\
       entries !! r.1 = Some span /\ span.2 = Bytes.len c /\
       Bytes.slice span.1 span.2 (output p) = c) /\
    (forall name, is_Some (entries !! name) <-> name ∈ resources.*1).
Proof.
  intros Hpack Hnd Hcodec. apply pack_resources_Ok in Hpack as (contents & Hres & _ & Hout & Hc & Hl).
  destruct (manifest_entries_paths resources) as (es & Hes & Hpaths).
  pose proof (Forall2_length _ _ _ Hres) as Hlen. pose proof (Forall2_length _ _ _ Hpaths) as Hlen'.
  rewrite length_fmap in Hlen'. rewrite Hout.
  rewrite (parse_pack_file _ contents Hc Hl _ es Hcodec);
    [|by rewrite manifest_of_entries, Hes|by rewrite Hlen', Hlen].
  set (offs := file_offsets _ contents).
  destruct (read_entries_spec offs es resources.*1 0 ∅ Hpaths Hnd) as (m & Hm & Hin & Hnone).
  { unfold offs. rewrite file_offsets_length, length_fmap, Hlen. lia. }
  exists m. split; [exact Hm|]. 
  assert (Hspan : forall i r, resources !! i = Some r -> exists c span, resolved base changed r c /\
    m !! r.1 = Some span /\ span.2 = Bytes.len c /\
    Bytes.slice span.1 span.2 (pack_file (to_vec (manifest_of metadata p resources)) contents) = c).
  { intros i r Hi. destruct (Forall2_lookup_l _ _ _ _ _ Hres Hi) as (c & Hci & Hrc).
    destruct (pack_file_slice (to_vec (manifest_of metadata p resources)) contents i c Hci)
      as (a & b & Ha & Hb & Hab & Hs).
    exists c, (a, b - a). split; [done|]. split; [|done].
    apply (Hin i r.1 a b); [by rewrite list_lookup_fmap, Hi|exact Ha|exact Hb]. }
  split.
  - intros r [i Hi]%list_elem_of_lookup_1. by apply (Hspan i).
  - intros name. split.
    + intros [span Hsp]. destruct (decide (name ∈ resources.*1)) as [|Hn]; [done|].
      by rewrite (Hnone name Hn) in Hsp.
    + intros (r & -> & [i Hi]%list_elem_of_lookup_1)%list_elem_of_fmap.
      destruct (Hspan i r Hi) as (c & span & _ & Hsp & _). by exists span.
Qed.

(** *** Paths in order, none twice *)

#[local] Instance name_le_trans {A} : Transitive (@name_le A).
Proof. intros p q r. unfold name_le. apply (transitivity (R := String.le)). Qed.
#[local] Instance name_le_total {A} : Total (@name_le A).
Proof. intros p q. unfold name_le. apply (total String.le). Qed.

Lemma sorted_distinct (rs : list resource) :
  StronglySorted name_le rs -> duplicate_path rs = None -> NoDup rs.*1.
Proof.
  induction 1 as [|r rs Hs IH Hr]; intros Hd; [constructor|]. cbn [fmap list_fmap].
  apply NoDup_cons. destruct rs as [|r2 rs]; [split; [apply not_elem_of_nil|constructor]|].
  cbn [duplicate_path] in Hd. destruct (decide (r.1 = r2.1)) as [|Hne]; [done|].
  split; [|by apply IH]. intros (r' & Heq & Hin)%list_elem_of_fmap.
  assert (Hle2 : name_le r r2) by (by apply Forall_cons in Hr as [? _]).
  assert (Hle : name_le r2 r').
  { apply elem_of_cons in Hin as [->|Hin]; [by apply (reflexivity (R := String.le))|].
    apply StronglySorted_inv in Hs as [_ Hs]. rewrite Forall_forall in Hs. by apply Hs. }
  apply Hne. unfold name_le in *. rewrite <- Heq in Hle. by apply (anti_symm String.le).
Qed.

Lemma pack_chromium_datapack_Ok root trees out metadata base digest changed p :
  pack_chromium_datapack root trees out metadata base digest changed = Ok p ->
  exists collected b, collect_all root trees = Ok collected /\
    NoDup (merge_sort name_le collected).*1 /\
    open_base base digest = Ok b /\
    pack_resources (merge_sort name_le collected) metadata b changed = Ok p.
Proof.
  unfold pack_chromium_datapack, mbind, outcome_bind.
  destruct (validate_relative out) as [[]|e|]; [|done..].
  destruct (collect_all root trees) as [collected|e|]; [|done..].
  destruct (duplicate_path _) eqn:Hd; [done|]. case_decide; [done|].
  destruct (open_base base digest) as [b|e|]; [|done..]. intros Hp. exists collected, b.
  split_and!; try done. apply sorted_distinct; [|done]. apply (StronglySorted_merge_sort name_le).
Qed.

(** *** Incremental packing *)

Lemma sources_incremental file entries changed rs :
  (forall r, r ∈ rs -> path_matches_prefix r.1 changed = false ->
     exists span, entries !! r.1 = Some span /\ Bytes.slice span.1 span.2 file = r.2 /\
       span.2 = Bytes.len r.2) ->
  sources (Some (file, entries)) changed rs = sources None [] rs.
Proof.
  induction rs as [|r rs IH]; intros Hrs; [done|]. cbn [sources].
  assert (source_bytes (Some (file, entries)) changed r = source_bytes None [] r) as ->.
  { unfold source_bytes. destruct (path_matches_prefix r.1 changed) eqn:Hm; [done|].
    destruct (Hrs r) as (span & Hsp & Hsl & Hlen); [by left|done|]. rewrite Hsp.
    unfold mbind, outcome_bind. cbn [ok_or]. by rewrite Hsl, Hlen, Z.eqb_refl. }
  unfold mbind, outcome_bind. rewrite IH; [done|]. intros r' Hr'. apply Hrs. by right.
Qed.

Lemma pack_resources_incremental file entries changed rs metadata p :
  changed <> [] -> sources (Some (file, entries)) changed rs = sources None [] rs ->
  pack_resources rs metadata None [] = Ok p ->
  pack_resources rs metadata (Some (file, entries)) changed =
  Ok (Packed (output p) (resource_total p) (entry_total p) (content_hash p) true).
Proof.
  intros Hch Hsrc. unfold pack_resources.
  rewrite (bool_decide_eq_false_2 (changed = [])) by done. rewrite andb_false_r, Hsrc.
  rewrite (bool_decide_eq_false_2 (is_Some None)) by (by intros []). cbn [andb].
  destruct (_ >? 65535); [done|]. unfold mbind, outcome_bind.
  destruct (sources None [] rs) as [srcs|e|]; [|done..].
  destruct (as_object metadata) as [fields|]; [|done]. cbn [ok_or].
  destruct (_ >? 2 ^ 32 - 1); [done|]. intros <-%(inj Ok).
  by rewrite (bool_decide_eq_true_2 (is_Some (Some (file, entries)))) by done.
Qed.

(** ** What a pack promises *)

(** C23. Packing and parsing agree.  When a pack is written and its manifest
    survives the JSON codec, the parser accepts the file and finds exactly the
    packed paths; every entry's span of the file holds the contents the
    resource was packed with (its own, or those of the base pack for a path
    outside the changed prefixes); and the file stays below the 4 GiB the
    32-bit offsets can address. *)
Theorem datapack_roundtrip root trees out metadata base digest changed p resources :
  pack_chromium_datapack root trees out metadata base digest changed = Ok p ->
  collect_all root trees = Ok resources ->
  let sorted := merge_sort name_le resources in
  from_slice (to_vec (manifest_of metadata p sorted)) = Some (manifest_of metadata p sorted) ->
  exists entries b, parse_datapack_entries (output p) = Ok entries /\ open_base base digest = Ok b /\
    (forall name, is_Some (entries !! name) <-> name ∈ resources.*1) /\
    (forall r, r ∈ resources -> exists c span, resolved b changed r c /\
       entries !! r.1 = Some span /\ Bytes.slice span.1 span.2 (output p) = c) /\
    Bytes.len (output p) <= 2 ^ 32 - 1.
Proof.
  intros (rs & b & Hrs & Hnd & Hb & Hp)%pack_chromium_datapack_Ok Hcol sorted Hcodec.
  rewrite Hcol in Hrs. apply (inj Ok) in Hrs as <-. fold sorted in Hnd, Hp.
  assert (Hperm : sorted ≡ₚ resources) by apply merge_sort_Permutation.
  destruct (pack_resources_parse _ _ _ _ _ Hp Hnd Hcodec) as (entries & Hparse & Hin & Hdom).
  exists entries, b. split_and!; try done.
  - intros name. by rewrite Hdom, Hperm.
  - intros r Hr. rewrite <- Hperm in Hr. destruct (Hin r Hr) as (c & span & H1 & H2 & _ & H3).
    by exists c, span.
  - apply pack_resources_Ok in Hp as (contents & _ & _ & -> & _ & Hl).
    pose proof (pack_file_len (to_vec (manifest_of metadata p sorted)) contents) as Hlen.
    by rewrite <- Hlen in Hl.
Qed.

(** An incremental pack is the full pack.  Let the base be a full pack of
    [old], and let every resource outside the changed prefixes be one of [old],
    contents included.  Then packing incrementally, which copies those
    resources from the base file instead of reading them, gives the very bytes
    and content hash of a full pack. *)
Theorem incremental_pack_is_full_pack old old_metadata pold new metadata pnew changed :
  pack_resources old old_metadata None [] = Ok pold -> NoDup old.*1 ->
  from_slice (to_vec (manifest_of old_metadata pold old)) = Some (manifest_of old_metadata pold old) ->
  pack_resources new metadata None [] = Ok pnew ->
  changed <> [] ->
  (forall r, r ∈ new -> path_matches_prefix r.1 changed = false -> r ∈ old) ->
  exists entries, parse_datapack_entries (output pold) = Ok entries /\
    pack_resources new metadata (Some (output pold, entries)) changed =
    Ok (Packed (output pnew) (resource_total pnew) (entry_total pnew) (content_hash pnew) true).
Proof.
  intros Hold Hnd Hcodec Hnew Hch Hsame.
  destruct (pack_resources_parse _ _ _ _ _ Hold Hnd Hcodec) as (entries & Hparse & Hin & _).
  exists entries. split; [exact Hparse|]. apply pack_resources_incremental; try done.
  apply sources_incremental. intros r Hr Hm.
  destruct (Hin r (Hsame r Hr Hm)) as (c & span & Hc & Hsp & Hlen & Hsl). simpl in Hc. subst c.
  by exists span.
Qed.

End roundtrip.

(** ** Witnesses *)

Section witnesses.
#[local] Instance sample_digest : Digest := fun b => pretty (Bytes.len b).

Definition sample_root : tree :=
  Dir [("res", Dir [("b.txt", File [7; 8]); ("a", Dir [("x.js", File [1; 2; 3]); ("x.js.map", File [9])])])].
Definition sample_trees : list ResourceTree.t := [ResourceTree.mk "res" "ui" true []].
Definition sample_resources : list resource := [("ui/a/x.js", [1; 2; 3]); ("ui/b.txt", [7; 8])].

(** A codec that knows one document. *)
Definition codec_for (v : Value) : JsonCodec := {| to_vec _ := [123; 125]; from_slice _ := Some v |}.

Definition sample_codec : JsonCodec :=
  codec_for (manifest_value [] (pretty (Bytes.len (content_stream sample_resources sample_resources.*2)))
               sample_resources).

Definition sample_pack : packed :=
  match pack_chromium_datapack (H := sample_codec) sample_root sample_trees "out/app.pak" (VObject []) None None [] with
  | Ok p => p | _ => Packed [] 0 0 "" false end.

Lemma datapack_roundtrip_witness :
  collect_all sample_root sample_trees = Ok sample_resources /\
  exists entries, parse_datapack_entries (H := sample_codec) (output sample_pack) = Ok entries /\
    is_Some (entries !! "ui/b.txt").
Proof.
  split; [vm_compute; reflexivity|].
  destruct (datapack_roundtrip (H := sample_codec) sample_root sample_trees "out/app.pak" (VObject [])
    None None [] sample_pack sample_resources) as (entries & b & H1 & _ & H2 & _).
  - vm_compute. reflexivity.
  - vm_compute. reflexivity.
  - vm_compute. reflexivity.
  - exists entries. split; [exact H1|]. apply H2. right. left.
Defined.

(** One file of the tree has changed. *)
Definition changed_resources : list resource := [("ui/a/x.js", [4]); ("ui/b.txt", [7; 8])].
Definition changed_pack : packed :=
  match pack_resources (H := sample_codec) changed_resources (VObject []) None [] with
  | Ok p => p | _ => sample_pack end.

Lemma incremental_pack_is_full_pack_witness :
  exists entries,
    pack_resources (H := sample_codec) changed_resources (VObject [])
      (Some (output sample_pack, entries)) ["ui/a"] =
    Ok (Packed (output changed_pack) 3 2 (content_hash changed_pack) true).
Proof.
  destruct (incremental_pack_is_full_pack (H := sample_codec) sample_resources (VObject []) sample_pack
    changed_resources (VObject []) changed_pack ["ui/a"]) as (entries & _ & Hpack).
  - vm_compute. reflexivity.
  - apply (bool_decide_unpack _). vm_compute. exact I.
  - vm_compute. reflexivity.
  - vm_compute. reflexivity.
  - discriminate.
  - intros r [->|[->|Hr]%elem_of_cons]%elem_of_cons Hm.
    + vm_compute in Hm. discriminate.
    + right. left.
    + by apply not_elem_of_nil in Hr.
  - exists entries. exact Hpack.
Defined.
End witnesses.

End DataPack.
