(* ===== verification/Deployments.v ===== *)
(** * Generations of an application ([crates/workbench-runtime/src/generation.rs])

    A deployment root holds [generations/<id>], each a copy of a baseline with a
    marker [generation.json], and the links [current] and [previous].  Here are
    the four operations of the lifecycle (materialise, apply overlays, record a
    state, activate) and the arms of the executor that call them, over a [Disk]. *)

From Stdlib Require Import Ascii String.
From S2P Require Import Prelude RustStd RustText Json Protocol Schema Leases Contracts.
From S2P Require Import Controller Catalog Samples Arbitration Enforcement Confinement Commands Disk Copies Files Packs.

Module Deployments.
Import FsPath Confinement Commands Disk Copies Files.

(** [serde_json::from_slice] and [serde_json::to_vec_pretty]. *)
Class JsonText := {
  from_slice : string -> string + Value;
  to_vec_pretty : Value -> string;
}.

Module Stats.
Record t := mk { clone_hits : Z; link_hits : Z; copied_files : Z; copied_bytes : Z }.
Definition default : t := mk 0 0 0 0.
End Stats.

Module MaterializedGeneration.
Record t := mk {
  generation_id : string;
  root : path;
  application_path : path;
  marker_path : path;
  created_at : Z;
  derived_from : option string;
  stats : Stats.t;
}.
Definition to_value (g : t) : Value := json_object [
  ("generationId", VString (generation_id g));
  ("root", path_value (root g));
  ("applicationPath", path_value (application_path g));
  ("markerPath", path_value (marker_path g));
  ("createdAt", vnat (created_at g));
  ("derivedFrom", vopt VString (derived_from g));
  ("cloneHits", vnat (Stats.clone_hits (stats g)));
  ("linkHits", vnat (Stats.link_hits (stats g)));
  ("copiedFiles", vnat (Stats.copied_files (stats g)));
  ("copiedBytes", vnat (Stats.copied_bytes (stats g)))].
End MaterializedGeneration.

Module Overlay.
Record t := mk { source : string; target_relative_path : string; replace : bool }.
Definition from (o : t) (source : string) : t := mk source (target_relative_path o) (replace o).
End Overlay.

Definition MATERIALIZE_FAILED : string := "MATERIALIZE_FAILED".
Definition CREATE_FAILED : string := "GENERATION_CREATE_FAILED".
Definition INVALID : string := "GENERATION_INVALID".
Definition UPDATE_FAILED : string := "GENERATION_UPDATE_FAILED".
Definition ACTIVATION_FAILED : string := "ACTIVATION_FAILED".
Definition APPLY_FAILED : string := "OVERLAY_APPLY_FAILED".
Definition REPLACE_FAILED : string := "OVERLAY_REPLACE_FAILED".

Definition id_byte (c : ascii) : bool := Str.is_alphanumeric c || bool_decide (c ∈ ["-"; "_"; "."]%char).
Definition validate_generation_id (value : string) : outcome RpcError.t unit :=
  if Str.is_empty value || (Str.len value >? 128) || negb (Str.all id_byte value)
  then Err (RpcError.new "INVALID_GENERATION_ID" "generation ID must be a safe path component")
  else Ok tt.

(** [path.join(text)] *)
Definition join_text (p : path) (text : string) : path :=
  if FsPath.is_absolute text then components text
  else p ++ bfilter (fun c => negb (bool_decide (c = CurDir))) (components text).

(** [path.extension()] *)
Definition extension (p : path) : option string :=
  name ← file_name p;
  '(stem, ext) ← Text8.rsplit_once "." name;
  if Str.is_empty stem then None else Some ext.

(** One of a few places. *)
Ltac pick :=
  intros; repeat match goal with h : _ ∈ _ :: _ |- _ => apply elem_of_cons in h as [h|h] end;
  try match goal with h : _ ∈ [] |- _ => by apply not_elem_of_nil in h end;
  subst; repeat first [by left|right].

Section deployments.
Context `{!JsonText, !Serde (list Overlay.t)}.
Variables (r : roots) (auth : Fences.host) (cwd : list string) (process_id : Z) (other_len : node -> Z).
(** The platform, and the executor's [application_roots]. *)
Variables (os : Catalog.target_os) (application_roots : list path).

Abbreviation path_param := (path_param r auth cwd).
Abbreviation exists_on := (exists_on cwd).
Abbreviation dir_on := (dir_on cwd).

(** [path.is_symlink()] *)
Definition symlink_on (root : node) (p : path) : bool := from_option is_link false (symlink_metadata cwd root p).
Definition occupied (root : node) (p : path) : bool := exists_on root p || symlink_on root p.

(** ** Copying a baseline *)

Definition copy_permissions (target : path) : handler unit :=
  call MATERIALIZE_FAILED target (fun root => _ ← metadata cwd root target; Some root).

(** Whether the file was cloned. *)
Definition clone_or_copy (source target : path) : handler bool :=
  cloned ← (if decide (os = Catalog.MacOs) then attempt (clonefile cwd source target) else mret false);
  if (cloned : bool) then mret true
  else _ ← fs_copy cwd MATERIALIZE_FAILED target source target; mret false.

Definition clone_link_or_copy (source target : path) (stats : Stats.t) : handler Stats.t :=
  root ← get;
  n ← lift (ok_or (io_error MATERIALIZE_FAILED (display source)) (metadata cwd root source));
  let size := len other_len n in
  cloned ← clone_or_copy source target;
  mret (let '(Stats.mk clones links files bytes) := stats in
        if (cloned : bool) then Stats.mk (clones + 1) links files bytes
        else Stats.mk clones links (files + 1) (bytes + size)).

Fixpoint copy_children (deeper : path -> path -> Stats.t -> handler Stats.t) (source target : path)
    (names : list string) (stats : Stats.t) : handler Stats.t :=
  match names with
  | [] => mret stats
  | name :: names' =>
      stats' ← deeper (join source name) (join target name) stats;
      copy_children deeper source target names' stats'
  end.

(** [fs::read_dir], with the names in the order of the disk. *)
Definition read_dir (code : string) (p : path) : handler (list string) :=
  root ← get;
  match metadata cwd root p with
  | Some (Dir es) => mret es.*1
  | _ => throw (io_error code (display p))
  end.

(** One entry; [deeper] copies what is in a directory. *)
Definition copy_entry (deeper : path -> path -> Stats.t -> handler Stats.t) (source target : path) (stats : Stats.t) :
    handler Stats.t :=
  root ← get;
  n ← lift (ok_or (io_error MATERIALIZE_FAILED (display source)) (symlink_metadata cwd root source));
  match n with
  | Link text =>
      _ ← (if occupied root target then call MATERIALIZE_FAILED target (unlink cwd target) else mret tt);
      _ ← call MATERIALIZE_FAILED target (symlink cwd text target);
      mret stats
  | Dir _ =>
      _ ← create_dir_all cwd MATERIALIZE_FAILED target;
      _ ← copy_permissions target;
      names ← read_dir MATERIALIZE_FAILED source;
      copy_children deeper source target names stats
  | File _ =>
      _ ← match parent target with Some above => create_dir_all cwd MATERIALIZE_FAILED above | None => mret tt end;
      stats' ← clone_link_or_copy source target stats;
      _ ← copy_permissions target;
      mret stats'
  | Special => throw (RpcError.new MATERIALIZE_FAILED ("unsupported baseline entry: " +:+ display source))
  end.

(** [fuel] bounds the depth of the source. *)
Fixpoint copy_tree (fuel : nat) : path -> path -> Stats.t -> handler Stats.t :=
  copy_entry (match fuel with S fuel' => copy_tree fuel' | O => fun _ _ _ => lift Panic end).

(** ** Materialising *)

Definition marker_name : string := "generation.json".
Definition generations_path (generation_root : path) : path := join generation_root "generations".
Definition generation_path (generation_root : path) (generation_id : string) : path :=
  join_text (generations_path generation_root) generation_id.

Definition marker_at (root : node) (p : path) : outcome RpcError.t Value :=
  match metadata cwd root p with
  | Some (File text) =>
      match from_slice text with
      | inl message => Err (RpcError.new INVALID message)
      | inr marker => Ok marker
      end
  | _ => Err (io_error INVALID (display p))
  end.
Definition read_marker (p : path) : handler Value := root ← get; lift (marker_at root p).

Definition marker_u64 (marker : Value) (key : string) : Z := default 0 (vget marker key ≫= as_u64).
Definition reused (generation_id : string) (place : path) (marker : Value) : MaterializedGeneration.t := {|
  MaterializedGeneration.generation_id := generation_id;
  MaterializedGeneration.root := place;
  MaterializedGeneration.application_path :=
    join_text place (default "application" (vget marker "applicationName" ≫= as_str));
  MaterializedGeneration.marker_path := join place marker_name;
  MaterializedGeneration.created_at := marker_u64 marker "createdAt";
  MaterializedGeneration.derived_from := vget marker "derivedFrom" ≫= as_str;
  MaterializedGeneration.stats := Stats.mk (marker_u64 marker "cloneHits") (marker_u64 marker "linkHits")
    (marker_u64 marker "copiedFiles") (marker_u64 marker "copiedBytes");
|}.

Definition application_name (baseline_name : string) : string :=
  match Str.find ".app" baseline_name with
  | Some position => Str.take (position + 4) baseline_name
  | None => baseline_name
  end.

Definition failed_marker (generation_id : string) (e : RpcError.t) (created_at : Z) : Value := json_object [
  ("generationId", VString generation_id);
  ("state", VString "failed");
  ("error", VString (RpcError.message e));
  ("createdAt", vnat created_at)].
Definition materialized_marker (generation_id name : string) (baseline : path) (derived_from : option string)
    (stats : Stats.t) (created_at : Z) : Value := json_object [
  ("generationId", VString generation_id);
  ("state", VString "materialized");
  ("applicationName", VString name);
  ("baseline", path_value baseline);
  ("derivedFrom", vopt VString derived_from);
  ("cloneHits", vnat (Stats.clone_hits stats));
  ("linkHits", vnat (Stats.link_hits stats));
  ("copiedFiles", vnat (Stats.copied_files stats));
  ("copiedBytes", vnat (Stats.copied_bytes stats));
  ("createdAt", vnat created_at)].

Definition temporary_generation (generation_root : path) (generation_id : string) : path :=
  join (generations_path generation_root) ("." +:+ generation_id +:+ "." +:+ pretty process_id +:+ ".tmp").

(** What is done when no generation of that name is there. *)
Definition materialize_new (fuel : nat) (generation_root : path) (generation_id : string) (baseline : path)
    (derived_from : option string) : handler MaterializedGeneration.t :=
  let place := generation_path generation_root generation_id in
  let temporary := temporary_generation generation_root generation_id in
  _ ← call CREATE_FAILED temporary (mkdir cwd temporary);
  baseline_name ← lift (ok_or (RpcError.new "BASELINE_INVALID" "baseline has no UTF-8 name") (file_name baseline));
  let name := application_name baseline_name in
  copied ← caught (copy_tree fuel baseline (join_text temporary name) Stats.default);
  match copied with
  | inl e =>
      n ← now;
      _ ← ignored (write_file cwd CREATE_FAILED (join temporary marker_name) (to_vec_pretty (failed_marker generation_id e n)));
      _ ← ignored (call CREATE_FAILED place (rename cwd temporary place));
      throw e
  | inr stats =>
      n ← now;
      _ ← write_file cwd CREATE_FAILED (join temporary marker_name)
            (to_vec_pretty (materialized_marker generation_id name baseline derived_from stats n));
      _ ← call CREATE_FAILED place (rename cwd temporary place);
      mret {| MaterializedGeneration.generation_id := generation_id;
              MaterializedGeneration.root := place;
              MaterializedGeneration.application_path := join_text place name;
              MaterializedGeneration.marker_path := join place marker_name;
              MaterializedGeneration.created_at := n;
              MaterializedGeneration.derived_from := derived_from;
              MaterializedGeneration.stats := stats |}
  end.

Definition materialize_derived (fuel : nat) (generation_root : path) (generation_id : string) (baseline : path)
    (derived_from : option string) : handler MaterializedGeneration.t :=
  _ ← lift (validate_generation_id generation_id);
  _ ← guard (negb (bool_decide (file_name generation_root = Some "generations")))
        (RpcError.new "INVALID_GENERATION_ROOT"
           "generationRoot is the deployment root; do not include the trailing generations directory");
  _ ← create_dir_all cwd CREATE_FAILED (generations_path generation_root);
  let place := generation_path generation_root generation_id in
  root ← get;
  if exists_on root place then
    marker ← read_marker (join place marker_name);
    if decide (vget marker "state" ≫= as_str = Some "materialized") then mret (reused generation_id place marker)
    else throw (RpcError.new "GENERATION_EXISTS" ("generation already exists but is not reusable: " +:+ generation_id))
  else materialize_new fuel generation_root generation_id baseline derived_from.

(** ** Overlays *)

Definition overlay_name (n : Z) (suffix : string) : string :=
  ".overlay." +:+ pretty process_id +:+ "." +:+ pretty n +:+ suffix.

(** The staged tree takes the place of the target. *)
Definition replace_target (parent_path temporary target : path) : handler unit :=
  root ← get;
  if occupied root target then
    n ← now;
    let old := join parent_path (overlay_name n ".old") in
    _ ← call REPLACE_FAILED target (rename cwd target old);
    moved ← attempt (rename cwd temporary target);
    if (moved : bool) then
      root ← get;
      if dir_on root old then or_error (io_error REPLACE_FAILED (display target)) (remove_dir_all cwd REPLACE_FAILED old)
      else call REPLACE_FAILED target (unlink cwd old)
    else
      _ ← attempt (rename cwd old target);
      throw (io_error REPLACE_FAILED (display target))
  else call REPLACE_FAILED target (rename cwd temporary target).

Definition install_overlay (fuel : nat) (source target : path) : handler unit :=
  parent_path ← lift (ok_or (RpcError.new APPLY_FAILED "overlay target has no parent") (parent target));
  _ ← create_dir_all cwd APPLY_FAILED parent_path;
  n ← now;
  let temporary := join parent_path (overlay_name n ".tmp") in
  _ ← copy_tree fuel source temporary Stats.default;
  replace_target parent_path temporary target.

Fixpoint merge_children (deeper : path -> path -> handler unit) (source target : path) (names : list string) : handler unit :=
  match names with
  | [] => mret tt
  | name :: names' => _ ← deeper (join source name) (join target name); merge_children deeper source target names'
  end.

Fixpoint apply_overlay_tree (fuel : nat) (source target : path) (replace : bool) : handler unit :=
  root ← get;
  n ← lift (ok_or (io_error APPLY_FAILED (display source)) (symlink_metadata cwd root source));
  if is_dir n && negb replace then
    _ ← create_dir_all cwd APPLY_FAILED target;
    names ← read_dir APPLY_FAILED source;
    merge_children (fun s t => match fuel with S fuel' => apply_overlay_tree fuel' s t false | O => lift Panic end)
      source target names
  else install_overlay fuel source target.

Definition applied_value (o : Overlay.t) (target : path) : Value :=
  json_object [("source", VString (Overlay.source o)); ("target", path_value target); ("replace", VBool (Overlay.replace o))].
Fixpoint apply_each (fuel : nat) (application_path : path) (overlays : list Overlay.t) : handler (list Value) :=
  match overlays with
  | [] => mret []
  | o :: overlays' =>
      _ ← lift (DataPack.validate_relative (Overlay.target_relative_path o));
      let target := join_text application_path (Overlay.target_relative_path o) in
      _ ← apply_overlay_tree fuel (components (Overlay.source o)) target (Overlay.replace o);
      applied ← apply_each fuel application_path overlays';
      mret (applied_value o target :: applied)
  end.
Definition apply_overlays (fuel : nat) (application_path : path) (overlays : list Overlay.t) : handler Value :=
  applied ← apply_each fuel application_path overlays;
  mret (json_object [("applied", VArray applied)]).

(** ** Recording a state *)

Definition STATES : list string :=
  ["materialized"; "applied"; "validated"; "finalized"; "smoke-passed"; "ready"; "active"; "failed"].

Definition temporary_marker (marker_path : path) : path :=
  with_extension marker_path ("json." +:+ pretty process_id +:+ ".tmp").

Definition record_state (generation_root : path) (generation_id state : string) (evidence : Value) : handler Value :=
  _ ← lift (validate_generation_id generation_id);
  _ ← guard (bool_decide (state ∈ STATES))
        (RpcError.new "INVALID_GENERATION_STATE" ("unsupported generation state: " +:+ state));
  let marker_path := join (generation_path generation_root generation_id) marker_name in
  marker ← read_marker marker_path;
  marker ← lift (expect (vset marker "state" (VString state)));
  n ← now;
  marker ← lift (expect (vset marker "updatedAt" (vnat n)));
  marker ← lift (expect (vset marker "evidence" evidence));
  _ ← write_file cwd UPDATE_FAILED (temporary_marker marker_path) (to_vec_pretty marker);
  _ ← call UPDATE_FAILED marker_path (rename cwd (temporary_marker marker_path) marker_path);
  mret marker.

(** ** Activation *)

Definition read_link (root : node) (p : path) : option string :=
  match symlink_metadata cwd root p with Some (Link text) => Some text | _ => None end.

Definition generation_link (generation_id : string) : string := "generations/" +:+ generation_id.
Definition next_link (generation_root : path) (word : string) : path :=
  join generation_root ("." +:+ word +:+ "." +:+ pretty process_id +:+ ".tmp").

(** The link [word] of the deployment root is made to show [text]. *)
Definition switch_link (generation_root : path) (word text : string) : handler unit :=
  let next := next_link generation_root word in
  let link := join generation_root word in
  _ ← call ACTIVATION_FAILED next (symlink cwd text next);
  call ACTIVATION_FAILED link (rename cwd next link).

Definition activate (generation_root : path) (generation_id : string) : handler Value :=
  _ ← lift (validate_generation_id generation_id);
  let marker_path := join (generation_path generation_root generation_id) marker_name in
  root ← get;
  _ ← guard (from_option is_file false (metadata cwd root marker_path))
        (RpcError.new "GENERATION_NOT_READY" ("generation has no marker: " +:+ generation_id));
  marker ← read_marker marker_path;
  _ ← guard (bool_decide (vget marker "state" ≫= as_str = Some "ready"))
        (RpcError.new "GENERATION_NOT_READY"
           ("generation state is " +:+ default "unknown" (vget marker "state" ≫= as_str) +:+ ", expected ready"));
  _ ← create_dir_all cwd ACTIVATION_FAILED generation_root;
  root ← get;
  let old_target := read_link root (join generation_root "current") in
  let next := next_link generation_root "current" in
  _ ← (if exists_on root next then call ACTIVATION_FAILED next (unlink cwd next) else mret tt);
  _ ← switch_link generation_root "current" (generation_link generation_id);
  _ ← match old_target with
      | Some old =>
          _ ← attempt (unlink cwd (next_link generation_root "previous"));
          switch_link generation_root "previous" old
      | None => mret tt
      end;
  n ← now;
  mret (json_object [("generationId", VString generation_id); ("current", path_value (join generation_root "current"));
                     ("previous", vopt VString old_target); ("activatedAt", vnat n)]).

(** ** The arms of the executor *)

Definition allowed_application_path (root : node) (p : path) : bool :=
  within (allowed_roots r) p ||
  within application_roots p &&
    (bool_decide (os = Catalog.Windows) && from_option is_file false (metadata cwd root p) &&
       bool_decide (Str.to_ascii_lowercase <$> extension p = Some "exe") ||
     bool_decide (os = Catalog.MacOs) && dir_on root p && bool_decide (extension p = Some "app")) ||
  bool_decide (os = Catalog.MacOs) && bool_decide (parent p = Some (absolute ["Applications"])) && bool_decide (extension p = Some "app").

Definition readable_application_path (params : Value) (key : string) : handler path :=
  raw ← lift (required_str params key);
  root ← get;
  checked ← lift (ok_or (io_error "PATH_INVALID" raw) (canonicalize (FileSystem := mounted cwd root) (components raw)));
  if allowed_application_path root checked then mret checked
  else _ ← lift (validate_read_grant auth params checked "filesystem.read"); mret checked.

Definition application_materialize (fuel : nat) (params : Value) : handler Value :=
  generation_root ← path_param params "generationRoot" false;
  baseline ← readable_application_path params "baselinePath";
  generation_id ← lift (required_str params "generationId");
  generation ← materialize_derived fuel generation_root generation_id baseline (str_param params "derivedFrom");
  mret (MaterializedGeneration.to_value generation).

Fixpoint resolve_sources (overlays : list Overlay.t) : handler (list Overlay.t) :=
  match overlays with
  | [] => mret []
  | o :: overlays' =>
      source ← path_param (json_object [("path", VString (Overlay.source o))]) "path" true;
      resolved ← resolve_sources overlays';
      mret (Overlay.from o (display source) :: resolved)
  end.
Definition application_apply_artifacts (fuel : nat) (params : Value) : handler Value :=
  application_path ← path_param params "applicationPath" true;
  given ← lift (ok_or (invalid_params "overlays are required") (vget params "overlays"));
  overlays ← lift (map_err invalid_params (from_value given));
  resolved ← resolve_sources overlays;
  apply_overlays fuel application_path resolved.

Definition application_record (params : Value) : handler Value :=
  generation_root ← path_param params "generationRoot" true;
  evidence ← lift (let evidence := default (VObject []) (vget params "evidence") in
                   match vget params "runtimeMarker" with
                   | Some marker => expect (vset evidence "runtimeMarker" marker)
                   | None => Ok evidence
                   end);
  generation_id ← lift (required_str params "generationId");
  state ← lift (required_str params "state");
  record_state generation_root generation_id state evidence.

Definition application_activate (params : Value) : handler Value :=
  generation_root ← path_param params "generationRoot" true;
  generation_id ← lift (required_str params "generationId");
  activate generation_root generation_id.

(** ** Directories without links on the way *)

Lemma plain_linkless root ns : plain root ns -> linkless root ns.
Proof.
  intros [Hd Hl] p t [s ->] Hv. unfold view in Hv. destruct (at_ root p) as [[| |u|]|] eqn:Hat; try done.
  destruct s as [|x s]; [rewrite app_nil_r in Hl; by apply (Hl u)|].
  specialize (Hd p x s eq_refl). unfold dir_at in Hd. by rewrite Hat in Hd.
Qed.
Lemma dir_linkless root ns : dir_at root ns = true -> linkless root ns.
Proof. intros Hd. by apply plain_linkless, dir_plain. Qed.
Lemma there_linkless root ns n : at_ root ns = Some n -> is_link n = false -> linkless root ns.
Proof. intros Hn Hk. by eapply plain_linkless, plain_at. Qed.
Lemma dir_kept places root root' ns :
  agrees_outside places root root' -> (forall p, p ∈ places -> ~ p `prefix_of` ns) -> dir_at root ns = true -> dir_at root' ns = true.
Proof. intros Ha Hp. rewrite !dir_view. intros <-. by apply Ha. Qed.

Lemma agrees_more places places' root root' :
  agrees_outside places root root' -> (forall p, p ∈ places -> p ∈ places') -> agrees_outside places' root root'.
Proof. intros Ha Hp q Hq. apply Ha. intros p Hin. by apply Hq, Hp. Qed.
Lemma snoc_not_above (ns : list string) (x : string) : ~ (ns ++ [x]) `prefix_of` ns.
Proof. intros Hp%prefix_length. rewrite length_app in Hp. simpl in Hp. lia. Qed.
Lemma names_apart_below (ns : list string) (x y : string) (z : list string) : x <> y -> ~ (ns ++ [x]) `prefix_of` (ns ++ y :: z).
Proof. intros Hne [s Hs]. rewrite <- app_assoc in Hs. apply app_inv_head in Hs. by injection Hs. Qed.

Lemma symlink_in root root' ns x text :
  dir_at root ns = true -> symlink cwd text (absolute (ns ++ [x])) root = Some root' ->
  at_ root (ns ++ [x]) = None /\ put (ns ++ [x]) (Link text) root = Some root'.
Proof.
  intros Hd. unfold symlink. rewrite lplace_in by done. cbn. destruct (at_ root (ns ++ [x])); [done|].
  by destruct (Str.is_empty text).
Qed.

(** ** Activation switches one link, then the other *)

Section activation.
Variables (R : list string) (id : string).
Abbreviation current := (R ++ ["current"]).
Abbreviation previous := (R ++ ["previous"]).
Definition next_name (word : string) : string := "." +:+ word +:+ "." +:+ pretty process_id +:+ ".tmp".
Definition next_of (word : string) : list string := R ++ [next_name word].

Lemma next_link_absolute word : next_link (absolute R) word = absolute (next_of word).
Proof. apply join_absolute. Qed.

Lemma wp_switch_link word text root :
  dir_at root R = true -> next_name word <> word ->
  wp (switch_link (absolute R) word text) root (fun o root' =>
    match o with
    | Ok _ => agrees_outside [R ++ [word]; next_of word] root root' /\ at_ root' (R ++ [word]) = Some (Link text)
    | Err _ => agrees_outside [next_of word] root root'
    | Panic => False
    end).
Proof.
  intros Hd Hne. unfold switch_link. rewrite next_link_absolute, join_absolute. unfold next_of.
  eapply (wp_seq _ _ _ (fun o root1 => match o with
    | Ok _ => put (R ++ [next_name word]) (Link text) root = Some root1 | Err _ => root1 = root | Panic => False end));
    [apply wp_call; [intros root1 Hs; by apply symlink_in in Hs as [_ Hs]|done]| |by intros e root1 ->|done].
  intros [] root1 Hput.
  assert (agrees_outside [R ++ [next_name word]] root root1) as Ha.
  { apply (put_agrees _ (R ++ [next_name word]) [] (Link text)); [by left|by rewrite app_nil_r]. }
  apply wp_call; [|done]. intros root2 Hren.
  assert (linkless root1 R) as Hl.
  { eapply dir_linkless, dir_kept; [exact Ha| |done]. intros p ->%list_elem_of_singleton. apply snoc_not_above. }
  apply rename_moves in Hren as Hm; [|done..|by intros [_ [= ?]]%app_inj_tail]. split.
  - etrans; [intros q Hq; apply Ha|intros q Hq; apply (moved_rest _ _ _ _ Hm)].
    + intros p ->%list_elem_of_singleton. apply Hq. by right; left.
    + apply Hq. by right; left.
    + apply Hq. by left.
  - rewrite (moved_node _ _ _ _ Hm). by apply (at_put _ _ _ _ Hput).
Qed.

(** The links of the root after an activation that answered [o]. *)
Definition switched (root root' : node) (o : outcome RpcError.t Value) : Prop :=
  match o with
  | Ok _ =>
      at_ root' current = Some (Link (generation_link id)) /\
      match at_ root current with
      | Some (Link old) => at_ root' previous = Some (Link old) /\
                           agrees_outside [current; previous; next_of "current"; next_of "previous"] root root'
      | _ => agrees_outside [current; next_of "current"] root root'
      end
  | Err _ =>
      agrees_outside [next_of "current"] root root' \/
      at_ root' current = Some (Link (generation_link id)) /\
      agrees_outside [current; next_of "current"; next_of "previous"] root root'
  | Panic => False
  end.

(** What the activation saw. *)
Definition ready (root : node) : Prop :=
  exists marker, marker_at root (join (generation_path (absolute R) id) marker_name) = Ok marker /\
    vget marker "state" ≫= as_str = Some "ready".

Lemma next_name_ne word : word ∈ ["current"; "previous"] -> next_name word <> word.
Proof. by intros [->|[->|Hnil%not_elem_of_nil]%elem_of_cons]%elem_of_cons. Qed.
Lemma above_links (p : list string) : p ∈ [current; previous; next_of "current"; next_of "previous"] -> ~ p `prefix_of` R.
Proof. unfold next_of. rewrite !elem_of_cons. intros [->|[->|[->|[->|Hnil%not_elem_of_nil]]]]; try apply snoc_not_above. done. Qed.

(** A link that is removed before it is made again. *)
Lemma unlink_next word root root' :
  dir_at root R = true -> unlink cwd (next_link (absolute R) word) root = Some root' -> agrees_outside [next_of word] root root'.
Proof.
  intros Hd. unfold unlink. rewrite next_link_absolute. unfold next_of.
  rewrite lplace_in by done. cbn. destruct (at_ root (R ++ [next_name word])) as [n|]; [|done]. cbn. destruct (is_dir n); [done|].
  intros Hcut. apply (cut_agrees _ (R ++ [next_name word]) []); [by left|by rewrite app_nil_r].
Qed.

Lemma wp_previous old root1 :
  dir_at root1 R = true ->
  wp (_ ← attempt (unlink cwd (next_link (absolute R) "previous")); switch_link (absolute R) "previous" old) root1 (fun o root' =>
    match o with
    | Ok _ => agrees_outside [previous; next_of "previous"] root1 root' /\ at_ root' previous = Some (Link old)
    | Err _ => agrees_outside [next_of "previous"] root1 root'
    | Panic => False
    end).
Proof.
  intros Hd. apply (wp_seq _ _ _ (fun o root2 => agrees_outside [next_of "previous"] root1 root2 /\ is_ok o = true));
    [apply wp_attempt; [intros root2 ?; split; [by apply unlink_next|done]|done]| |by intros e s' [_ ?]|by intros s' [_ ?]].
  intros b root2 [Ha _]. eapply wp_mono; [apply wp_switch_link; [|done]|].
  - eapply dir_kept; [exact Ha| |done]. intros p ->%list_elem_of_singleton. apply above_links. pick.
  - intros [[]|e|] root3; [intros [Ha2 Hat]; split; [|done]|intros Ha2|done].
    + etrans; [eapply agrees_more; [exact Ha|]|exact Ha2]. intros p ->%list_elem_of_singleton. by right; left.
    + by etrans.
Qed.

Lemma marker_no_panic root p : marker_at root p <> Panic.
Proof. unfold marker_at. by repeat case_match. Qed.

(** A link stays when something beside it changes. *)
Lemma link_kept places root root' p text :
  agrees_outside places root root' -> (forall q, q ∈ places -> ~ q `prefix_of` p) ->
  at_ root p = Some (Link text) -> at_ root' p = Some (Link text).
Proof.
  intros Ha Hp Hat. specialize (Ha p Hp). unfold view in Ha. rewrite Hat in Ha.
  destruct (at_ root' p) as [[| |u|]|]; try done. by injection Ha as ->.
Qed.
Lemma current_apart q : q ∈ [previous; next_of "current"; next_of "previous"] -> ~ q `prefix_of` current.
Proof.
  unfold next_of. rewrite !elem_of_cons. intros [->|[->|[->|Hnil%not_elem_of_nil]]]; [by apply names_apart_below..|done].
Qed.

Lemma wp_activate root :
  dir_at root R = true ->
  wp (activate (absolute R) id) root (fun o root' => switched root root' o /\ (is_ok o = true -> ready root)).
Proof.
  intros Hd. unfold activate. apply wp_lift_bind; [intros [] _|intros e _; split; [by left|done]|unfold validate_generation_id; by case_match].
  wp_step. apply wp_guard_bind; [intros Hfile|intros _; split; [by left|done]].
  unfold read_marker. do 2 wp_step.
  apply wp_lift_bind; [intros marker Hmarker|intros e _; split; [by left|done]|by intros ?%marker_no_panic].
  apply wp_guard_bind; [intros Hstate%bool_decide_eq_true|intros _; split; [by left|done]].
  assert (ready root) as Hready by by exists marker.
  eapply wp_mono; [|intros o root' Hs; split; [exact Hs|done]].
  apply wp_there_bind; [done|]. wp_step. unfold read_link, symlink_metadata. rewrite join_absolute, (lplace_in cwd) by done. cbn [mbind option_bind].
  apply (wp_seq _ _ _ (fun o root1 => agrees_outside [next_of "current"] root root1 /\ o <> Panic));
    [case_match; [apply wp_call; [intros root1 ?; split; [by apply unlink_next|done]|done]|by apply wp_ret]
    | |intros e root1 [? _]; by left|by intros root1 [_ []]].
  intros [] root1 [Ha1 _].
  assert (dir_at root1 R = true) as Hd1.
  { eapply dir_kept; [exact Ha1| |done]. intros p ->%list_elem_of_singleton. apply above_links. pick. }
  eapply wp_seq; [by apply wp_switch_link|intros [] root2 [Ha2 Hcur]|intros e root2 Ha2; left; by etrans|done].
  assert (agrees_outside [current; next_of "current"] root root2) as Ha.
  { etrans; [eapply agrees_more; [exact Ha1|]|exact Ha2]. intros p ->%list_elem_of_singleton. by right; left. }
  assert (dir_at root2 R = true) as Hd2.
  { eapply dir_kept; [exact Ha| |done]. intros p Hp. apply above_links. pick. }
  destruct (at_ root current) as [[| |old|]|] eqn:Hold; try (do 2 wp_step; apply wp_ret; unfold switched; by rewrite Hold).
  eapply wp_seq; [by apply wp_previous|intros [] root3 [Ha3 Hprev]|intros e root3 Ha3|done].
  - wp_step. apply wp_ret. unfold switched. rewrite Hold. split_and!.
    + eapply link_kept; [exact Ha3| |done]. intros q Hq. apply current_apart. pick.
    + done.
    + etrans; eapply agrees_more; [exact Ha|pick|exact Ha3|pick].
  - right. split.
    + eapply link_kept; [exact Ha3| |done]. intros q Hq. apply current_apart. pick.
    + etrans; eapply agrees_more; [exact Ha|pick|exact Ha3|pick].
Qed.
End activation.

(** The name of a generation is one name, but for the two that are none. *)
Definition proper_id (id : string) : Prop := validate_generation_id id = Ok tt /\ id <> "." /\ id <> "..".

Lemma id_no_slash id : validate_generation_id id = Ok tt -> id <> "" /\ no_slash id = true.
Proof.
  unfold validate_generation_id. destruct (_ || _) eqn:Hv; [done|]. intros _.
  apply orb_false_iff in Hv as [[Hne _]%orb_false_iff Hv]. apply negb_false_iff in Hv. split.
  { unfold Str.is_empty in Hne. by apply bool_decide_eq_false in Hne. }
  clear Hne. unfold no_slash. apply Nat.eqb_eq. induction id as [|a id IH]; [done|]. simpl in Hv.
  apply andb_true_iff in Hv as [Ha Hv]. simpl. case_decide; [subst a; by vm_compute in Ha|]. by apply IH.
Qed.
Lemma no_slash_relative s : no_slash s = true -> FsPath.is_absolute s = false.
Proof.
  intros Hs. destruct (FsPath.is_absolute s) eqn:Ha; [|done].
  apply Str.starts_with_strip in Ha as [t ->]. by unfold no_slash in Hs.
Qed.
Lemma proper_components id :
  proper_id id -> components id = [Normal id] /\ components (generation_link id) = [Normal "generations"; Normal id].
Proof.
  intros (Hv & Hd & Hdd). apply id_no_slash in Hv as [Hne Hs].
  assert (piece id = [Normal id]) as Hp by (unfold piece; rewrite decide_False by (intros [|]; done); by rewrite decide_False). split.
  - unfold components. rewrite split_no_slash by done.
    rewrite no_slash_relative by done.
    rewrite decide_False by done. by rewrite app_nil_r, Hp.
  - change (generation_link id) with (Commands.join "generations" id). rewrite components_join by done. by rewrite Hp.
Qed.
Lemma generation_absolute R id : proper_id id -> generation_path (absolute R) id = absolute (R ++ ["generations"; id]).
Proof.
  intros Hp. unfold generation_path, join_text, generations_path. rewrite join_absolute.
  destruct (proper_components id Hp) as [-> _]. destruct Hp as (Hv & _ & _). apply id_no_slash in Hv as [_ Hs].
  rewrite no_slash_relative by done.
  change (bfilter _ [Normal id]) with [Normal id]. change (absolute ?l ++ [Normal ?x]) with (join (absolute l) x).
  by rewrite join_absolute, <- app_assoc.
Qed.

(** A walk down directories that are there. *)
Lemma walk_down root links here names rest :
  dir_at root (here ++ names) = true ->
  walk root links here ((Normal <$> names) ++ rest) = walk root links (here ++ names) rest.
Proof.
  revert here. induction names as [|name names IH]; intros here Hd; [by rewrite app_nil_r|].
  assert (dir_at root here = true) as Hh by by eapply dir_prefix.
  rewrite (cons_middle name here names), app_assoc in *. rewrite <- IH by done. apply dir_prefix in Hd as Hn.
  unfold dir_at in Hn. destruct (at_ root (here ++ [name])) as [[| | |]|] eqn:Hat; try done.
  destruct links; cbn; rewrite Hh, Hat; reflexivity.
Qed.

(** Below [current] is what is below the generation that it shows. *)
Lemma read_through_current R id root z n :
  proper_id id -> dir_at root R = true -> at_ root (R ++ ["current"]) = Some (Link (generation_link id)) ->
  at_ root (R ++ "generations" :: id :: z) = Some n -> is_link n = false ->
  metadata cwd root (absolute (R ++ "current" :: z)) = Some n.
Proof.
  intros Hid Hd Hcur Hn Hk. unfold metadata, place, absolute.
  change (walk root max_links cwd (RootDir :: ?p)) with (walk root max_links [] p).
  rewrite fmap_app, walk_down by done. simpl ([] ++ R).
  change (walk root max_links R (Normal <$> "current" :: z)) with
    (if dir_at root R then
       match at_ root (R ++ ["current"]) with
       | None => if decide ((Normal <$> z : path) = []) then Some (R ++ ["current"]) else None
       | Some (Link target) => walk root 39 R (components target ++ (Normal <$> z))
       | Some _ => walk root max_links (R ++ ["current"]) (Normal <$> z)
       end
     else None).
  rewrite Hd, Hcur. destruct (proper_components id Hid) as [_ ->].
  change ([Normal "generations"; Normal id] ++ (Normal <$> z)) with (Normal <$> "generations" :: id :: z : path).
  rewrite walk_along by (by eapply plain_at). done.
Qed.

(** C31. Activation is one switch.  It succeeds only for a generation whose marker
    says [ready]; then [current] shows that generation, file by file, and
    [previous] shows what [current] showed.  When it fails, at any call, [current]
    is as it was or shows the new generation already, and [previous] is as it was.
    Nothing else changes but two temporary names beside them. *)
Theorem activation_switches_links R id root :
  dir_at root R = true ->
  wp (activate (absolute R) id) root (fun o root' =>
    switched R id root root' o /\
    (is_ok o = true -> ready R id root /\
       (proper_id id -> forall z n, at_ root (R ++ "generations" :: id :: z) = Some n -> is_link n = false ->
          item_of <$> metadata cwd root' (absolute (R ++ "current" :: z)) = Some (item_of n)))).
Proof.
  intros Hd. eapply wp_mono; [by apply wp_activate|]. intros o root' [Hs Hr]. split; [done|]. intros Ho.
  split; [by apply Hr|]. intros Hid z n Hn Hk. destruct o as [v|e|]; [|done..]. destruct Hs as [Hcur Hrest].
  assert (agrees_outside [R ++ ["current"]; R ++ ["previous"]; next_of R "current"; next_of R "previous"] root root') as Ha.
  { destruct (at_ root (R ++ ["current"])) as [[| |old|]|]; try by destruct Hrest. all: eapply agrees_more; [exact Hrest|pick]. }
  assert (view root' (R ++ "generations" :: id :: z) = Some (item_of n)) as Hv.
  { rewrite Ha; [unfold view; by rewrite Hn|]. unfold next_of. intros p. rewrite !elem_of_cons.
    intros [->|[->|[->|[->|Hnil%not_elem_of_nil]]]]; [by apply names_apart_below..|done]. }
  apply fmap_Some in Hv as (n' & Hn' & Hv).
  rewrite (read_through_current R id root' z n'); try done.
  - cbn. by rewrite Hv.
  - eapply dir_kept; [exact Ha|intros p; by apply above_links|done].
  - destruct n, n'; done.
Qed.

(** ** A recorded state *)

Section recording.
Variables (R ns : list string) (id : string).
Abbreviation marker_place := (ns ++ [marker_name]).
Definition temporary_marker_name : string := "generation.json." +:+ pretty process_id +:+ ".tmp".
Abbreviation temporary_place := (ns ++ [temporary_marker_name]).
Hypothesis place_is : generation_path (absolute R) id = absolute ns.

Lemma temporary_marker_absolute : temporary_marker (absolute marker_place) = absolute temporary_place.
Proof. apply with_extension_absolute. Qed.
Lemma temporary_marker_ne : temporary_marker_name <> marker_name.
Proof. done. Qed.

(** The marker [v] that takes the place of [old]. *)
Record updated (state : string) (evidence old v : Value) : Prop := {
  updated_state : vget v "state" = Some (VString state);
  updated_at : exists n, vget v "updatedAt" = Some (vnat n);
  updated_evidence : vget v "evidence" = Some evidence;
  updated_rest : forall k, k ∉ ["state"; "updatedAt"; "evidence"] -> vget v k = vget old k;
}.
Lemma vset_None v k new : vset v k new = None -> is_object v || is_null v = false.
Proof. by destruct v. Qed.
Lemma vset_object v k new v' : vset v k new = Some v' -> exists o, v' = VObject o.
Proof. destruct v; try done; intros [= <-]; by eexists. Qed.
Lemma updated_by state evidence n old v1 v2 v :
  vset old "state" (VString state) = Some v1 -> vset v1 "updatedAt" (vnat n) = Some v2 -> vset v2 "evidence" evidence = Some v ->
  updated state evidence old v.
Proof.
  intros H1 H2 H3. split.
  - by rewrite (vget_vset_ne _ _ _ _ _ H3), (vget_vset_ne _ _ _ _ _ H2), (vget_vset _ _ _ _ H1).
  - exists n. by rewrite (vget_vset_ne _ _ _ _ _ H3), (vget_vset _ _ _ _ H2).
  - by rewrite (vget_vset _ _ _ _ H3).
  - intros k Hk. rewrite !not_elem_of_cons in Hk. destruct Hk as (K1 & K2 & K3 & _).
    by rewrite (vget_vset_ne _ _ _ _ _ H3), (vget_vset_ne _ _ _ _ _ H2), (vget_vset_ne _ _ _ _ _ H1) by by intros <-.
Qed.

Lemma wp_replace_marker v root :
  dir_at root ns = true -> (forall t, at_ root temporary_place <> Some (Link t)) ->
  wp (_ ← write_file cwd UPDATE_FAILED (temporary_marker (absolute marker_place)) (to_vec_pretty v);
      _ ← call UPDATE_FAILED (absolute marker_place) (rename cwd (temporary_marker (absolute marker_place)) (absolute marker_place));
      mret v) root (fun o root' =>
    match o with
    | Ok v' => v' = v /\ at_ root' marker_place = Some (File (to_vec_pretty v)) /\
               agrees_outside [marker_place; temporary_place] root root'
    | Err _ => agrees_outside [temporary_place] root root'
    | Panic => False
    end).
Proof.
  intros Hd Ht. rewrite temporary_marker_absolute.
  eapply wp_seq; [apply wp_write_file, linkless_snoc; [by apply dir_linkless|done]|
    |by intros e root1 ([? _] & _)|by intros root1 (_ & [] & _)].
  intros [] root1 ([Ha _] & _ & HO). specialize (HO eq_refl).
  apply (wp_seq _ _ _ (fun o root2 => match o with
    | Ok _ => moved temporary_place marker_place root1 root2 | Err _ => root2 = root1 | Panic => False end)).
  - apply wp_call; [|done]. intros root2 Hren.
    assert (dir_at root1 ns = true) as Hd1.
    { eapply dir_kept; [exact Ha| |done]. intros p ->%list_elem_of_singleton. apply snoc_not_above. }
    apply rename_moves in Hren as Hm; [done|by apply dir_linkless..|by intros [_ [= ?]]%app_inj_tail].
  - intros [] root2 Hm. apply wp_ret. split_and!; [done|by rewrite (moved_node _ _ _ _ Hm)|].
    etrans; [eapply agrees_more; [exact Ha|pick]|]. intros q Hq. apply (moved_rest _ _ _ _ Hm); apply Hq; pick.
  - by intros e root2 ->.
  - done.
Qed.

Lemma wp_record_state state evidence root :
  dir_at root ns = true -> (forall t, at_ root temporary_place <> Some (Link t)) ->
  wp (record_state (absolute R) id state evidence) root (fun o root' =>
    match o with
    | Ok v => state ∈ STATES /\ (exists old, marker_at root (absolute marker_place) = Ok old /\ updated state evidence old v) /\
              at_ root' marker_place = Some (File (to_vec_pretty v)) /\
              agrees_outside [marker_place; temporary_place] root root'
    | Err _ => agrees_outside [temporary_place] root root'
    | Panic => root' = root /\ exists old, marker_at root (absolute marker_place) = Ok old /\ is_object old || is_null old = false
    end).
Proof.
  intros Hd Ht. unfold record_state, read_marker. rewrite place_is, join_absolute.
  apply wp_lift_bind; [intros [] _|done|by unfold validate_generation_id; case_match].
  apply wp_guard_bind; [intros Hstate%bool_decide_eq_true|done]. do 2 wp_step.
  apply wp_lift_bind; [intros old Hold|done|by intros ?%marker_no_panic].
  destruct (vset old "state" (VString state)) as [v1|] eqn:H1.
  2:{ apply vset_None in H1. intros w. split; [done|by exists old]. }
  apply wp_lift_bind; [intros ? [= <-]|done|done]. wp_step. destruct (vset_object _ _ _ _ H1) as [o1 ->].
  destruct (vset (VObject o1) "updatedAt" (vnat n)) as [v2|] eqn:H2; [|done].
  apply wp_lift_bind; [intros ? [= <-]|done|done]. destruct (vset_object _ _ _ _ H2) as [o2 ->].
  destruct (vset (VObject o2) "evidence" evidence) as [v|] eqn:H3; [|done].
  apply wp_lift_bind; [intros ? [= <-]|done|done].
  eapply wp_mono; [by apply wp_replace_marker|]. intros [v'|e|] root'; [|done|done].
  intros (-> & Hat & Ha). split_and!; [done| |done|done]. exists old. split; [done|by eapply updated_by].
Qed.
End recording.

(** A state is recorded as a whole or not at all.  When it succeeds the state
    is one of the eight, and the marker file holds the answered marker, which is the
    one that was there with the new state, time and evidence.  When it fails, at any
    call, the marker file is what it was.  A marker that is no object makes the
    handler panic before it has written anything. *)
Theorem record_is_atomic R id ns state evidence root :
  generation_path (absolute R) id = absolute ns -> dir_at root ns = true ->
  (forall t, at_ root (ns ++ [temporary_marker_name]) <> Some (Link t)) ->
  wp (record_state (absolute R) id state evidence) root (fun o root' =>
    match o with
    | Ok v => state ∈ STATES /\
              (exists old, marker_at root (absolute (ns ++ [marker_name])) = Ok old /\ updated state evidence old v) /\
              at_ root' (ns ++ [marker_name]) = Some (File (to_vec_pretty v)) /\
              agrees_outside [ns ++ [marker_name]; ns ++ [temporary_marker_name]] root root'
    | Err _ => agrees_outside [ns ++ [temporary_marker_name]] root root'
    | Panic => root' = root /\
               exists old, marker_at root (absolute (ns ++ [marker_name])) = Ok old /\ is_object old || is_null old = false
    end).
Proof. intros Hp. by apply wp_record_state. Qed.

(** ** A copy is the baseline *)

Section copied.
(** What copying a node from [src] to [dst] is to do. *)
Definition copied (copy : handler Stats.t) (src dst : list string) (n : node) (root : node) : Prop :=
  wp copy root (fun o root' => touches dst root root' /\ o <> Panic /\
    (is_ok o = true -> exists n', at_ root' dst = Some n' /\ alike n' n)).

Lemma wp_permissions p root : wp (copy_permissions p) root (fun o root' => root' = root /\ o <> Panic).
Proof.
  apply wp_call; [|done]. intros root'. by destruct (metadata cwd root p); [intros [= <-]|].
Qed.

Lemma wp_clone_or_copy src dst content root :
  at_ root src = Some (File content) -> linkless root dst -> dir_at root (take (length dst - 1) dst) = true -> dst <> [] ->
  at_ root dst = None -> ~ dst `prefix_of` src -> ~ src `prefix_of` dst ->
  wp (clone_or_copy (absolute src) (absolute dst)) root (fun o root' =>
    touches dst root root' /\ o <> Panic /\ (is_ok o = true -> at_ root' dst = Some (File content))).
Proof.
  intros Hsrc Hld Hd Hne Hnone Hds Hsd. unfold clone_or_copy.
  apply (wp_seq _ _ _ (fun o root1 => match o with
    | Ok true => put dst (File content) root = Some root1 | Ok false => root1 = root | _ => False end));
    [|intros [] root1|done|done].
  - destruct (decide _); [|by apply wp_ret]. apply wp_attempt; [|done]. intros root1. unfold clonefile.
    rewrite metadata_plain, Hsrc by by eapply plain_at. cbn [mbind option_bind].
    destruct (decide (dst = [])) as [|(ms & y & ->)%exists_last]; [done|].
    rewrite length_app, Nat.add_sub, take_app_length in Hd. rewrite lplace_in by done. cbn [mbind option_bind]. by rewrite Hnone.
  - intros Hput. apply wp_ret. split_and!; [by eapply put_touches|done|]. intros _. by eapply at_put.
  - intros ->. eapply wp_seq; [apply (wp_fs_copy cwd _ _ src dst root content); try done; by eapply there_linkless
      |intros [] root1 ([Hs _] & _ & HO)|by intros e root1 ([Hs _] & _)|by intros root1 (_ & [] & _)].
    apply wp_ret. split_and!; [done..|]. intros _. by apply HO.
Qed.

Section entries.
Variables (deeper : path -> path -> Stats.t -> handler Stats.t) (src ms : list string) (y : string) (stats : Stats.t) (root : node).
Abbreviation dst := (ms ++ [y]).
Hypothesis parent_there : dir_at root ms = true.
Hypothesis free : at_ root dst = None.
Hypothesis src_names : src <> [].

Lemma dst_linkless : linkless root dst.
Proof. apply linkless_snoc; [by apply dir_linkless|by rewrite free]. Qed.
Lemma dst_free : occupied root (absolute dst) = false.
Proof.
  unfold occupied, Copies.exists_on, symlink_on, symlink_metadata.
  rewrite metadata_at, free, lplace_in by (done || apply dst_linkless). cbn. by rewrite free.
Qed.
Lemma src_is n : at_ root src = Some n -> symlink_metadata cwd root (absolute src) = Some n.
Proof.
  intros Hsrc. destruct (exists_last src_names) as (ks & k & ->). unfold symlink_metadata.
  by rewrite lplace_in by (by eapply at_above).
Qed.
(** The first steps of an entry. *)
Lemma wp_copy_entry n Q :
  at_ root src = Some n ->
  wp (match n with
      | Link text => _ ← call MATERIALIZE_FAILED (absolute dst) (symlink cwd text (absolute dst)); mret stats
      | Dir _ =>
          _ ← create_dir_all cwd MATERIALIZE_FAILED (absolute dst);
          _ ← copy_permissions (absolute dst);
          names ← read_dir MATERIALIZE_FAILED (absolute src);
          copy_children deeper (absolute src) (absolute dst) names stats
      | File _ =>
          stats' ← clone_link_or_copy (absolute src) (absolute dst) stats;
          _ ← copy_permissions (absolute dst);
          mret stats'
      | Special => throw (RpcError.new MATERIALIZE_FAILED ("unsupported baseline entry: " +:+ display (absolute src)))
      end) root Q ->
  wp (copy_entry deeper (absolute src) (absolute dst) stats) root Q.
Proof.
  intros Hsrc Hq. unfold copy_entry. wp_step. rewrite (src_is n Hsrc). apply wp_lift_bind; [intros ? [= <-]|done|done].
  destruct n as [content|es|text|]; [|done| |done].
  - rewrite parent_absolute. by apply wp_there_bind.
  - rewrite dst_free. by apply wp_ret_bind.
Qed.

Lemma copied_link text :
  at_ root src = Some (Link text) -> copied (copy_entry deeper (absolute src) (absolute dst) stats) src dst (Link text) root.
Proof.
  intros Hsrc. apply (wp_copy_entry _ _ Hsrc).
  apply (wp_seq _ _ _ (fun o root1 => match o with
    | Ok _ => put dst (Link text) root = Some root1 | Err _ => root1 = root | Panic => False end));
    [apply wp_call; [intros root1 Hs; by apply symlink_in in Hs as [_ ?]|done]| |by intros e root1 ->|done].
  intros [] root1 Hput. apply wp_ret. split_and!; [by eapply put_touches|done|].
  intros _. exists (Link text). by rewrite (at_put _ _ _ _ Hput).
Qed.

Hypothesis apart : (~ dst `prefix_of` src) /\ ~ src `prefix_of` dst.

Lemma copied_file content :
  at_ root src = Some (File content) -> copied (copy_entry deeper (absolute src) (absolute dst) stats) src dst (File content) root.
Proof.
  intros Hsrc. apply (wp_copy_entry _ _ Hsrc). unfold clone_link_or_copy. do 3 wp_step.
  rewrite metadata_plain, Hsrc by by eapply plain_at. apply wp_lift_bind; [intros ? [= <-]|done|done]. wp_step.
  eapply wp_seq; [apply (wp_clone_or_copy src dst content root); try done; [apply dst_linkless| |by destruct ms|apply apart..]
    |intros cloned root1 (Hs & _ & HO)|by intros e root1 (? & _)|by intros root1 (_ & [] & _)].
  - by rewrite length_app, Nat.add_sub, take_app_length.
  - specialize (HO eq_refl). destruct stats as [clones links files bytes]. apply wp_ret_bind.
    eapply wp_seq; [apply wp_permissions|intros [] ? [-> _]|by intros e ? [-> _]|by intros ? [_ []]].
    apply wp_ret. split_and!; [done..|]. intros _. by exists (File content).
Qed.
End entries.

Lemma below_apart (p q : list string) x : (~ p `prefix_of` q) -> (~ q `prefix_of` p) -> ~ (p ++ [x]) `prefix_of` (q ++ [x]).
Proof.
  intros Hpq Hqp [Heq|Hp]%prefix_snoc_inv; [apply app_inj_tail in Heq as [Heq _]; apply Hpq; by rewrite Heq|].
  apply Hpq. etrans; [by eexists|exact Hp].
Qed.
Lemma entry_name x es : x ∈ es.*1 -> exists n, entry x es = Some n.
Proof.
  induction es as [|[z m] es IH]; [by intros ?%not_elem_of_nil|]. simpl. case_decide as Hx; [by exists m|].
  intros [|]%elem_of_cons; [done|by apply IH].
Qed.

Section directories.
Variables (deeper : path -> path -> Stats.t -> handler Stats.t) (src dst : list string) (es : list (string * node)).
Hypothesis apart : (~ dst `prefix_of` src) /\ ~ src `prefix_of` dst.
Hypothesis deeper_copies : forall x n stats root, entry x es = Some n -> at_ root (src ++ [x]) = Some n ->
  dir_at root dst = true -> at_ root (dst ++ [x]) = None ->
  copied (deeper (absolute (src ++ [x])) (absolute (dst ++ [x])) stats) (src ++ [x]) (dst ++ [x]) n root.

Lemma wp_copy_entries names finished stats root :
  (forall x, x ∈ names -> x ∈ es.*1) -> NoDup (finished ++ names) ->
  at_ root src = Some (Dir es) -> copying dst es finished root ->
  wp (copy_children deeper (absolute src) (absolute dst) names stats) root (fun o root' =>
    touches dst root root' /\ o <> Panic /\ (is_ok o = true -> copying dst es (finished ++ names) root')).
Proof.
  revert finished stats root. induction names as [|x names IH]; intros finished stats root Hin Hnd Hsrc Hc.
  { apply wp_ret. split_and!; [done..|]. intros _. by rewrite app_nil_r. }
  destruct (entry_name x es) as [n Hn]; [apply Hin; by left|].
  assert (at_ root (src ++ [x]) = Some n) as Hat by (rewrite at_app, Hsrc; cbn; by rewrite Hn).
  apply NoDup_app in Hnd as (Hf1 & Hf2 & Hf3). apply NoDup_cons in Hf3 as [Hf3 Hf4].
  cbn [copy_children]. rewrite !join_absolute.
  eapply wp_seq; [apply (deeper_copies x n); try done; [apply Hc|apply (copying_rest _ _ _ _ Hc); intros Hx; apply (Hf2 x Hx); by left]
    |intros stats' root1 (Hs & _ & HO)|intros e root1 (Hs & _); split; [by eapply touches_below|done]|by intros root1 (_ & [] & _)].
  destruct (HO eq_refl) as (n' & Hn' & Hal). apply touches_below in Hs as Hs'. rewrite cons_middle, app_assoc.
  eapply wp_mono; [apply (IH (finished ++ [x]))|].
  - intros z Hz. apply Hin. by right.
  - rewrite <- app_assoc. apply NoDup_app. split_and!; [done..|]. by apply NoDup_cons.
  - rewrite (proj1 Hs'); [done|apply apart..].
  - by eapply copying_next; [|apply Hs|..].
  - intros o root2 (Hs2 & HP & HO2). split; [by etrans|done].
Qed.
End directories.

Lemma wp_copy_tree fuel src ms y n stats root :
  (depth n <= fuel)%nat -> tidy n -> at_ root src = Some n -> src <> [] -> dir_at root ms = true -> at_ root (ms ++ [y]) = None ->
  ~ (ms ++ [y]) `prefix_of` src -> ~ src `prefix_of` (ms ++ [y]) ->
  copied (copy_tree fuel (absolute src) (absolute (ms ++ [y])) stats) src (ms ++ [y]) n root.
Proof.
  revert src ms y n stats root. induction fuel as [|fuel IH]; intros src ms y n stats root Hdepth Htidy Hsrc Hne Hd Hnone Hds Hsd;
    destruct n as [content|es|text|]; cbn [copy_tree]; try (by apply copied_file); try (by apply copied_link).
  all: try (apply (wp_copy_entry _ _ _ _ _ _ Hd Hnone Hne _ _ Hsrc); by apply wp_throw).
  1: by simpl in Hdepth; lia.
  apply depth_children in Hdepth. rewrite Forall_forall in Hdepth.
  apply tidy_dir in Htidy as [Hnd Htidy]. rewrite Forall_forall in Htidy.
  apply (wp_copy_entry _ _ _ _ _ _ Hd Hnone Hne _ _ Hsrc).
  eapply wp_seq; [by apply (wp_make_dir cwd)|intros [] root1 Hput|by intros e root1 ->|done].
  apply put_touches in Hput as Hs. apply at_put in Hput as HO.
  eapply wp_seq; [apply wp_permissions|intros [] ? [-> _]|by intros e ? [-> _]|by intros ? [_ []]]. unfold read_dir. do 2 wp_step.
  assert (at_ root1 src = Some (Dir es)) as Hsrc1 by by rewrite (proj1 Hs).
  rewrite metadata_plain, Hsrc1 by by eapply plain_at. apply wp_ret_bind.
  eapply wp_mono; [apply (wp_copy_entries (copy_tree fuel) src (ms ++ [y]) es ltac:(done)) with (finished := [])|]; try done.
  - intros x n stats' root2 Hx Hat Hdir Hnone2. assert ((x, n) ∈ es) as Hin.
    { clear -Hx. induction es as [|[z m] es IH]; [done|]. simpl in Hx. case_decide; [simplify_eq; by left|right; by apply IH]. }
    apply IH; try done; [apply (Hdepth (x, n)); by rewrite elem_of_by_name|by apply (Htidy (x, n))|by destruct src|by apply below_apart..].
  - split; [unfold dir_at; by rewrite HO|intros x n Hx; by apply not_elem_of_nil in Hx|]. intros x _. by rewrite at_app, HO.
  - intros o root2 (Hs2 & HP & HO2). split_and!; [by etrans|done|]. intros Hok. apply copying_all. by apply HO2.
Qed.
End copied.

(** ** A generation that can be used is complete *)

Lemma wp_caught {A} (m : handler A) root (Q : outcome RpcError.t (RpcError.t + A) -> node -> Prop) :
  wp m root (fun o root' => match o with
    | Ok a => Q (Ok (inr a)) root' | Err e => Q (Ok (inl e)) root' | Panic => Q Panic root' end) -> wp (caught m) root Q.
Proof. intros Hm w. specialize (Hm w). unfold caught. by destruct (m root w) as [[[a|e|] root'] w']. Qed.
Lemma wp_ignored m root (Q : outcome RpcError.t unit -> node -> Prop) :
  wp m root (fun o root' => match o with Panic => Q Panic root' | _ => Q (Ok tt) root' end) -> wp (ignored m) root Q.
Proof. intros Hm w. specialize (Hm w). unfold ignored. by destruct (m root w) as [[[[]|e|] root'] w']. Qed.

(** A file that is written where nothing is. *)
Lemma wp_write_new code ns bytes root :
  linkless root ns -> at_ root ns = None ->
  wp (write_file cwd code (absolute ns) bytes) root (fun o root' =>
    agrees_outside [ns] root root' /\ o <> Panic /\
    (at_ root' ns = None \/ at_ root' ns = Some (File "") \/ at_ root' ns = Some (File bytes)) /\
    (o = Ok tt -> at_ root' ns = Some (File bytes))).
Proof.
  intros Hl Hnone. unfold write_file.
  assert (forall r1 r2 c, put ns (File c) r1 = Some r2 -> agrees_outside [ns] r1 r2) as Hput.
  { intros r1 r2 c Hp. eapply (put_agrees [ns] ns []); [by left|by rewrite app_nil_r]. }
  eapply (wp_seq _ _ _ (fun o r1 => match o with
    | Ok _ => put ns (File "") root = Some r1 | Err _ => r1 = root | Panic => False end));
    [apply wp_call; [intros r1 Hc; by apply create_at in Hc as [_ ?]|done]| |intros e r1 ->; split_and!; [done..|by left|done]|done].
  intros [] r1 Hp. apply at_put in Hp as Hat. assert (linkless r1 ns) as Hl1.
  { eapply linkless_kept; [|exact Hl]. eapply put_no_links; [exact Hp|apply no_links_below_file]. }
  destruct (Str.is_empty bytes) eqn:Hb.
  - apply wp_ret. split_and!; [by eapply Hput|done|by right; left|]. intros _. rewrite Hat. by destruct bytes.
  - apply wp_call; [|split_and!; [by eapply Hput|done|by right; left|done]]. intros r2 Hw.
    apply write_at_at in Hw as (c & Hc & Hp2); [|done]. rewrite Hat in Hc. injection Hc as <-.
    rewrite overlay_new in Hp2. apply at_put in Hp2 as Hat2. split_and!; [etrans; by eapply Hput|done|by right; right|done].
Qed.

(** The state that the marker of a generation carries. *)
Definition recorded_state (root : node) (place : list string) : option string :=
  match view root (place ++ [marker_name]) with
  | Some (IsFile text) => match from_slice text with inr marker => vget marker "state" ≫= as_str | inl _ => None end
  | _ => None
  end.
(** Nothing at the place passes for a materialised generation. *)
Definition unusable (root : node) (place : list string) : Prop := recorded_state root place <> Some "materialized".

Lemma nothing_unusable root place : view root place = None -> unusable root place.
Proof.
  intros Hnone. unfold unusable, recorded_state. unfold view in *. rewrite at_app. by destruct (at_ root place).
Qed.

(** [serde_json]'s texts: a marker is read back from its text, and nothing from no
    text. *)
Record json_texts : Prop := {
  failed_text : forall id e n, from_slice (to_vec_pretty (failed_marker id e n)) = inr (failed_marker id e n);
  materialized_text : forall id name baseline derived_from stats n,
    from_slice (to_vec_pretty (materialized_marker id name baseline derived_from stats n)) =
    inr (materialized_marker id name baseline derived_from stats n);
  empty_text : exists message, from_slice "" = inl message;
}.

Section materializing.
Hypothesis texts : json_texts.
Variables (R : list string) (id : string) (ks : list string) (k : string) (n : node) (derived_from : option string).
Abbreviation generations := (R ++ ["generations"]).
Abbreviation place := (generations ++ [id]).
Definition temporary_generation_name : string := "." +:+ id +:+ "." +:+ pretty process_id +:+ ".tmp".
Abbreviation temporary := (generations ++ [temporary_generation_name]).
Abbreviation baseline := (ks ++ [k]).
Abbreviation app := (application_name k).
Hypothesis id_proper : proper_id id.
Hypothesis name_proper : components app = [Normal app] /\ app <> marker_name.
Hypothesis baseline_apart : (~ generations `prefix_of` baseline) /\ ~ baseline `prefix_of` generations.
Hypothesis baseline_tidy : tidy n.

Lemma temporary_ne : temporary_generation_name <> id.
Proof.
  intros Heq%(f_equal String.length). unfold temporary_generation_name in Heq. rewrite !Str.length_app in Heq. simpl in Heq. lia.
Qed.
Lemma name_relative : FsPath.is_absolute app = false.
Proof.
  destruct name_proper as [Hc _]. destruct (FsPath.is_absolute app) eqn:Ha; [|done]. unfold components in Hc. by rewrite Ha in Hc.
Qed.
Lemma join_name p : join_text (absolute p) app = absolute (p ++ [app]).
Proof.
  unfold join_text. rewrite name_relative. destruct name_proper as [-> _].
  change (bfilter _ [Normal ?x]) with [Normal x]. apply join_absolute.
Qed.
Lemma place_absolute : generation_path (absolute R) id = absolute place.
Proof. rewrite generation_absolute by done. by rewrite <- app_assoc. Qed.
Lemma temporary_absolute_path : temporary_generation (absolute R) id = absolute temporary.
Proof. unfold temporary_generation, generations_path. by rewrite !join_absolute. Qed.

Lemma baseline_not_in z : (~ (generations ++ z) `prefix_of` baseline) /\ ~ baseline `prefix_of` (generations ++ z).
Proof.
  destruct baseline_apart as [H1 H2]. split.
  - intros Hp. apply H1. etrans; [by eexists|exact Hp].
  - intros Hp. destruct (prefix_weak_total generations baseline (generations ++ z)) as [|]; [by eexists|done|by apply H1|by apply H2].
Qed.

(** The temporary directory, before the marker is written. *)
Record staged (root : node) : Prop := {
  staged_dir : dir_at root temporary = true;
  staged_marker : at_ root (temporary ++ [marker_name]) = None;
  staged_place : view root place = None;
}.
Lemma staged_linkless root : staged root -> linkless root (temporary ++ [marker_name]).
Proof. intros [Hd Hm _]. apply linkless_snoc; [by apply dir_linkless|by rewrite Hm]. Qed.
Lemma staged_kept root root' : agrees_outside [temporary ++ [marker_name]] root root' -> staged root ->
  dir_at root' generations = true /\ view root' place = None.
Proof.
  intros Ha [Hd _ Hp]. split.
  - apply dir_prefix in Hd. eapply dir_kept; [exact Ha| |exact Hd]. intros p ->%list_elem_of_singleton Hpre.
    apply prefix_length in Hpre. rewrite !length_app in Hpre. simpl in Hpre. lia.
  - rewrite <- Hp. apply Ha. intros p ->%list_elem_of_singleton [s Hs]. rewrite <- !app_assoc in Hs.
    apply app_inv_head in Hs. injection Hs as Hs _. by apply temporary_ne.
Qed.
Lemma generation_moves root root' :
  dir_at root generations = true -> rename cwd (absolute temporary) (absolute place) root = Some root' -> moved temporary place root root'.
Proof.
  intros Hd%dir_linkless. apply rename_moves; [done..|]. intros [_ [= Heq]]%app_inj_tail. by apply temporary_ne.
Qed.

Lemma wp_fail_generation e created_at root :
  staged root ->
  wp (_ ← ignored (write_file cwd CREATE_FAILED (absolute (temporary ++ [marker_name])) (to_vec_pretty (failed_marker id e created_at)));
      _ ← ignored (call CREATE_FAILED (absolute place) (rename cwd (absolute temporary) (absolute place)));
      throw e : handler MaterializedGeneration.t) root
    (fun o root' => o = Err e /\ unusable root' place).
Proof.
  intros Hst. apply (wp_seq _ _ _ (fun o root1 => o = Ok tt /\ agrees_outside [temporary ++ [marker_name]] root root1 /\ unusable root1 temporary)).
  - apply wp_ignored. eapply wp_mono; [apply wp_write_new; [by apply staged_linkless|apply Hst]|].
    intros o root1 (Ha & HP & Hat & _).
    assert (unusable root1 temporary) as Hun.
    { unfold unusable, recorded_state, view. destruct (empty_text texts) as [message Hempty].
      destruct Hat as [->|[->| ->]]; cbn; [done|by rewrite Hempty|by rewrite (failed_text texts)]. }
    by destruct o.
  - intros [] root1 (_ & Ha & Hun). destruct (staged_kept _ _ Ha Hst) as [Hd Hnone].
    apply (wp_seq _ _ _ (fun o root2 => o = Ok tt /\ unusable root2 place)).
    + apply wp_ignored, wp_call; [|split; [done|by apply nothing_unusable]]. intros root2 Hren. split; [done|].
      apply generation_moves in Hren as Hm; [|done]. unfold unusable, recorded_state in *.
      by rewrite (moved_there _ _ _ _ Hm).
    + intros [] root2 [_ Hun2]. by apply wp_throw.
    + by intros ? ? [? _].
    + by intros ? [? _].
  - by intros ? ? [? _].
  - by intros ? [? _].
Qed.

(** A generation that is there. *)
Record complete (root : node) (marker : Value) : Prop := {
  complete_marker : view root (place ++ [marker_name]) = Some (IsFile (to_vec_pretty marker));
  complete_application : forall z, view root (place ++ app :: z) = view n z;
}.

Lemma wp_finish_generation marker (g : MaterializedGeneration.t) n' root :
  staged root -> at_ root (temporary ++ [app]) = Some n' -> alike n' n ->
  wp (_ ← write_file cwd CREATE_FAILED (absolute (temporary ++ [marker_name])) (to_vec_pretty marker);
      _ ← call CREATE_FAILED (absolute place) (rename cwd (absolute temporary) (absolute place));
      mret g) root (fun o root' =>
    match o with Ok g' => g' = g /\ complete root' marker | Err _ => unusable root' place | Panic => False end).
Proof.
  intros Hst Happ Hal. eapply wp_seq; [apply wp_write_new; [by apply staged_linkless|apply Hst]| |
    intros e root1 (Ha & _); by apply nothing_unusable, (staged_kept _ _ Ha Hst)|by intros root1 (_ & [] & _)].
  intros [] root1 (Ha & _ & _ & HO). specialize (HO eq_refl). destruct (staged_kept _ _ Ha Hst) as [Hd Hnone].
  apply (wp_seq _ _ _ (fun o root2 => match o with
    | Ok _ => moved temporary place root1 root2 | Err _ => root2 = root1 | Panic => False end));
    [apply wp_call; [intros root2; by apply generation_moves|done]|intros [] root2 Hm|intros e root2 ->; by apply nothing_unusable|done].
  apply wp_ret. split; [done|]. split.
  - rewrite (moved_there _ _ _ _ Hm). unfold view. by rewrite HO.
  - intros z. rewrite (moved_there _ _ _ _ Hm), Ha.
    + rewrite cons_middle, app_assoc, (view_app _ _ _ _ Happ). apply Hal.
    + intros p ->%list_elem_of_singleton [s Hs]. rewrite <- !app_assoc in Hs. apply app_inv_head, app_inv_head in Hs.
      injection Hs as Hs _. by apply name_proper.
Qed.

(** What the two phases start from. *)
Record begun (root : node) : Prop := {
  begun_temporary : at_ root temporary = Some (Dir []);
  begun_place : view root place = None;
  begun_baseline : at_ root baseline = Some n;
}.
Lemma begun_staged root root' : begun root -> touches (temporary ++ [app]) root root' -> staged root'.
Proof.
  intros [Ht Hp Hb] [Hs Ha].
  assert (forall p, p ∈ [temporary ++ [app]] -> ~ p `prefix_of` temporary) as Hne.
  { intros p ->%list_elem_of_singleton. apply snoc_not_above. }
  split.
  - eapply dir_kept; [exact Ha|exact Hne|]. unfold dir_at. by rewrite Ht.
  - rewrite Hs; [by rewrite at_app, Ht| |]; apply names_apart_below; destruct name_proper; congruence.
  - rewrite <- Hp. apply Ha. intros p ->%list_elem_of_singleton [s Hx]. rewrite <- !app_assoc in Hx.
    apply app_inv_head in Hx. injection Hx as Hx _. by apply temporary_ne.
Qed.

Definition materialized (stats : Stats.t) (created_at : Z) : MaterializedGeneration.t := {|
  MaterializedGeneration.generation_id := id;
  MaterializedGeneration.root := absolute place;
  MaterializedGeneration.application_path := absolute (place ++ [app]);
  MaterializedGeneration.marker_path := absolute (place ++ [marker_name]);
  MaterializedGeneration.created_at := created_at;
  MaterializedGeneration.derived_from := derived_from;
  MaterializedGeneration.stats := stats |}.
(** The outcome of making the generation. *)
Definition made (o : outcome RpcError.t MaterializedGeneration.t) (root' : node) : Prop :=
  match o with
  | Ok g => exists stats created_at, g = materialized stats created_at /\
              complete root' (materialized_marker id app (absolute baseline) derived_from stats created_at)
  | Err _ => unusable root' place
  | Panic => False
  end.
Lemma baseline_name : file_name (absolute baseline) = Some k.
Proof. unfold file_name. rewrite <- join_absolute. unfold join. by rewrite last_snoc. Qed.

Lemma wp_materialize_new fuel root :
  (depth n <= fuel)%nat -> dir_at root generations = true -> view root place = None -> at_ root baseline = Some n ->
  wp (materialize_new fuel (absolute R) id (absolute baseline) derived_from) root made.
Proof.
  intros Hdepth Hd Hp Hb. unfold materialize_new. rewrite place_absolute, temporary_absolute_path, baseline_name.
  apply (wp_seq _ _ _ (fun o root1 => match o with Ok _ => begun root1 | Err _ => root1 = root | Panic => False end));
    [|intros [] root1 Hbegun|by intros e root1 ->; apply nothing_unusable|done].
  - apply wp_call; [|done]. intros root1 Hmk. apply mkdir_at in Hmk as [Hnone Hput]; [|by apply dir_linkless]. split.
    + by apply (at_put _ _ _ _ Hput).
    + rewrite <- Hp. eapply view_put; [exact Hput|]. apply names_apart_below, temporary_ne.
    + rewrite (at_put_apart _ _ _ _ _ Hput); [done|apply baseline_not_in..].
  - apply wp_lift_bind; [intros ? [= <-]|done|done]. cbn zeta. rewrite !join_name, !join_absolute.
    apply wp_bind, wp_caught. pose proof (begun_temporary _ Hbegun) as Ht.
    eapply wp_mono; [apply (wp_copy_tree fuel baseline temporary app n)|]; try done.
    + apply Hbegun.
    + by destruct ks.
    + unfold dir_at. by rewrite Ht.
    + by rewrite at_app, Ht.
    + rewrite <- app_assoc. apply baseline_not_in.
    + rewrite <- app_assoc. apply baseline_not_in.
    + intros o root2 (Hs & HP & HO). pose proof (begun_staged _ _ Hbegun Hs) as Hst. destruct o as [stats|e|]; [| |done]; cbn [after].
      * destruct (HO eq_refl) as (n' & Hn' & Hal). wp_step.
        eapply wp_mono; [by eapply wp_finish_generation|]. intros [g|e|] root3; [|done|done].
        intros [-> Hc]. by eexists _, _.
      * wp_step. eapply wp_mono; [by apply wp_fail_generation|]. by intros o root3 [-> Hun].
Qed.

Lemma wp_materialize fuel root :
  (depth n <= fuel)%nat -> linkless root generations -> at_ root place = None -> at_ root baseline = Some n ->
  wp (materialize_derived fuel (absolute R) id (absolute baseline) derived_from) root made.
Proof.
  intros Hdepth Hl Hnone Hb. unfold materialize_derived.
  assert (view root place = None) as Hview by (unfold view; by rewrite Hnone).
  apply wp_lift_bind; [intros [] _|intros e _; by apply nothing_unusable|unfold validate_generation_id; by case_match].
  apply wp_guard_bind; [intros _|intros _; by apply nothing_unusable].
  unfold generations_path. rewrite join_absolute, place_absolute.
  eapply wp_seq; [apply (wp_create_dir_all cwd (fun r1 => stays generations root r1 /\ view r1 place = None)); [by split|done|]
    |intros [] root1 ([[Hs Hv] _] & _ & HO)|intros e root1 ([[Hs Hv] _] & _); by apply nothing_unusable|by intros root1 (_ & [] & _)].
  - intros p x r1 r2 Hp [Hs Hv] Hno Hput. split; [etrans; [exact Hs|by eapply mkdir_stays]|].
    destruct Hp as [s Hs']. unfold view. rewrite Hs', <- app_assoc, (at_put_below _ _ _ _ _ Hput). by destruct s.
  - specialize (HO eq_refl). wp_step.
    rewrite exists_on_linkless by (apply linkless_snoc; [by apply dir_linkless|]; intros t Ht; unfold view in Hv; by rewrite Ht in Hv).
    rewrite Hv, bool_decide_eq_false_2 by by intros [? ?]. apply wp_materialize_new; [done..|].
    rewrite Hs; [done|apply baseline_apart..].
Qed.

Lemma reused_made stats created_at :
  reused id (absolute place) (materialized_marker id app (absolute baseline) derived_from stats created_at) =
  materialized stats created_at.
Proof.
  destruct stats as [clones links files bytes]. unfold reused, materialized.
  change (vget (materialized_marker id app (absolute baseline) derived_from (Stats.mk clones links files bytes) created_at)
            "applicationName" ≫= as_str) with (Some app).
  cbn [default from_option]. rewrite join_name, join_absolute. by destruct derived_from.
Qed.
Lemma reuse_run stats created_at fuel other_baseline other_derived root w :
  file_name (absolute R) <> Some "generations" ->
  complete root (materialized_marker id app (absolute baseline) derived_from stats created_at) ->
  materialize_derived fuel (absolute R) id other_baseline other_derived root w = (Ok (materialized stats created_at), root, w).
Proof.
  intros Hroot [Hm _]. apply fmap_Some in Hm as ([text| | |] & Hat & Htext); try done. injection Htext as <-.
  assert (dir_at root place = true) as Hd by by eapply at_above.
  assert (dir_at root generations = true) as Hg by by eapply dir_prefix.
  unfold materialize_derived. destruct id_proper as (Hid & _ & _). unfold handler.
  rewrite (bind_run_Ok (lift _) _ _ _ tt root w) by by rewrite Hid.
  rewrite guard_run, bool_decide_eq_false_2 by done. cbn [negb].
  unfold generations_path. rewrite join_absolute, place_absolute.
  rewrite (bind_run_Ok (create_dir_all _ _ _) _ _ _ _ _ _ (create_dir_all_there cwd _ _ _ _ Hg)).
  rewrite (bind_run_Ok get _ _ _ _ _ _ eq_refl). rewrite exists_on_linkless by by apply dir_linkless.
  apply dir_view in Hd as Hv. rewrite Hv, bool_decide_eq_true_2 by by eexists.
  unfold read_marker, marker_at. rewrite join_absolute.
  rewrite (bind_run_Ok _ _ _ _ (materialized_marker id app (absolute baseline) derived_from stats created_at) root w).
  2:{ unfold mbind, M_bind, get, lift. rewrite metadata_plain, Hat by by eapply plain_at. by rewrite (materialized_text texts). }
  rewrite decide_True by done. by rewrite reused_made.
Qed.
End materializing.

(** A baseline that can be copied to a generation: its name, with what follows the
    first [.app] cut off, is a name and not the marker's, and it is apart from the
    generations. *)
Record good_baseline (R ks : list string) (k : string) (n root : node) : Prop := {
  baseline_there : at_ root (ks ++ [k]) = Some n;
  baseline_is_tidy : tidy n;
  baseline_named : components (application_name k) = [Normal (application_name k)] /\ application_name k <> marker_name;
  baseline_outside : (~ (R ++ ["generations"]) `prefix_of` (ks ++ [k])) /\ ~ (ks ++ [k]) `prefix_of` (R ++ ["generations"]);
}.

(** C32. A generation appears complete.  When materialising succeeds, the generation's
    directory holds the baseline, file by file and link by link, and a marker with
    what was answered.  When it fails, at any call, nothing at the place passes for
    a materialised generation.  A baseline that is not deeper than the fuel is
    always copied through. *)
Theorem generation_appears_complete fuel R id ks k n derived_from root :
  json_texts -> proper_id id -> good_baseline R ks k n root -> (depth n <= fuel)%nat ->
  linkless root (R ++ ["generations"]) -> at_ root ((R ++ ["generations"]) ++ [id]) = None ->
  wp (materialize_derived fuel (absolute R) id (absolute (ks ++ [k])) derived_from) root
    (made R id ks k n derived_from).
Proof. intros Htexts Hid [Hb Ht Hn Ho] Hdepth Hl Hnone. by apply wp_materialize. Qed.

(** Materialising again gives the same generation.  Once a generation has been
    materialised, a request for it (whatever the baseline and the origin it names) is
    answered as the first one was, from the marker, and changes nothing. *)
Theorem materialize_again fuel R id ks k n derived_from root :
  json_texts -> proper_id id -> good_baseline R ks k n root -> (depth n <= fuel)%nat ->
  linkless root (R ++ ["generations"]) -> at_ root ((R ++ ["generations"]) ++ [id]) = None ->
  file_name (absolute R) <> Some "generations" ->
  wp (materialize_derived fuel (absolute R) id (absolute (ks ++ [k])) derived_from) root (fun o root' =>
    forall g, o = Ok g -> forall fuel' baseline' derived_from' w,
      materialize_derived fuel' (absolute R) id baseline' derived_from' root' w = (Ok g, root', w)).
Proof.
  intros Htexts Hid [Hb Ht Hn Ho] Hdepth Hl Hnone Hname.
  eapply wp_mono; [by apply (wp_materialize Htexts R id ks k n derived_from)|].
  intros o root' Hmade g -> fuel' baseline' derived_from' w. destruct Hmade as (stats & created_at & -> & Hc).
  by apply (reuse_run Htexts R id ks k n derived_from).
Qed.

(** ** An overlay replaces what it covers *)

Lemma suffix_ne (a b p q : string) : String.length p = String.length q -> p <> q -> a +:+ p <> b +:+ q.
Proof.
  intros Hlen Hne Heq. apply Hne. assert (String.length a = String.length b) as Hab.
  { apply (f_equal String.length) in Heq. rewrite !Str.length_app in Heq. lia. }
  apply (f_equal (Str.drop (String.length a))) in Heq. rewrite Str.drop_app_length, Hab, Str.drop_app_length in Heq. done.
Qed.
Lemma overlay_names_ne k1 k2 : overlay_name k1 ".tmp" <> overlay_name k2 ".old".
Proof.
  unfold overlay_name. rewrite <- !Str.app_assoc. by apply suffix_ne.
Qed.

Lemma unlink_in root root' ns x :
  dir_at root ns = true -> unlink cwd (absolute (ns ++ [x])) root = Some root' -> agrees_outside [ns ++ [x]] root root'.
Proof.
  intros Hd. unfold unlink. rewrite lplace_in by done. cbn. destruct (at_ root (ns ++ [x])) as [n|]; [|done]. cbn.
  destruct (is_dir n); [done|]. intros Hcut. apply (cut_agrees _ (ns ++ [x]) []); [by left|by rewrite app_nil_r].
Qed.
Lemma occupied_at root ns x :
  dir_at root ns = true -> occupied root (absolute (ns ++ [x])) = bool_decide (is_Some (at_ root (ns ++ [x]))).
Proof.
  intros Hd. unfold occupied, Copies.exists_on, symlink_on, symlink_metadata. rewrite lplace_in by done.
  cbn [mbind option_bind]. destruct (at_ root (ns ++ [x])) as [n|] eqn:Hat.
  - rewrite (bool_decide_eq_true_2 (is_Some (Some n))) by by eexists. destruct n as [c|es|t|].
    3: { cbn. by rewrite orb_true_r. }
    all: rewrite metadata_plain, Hat by (by eapply plain_at); by rewrite bool_decide_eq_true_2 by by eexists.
  - rewrite metadata_at, Hat; [done|]. apply linkless_snoc; [by apply dir_linkless|by rewrite Hat].
Qed.

Lemma view_below r1 r2 p q z : at_ r1 p = at_ r2 q -> view r1 (p ++ z) = view r2 (q ++ z).
Proof. intros Heq. unfold view. by rewrite (at_app r1 p z), (at_app r2 q z), Heq. Qed.

Section replacing.
Variables (ms : list string) (y : string) (src : list string) (n root : node).
Abbreviation target := (ms ++ [y]).
Definition overlay_place (k : Z) (suffix : string) : list string := ms ++ [overlay_name k suffix].
Hypothesis parent_there : dir_at root ms = true.
Hypothesis names_free : forall k s, s ∈ [".tmp"; ".old"] -> at_ root (overlay_place k s) = None /\ y <> overlay_name k s.
Hypothesis source_there : at_ root src = Some n /\ src <> [] /\ ~ src `prefix_of` ms.
Hypothesis trees_tidy : tidy n /\ forall old, at_ root target = Some old -> tidy old.

(** Nothing changes but at the target and at names of overlays. *)
Definition only_there (root' : node) : Prop :=
  forall q, ~ target `prefix_of` q -> (forall k s, ~ overlay_place k s `prefix_of` q) -> view root' q = view root q.
(** After the overlay: the old tree is somewhere until the new one stands. *)
Definition overlaid (o : outcome RpcError.t unit) (root' : node) : Prop :=
  match o with
  | Ok _ => forall z, view root' (target ++ z) = view n z
  | Err _ =>
      (forall z, view root' (target ++ z) = view root (target ++ z)) \/
      (exists k, forall z, view root' (overlay_place k ".old" ++ z) = view root (target ++ z)) \/
      (forall z, view root' (target ++ z) = view n z)
  | Panic => False
  end.

Lemma only_agrees places root1 root2 :
  (forall p, p ∈ places -> p = target \/ exists k s, p = overlay_place k s) -> agrees_outside places root1 root2 ->
  only_there root1 -> only_there root2.
Proof.
  intros Hp Ha Ho q Hq Hqs. rewrite Ha; [by apply Ho|]. intros p Hin. destruct (Hp p Hin) as [->|(k & s & ->)]; auto.
Qed.
Lemma moved_agrees p q root1 root2 : moved p q root1 root2 -> agrees_outside [p; q] root1 root2.
Proof. intros Hm c Hc. apply (moved_rest _ _ _ _ Hm); apply Hc; pick. Qed.
Lemma only_dir root1 : only_there root1 -> dir_at root1 ms = true.
Proof.
  intros Ho. apply dir_view. rewrite Ho; [by apply dir_view|apply snoc_not_above|]. intros k s. apply snoc_not_above.
Qed.
Lemma rename_between a b root1 root2 :
  dir_at root1 ms = true -> a <> b -> rename cwd (absolute (ms ++ [a])) (absolute (ms ++ [b])) root1 = Some root2 ->
  moved (ms ++ [a]) (ms ++ [b]) root1 root2.
Proof. intros Hd%dir_linkless Hne. apply rename_moves; [done..|]. by intros [_ [= ?]]%app_inj_tail. Qed.

(** Removing the old tree. *)
Lemma wp_remove_old x root1 :
  dir_at root1 ms = true -> (forall old, at_ root1 (ms ++ [x]) = Some old -> tidy old) ->
  wp (if dir_on root1 (absolute (ms ++ [x])) then or_error (io_error REPLACE_FAILED (display (absolute target))) (remove_dir_all cwd REPLACE_FAILED (absolute (ms ++ [x])))
      else call REPLACE_FAILED (absolute target) (unlink cwd (absolute (ms ++ [x])))) root1
    (fun o root2 => agrees_outside [ms ++ [x]] root1 root2 /\ o <> Panic).
Proof.
  intros Hd Htidy. destruct (dir_on _ _).
  2:{ apply wp_call; [|done]. intros root2 Hu. split; [by apply unlink_in|done]. }
  apply wp_or_error. eapply (wp_mono _ _ (fun o root2 => agrees_outside [ms ++ [x]] root1 root2 /\ o <> Panic));
    [|by intros [[]|e|] root2 [? ?]].
  destruct (at_ root1 (ms ++ [x])) as [old|] eqn:Hat.
  2:{ apply wp_calm; [apply calm_remove_dir_all|]. apply wp_from, from_remove_dir_all; [|by rewrite Hat].
      apply linkless_snoc; [by apply dir_linkless|by rewrite Hat]. }
  destruct (is_link old) eqn:Hk.
  - destruct old as [| |t|]; try done. unfold remove_dir_all. wp_step. rewrite lplace_in by done.
    cbn [mbind option_bind]. rewrite Hat. cbn [mbind option_bind].
    apply wp_call; [|done]. intros root2 Hu. split; [by apply unlink_in|done].
  - apply wp_calm; [apply calm_remove_dir_all|]. apply wp_from, from_remove_dir_all; [by eapply there_linkless|by rewrite Hat].
Qed.

(** A free name is apart from the target and from the other names. *)
Lemma target_free k s : s ∈ [".tmp"; ".old"] -> ~ overlay_place k s `prefix_of` target.
Proof. intros Hs. apply names_apart_below. destruct (names_free k s Hs) as [_ Hne]. congruence. Qed.
Lemma free_target k s : s ∈ [".tmp"; ".old"] -> ~ target `prefix_of` overlay_place k s.
Proof. intros Hs. apply names_apart_below. by destruct (names_free k s Hs) as [_ Hne]. Qed.
Lemma tmp_in : ".tmp" ∈ [".tmp"; ".old"].
Proof. by left. Qed.
Lemma old_in : ".old" ∈ [".tmp"; ".old"].
Proof. by right; left. Qed.

(** The staged tree, with the target as it was. *)
Record overlay_staged (k1 : Z) (root1 : node) : Prop := {
  staged_only : only_there root1;
  staged_target : at_ root1 target = at_ root target;
  staged_tree : forall z, view root1 (overlay_place k1 ".tmp" ++ z) = view n z;
  staged_free : forall k2, at_ root1 (overlay_place k2 ".old") = None;
}.

(** The target has been moved away to [.old]. *)
Record overlay_cleared (k1 k2 : Z) (root2 : node) : Prop := {
  away_only : only_there root2;
  away_old : at_ root2 (overlay_place k2 ".old") = at_ root target;
  away_tree : forall z, view root2 (overlay_place k1 ".tmp" ++ z) = view n z;
}.
Lemma clear_target k1 k2 root1 root2 :
  overlay_staged k1 root1 -> rename cwd (absolute target) (absolute (overlay_place k2 ".old")) root1 = Some root2 ->
  overlay_cleared k1 k2 root2.
Proof.
  intros [Ho Ht Htree Hfree] Hren. apply rename_between in Hren as Hm; [|by apply only_dir|by destruct (names_free k2 ".old" old_in)].
  split.
  - eapply only_agrees; [|by eapply moved_agrees|exact Ho]. intros p. rewrite !elem_of_cons. intros [->|[->|?%not_elem_of_nil]]; eauto. done.
  - unfold overlay_place. by rewrite (moved_node _ _ _ _ Hm).
  - intros z. rewrite (moved_rest _ _ _ _ Hm); [apply Htree| |].
    + unfold overlay_place; rewrite <- app_assoc; apply names_apart_below. by destruct (names_free k1 ".tmp" tmp_in).
    + unfold overlay_place; rewrite <- app_assoc; apply names_apart_below, not_eq_sym, overlay_names_ne.
Qed.
(** What follows when the target is away. *)
Lemma wp_put_overlay k1 k2 root2 :
  overlay_cleared k1 k2 root2 ->
  wp (moved ← attempt (rename cwd (absolute (overlay_place k1 ".tmp")) (absolute target));
      if (moved : bool) then
        root ← get;
        if dir_on root (absolute (overlay_place k2 ".old"))
        then or_error (io_error REPLACE_FAILED (display (absolute target))) (remove_dir_all cwd REPLACE_FAILED (absolute (overlay_place k2 ".old")))
        else call REPLACE_FAILED (absolute target) (unlink cwd (absolute (overlay_place k2 ".old")))
      else
        _ ← attempt (rename cwd (absolute (overlay_place k2 ".old")) (absolute target));
        throw (io_error REPLACE_FAILED (display (absolute target)))) root2 (fun o root' => only_there root' /\ overlaid o root').
Proof.
  intros [Ho Hold Htree]. unfold overlay_place in Hold. apply wp_bind, wp_attempt; cbn [after].
  - intros root3 Hren. apply rename_between in Hren as Hm; [|by apply only_dir|by apply not_eq_sym; destruct (names_free k1 ".tmp" tmp_in)].
    assert (only_there root3) as Ho3.
    { eapply only_agrees; [|by eapply moved_agrees|exact Ho]. intros p. rewrite !elem_of_cons. intros [->|[->|?%not_elem_of_nil]]; eauto. done. }
    wp_step. eapply wp_mono; [apply wp_remove_old; [by apply only_dir|]|].
    + intros old. rewrite (moved_apart _ _ _ _ Hm), Hold; [apply trees_tidy|..].
      * apply names_apart_below, overlay_names_ne.
      * apply names_apart_below, not_eq_sym, overlay_names_ne.
      * by apply (free_target k2), old_in.
      * by apply (target_free k2), old_in.
    + intros o root4 [Ha HP]. assert (forall z, view root4 (target ++ z) = view n z) as Hnew.
      { intros z. rewrite Ha; [rewrite (moved_there _ _ _ _ Hm); apply Htree|]. intros p ->%list_elem_of_singleton.
        unfold overlay_place; rewrite <- app_assoc; apply names_apart_below. apply not_eq_sym. by destruct (names_free k2 ".old" old_in). }
      split; [|by destruct o; [|right; right|]]. eapply only_agrees; [|exact Ha|exact Ho3].
      intros p ->%list_elem_of_singleton. right. by exists k2, ".old".
  - apply wp_bind, wp_attempt; cbn [after].
    + intros root3 Hren. apply rename_between in Hren as Hm; [|by apply only_dir|by apply not_eq_sym; destruct (names_free k2 ".old" old_in)].
      apply wp_throw. split; [|left; intros z; rewrite (moved_there _ _ _ _ Hm); by apply view_below].
      eapply only_agrees; [|by eapply moved_agrees|exact Ho]. intros p. rewrite !elem_of_cons. intros [->|[->|?%not_elem_of_nil]]; eauto. done.
    + apply wp_throw. split; [done|]. right. left. exists k2. intros z. by apply view_below.
Qed.
Lemma wp_replace_target k1 root1 :
  overlay_staged k1 root1 ->
  wp (replace_target (absolute ms) (absolute (overlay_place k1 ".tmp")) (absolute target)) root1
    (fun o root' => only_there root' /\ overlaid o root').
Proof.
  intros Hst. pose proof Hst as [Ho Ht Htree Hfree]. apply only_dir in Ho as Hd.
  assert (forall z, view root1 (target ++ z) = view root (target ++ z)) as Hsame by (intros z; by apply view_below).
  unfold replace_target. wp_step. rewrite occupied_at by done. case_bool_decide as Hocc.
  - wp_step. rewrite join_absolute.
    apply (wp_seq _ _ _ (fun o root2 => match o with Ok _ => overlay_cleared k1 n0 root2 | Err _ => root2 = root1 | Panic => False end)).
    + apply wp_call; [|done]. intros root2. by apply clear_target.
    + intros [] root2. apply wp_put_overlay.
    + intros e root2 ->. split; [done|by left].
    + done.
  - apply wp_call; [|split; [done|by left]]. intros root2 Hren.
    apply rename_between in Hren as Hm; [|done|by apply not_eq_sym; destruct (names_free k1 ".tmp" tmp_in)]. split.
    + eapply only_agrees; [|by eapply moved_agrees|exact Ho]. intros p. rewrite !elem_of_cons. intros [->|[->|?%not_elem_of_nil]]; eauto. done.
    + intros z. rewrite (moved_there _ _ _ _ Hm). apply Htree.
Qed.

Lemma wp_install_overlay fuel :
  (depth n <= fuel)%nat ->
  wp (install_overlay fuel (absolute src) (absolute target)) root (fun o root' => only_there root' /\ overlaid o root').
Proof.
  intros Hdepth. destruct source_there as (Hsrc & Hne & Hms). unfold install_overlay. rewrite parent_absolute.
  apply wp_lift_bind; [intros ? [= <-]|done|done].
  apply wp_there_bind; [done|]. apply wp_now_bind. intros k1. cbn zeta. rewrite join_absolute. fold (overlay_place k1 ".tmp").
  destruct (names_free k1 ".tmp" tmp_in) as [Hfree Hney].
  assert (only_there root) as Hstart by done.
  assert (~ overlay_place k1 ".tmp" `prefix_of` src) as Hapart.
  { intros [s Hx]. rewrite Hx, (at_app root (overlay_place k1 ".tmp") s), Hfree in Hsrc. done. }
  assert (~ src `prefix_of` overlay_place k1 ".tmp") as Hapart'.
  { intros [Heq|Hp]%prefix_snoc_inv; [|done]. fold (overlay_place k1 ".tmp") in Heq. by rewrite Heq, Hfree in Hsrc. }
  eapply wp_seq; [apply (wp_copy_tree fuel src ms (overlay_name k1 ".tmp") n); [done|exact (proj1 trees_tidy)|done..]| | |by intros root1 (_ & [] & _)].
  - intros stats root1 (Hs & _ & HO). destruct (HO eq_refl) as (n' & Hn' & Hal). apply wp_replace_target. split.
    + eapply only_agrees; [|apply Hs|done]. intros p ->%list_elem_of_singleton. right. by exists k1, ".tmp".
    + apply Hs; [by apply target_free, tmp_in|by apply free_target, tmp_in].
    + intros z. rewrite (view_app _ _ _ _ Hn'). apply Hal.
    + intros k2. rewrite (proj1 Hs); [by apply names_free, old_in|..].
      * apply names_apart_below, overlay_names_ne.
      * apply names_apart_below, not_eq_sym, overlay_names_ne.
  - intros e root1 (Hs & _). split.
    + eapply only_agrees; [|apply Hs|done]. intros p ->%list_elem_of_singleton. right. by exists k1, ".tmp".
    + left. intros z. apply Hs. intros p ->%list_elem_of_singleton. unfold overlay_place; rewrite <- app_assoc; by apply names_apart_below, not_eq_sym.
Qed.
End replacing.

(** An overlay replaces what it covers, and loses nothing.  Applying a file, a
    link, or a directory that is to replace, puts that tree at the target.  When it
    fails, at any call, the target is what it was, or stands whole under a name of
    the overlay's beside it, or is the new tree already.  Nothing else changes but
    names of overlays in the target's directory, which are free before. *)
Theorem overlay_loses_nothing fuel ms y src n root replace :
  is_dir n && negb replace = false -> (depth n <= fuel)%nat ->
  dir_at root ms = true ->
  (forall k s, s ∈ [".tmp"; ".old"] -> at_ root (overlay_place ms k s) = None /\ y <> overlay_name k s) ->
  at_ root src = Some n /\ src <> [] /\ ~ src `prefix_of` ms ->
  tidy n /\ (forall old, at_ root (ms ++ [y]) = Some old -> tidy old) ->
  wp (apply_overlay_tree fuel (absolute src) (absolute (ms ++ [y])) replace) root
    (fun o root' => only_there ms y root root' /\ overlaid ms y n root o root').
Proof.
  intros Hleaf Hdepth Hd Hfree Hsrc Htidy. pose proof Hsrc as (Hat & Hne & _).
  assert (wp (install_overlay fuel (absolute src) (absolute (ms ++ [y]))) root
            (fun o root' => only_there ms y root root' /\ overlaid ms y n root o root')) as Hinstall
    by by eapply wp_install_overlay.
  destruct fuel; cbn [apply_overlay_tree]; wp_step; rewrite (src_is src root Hne n Hat);
    (apply wp_lift_bind; [intros ? [= <-]|done|done]); rewrite Hleaf; exact Hinstall.
Qed.
End deployments.

(** ** A small deployment *)

#[local] Instance bit_texts : JsonText := {|
  from_slice s := match text_value s with Some v => inr v | None => inl "not a text" end;
  to_vec_pretty := value_text;
|}.
#[local] Instance no_overlays : Serde (list Overlay.t) := null_serde.

Lemma bit_texts_read : json_texts.
Proof.
  split.
  - intros id e n. cbn beta iota delta [from_slice to_vec_pretty bit_texts]. by rewrite text_of_value.
  - intros id name b d s n. cbn beta iota delta [from_slice to_vec_pretty bit_texts]. by rewrite text_of_value.
  - by exists "not a text".
Qed.

Definition ready_marker : Value := json_object [("generationId", VString "g2"); ("state", VString "ready")].
Definition deployment : node :=
  Dir [("deploy", Dir [("generations", Dir [("g1", Dir [("app", File "one")]);
                                            ("g2", Dir [("app", File "two"); ("generation.json", File (value_text ready_marker))])]);
                       ("current", Link "generations/g1")]);
       ("base", Dir [("tool", Dir [("bin", File "run"); ("lib", Link "bin")])])].
Definition deploy_world : world := sample_world (fun _ => true).

Lemma g2_proper : proper_id "g2".
Proof. split_and!; done. Qed.

Definition activated := activate [] 7 (absolute ["deploy"]) "g2" deployment deploy_world.
Lemma activation_switches_links_witness :
  item_of <$> metadata [] activated.1.2 (absolute (["deploy"] ++ "current" :: ["app"])) = Some (IsFile "two") /\
  at_ activated.1.2 ["deploy"; "previous"] = Some (Link "generations/g1").
Proof.
  pose proof (activation_switches_links [] 7 ["deploy"] "g2" deployment ltac:(reflexivity) deploy_world) as [Hs Hr].
  fold activated in Hs, Hr. assert (is_ok activated.1.1 = true) as Hok by (vm_compute; reflexivity).
  destruct (Hr Hok) as [_ Hread].
  assert (at_ deployment (["deploy"] ++ "generations" :: "g2" :: ["app"]) = Some (File "two")) as Happ by (vm_compute; reflexivity).
  specialize (Hread g2_proper ["app"] (File "two") Happ eq_refl).
  revert Hs Hok Hread. generalize activated. intros [[[v|e|] root'] w'] Hs Hok Hread; [|done..]. split; [exact Hread|apply Hs].
Defined.

Definition recorded := record_state [] 7 (absolute ["deploy"]) "g2" "active" (VObject []) deployment deploy_world.
Lemma record_is_atomic_witness :
  match recorded.1.1 with
  | Ok v => vget v "state" = Some (VString "active") /\ vget v "generationId" = Some (VString "g2") /\
            at_ recorded.1.2 ["deploy"; "generations"; "g2"; "generation.json"] = Some (File (value_text v))
  | _ => False
  end.
Proof.
  pose proof (record_is_atomic [] 7 ["deploy"] "g2" ["deploy"; "generations"; "g2"] "active" (VObject []) deployment
    ltac:(reflexivity) ltac:(reflexivity) ltac:(by intros t) deploy_world) as Hr.
  fold recorded in Hr. assert (is_ok recorded.1.1 = true) as Hok by (vm_compute; reflexivity).
  revert Hr Hok. generalize recorded. intros [[[v|e|] root'] w'] Hr Hok; [|done..]. destruct Hr as (_ & (old & Hold & Hup) & Hat & _).
  split_and!; [by apply Hup| |exact Hat]. rewrite (updated_rest _ _ _ _ Hup) by (rewrite !not_elem_of_cons; split_and!; try done; apply not_elem_of_nil).
  assert (marker_at [] deployment (absolute (["deploy"; "generations"; "g2"] ++ [marker_name])) = Ok ready_marker) as Hm
    by (vm_compute; reflexivity).
  rewrite Hm in Hold. by injection Hold as <-.
Defined.

Definition no_size (n : node) : Z := 0.
Definition tool : node := Dir [("bin", File "run"); ("lib", Link "bin")].
Lemma tool_tidy : tidy tool.
Proof. split_and!; try done. repeat constructor; rewrite ?list_elem_of_singleton; try done; by intros ?%not_elem_of_nil. Qed.
Lemma tool_is_good : good_baseline ["deploy"] ["base"] "tool" tool deployment.
Proof. split; [reflexivity|apply tool_tidy|by split|]. split; by intros [s Hs]. Qed.
Lemma g3_free : linkless deployment ["deploy"; "generations"] /\ at_ deployment ["deploy"; "generations"; "g3"] = None.
Proof. split; [|reflexivity]. apply no_links_linkless. vm_compute. reflexivity. Qed.

Definition materializing_g3 (w : world) :=
  materialize_derived [] 7 no_size Catalog.Linux 2 (absolute ["deploy"]) "g3" (absolute (["base"] ++ ["tool"])) (Some "g2") deployment w.
Lemma generation_appears_complete_witness :
  view (materializing_g3 deploy_world).1.2 ["deploy"; "generations"; "g3"; "tool"; "lib"] = Some (IsLink "bin").
Proof.
  pose proof (generation_appears_complete [] 7 no_size Catalog.Linux 2 ["deploy"] "g3" ["base"] "tool" tool (Some "g2") deployment
    bit_texts_read ltac:(done) tool_is_good ltac:(vm_compute; lia) (proj1 g3_free) (proj2 g3_free) deploy_world) as Hmade.
  fold (materializing_g3 deploy_world) in Hmade.
  assert (is_ok (materializing_g3 deploy_world).1.1 = true) as Hok by (vm_compute; reflexivity).
  revert Hmade Hok. generalize (materializing_g3 deploy_world). intros [[[g|e|] root'] w'] Hmade Hok; [|done..].
  destruct Hmade as (stats & created_at & _ & Hc). exact (complete_application _ _ _ _ _ _ Hc ["lib"]).
Defined.

Lemma materialize_again_witness :
  match (materializing_g3 deploy_world).1.1 with
  | Ok g => materialize_derived [] 7 no_size Catalog.Linux 0 (absolute ["deploy"]) "g3" (absolute ["nowhere"]) None
              (materializing_g3 deploy_world).1.2 deploy_world = (Ok g, (materializing_g3 deploy_world).1.2, deploy_world)
  | _ => False
  end.
Proof.
  pose proof (materialize_again [] 7 no_size Catalog.Linux 2 ["deploy"] "g3" ["base"] "tool" tool (Some "g2") deployment
    bit_texts_read ltac:(done) tool_is_good ltac:(vm_compute; lia) (proj1 g3_free) (proj2 g3_free) ltac:(done) deploy_world) as Hagain.
  fold (materializing_g3 deploy_world) in Hagain.
  assert (is_ok (materializing_g3 deploy_world).1.1 = true) as Hok by (vm_compute; reflexivity).
  revert Hagain Hok. generalize (materializing_g3 deploy_world). intros [[[g|e|] root'] w'] Hagain Hok; [|done..].
  exact (Hagain g eq_refl 0%nat (absolute ["nowhere"]) None deploy_world).
Defined.

Definition overlaying := apply_overlay_tree [] 7 no_size Catalog.Linux 2 (absolute ["base"; "tool"])
  (absolute (["deploy"; "generations"; "g1"] ++ ["app"])) true deployment deploy_world.
Lemma overlay_loses_nothing_witness :
  view overlaying.1.2 ["deploy"; "generations"; "g1"; "app"; "bin"] = Some (IsFile "run").
Proof.
  pose proof (overlay_loses_nothing [] 7 no_size Catalog.Linux 2 ["deploy"; "generations"; "g1"] "app" ["base"; "tool"] tool deployment true
    ltac:(reflexivity) ltac:(vm_compute; lia) ltac:(reflexivity)) as Ho.
  specialize (Ho ltac:(intros k s _; split; [reflexivity|discriminate])).
  specialize (Ho ltac:(split_and!; [reflexivity|done|by intros [s Hs]]) ltac:(split; [apply tool_tidy|by intros old [= <-]]) deploy_world).
  fold overlaying in Ho. assert (is_ok overlaying.1.1 = true) as Hok by (vm_compute; reflexivity).
  revert Ho Hok. generalize overlaying. intros [[[[]|e|] root'] w'] Ho Hok; [|done..]. exact (proj2 Ho ["bin"]).
Defined.

(** ** Where the code is weak *)

(** The ids [.] and [..] pass as names of generations: [..] is the deployment root
    itself, whose marker may be recorded and whose activation makes [current] show
    the root. *)
Example dot_dot_is_a_generation_id :
  validate_generation_id ".." = Ok tt /\
  generation_path (absolute ["deploy"]) ".." = absolute ["deploy"; "generations"] ++ [ParentDir].
Proof. by vm_compute. Qed.

(** A marker that could not be written blocks the name: the temporary directory
    stays, and the next attempt of the same process fails to make it, whatever the
    baseline. *)
Definition failing_at (n : nat) : world := sample_world (fun i => negb (Nat.eqb i n)).
Example a_failed_marker_blocks_the_name :
  let first := materializing_g3 (failing_at 7) in
  let second := materialize_derived [] 7 no_size Catalog.Linux 2 (absolute ["deploy"]) "g3" (absolute ["base"; "tool"]) None
                  first.1.2 deploy_world in
  is_ok first.1.1 = false /\ match second.1.1 with Err e => RpcError.code e = CREATE_FAILED | _ => False end.
Proof. by vm_compute. Qed.

(** An activation that was cut off after its link was made blocks the next one when
    the generation it shows has gone: the test for the old link follows it. *)
Definition interrupted : node :=
  Dir [("deploy", Dir [("generations", Dir [("g2", Dir [("generation.json", File (value_text ready_marker))])]);
                       (".current.7.tmp", Link "generations/gone")])].
Example a_dangling_link_blocks_activation :
  is_ok (activate [] 7 (absolute ["deploy"]) "g2" interrupted deploy_world).1.1 = false.
Proof. by vm_compute. Qed.

(** Evidence that is no object makes the handler of a runtime marker panic. *)
Example evidence_without_fields_panics :
  (application_record (Roots [absolute ["deploy"]] []) (Fences.open "e" Catalog.Linux None) [] 7
     (json_object [("generationRoot", VString "/deploy"); ("evidence", VString "ok"); ("runtimeMarker", VNull);
                   ("generationId", VString "g2"); ("state", VString "active")]) deployment deploy_world).1.1 = Panic.
Proof. by vm_compute. Qed.

(** An overlay whose target is empty and that is to replace takes the place of the
    application itself. *)
Example empty_target_replaces_the_application :
  let run := apply_overlays [] 7 no_size Catalog.Linux 2 (absolute ["deploy"; "generations"; "g1"])
               [Overlay.mk "/base/tool" "" true] deployment deploy_world in
  is_ok run.1.1 = true /\ view run.1.2 ["deploy"; "generations"; "g1"; "bin"] = Some (IsFile "run") /\
  view run.1.2 ["deploy"; "generations"; "g1"; "app"] = None.
Proof. by vm_compute. Qed.
End Deployments.
