(* ===== verification/Board.v ===== *)
(** * The workspace board ([crates/workbench-cli/src/main.rs])

    The dashboard groups what the controller reports (sessions, runs, tasks,
    agents, observations) into one entry per workspace session, with a status,
    the open blocker and the recent events of each.  [build_workspace_dashboard]
    is a function of those reports and the time. *)

From Stdlib Require Import String.
From S2P Require Import Prelude RustStd Sequences Json.

Module Board.
Import Slice.

(** ** Reading reports *)

Definition text (v : Value) (key : string) : option string := vget v key ≫= as_str.
Definition number (v : Value) (key : string) : option Z := vget v key ≫= as_u64.
Definition elements_of (v : Value) (key : string) : list Value := default [] (vget v key ≫= as_array).
Definition is_text (v : Value) (key value : string) : bool := bool_decide (text v key = Some value).
Definition one_of (values : list string) (v : Value) (key : string) : bool :=
  match text v key with Some s => bool_decide (s ∈ values) | None => false end.

(** [iter().find_map(f)] *)
Fixpoint find_map {A B} (f : A -> option B) (l : list A) : option B :=
  match l with [] => None | x :: l' => match f x with Some y => Some y | None => find_map f l' end end.

Fixpoint max_of (l : list Z) : option Z :=
  match l with [] => None | x :: l' => Some (match max_of l' with Some y => Z.max x y | None => x end) end.

(** A [HashMap] of the pairs a list gives, the last one for a key. *)
Definition collect (pairs : list (string * string)) : gmap string string :=
  foldl (fun m kv => <[kv.1 := kv.2]> m) ∅ pairs.

Definition run_workspaces (runs : list Value) : gmap string string :=
  collect (omap (fun run => r ← text run "runId"; w ← text run "workspaceSessionId"; Some (r, w)) runs).
Definition task_workspaces (tasks : list Value) : gmap string string :=
  collect (omap (fun task => t ← text task "id"; w ← text task "workspaceSessionId"; Some (t, w)) tasks).

Definition meaningful_progress (event : Value) : bool :=
  if is_text event "kind" "blocker" then is_text event "status" "resolved"
  else if is_text event "name" "PreToolUse" then false
  else one_of ["completed"; "succeeded"; "ready"; "active"] event "status" ||
       one_of ["task-state"; "artifact"; "generation"; "handoff"; "readiness"] event "kind".

(** ** One workspace *)

Definition of_workspace (id : string) (v : Value) : bool := is_text v "workspaceSessionId" id.
Definition event_of (runs tasks : gmap string string) (id : string) (event : Value) : bool :=
  bool_decide ((r ← text event "runId"; runs !! r) = Some id) ||
  bool_decide ((t ← text event "taskId"; tasks !! t) = Some id) ||
  bool_decide ((a ← vget event "attributes"; text a "workspaceSessionId") = Some id).
Definition timestamp (event : Value) : Z := default 0 (number event "timestamp").
Definition EVENT_LIMIT : nat := 300.
Definition workspace_events (runs tasks : gmap string string) (id : string) (events : list Value) : list Value :=
  last_n EVENT_LIMIT (sort_by_key timestamp (bfilter (event_of runs tasks id) events)).

Definition default_observability : Value := json_object [
  ("kindLabel", VString "Workspace");
  ("stages", VArray [json_object [("id", VString "activity"); ("label", VString "Activity")]]);
  ("capabilityGroups", VObject []);
  ("defaultStallAfterMs", vnat 300000)].
Definition observability (session : Value) : Value :=
  match vget session "observability" with
  | Some v => if is_object v then v else default_observability
  | None => default_observability
  end.
Definition capability_stages (observability : Value) : gmap string string :=
  let groups := default [] (vget observability "capabilityGroups" ≫= as_object) in
  collect (groups ≫= fun g => (fun capability => (capability, g.1)) <$> omap as_str (default [] (as_array g.2))).

Definition current_stage (observability : Value) (tasks events : list Value) : option string :=
  match find_map (fun event => a ← vget event "attributes"; text a "stage") (rev events) with
  | Some stage => Some stage
  | None =>
      match find_map (fun task => c ← text task "capability"; capability_stages observability !! c) (rev tasks) with
      | Some stage => Some stage
      | None => stages ← vget observability "stages" ≫= as_array; first ← head stages; text first "id"
      end
  end.

(** The open blockers: what the events of each blocker come to. *)
Definition blocker_id (event : Value) : string :=
  default "blocker" (a ← vget event "attributes"; text a "blockerId").
Definition blocker_step (blockers : gmap string Value) (event : Value) : gmap string Value :=
  if negb (is_text event "kind" "blocker") then blockers
  else if is_text event "status" "resolved" then delete (blocker_id event) blockers
  else <[blocker_id event := event]> blockers.
Definition open_blockers (events : list Value) : gmap string Value := foldl blocker_step ∅ events.

Definition FAILED : list string := ["failed"; "failed-to-cancel"; "timed-out"; "outcome-unknown"].
Definition UNFINISHED : list string := ["queued"; "running"; "cancel-requested"; "cancelling"].
Definition has_failed (tasks : list Value) : bool := existsb (fun t => one_of FAILED t "state") tasks.
Definition is_running (runs tasks : list Value) : bool :=
  existsb (fun r => is_text r "status" "running") runs || existsb (fun t => one_of UNFINISHED t "state") tasks.

Definition last_progress_at (runs tasks events : list Value) : Z :=
  match bfind meaningful_progress (rev events) ≫= (fun event => number event "timestamp") with
  | Some t => t
  | None =>
      match max_of (omap (fun t => number t "updatedAt") tasks) with
      | Some t => t
      | None => default 0 (max_of (omap (fun r => number r "startedAt") runs))
      end
  end.
Definition is_overdue (now : Z) (tasks : list Value) : bool :=
  existsb (fun t => one_of ["queued"; "running"] t "state" &&
                    match number t "expectedBy" with Some deadline => now >? deadline | None => false end) tasks.
Definition is_stalled (now : Z) (observability : Value) (runs tasks events : list Value) : bool :=
  let progress := last_progress_at runs tasks events in
  is_running runs tasks &&
  (is_overdue now tasks ||
   ((progress >? 0) && (saturating_sub now progress >? default 300000 (number observability "defaultStallAfterMs")))).
Definition status (now : Z) (observability : Value) (runs tasks events : list Value) : string :=
  if has_failed tasks then "failed"
  else if negb (bool_decide (open_blockers events = ∅)) then "blocked"
  else if is_stalled now observability runs tasks events then "stalled"
  else if is_running runs tasks then "active"
  else "idle".

Section board.
(** The order in which a [HashSet] of the elements of a list gives them. *)
Context (hash_order : list string -> list string).

Definition running_agents (agents : list Value) : list Value := bfilter (fun a => is_text a "state" "running") agents.
Definition active_nodes (tasks agents : list Value) : list string :=
  hash_order (omap (fun t => text t "executorId") (bfilter (fun t => one_of UNFINISHED t "state") tasks) ++
              omap (fun a => text a "executorId") (running_agents agents)).
Definition active_roles (agents : list Value) : list string := hash_order (omap (fun a => text a "role") (running_agents agents)).

Definition workspace (now : Z) (runs tasks agents events : list Value) (session : Value) : option Value :=
  id ← text session "id";
  let own_runs := bfilter (of_workspace id) runs in
  let own_tasks := bfilter (of_workspace id) tasks in
  let own_agents := bfilter (of_workspace id) agents in
  let own_events := workspace_events (run_workspaces runs) (task_workspaces tasks) id events in
  let obs := observability session in
  Some (json_object [
    ("id", VString id);
    ("objective", vindex session "objective");
    ("sessionState", vindex session "state");
    ("observability", obs);
    ("status", VString (status now obs own_runs own_tasks own_events));
    ("currentStage", vopt VString (current_stage obs own_tasks own_events));
    ("currentActivity", default VNull (bfind (fun event => negb (is_text event "kind" "run")) (rev own_events)));
    ("lastProgressAt", vnat (last_progress_at own_runs own_tasks own_events));
    ("activeNodes", VArray (VString <$> active_nodes own_tasks own_agents));
    ("activeRoles", VArray (VString <$> active_roles own_agents));
    ("blocker", default VNull (last (BTree.values (open_blockers own_events))));
    ("runs", VArray own_runs);
    ("tasks", VArray own_tasks);
    ("agents", VArray own_agents);
    ("events", VArray own_events)]).

(** ** The board *)

Definition rank (workspace : Value) : Z :=
  match text workspace "status" with
  | Some "failed" => 0
  | Some "blocked" => 1
  | Some "stalled" => 2
  | Some "active" => 3
  | _ => 4
  end.
Definition unscoped (runs tasks : gmap string string) (event : Value) : bool :=
  match text event "runId" with Some r => bool_decide (runs !! r = None) | None => true end &&
  match text event "taskId" with Some t => bool_decide (tasks !! t = None) | None => true end.

Definition build_workspace_dashboard (snapshot runs_value observations_value : Value) (now : Z) : Value :=
  let sessions := elements_of snapshot "sessions" in
  let runs := default [] (as_array runs_value) in
  let events := elements_of observations_value "events" in
  let tasks := elements_of snapshot "tasks" in
  let agents := elements_of snapshot "agents" in
  json_object [
    ("generatedAt", vnat now);
    ("controller", vindex snapshot "controller");
    ("nodes", default (VArray []) (vget snapshot "executors"));
    ("tunnels", default (VArray []) (vget snapshot "tunnels"));
    ("workspaces", VArray (sort_by_key rank (omap (workspace now runs tasks agents events) sessions)));
    ("unscopedEvents", VArray (bfilter (unscoped (run_workspaces runs) (task_workspaces tasks)) events))].
End board.

(** ** Open blockers *)

(** The last word on the blocker of [e] is [e], and it does not resolve it. *)
Definition is_blocker (event : Value) : bool := is_text event "kind" "blocker".
Definition stands (events : list Value) (e : Value) : Prop :=
  exists earlier later, events = earlier ++ e :: later /\ is_blocker e = true /\ is_text e "status" "resolved" = false /\
    forall x, x ∈ later -> is_blocker x = true -> blocker_id x <> blocker_id e.

Lemma open_blockers_snoc events e : open_blockers (events ++ [e]) = blocker_step (open_blockers events) e.
Proof. unfold open_blockers. by rewrite foldl_app. Qed.

Lemma stands_snoc events x e :
  stands (events ++ [x]) e <->
  (e = x /\ is_blocker x = true /\ is_text x "status" "resolved" = false) \/
  (stands events e /\ (is_blocker x = true -> blocker_id x <> blocker_id e)).
Proof.
  split.
  - intros (earlier & later & He & Hb & Hr & Hl). destruct later as [|y later _] using rev_ind.
    + apply app_inj_tail in He as [_ ->]. left. done.
    + rewrite app_comm_cons, app_assoc in He. apply app_inj_tail in He as [-> ->]. right. split.
      * exists earlier, later. split; [done|]. split; [done|]. split; [done|]. intros z Hz. apply Hl, elem_of_app. by left.
      * apply Hl, elem_of_app. right. by apply list_elem_of_singleton.
  - intros [(-> & Hb & Hr)|((earlier & later & -> & Hb & Hr & Hl) & Hx)].
    + exists events, []. split; [done|]. split; [done|]. split; [done|]. by intros z ?%not_elem_of_nil.
    + exists earlier, (later ++ [x]). split; [by rewrite <- app_assoc|]. split; [done|]. split; [done|].
      intros z [Hz| ->%list_elem_of_singleton]%elem_of_app; [by apply Hl|exact Hx].
Qed.

Lemma open_blockers_iff events b e : open_blockers events !! b = Some e <-> stands events e /\ blocker_id e = b.
Proof.
  revert b e. induction events as [|x events IH] using rev_ind; intros b e.
  { split; [intros Hb; by destruct (lookup_empty_Some (M := gmap string) b e)|]. intros [(earlier & later & He & _) _]. by destruct earlier. }
  rewrite open_blockers_snoc, stands_snoc. unfold blocker_step. fold (is_blocker x). destruct (is_blocker x) eqn:Hb; cbn [negb].
  - destruct (is_text x "status" "resolved") eqn:Hr.
    + rewrite lookup_delete_Some, IH. split.
      * intros (Hn & Hs & He). split; [right; split; [done|]|done]. intros _. congruence.
      * intros [[(_ & _ & [=])|(Hs & Hn)] <-]. split; [by apply Hn|done].
    + rewrite lookup_insert_Some, IH. split.
      * intros [[<- <-]|(Hn & Hs & He)]; [by split; [left|]|]. split; [right; split; [done|]|done]. intros _. congruence.
      * intros [[(-> & _)|(Hs & Hn)] <-]; [by left|]. right. split; [by apply Hn|done].
  - rewrite IH. split.
    + intros [Hs He]. split; [right; split; [done|done]|done].
    + intros [[(_ & [=] & _)|(Hs & _)] He]. done.
Qed.

Lemma open_blockers_empty events : open_blockers events = ∅ <-> forall e, ~ stands events e.
Proof.
  split.
  - intros He e Hs. assert (Hb : open_blockers events !! blocker_id e = Some e) by (by apply open_blockers_iff).
    rewrite He in Hb. by destruct (lookup_empty_Some (M := gmap string) (blocker_id e) e).
  - intros Hno. apply map_empty. intros b. destruct (open_blockers events !! b) as [e|] eqn:Hb; [|done].
    apply open_blockers_iff in Hb as [Hs _]. by destruct (Hno e).
Qed.

(** ** The entry of a workspace *)

Section entries.
Context (hash_order : list string -> list string).

Definition own_tasks (tasks : list Value) (id : string) : list Value := bfilter (of_workspace id) tasks.
Definition own_events (runs tasks events : list Value) (id : string) : list Value :=
  workspace_events (run_workspaces runs) (task_workspaces tasks) id events.

Lemma workspace_fields now runs tasks agents events session w :
  workspace hash_order now runs tasks agents events session = Some w ->
  exists id, text session "id" = Some id /\ text w "id" = Some id /\
    text w "status" = Some (status now (observability session) (bfilter (of_workspace id) runs) (own_tasks tasks id) (own_events runs tasks events id)) /\
    vget w "blocker" = Some (default VNull (last (BTree.values (open_blockers (own_events runs tasks events id))))) /\
    vget w "events" = Some (VArray (own_events runs tasks events id)).
Proof.
  unfold workspace. destruct (text session "id") as [id|]; [|done]. cbn [mbind option_bind]. intros [= <-].
  exists id. split; [done|]. by repeat split.
Qed.

(** *** What a workspace is told by

    The events of a workspace and their order, said without the maps and the sort of the code. *)

(** Of the entries of [l] that [key] names [x] and that name a workspace, the last one names [id]. *)
Definition assigned (key : string) (l : list Value) (x id : string) : Prop :=
  exists earlier v later, l = earlier ++ v :: later /\
    text v key = Some x /\ text v "workspaceSessionId" = Some id /\
    forall u, u ∈ later -> text u key = Some x -> text u "workspaceSessionId" = None.
Definition concerns (runs tasks : list Value) (id : string) (event : Value) : Prop :=
  (exists r, text event "runId" = Some r /\ assigned "runId" runs r id) \/
  (exists t, text event "taskId" = Some t /\ assigned "id" tasks t id) \/
  (exists a, vget event "attributes" = Some a /\ text a "workspaceSessionId" = Some id).

(** [m] is what of [l] satisfies [Q]. *)
Inductive picked {A} (Q : A -> Prop) : list A -> list A -> Prop :=
| picked_nil : picked Q [] []
| picked_one x l m : Q x -> picked Q l m -> picked Q (x :: l) (x :: m)
| picked_not x l m : ~ Q x -> picked Q l m -> picked Q (x :: l) m.

Lemma picked_bfilter {A} (Q : A -> Prop) (q : A -> bool) l :
  (forall x, q x = true <-> Q x) -> picked Q l (bfilter q l).
Proof.
  intros Hq. induction l as [|x l IH]; [constructor|]. cbn [bfilter]. destruct (q x) eqn:Hx.
  - apply picked_one; [by apply Hq|done].
  - apply picked_not; [|done]. rewrite <- Hq. congruence.
Qed.

Definition pair_of (key : string) (v : Value) : option (string * string) :=
  x ← text v key; w ← text v "workspaceSessionId"; Some (x, w).
Lemma collect_snoc pairs p : collect (pairs ++ [p]) = <[p.1 := p.2]> (collect pairs).
Proof. unfold collect. by rewrite foldl_app. Qed.
Lemma assigned_snoc key l v x id :
  assigned key (l ++ [v]) x id <->
  (text v key = Some x /\ text v "workspaceSessionId" = Some id) \/
  ((text v key = Some x -> text v "workspaceSessionId" = None) /\ assigned key l x id).
Proof.
  split.
  - intros (earlier & u & later & He & Hk & Hw & Hl). destruct later as [|y later _] using rev_ind.
    + apply app_inj_tail in He as [_ ->]. by left.
    + rewrite app_comm_cons, app_assoc in He. apply app_inj_tail in He as [-> ->]. right. split.
      * apply Hl, elem_of_app. right. by apply list_elem_of_singleton.
      * exists earlier, u, later. split_and!; try done. intros z Hz. apply Hl, elem_of_app. by left.
  - intros [[Hk Hw]|[Hv (earlier & u & later & -> & Hk & Hw & Hl)]].
    + exists l, v, []. split_and!; try done. by intros z ?%not_elem_of_nil.
    + exists earlier, u, (later ++ [v]). split_and!; [by rewrite <- app_assoc|done|done|].
      intros z [Hz| ->%list_elem_of_singleton]%elem_of_app; [by apply Hl|exact Hv].
Qed.
Lemma collect_assigned key l x id : collect (omap (pair_of key) l) !! x = Some id <-> assigned key l x id.
Proof.
  induction l as [|v l IH] using rev_ind.
  { split; [intros Hx; by destruct (lookup_empty_Some (M := gmap string) x id)|]. intros (e & u & la & He & _). by destruct e. }
  rewrite omap_app, assigned_snoc. cbn [omap list_omap]. unfold pair_of at 2.
  destruct (text v key) as [k|]; cbn [mbind option_bind]; [|rewrite app_nil_r, IH; intuition congruence].
  destruct (text v "workspaceSessionId") as [w|]; cbn [mbind option_bind]; [|rewrite app_nil_r, IH; intuition congruence].
  rewrite collect_snoc, lookup_insert_Some, IH. cbn [fst snd]. destruct (decide (k = x)) as [->|Hk]; intuition congruence.
Qed.

Lemma event_of_concerns runs tasks id event :
  event_of (run_workspaces runs) (task_workspaces tasks) id event = true <-> concerns runs tasks id event.
Proof.
  unfold event_of, concerns. rewrite !orb_true_iff, !bool_decide_eq_true, !bind_Some.
  unfold run_workspaces, task_workspaces. fold (pair_of "runId") (pair_of "id").
  setoid_rewrite (collect_assigned "runId"). setoid_rewrite (collect_assigned "id"). tauto.
Qed.

(** [own] is what the [n] latest of [l] are, in the order of time, as given where the times are the same. *)
Definition before (key : Value -> Z) (x y : Value) : Prop := key x <= key y.
Definition latest (n : nat) (l own : list Value) : Prop :=
  exists dropped, StronglySorted (before timestamp) (dropped ++ own) /\
    (forall t, bfilter (fun e => timestamp e =? t) (dropped ++ own) = bfilter (fun e => timestamp e =? t) l) /\
    length (dropped ++ own) = length l /\ length own = Nat.min n (length l).

Lemma board_sorted key (l : list Value) : StronglySorted (before key) (sort_by_key key l).
Proof.
  assert (Hs : StronglySorted (ordered (fun x y => key x <=? key y)) (sort_by_key key l)).
  { apply sort_by_sorted; [intros x y|intros x y z]; lia. }
  induction Hs as [|x s _ IH Hx]; constructor; [exact IH|]. eapply Forall_impl; [exact Hx|].
  intros y. unfold ordered, before. lia.
Qed.
Lemma last_n_sorted_latest n l : latest n l (last_n n (sort_by_key timestamp l)).
Proof.
  set (s := sort_by_key timestamp l). exists (take (length s - n) s).
  assert (length s = length l) as Hlen by (unfold s, sort_by_key; by rewrite sort_by_perm).
  rewrite <- last_n_split. split; [apply board_sorted|]. split; [|by rewrite length_last_n, Hlen].
  intros t. apply sort_by_key_stable.
Qed.

Lemma no_task_failed tasks id :
  (forall t state, t ∈ tasks -> text t "workspaceSessionId" = Some id -> text t "state" = Some state -> state ∉ FAILED) ->
  has_failed (own_tasks tasks id) = false.
Proof.
  intros Hno. apply not_true_is_false. intros (t & Ht & Hs)%existsb_exists.
  apply list_elem_of_In, elem_of_bfilter in Ht as [Hw%bool_decide_eq_true_1 Ht]. unfold one_of in Hs.
  destruct (text t "state") as [state|] eqn:He; [|done]. apply bool_decide_eq_true_1 in Hs. by eapply Hno.
Qed.

(** C34. The blockers of a workspace are those whose last event does not resolve them, as far as the 300 latest of
    the events that concern it tell: unless one of its tasks has failed, its status is [blocked] exactly when
    there is such a blocker among these, and the blocker it shows is always one of them, or none when there is
    none.  An event concerns the workspace of its run, of its task, or the one it names. *)
Theorem blocked_iff_a_blocker_stands now runs tasks agents events session w :
  workspace hash_order now runs tasks agents events session = Some w ->
  exists id mine own, text session "id" = Some id /\
    picked (concerns runs tasks id) events mine /\ latest 300 mine own /\
    ((forall t state, t ∈ tasks -> text t "workspaceSessionId" = Some id -> text t "state" = Some state ->
        state ∉ ["failed"; "failed-to-cancel"; "timed-out"; "outcome-unknown"]) ->
     text w "status" = Some "blocked" <-> exists e, stands own e) /\
    ((exists e, vget w "blocker" = Some e /\ stands own e) \/ (vget w "blocker" = Some VNull /\ forall e, ~ stands own e)).
Proof.
  intros (id & Hid & _ & Hstatus & Hblocker & _)%workspace_fields.
  exists id, (bfilter (event_of (run_workspaces runs) (task_workspaces tasks) id) events), (own_events runs tasks events id).
  split; [exact Hid|]. split; [apply picked_bfilter, event_of_concerns|]. split; [apply last_n_sorted_latest|].
  set (own := own_events runs tasks events id) in *. split.
  - intros Hf%no_task_failed. rewrite Hstatus. unfold status. rewrite Hf. destruct (bool_decide (open_blockers own = ∅)) eqn:He; cbn [negb].
    + apply bool_decide_eq_true_1 in He. rewrite open_blockers_empty in He. split.
      * destruct (is_stalled _ _ _ _ _); [done|]. by destruct (is_running _ _).
      * intros [e Hs]. by destruct (He e).
    + apply bool_decide_eq_false_1 in He. split; [|done]. intros _. apply map_choose in He as (b & e & Hb).
      apply open_blockers_iff in Hb as [Hs _]. by exists e.
  - rewrite Hblocker. destruct (last (BTree.values (open_blockers own))) as [e|] eqn:Hl.
    + left. exists e. split; [done|]. apply last_Some_elem_of, BTree.elem_of_values in Hl as [b Hb].
      by apply open_blockers_iff in Hb as [Hs _].
    + right. split; [done|]. apply open_blockers_empty. apply last_None in Hl.
      apply map_size_empty_inv. by rewrite <- BTree.length_values, Hl.
Qed.

(** ** The whole board *)

(** [id] is the workspace of an event, by its run, its task or itself. *)
Definition belongs (runs tasks : list Value) (id : string) (event : Value) : Prop :=
  event_of (run_workspaces runs) (task_workspaces tasks) id event = true.

Lemma event_placed runs tasks event :
  unscoped (run_workspaces runs) (task_workspaces tasks) event = true \/ exists id, belongs runs tasks id event.
Proof.
  unfold belongs, unscoped, event_of. destruct (text event "runId") as [r|] eqn:Hr; cbn [mbind option_bind].
  - destruct (run_workspaces runs !! r) as [id|] eqn:Hid.
    + right. exists id. by rewrite bool_decide_eq_true_2.
    + rewrite (bool_decide_eq_true_2 (None = None)) by done. cbn [andb].
      destruct (text event "taskId") as [t|]; cbn [mbind option_bind]; [|by left].
      destruct (task_workspaces tasks !! t) as [id|] eqn:Hid'; [|by left].
      right. exists id. rewrite (bool_decide_eq_true_2 (Some id = Some id)) by done. by rewrite orb_true_r.
  - cbn [andb]. destruct (text event "taskId") as [t|]; cbn [mbind option_bind]; [|by left].
    destruct (task_workspaces tasks !! t) as [id|] eqn:Hid'; [|by left].
    right. exists id. rewrite (bool_decide_eq_true_2 (Some id = Some id)) by done. by rewrite orb_true_r.
Qed.

Lemma own_events_latest runs tasks events id :
  exists dropped, bfilter (event_of (run_workspaces runs) (task_workspaces tasks) id) events ≡ₚ dropped ++ own_events runs tasks events id /\
    (dropped <> [] -> length (own_events runs tasks events id) = EVENT_LIMIT) /\
    forall x y, x ∈ dropped -> y ∈ own_events runs tasks events id -> timestamp x <= timestamp y.
Proof.
  unfold own_events, workspace_events. set (l := bfilter _ events).
  set (s := sort_by_key timestamp l). exists (take (length s - EVENT_LIMIT) s).
  split; [by rewrite <- last_n_split; unfold s, sort_by_key; rewrite sort_by_perm|]. split.
  - intros Hne. rewrite length_last_n. destruct (decide (length s <= EVENT_LIMIT)%nat); [|lia].
    destruct Hne. replace (length s - EVENT_LIMIT)%nat with O by lia. apply take_0.
  - intros x y Hx Hy. apply (last_n_latest (before timestamp) EVENT_LIMIT s); [apply board_sorted|done..].
Qed.

Lemma board_workspaces snapshot runs_value observations now :
  vget (build_workspace_dashboard hash_order snapshot runs_value observations now) "workspaces" =
    Some (VArray (sort_by_key rank (omap (workspace hash_order now (default [] (as_array runs_value)) (elements_of snapshot "tasks")
            (elements_of snapshot "agents") (elements_of observations "events")) (elements_of snapshot "sessions")))).
Proof. reflexivity. Qed.

(** The board leaves nothing out: it has one entry for every session that has an id, the failed ones
    first, then the blocked, the stalled and the active; and every observation is among the events without
    a workspace or belongs to one, whose entry holds it unless it holds 300 that are no earlier. *)
Theorem board_leaves_nothing_out snapshot runs_value observations now :
  let runs := default [] (as_array runs_value) in
  let tasks := elements_of snapshot "tasks" in
  let events := elements_of observations "events" in
  let board := build_workspace_dashboard hash_order snapshot runs_value observations now in
  exists entries unplaced,
    vget board "workspaces" = Some (VArray entries) /\ vget board "unscopedEvents" = Some (VArray unplaced) /\
    omap (fun w => text w "id") entries ≡ₚ omap (fun s => text s "id") (elements_of snapshot "sessions") /\
    StronglySorted (before rank) entries /\
    forall e, e ∈ events ->
      e ∈ unplaced \/
      exists id, belongs runs tasks id e /\
        forall w, w ∈ entries -> text w "id" = Some id ->
          exists own, vget w "events" = Some (VArray own) /\
            (e ∈ own \/ (length own = EVENT_LIMIT /\ forall x, x ∈ own -> timestamp e <= timestamp x)).
Proof.
  intros runs tasks events board. do 2 eexists. split; [apply board_workspaces|]. split; [reflexivity|].
  fold runs tasks events. set (f := workspace hash_order now runs tasks _ events).
  assert (Hids : forall s, (f s ≫= fun w => text w "id") = text s "id").
  { intros s. destruct (f s) as [w|] eqn:Hw.
    - apply workspace_fields in Hw as (id & Hs & Hid & _). by rewrite Hs.
    - unfold f, workspace in Hw. by destruct (text s "id"). }
  split; [|split; [apply board_sorted|]].
  - unfold sort_by_key. rewrite sort_by_perm. induction (elements_of snapshot "sessions") as [|s sessions IH]; [done|].
    simpl. specialize (Hids s). destruct (f s) as [w|]; simpl in Hids |- *; rewrite <- Hids; [|exact IH].
    destruct (text w "id"); [by rewrite IH|exact IH].
  - intros e He. destruct (event_placed runs tasks e) as [Hu|[id Hid]]; [left; by apply elem_of_bfilter|right].
    exists id. split; [exact Hid|]. intros w Hw Hwid. unfold sort_by_key in Hw. rewrite sort_by_perm in Hw.
    apply list_elem_of_omap in Hw as (s & _ & Hs). apply workspace_fields in Hs as (id' & _ & Hid' & _ & _ & Hev).
    assert (id' = id) as -> by congruence. exists (own_events runs tasks events id). split; [exact Hev|].
    destruct (own_events_latest runs tasks events id) as (dropped & Hp & Hfull & Hle).
    assert (Hin : e ∈ dropped ++ own_events runs tasks events id) by (rewrite <- Hp; by apply elem_of_bfilter).
    apply elem_of_app in Hin as [Hd|Ho]; [right|by left]. split; [apply Hfull; by destruct dropped; [apply not_elem_of_nil in Hd|]|].
    intros x Hx. by apply Hle.
Qed.
End entries.

(** ** A board *)

Definition session_a : Value := json_object [("id", VString "a"); ("objective", VString "ship"); ("state", VString "active")].
Definition task_a (state : string) : Value := json_object [
  ("id", VString "t"); ("workspaceSessionId", VString "a"); ("executorId", VString "n"); ("state", VString state)].
Definition snapshot_of (tasks : list Value) : Value := json_object [
  ("sessions", VArray [session_a; json_object [("id", VString "b")]]); ("tasks", VArray tasks); ("agents", VArray [])].
Definition event_at (n : Z) (kind status blocker : string) : Value := json_object [
  ("taskId", VString "t"); ("timestamp", vnat n); ("kind", VString kind); ("status", VString status);
  ("attributes", json_object [("blockerId", VString blocker)])].
Definition events_of (events : list Value) : Value := json_object [("events", VArray events)].
Definition same (l : list string) : list string := l.

Definition stuck : list Value :=
  [event_at 1 "blocker" "active" "x"; event_at 2 "blocker" "active" "y"; event_at 3 "blocker" "resolved" "x"].
Definition entry_a (events : list Value) : Value :=
  default VNull (workspace same 10 [] [task_a "running"] [] events session_a).

Lemma blocked_iff_a_blocker_stands_witness :
  text (entry_a stuck) "status" = Some "blocked" /\
  exists mine own, picked (concerns [] [task_a "running"] "a") stuck mine /\ latest 300 mine own /\
    (exists e, stands own e) /\
    ((exists e, vget (entry_a stuck) "blocker" = Some e /\ stands own e) \/
     (vget (entry_a stuck) "blocker" = Some VNull /\ forall e, ~ stands own e)).
Proof.
  assert (Hb : text (entry_a stuck) "status" = Some "blocked") by (vm_compute; reflexivity). split; [exact Hb|].
  destruct (blocked_iff_a_blocker_stands same 10 [] [task_a "running"] [] stuck session_a (entry_a stuck))
    as (id & mine & own & [= <-] & Hm & Ho & Hs & Hshown); [vm_compute; reflexivity|].
  exists mine, own. split; [exact Hm|]. split; [exact Ho|]. split; [|exact Hshown].
  apply Hs; [|exact Hb]. intros t state Ht _ Hst. apply list_elem_of_singleton in Ht as ->. injection Hst as <-. compute_done.
Defined.

(** A resolved blocker is gone, an open one is shown, and a failed task comes before both. *)
Example entries_by_status :
  text (entry_a (stuck ++ [event_at 4 "blocker" "resolved" "y"])) "status" = Some "active" /\
  vindex (entry_a stuck) "blocker" = event_at 2 "blocker" "active" "y" /\
  (workspace same 10 [] [task_a "failed"] [] stuck session_a ≫= fun w => text w "status") = Some "failed".
Proof. vm_compute. done. Qed.

(** Three hundred later events push an open blocker out of the entry: the workspace is active again
    although nothing resolved it. *)
Example an_old_blocker_is_forgotten :
  text (entry_a [event_at 1 "blocker" "active" "x"]) "status" = Some "blocked" /\
  text (entry_a (event_at 1 "blocker" "active" "x" :: replicate 300 (event_at 2 "note" "info" ""))) "status" = Some "active".
Proof. vm_compute. done. Qed.

Example failed_first :
  let board := build_workspace_dashboard same
    (json_object [("sessions", VArray [json_object [("id", VString "b")]; session_a]); ("tasks", VArray [task_a "failed"])])
    (VArray []) (events_of []) 10 in
  ((fun w => (text w "id", text w "status")) <$> elements_of board "workspaces") =
    [(Some "a", Some "failed"); (Some "b", Some "idle")].
Proof. vm_compute. reflexivity. Qed.
End Board.
