(* ===== verification/Web.v ===== *)
(** * The dashboard server ([crates/workbench-cli/src/main.rs])

    [workbench dashboard] serves the board over HTTP on a loopback address: it
    parses one request per connection, hands the operator session out once, and
    calls the controller for those who hold it.  A thread of its own collects the
    observations that event streams replay. *)

From Stdlib Require Import Ascii String.
From S2P Require Import Prelude RustStd RustText Sequences Json Protocol Executors Board.

Module Web.

Section requests.
Import Str Text8.

(** ** Requests *)

Definition CRLF : string := of_codes [13; 10]%nat.
Definition BLANK : string := CRLF +:+ CRLF.
Definition REQUEST_LIMIT : Z := 65536.

(** The length announced by the headers, the bytes before the blank line. *)
Definition content_length (headers : string) : Z :=
  default 0 (line ← bfind (fun line => Str.starts_with "content-length:" (to_ascii_lowercase line)) (lines (from_utf8_lossy headers));
             kv ← split_once ":" line;
             ExecutionCapacity.parse_usize (trim kv.2)).
(** Whether the bytes read hold the whole request. *)
Definition whole (bytes : string) : bool :=
  match find BLANK bytes with
  | Some header_end => u64_add (Z.of_nat header_end + 4) (content_length (Str.take header_end bytes)) <=? len bytes
  | None => false
  end.

Inductive received := TooLarge | Received (bytes : string).
(** The loop of reads, each of which gives some bytes, none at the end. *)
Fixpoint receive (reads : list (outcome string string)) (bytes : string) : outcome string received :=
  match reads with
  | [] => Ok (Received bytes)
  | read :: reads' =>
      chunk ← read;
      if is_empty chunk then Ok (Received bytes)
      else
        let bytes := bytes +:+ chunk in
        if REQUEST_LIMIT <? len bytes then Ok TooLarge
        else if whole bytes then Ok (Received bytes) else receive reads' bytes
  end.

Definition nth_word (n : nat) (default_word line : string) : string := default default_word (split_whitespace line !! n).
Definition first_line (request : string) : string := default "" (head (lines request)).
Definition method (request : string) : string := nth_word 0 "" (first_line request).
Definition target (request : string) : string := nth_word 1 "/" (first_line request).
Definition path (request : string) : string := default "/" (head (split "?" (target request))).
Definition body (request : string) : string :=
  match find BLANK request with
  | None => ""
  | Some i =>
      let rest := Str.drop (i + 4) request in
      match find BLANK rest with Some j => Str.take j rest | None => rest end
  end.

Definition eq_ignore_ascii_case (a b : string) : bool := bool_decide (to_ascii_lowercase a = to_ascii_lowercase b).
Definition header (request name : string) : option string :=
  line ← bfind (fun line => match split_once ":" line with Some (key, _) => eq_ignore_ascii_case key name | None => false end)
           (lines request);
  kv ← split_once ":" line;
  Some (trim kv.2).

(** [percent_decode]; [u8::from_str_radix] takes a sign. *)
Definition hex_digit (c : ascii) : option nat :=
  let n := nat_of_ascii c in
  if Nat.leb 48 n && Nat.leb n 57 then Some (n - 48)%nat
  else if Nat.leb 97 n && Nat.leb n 102 then Some (n - 87)%nat
  else if Nat.leb 65 n && Nat.leb n 70 then Some (n - 55)%nat
  else None.
Definition hex_byte (a b : ascii) : option nat :=
  if bool_decide (a = "+"%char) then hex_digit b
  else x ← hex_digit a; y ← hex_digit b; Some (16 * x + y)%nat.
Fixpoint percent_bytes (s : string) : option string :=
  match s with
  | EmptyString => Some EmptyString
  | String c s' =>
      if bool_decide (c = "%"%char) then
        match s' with
        | String a (String b rest) => n ← hex_byte a b; decoded ← percent_bytes rest; Some (String (ascii_of_nat n) decoded)
        | _ => None
        end
      else
        decoded ← percent_bytes s';
        Some (String (if bool_decide (c = "+"%char) then " "%char else c) decoded)
  end.
Definition percent_decode (s : string) : option string :=
  decoded ← percent_bytes s; if valid_utf8 decoded then Some decoded else None.

Definition query := gmap string string.
Definition query_pair (item : string) : option (string * string) :=
  kv ← split_once "=" item; k ← percent_decode kv.1; v ← percent_decode kv.2; Some (k, v).
Definition parse_query (target : string) : query :=
  match split_once "?" target with
  | Some (_, query) => Board.collect (omap query_pair (split "&" query))
  | None => ∅
  end.
Definition query_u64 (q : query) (key : string) (fallback : Z) : Z :=
  default fallback (value ← q !! key; ExecutionCapacity.parse_usize value).
Definition id_char (c : ascii) : bool :=
  is_alphanumeric c || bool_decide (c = "-"%char) || bool_decide (c = "_"%char) || bool_decide (c = "."%char) || bool_decide (c = ":"%char).
Definition quoted (s : string) : string := of_codes [34]%nat +:+ s +:+ of_codes [34]%nat.
Definition error_body (message : string) : string := "{" +:+ quoted "error" +:+ ":" +:+ quoted message +:+ "}".
Definition safe_query_id (q : query) (key : string) : outcome string string :=
  match q !! key with
  | Some value =>
      if negb (is_empty value) && (len value <=? 200) && all id_char value then Ok value
      else Err (error_body ("valid " +:+ key +:+ " is required"))
  | None => Err (error_body ("valid " +:+ key +:+ " is required"))
  end.
Definition clamp (low high n : Z) : Z := Z.max low (Z.min n high).

(** ** Answers *)

(** What [write_http] is called with, or an event stream from a cursor on. *)
Inductive reply :=
  | Page (status content_type body : string) (extra : option string)
  | Stream (cursor : Z).
(** [write_http]: the text of a page. *)
Definition http_text (status content_type body : string) (extra : option string) : string :=
  "HTTP/1.1 " +:+ status +:+ CRLF +:+ "Content-Type: " +:+ content_type +:+ CRLF +:+ "Cache-Control: no-store" +:+ CRLF +:+
  "X-Content-Type-Options: nosniff" +:+ CRLF +:+
  "Content-Security-Policy: default-src 'none'; script-src 'self'; style-src 'self'; connect-src 'self'" +:+ CRLF +:+
  default "" extra +:+ "Content-Length: " +:+ pretty (len body) +:+ CRLF +:+ "Connection: close" +:+ CRLF +:+ CRLF +:+ body.

End requests.

(** [DashboardAuth], but for the flag that changes. *)
Module DashboardAuth.
Record t := mk { session : string; csrf : string; bootstrap_expires_at : Z }.
End DashboardAuth.
(** The flag [bootstrap_consumed], and what the controller has been asked. *)
Record web := Web { bootstrap_consumed : bool; asked : list Request.t }.
Definition start_web : web := Web false [].

(** [serve_dashboard]: the secrets of a start. *)
Definition new_auth (uuid1 uuid2 : string) (now : Z) : DashboardAuth.t :=
  DashboardAuth.mk ("op_" +:+ uuid1) ("csrf_" +:+ uuid2) (u64_saturating_add now 60000).

Section server.
Import Str Text8.
Context (value_text : Value -> string) (value_of : string -> option Value) (response_text : Response.t -> string).
Context (hash_order : list string -> list string).
Context (DASHBOARD_HTML DASHBOARD_JS DASHBOARD_CSS : string).
(** What [call_unix] comes to for a request, after those asked before. *)
Context (controller : list Request.t -> Request.t -> outcome string Response.t).
Context (auth : DashboardAuth.t).

Abbreviation handler := (M web string).

(** [call_unix(socket, &Request::new(action, params))], its error as a value. *)
Definition call (action : string) (params : Value) : handler (outcome string Response.t) :=
  uuid ← fresh_uuid;
  let request := Request.new uuid action params in
  w ← get;
  put (Web (bootstrap_consumed w) (asked w ++ [request])) ;;
  mret (controller (asked w) request).
(** [bootstrap_consumed.swap(true)] *)
Definition swap_consumed : handler bool :=
  w ← get; put (Web true (asked w)) ;; mret (bootstrap_consumed w).

Definition page (status content_type body : string) : handler reply := mret (Page status content_type body None).
Definition json (status body : string) : handler reply := page status "application/json" body.
Definition unavailable (error : string) : handler reply :=
  json "503 Service Unavailable" (value_text (json_object [("error", VString error)])).
(** A panic of [call_unix] would be the thread's. *)
Definition settled {A} (answer : outcome string Response.t) (k : string + Response.t -> handler A) : handler A :=
  match answer with Ok response => k (inr response) | Err error => k (inl error) | Panic => lift Panic end.

Definition rpc_result_json (action : string) (params : Value) : handler reply :=
  answer ← call action params;
  settled answer (fun answer =>
    match answer with
    | inr response =>
        if Response.ok response then json "200 OK" (value_text (default VNull (Response.result response)))
        else json "503 Service Unavailable" (response_text response)
    | inl error => unavailable error
    end).
Definition rpc_response_json (action : string) (params : Value) : handler reply :=
  answer ← call action params;
  settled answer (fun answer =>
    match answer with
    | inr response => json "200 OK" (response_text response)
    | inl error => unavailable error
    end).

(** [fetch] of [workspace_dashboard_response] *)
Definition fetch (action : string) (params : Value) : handler (string + Value) :=
  answer ← call action params;
  settled answer (fun answer =>
    mret match answer with
         | inr response =>
             if Response.ok response then inr (default VNull (Response.result response))
             else inl (match Response.error response with Some e => RpcError.message e | None => action +:+ " failed" end)
         | inl error => inl error
         end).
Definition workspace_dashboard_response : handler reply :=
  snapshot ← fetch "dashboard.snapshot" VNull;
  runs ← fetch "run.list" (json_object [("limit", vnat 500)]);
  observations ← fetch "observability.query" (json_object [("limit", vnat 1000)]);
  match snapshot, runs, observations with
  | inr snapshot, inr runs, inr observations =>
      n ← now;
      json "200 OK" (value_text (Board.build_workspace_dashboard hash_order snapshot runs observations n))
  | inl message, _, _ | _, inl message, _ | _, _, inl message => unavailable message
  end.

(** The answer to [/api/logs]. *)
Definition safe_lines (process_id : string) (result : Value) : Value :=
  json_object [("processId", VString process_id);
               ("lines", VArray ((fun text => VString (take_chars 4000 text)) <$> omap as_str (Board.elements_of result "lines")))].
Definition read_logs (q : query) : handler reply :=
  match safe_query_id q "executorId", safe_query_id q "processId" with
  | Ok executor_id, Ok process_id =>
      answer ← call "executor.call" (json_object [
        ("executorId", VString executor_id); ("action", VString "logs.read");
        ("params", json_object [("processId", VString process_id); ("tail", vnat (clamp 1 2000 (query_u64 q "tail" 200)))])]);
      settled answer (fun answer =>
        match answer with
        | inr response =>
            if Response.ok response then json "200 OK" (value_text (safe_lines process_id (default VNull (Response.result response))))
            else json "503 Service Unavailable" (response_text response)
        | inl error => unavailable error
        end)
  | _, _ => json "400 Bad Request" (error_body "valid executorId and processId are required")
  end.

(** ** Routes *)

Definition loopback (host : string) : bool :=
  Str.starts_with "127.0.0.1" host || Str.starts_with "localhost" host || Str.starts_with "[::1]" host.
Definition host_ok (request : string) : bool := from_option loopback false (header request "Host").
Definition authenticated (request : string) : bool :=
  match header request "Cookie" with
  | Some cookie =>
      existsb (fun item => bool_decide (trim item = "workbench_operator=" +:+ DashboardAuth.session auth)) (split ";" cookie)
  | None => false
  end.

Definition cookies : string :=
  "Set-Cookie: workbench_operator=" +:+ DashboardAuth.session auth +:+ "; HttpOnly; SameSite=Strict; Path=/" +:+ CRLF +:+
  "Set-Cookie: workbench_csrf=" +:+ DashboardAuth.csrf auth +:+ "; SameSite=Strict; Path=/" +:+ CRLF.
(** The page itself: the first browser that opens it in time is the operator's. *)
Definition front_page (request : string) : handler reply :=
  let entering := negb (authenticated request) && bool_decide (header request "Sec-Fetch-Dest" = Some "document") in
  refused ← (if entering then
               n ← now;
               if n >? DashboardAuth.bootstrap_expires_at auth then mret true else swap_consumed
             else mret false);
  if (refused : bool) then json "401 Unauthorized" (error_body "dashboard bootstrap expired or already consumed")
  else mret (Page "200 OK" "text/html; charset=utf-8" DASHBOARD_HTML (if entering then Some cookies else None)).

Definition same_origin (request : string) : bool :=
  bool_decide (header request "Origin" = Some ("http://" +:+ default "" (header request "Host"))).
Definition csrf_ok (request : string) : bool :=
  bool_decide (header request "X-CSRF-Token" = Some (DashboardAuth.csrf auth)).
(** [params["grantToken"] = ...] with a fresh grant. *)
Definition with_grant (params : Value) : handler Value :=
  answer ← call "operator.grant" (json_object [("operatorId", VString "dashboard"); ("ttlMs", vnat 60000)]);
  grant ← lift answer;
  token ← lift (ok_or "controller rejected operator grant" (result ← Response.result grant; vget result "grantToken" ≫= as_str));
  lift (expect (vset params "grantToken" (VString token))).
Definition operate (request : string) : handler reply :=
  if negb (same_origin request && csrf_ok request) then json "403 Forbidden" (error_body "Origin or CSRF validation failed")
  else
    let params := default (json_object []) (value_of (body request)) in
    let nonce := bool_decide (path request = "/api/operator/nonce") in
    let operator_action := bool_decide (path request = "/api/operator/action") in
    params ← (if nonce || (operator_action && bool_decide (vget params "actionNonce" = None)) then with_grant params else mret params);
    if nonce then rpc_response_json "operator.nonce" params
    else if operator_action then rpc_response_json "operator.action" params
    else json "404 Not Found" (error_body "not found").

(** [/api/events]: where the stream starts. *)
Fixpoint find_prefixed (p : string) (items : list string) : option string :=
  match items with
  | [] => None
  | item :: items' => match strip_prefix p item with Some rest => Some rest | None => find_prefixed p items' end
  end.
Definition start_cursor (request : string) : Z :=
  match header request "Last-Event-ID" ≫= ExecutionCapacity.parse_usize with
  | Some cursor => cursor
  | None => default 0 (query ← split "?" (target request) !! 1%nat; value ← find_prefixed "cursor=" (split "&" query);
                       ExecutionCapacity.parse_usize value)
  end.

Definition view (request : string) : handler reply :=
  let q := parse_query (target request) in
  let asks p := bool_decide (path request = p) && bool_decide (method request = "GET") in
  if asks "/api/snapshot" then rpc_result_json "dashboard.snapshot" VNull
  else if asks "/api/workspaces" then workspace_dashboard_response
  else if asks "/api/runs" then
    rpc_response_json "run.list" (json_object [
      ("limit", vnat (clamp 1 200 (query_u64 q "limit" 50)));
      ("offset", vnat (Z.min (query_u64 q "offset" 0) 10000));
      ("status", vopt VString (q !! "status"))])
  else if asks "/api/run" then
    match safe_query_id q "runId" with
    | Ok run_id => rpc_response_json "run.get" (json_object [("runId", VString run_id)])
    | Err body => json "400 Bad Request" body
    | Panic => lift Panic
    end
  else if asks "/api/observations" then
    match safe_query_id q "runId" with
    | Ok run_id =>
        rpc_response_json "observability.query" (json_object [
          ("runId", VString run_id);
          ("limit", vnat (clamp 1 1000 (query_u64 q "limit" 500)));
          ("cursors", default (json_object []) (q !! "cursors" ≫= value_of))])
    | Err body => json "400 Bad Request" body
    | Panic => lift Panic
    end
  else if asks "/api/logs" then read_logs q
  else json "404 Not Found" (error_body "not found").

Definition route (request : string) : handler reply :=
  let asks p := bool_decide (path request = p) && bool_decide (method request = "GET") in
  if negb (host_ok request) then json "403 Forbidden" (error_body "loopback Host required")
  else if (bool_decide (path request = "/") || Str.starts_with "/profiles/" (path request)) && bool_decide (method request = "GET")
  then front_page request
  else if asks "/assets/app.js" then page "200 OK" "text/javascript; charset=utf-8" DASHBOARD_JS
  else if asks "/assets/app.css" then page "200 OK" "text/css; charset=utf-8" DASHBOARD_CSS
  else if negb (authenticated request) then json "401 Unauthorized" (error_body "operator session required")
  else if bool_decide (method request = "POST") then operate request
  else if asks "/api/events" then mret (Stream (start_cursor request))
  else view request.

Definition handle_dashboard_connection (reads : list (outcome string string)) : handler reply :=
  received ← lift (receive reads "");
  match received with
  | TooLarge => json "413 Payload Too Large" (error_body "request too large")
  | Received bytes => route (from_utf8_lossy bytes)
  end.

(** The connections of a run, in the order in which they reach the flag; what
    one comes to is its own thread's affair. *)
Fixpoint serve (connections : list (list (outcome string string))) : handler (list (outcome string reply)) :=
  match connections with
  | [] => mret []
  | reads :: connections' => fun s w =>
      let '(o, s, w) := handle_dashboard_connection reads s w in
      ((replies ← serve connections'; mret (o :: replies)) : handler _) s w
  end.
End server.

(** ** Observations for event streams *)

Module DashboardEvents.
Record t := mk { sequence : Z; cursors : Value; replay : list (Z * string) }.
Definition start : t := mk 0 VNull [].
Definition REPLAY_LIMIT : nat := 1000.

Section events.
Import Str Text8.
Context (value_text : Value -> string).

(** What the thread that observes asks. *)
Definition query (e : t) : Value := json_object [("cursors", cursors e); ("limit", vnat 500)].
(** [while replay.len() > 1000 { replay.pop_front(); }] *)
Definition trim_replay (replay : list (Z * string)) : list (Z * string) := Slice.last_n REPLAY_LIMIT replay.
Definition has_events (result : Value) : bool := negb (bool_decide (Board.elements_of result "events" = [])).
(** One turn of its loop, with the answer it gets. *)
Definition observe (answer : outcome string Response.t) (e : t) : t :=
  match answer with
  | Ok (Response.mk true _ _ (Some result) _) =>
      let cursors := default (json_object []) (vget result "cursors") in
      if has_events result then
        let sequence := u64_saturating_add (sequence e) 1 in
        mk sequence cursors (trim_replay (replay e ++ [(sequence, value_text result)]))
      else mk (sequence e) cursors (replay e)
  | _ => e
  end.

(** One turn of the loop of a stream: the frames it writes and its new cursor. *)
Definition frames (e : t) (cursor : Z) : list (Z * string) := bfilter (fun frame => cursor <? frame.1) (replay e).
Definition after_frames (cursor : Z) (sent : list (Z * string)) : Z := from_option fst cursor (last sent).
Definition frame_text (frame : Z * string) : string :=
  "id: " +:+ pretty frame.1 +:+ feed +:+ "event: observations" +:+ feed +:+ "data: " +:+ frame.2 +:+ feed +:+ feed.

(** The observing thread and one stream that still takes what is written to it. *)
Inductive turn := Observe (answer : outcome string Response.t) | Poll.
Record streaming := Streaming { events : t; cursor : Z; sent : list (Z * string) }.
Definition take_turn (s : streaming) (x : turn) : streaming :=
  match x with
  | Observe answer => Streaming (observe answer (events s)) (cursor s) (sent s)
  | Poll => let out := frames (events s) (cursor s) in
            Streaming (events s) (after_frames (cursor s) out) (sent s ++ out)
  end.
Definition take_turns (s : streaming) (turns : list turn) : streaming := foldl take_turn s turns.
End events.
End DashboardEvents.

(** ** A dashboard at work

    What happens at it: a connection comes, or its observing thread takes a turn. *)

Inductive happening := Connection (reads : list (outcome string string)) | Observing.

Section dashboard.
Context (value_text : Value -> string) (value_of : string -> option Value) (response_text : Response.t -> string).
Context (hash_order : list string -> list string).
Context (DASHBOARD_HTML DASHBOARD_JS DASHBOARD_CSS : string).
Context (controller : list Request.t -> Request.t -> outcome string Response.t).
Context (auth : DashboardAuth.t).

(** The thread that observes: one turn of its loop. *)
Definition observe_once (e : DashboardEvents.t) : M web string DashboardEvents.t :=
  answer ← call controller "observability.query" (DashboardEvents.query e);
  mret (DashboardEvents.observe value_text answer e).
Fixpoint dashboard (happenings : list happening) (e : DashboardEvents.t) :
    M web string (list (outcome string reply) * DashboardEvents.t) :=
  match happenings with
  | [] => mret ([], e)
  | Connection reads :: rest => fun s w =>
      let '(o, s, w) := handle_dashboard_connection value_text value_of response_text hash_order
                          DASHBOARD_HTML DASHBOARD_JS DASHBOARD_CSS controller auth reads s w in
      ((after ← dashboard rest e; mret (o :: after.1, after.2)) : M web string _) s w
  | Observing :: rest => e ← observe_once e; dashboard rest e
  end.
End dashboard.

(** ** Who reaches the controller *)

Definition READS : list string := ["dashboard.snapshot"; "run.list"; "run.get"; "observability.query"].
Definition OPERATOR_ACTIONS : list string := ["operator.grant"; "operator.nonce"; "operator.action"].

Section proofs.
Context (value_text : Value -> string) (value_of : string -> option Value) (response_text : Response.t -> string).
Context (hash_order : list string -> list string).
Context (DASHBOARD_HTML DASHBOARD_JS DASHBOARD_CSS : string).
Context (controller : list Request.t -> Request.t -> outcome string Response.t).
Context (auth : DashboardAuth.t).

Abbreviation handle := (handle_dashboard_connection value_text value_of response_text hash_order DASHBOARD_HTML DASHBOARD_JS DASHBOARD_CSS controller auth).
Abbreviation routed := (route value_text value_of response_text hash_order DASHBOARD_HTML DASHBOARD_JS DASHBOARD_CSS controller auth).

(** The session stands in the cookies of a request. *)
Definition holds_session (request : string) : Prop :=
  exists cookie item, header request "Cookie" = Some cookie /\ item ∈ Str.split ";" cookie /\
    Str.trim item = "workbench_operator=" +:+ DashboardAuth.session auth.
(** Its Host begins with the name or an address of the loopback interface. *)
Definition addressed_here (request : string) : Prop :=
  exists name rest, name ∈ ["127.0.0.1"; "localhost"; "[::1]"] /\ header request "Host" = Some (name +:+ rest).
Definition allowed (request : string) (q : Request.t) : Prop :=
  addressed_here request /\ holds_session request /\
  ((method request = "POST" /\ Request.action q ∈ OPERATOR_ACTIONS /\
    header request "X-CSRF-Token" = Some (DashboardAuth.csrf auth) /\
    header request "Origin" = Some ("http://" +:+ default "" (header request "Host"))) \/
   (method request = "GET" /\
    (Request.action q ∈ READS \/
     (Request.action q = "executor.call" /\ Board.text (Request.params q) "action" = Some "logs.read")))).

(** [m] asks only for what [P] allows, leaves the session as it is, and answers as [R] says. *)
Definition asks_only {A} (P : Request.t -> Prop) (R : A -> Prop) (m : M web string A) : Prop :=
  forall s w, let '(o, s', w') := m s w in
    (exists new, asked s' = asked s ++ new /\ Forall P new) /\
    bootstrap_consumed s' = bootstrap_consumed s /\ clock w' = clock w /\ forall a, o = Ok a -> R a.

Lemma asks_bind {A B} P (Q : A -> Prop) (R : B -> Prop) (m : M web string A) (k : A -> M web string B) :
  asks_only P Q m -> (forall a, Q a -> asks_only P R (k a)) -> asks_only P R (m ≫= k).
Proof.
  intros Hm Hk s w. specialize (Hm s w). unfold mbind, M_bind. destruct (m s w) as [[o s1] w1].
  destruct Hm as ((new & Hs & Hnew) & Hc & Hw & HQ). destruct o as [a|e|]; [|by split; [exists new|]..].
  specialize (Hk a (HQ a eq_refl) s1 w1). destruct (k a s1 w1) as [[o s2] w2].
  destruct Hk as ((new' & Hs' & Hnew') & Hc' & Hw' & HR). split; [|split; [congruence|by split; [congruence|]]].
  exists (new ++ new'). rewrite Hs', Hs, app_assoc. split; [done|]. by apply Forall_app.
Qed.
Lemma asks_lift {A} P (R : A -> Prop) (o : outcome string A) : (forall a, o = Ok a -> R a) -> asks_only P R (lift o).
Proof. intros HR s w. split; [by exists []; rewrite app_nil_r|done]. Qed.
Lemma asks_ret {A} P (R : A -> Prop) (a : A) : R a -> asks_only P R (mret a : M web string A).
Proof. intros HR. apply (asks_lift _ _ (Ok a)). by intros ? [= <-]. Qed.
Lemma asks_now P : asks_only P (fun _ => True) now.
Proof. intros s w. split; [by exists []; rewrite app_nil_r|done]. Qed.
Lemma asks_call P action params :
  (forall uuid, P (Request.new uuid action params)) -> asks_only P (fun _ => True) (call controller action params).
Proof. intros HP s w. split; [|done]. eexists [_]. split; [done|]. by constructor. Qed.
Lemma asks_settled {A} P (R : A -> Prop) answer (k : string + Response.t -> M web string A) :
  (forall x, asks_only P R (k x)) -> asks_only P R (settled answer k).
Proof. intros Hk. destruct answer; [apply Hk..|]. by apply asks_lift. Qed.

(** A reply without a cookie. *)
Definition plain (r : reply) : Prop := match r with Page _ _ _ extra => extra = None | Stream _ => True end.
Lemma asks_json P status body : asks_only P plain (json status body).
Proof. by apply asks_ret. Qed.
Lemma asks_unavailable P error : asks_only P plain (unavailable value_text error).
Proof. apply asks_json. Qed.

Ltac asks_step :=
  match goal with
  | |- asks_only _ _ (json _ _) => apply asks_json
  | |- asks_only _ _ (unavailable _ _) => apply asks_unavailable
  | |- asks_only _ _ (mret _) => by apply asks_ret
  | |- asks_only _ _ (lift Panic) => by apply asks_lift
  | |- asks_only _ _ (settled _ _) => apply asks_settled; intros ?
  | |- asks_only _ _ (if _ then _ else _) => case_match
  | |- asks_only _ _ (match _ with _ => _ end) => case_match
  end.
Ltac asks := repeat asks_step.

Lemma asks_result P action params :
  (forall uuid, P (Request.new uuid action params)) ->
  asks_only P plain (rpc_result_json value_text response_text controller action params).
Proof. intros HP. eapply asks_bind; [by apply asks_call|]. intros answer _. asks. Qed.
Lemma asks_response P action params :
  (forall uuid, P (Request.new uuid action params)) ->
  asks_only P plain (rpc_response_json value_text response_text controller action params).
Proof. intros HP. eapply asks_bind; [by apply asks_call|]. intros answer _. asks. Qed.
Lemma asks_fetch P action params :
  (forall uuid, P (Request.new uuid action params)) -> asks_only P (fun _ => True) (fetch controller action params).
Proof. intros HP. eapply asks_bind; [by apply asks_call|]. intros answer _. asks. Qed.

Definition looks (q : Request.t) : Prop :=
  Request.action q ∈ READS \/ (Request.action q = "executor.call" /\ Board.text (Request.params q) "action" = Some "logs.read").
Definition operates (q : Request.t) : Prop := Request.action q ∈ OPERATOR_ACTIONS.

Lemma looks_new action params uuid : action ∈ READS -> looks (Request.new uuid action params).
Proof. by left. Qed.
Ltac reading := intros ?; apply looks_new; unfold READS; repeat (first [apply list_elem_of_here | apply list_elem_of_further]).

Lemma asks_board : asks_only looks plain (workspace_dashboard_response value_text hash_order controller).
Proof.
  eapply asks_bind; [apply asks_fetch; reading|]. intros snapshot _.
  eapply asks_bind; [apply asks_fetch; reading|]. intros runs _.
  eapply asks_bind; [apply asks_fetch; reading|]. intros observations _.
  destruct snapshot, runs, observations; cbv iota; try asks_step. eapply asks_bind; [apply asks_now|]. intros n _. asks.
Qed.
Lemma asks_logs q : asks_only looks plain (read_logs value_text response_text controller q).
Proof.
  unfold read_logs. do 2 (case_match; [|asks_step..]). eapply asks_bind; [apply asks_call; intros uuid; by right|].
  intros answer _. asks.
Qed.
Lemma asks_view request : asks_only looks plain (view value_text value_of response_text hash_order controller request).
Proof.
  unfold view. cbv zeta.
  case_match; [apply asks_result; reading|]. case_match; [apply asks_board|].
  case_match; [apply asks_response; reading|].
  case_match; [case_match; try asks_step; apply asks_response; reading|].
  case_match; [case_match; try asks_step; apply asks_response; reading|].
  case_match; [apply asks_logs|]. asks.
Qed.
Lemma view_only_gets request :
  method request <> "GET" ->
  view value_text value_of response_text hash_order controller request = json "404 Not Found" (error_body "not found").
Proof. intros Hm. unfold view. by rewrite (bool_decide_eq_false_2 (method request = "GET")), !andb_false_r. Qed.

Ltac operating := intros ?; unfold operates, OPERATOR_ACTIONS; cbn [Request.action Request.new]; repeat (first [apply list_elem_of_here | apply list_elem_of_further]).
Lemma asks_operate request :
  asks_only (fun q => operates q /\ same_origin request = true /\ csrf_ok auth request = true) plain
    (operate value_text value_of response_text controller auth request).
Proof.
  unfold operate. destruct (same_origin request); [|apply asks_json]. destruct (csrf_ok auth request); [|apply asks_json].
  cbn [andb negb]. eapply (asks_bind _ (fun _ => True)).
  - case_match; [|by apply asks_ret]. eapply asks_bind; [apply asks_call; intros uuid; split; [revert uuid; operating|done]|].
    intros answer _. eapply (asks_bind _ (fun _ => True)); [by apply asks_lift|]. intros grant _.
    eapply (asks_bind _ (fun _ => True)); [by apply asks_lift|]. intros token _. by apply asks_lift.
  - intros params _. case_match; [|case_match]; [apply asks_response..|apply asks_json].
    all: intros uuid; split; [revert uuid; operating|done].
Qed.

(** The front page: what it does to the flag. *)
Definition browser (request : string) : Prop :=
  addressed_here request /\
  method request = "GET" /\ header request "Sec-Fetch-Dest" = Some "document".

Lemma host_ok_addressed request : host_ok request = true -> addressed_here request.
Proof.
  unfold host_ok, loopback. destruct (header request "Host") as [host|] eqn:Hh; [|done].
  intros [[Hp|Hp]%orb_prop|Hp]%orb_prop; apply Str.starts_with_strip in Hp as [rest ->]; eexists _, rest; (split; [|exact Hh]).
  - by left.
  - by right; left.
  - by do 2 right; left.
Qed.
Lemma authenticated_holds request : authenticated auth request = true -> holds_session request.
Proof.
  unfold authenticated. destruct (header request "Cookie") as [cookie|] eqn:Hc; [|done].
  intros (item & Hi & Ht%bool_decide_eq_true_1)%existsb_exists. exists cookie, item.
  split; [exact Hc|]. split; [by apply list_elem_of_In|exact Ht].
Qed.

(** What a connection leaves: only allowed requests, and a cookie at most for a
    browser that comes in time and finds the flag down. *)
Definition proper (comes : Prop) (s : web) (w : world) (run : outcome string reply * web * world) : Prop :=
  let '(o, s', w') := run in
  clock w' = clock w /\
  ((bootstrap_consumed s' = bootstrap_consumed s /\ forall r, o = Ok r -> plain r) \/
   (bootstrap_consumed s' = true /\
    ((forall r, o = Ok r -> plain r) \/
     (bootstrap_consumed s = false /\ comes /\ (exists k, clock w k <= DashboardAuth.bootstrap_expires_at auth) /\
      exists status content_type body, o = Ok (Page status content_type body (Some (cookies auth))))))).

Lemma asks_proper comes P m s w : asks_only P plain m -> proper comes s w (m s w).
Proof. intros Hm. specialize (Hm s w). destruct (m s w) as [[o s'] w']. destruct Hm as (_ & Hc & Hw & HR). split; [done|]. by left. Qed.
Lemma proper_mono (C D : Prop) s w run : (C -> D) -> proper C s w run -> proper D s w run.
Proof. destruct run as [[o s'] w']. unfold proper. tauto. Qed.

Lemma front_page_proper request s w :
  proper (header request "Sec-Fetch-Dest" = Some "document") s w (front_page DASHBOARD_HTML auth request s w) /\
  asked (front_page DASHBOARD_HTML auth request s w).1.2 = asked s.
Proof.
  unfold front_page. set (entering := negb _ && _). destruct entering eqn:He; cycle 1.
  { split; [|done]. apply (asks_proper _ (fun _ => True)). by apply asks_ret. }
  unfold swap_consumed, mbind, M_bind. cbn. assert (Hdoc : header request "Sec-Fetch-Dest" = Some "document").
  { unfold entering in He. apply andb_true_iff in He as [_ He]. by apply bool_decide_eq_true_1 in He. }
  destruct (clock w (clock_at w) >? DashboardAuth.bootstrap_expires_at auth) eqn:Hlate; cbn.
  - split; [|done]. split; [done|]. left. split; [done|]. by intros r [= <-].
  - destruct (bootstrap_consumed s) eqn:Hb; cbn; (split; [|done]); (split; [done|]); right; (split; [done|]).
    + left. by intros r [= <-].
    + right. split; [done|]. split; [done|]. split; [|by do 3 eexists]. exists (clock_at w). lia.
Qed.

Lemma route_proper request s w : proper (browser request) s w (routed request s w).
Proof.
  unfold route. cbv zeta. destruct (host_ok request) eqn:Hh; [|apply (asks_proper _ (fun _ => True)), asks_json]. cbn [negb].
  case_match eqn:Hp.
  { eapply proper_mono; [|apply front_page_proper]. intros Hd. apply andb_true_iff in Hp as [_ Hm%bool_decide_eq_true_1].
    by split; [apply host_ok_addressed|]. }
  do 2 (case_match; [by apply (asks_proper _ (fun _ => True)), asks_ret|]).
  case_match; [apply (asks_proper _ (fun _ => True)), asks_json|]. case_match; [eapply asks_proper, asks_operate|].
  case_match; [by apply (asks_proper _ (fun _ => True)), asks_ret|eapply asks_proper, asks_view].
Qed.
(** A browser opens the page on a connection. *)
Definition entrance (reads : list (outcome string string)) : Prop :=
  exists bytes, receive reads "" = Ok (Received bytes) /\ browser (Text8.from_utf8_lossy bytes).
Lemma handle_proper reads s w : proper (entrance reads) s w (handle reads s w).
Proof.
  unfold handle_dashboard_connection, mbind, M_bind, lift. destruct (receive reads "") as [[|bytes]|e|] eqn:Hr.
  - by apply (asks_proper _ (fun _ => True) (json "413 Payload Too Large" (error_body "request too large"))), asks_json.
  - eapply proper_mono; [|apply route_proper]. intros Hb. by exists bytes.
  - split; [done|]. by left.
  - split; [done|]. by left.
Qed.

Lemma asks_weaken {A} (P Q : Request.t -> Prop) (R : A -> Prop) m :
  (forall q, P q -> Q q) -> asks_only P R m -> forall s w, exists new, asked (m s w).1.2 = asked s ++ new /\ Forall Q new.
Proof.
  intros HPQ Hm s w. specialize (Hm s w). destruct (m s w) as [[o s'] w']. destruct Hm as ((new & Hs & Hn) & _).
  exists new. split; [exact Hs|]. by eapply Forall_impl.
Qed.
Lemma route_allowed request s w :
  exists new, asked (routed request s w).1.2 = asked s ++ new /\ Forall (allowed request) new.
Proof.
  unfold route. cbv zeta. destruct (host_ok request) eqn:Hh; [|by exists []; rewrite app_nil_r]. apply host_ok_addressed in Hh. cbn [negb].
  case_match; [exists []; rewrite (proj2 (front_page_proper _ s w)), app_nil_r; by split|].
  do 2 (case_match; [by exists []; rewrite app_nil_r|]).
  destruct (authenticated auth request) eqn:Ha; [|by exists []; rewrite app_nil_r]. apply authenticated_holds in Ha. cbn [negb].
  case_match eqn:Hm.
  { apply bool_decide_eq_true_1 in Hm. eapply asks_weaken; [|apply asks_operate]. intros q (Hq & Ho & Hx).
    apply bool_decide_eq_true_1 in Ho, Hx. split; [done|]. split; [done|]. by left. }
  case_match; [by exists []; rewrite app_nil_r|]. destruct (decide (method request = "GET")) as [Hg|Hg].
  - eapply asks_weaken; [|apply asks_view]. intros q Hq. split; [done|]. split; [done|]. by right.
  - rewrite view_only_gets by done. by exists []; rewrite app_nil_r.
Qed.

Lemma handle_allowed reads s w :
  exists new, asked (handle reads s w).1.2 = asked s ++ new /\
    (new = [] \/ exists bytes, receive reads "" = Ok (Received bytes) /\ Forall (allowed (Text8.from_utf8_lossy bytes)) new).
Proof.
  unfold handle_dashboard_connection, mbind, M_bind, lift.
  destruct (receive reads "") as [[|bytes]|e|] eqn:Hr;
    [by exists []; rewrite app_nil_r; split; [|left]| |by exists []; rewrite app_nil_r; split; [|left]..].
  destruct (route_allowed (Text8.from_utf8_lossy bytes) s w) as (new & Hs & Hn). exists new. split; [exact Hs|].
  right. by exists bytes.
Qed.

(** What may be asked for each happening. *)
Definition asked_for (x : happening) (new : list Request.t) : Prop :=
  match x with
  | Connection reads =>
      new = [] \/ exists bytes, receive reads "" = Ok (Received bytes) /\ Forall (allowed (Text8.from_utf8_lossy bytes)) new
  | Observing => exists uuid cursors,
      new = [Request.new uuid "observability.query" (json_object [("cursors", cursors); ("limit", vnat 500)])]
  end.

Abbreviation worked := (dashboard value_text value_of response_text hash_order DASHBOARD_HTML DASHBOARD_JS DASHBOARD_CSS controller auth).

(** C7. Whatever bytes arrive on the connections of a dashboard, and however its observing thread comes in
    between: for a connection the controller is asked something only when its request names a Host that begins
    with [127.0.0.1], [localhost] or [[::1]] and its cookies hold the operator session; what may change its
    state is asked only for a POST that carries the CSRF token and the origin of its host, and nothing but
    reports and logs is asked for a GET.  The observing thread asks for observations only. *)
Theorem only_operators_reach_the_controller happenings e s w :
  exists news, asked (worked happenings e s w).1.2 = asked s ++ concat news /\ Forall2 asked_for happenings news.
Proof.
  revert e s w. induction happenings as [|[reads|] happenings IH]; intros e s w.
  - exists []. by rewrite app_nil_r.
  - cbn [dashboard]. destruct (handle_allowed reads s w) as (new & Hs & Hn).
    destruct (handle reads s w) as [[o s1] w1]. destruct (IH e s1 w1) as (news & Hs' & Hn').
    exists (new :: news). split; [|by constructor]. cbn [concat]. rewrite app_assoc, <- Hs. cbn [fst snd]. rewrite <- Hs'.
    unfold mbind, M_bind. by destruct (worked happenings e s1 w1) as [[[] s2] w2].
  - cbn [dashboard]. unfold observe_once, call, mbind, M_bind. cbn -[dashboard].
    match goal with |- context [worked happenings ?e' ?s' ?w'] => destruct (IH e' s' w') as (news & Hs & Hn) end.
    eexists (_ :: news). rewrite Hs. cbn [concat asked]. rewrite app_assoc. split; [reflexivity|].
    constructor; [|exact Hn]. by do 2 eexists.
Qed.

(** ** The session over a run *)

Definition hands_out (o : outcome string reply) : bool := match o with Ok (Page _ _ _ (Some _)) => true | _ => false end.
Lemma plain_keeps_it (o : outcome string reply) : (forall r, o = Ok r -> plain r) -> hands_out o = false.
Proof. intros Hp. destruct o as [[st ct b [c|]|c]|e|]; try done. by specialize (Hp _ eq_refl). Qed.

Abbreviation served := (serve value_text value_of response_text hash_order DASHBOARD_HTML DASHBOARD_JS DASHBOARD_CSS controller auth).

(** C18. Over a whole run at most one answer hands out the operator session, none once it has been handed
    out; that one goes to a browser that opens the page under a loopback Host, not after the deadline, and
    carries the session and the token that go with it. *)
Theorem operator_session_is_handed_out_once connections s w :
  exists replies, (served connections s w).1.1 = Ok replies /\ length replies = length connections /\
    (length (bfilter hands_out replies) + (if bootstrap_consumed s then 1 else 0) <= 1)%nat /\
    forall i r, replies !! i = Some r -> hands_out r = true ->
      (exists reads, connections !! i = Some reads /\ entrance reads) /\
      (exists k, clock w k <= DashboardAuth.bootstrap_expires_at auth) /\
      exists status content_type body, r = Ok (Page status content_type body (Some (cookies auth))).
Proof.
  revert s w. induction connections as [|reads connections IH]; intros s w.
  { exists []. split; [done|]. split; [done|]. split; [simpl; destruct (bootstrap_consumed s); lia|]. by intros i r ?. }
  cbn [serve]. pose proof (handle_proper reads s w) as Hh. destruct (handle reads s w) as [[o s1] w1].
  destruct Hh as (Hw & Hh). destruct (IH s1 w1) as (replies & Hrun & Hlen & Hone & Hwho). rewrite Hw in Hwho.
  exists (o :: replies). split.
  { unfold mbind, M_bind. destruct (served connections s1 w1) as [[o' s2] w2]. simpl in Hrun. by rewrite Hrun. }
  split; [simpl; congruence|].
  destruct Hh as [[Hc Hp%plain_keeps_it]|[Hc [Hp%plain_keeps_it|(Hb & Hr & Hk & st & ct & b & ->)]]].
  - rewrite <- Hc. simpl. rewrite Hp. split; [exact Hone|]. intros [|i] r Hi Ho; [simplify_eq/=; congruence|]. by apply (Hwho i).
  - rewrite Hc in Hone. simpl. rewrite Hp. split; [destruct (bootstrap_consumed s); lia|].
    intros [|i] r Hi Ho; [simplify_eq/=; congruence|]. by apply (Hwho i).
  - rewrite Hc in Hone. simpl. rewrite Hb. split; [lia|]. intros [|i] r Hi Ho; [|by apply (Hwho i)].
    simplify_eq/=. split; [by exists reads|]. split; [done|]. by exists st, ct, b.
Qed.
End proofs.

(** ** Streams *)

Section streams.
Import DashboardEvents.
Context (value_text : Value -> string).

(** The texts of the observations that were not empty, in their order. *)
Definition published_by (x : turn) : option string :=
  match x with
  | Observe (Ok (Response.mk true _ _ (Some result) _)) => if has_events result then Some (value_text result) else None
  | _ => None
  end.
Definition published (turns : list turn) : list string := omap published_by turns.
Lemma published_app a b : published (a ++ b) = published a ++ published b.
Proof. apply omap_app. Qed.
Lemma length_published turns : (length (published turns) <= length turns)%nat.
Proof. unfold published. induction turns as [|x l IH]; [done|]. unfold omap in IH. simpl in *. case_match; simpl; lia. Qed.
(** The [n]th text ever published has the number [n]. *)
Definition numbered (texts : list string) : list (Z * string) := imap (fun i text => (Z.of_nat i + 1, text)) texts.

Lemma numbered_app l l' : numbered (l ++ l') = numbered l ++ imap (fun i text => (Z.of_nat (length l + i) + 1, text)) l'.
Proof. unfold numbered. by rewrite imap_app. Qed.
Lemma numbered_snoc l x : numbered (l ++ [x]) = numbered l ++ [(Z.of_nat (length l) + 1, x)].
Proof. rewrite numbered_app. simpl. by rewrite Nat.add_0_r. Qed.
Lemma length_numbered l : length (numbered l) = length l.
Proof. apply length_imap. Qed.
Lemma last_numbered l d : from_option fst d (last (numbered l)) = if decide (l = []) then d else Z.of_nat (length l).
Proof.
  destruct l as [|x l _] using rev_ind; [done|]. rewrite numbered_snoc, last_snoc, decide_False by (by destruct l).
  simpl. rewrite length_app. simpl. lia.
Qed.

(** The events are those published so far, of which the last thousand are kept. *)
Definition keeps_log (texts : list string) (e : DashboardEvents.t) : Prop :=
  sequence e = Z.of_nat (length texts) /\ replay e = Slice.last_n REPLAY_LIMIT (numbered texts).

Lemma observe_keeps_log answer texts e :
  Z.of_nat (length texts) < u64_max -> keeps_log texts e ->
  keeps_log (texts ++ published [Observe answer]) (observe value_text answer e).
Proof.
  intros Hlt [Hs Hr]. destruct answer as [[ok v rid result err]|err|]; cbn; try by rewrite List.app_nil_r.
  destruct ok; [|by rewrite List.app_nil_r]. destruct result as [result|]; [|by rewrite List.app_nil_r].
  destruct (has_events result); [|by rewrite List.app_nil_r]. unfold keeps_log. cbn [sequence replay].
  assert (Hn : u64_saturating_add (sequence e) 1 = Z.of_nat (length texts) + 1) by (unfold u64_saturating_add; lia).
  rewrite Hn, Hr, numbered_snoc, length_app. split; [simpl; lia|]. unfold trim_replay. by rewrite Slice.last_n_snoc by (unfold REPLAY_LIMIT; lia).
Qed.
Lemma start_keeps_log : keeps_log [] start.
Proof. by split. Qed.

(** What a poll writes: the texts kept whose number is past the cursor. *)
Definition past (k : nat) (frame : Z * string) : bool := Z.of_nat k <? frame.1.
Lemma past_none k texts : (length texts <= k)%nat -> bfilter (past k) (numbered texts) = [].
Proof.
  induction texts as [|x texts IH] using rev_ind; [done|]. rewrite length_app. simpl. intros Hk.
  rewrite numbered_snoc, bfilter_app, IH by lia. simpl. unfold past. simpl. by destruct (_ <? _) eqn:?; [lia|].
Qed.
Lemma past_some k texts : (k <= length texts)%nat -> bfilter (past k) (numbered texts) = drop k (numbered texts).
Proof.
  induction texts as [|x texts IH] using rev_ind; [by destruct k|]. intros Hk.
  destruct (decide (k = length (texts ++ [x]))) as [->|Hne]; rewrite length_app in *; simpl in *.
  - rewrite past_none by (rewrite length_app; simpl; lia). by rewrite drop_ge by (rewrite length_numbered, length_app; simpl; lia).
  - rewrite numbered_snoc, bfilter_app, IH by lia. rewrite drop_app_le by (rewrite length_numbered; lia). f_equal.
    simpl. unfold past. simpl. by destruct (_ <? _) eqn:?; [|lia].
Qed.

Lemma frames_log k texts e :
  keeps_log texts e -> (k <= length texts)%nat -> (length texts <= k + REPLAY_LIMIT)%nat ->
  frames e (Z.of_nat k) = drop k (numbered texts).
Proof.
  intros [_ Hr] Hk Hlag. unfold frames. rewrite Hr. fold (past k). rewrite <- past_some by done.
  unfold Slice.last_n. rewrite <- (take_drop (length (numbered texts) - REPLAY_LIMIT) (numbered texts)) at 3.
  rewrite bfilter_app, (proj2 (bfilter_nil (past k) (take _ _))); [done|].
  intros [n x] Hx. apply list_elem_of_lookup in Hx as [i Hi]. apply lookup_take_Some in Hi as [Hi Hlt].
  unfold numbered in Hi. rewrite list_lookup_imap in Hi. destruct (texts !! i); simplify_eq/=.
  rewrite length_numbered in Hlt. unfold past. simpl. lia.
Qed.

(** At no turn the stream is more than a thousand observations behind. *)
Definition lag (s : streaming) : Z := sequence (events s) - cursor s.
Fixpoint keeps_up (s : streaming) (turns : list turn) : Prop :=
  lag s <= Z.of_nat REPLAY_LIMIT /\
  match turns with [] => True | x :: turns' => keeps_up (take_turn value_text s x) turns' end.

(** The stream has sent what was published past [k] and up to its cursor [j]. *)
Definition has_sent (k : nat) (texts : list string) (j : nat) (s : streaming) : Prop :=
  keeps_log texts (events s) /\ cursor s = Z.of_nat j /\ (k <= length texts)%nat /\ (j <= length texts)%nat /\
  drop k (numbered texts) = sent s ++ drop j (numbered texts).

Lemma after_frames_log j texts : (j <= length texts)%nat -> after_frames (Z.of_nat j) (drop j (numbered texts)) = Z.of_nat (length texts).
Proof.
  intros Hj. destruct (decide (j = length texts)) as [->|Hne]; [by rewrite drop_ge by (by rewrite length_numbered)|].
  destruct texts as [|x texts _] using rev_ind; simpl in *; [lia|]. rewrite length_app in *. simpl in *.
  rewrite numbered_snoc, drop_app_le by (rewrite length_numbered; lia). unfold after_frames. rewrite last_snoc. simpl. lia.
Qed.

Lemma observe_sends k texts j s answer :
  Z.of_nat (length texts) < u64_max -> has_sent k texts j s ->
  has_sent k (texts ++ published [Observe answer]) j (take_turn value_text s (Observe answer)).
Proof.
  intros Hlt (Hlog & Hc & Hk & Hj & Hsent). split; [by apply observe_keeps_log|]. split; [exact Hc|].
  rewrite length_app. split; [lia|]. split; [lia|].
  rewrite numbered_app, !drop_app_le by (rewrite length_numbered; lia). by rewrite Hsent, <- app_assoc.
Qed.
Lemma poll_sends k texts j s :
  lag s <= Z.of_nat REPLAY_LIMIT -> has_sent k texts j s ->
  has_sent k texts (length texts) (take_turn value_text s Poll).
Proof.
  intros Hlag (Hlog & Hc & Hk & Hj & Hsent). unfold lag in Hlag. rewrite (proj1 Hlog), Hc in Hlag.
  assert (Hf : frames (events s) (cursor s) = drop j (numbered texts)) by (rewrite Hc; apply frames_log; [done|lia..]).
  unfold has_sent, take_turn. cbn [events cursor sent]. rewrite Hf, Hc, after_frames_log by done.
  rewrite (drop_ge _ (length texts)) by (by rewrite length_numbered). rewrite app_nil_r. by split_and!.
Qed.

Lemma turns_send turns k texts j s :
  Z.of_nat (length texts + length turns) <= u64_max -> keeps_up s turns -> has_sent k texts j s ->
  exists j', has_sent k (texts ++ published turns) j' (take_turns value_text s turns) /\
    (last turns = Some Poll -> j' = length (texts ++ published turns)).
Proof.
  revert texts j s. induction turns as [|x turns IH]; intros texts j s Hmax Hup Hs.
  { exists j. rewrite app_nil_r. by split. }
  destruct Hup as [Hlag Hup]. simpl in Hmax. destruct x as [answer|].
  - assert (Hp : texts ++ published (Observe answer :: turns) = (texts ++ published [Observe answer]) ++ published turns).
    { rewrite <- app_assoc. f_equal. apply (published_app [_]). }
    pose proof (length_published [Observe answer] : (_ <= 1)%nat) as Hlen.
    destruct (IH (texts ++ published [Observe answer]) j (take_turn value_text s (Observe answer))) as (j' & Hs' & Hlast).
    { rewrite length_app. lia. } { exact Hup. } { apply observe_sends; [lia|exact Hs]. }
    rewrite Hp. exists j'. split; [exact Hs'|]. intros Hl. apply Hlast. by destruct turns.
  - destruct (IH texts (length texts) (take_turn value_text s Poll)) as (j' & Hs' & Hlast); [lia|exact Hup|by eapply poll_sends|].
    change (published (Poll :: turns)) with (published turns). exists j'. split; [exact Hs'|]. intros Hl.
    destruct turns as [|y turns]; [|by apply Hlast]. destruct Hs' as (_ & Hc & _ & _ & _).
    cbn [take_turns foldl] in Hc. rewrite app_nil_r.
    destruct (poll_sends k texts j s Hlag Hs) as (_ & Hc' & _). change (published []) with (@nil string). lia.
Qed.

(** C35. A stream that starts after the [k]th observation this dashboard has published, and never falls more
    than a thousand behind, is sent every later one exactly once, in order and under its own number; after
    a turn of its loop none is left. *)
Theorem streams_miss_nothing answers k turns :
  let before := Observe <$> answers in
  let e := foldl (fun e answer => observe value_text answer e) start answers in
  let s := Streaming e (Z.of_nat k) [] in
  (k <= length (published before))%nat -> Z.of_nat (length answers + length turns) <= u64_max -> keeps_up s turns ->
  exists rest, drop k (numbered (published (before ++ turns))) = sent (take_turns value_text s turns) ++ rest /\
    (last turns = Some Poll -> rest = []).
Proof.
  intros before e s Hk Hmax Hup.
  assert (Hlog : forall l texts e, Z.of_nat (length texts + length l) <= u64_max -> keeps_log texts e ->
            keeps_log (texts ++ published (Observe <$> l)) (foldl (fun e answer => observe value_text answer e) e l)).
  { induction l as [|a l IH]; intros texts e' Hm He; [by rewrite app_nil_r|]. simpl in Hm.
    replace (texts ++ published (Observe <$> (a :: l))) with ((texts ++ published [Observe a]) ++ published (Observe <$> l))
      by (rewrite <- app_assoc; f_equal; symmetry; apply (published_app [_])).
    apply IH; [|apply observe_keeps_log; [lia|exact He]]. rewrite length_app.
    pose proof (length_published [Observe a] : (_ <= 1)%nat) as Hone. lia. }
  specialize (Hlog answers [] start ltac:(simpl; lia) start_keeps_log). simpl in Hlog. fold before in Hlog.
  assert (Hb : (length (published before) <= length answers)%nat).
  { rewrite <- (length_fmap Observe answers). apply length_published. }
  destruct (turns_send turns k (published before) k s) as (j & (_ & _ & _ & _ & Hsent) & Hlast);
    [lia|exact Hup|by split_and!|].
  rewrite published_app. exists (drop j (numbered (published before ++ published turns))). split; [exact Hsent|].
  intros Hl. rewrite (Hlast Hl). by rewrite drop_ge by (by rewrite length_numbered).
Qed.
End streams.

(** ** A dashboard *)

Import DashboardEvents.
Definition tag (v : Value) : string := default "" (vget v "tag" ≫= as_str).
Definition seen (name : string) : outcome string Response.t :=
  Ok (Response.success "req_1" (json_object [("events", VArray [VNull]); ("cursors", json_object []); ("tag", VString name)])).

Lemma streams_miss_nothing_witness :
  let e := foldl (fun e answer => observe tag answer e) start [seen "a"; seen "b"] in
  let turns := [Poll; Observe (seen "c"); Observe (Err "gone"); Poll] in
  let s := take_turns tag (Streaming e 1 []) turns in
  sent s = [(2, "b"); (3, "c")] /\
  exists rest, drop 1 (numbered (published tag ((Observe <$> [seen "a"; seen "b"]) ++ turns))) = sent s ++ rest /\
    (last turns = Some Poll -> rest = []).
Proof.
  intros e turns s. split; [vm_compute; reflexivity|].
  apply (streams_miss_nothing tag [seen "a"; seen "b"] 1 turns).
  - vm_compute. lia.
  - vm_compute. discriminate.
  - vm_compute. repeat split; discriminate.
Defined.

(** The numbers start again with the dashboard: a browser that comes back with the number it saw last is not
    sent what is published until the new numbers have passed it. *)
Example a_restart_skips_observations :
  let e := foldl (fun e answer => observe tag answer e) start [seen "a"; seen "b"; seen "c"] in
  frames e 3 = [] /\ sent (take_turns tag (Streaming e 7 []) [Poll; Observe (seen "d"); Poll]) = [].
Proof. vm_compute. split; reflexivity. Qed.

Definition operator : DashboardAuth.t := DashboardAuth.mk "op_1" "csrf_1" 60000.
Definition granting (asked : list Request.t) (q : Request.t) : outcome string Response.t :=
  Ok (Response.success (Request.request_id q) (json_object [("grantToken", VString "grant_1")])).
Definition quiet_world (at_ : Z) : world := {|
  clock := fun _ => at_; clock_at := O; uuids := fun _ => "u"; uuid_at := O; io_ok := fun _ => true; io_at := O |}.
Definition answer_to (value_of : string -> option Value) (bytes : string) (s : web) : outcome string reply * web :=
  (handle_dashboard_connection tag value_of (fun _ => "response") (fun l => l) "<html>" "js" "css" granting operator
     [Ok bytes] s (quiet_world 1000)).1.
Definition lines_text (l : list string) : string := foldr (fun line rest => line +:+ CRLF +:+ rest) CRLF l.

Definition opening : string := lines_text ["GET / HTTP/1.1"; "Host: 127.0.0.1:7070"; "Sec-Fetch-Dest: document"].
(** The first browser gets the session, a second one is turned away. *)
Example one_browser_enters :
  (serve tag (fun _ => None) (fun _ => "response") (fun l => l) "<html>" "js" "css" granting operator
     [[Ok opening]; [Ok opening]] start_web (quiet_world 1000)).1.1 =
  Ok [Ok (Page "200 OK" "text/html; charset=utf-8" "<html>" (Some (cookies operator)));
      Ok (Page "401 Unauthorized" "application/json" (error_body "dashboard bootstrap expired or already consumed") None)].
Proof. vm_compute. reflexivity. Qed.

(** A name of someone else that begins like a loopback one passes for one. *)
Example a_foreign_host_is_loopback :
  let request := lines_text ["GET / HTTP/1.1"; "Host: localhost.example.com"; "Sec-Fetch-Dest: document"] in
  host_ok request = true /\
  (answer_to (fun _ => None) request start_web).1 = Ok (Page "200 OK" "text/html; charset=utf-8" "<html>" (Some (cookies operator))).
Proof. vm_compute. split; reflexivity. Qed.

Definition posting (content : string) : string :=
  lines_text ["POST /api/operator/nonce HTTP/1.1"; "Host: 127.0.0.1:7070"; "Origin: http://127.0.0.1:7070";
              "Cookie: workbench_operator=op_1"; "X-CSRF-Token: csrf_1"; "Content-Length: 2"] +:+ content.
Example a_nonce_is_asked_with_a_grant :
  (Request.action <$> asked (answer_to (fun _ => Some (json_object [])) (posting "{}") start_web).2) = ["operator.grant"; "operator.nonce"] /\
  (answer_to (fun _ => Some (json_object [])) (posting "{}") start_web).1 = Ok (Page "200 OK" "application/json" "response" None).
Proof. vm_compute. split; reflexivity. Qed.
(** A body that is a list has no fields: the thread panics once the grant has been issued. *)
Example a_list_for_a_body_panics :
  (answer_to (fun _ => Some (VArray [])) (posting "[]") start_web).1 = Panic /\
  (Request.action <$> asked (answer_to (fun _ => Some (VArray [])) (posting "[]") start_web).2) = ["operator.grant"].
Proof. vm_compute. split; reflexivity. Qed.
End Web.
